(* ===== verification/_CoqProject ===== *)
-Q . S2P
Prelude.v
GoStrings.v
Provider.v
Digest.v
Dotenv.v
Ref.v
EnvExec.v
Template.v
Paths.v
Config.v
OpMetadata.v
SyncState.v
SyncInvariant.v
SyncFinalize.v
SyncJournal.v
SyncProps.v
GoEncoding.v
GoTime.v
Targets.v
TargetProps.v
Envelope.v
Replay.v
EnvelopeProps.v
Retry.v
Effects.v
SyncRun.v
SyncRunProps.v
SyncOutcome.v
Json.v
LaunchError.v
JsonScan.v
Base64.v
LaunchTypes.v
LaunchManifest.v
LaunchProps.v
LaunchFixture.v
LaunchSession.v
LaunchSessionProps.v
LaunchRuntime.v
LaunchRuntimeProps.v
LaunchOrder.v
LaunchProvider.v
LaunchSupervisor.v
LaunchSupervisorProps.v
LaunchRecovery.v
LaunchHelper.v
LaunchHelperProps.v
LaunchDelivery.v
LaunchProcess.v
LaunchChannelFixture.v
TimeParse.v
Keystore.v
Local.v
LocalProps.v
LocalFixture.v
LocalStore.v
StateManifest.v
StateManifestProps.v
StateMigration.v
StateMigrationSteps.v
StateMigrationProps.v
StateMigrationRecovery.v
StateMigrationFixture.v
ComposeGen.v
ComposeGenProps.v
ComposeGenAccept.v
ComposeGenFixture.v
SyncStateCmd.v
SyncStateProps.v
SyncStateFixture.v
Differ.v
Scanner.v
ScannerProps.v
Generate.v
GenerateProps.v
Commands.v
CommandsProps.v
CommandsLocal.v
Azure.v
PlanServer.v
