(* ===== verification/Prelude.v ===== *)
(** * Verification of skret

skret reads secrets from a cloud provider or a local file and hands them to
processes, files and other services.  This library models the parts of its Go
code (under src/internal and src/cmd) that decide what is read, changed, sent and
recorded, and proves what makes them correct.

** The program's parts and the files that model them

- The standard library: GoStrings (byte strings, UTF-8, package strings),
  GoEncoding (JSON strings, base64, decimal numbers, times), GoTime and TimeParse
  (the calendar, RFC 3339), Base64 (decoding), Json (typed encodings that can be
  signed), Digest (hexadecimal; SHA-256, HMAC and Ed25519 as interfaces), Paths
  (path/filepath), Effects (a state and error monad with its triples).
- Reading: Dotenv (dotenv/dotenv.go, importer/dotenv.go), Ref (ref/ref.go,
  references between values), Template (template/template.go), EnvExec
  (exec/exec.go, the environment of a child), Config (config/*.go), Provider
  (provider/provider.go, mutation.go and registry.go: secrets, errors, the registry
  of factories, and the exit codes of pkg/skret/errors.go).
- The providers: Keystore (keystore/*.go: key material, the age envelope, the
  legacy per-value envelope), Local (provider/local/local.go and audit.go: the
  encrypted file with its calls, and the audit trail), Azure (provider/azure: the
  key vault over an interface to its client).
- The commands that change secrets: Generate (cli/generate.go: the draw of values
  from a source of bytes), Commands (cli/set.go, delete.go, rollback.go, rotate.go,
  import.go) over the class Backend, which Local (in CommandsLocal) and Azure
  implement.
- Comparing and searching: Differ (differ/*.go: two sources by the hashes of their
  values), Scanner (scanner/*.go, cli/scan.go: managed values in files and in the
  history of a repository).
- Synchronising to other services.  Targets (syncer/syncer.go, registry.go,
  dotenv.go, terraform.go, k8s.go, manifest.go) has the destinations: names,
  identities and file contents.  OpMetadata and SyncState (syncer/state.go) are
  the journal of one target, one definition per method.  SyncRun (cli/sync.go)
  is the command that composes them: it selects targets and runs each around its
  journal.  Retry (syncer/retry.go) has the HTTP read and mutation calls.
- Upgrading the journal's files: StateManifest (syncer/migration_manifest.go and
  the portable scanner) is the signed inventory of a directory; StateMigration
  (syncer/state_migration.go) moves one file from v1 to v2 and recovers after a
  crash; SyncStateCmd (cli/sync_state.go) is the command around both.
- PlanServer (cli/sync_plan_server.go) is the planner of a sync: the strict decoding
  of a request and the handler around it.
- Signed messages: Envelope (syncer/envelope_client.go) builds and verifies the
  executor envelopes, Replay (syncer/envelope_replay.go) makes each one single
  use.
- Launching containers with secrets (secretlaunch/*.go).  LaunchTypes,
  LaunchManifest and LaunchError (manifest.go, renew.go, errors.go) are the signed
  authority, its trust policy and renewal; JsonScan (manifest.go) the scanner that
  every signed document passes; LaunchSession (crypto.go) the channel;
  LaunchRuntime (runtime.go, manifest_mount.go) the rendered model and docker;
  LaunchOrder and LaunchSupervisor (supervisor.go) the reconciliation and the loop
  around it; LaunchProvider (provider.go) the fetch of exact versions; LaunchHelper
  (helper.go) the other end of the channel, inside the container; LaunchProcess
  (process.go, process_unix.go) the start of the child.
- ComposeGen (src/cmd/skret-compose-gen/main.go) is the offline generator that
  turns a compose file into the signed manifest, trust document and model that the
  launcher accepts.

The parts meet where the code calls across: SyncRun drives SyncState and Targets;
SyncStateCmd reads a StateManifest, runs the StateMigration or hands an Envelope to
the hub; ComposeGen signs with LaunchManifest and checks itself with the parser and
the verifier that LaunchSupervisor and LaunchHelper use; LaunchSupervisor sends
through LaunchSession what LaunchHelper collects and LaunchProcess starts; the
commands call a Backend and draw their values with Generate.

A provider may keep two keys as one secret (a key vault has no underscores in its
names, so DB_URL and DB-URL are one).  The class Backend therefore has an entry for
each key, the theorems of the commands are stated by entry, and the laws of a store
(BackendLaws) are proved for the local provider, where every key is its own entry,
and for the key vault.

** Conventions

A Go function that returns a value and an error is a function into [result]; one
that returns only an error gives an [option].  A method that mutates its receiver
returns the new state together with its error, since a state changed before an
error stays changed.  Code that calls the outside is written in a state and error
monad whose world is the state in memory with the files, or the trace of what was
done; what other parties answer is a function of that trace or of the number of the
call.  In the migration every system call is a step that succeeds, fails, or is the
last of its process.  A [string] is a byte string; [time] is a number of nanoseconds;
64-bit and 32-bit integers are [Z] with their bounds where they matter.  Go's
unspecified choices (map order, unstable sorts) and other packages' functions
(hashes, signatures, decoders, Unicode tables) are classes: a theorem holds for
every instance, and witnesses use concrete ones.  A signature is known to verify only
under a key whose public half belongs to its seed (Digest.key_pair): 64 bytes given as
a private key need not be one, and the theorems on signing say so.

** What the theorems show

- SyncInvariant, SyncFinalize, SyncJournal, SyncProps: the journal is a state
  machine; every reachable state can be saved and loaded, each key follows its
  life cycle, finishing and verification do not depend on map order and fail
  closed, and the drift cache holds only acknowledged values.
- SyncRunProps, SyncOutcome: the sync command never sends a value before the
  operation that covers it is on disk, and records each outcome before the next
  step; what a successful and a failed run leave behind.
- TargetProps: files and destinations lose no secret, identities are distinct.
- StateManifestProps: a manifest that verifies is the exact inventory of its root.
- StateMigrationSteps, StateMigrationProps, StateMigrationRecovery: whatever call
  fails and wherever the process is killed, in the migration or in a recovery, the
  disk is in one of seven stages, each with the v1 bytes at the source or in the
  backup; recovery without faults comes to an end.
- SyncStateProps: the command writes nothing without --execute, tells the hub
  nothing of the state file but what the manifest says, is as crash-safe as the
  migration, and its check for repeated JSON keys is exact.
- LocalProps, LocalStore: the provider refines an abstract store, never drops
  encryption, leaves the files alone when a call fails, and every change adds one
  entry to a trail that reads back.
- Azure: a key gives a valid name, which is its own; what a write came to is what the
  call says, at most one request is made, descriptions, expiries and tags come back;
  the laws of a store hold by entry.
- CommandsProps: a rotation does nothing when anything is refused, and is exact and
  changes only what it names otherwise; an import overwrites only where it was told
  to, as far as the check for existing secrets reports; CommandsLocal: both on the
  local provider.
- GenerateProps: drawn values are uniform, and the draw ends.
- Differ: the comparison is exact for every map order.
- ScannerProps: a scan reports exactly the managed values of the text files; the walk
  over the history reports the first sighting of each blob.
- PlanServer: the check for repeated fields is exact, and a plan is served exactly for
  the canonical form of a valid request.
- EnvelopeProps: envelopes verify until they expire, their signature binds every
  field, and each scope is accepted once.
- Retry: reads stop after three requests, mutations are sent once.
- LaunchProps: an accepted manifest is authentic, trusted and current, what is
  signed is accepted, a renewal moves only the window; JsonScan: the scanner accepts
  exactly its grammar.
- LaunchSessionProps, LaunchHelperProps, LaunchDelivery: frames open once and in
  order, the helper starts the child only with the complete secrets of a live
  manifest, what the supervisor sends is what the child gets, and a silent supervisor
  ends the child, or the helper says that it could not be killed.
- LaunchSupervisor (what every step of a reconciliation keeps of the trace),
  LaunchSupervisorProps, LaunchRecovery, LaunchRuntimeProps, LaunchOrder,
  LaunchProcess: start order, which containers a reconciliation may touch and what
  its success means, one launch per run with every stream closed at its end, one
  model per manifest, the child's exact environment.
- ComposeGenProps, ComposeGenAccept: the artifacts do not depend on secret values
  nor on map order, and what is built the launcher accepts.
- Dotenv, Ref, EnvExec, Template, Config: round trips, refinement of declarative
  semantics, and what each routine keeps or refuses.
- LaunchFixture, LaunchChannelFixture, LocalFixture, StateMigrationFixture,
  SyncStateFixture and ComposeGenFixture hold the concrete inputs on which the
  theorems' hypotheses are met.

** Fuel

Reference expansion recurses along a chain of at most [Ref.MaxDepth] names, the
code's own bound; configuration discovery takes one step per path component and
its fuel is the length of the path (Config.discover_loop_spec); the scanner has
four calls per byte (JsonScan.scan_total); the depth-first search one per service
(LaunchOrder.visit_total); the helper's collection one per byte of the stream, since
each turn consumes some (LaunchHelperProps.collect_enough); the walk from a directory
to the root one per byte of its path; decimal printing has 20 digits, enough for 64
bits; the draw of a value one per byte of the source, of which each turn but the last takes
a chunk (GenerateProps); the collapse of dashes in a name one per byte (Azure.collapse_ends);
the check for repeated plan fields two per token (PlanServer.plan_scan_total).  The
pages of a GitHub listing are bounded by the fuel of Differ.read_pages, since the
server decides when they end.  The supervisor's recovery has no bound in the code: its fuel is the number of
attempts, and the theorems hold for every number.

** Not modelled

- The provider clients of aws, oci and gcp, their credential discovery and the
  authentication flows: sequences of calls to vendor libraries.
- The HTTP requests of the github, gitlab and cloudflare targets, the hub server
  and hub commands, the listener of the planner, notification webhooks, and the
  importers of doppler and infisical.
- The terminal browser, the model-context server, and the commands that only print
  (list, get, env, history, doctor, keys and their like).
- Flag parsing, command wiring, printed text where it decides nothing, log
  redaction, and the mains of the supervisor, helper and signer.
- Code built only for Windows; file locks, file permissions and durability (fsync)
  of single writes; overwriting of buffers that held secrets.
YAML and JSON decoding, URL parsing and cryptographic primitives are parameters. *)

From Stdlib Require Export ZArith Lia.
From Stdlib Require Export Ascii.
From stdpp Require Export base decidable tactics option list sorting strings gmap.
From stdpp Require Import options.

(** * Notations and hint databases *)

Create HintDb sorting.
Create HintDb result.
Create HintDb journal.

Declare Scope go_scope.
Delimit Scope go_scope with go.
#[global] Open Scope stdpp_scope.

(** * Results: Go's [(T, error)] pairs *)

(** A Go function that returns [(T, error)] never has both a meaningful value
and an error; the pair is a sum.  [E] is the component's error type. *)
Inductive result (E A : Type) : Type :=
| Ok (a : A)
| Err (e : E).
Arguments Ok {E A} a.
Arguments Err {E A} e.

Definition result_bind {E A B} (f : A → result E B) (m : result E A) : result E B :=
  match m with Ok a => f a | Err e => Err e end.
Definition result_map {E A B} (f : A → B) (m : result E A) : result E B :=
  match m with Ok a => Ok (f a) | Err e => Err e end.

#[export] Instance result_mret {E} : MRet (result E) := λ A, Ok.
#[export] Instance result_mbind {E} : MBind (result E) := λ A B, result_bind.
#[export] Instance result_fmap {E} : FMap (result E) := λ A B, result_map.

Definition is_ok {E A} (m : result E A) : bool :=
  match m with Ok _ => true | Err _ => false end.

#[export] Instance result_eq_dec {E A} `{EqDecision E, EqDecision A} :
  EqDecision (result E A).
Proof. solve_decision. Defined.

(** A Go function that returns only [error]: [None] is [nil]. *)
Abbreviation error E := (option E) (only parsing).

(** [if err := e; err != nil { return err }; k] *)
Definition err_seq {E} (e k : option E) : option E :=
  match e with Some x => Some x | None => k end.
(** [if b { return e }; k] *)
Definition err_if {E} (b : bool) (e : E) (k : option E) : option E :=
  if b then Some e else k.
(** [if err := m; err != nil { return zero, err }; k] *)
Definition err_guard {E A} (m : option E) (k : result E A) : result E A :=
  match m with Some e => Err e | None => k end.

Notation "e ';;?' k" := (err_seq e k)
  (at level 60, right associativity, format "e  ';;?'  '/' k") : go_scope.
Notation "'try!' e ';' k" := (err_guard e k)
  (at level 20, e at level 100, k at level 200,
   format "'try!'  e ';'  '/' k") : go_scope.
Notation "'let!' x ':=' m 'in' k" := (result_bind (λ x, k) m)
  (at level 20, x pattern, m at level 100, k at level 200,
   format "'let!'  x  ':='  m  'in'  '/' k") : go_scope.

(** The first error of a loop [for _, x := range l { if err := f(x) ... }]. *)
Fixpoint err_each {E A} (f : A → option E) (l : list A) : option E :=
  match l with [] => None | x :: l => err_seq (f x) (err_each f l) end.

Section result_lemmas.
Context {E : Type}.

Lemma err_seq_None (e k : option E) : err_seq e k = None ↔ e = None ∧ k = None.
Proof. destruct e; naive_solver. Qed.
Lemma err_if_None (b : bool) (e : E) k : err_if b e k = None ↔ b = false ∧ k = None.
Proof. destruct b; naive_solver. Qed.
Lemma err_guard_Ok {A} (m : option E) (k : result E A) a :
  err_guard m k = Ok a ↔ m = None ∧ k = Ok a.
Proof. destruct m; naive_solver. Qed.
Lemma result_bind_Ok {A B} (m : result E A) (f : A → result E B) b :
  result_bind f m = Ok b ↔ ∃ a, m = Ok a ∧ f a = Ok b.
Proof. destruct m; naive_solver. Qed.
Lemma err_each_None {A} (f : A → option E) l :
  err_each f l = None ↔ ∀ x, x ∈ l → f x = None.
Proof.
  induction l as [|x l IH]; simpl; [set_solver|].
  rewrite err_seq_None, IH. set_solver.
Qed.
End result_lemmas.

#[export] Hint Rewrite @err_seq_None @err_if_None @err_guard_Ok @result_bind_Ok
  @err_each_None : result.

(** Turn a successful run into the facts its guards checked. *)
Ltac inv_ok :=
  repeat match goal with
  | H : err_seq _ _ = None |- _ => apply err_seq_None in H as [??]
  | H : err_if _ _ _ = None |- _ => apply err_if_None in H as [??]
  | H : err_guard _ _ = Ok _ |- _ => apply err_guard_Ok in H as [??]
  | H : result_bind _ _ = Ok _ |- _ => apply result_bind_Ok in H as (?&?&?)
  | H : Ok _ = Ok _ |- _ => injection H as H
  | H : Err _ = Ok _ |- _ => discriminate H
  | H : Ok _ = Err _ |- _ => discriminate H
  end; simplify_eq/=.

(** Split boolean conjunctions, disjunctions and negations in hypotheses. *)
Ltac split_bools :=
  repeat match goal with
  | H : _ && _ = true |- _ => apply andb_true_iff in H as [??]
  | H : _ || _ = false |- _ => apply orb_false_iff in H as [??]
  | H : negb _ = true |- _ => apply negb_true_iff in H
  | H : negb _ = false |- _ => apply negb_false_iff in H
  | H : bool_decide _ = true |- _ => apply bool_decide_eq_true in H
  | H : bool_decide _ = false |- _ => apply bool_decide_eq_false in H
  | H : (_ <=? _)%Z = true |- _ => apply Z.leb_le in H
  | H : (_ <=? _)%Z = false |- _ => apply Z.leb_gt in H
  | H : (_ <? _)%Z = true |- _ => apply Z.ltb_lt in H
  | H : (_ <? _)%Z = false |- _ => apply Z.ltb_ge in H
  | H : (_ =? _)%Z = true |- _ => apply Z.eqb_eq in H
  | H : (_ =? _)%Z = false |- _ => apply Z.eqb_neq in H
  | H : (_ <=? _)%nat = true |- _ => apply Nat.leb_le in H
  | H : (_ <=? _)%nat = false |- _ => apply Nat.leb_gt in H
  | H : (_ <? _)%nat = true |- _ => apply Nat.ltb_lt in H
  | H : (_ <? _)%nat = false |- _ => apply Nat.ltb_ge in H
  | H : (_ =? _)%nat = true |- _ => apply Nat.eqb_eq in H
  | H : (_ =? _)%nat = false |- _ => apply Nat.eqb_neq in H
  end.

(** Refute a decidable hypothesis by computation (for concrete inputs). *)
Ltac refute_decide :=
  let H := fresh in
  intros H; apply (bool_decide_eq_true_2 _) in H; vm_compute in H; discriminate H.
(** Prove a decidable goal by computation (for concrete inputs). *)
Ltac by_decide := apply (bool_decide_eq_true_1 _); vm_compute; reflexivity.

(** * Sorting *)

(** [sort.Slice] with the comparison [less]: the result is a permutation of the
input in which no element is less than an earlier one.  Go's sort is not
stable, so where two elements are equivalent their order is unspecified: the
development takes the sort as an instance of this interface and proves its
theorems for every instance.  [lt] is the strict order [less] decides. *)
Class SortSlice : Type := {
  sort_slice {A} (less : A → A → bool) : list A → list A;
  sort_slice_perm {A} (less : A → A → bool) l : sort_slice less l ≡ₚ l;
  sort_slice_sorted {A} (less : A → A → bool) l :
    (∀ x y, less x y = true → less y x = false) →
    (∀ x y z, less y x = false → less z y = false → less z x = false) →
    StronglySorted (λ x y, less y x = false) (sort_slice less l);
}.

(** Insertion sort: the instance the witnesses compute with. *)
Section insertion_sort.
Context {A : Type} (less : A → A → bool).

Fixpoint ins (x : A) (l : list A) : list A :=
  match l with
  | [] => [x]
  | y :: l' => if less y x then y :: ins x l' else x :: y :: l'
  end.
Definition insertion_sort (l : list A) : list A := foldr ins [] l.

Lemma ins_perm x l : ins x l ≡ₚ x :: l.
Proof.
  induction l as [|y l IH]; simpl; [done|]. case_match; [|done].
  rewrite IH. apply Permutation_swap.
Qed.
Lemma insertion_sort_perm l : insertion_sort l ≡ₚ l.
Proof. induction l as [|x l IH]; simpl; [done|]. by rewrite ins_perm, IH. Qed.

Context (Hasym : ∀ x y, less x y = true → less y x = false).
Context (Htrans : ∀ x y z, less y x = false → less z y = false → less z x = false).

Lemma ins_sorted x l :
  StronglySorted (λ x y, less y x = false) l →
  StronglySorted (λ x y, less y x = false) (ins x l).
Proof using Hasym Htrans.
  induction 1 as [|y l Hl IH Hy]; simpl; [by repeat constructor|].
  destruct (less y x) eqn:E; constructor; auto.
  - rewrite ins_perm. constructor; auto.
  - by constructor.
  - constructor; [done|]. eapply Forall_impl; [exact Hy|]. eauto.
Qed.
Lemma insertion_sort_sorted l :
  StronglySorted (λ x y, less y x = false) (insertion_sort l).
Proof using Hasym Htrans. induction l; simpl; [constructor|]. by apply ins_sorted. Qed.
End insertion_sort.

#[global] Program Instance insertion_sort_slice : SortSlice | 100 := {|
  sort_slice A less := insertion_sort less;
|}.
Next Obligation. intros. apply insertion_sort_perm. Qed.
Next Obligation. intros. by apply insertion_sort_sorted. Qed.

(** [sort.Strings]: byte-wise lexicographic order, a total order, so the result
does not depend on the algorithm. *)
Definition sort_strings : list string → list string := merge_sort String.le.

Lemma sort_strings_perm l : sort_strings l ≡ₚ l.
Proof. apply merge_sort_Permutation. Qed.
Lemma sort_strings_sorted l : StronglySorted String.le (sort_strings l).
Proof. apply (StronglySorted_merge_sort _). Qed.
Lemma elem_of_sort_strings x l : x ∈ sort_strings l ↔ x ∈ l.
Proof. by rewrite sort_strings_perm. Qed.
Lemma sort_strings_unique l1 l2 : l1 ≡ₚ l2 → sort_strings l1 = sort_strings l2.
Proof.
  intros Hp. apply (StronglySorted_unique String.le); auto using sort_strings_sorted.
  by rewrite !sort_strings_perm.
Qed.

#[export] Hint Resolve sort_strings_perm sort_strings_sorted sort_strings_unique : sorting.

(** * Maps *)

(** [for k, v := range m]: Go visits every entry of a map once, in an order it
does not specify and that may differ from one loop to the next ([site] tells
the loops of a function apart).  Theorems hold for every instance. *)
Class MapRange : Type := {
  range_map {A} (site : nat) (m : gmap string A) : list (string * A);
  range_map_perm {A} site (m : gmap string A) : range_map site m ≡ₚ map_to_list m;
}.

#[global] Program Instance sorted_range : MapRange | 100 := {|
  range_map A site m := map_to_list m;
|}.
Next Obligation. done. Qed.

Section map_range.
Context {MR : MapRange} {A : Type}.
Implicit Types m : gmap string A.

Lemma elem_of_range_map site m k v : (k, v) ∈ range_map site m ↔ m !! k = Some v.
Proof. by rewrite range_map_perm, elem_of_map_to_list. Qed.
Lemma NoDup_range_map site m : NoDup (range_map site m).*1.
Proof.
  assert (Hp : (range_map site m).*1 ≡ₚ (map_to_list m).*1) by by rewrite range_map_perm.
  rewrite Hp. apply NoDup_fst_map_to_list.
Qed.
Lemma range_map_keys site m k : k ∈ (range_map site m).*1 ↔ is_Some (m !! k).
Proof.
  rewrite list_elem_of_fmap. split.
  - intros ([k' v] & -> & Hin%elem_of_range_map). eauto.
  - intros [v Hv]. exists (k, v). by rewrite elem_of_range_map.
Qed.
End map_range.

(** A loop over a map that overwrites the entries of the keys it visits. *)
Definition overwrite {A B} (g : A → bool) (f : A → B) (l : list (string * A)) (m : gmap string B) :
    gmap string B :=
  foldl (λ m ka, if g ka.2 then <[ka.1 := f ka.2]> m else m) m l.

Lemma overwrite_lookup {A B} (g : A → bool) (f : A → B) l m k :
  NoDup l.*1 →
  overwrite g f l m !! k =
    match (list_to_map l : gmap string A) !! k with
    | Some a => if g a then Some (f a) else m !! k
    | None => m !! k
    end.
Proof.
  revert m. induction l as [|[k1 a] l IH]; intros m; [by cbn|].
  cbn [fmap list_fmap fst]. intros [Hn Hd]%NoDup_cons.
  unfold overwrite in *. cbn [foldl fst snd list_to_map foldr uncurry]. rewrite IH by done.
  destruct (decide (k1 = k)) as [<-|Hne].
  - rewrite !lookup_insert_eq. rewrite not_elem_of_list_to_map_1 by done.
    destruct (g a); [|done]. by rewrite lookup_insert_eq.
  - rewrite lookup_insert_ne by done. destruct (g a); [|done]. by rewrite lookup_insert_ne.
Qed.

Section overwrite_range.
Context {MR : MapRange} {A : Type}.
Implicit Types m : gmap string A.

Lemma range_map_list_to_map site m : list_to_map (range_map site m) = m.
Proof.
  rewrite <-(list_to_map_to_list m) at 2. apply list_to_map_proper; [|apply range_map_perm].
  apply NoDup_range_map.
Qed.
(** Overwriting entries of the map the loop walks is a map over it. *)
Lemma overwrite_range site (g : A → bool) (f : A → A) m :
  overwrite g f (range_map site m) m = (λ a, if g a then f a else a) <$> m.
Proof.
  apply map_eq. intros k.
  rewrite overwrite_lookup, range_map_list_to_map, lookup_fmap by apply NoDup_range_map.
  destruct (m !! k) as [a|]; cbn; [|done]. by destruct (g a).
Qed.
Lemma overwrite_range_other {B} site (g : A → bool) (f : A → B) m (h : gmap string B) :
  overwrite g f (range_map site m) h = omap (λ a, if g a then Some (f a) else None) m ∪ h.
Proof.
  apply map_eq. intros k.
  rewrite overwrite_lookup, range_map_list_to_map, lookup_union, lookup_omap
    by apply NoDup_range_map.
  destruct (m !! k) as [a|]; cbn; [destruct (g a); cbn|]; by destruct (h !! k).
Qed.
End overwrite_range.

(** [keys(m)] sorted, as the code does before it prints names. *)
Definition sorted_keys {A} (m : gmap string A) : list string :=
  sort_strings (map_to_list m).*1.

Lemma elem_of_sorted_keys {A} (m : gmap string A) k : k ∈ sorted_keys m ↔ is_Some (m !! k).
Proof.
  unfold sorted_keys. rewrite elem_of_sort_strings, list_elem_of_fmap. split.
  - intros ([k' v] & -> & Hin%elem_of_map_to_list). eauto.
  - intros [v Hv]. exists (k, v). by rewrite elem_of_map_to_list.
Qed.

(** The duplicate-name check that several components run over a list: the first
element whose name an earlier element with another key already produced.
Repeating a key is not a collision. *)
Section collisions.
Context {A : Type} (skip : A → bool) (name key : A → string).

Fixpoint first_collision (seen : gmap string string) (l : list A) :
    option (string * string * string) :=
  match l with
  | [] => None
  | x :: l =>
    if skip x then first_collision seen l
    else match seen !! name x with
    | Some prev =>
      if decide (prev = key x) then first_collision (<[name x := key x]> seen) l
      else Some (name x, prev, key x)
    | None => first_collision (<[name x := key x]> seen) l
    end
  end.

Definition agree (x y : A) : Prop :=
  skip x = false → skip y = false → name x = name y → key x = key y.

(** The same condition for a list with one more element in front. *)
Definition agree_all (l : list A) : Prop := ∀ x y, x ∈ l → y ∈ l → agree x y.
Definition agree_seen (seen : gmap string string) (l : list A) : Prop :=
  ∀ x k, x ∈ l → skip x = false → seen !! name x = Some k → k = key x.

Lemma agree_all_cons x l :
  agree_all (x :: l) ↔ agree_all l ∧ ∀ y, y ∈ l → agree x y.
Proof.
  unfold agree_all, agree. split.
  - intros H. split; intros; apply H; auto; set_solver.
  - intros [H1 H2] y z [->|Hy]%elem_of_cons [->|Hz]%elem_of_cons; intros; auto.
    symmetry. by apply H2.
Qed.
Lemma agree_seen_cons seen x l :
  agree_seen seen (x :: l) ↔
  (skip x = false → ∀ k, seen !! name x = Some k → k = key x) ∧ agree_seen seen l.
Proof.
  unfold agree_seen. split.
  - intros H. split; intros; eapply H; eauto; set_solver.
  - intros [H1 H2] y k [->|Hy]%elem_of_cons; eauto.
Qed.
Lemma agree_seen_insert seen x l :
  skip x = false → (∀ k, seen !! name x = Some k → k = key x) →
  agree_seen (<[name x := key x]> seen) l ↔ agree_seen seen l ∧ ∀ y, y ∈ l → agree x y.
Proof.
  intros Hx Hk. unfold agree_seen, agree. split.
  - intros H. split.
    + intros y k Hy Hs Hn. apply (H y k Hy Hs). destruct (decide (name y = name x)) as [E|E].
      * rewrite E, lookup_insert_eq. rewrite E in Hn. by rewrite (Hk k).
      * by rewrite lookup_insert_ne.
    + intros y Hy _ Hs Hn. apply (H y _ Hy Hs). by rewrite Hn, lookup_insert_eq.
  - intros [H1 H2] y k Hy Hs. destruct (decide (name y = name x)) as [E|E].
    + rewrite E, lookup_insert_eq. intros [= <-]. by apply H2.
    + rewrite lookup_insert_ne by done. by apply H1.
Qed.

Lemma first_collision_None_aux seen l :
  first_collision seen l = None ↔ agree_all l ∧ agree_seen seen l.
Proof.
  revert seen. induction l as [|x l IH]; intros seen; simpl.
  { unfold agree_all, agree_seen. set_solver. }
  rewrite agree_all_cons, agree_seen_cons. destruct (skip x) eqn:Hx.
  { rewrite IH. assert (∀ y, agree x y) by (unfold agree; congruence). intuition congruence. }
  destruct (seen !! name x) as [prev|] eqn:Hs; [case_decide as Hp|].
  - rewrite IH, agree_seen_insert by (congruence || done). intuition congruence.
  - split; [done|]. intros (_ & H2 & _). by destruct Hp; apply H2.
  - rewrite IH, agree_seen_insert by (congruence || done). intuition congruence.
Qed.

(** The check passes exactly when names determine keys. *)
Lemma first_collision_None l :
  first_collision ∅ l = None ↔ ∀ x y, x ∈ l → y ∈ l → agree x y.
Proof.
  rewrite first_collision_None_aux. split; [by intros [? _]|]. intros H. split; [done|].
  intros x k _ _. by rewrite lookup_empty.
Qed.

(** A reported collision is one. *)
Lemma first_collision_Some seen l n k1 k2 :
  first_collision seen l = Some (n, k1, k2) →
  k1 ≠ k2 ∧ (∃ y, y ∈ l ∧ skip y = false ∧ name y = n ∧ key y = k2) ∧
  (seen !! n = Some k1 ∨ ∃ x, x ∈ l ∧ skip x = false ∧ name x = n ∧ key x = k1).
Proof.
  revert seen. induction l as [|x l IH]; intros seen; simpl; [done|].
  assert (first_collision (<[name x:=key x]> seen) l = Some (n, k1, k2) → skip x = false →
    k1 ≠ k2 ∧ (∃ y, y ∈ x :: l ∧ skip y = false ∧ name y = n ∧ key y = k2) ∧
    (seen !! n = Some k1 ∨ ∃ y, y ∈ x :: l ∧ skip y = false ∧ name y = n ∧ key y = k1)) as Hrec.
  { intros (? & (y & Hy & ?) & Hor)%IH Hx. split; [done|]. split; [exists y; set_solver|].
    destruct Hor as [Hs|(z & ? & ?)]; [|right; exists z; set_solver].
    destruct (decide (name x = n)) as [<-|].
    - rewrite lookup_insert_eq in Hs. right. exists x. set_solver.
    - rewrite lookup_insert_ne in Hs by done. by left. }
  destruct (skip x) eqn:Hx.
  - intros (? & (y & Hy & ?) & Hor)%IH. split; [done|]. split; [exists y; set_solver|].
    destruct Hor as [?|(z & ? & ?)]; [by left|right; exists z; set_solver].
  - destruct (seen !! name x) as [prev|] eqn:Hs; [case_decide|]; auto.
    intros [= <- <- <-]. split; [done|]. split; [exists x; set_solver|by left].
Qed.
End collisions.
