(* ===== verification/GoStrings.v ===== *)
(** Go strings: the byte strings of the language and the functions of packages
[strings] and [unicode/utf8] that the program calls.

A Go [string] is a sequence of bytes, here [string] (a list of [ascii], which
has 256 values).  [len] is [String.length]; [s[i:]] and [s[:i]] are [str_drop]
and [str_take]; [range] over a string walks the runes of [runes]. *)

From S2P Require Import Prelude.

(** * Bytes *)

(** The value of a byte. *)
Definition code (c : ascii) : Z := Z.of_N (N_of_ascii c).
Definition byte_of (z : Z) : ascii := ascii_of_N (Z.to_N z).

Definition in_range (lo hi : Z) (c : ascii) : bool := (lo <=? code c)%Z && (code c <=? hi)%Z.
Definition is_lower : ascii → bool := in_range 97 122.
Definition is_upper : ascii → bool := in_range 65 90.
Definition is_digit : ascii → bool := in_range 48 57.

Definition NUL : ascii := "000"%char.
Definition TAB : ascii := "009"%char.
Definition LF : ascii := "010"%char.
Definition CR : ascii := "013"%char.
Definition SP : ascii := "032"%char.
Definition DQ : ascii := "034"%char.
Definition BSL : ascii := "092"%char.

Definition str1 (c : ascii) : string := String c "".

Infix "=c" := Ascii.eqb (at level 70) : stdpp_scope.

(** * Slicing *)

Fixpoint str_take (n : nat) (s : string) : string :=
  match n, s with S n, String c s => String c (str_take n s) | _, _ => "" end.
Fixpoint str_drop (n : nat) (s : string) : string :=
  match n, s with S n, String c s => str_drop n s | _, _ => s end.
(** [s[len(s)-1]] *)
Fixpoint last_byte (s : string) : option ascii :=
  match s with
  | "" => None
  | String c "" => Some c
  | String _ s => last_byte s
  end.
(** [s[:len(s)-1]] *)
Definition drop_last (s : string) : string := str_take (pred (String.length s)) s.

(** * Byte predicates over a string *)

Fixpoint str_forall (p : ascii → bool) (s : string) : bool :=
  match s with "" => true | String c s => p c && str_forall p s end.
Definition str_exists (p : ascii → bool) (s : string) : bool :=
  negb (str_forall (λ c, negb (p c)) s).
(** [strings.IndexByte(s, c) >= 0], [strings.ContainsRune(s, c)] for ASCII [c] *)
Definition has_byte (c : ascii) (s : string) : bool := str_exists (Ascii.eqb c) s.
(** [strings.ContainsAny(s, chars)] for an ASCII set of characters *)
Definition contains_any (s chars : string) : bool := str_exists (λ c, has_byte c chars) s.
Fixpoint str_map (f : ascii → ascii) (s : string) : string :=
  match s with "" => "" | String c s => String (f c) (str_map f s) end.
(** A builder loop: [for i := range len(s) { b.WriteString(f(s[i])) }] *)
Fixpoint str_flat_map (f : ascii → string) (s : string) : string :=
  match s with "" => "" | String c s => f c +:+ str_flat_map f s end.
(** [bytes.Count(s, []byte{c})] *)
Fixpoint count_byte (c : ascii) (s : string) : nat :=
  match s with "" => 0 | String d s => (if d =c c then 1 else 0) + count_byte c s end.

(** * Prefixes, searching, cutting *)

Fixpoint has_prefix (s p : string) {struct p} : bool :=
  match p, s with
  | "", _ => true
  | String c p, String d s => (c =c d) && has_prefix s p
  | _, "" => false
  end.
(** [strings.TrimPrefix] *)
Definition trim_prefix (s p : string) : string :=
  if has_prefix s p then str_drop (String.length p) s else s.
(** [strings.Index]: the first position where [sub] occurs, [None] for -1 *)
Fixpoint index (s sub : string) : option nat :=
  if has_prefix s sub then Some 0
  else match s with "" => None | String _ s => S <$> index s sub end.
Definition contains (s sub : string) : bool := bool_decide (is_Some (index s sub)).
Definition index_byte (s : string) (c : ascii) : option nat := index s (str1 c).
(** [strings.LastIndexByte] *)
Fixpoint last_index_byte (s : string) (c : ascii) : option nat :=
  match s with
  | "" => None
  | String d s' =>
      match last_index_byte s' c with
      | Some i => Some (S i)
      | None => if d =c c then Some 0 else None
      end
  end.
(** [strings.Cut(s, sep)] for a one-byte separator; [None] when not found *)
Fixpoint cut_byte (c : ascii) (s : string) : option (string * string) :=
  match s with
  | "" => None
  | String d s' =>
      if d =c c then Some ("", s')
      else '(a, b) ← cut_byte c s'; Some (String d a, b)
  end.
(** [strings.Split(s, sep)] for a one-byte separator *)
Fixpoint split_byte (c : ascii) (s : string) : list string :=
  match s with
  | "" => [""]
  | String d s' =>
      if d =c c then "" :: split_byte c s'
      else match split_byte c s' with [] => [str1 d] | p :: ps => String d p :: ps end
  end.
(** [strings.Join] *)
Fixpoint join (sep : string) (l : list string) : string :=
  match l with
  | [] => ""
  | [x] => x
  | x :: l => x +:+ sep +:+ join sep l
  end.

(** A list of strings, one after the other. *)
Definition str_concat (l : list string) : string := foldr String.append "" l.
(** [strings.TrimLeft] and [strings.TrimRight] with an ASCII cutset *)
Fixpoint trim_left (cutset s : string) : string :=
  match s with
  | String c s' => if has_byte c cutset then trim_left cutset s' else s
  | "" => ""
  end.
Fixpoint trim_right (cutset s : string) : string :=
  match s with
  | "" => ""
  | String c s' =>
      match trim_right cutset s' with
      | "" => if has_byte c cutset then "" else str1 c
      | t => String c t
      end
  end.

(** [s < t], [s <= t] on Go strings *)
Definition str_lt (s t : string) : bool := String.ltb s t.
Definition str_le (s t : string) : bool := String.leb s t.

(** * UTF-8 *)

Definition RuneError : Z := 65533.

Definition is_cont (lo hi : Z) (c : ascii) : bool := in_range lo hi c.

(** [utf8.DecodeRuneInString]: the first rune and its width in bytes;
[(RuneError, 1)] for an invalid encoding, [(RuneError, 0)] for [""]. *)
Definition decode_rune (s : string) : Z * nat :=
  match s with
  | "" => (RuneError, 0)
  | String b0 s1 =>
    let x := code b0 in
    let two := match s1 with String b1 _ =>
        if in_range 128 191 b1
        then (((x - 192) * 64 + (code b1 - 128))%Z, 2) else (RuneError, 1)
      | _ => (RuneError, 1) end in
    let three lo hi := match s1 with String b1 (String b2 _) =>
        if in_range lo hi b1 && in_range 128 191 b2
        then (((x - 224) * 4096 + (code b1 - 128) * 64 + (code b2 - 128))%Z, 3)
        else (RuneError, 1)
      | _ => (RuneError, 1) end in
    let four lo hi := match s1 with String b1 (String b2 (String b3 _)) =>
        if in_range lo hi b1 && in_range 128 191 b2 && in_range 128 191 b3
        then (((x - 240) * 262144 + (code b1 - 128) * 4096
               + (code b2 - 128) * 64 + (code b3 - 128))%Z, 4)
        else (RuneError, 1)
      | _ => (RuneError, 1) end in
    if (x <? 128)%Z then (x, 1)
    else if (x <? 194)%Z then (RuneError, 1)
    else if (x <? 224)%Z then two
    else if (x =? 224)%Z then three 160%Z 191%Z
    else if (x =? 237)%Z then three 128%Z 159%Z
    else if (x <? 240)%Z then three 128%Z 191%Z
    else if (x =? 240)%Z then four 144%Z 191%Z
    else if (x <? 244)%Z then four 128%Z 191%Z
    else if (x =? 244)%Z then four 128%Z 143%Z
    else (RuneError, 1)
  end.

(** A Unicode scalar value. *)
Definition valid_rune (r : Z) : bool :=
  ((0 <=? r) && (r <? 55296) || (57344 <=? r) && (r <=? 1114111))%Z.

(** [utf8.AppendRune] *)
Definition encode_rune (r : Z) : string :=
  let r := if valid_rune r then r else RuneError in
  if (r <? 128)%Z then str1 (byte_of r)
  else if (r <? 2048)%Z then
    String (byte_of (192 + r / 64)) (str1 (byte_of (128 + r mod 64)))
  else if (r <? 65536)%Z then
    String (byte_of (224 + r / 4096)) (String (byte_of (128 + (r / 64) mod 64))
      (str1 (byte_of (128 + r mod 64))))
  else
    String (byte_of (240 + r / 262144)) (String (byte_of (128 + (r / 4096) mod 64))
      (String (byte_of (128 + (r / 64) mod 64)) (str1 (byte_of (128 + r mod 64))))).

(** [for i, r := range s]: the runes of [s] with the byte index and the width of
each.  [skip] counts the bytes left of the rune being walked over. *)
Fixpoint runes_go (skip i : nat) (s : string) : list (nat * Z * nat) :=
  match s with
  | "" => []
  | String _ s' =>
      match skip with
      | S k => runes_go k (S i) s'
      | O => let '(r, n) := decode_rune s in (i, r, n) :: runes_go (pred n) (S i) s'
      end
  end.
Definition runes_at (s : string) : list (nat * Z * nat) := runes_go 0 0 s.
Definition runes (s : string) : list Z := (λ x, x.1.2) <$> runes_at s.
(** [utf8.ValidString] *)
Definition valid_utf8 (s : string) : bool :=
  forallb (λ x, negb ((x.1.2 =? RuneError)%Z && (x.2 =? 1)%nat)) (runes_at s).
Definition encode_runes (l : list Z) : string := foldr (λ r s, encode_rune r +:+ s) "" l.

(** [unicode.IsSpace] *)
Definition is_space_rune (r : Z) : bool :=
  ((9 <=? r) && (r <=? 13) || (r =? 32) || (r =? 133) || (r =? 160) || (r =? 5760)
   || (8192 <=? r) && (r <=? 8202) || (r =? 8232) || (r =? 8233) || (r =? 8239)
   || (r =? 8287) || (r =? 12288))%Z.

(** [strings.TrimLeftFunc(s, unicode.IsSpace)] *)
Fixpoint trim_left_space_go (skip : nat) (s : string) : string :=
  match s with
  | "" => ""
  | String _ s' =>
      match skip with
      | S k => trim_left_space_go k s'
      | O => let '(r, n) := decode_rune s in
             if is_space_rune r then trim_left_space_go (pred n) s' else s
      end
  end.
Definition trim_left_space (s : string) : string := trim_left_space_go 0 s.
(** The number of bytes [strings.TrimRightFunc(s, unicode.IsSpace)] keeps: up to
the end of the last rune that is not a space.  No byte of a space's encoding
starts another rune, so the runes read from the right are those read from the
left. *)
Definition trim_right_space (s : string) : string :=
  let ends := omap (λ '(i, r, n), if is_space_rune r then None else Some (i + n)) (runes_at s) in
  str_take (default 0 (last ends)) s.
(** [strings.TrimSpace] *)
Definition trim_space (s : string) : string := trim_right_space (trim_left_space s).

(** [strings.Fields] *)
Fixpoint fields_go (s : string) (start : option nat) (l : list (nat * Z * nat)) : list string :=
  match l with
  | [] => match start with Some j => [str_drop j s] | None => [] end
  | (i, r, _) :: l =>
    if is_space_rune r then
      match start with
      | Some j => str_take (i - j) (str_drop j s) :: fields_go s None l
      | None => fields_go s None l
      end
    else fields_go s (Some (default i start)) l
  end.
Definition strings_Fields (s : string) : list string := fields_go s None (runes_at s).

(** The Unicode case tables of package [unicode]; on ASCII they are the ASCII
case mappings. *)
Class UnicodeCase : Type := {
  rune_upper : Z → Z;
  rune_lower : Z → Z;
  rune_upper_ascii r : (0 ≤ r < 128)%Z →
    rune_upper r = if ((97 <=? r) && (r <=? 122))%Z then (r - 32)%Z else r;
  rune_lower_ascii r : (0 ≤ r < 128)%Z →
    rune_lower r = if ((65 <=? r) && (r <=? 90))%Z then (r + 32)%Z else r;
}.

(** Tables that map ASCII letters only. *)
#[global] Program Instance ascii_case : UnicodeCase | 100 := {|
  rune_upper r := if ((97 <=? r) && (r <=? 122))%Z then (r - 32)%Z else r;
  rune_lower r := if ((65 <=? r) && (r <=? 90))%Z then (r + 32)%Z else r;
|}.
Solve Obligations with done.

(** [strings.ToUpper], [strings.ToLower]: [strings.Map] over the runes. *)
Definition to_upper `{UnicodeCase} (s : string) : string :=
  encode_runes (rune_upper <$> runes s).
Definition to_lower `{UnicodeCase} (s : string) : string :=
  encode_runes (rune_lower <$> runes s).

(** * Lemmas *)

Section append.
Implicit Types s t : string.

Lemma str_nil_app t : "" +:+ t = t.
Proof. done. Qed.
Lemma str_cons_app c s t : String c s +:+ t = String c (s +:+ t).
Proof. done. Qed.
Lemma str_app_nil_r s : s +:+ "" = s.
Proof. induction s; [done|]. rewrite str_cons_app. by f_equal. Qed.
Lemma str_app_assoc s t u : (s +:+ t) +:+ u = s +:+ (t +:+ u).
Proof. induction s; [done|]. rewrite !str_cons_app. by f_equal. Qed.
Lemma str_length_app s t : String.length (s +:+ t) = String.length s + String.length t.
Proof. induction s; [done|]. rewrite str_cons_app. simpl. by f_equal. Qed.
End append.
#[export] Hint Rewrite str_nil_app str_cons_app str_app_nil_r str_app_assoc str_length_app : str.

Lemma ascii_eqb_true (c d : ascii) : (c =c d) = true ↔ c = d.
Proof. apply Ascii.eqb_eq. Qed.
Lemma ascii_eqb_false (c d : ascii) : (c =c d) = false ↔ c ≠ d.
Proof. apply Ascii.eqb_neq. Qed.
Lemma ascii_eqb_refl c : (c =c c) = true.
Proof. apply Ascii.eqb_refl. Qed.
#[export] Hint Rewrite ascii_eqb_refl : str.

Lemma code_range c : (0 ≤ code c < 256)%Z.
Proof.
  unfold code. pose proof (N_ascii_bounded c). lia.
Qed.
Lemma byte_of_code c : byte_of (code c) = c.
Proof. unfold byte_of, code. rewrite N2Z.id. apply ascii_N_embedding. Qed.
Lemma code_byte_of z : (0 ≤ z < 256)%Z → code (byte_of z) = z.
Proof. intros. unfold byte_of, code. rewrite N_ascii_embedding by lia. lia. Qed.
Lemma code_inj c d : code c = code d → c = d.
Proof. intros H. by rewrite <-(byte_of_code c), H, byte_of_code. Qed.

Section forall_bytes.
Implicit Types (p : ascii → bool) (s t : string).

Lemma str_forall_app p s t : str_forall p (s +:+ t) = str_forall p s && str_forall p t.
Proof.
  induction s; [done|]. rewrite str_cons_app. simpl. by rewrite IHs, andb_assoc.
Qed.
Lemma str_forall_impl p q s :
  (∀ c, p c = true → q c = true) → str_forall p s = true → str_forall q s = true.
Proof.
  intros Hpq. induction s; simpl; [done|]. intros [??]%andb_true_iff.
  rewrite Hpq by done. auto.
Qed.
Lemma str_exists_false p s : str_exists p s = false ↔ str_forall (λ c, negb (p c)) s = true.
Proof. unfold str_exists. by rewrite negb_false_iff. Qed.
Lemma has_byte_app c s t : has_byte c (s +:+ t) = has_byte c s || has_byte c t.
Proof. unfold has_byte, str_exists. by rewrite str_forall_app, negb_andb. Qed.
Lemma has_byte_cons c d s : has_byte c (String d s) = (c =c d) || has_byte c s.
Proof. unfold has_byte, str_exists. simpl. by rewrite negb_andb, negb_involutive. Qed.
Lemma str_flat_map_app f s t :
  str_flat_map f (s +:+ t) = str_flat_map f s +:+ str_flat_map f t.
Proof.
  induction s; [done|]. rewrite str_cons_app. simpl. by rewrite IHs, str_app_assoc.
Qed.
End forall_bytes.

Section slices.
Implicit Types s t p : string.

Lemma str_drop_app s t : str_drop (String.length s) (s +:+ t) = t.
Proof. by induction s. Qed.
Lemma str_take_app s t : str_take (String.length s) (s +:+ t) = s.
Proof. induction s; [by destruct t|]. rewrite str_cons_app. simpl. by f_equal. Qed.
Lemma str_take_drop n s : str_take n s +:+ str_drop n s = s.
Proof. revert n. induction s; intros [|n]; try done. simpl. rewrite str_cons_app. by f_equal. Qed.
Lemma last_byte_snoc s c : last_byte (s +:+ str1 c) = Some c.
Proof.
  induction s as [|d s IH]; [done|]. rewrite str_cons_app. simpl.
  destruct (s +:+ str1 c) eqn:E; [|done]. by destruct s.
Qed.
Lemma drop_last_snoc s c : drop_last (s +:+ str1 c) = s.
Proof.
  unfold drop_last. rewrite str_length_app. simpl.
  replace (pred (String.length s + 1)) with (String.length s) by lia. apply str_take_app.
Qed.

Lemma has_prefix_spec s p : has_prefix s p = true ↔ ∃ t, s = p +:+ t.
Proof.
  revert s. induction p as [|c p IH]; intros s; simpl; [destruct s; naive_solver|].
  destruct s as [|d s]; [split; [done|intros [? [=]]]|].
  simpl. rewrite andb_true_iff, ascii_eqb_true, IH. split.
  - intros [-> [t ->]]. by exists t.
  - intros [t [= -> ->]]. eauto.
Qed.
Lemma has_prefix_app p t : has_prefix (p +:+ t) p = true.
Proof. apply has_prefix_spec. eauto. Qed.
Lemma trim_prefix_none s p : has_prefix s p = false → trim_prefix s p = s.
Proof. intros H. unfold trim_prefix. by rewrite H. Qed.

Lemma cut_byte_app c s t : has_byte c s = false → cut_byte c (s +:+ String c t) = Some (s, t).
Proof.
  induction s as [|d s IH].
  - intros _. rewrite str_nil_app. simpl. by rewrite ascii_eqb_refl.
  - rewrite has_byte_cons, orb_false_iff. intros [Hd Hs].
    rewrite str_cons_app. simpl. rewrite IH by done.
    destruct (Ascii.eqb_spec d c) as [->|]; [by rewrite ascii_eqb_refl in Hd|done].
Qed.
Lemma cut_byte_Some c s a b :
  cut_byte c s = Some (a, b) → s = a +:+ String c b ∧ has_byte c a = false.
Proof.
  revert a b. induction s as [|d s IH]; intros a b; simpl; [done|].
  destruct (Ascii.eqb_spec d c) as [->|Hne]; [by intros [= <- <-]|].
  destruct (cut_byte c s) as [[a' b']|] eqn:E; simpl; [|done].
  intros [= <- <-]. destruct (IH _ _ eq_refl) as [-> Hn]. split; [done|].
  rewrite has_byte_cons, Hn, orb_false_r. apply ascii_eqb_false. congruence.
Qed.
Lemma cut_byte_None c s : cut_byte c s = None ↔ has_byte c s = false.
Proof.
  induction s as [|d s IH]; simpl; [done|]. rewrite has_byte_cons, orb_false_iff.
  destruct (Ascii.eqb_spec d c) as [->|Hne].
  - rewrite ascii_eqb_refl. naive_solver.
  - rewrite ascii_eqb_false. destruct (cut_byte c s) as [[]|]; naive_solver.
Qed.
End slices.

(** The byte-wise order of strings, as the comparison functions of sorts use it. *)
Lemma str_lt_le s t : str_lt t s = false ↔ String.le s t.
Proof.
  unfold str_lt, String.ltb, String.le, String.leb. rewrite (String.compare_antisym s t).
  destruct (String.compare t s); cbn; naive_solver.
Qed.
Lemma str_lt_asym s t : str_lt s t = true → str_lt t s = false.
Proof.
  unfold str_lt, String.ltb. rewrite (String.compare_antisym t s).
  by destruct (String.compare s t).
Qed.
Lemma str_lt_trans_false s t u : str_lt t s = false → str_lt u t = false → str_lt u s = false.
Proof. rewrite !str_lt_le. intros H1 H2. by etrans. Qed.
#[export] Hint Resolve str_lt_asym str_lt_trans_false : sorting.

Lemma str_drop_length n s : String.length (str_drop n s) = String.length s - n.
Proof. revert s. induction n; intros [|c s]; simpl; auto. Qed.
Lemma str_take_all n s : String.length s ≤ n → str_take n s = s.
Proof. revert s. induction n; intros [|c s]; simpl; intros; try lia; f_equal; auto with lia. Qed.

Lemma str_take_app_le n s t : n ≤ String.length s → str_take n (s +:+ t) = str_take n s.
Proof.
  revert s. induction n as [|n IH]; intros [|c s] Hn; cbn in Hn; try done; try lia.
  rewrite str_cons_app. cbn [str_take]. f_equal. apply IH. lia.
Qed.
Lemma str_take_length_min n s : String.length (str_take n s) = Nat.min n (String.length s).
Proof. revert s. induction n as [|n IH]; intros [|c s]; cbn; [done..|]. by rewrite IH. Qed.
Lemma str_take_add n m s : str_take (n + m) s = str_take n s +:+ str_take m (str_drop n s).
Proof.
  revert s. induction n as [|n IH]; intros s; [by rewrite str_nil_app|]. destruct s as [|c s]; [by destruct m|].
  cbn [Nat.add str_take str_drop]. by rewrite IH, str_cons_app.
Qed.
Lemma str_drop_add n m s : str_drop m (str_drop n s) = str_drop (n + m) s.
Proof. revert s. induction n as [|n IH]; intros [|c s]; cbn; [done..|by destruct m|apply IH]. Qed.

(** * ASCII strings *)

Definition is_ascii (c : ascii) : bool := (code c <? 128)%Z.

Lemma decode_rune_ascii c s : is_ascii c = true → decode_rune (String c s) = (code c, 1).
Proof. unfold is_ascii, decode_rune. by intros ->. Qed.
Lemma runes_go_ascii i s :
  str_forall is_ascii s = true → (λ x : nat * Z * nat, x.1.2) <$> runes_go 0 i s = code <$> String.list_ascii_of_string s.
Proof.
  revert i. induction s as [|c s IH]; intros i; [done|]. cbn [str_forall].
  intros [Hc Hs]%andb_true_iff. cbn [runes_go]. rewrite decode_rune_ascii by done.
  cbn. f_equal. by apply IH.
Qed.
Lemma encode_rune_code c : is_ascii c = true → encode_rune (code c) = str1 c.
Proof.
  intros Hc. unfold is_ascii in Hc. pose proof (code_range c). unfold encode_rune, valid_rune.
  split_bools. assert ((0 <=? code c)%Z && (code c <? 55296)%Z = true) as ->.
  { apply andb_true_iff. split; [apply Z.leb_le|apply Z.ltb_lt]; lia. }
  cbn [orb]. rewrite (proj2 (Z.ltb_lt (code c) 128)) by lia. by rewrite byte_of_code.
Qed.

(** [strings.ToLower] of an ASCII string without capitals. *)
Lemma to_lower_id {UC : UnicodeCase} s :
  str_forall (λ c, is_ascii c && negb (is_upper c)) s = true → to_lower s = s.
Proof.
  intros Hs. unfold to_lower, runes, runes_at.
  rewrite runes_go_ascii by (eapply str_forall_impl; [|exact Hs]; by intros c [??]%andb_true_iff).
  induction s as [|c s IH]; [done|]. cbn [str_forall] in Hs.
  apply andb_true_iff in Hs as [[Hc Hu]%andb_true_iff Hs]. cbn.
  fold (encode_runes (rune_lower <$> (code <$> String.list_ascii_of_string s))).
  rewrite IH by done. rewrite rune_lower_ascii.
  - unfold is_upper, in_range in Hu. apply negb_true_iff in Hu. rewrite Hu.
    by rewrite encode_rune_code.
  - pose proof (code_range c). unfold is_ascii in Hc. split_bools. lia.
Qed.

Lemma runes_go_pos k i s x : x ∈ runes_go k i s → i ≤ x.1.1.
Proof.
  revert k i. induction s as [|c s IH]; intros [|k] i; cbn [runes_go]; try set_solver.
  - destruct (decode_rune (String c s)) as [r n]. intros [->|Hx]%elem_of_cons; [done|].
    apply IH in Hx. lia.
  - intros Hx%IH. lia.
Qed.
(** A string that starts with a visible ASCII byte is not blank. *)
Lemma trim_space_ne c s :
  is_ascii c = true → is_space_rune (code c) = false → trim_space (String c s) ≠ "".
Proof.
  intros Hc Hsp. unfold trim_space, trim_left_space. cbn [trim_left_space_go].
  rewrite decode_rune_ascii by done. rewrite Hsp. unfold trim_right_space, runes_at.
  cbn [runes_go]. rewrite decode_rune_ascii by done. cbn [omap list_omap]. rewrite Hsp.
  rewrite last_cons.
  match goal with |- context [last ?l] => destruct (last l) as [k|] eqn:Hl end; [|done].
  apply last_Some_elem_of in Hl. cbn [default].
  apply (list_elem_of_omap (λ x : nat * Z * nat,
    let '(i, r, n) := x in if is_space_rune r then None else Some (i + n))) in Hl
    as ([[i r] n] & Hin & Hk). apply runes_go_pos in Hin. cbn in Hin.
  destruct (is_space_rune r); [done|]. injection Hk as <-. destruct (i + n) eqn:E; [lia|done].
Qed.

(** * Splitting *)

Lemma split_byte_ne b s : split_byte b s ≠ [].
Proof. induction s as [|d s IH]; simpl; [done|]. case_match; [done|]. by case_match. Qed.
Lemma split_byte_no b s : has_byte b s = false → split_byte b s = [s].
Proof.
  induction s as [|d s IH]; [done|]. rewrite has_byte_cons, orb_false_iff. intros [Hb Hs].
  simpl. rewrite IH by done. rewrite ascii_eqb_false in Hb.
  by destruct (Ascii.eqb_spec d b) as [->|].
Qed.
Lemma split_byte_app b s t :
  has_byte b s = false → split_byte b (s +:+ String b t) = s :: split_byte b t.
Proof.
  induction s as [|d s IH].
  - intros _. rewrite str_nil_app. simpl. by rewrite ascii_eqb_refl.
  - rewrite has_byte_cons, orb_false_iff. intros [Hb Hs]. rewrite str_cons_app. simpl.
    rewrite IH by done. rewrite ascii_eqb_false in Hb.
    by destruct (Ascii.eqb_spec d b) as [->|].
Qed.
Lemma split_byte_mid b s t : split_byte b (s +:+ String b t) = split_byte b s ++ split_byte b t.
Proof.
  induction s as [|d s IH].
  - rewrite str_nil_app. simpl. by rewrite ascii_eqb_refl.
  - rewrite str_cons_app. simpl. rewrite IH. destruct (d =c b); [done|].
    pose proof (split_byte_ne b s). by destruct (split_byte b s).
Qed.
Lemma split_byte_no_sep b s c : c ∈ split_byte b s → has_byte b c = false.
Proof.
  revert c. induction s as [|d s IH]; intros c; simpl.
  { by intros ->%list_elem_of_singleton. }
  destruct (Ascii.eqb_spec d b) as [->|Hne].
  { intros [->|Hc]%elem_of_cons; [done|auto]. }
  destruct (split_byte b s) as [|p ps] eqn:E; [by apply split_byte_ne in E|].
  intros [->|Hc]%elem_of_cons; [|apply IH; set_solver].
  rewrite has_byte_cons, IH by set_solver. rewrite orb_false_r.
  apply ascii_eqb_false. congruence.
Qed.
Lemma split_byte_lines b l :
  (∀ s, s ∈ l → has_byte b s = false) →
  split_byte b (str_concat ((λ s, s +:+ str1 b) <$> l)) = l ++ [""].
Proof.
  induction l as [|s l IH]; intros Hl; [done|]. cbn.
  rewrite str_app_assoc. change (str1 b +:+ ?x) with (String b x).
  rewrite split_byte_app by (apply Hl; set_solver). f_equal. apply IH. set_solver.
Qed.

(** * Searching *)

Lemma index_Some s sub n :
  index s sub = Some n → ∃ post, s = str_take n s +:+ sub +:+ post ∧ String.length (str_take n s) = n.
Proof.
  revert n. induction s as [|c s IH]; intros n; cbn [index].
  - destruct (has_prefix "" sub) eqn:E; [|done]. intros [= <-]. apply has_prefix_spec in E as [t ->]. by exists t.
  - destruct (has_prefix (String c s) sub) eqn:E.
    + intros [= <-]. apply has_prefix_spec in E as [t ->]. by exists t.
    + intros (m & Hm & ->)%fmap_Some. destruct (IH m Hm) as (post & E1 & E2). exists post.
      cbn [str_take]. rewrite str_cons_app. split; [congruence|]. cbn. by rewrite E2.
Qed.
Lemma index_occurs pre sub post : is_Some (index (pre +:+ sub +:+ post) sub).
Proof.
  induction pre as [|c pre IH].
  - rewrite str_nil_app. destruct (sub +:+ post) eqn:E; cbn [index]; rewrite <-E, has_prefix_app; by eexists.
  - rewrite str_cons_app. cbn [index]. destruct (has_prefix _ _); [by eexists|]. by apply fmap_is_Some.
Qed.
(** No earlier occurrence. *)
Lemma index_first pre sub post n : index (pre +:+ sub +:+ post) sub = Some n → n ≤ String.length pre.
Proof.
  revert n. induction pre as [|c pre IH]; intros n.
  - rewrite str_nil_app. destruct (sub +:+ post) eqn:E; cbn [index]; rewrite <-E, has_prefix_app; intros [= <-]; lia.
  - rewrite str_cons_app. cbn [index]. destruct (has_prefix _ _); [intros [= <-]; cbn; lia|].
    intros (m & Hm%IH & ->)%fmap_Some. cbn. lia.
Qed.

(** * Words *)

(** A byte of a word: ASCII and not a space. *)
Definition word_byte (c : ascii) : bool := in_range 33 126 c.
Lemma word_byte_ascii c : word_byte c = true → is_ascii c = true ∧ is_space_rune (code c) = false.
Proof.
  unfold word_byte, in_range, is_ascii, is_space_rune. intros H. split_bools.
  split; [apply Z.ltb_lt; lia|]. repeat (apply orb_false_iff; split); try (apply Z.eqb_neq; lia);
    apply andb_false_iff; first [left; apply Z.leb_gt; lia|right; apply Z.leb_gt; lia].
Qed.
(** [fields_go] over the bytes of a word, inside of it. *)
Lemma fields_word full j i w s :
  str_forall word_byte w = true →
  fields_go full (Some j) (runes_go 0 i (w +:+ s)) = fields_go full (Some j) (runes_go 0 (i + String.length w) s).
Proof.
  revert i. induction w as [|c w IH]; intros i; cbn [str_forall]; [by rewrite Nat.add_0_r|].
  intros [[Ha Hs]%word_byte_ascii Hw]%andb_true_iff. rewrite str_cons_app. cbn [runes_go].
  rewrite decode_rune_ascii by done. cbn [fields_go pred]. rewrite Hs. cbn [default].
  rewrite IH by done. do 2 f_equal. cbn. lia.
Qed.
Lemma fields_words full pre ws :
  Forall (λ w, w ≠ "" ∧ str_forall word_byte w = true) ws → full = pre +:+ join " " ws →
  fields_go full None (runes_go 0 (String.length pre) (join " " ws)) = ws.
Proof.
  intros Hws. revert pre. induction Hws as [|w ws [Hne Hw] Hws IH]; intros pre Hf; [done|].
  destruct w as [|c w]; [done|]. cbn [str_forall] in Hw. apply andb_true_iff in Hw as [[Ha Hs]%word_byte_ascii Hw].
  assert (Hstart : ∀ s, fields_go full None (runes_go 0 (String.length pre) (String c (w +:+ s))) =
    fields_go full (Some (String.length pre)) (runes_go 0 (S (String.length pre) + String.length w) s)).
  { intros s. cbn [runes_go]. rewrite decode_rune_ascii by done. cbn [fields_go pred]. rewrite Hs. cbn [default].
    by apply fields_word. }
  destruct ws as [|w2 ws].
  - cbn [join]. rewrite <-(str_app_nil_r w). rewrite <-str_cons_app. rewrite <-(str_app_nil_r w) in Hf.
    rewrite str_cons_app, Hstart. cbn [runes_go fields_go]. rewrite Hf. cbn [join]. by rewrite str_drop_app.
  - change (join " " (String c w :: w2 :: ws)) with (String c w +:+ " " +:+ join " " (w2 :: ws)) in *.
    set (rest := join " " (w2 :: ws)) in *. rewrite str_cons_app, Hstart, str_cons_app, str_nil_app.
    cbn [runes_go]. change (decode_rune (String " " rest)) with (32%Z, 1).
    cbn [fields_go pred]. change (is_space_rune 32) with true. cbn iota.
    assert (Hl : S (S (String.length pre) + String.length w) = String.length (pre +:+ String c w +:+ " ")).
    { rewrite !str_length_app. cbn. lia. }
    rewrite Hl, (IH (pre +:+ String c w +:+ " ")).
    + f_equal. rewrite Hf, str_drop_app.
      replace (S (String.length pre) + String.length w - String.length pre) with (String.length (String c w)) by (cbn; lia).
      by rewrite str_take_app.
    + by rewrite Hf, !str_app_assoc.
Qed.
Lemma strings_Fields_join ws :
  Forall (λ w, w ≠ "" ∧ str_forall word_byte w = true) ws → strings_Fields (join " " ws) = ws.
Proof. intros H. by apply (fields_words _ "" ws). Qed.
