(* ===== verification/Provider.v ===== *)
(** The provider data model (src/internal/provider/provider.go, mutation.go), the registry
of provider factories (registry.go) and the exit codes of the commands. *)

From S2P Require Import Prelude GoStrings.

(** * Instants *)

(** [time.Time] as nanoseconds since the zero time (1 January of year 1, UTC);
the code compares, orders and subtracts instants. *)
Abbreviation time := Z.
Definition is_zero (t : time) : bool := (t =? 0)%Z.
Definition after (t u : time) : bool := (u <? t)%Z.
Definition second : Z := 1000000000.
(** Seconds between the zero time and the Unix epoch. *)
Definition unix_to_internal : Z := 62135596800.
Definition unix (t : time) : Z := (t / second - unix_to_internal)%Z.
(** [t.Sub(u)] saturates at the range of [time.Duration] (int64). *)
Definition max_int64 : Z := 9223372036854775807.
Definition min_int64 : Z := (-9223372036854775808)%Z.
Definition time_sub (t u : time) : Z := Z.max min_int64 (Z.min max_int64 (t - u)).

(** * Capabilities *)

(** [type Capability string]: any string may be read back from a file. *)
Definition Capability : Type := string.
Definition CapabilityNativeCAS : Capability := "native_cas".
Definition CapabilityEnforcedExclusive : Capability := "enforced_exclusive".
Definition CapabilityOwnerRiskGate : Capability := "owner_risk_gate".
Definition CapabilityBlocked : Capability := "blocked".

Definition capability_Valid (c : Capability) : bool :=
  bool_decide (c = CapabilityNativeCAS) || bool_decide (c = CapabilityEnforcedExclusive)
  || bool_decide (c = CapabilityOwnerRiskGate) || bool_decide (c = CapabilityBlocked).

(** * Secrets *)

Record SecretMeta := {
  Description : string;
  Tags : gmap string string;
  CreatedAt : time;
  UpdatedAt : time;
  CreatedBy : string;
  ExpiresAt : time;
}.
Record Secret := { Key : string; Value : string; sec_Version : Z; Meta : SecretMeta }.

Definition no_meta : SecretMeta :=
  {| Description := ""; Tags := ∅; CreatedAt := 0; UpdatedAt := 0; CreatedBy := "";
     ExpiresAt := 0 |}.
Definition mk_secret (k v : string) : Secret :=
  {| Key := k; Value := v; sec_Version := 0; Meta := no_meta |}.

(** The errors of provider.go, with one of a provider's own. *)
Inductive provider_error := ErrNotFound | ErrCapabilityNotSupported | ErrProvider (message : string).
Record Capabilities := mkCapabilities {
  cap_Write : bool; cap_Versioning : bool; cap_Tagging : bool; cap_Rotation : bool; cap_AuditLog : bool;
  cap_MaxValueKB : Z }.

(** A write whose value may have been committed while something else is open
(mutation.go); it never carries the value. *)
Record PartialCommitError := mkPartialCommit {
  pc_Provider : string; pc_Key : string; pc_PreVersion : Z; pc_CommitState : string;
  pc_Version : Z; pc_ObservedVersion : Z; pc_TagState : string }.
Definition TagReconciliationRequired : string := "tag_reconciliation_required".
Definition TagReconciliationUnknown : string := "tag_reconciliation_unknown".
Definition MutationCommitUnknown : string := "unknown".

(** * The registry *)

(** Factories by name, over the configuration they read and the providers they make; the
lock around the map is not represented, since each operation holds it throughout. *)
Section registry.
Context {Config Provider_ E : Type}.
Definition Factory : Type := Config → result E Provider_.
Abbreviation Registry := (gmap string Factory).
Inductive registry_error :=
| UnknownProvider (name : string) (available : list string)
| FactoryError (e : E).

Definition NewRegistry : Registry := ∅.
Definition Register (name : string) (factory : Factory) (r : Registry) : Registry := <[name := factory]> r.
Definition Providers (r : Registry) : list string := sorted_keys r.
Definition New (name : string) (cfg : Config) (r : Registry) : result registry_error Provider_ :=
  match r !! name with
  | None => Err (UnknownProvider name (Providers r))
  | Some factory => match factory cfg with Ok p => Ok p | Err e => Err (FactoryError e) end
  end.

(** The names are sorted, and they are the ones that [New] knows. *)
Lemma Providers_spec r :
  StronglySorted String.le (Providers r) ∧ NoDup (Providers r) ∧
  ∀ name cfg, name ∈ Providers r ↔ New name cfg r ≠ Err (UnknownProvider name (Providers r)).
Proof.
  split; [apply sort_strings_sorted|]. split.
  { unfold Providers, sorted_keys. rewrite sort_strings_perm. apply NoDup_fst_map_to_list. }
  intros name cfg. unfold Providers at 1. rewrite elem_of_sorted_keys. unfold New.
  destruct (r !! name) as [f|]; [|split; [intros [? [=]]|intros H; by destruct H]].
  split; [intros _; by destruct (f cfg)|intros _; by eexists].
Qed.
(** The factory registered last under a name makes the provider; others are not touched. *)
Lemma New_Register name factory r name' cfg :
  New name' cfg (Register name factory r) =
    if decide (name' = name) then match factory cfg with Ok p => Ok p | Err e => Err (FactoryError e) end
    else match r !! name' with
         | Some f => match f cfg with Ok p => Ok p | Err e => Err (FactoryError e) end
         | None => Err (UnknownProvider name' (Providers (Register name factory r)))
         end.
Proof.
  unfold New, Register. destruct (decide (name' = name)) as [->|Hne]; [by rewrite lookup_insert_eq|].
  by rewrite lookup_insert_ne.
Qed.
End registry.

(** * Exit codes (src/pkg/skret/errors.go) *)

Definition ExitSuccess : Z := 0.
Definition ExitGenericError : Z := 1.
Definition ExitConfigError : Z := 2.
Definition ExitProviderError : Z := 3.
Definition ExitAuthError : Z := 4.
Definition ExitNotFoundError : Z := 5.
Definition ExitConflictError : Z := 6.
Definition ExitNetworkError : Z := 7.
Definition ExitValidationError : Z := 8.
Definition ExitDrift : Z := 9.
Definition ExitLeakFound : Z := 10.
Definition ExitExecError : Z := 125.
