(* ===== verification/Digest.v ===== *)
(** Hexadecimal digests and the interfaces of the hash functions of Go's
[crypto] packages: [hex.EncodeToString], Ed25519, the keyed hash of the sync journal
([hashSecret], [currentHashDomain] of src/internal/syncer/state.go) and the
SHA-256 digest of the launch and envelope manifests. *)

From S2P Require Import Prelude GoStrings.

(** * Hexadecimal *)

Definition hex_digit (z : Z) : ascii := byte_of (if (z <? 10)%Z then 48 + z else 87 + z).
Definition hex_byte (c : ascii) : bool := is_digit c || in_range 97 102 c.
(** [hex.EncodeToString] *)
Definition hex_encode (s : string) : string :=
  str_flat_map (λ c, String (hex_digit (code c / 16)) (str1 (hex_digit (code c mod 16)))) s.

Lemma hex_digit_code z :
  (0 ≤ z < 16)%Z → code (hex_digit z) = (if (z <? 10)%Z then 48 + z else 87 + z)%Z.
Proof. intros Hz. unfold hex_digit. apply code_byte_of. destruct (Z.ltb_spec z 10); lia. Qed.
Lemma hex_digit_byte z : (0 ≤ z < 16)%Z → hex_byte (hex_digit z) = true.
Proof.
  intros Hz. unfold hex_byte, is_digit, in_range. rewrite hex_digit_code by done.
  destruct (Z.ltb_spec z 10); apply orb_true_iff;
    [left|right]; apply andb_true_iff; split; apply Z.leb_le; lia.
Qed.
Lemma hex_digit_inj x y : (0 ≤ x < 16)%Z → (0 ≤ y < 16)%Z → hex_digit x = hex_digit y → x = y.
Proof.
  intros Hx Hy E. apply (f_equal code) in E. rewrite !hex_digit_code in E by done.
  revert E. destruct (Z.ltb_spec x 10), (Z.ltb_spec y 10); lia.
Qed.

(** [hex.DecodeString] *)
Definition hex_value (c : ascii) : option Z :=
  if is_digit c then Some (code c - 48)%Z
  else if in_range 97 102 c then Some (code c - 87)%Z
  else if in_range 65 70 c then Some (code c - 55)%Z
  else None.
Fixpoint hex_decode (s : string) : option string :=
  match s with
  | "" => Some ""
  | String a (String b s) => x ← hex_value a; y ← hex_value b; t ← hex_decode s; Some (String (byte_of (x * 16 + y)) t)
  | _ => None
  end.
Lemma hex_encode_length s : String.length (hex_encode s) = 2 * String.length s.
Proof.
  induction s as [|c s IH]; [done|]. cbn [hex_encode str_flat_map]. fold (hex_encode s).
  rewrite str_length_app, IH. simpl. lia.
Qed.
Lemma hex_encode_hex s : str_forall hex_byte (hex_encode s) = true.
Proof.
  induction s as [|c s IH]; [done|]. cbn [hex_encode str_flat_map].
  rewrite str_forall_app. fold (hex_encode s). rewrite IH, andb_true_r. cbn [str_forall str1].
  pose proof (code_range c). rewrite !hex_digit_byte; [done| |];
    [apply Z.mod_pos_bound; lia|].
  split; [apply Z.div_pos; lia|apply Z.div_lt_upper_bound; lia].
Qed.
Lemma hex_encode_inj s t : hex_encode s = hex_encode t → s = t.
Proof.
  revert t. induction s as [|c s IH]; intros [|d t]; try done.
  cbn [hex_encode str_flat_map]. fold (hex_encode s) (hex_encode t).
  unfold str1. rewrite !str_cons_app, !str_nil_app. intros E.
  injection E as E1 E2 E3. f_equal; [|by apply IH].
  pose proof (code_range c). pose proof (code_range d).
  apply hex_digit_inj in E1; [|split; [apply Z.div_pos; lia|apply Z.div_lt_upper_bound; lia]..].
  apply hex_digit_inj in E2; [|apply Z.mod_pos_bound; lia..].
  apply code_inj. rewrite (Z.div_mod (code c) 16), (Z.div_mod (code d) 16) by lia. lia.
Qed.

(** A SHA-256 digest in lowercase hexadecimal. *)
Definition is_sha256_hex (value : string) : bool :=
  (String.length value =? 64) && str_forall hex_byte value.

(** * Hash functions *)

(** SHA-256 as the program uses it: 32 bytes out.  Collision freedom is not part
of the interface; a theorem that needs it names the digests that must differ. *)
Class SHA256 : Type := {
  sha256 : string → string;
  sha256_length m : String.length (sha256 m) = 32;
}.

(** HMAC-SHA256 under the key material of the process ([hashKeyMaterial]), and
whether that material is the process-random last resort. *)
Class HashKey : Type := {
  hmac : string → string;
  hmac_length m : String.length (hmac m) = 32;
  hashKeyIsEphemeral : bool;
}.

Definition sha256_hex {SH : SHA256} (m : string) : string := hex_encode (sha256 m).
Definition hashSecret {HK : HashKey} (value : string) : string := hex_encode (hmac value).

Lemma sha256_hex_valid {SH : SHA256} m : is_sha256_hex (sha256_hex m) = true.
Proof.
  unfold is_sha256_hex, sha256_hex. by rewrite hex_encode_length, sha256_length, hex_encode_hex.
Qed.
Lemma hashSecret_valid {HK : HashKey} v : is_sha256_hex (hashSecret v) = true.
Proof.
  unfold is_sha256_hex, hashSecret. by rewrite hex_encode_length, hmac_length, hex_encode_hex.
Qed.
Lemma is_sha256_hex_ne v : is_sha256_hex v = true → v ≠ "".
Proof. by intros ? ->. Qed.

(** A concrete 32-byte function for closed examples: the last 32 bytes of the
message, padded on the left with zero bytes. *)
Fixpoint zeros (n : nat) : string := match n with O => "" | S n => String NUL (zeros n) end.
Definition toy_digest (m : string) : string :=
  let n := String.length m in
  if n <=? 32 then zeros (32 - n) +:+ m else str_drop (n - 32) m.
Lemma zeros_length n : String.length (zeros n) = n.
Proof. induction n; simpl; congruence. Qed.
Lemma toy_digest_length m : String.length (toy_digest m) = 32.
Proof.
  unfold toy_digest. destruct (Nat.leb_spec (String.length m) 32).
  - rewrite str_length_app, zeros_length. lia.
  - rewrite str_drop_length. lia.
Qed.
Definition toy_sha : SHA256 := {| sha256 := toy_digest; sha256_length := toy_digest_length |}.
Definition toy_key : HashKey :=
  {| hmac := toy_digest; hmac_length := toy_digest_length; hashKeyIsEphemeral := false |}.

#[export] Hint Resolve sha256_hex_valid hashSecret_valid : journal.

(** * Signatures *)

(** Ed25519: the sizes, and that a signature by a key made from a seed verifies under its
public key.  A private key is 64 bytes, the seed and the public key; nothing is said of
64 bytes that no seed gives, since [crypto/ed25519] does not compare the two halves. *)
Definition PrivateKeySize : nat := 64.
Definition PublicKeySize : nat := 32.
Definition SignatureSize : nat := 64.
Definition SeedSize : nat := 32.
Class Ed25519 : Type := {
  ed_from_seed : string → string;
  ed_sign : string → string → string;
  ed_verify : string → string → string → bool;
  ed_public : string → string;
  ed_from_seed_size seed : String.length (ed_from_seed seed) = PrivateKeySize;
  ed_sign_size sk m : String.length (ed_sign sk m) = SignatureSize;
  ed_public_size sk : String.length (ed_public sk) = PublicKeySize;
  ed_seed_correct seed m : String.length seed = SeedSize →
    ed_verify (ed_public (ed_from_seed seed)) m (ed_sign (ed_from_seed seed) m) = true;
}.

(** A private key whose halves belong together. *)
Definition key_pair {ED : Ed25519} (sk : string) : Prop :=
  ∃ seed, String.length seed = SeedSize ∧ sk = ed_from_seed seed.
Lemma key_pair_size {ED : Ed25519} sk : key_pair sk → String.length sk = PrivateKeySize.
Proof. intros (seed & _ & ->). apply ed_from_seed_size. Qed.
Lemma ed_correct {ED : Ed25519} sk m : key_pair sk → ed_verify (ed_public sk) m (ed_sign sk m) = true.
Proof. intros (seed & Hs & ->). by apply ed_seed_correct. Qed.

(** A toy scheme, for concrete inputs: a key is its seed twice, and a signature repeats the
public key, so that the halves of a key must agree. *)
Definition toy_sign (sk m : string) : string := toy_digest (str_take 32 sk) +:+ toy_digest m.
Definition toy_seed_key (seed : string) : string := toy_digest seed +:+ toy_digest seed.
Lemma toy_seed_key_size seed : String.length (toy_seed_key seed) = PrivateKeySize.
Proof. unfold toy_seed_key. by rewrite str_length_app, !toy_digest_length. Qed.
Lemma toy_digest_id s : String.length s = 32 → toy_digest s = s.
Proof. intros H. unfold toy_digest. rewrite H. done. Qed.
Lemma toy_seed_key_halves seed :
  str_take 32 (toy_seed_key seed) = toy_digest seed ∧ toy_digest (toy_seed_key seed) = toy_digest seed.
Proof.
  pose proof (toy_digest_length seed) as Hl. split.
  - unfold toy_seed_key. rewrite <-Hl. apply str_take_app.
  - unfold toy_digest at 1. rewrite toy_seed_key_size. cbn [Nat.leb PrivateKeySize Nat.sub].
    unfold toy_seed_key. rewrite <-Hl. apply str_drop_app.
Qed.
#[export] Program Instance toy_ed : Ed25519 := {|
  ed_from_seed := toy_seed_key;
  ed_sign := toy_sign;
  ed_verify pk m s := bool_decide (s = pk +:+ toy_digest m);
  ed_public := toy_digest;
|}.
Next Obligation. apply toy_seed_key_size. Qed.
Next Obligation. intros. unfold toy_sign. by rewrite str_length_app, !toy_digest_length. Qed.
Next Obligation. intros. apply toy_digest_length. Qed.
Next Obligation.
  intros seed m _. apply bool_decide_eq_true. unfold toy_sign.
  destruct (toy_seed_key_halves seed) as [-> ->]. by rewrite toy_digest_id by apply toy_digest_length.
Qed.
