(* ===== verification/Dotenv.v ===== *)
(** The dotenv line codec (src/internal/dotenv/dotenv.go) and the dotenv file
importer (src/internal/importer/dotenv.go). *)

From S2P Require Import Prelude GoStrings.

(** * Encode *)

Definition quoting_chars : string :=
  " " +:+ str1 TAB +:+ str1 CR +:+ str1 LF +:+ str1 DQ +:+ "'`#=$\".

Definition needsQuoting (v : string) : bool :=
  if decide (v = "") then true else contains_any v quoting_chars.

(** One byte of a quoted value. *)
Definition escape_byte (c : ascii) : string :=
  if c =c BSL then "\\"
  else if c =c DQ then String BSL (str1 DQ)
  else if c =c LF then "\n"
  else if c =c CR then "\r"
  else if c =c TAB then "\t"
  else str1 c.

Definition quote (v : string) : string :=
  String DQ (str_flat_map escape_byte v +:+ str1 DQ).

Definition Encode (key value : string) : string :=
  if negb (needsQuoting value) then key +:+ "=" +:+ value
  else key +:+ "=" +:+ quote value.

(** * Decode *)

(** The bytes an escape [\c] stands for; an unknown escape keeps both bytes. *)
Definition unescape_byte (c : ascii) : string :=
  if c =c "n" then str1 LF
  else if c =c "r" then str1 CR
  else if c =c "t" then str1 TAB
  else if c =c BSL then str1 BSL
  else if c =c DQ then str1 DQ
  else String BSL (str1 c).

Fixpoint unescape_loop (s : string) : string :=
  match s with
  | "" => ""
  | String c s' =>
      match s' with
      | "" => str1 c
      | String d s'' =>
          if c =c BSL then unescape_byte d +:+ unescape_loop s''
          else String c (unescape_loop s')
      end
  end.

Definition unescape (s : string) : string :=
  if negb (has_byte BSL s) then s else unescape_loop s.

(** [v[1:len(v)-1]] when [v] has at least two bytes and starts and ends with [q]. *)
Definition strip_quotes (q : ascii) (v : string) : option string :=
  match v with
  | String c v' =>
      if (c =c q) && bool_decide (last_byte v' = Some q) then Some (drop_last v') else None
  | "" => None
  end.

Definition decodeValue (v : string) : string :=
  match strip_quotes DQ v with
  | Some w => unescape w
  | None =>
      match strip_quotes "'" v with
      | Some w => w
      | None => v
      end
  end.

(** [None] is Go's [ok = false]. *)
Definition Decode (line : string) : option (string * string) :=
  let s := trim_left (" " +:+ str1 TAB) line in
  if bool_decide (s = "") || has_prefix s "#" then None
  else
    let s := trim_prefix s "export " in
    match cut_byte "=" s with
    | None => None
    | Some (k, v) =>
        let k := trim_space k in
        if decide (k = "") then None else Some (k, decodeValue v)
    end.

(** * The importer *)

Record ImportedSecret := { is_Key : string; is_Value : string }.

Inductive import_err := import_open | import_too_long.

(** [bufio.Scanner] with [ScanLines]: lines end at LF, one trailing CR is
dropped, and there is no line after the last LF. *)
Definition raw_lines (s : string) : list string :=
  let l := split_byte LF s in
  match last l with Some "" => take (pred (length l)) l | _ => l end.
Definition strip_cr (s : string) : string :=
  if decide (last_byte s = Some CR) then drop_last s else s.

(** [bufio.MaxScanTokenSize]: a line that does not fit the scanner's 64 KiB
buffer together with its LF stops the scan with [bufio.ErrTooLong]. *)
Definition MaxScanTokenSize : Z := 65536.
Definition line_too_long (s : string) : bool :=
  (MaxScanTokenSize <=? Z.of_nat (String.length s))%Z.

(** [file] is what [os.Open] and the reads deliver; [None] is a failed open. *)
Definition Import (file : option string) : result import_err (list ImportedSecret) :=
  match file with
  | None => Err import_open
  | Some content =>
      let lines := raw_lines content in
      if existsb line_too_long lines then Err import_too_long
      else Ok (omap (λ l,
        '(k, v) ← Decode (strip_cr l); Some {| is_Key := k; is_Value := v |}) lines)
  end.

(** * Round trip *)

(** The keys a line can carry: non-empty, without [=], not read as a comment or
an [export] prefix, and without surrounding white space. *)
Definition dotenv_key (k : string) : bool :=
  bool_decide (k ≠ "") && negb (has_byte "=" k)
  && bool_decide (trim_left (" " +:+ str1 TAB) k = k) && bool_decide (trim_space k = k)
  && negb (has_prefix k "#") && negb (has_prefix k "export ").

Section codec_lemmas.
Implicit Types (c : ascii) (k v s t : string).

Lemma trim_left_app cs k t :
  k ≠ "" → trim_left cs k = k → trim_left cs (k +:+ t) = k +:+ t.
Proof.
  destruct k as [|c k]; [done|]. intros _. rewrite str_cons_app. simpl.
  destruct (has_byte c cs) eqn:E; [|done]. intros H. exfalso.
  assert (∀ s, String.length (trim_left cs s) ≤ String.length s) as Hlen.
  { intros s. induction s; simpl; [lia|]. case_match; simpl; lia. }
  specialize (Hlen k). rewrite H in Hlen. simpl in Hlen. lia.
Qed.
Lemma has_prefix_app_sep e k t p :
  has_byte e p = false → has_prefix (k +:+ String e t) p = has_prefix k p.
Proof.
  revert k. induction p as [|d p IH]; intros k; [by destruct k|].
  rewrite has_byte_cons, orb_false_iff. intros [Hd Hp].
  rewrite ascii_eqb_false in Hd. destruct k as [|c k].
  - rewrite str_nil_app. simpl. destruct (Ascii.eqb_spec d e); [congruence|done].
  - rewrite str_cons_app. simpl. by rewrite IH.
Qed.

(** Byte by byte, the escapes decode to what was encoded. *)
Lemma unescape_loop_escape c s :
  unescape_loop (escape_byte c +:+ s) = String c (unescape_loop s).
Proof.
  unfold escape_byte.
  repeat (case_match; [match goal with H : (_ =c _) = true |- _ =>
    apply ascii_eqb_true in H as ->; done end|]).
  unfold str1. rewrite str_cons_app, str_nil_app. simpl.
  destruct s; [done|]. by match goal with H : (c =c BSL) = false |- _ => rewrite H end.
Qed.
Lemma unescape_loop_escapes v : unescape_loop (str_flat_map escape_byte v) = v.
Proof. induction v as [|c v IH]; [done|]. simpl. by rewrite unescape_loop_escape, IH. Qed.

Lemma unescape_escapes v : unescape (str_flat_map escape_byte v) = v.
Proof.
  unfold unescape. case_match eqn:E; [|apply unescape_loop_escapes].
  apply negb_true_iff in E. rewrite <-(unescape_loop_escapes v) at 2.
  generalize dependent (str_flat_map escape_byte v). clear v. intros s.
  induction s as [|c s IH]; [done|]. rewrite has_byte_cons, orb_false_iff.
  intros [Hc Hs]. simpl. destruct s as [|d s]; [done|].
  destruct (Ascii.eqb_spec c BSL) as [->|]; [done|]. by rewrite <-IH.
Qed.

Lemma strip_quotes_quote q s : strip_quotes q (String q (s +:+ str1 q)) = Some s.
Proof. simpl. rewrite ascii_eqb_refl, last_byte_snoc, bool_decide_eq_true_2 by done.
  simpl. by rewrite drop_last_snoc. Qed.
Lemma decodeValue_quote v : decodeValue (quote v) = v.
Proof. unfold decodeValue, quote. by rewrite strip_quotes_quote, unescape_escapes. Qed.

Lemma needsQuoting_head c v d :
  needsQuoting (String c v) = false → has_byte d quoting_chars = true → c ≠ d.
Proof.
  unfold needsQuoting, contains_any. case_decide; [done|].
  rewrite str_exists_false. simpl. intros [Hc _]%andb_true_iff Hd ->.
  by rewrite Hd in Hc.
Qed.
Lemma decodeValue_bare v : needsQuoting v = false → decodeValue v = v.
Proof.
  intros H. destruct v as [|c v]; [done|]. unfold decodeValue, strip_quotes.
  assert ((c =c DQ) = false) as ->.
  { apply ascii_eqb_false, (needsQuoting_head _ v); done. }
  assert ((c =c "'") = false) as ->; [|done].
  apply ascii_eqb_false, (needsQuoting_head _ v); done.
Qed.

Lemma Encode_shape k v :
  ∃ w, Encode k v = k +:+ String "=" w ∧ decodeValue w = v.
Proof.
  unfold Encode. destruct (needsQuoting v) eqn:E; simpl.
  - exists (quote v). by rewrite decodeValue_quote.
  - exists v. by rewrite decodeValue_bare.
Qed.

Lemma Decode_key k w :
  dotenv_key k = true → Decode (k +:+ String "=" w) = Some (k, decodeValue w).
Proof.
  unfold dotenv_key. intros H. split_bools. unfold Decode.
  rewrite trim_left_app by done.
  rewrite bool_decide_eq_false_2 by (by destruct k). cbn [orb].
  rewrite has_prefix_app_sep by done.
  match goal with H : has_prefix k "#" = false |- _ => rewrite H end.
  rewrite trim_prefix_none by (by rewrite has_prefix_app_sep).
  rewrite cut_byte_app by done.
  match goal with H : trim_space k = k |- _ => rewrite H end.
  by rewrite decide_False.
Qed.
Lemma Decode_Encode k v : dotenv_key k = true → Decode (Encode k v) = Some (k, v).
Proof.
  intros Hk. destruct (Encode_shape k v) as (w & -> & <-). by apply Decode_key.
Qed.
End codec_lemmas.

(** C4: [Decode] reverses [Encode] byte for byte: for every value, whatever
bytes it holds, and every key a dotenv line can carry, decoding the encoded
line gives back exactly the key and the value. *)
Theorem decode_encode k v : dotenv_key k = true → Decode (Encode k v) = Some (k, v).
Proof. apply Decode_Encode. Qed.

Lemma decode_encode_witness :
  Decode (Encode "API_KEY" ("a b" +:+ str1 LF +:+ str1 DQ +:+ "\n$'")) =
    Some ("API_KEY", "a b" +:+ str1 LF +:+ str1 DQ +:+ "\n$'").
Proof. apply decode_encode. vm_compute. reflexivity. Defined.
