(* ===== verification/Ref.v ===== *)
(** Cross-secret references [${NAME}] (src/internal/ref/ref.go): the transitive
expansion, its cycle and depth checks, and an independent specification of the
values that resolve. *)

From S2P Require Import Prelude GoStrings.

(** * The code *)

Definition MaxDepth : nat := 10.

Inductive Kind := KindMissing | KindCycle | KindDepth.
Record Error := mkError { err_Kind : Kind; err_Name : string; err_Chain : list string }.

(** [Lookup]: the raw stored value of a name, if the name is in scope. *)
Abbreviation Lookup := (string → option string).

Definition ref_letter (c : ascii) : bool := (c =c "_") || is_lower c || is_upper c.
(** [range] visits the first byte of each rune; a byte above 0x7f is in no
accepted class, so the check is the same byte by byte. *)
Definition isRefName (name : string) : bool :=
  match name with
  | "" => false
  | String c s => ref_letter c && str_forall (λ c, ref_letter c || is_digit c) s
  end.

(** [s[i-1] == '\\' || s[i-1] == '$'] when [i > 0]; [prev] is [s[i-1]]. *)
Definition escaped (prev : option ascii) : bool :=
  match prev with Some c => (c =c BSL) || (c =c "$") | None => false end.

(** [${name}] *)
Definition span (name : string) : string := "${" +:+ name +:+ "}".

(** [s[i] == '$'] and [s[i+1] == '{'], with the bytes after the brace. *)
Definition open_ref (s : string) : option string :=
  match s with
  | String c (String d r) => if (c =c "$") && (d =c "{") then Some r else None
  | _ => None
  end.

Section expand.
Context (lookup : Lookup).

(** The scan of one value.  [skip] counts the bytes of a span that has already
been written; [rec] is the recursive call of [expand]. *)
Fixpoint expand_loop (rec : string → list string → result Error string)
    (chain : list string) (skip : nat) (prev : option ascii) (s : string) : result Error string :=
  match s with
  | "" => Ok ""
  | String c s' =>
    match skip with
    | S k => expand_loop rec chain k (Some c) s'
    | O =>
      match open_ref s with
      | None => String c <$> expand_loop rec chain 0 (Some c) s'
      | Some r =>
        match cut_byte "}" r with
        | None => Ok s
        | Some (name, _) =>
          let next := expand_loop rec chain (String.length name + 2) (Some c) s' in
          if escaped prev || negb (isRefName name) then String.append (span name) <$> next
          else match lookup name with
          | None => Err (mkError KindMissing name (chain ++ [name]))
          | Some raw =>
            if bool_decide (name ∈ chain) then Err (mkError KindCycle "" (chain ++ [name]))
            else result_bind (λ resolved, String.append resolved <$> next) (rec raw (chain ++ [name]))
          end
        end
      end
    end
  end.

(** [fuel] bounds the recursion; [expand_fuel] shows that the depth check always
fires first. *)
Fixpoint expand (fuel : nat) (s : string) (chain : list string) : result Error string :=
  if MaxDepth <? length chain then Err (mkError KindDepth "" chain)
  else match fuel with
  | O => Err (mkError KindDepth "" chain)
  | S fuel => expand_loop (expand fuel) chain 0 None s
  end.

Definition Resolve (value : string) : result Error string := expand (S MaxDepth) value [].
End expand.

(** * Specification *)

(** What a value is made of: bytes to copy and references to replace. *)
Inductive token := Lit (l : string) | RefTok (name : string).
Definition print_token (t : token) : string :=
  match t with Lit l => l | RefTok n => span n end.
Definition print_tokens (ts : list token) : string :=
  foldr (λ t s, print_token t +:+ s) "" ts.

Fixpoint tokens_go (skip : nat) (prev : option ascii) (s : string) : list token :=
  match s with
  | "" => []
  | String c s' =>
    match skip with
    | S k => tokens_go k (Some c) s'
    | O =>
      match open_ref s with
      | None => Lit (str1 c) :: tokens_go 0 (Some c) s'
      | Some r =>
        match cut_byte "}" r with
        | None => [Lit s]
        | Some (name, _) =>
          (if escaped prev || negb (isRefName name) then Lit (span name) else RefTok name)
          :: tokens_go (String.length name + 2) (Some c) s'
        end
      end
    end
  end.
Definition tokens (s : string) : list token := tokens_go 0 None s.

(** [Expands lk h ts out]: replacing every reference of [ts] by its own
expansion gives [out], and the longest chain of references followed has
exactly [h] hops.  There is no rule for a cycle: its expansion is infinite. *)
Inductive Expands (lk : Lookup) : nat → list token → string → Prop :=
| ex_nil : Expands lk 0 [] ""
| ex_lit h l ts o : Expands lk h ts o → Expands lk h (Lit l :: ts) (l +:+ o)
| ex_ref h h' n raw ts o o' :
    lk n = Some raw → Expands lk h (tokens raw) o → Expands lk h' ts o' →
    Expands lk (S h `max` h') (RefTok n :: ts) (o +:+ o').

(** The tokens are a partition of the value. *)
Lemma str_drop_S n c s : str_drop (S n) (String c s) = str_drop n s.
Proof. done. Qed.
Lemma open_ref_Some s r : open_ref s = Some r ↔ s = "${" +:+ r.
Proof.
  unfold open_ref. split.
  - destruct s as [|c [|d s]]; [done|done|].
    destruct (Ascii.eqb_spec c "$") as [->|]; [|done].
    destruct (Ascii.eqb_spec d "{") as [->|]; [|done]. by intros [= ->].
  - by intros ->.
Qed.

Lemma print_tokens_go skip prev s : print_tokens (tokens_go skip prev s) = str_drop skip s.
Proof.
  revert skip prev. induction s as [|c s IH]; intros [|k] prev; try done; [|apply IH].
  cbn [tokens_go]. destruct (open_ref _) as [r|] eqn:Eo.
  - apply open_ref_Some in Eo. destruct (cut_byte "}" r) as [[name t]|] eqn:Ec.
    + apply cut_byte_Some in Ec as [-> _].
      rewrite Eo. injection Eo as -> ->. cbn [print_tokens foldr].
      fold (print_tokens (tokens_go (String.length name + 2) (Some "$"%char) ("{" +:+ name +:+ "}" +:+ t))).
      rewrite IH. clear IH.
      assert (str_drop (String.length name + 2) ("{" +:+ name +:+ String "}" t) = t) as ->.
      { replace (String.length name + 2) with (S (S (String.length name))) by lia.
        rewrite str_cons_app, str_drop_S, str_nil_app.
        replace (S (String.length name)) with (String.length (name +:+ "}")).
        2:{ rewrite str_length_app. simpl. lia. }
        rewrite <-(str_drop_app (name +:+ "}") t) at 2. by rewrite str_app_assoc. }
      transitivity (span name +:+ t); [by case_match|].
      unfold span. by rewrite !str_app_assoc.
    + simpl. by rewrite str_app_nil_r.
  - simpl. fold (print_tokens (tokens_go 0 (Some c) s)). by rewrite IH.
Qed.
Lemma print_tokens_tokens s : print_tokens (tokens s) = s.
Proof. apply print_tokens_go. Qed.

(** The height and the output of an expansion are unique. *)
Lemma Expands_unique lk h h' ts o o' :
  Expands lk h ts o → Expands lk h' ts o' → h = h' ∧ o = o'.
Proof.
  intros H1. revert h' o'.
  induction H1 as [|h l ts o _ IH|h1 h2 n raw ts o1 o2 Hl _ IH1 _ IH2]; intros h' o' H2;
    inversion H2; simplify_eq/=.
  - done.
  - edestruct IH; [eassumption|]. by simplify_eq.
  - edestruct IH1; [eassumption|]. edestruct IH2; [eassumption|]. by simplify_eq.
Qed.

(** * The scan processes the tokens in order *)

Section scan.
Context (lk : Lookup) (rec : string → list string → result Error string).
Implicit Types (chain : list string) (ts : list token).

Fixpoint run_tokens chain ts : result Error string :=
  match ts with
  | [] => Ok ""
  | Lit l :: ts => String.append l <$> run_tokens chain ts
  | RefTok name :: ts =>
    match lk name with
    | None => Err (mkError KindMissing name (chain ++ [name]))
    | Some raw =>
      if bool_decide (name ∈ chain) then Err (mkError KindCycle "" (chain ++ [name]))
      else result_bind (λ resolved, String.append resolved <$> run_tokens chain ts)
             (rec raw (chain ++ [name]))
    end
  end.

Lemma expand_loop_tokens chain skip prev s :
  expand_loop lk rec chain skip prev s = run_tokens chain (tokens_go skip prev s).
Proof.
  revert skip prev. induction s as [|c s IH]; intros [|k] prev; try done; [|apply IH].
  cbn [expand_loop tokens_go]. destruct (open_ref _) as [r|] eqn:Eo.
  - destruct (cut_byte "}" r) as [[name t]|]; cbn [run_tokens].
    + case_match; cbn [run_tokens]; by rewrite IH.
    + simpl. by rewrite str_app_nil_r.
  - cbn [run_tokens]. by rewrite IH.
Qed.

Lemma run_tokens_Ok chain ts o :
  run_tokens chain ts = Ok o →
  (∀ raw ch o, rec raw ch = Ok o →
     ∃ h, Expands lk h (tokens raw) o ∧ h + length ch ≤ MaxDepth) →
  ∃ h, Expands lk h ts o ∧ (h = 0 ∨ h + length chain ≤ MaxDepth).
Proof.
  intros H Hrec. revert o H. induction ts as [|[l|n] ts IH]; intros o H; simpl in H.
  - injection H as <-. exists 0. split; [constructor|by left].
  - destruct (run_tokens chain ts) as [o'|] eqn:E; [|done]. injection H as <-.
    destruct (IH _ eq_refl) as (h & Hh & ?). exists h. split; [by constructor|done].
  - destruct (lk n) as [raw|] eqn:El; [|done]. case_bool_decide; [done|].
    destruct (rec raw (chain ++ [n])) as [o1|] eqn:Er; [|done]. simpl in H.
    destruct (run_tokens chain ts) as [o2|] eqn:E; [|done]. injection H as <-.
    destruct (IH _ eq_refl) as (h2 & Hh2 & ?). destruct (Hrec _ _ _ Er) as (h1 & Hh1 & Hle).
    rewrite length_app in Hle. simpl in Hle. exists (S h1 `max` h2). split; [|lia].
    by econstructor.
Qed.
End scan.

Lemma expand_sound lk fuel s chain o :
  expand lk fuel s chain = Ok o →
  ∃ h, Expands lk h (tokens s) o ∧ h + length chain ≤ MaxDepth.
Proof.
  revert s chain o. induction fuel as [|fuel IH]; intros s chain o; cbn [expand];
    case_match eqn:Hd; try done.
  intros H. rewrite expand_loop_tokens in H. apply Nat.ltb_ge in Hd.
  destruct (run_tokens_Ok _ _ _ _ _ H (IH)) as (h & ? & [->|?]); eauto.
Qed.

(** Every name on the chain is being expanded, at a height no smaller than [h]. *)
Definition chain_above (lk : Lookup) (h : nat) (chain : list string) : Prop :=
  ∀ c, c ∈ chain → ∃ raw hc oc, lk c = Some raw ∧ Expands lk hc (tokens raw) oc ∧ h ≤ hc.

Lemma expand_complete lk fuel h s chain o :
  Expands lk h (tokens s) o → h < fuel → h + length chain ≤ MaxDepth →
  chain_above lk h chain → expand lk fuel s chain = Ok o.
Proof.
  revert h s chain o. induction fuel as [|fuel IH]; intros h s chain o He Hf Hd Hc; [lia|].
  cbn [expand]. rewrite (proj2 (Nat.ltb_ge _ _)) by lia. rewrite expand_loop_tokens.
  fold (tokens s). assert (Hle : h ≤ h) by done. revert Hle.
  generalize h at 1. intros k Hle. assert (∃ k', Expands lk k' (tokens s) o ∧ k' ≤ h) as Hk by eauto.
  clear He Hle k. destruct Hk as (k & He & Hk).
  induction He as [|k l ts o _ IHe|k1 k2 n raw ts o1 o2 Hl He1 _ _ IHe2]; simpl.
  - done.
  - by rewrite IHe.
  - rewrite Hl. rewrite bool_decide_eq_false_2.
    2:{ intros Hin. destruct (Hc n Hin) as (raw' & hc & oc & Hl' & He' & ?). simplify_eq.
        destruct (Expands_unique _ _ _ _ _ _ He1 He'). lia. }
    rewrite (IH k1 raw (chain ++ [n]) o1); [|done|lia|rewrite length_app; simpl; lia|].
    + simpl. rewrite IHe2 by lia. done.
    + intros c [Hin| ->%list_elem_of_singleton]%elem_of_app; [|by eauto 10].
      destruct (Hc c Hin) as (?&hc&?&?&?&?). exists x, hc, x0. eauto with lia.
Qed.

(** The recursion bound never decides: the depth check does. *)
Lemma expand_fuel lk fuel s chain :
  S MaxDepth ≤ fuel + length chain →
  expand lk fuel s chain = expand lk (S fuel) s chain.
Proof.
  revert s chain. induction fuel as [|fuel IH]; intros s chain Hf.
  - cbn [expand]. rewrite (proj2 (Nat.ltb_lt _ _)) by lia. done.
  - cbn [expand]. case_match; [done|]. rewrite !expand_loop_tokens.
    induction (tokens_go 0 None s) as [|[l|n] ts IHt]; simpl; [done|by rewrite IHt|].
    case_match; [|done]. case_match; [done|].
    rewrite IHt. f_equal. apply (IH _ _). rewrite length_app. simpl. lia.
Qed.

Lemma tokens_no_ref lk ts :
  (∀ n, RefTok n ∉ ts) → Expands lk 0 ts (print_tokens ts).
Proof.
  induction ts as [|[l|n] ts IH]; intros Hn; simpl; [constructor| |set_solver].
  constructor. apply IH. set_solver.
Qed.

(** C5: a value resolves exactly when replacing its references, transitively,
terminates within [MaxDepth] hops, and the result is that expansion: the cycle
check rejects only references without a finite expansion, the depth check only
chains of more than [MaxDepth] hops, and no other value is refused. *)
Theorem resolve_iff_expands lk value out :
  Resolve lk value = Ok out ↔
  ∃ h, Expands lk h (tokens value) out ∧ h ≤ MaxDepth.
Proof.
  unfold Resolve. split.
  - intros (h & ? & ?)%expand_sound. exists h. simpl in *. split; [done|lia].
  - intros (h & ? & ?). apply (expand_complete _ _ h); simpl; [done|lia..|].
    intros c Hc. set_solver.
Qed.

(** A value whose tokens hold no reference (no [${NAME}], or only escaped
and malformed ones) comes back byte for byte. *)
Theorem resolve_no_reference lk value :
  (∀ n, RefTok n ∉ tokens value) → Resolve lk value = Ok value.
Proof.
  intros H. rewrite <-(print_tokens_tokens value) at 2. unfold Resolve.
  apply (expand_complete _ _ 0); [by apply tokens_no_ref|lia|simpl; lia|].
  intros c Hc. set_solver.
Qed.

Lemma resolve_no_reference_witness :
  Resolve (λ _, None) "\${A} $${B} ${VAR:-x} ${" = Ok "\${A} $${B} ${VAR:-x} ${".
Proof.
  apply resolve_no_reference. intros n. vm_compute.
  intros H. repeat (apply elem_of_cons in H as [H|H]; [discriminate H|]).
  by apply not_elem_of_nil in H.
Defined.

(** * Errors *)

(** [ch] is a path of references that starts in [ts]: every name is referenced by
the value of the one before it. *)
Fixpoint ref_path (lk : Lookup) (ts : list token) (ch : list string) : Prop :=
  match ch with
  | [] => True
  | [n] => RefTok n ∈ ts
  | n :: ch => RefTok n ∈ ts ∧ ∃ raw, lk n = Some raw ∧ ref_path lk (tokens raw) ch
  end.

(** What an error reports, beyond the chain it was found on. *)
Definition error_reason (lk : Lookup) (e : Error) : Prop :=
  match err_Kind e with
  | KindMissing => lk (err_Name e) = None ∧ last (err_Chain e) = Some (err_Name e)
  | KindCycle => ∃ n ch, err_Chain e = ch ++ [n] ∧ n ∈ ch
  | KindDepth => length (err_Chain e) = S MaxDepth
  end.

Lemma ref_path_cons lk n raw ts ch :
  RefTok n ∈ ts → lk n = Some raw → ref_path lk (tokens raw) ch → ref_path lk ts (n :: ch).
Proof. intros. destruct ch; simpl; eauto. Qed.
Lemma ref_path_mono lk ts t ch : ref_path lk ts ch → ref_path lk (t :: ts) ch.
Proof. destruct ch as [|n [|]]; simpl; [done|set_solver|]. intros [? ?]. split; [set_solver|done]. Qed.

Lemma expand_error lk fuel s chain e :
  S MaxDepth ≤ fuel + length chain → length chain ≤ S MaxDepth →
  expand lk fuel s chain = Err e →
  error_reason lk e ∧ ∃ ch, err_Chain e = chain ++ ch ∧ ref_path lk (tokens s) ch.
Proof.
  revert s chain. induction fuel as [|fuel IH]; intros s chain Hf Hd; cbn [expand];
    case_match eqn:Hc; [|apply Nat.ltb_ge in Hc; simpl in *; lia|..].
  1,2: apply Nat.ltb_lt in Hc; intros [= <-]; split; [red; simpl; lia|];
    exists []; by rewrite app_nil_r.
  rewrite expand_loop_tokens. fold (tokens s).
  apply Nat.ltb_ge in Hc. induction (tokens s) as [|[l|n] ts IHt]; simpl; [done| |].
  - destruct (run_tokens _ _ _ ts) as [|e'] eqn:E; [done|]. intros [= ->].
    destruct (IHt eq_refl) as (? & ch & ? & ?). eauto using ref_path_mono.
  - destruct (lk n) as [raw|] eqn:El.
    2:{ intros [= <-]. split; [red; simpl; by rewrite last_snoc|].
        exists [n]. simpl. split; [done|set_solver]. }
    case_bool_decide as Hin.
    { intros [= <-]. split; [red; simpl; eauto|]. exists [n]. simpl. split; [done|set_solver]. }
    destruct (expand _ _ _ _) as [o|e'] eqn:E; simpl.
    + destruct (run_tokens _ _ _ ts) as [|e''] eqn:E'; [done|]. intros [= ->].
      destruct (IHt eq_refl) as (? & ch & ? & ?). eauto using ref_path_mono.
    + intros [= ->]. apply IH in E as (? & ch & Hch & Hp);
        [|rewrite length_app; simpl; lia..].
      split; [done|]. exists (n :: ch). rewrite Hch, <-app_assoc. split; [done|].
      apply (ref_path_cons _ _ raw); [set_solver|done..].
Qed.

(** C6: an error is never spurious: its chain is a path of references that starts
in the value, and it ends in a name that is not in scope (missing), in a name
that is already on the path (cycle), or has [MaxDepth + 1] names (depth). *)
Theorem resolve_error_sound lk value e :
  Resolve lk value = Err e →
  error_reason lk e ∧ ref_path lk (tokens value) (err_Chain e).
Proof.
  intros H. apply expand_error in H as (? & ch & -> & ?); [done|unfold MaxDepth; simpl; lia..].
Qed.

Lemma resolve_error_sound_witness :
  error_reason (λ n, if decide (n = "A") then Some "x${B}" else if decide (n = "B") then Some "${A}" else None)
    (mkError KindCycle "" ["A"; "B"; "A"]) ∧
  ref_path (λ n, if decide (n = "A") then Some "x${B}" else if decide (n = "B") then Some "${A}" else None)
    (tokens "${A}") ["A"; "B"; "A"].
Proof.
  apply (resolve_error_sound
    (λ n, if decide (n = "A") then Some "x${B}" else if decide (n = "B") then Some "${A}" else None)
    "${A}" (mkError KindCycle "" ["A"; "B"; "A"])).
  vm_compute. reflexivity.
Defined.
