(* ===== verification/EnvExec.v ===== *)
(** Building the environment of the injected process (src/internal/exec/exec.go). *)

From S2P Require Import Prelude GoStrings Provider.

(** * Key to variable name *)

(** The bytes [KeyToEnvName] replaces by an underscore. *)
Definition sep_byte (c : ascii) : bool :=
  (c =c "/") || (c =c "-") || (c =c "=") || (c =c " ") || (c =c LF) || (c =c CR).
Definition upper_byte (c : ascii) : ascii := if is_lower c then byte_of (code c - 97 + 65) else c.
Definition env_byte (c : ascii) : ascii := if sep_byte c then "_"%char else upper_byte c.

Definition KeyToEnvName (key pathPrefix : string) : string :=
  let name :=
    if bool_decide (pathPrefix ≠ "") && has_prefix key pathPrefix then
      let name := str_drop (String.length pathPrefix) key in
      match name with String c s => if c =c "/" then s else name | "" => "" end
    else key in
  let needsChange := str_exists (λ c, sep_byte c || is_lower c) name in
  if negb needsChange then name else str_map env_byte name.

(** * Environment *)

Section build.
Context {UC : UnicodeCase} {MR : MapRange}.

Definition exclude_set (exclude : list string) : gset string :=
  list_to_set (to_upper <$> exclude).

(** Null bytes and carriage returns are dropped, newlines become spaces. *)
Definition sanitize_byte (c : ascii) : string :=
  if (c =c NUL) || (c =c CR) then "" else if c =c LF then " " else str1 c.
Definition sanitize (val : string) : string :=
  if contains_any val (str1 NUL +:+ str1 LF +:+ str1 CR) then str_flat_map sanitize_byte val
  else val.

(** The name part of an entry [NAME=value] ([NAME] alone when there is no [=]). *)
Definition entry_name (e : string) : string :=
  match cut_byte "=" e with Some (n, _) => n | None => e end.
Definition existing_map (existing : list string) : gmap string string :=
  foldl (λ m e, match cut_byte "=" e with
                | Some (n, v) => <[n := v]> m
                | None => <[e := ""]> m
                end) ∅ existing.

Definition secret_vars (secrets : list Secret) (existing : gmap string string)
    (pathPrefix : string) (excl : gset string) : gmap string string :=
  foldl (λ m s,
    let name := KeyToEnvName (Key s) pathPrefix in
    if bool_decide (name ∈ excl) then m
    else if bool_decide (is_Some (existing !! name)) then m
    else <[name := sanitize (Value s)]> m) ∅ secrets.

Definition BuildEnv (secrets : list Secret) (existing : list string) (pathPrefix : string)
    (exclude : list string) : list string :=
  match secrets with
  | [] => existing
  | _ =>
    let vars := secret_vars secrets (existing_map existing) pathPrefix (exclude_set exclude) in
    existing ++ ((λ kv : string * string, kv.1 +:+ "=" +:+ kv.2) <$> range_map 0 vars)
  end.

(** [Some (name, prev, key)] is the error that names the clash. *)
Definition DetectEnvNameCollisions (secrets : list Secret) (pathPrefix : string)
    (exclude : list string) : option (string * string * string) :=
  match secrets with
  | [] => None
  | _ =>
    let excl := exclude_set exclude in
    first_collision (λ s, bool_decide (KeyToEnvName (Key s) pathPrefix ∈ excl))
      (λ s, KeyToEnvName (Key s) pathPrefix) Key ∅ secrets
  end.

(** * Lemmas *)

Lemma code_upper_byte c : is_lower c = true → code (upper_byte c) = (code c - 32)%Z.
Proof.
  unfold upper_byte, is_lower, in_range. intros H. rewrite H. split_bools.
  rewrite code_byte_of; lia.
Qed.
Lemma env_byte_shape c : sep_byte (env_byte c) = false ∧ is_lower (env_byte c) = false.
Proof. destruct c as [[] [] [] [] [] [] [] []]; by vm_compute. Qed.

Lemma str_map_forall p f s : (∀ c, p (f c) = true) → str_forall p (str_map f s) = true.
Proof. intros Hf. induction s; simpl; [done|]. by rewrite Hf. Qed.

Lemma KeyToEnvName_shape key pp :
  str_forall (λ c, negb (sep_byte c || is_lower c)) (KeyToEnvName key pp) = true.
Proof.
  unfold KeyToEnvName. case_match eqn:E.
  - apply negb_true_iff in E. by apply str_exists_false in E.
  - apply str_map_forall. intros c. by destruct (env_byte_shape c) as [-> ->].
Qed.

Lemma sanitize_clean c v :
  (c =c NUL) || (c =c CR) || (c =c LF) = true → has_byte c (sanitize v) = false.
Proof.
  intros Hc. unfold sanitize. case_match eqn:E.
  - clear E. induction v as [|d v IH]; [done|]. simpl.
    rewrite has_byte_app, IH, orb_false_r. unfold sanitize_byte.
    destruct ((d =c NUL) || (d =c CR)) eqn:E1; [done|]. apply orb_false_iff in E1 as [E1 E2].
    destruct (d =c LF) eqn:E3; unfold str1; rewrite has_byte_cons, orb_false_r.
    + apply ascii_eqb_false. intros ->. by vm_compute in Hc.
    + apply ascii_eqb_false. intros ->. by rewrite E1, E2, E3 in Hc.
  - unfold contains_any in E. apply str_exists_false in E. unfold has_byte.
    apply str_exists_false. eapply str_forall_impl; [|exact E]. intros d. simpl.
    destruct (Ascii.eqb_spec c d) as [->|]; [|done].
    intros Hd%negb_true_iff. exfalso.
    rewrite !orb_true_iff, !ascii_eqb_true in Hc. destruct Hc as [[->| ->]| ->]; done.
Qed.

(** The last secret of the list that produces [name]. *)
Definition last_with_name (pathPrefix name : string) (secrets : list Secret) : option Secret :=
  last (filter (λ s, KeyToEnvName (Key s) pathPrefix = name) secrets).

Lemma secret_vars_lookup secrets existing pp excl n :
  secret_vars secrets existing pp excl !! n =
  if bool_decide (n ∈ excl) || bool_decide (is_Some (existing !! n)) then None
  else (λ s, sanitize (Value s)) <$> last_with_name pp n secrets.
Proof.
  unfold secret_vars, last_with_name. induction secrets as [|s l IH] using rev_ind.
  - simpl. rewrite lookup_empty. by case_match.
  - rewrite foldl_app, filter_app. cbn [foldl]. rewrite filter_cons, filter_nil.
    destruct (decide (KeyToEnvName (Key s) pp = n)) as [<-|Hn].
    + rewrite last_snoc. simpl. case_bool_decide; [by rewrite IH|].
      case_bool_decide; [by rewrite IH|]. by rewrite lookup_insert_eq.
    + rewrite app_nil_r, <-IH. clear IH. case_bool_decide; [done|]. case_bool_decide; [done|].
      by rewrite lookup_insert_ne.
Qed.

Lemma existing_map_lookup existing n :
  is_Some (existing_map existing !! n) ↔ n ∈ (entry_name <$> existing).
Proof.
  unfold existing_map. induction existing as [|e l IH] using rev_ind; simpl.
  - rewrite lookup_empty. split; [by intros [? ?]|set_solver].
  - rewrite foldl_app, fmap_app, elem_of_app, <-IH. simpl. rewrite list_elem_of_singleton.
    unfold entry_name. destruct (cut_byte "=" e) as [[a b]|];
      [destruct (decide (n = a)) as [->|]|destruct (decide (n = e)) as [->|]];
      rewrite ?lookup_insert_eq, ?lookup_insert_ne by done; naive_solver.
Qed.

Lemma elem_of_BuildEnv secrets existing pp exclude e :
  e ∈ BuildEnv secrets existing pp exclude ↔
  e ∈ existing ∨ ∃ n s, last_with_name pp n secrets = Some s ∧ n ∉ exclude_set exclude ∧
    n ∉ (entry_name <$> existing) ∧ e = n +:+ "=" +:+ sanitize (Value s).
Proof.
  destruct secrets as [|s0 l]; [split; [by left|intros [|(?&?&?&?)]; done]|].
  unfold BuildEnv. generalize (s0 :: l). clear s0 l. intros secrets.
  rewrite elem_of_app, list_elem_of_fmap. f_equiv. split.
  - intros ([n v] & -> & Hin%elem_of_range_map). rewrite secret_vars_lookup in Hin.
    case_match eqn:E; [done|]. split_bools. rewrite existing_map_lookup in *.
    apply fmap_Some in Hin as (s & ? & ->). eauto 10.
  - intros (n & s & Hl & Hx & He & ->). exists (n, sanitize (Value s)). split; [done|].
    rewrite elem_of_range_map, secret_vars_lookup, Hl.
    rewrite !bool_decide_eq_false_2; [done| |done]. by rewrite existing_map_lookup.
Qed.
End build.

(** * Properties *)

(** the environment of the child process is the caller's environment,
untouched, followed by one entry for each secret variable name that is neither
excluded nor already set by the caller, holding the value of the last secret
with that name, sanitized; there is nothing else in it. *)
Theorem build_env_entries `{UnicodeCase, MapRange} secrets existing pp exclude :
  ∃ vars, BuildEnv secrets existing pp exclude = existing ++ vars ∧
    ∀ e, e ∈ vars ↔ ∃ n s, last_with_name pp n secrets = Some s ∧
      n ∉ exclude_set exclude ∧ n ∉ (entry_name <$> existing) ∧
      e = n +:+ "=" +:+ sanitize (Value s).
Proof.
  destruct secrets as [|s0 l].
  { exists []. rewrite app_nil_r. split; [done|]. intros e. split; [set_solver|].
    by intros (n & s & ? & _). }
  eexists. split; [done|]. intros e. rewrite list_elem_of_fmap. split.
  - intros ([n v] & -> & Hin%elem_of_range_map). rewrite secret_vars_lookup in Hin.
    case_match eqn:E; [done|]. split_bools. rewrite existing_map_lookup in *.
    apply fmap_Some in Hin as (s & ? & ->). eauto 10.
  - intros (n & s & Hl & Hx & He & ->). exists (n, sanitize (Value s)). split; [done|].
    rewrite elem_of_range_map, secret_vars_lookup, Hl.
    rewrite !bool_decide_eq_false_2; [done| |done]. by rewrite existing_map_lookup.
Qed.

(** When [DetectEnvNameCollisions] reports nothing, no secret is lost: for
every secret whose name is neither excluded nor set by the caller, the entry
that [BuildEnv] injects under that name carries the value of a secret with the
very same key (the last one given for it). *)
Theorem no_collision_no_loss `{UnicodeCase, MapRange} secrets existing pp exclude s :
  DetectEnvNameCollisions secrets pp exclude = None → s ∈ secrets →
  let n := KeyToEnvName (Key s) pp in
  n ∉ exclude_set exclude → n ∉ (entry_name <$> existing) →
  ∃ s', s' ∈ secrets ∧ Key s' = Key s ∧ last_with_name pp n secrets = Some s' ∧
    n +:+ "=" +:+ sanitize (Value s') ∈ BuildEnv secrets existing pp exclude.
Proof.
  intros Hc Hs n Hx He.
  assert (Hagree : ∀ x y, x ∈ secrets → y ∈ secrets → agree
    (λ s, bool_decide (KeyToEnvName (Key s) pp ∈ exclude_set exclude))
    (λ s, KeyToEnvName (Key s) pp) Key x y).
  { destruct secrets; [set_solver|]. by apply first_collision_None. }
  destruct (last_with_name pp n secrets) as [s'|] eqn:Hl.
  2:{ apply last_None in Hl. assert (Hin : s ∈ filter (λ s, KeyToEnvName (Key s) pp = n) secrets)
        by by rewrite list_elem_of_filter. rewrite Hl in Hin. set_solver. }
  assert (Hin : s' ∈ filter (λ s, KeyToEnvName (Key s) pp = n) secrets).
  { apply last_Some in Hl as [l ->]. set_solver. }
  apply list_elem_of_filter in Hin as [Hn Hin].
  exists s'. split_and!; [done| |done|].
  - apply (Hagree s' s); try done; apply bool_decide_eq_false; [by rewrite Hn|done].
  - apply elem_of_BuildEnv. right. eauto 10.
Qed.

Lemma no_collision_no_loss_witness :
  ∃ s', s' ∈ [mk_secret "/app/db-url" "v"; mk_secret "/app/KEY" "w"] ∧ Key s' = "/app/db-url" ∧
    last_with_name "/app" "DB_URL" [mk_secret "/app/db-url" "v"; mk_secret "/app/KEY" "w"] = Some s' ∧
    "DB_URL" +:+ "=" +:+ sanitize (Value s') ∈
      BuildEnv [mk_secret "/app/db-url" "v"; mk_secret "/app/KEY" "w"] ["HOME=/root"] "/app" ["key"].
Proof.
  apply (no_collision_no_loss [mk_secret "/app/db-url" "v"; mk_secret "/app/KEY" "w"]
    ["HOME=/root"] "/app" ["key"] (mk_secret "/app/db-url" "v")).
  - vm_compute. reflexivity.
  - left.
  - refute_decide.
  - refute_decide.
Defined.

(** Every name [KeyToEnvName] produces is free of the separators and of lower
case letters, so converting it again changes nothing; and an injected value
holds no null byte, newline or carriage return. *)
Theorem env_name_normal_form key pp v c :
  KeyToEnvName (KeyToEnvName key pp) "" = KeyToEnvName key pp ∧
  (has_byte c (KeyToEnvName key pp) = true → sep_byte c = false ∧ is_lower c = false) ∧
  (c = NUL ∨ c = LF ∨ c = CR → has_byte c (sanitize v) = false).
Proof.
  pose proof (KeyToEnvName_shape key pp) as Hsh. split_and!.
  - unfold KeyToEnvName at 1. rewrite bool_decide_eq_false_2 by (intros Hne; by apply Hne).
    simpl. unfold str_exists. by rewrite Hsh.
  - induction (KeyToEnvName key pp) as [|d s IH]; [done|]. simpl in Hsh.
    apply andb_true_iff in Hsh as [Hd Hsh]. rewrite has_byte_cons. intros [Hc|Hc]%orb_true_iff; auto.
    apply ascii_eqb_true in Hc as ->. apply negb_true_iff in Hd. by apply orb_false_iff.
  - intros Hc. apply sanitize_clean. by destruct Hc as [->|[->| ->]].
Qed.

Lemma env_name_normal_form_witness :
  KeyToEnvName (KeyToEnvName "/app/prod/api-key" "/app/prod") "" = KeyToEnvName "/app/prod/api-key" "/app/prod" ∧
  (has_byte "A" (KeyToEnvName "/app/prod/api-key" "/app/prod") = true → sep_byte "A" = false ∧ is_lower "A" = false) ∧
  ("A"%char = NUL ∨ "A"%char = LF ∨ "A"%char = CR → has_byte "A" (sanitize ("x" +:+ str1 LF)) = false).
Proof. apply (env_name_normal_form "/app/prod/api-key" "/app/prod" ("x" +:+ str1 LF) "A"). Defined.
