(* ===== verification/Template.v ===== *)
(** Template rendering (src/internal/template/template.go). *)

From S2P Require Import Prelude GoStrings Ref.

(** The matches of [tokenRe] (two dollars, or a dollar and an environment
variable name in braces) from left to right, without overlap, and the bytes
between them. *)
Inductive ttoken :=
| TByte (c : ascii)      (* no match starts here *)
| TEsc                   (* $$ *)
| TRef (key : string).   (* ${key} *)

(** The match that starts at the head of [s], and how many bytes after the first
it covers. *)
Definition match_token (s : string) : option (ttoken * nat) :=
  match s with
  | String c (String d _) =>
    if negb (c =c "$") then None
    else if d =c "$" then Some (TEsc, 1)
    else r ← open_ref s;
      '(key, _) ← cut_byte "}" r;
      if isRefName key then Some (TRef key, String.length key + 2) else None
  | _ => None
  end.

Fixpoint template_tokens_go (skip : nat) (s : string) : list ttoken :=
  match s with
  | "" => []
  | String c s' =>
    match skip with
    | S k => template_tokens_go k s'
    | O => match match_token s with
           | Some (t, n) => t :: template_tokens_go n s'
           | None => TByte c :: template_tokens_go 0 s'
           end
    end
  end.
Definition template_tokens (s : string) : list ttoken := template_tokens_go 0 s.

Definition print_ttoken (t : ttoken) : string :=
  match t with TByte c => str1 c | TEsc => "$$" | TRef k => span k end.

(** The function [ReplaceAllStringFunc] applies to each match. *)
Definition replace_token (secrets : gmap string string) (t : ttoken) : string :=
  match t with
  | TByte c => str1 c
  | TEsc => "$"
  | TRef key => default (span key) (secrets !! key)
  end.

Definition missing_set (secrets : gmap string string) (ts : list ttoken) : gset string :=
  foldr (λ t m, match t with
                | TRef key => if bool_decide (is_Some (secrets !! key)) then m else {[key]} ∪ m
                | _ => m
                end) ∅ ts.


(** The rendered text and the sorted missing keys. *)
Definition Render (content : string) (secrets : gmap string string) : string * list string :=
  let ts := template_tokens content in
  let out := str_concat (replace_token secrets <$> ts) in
  let missing := missing_set secrets ts in
  if bool_decide (missing = ∅) then (out, []) else (out, sort_strings (elements missing)).

(** The tokens are the content, cut up. *)
Lemma template_tokens_print_go skip s :
  str_concat (print_ttoken <$> template_tokens_go skip s) = str_drop skip s.
Proof.
  revert skip. induction s as [|c s IH]; intros [|k]; try done; [|apply IH].
  cbn [template_tokens_go]. destruct (match_token (String c s)) as [[t n]|] eqn:E.
  - cbn [fmap list_fmap str_concat foldr]. fold (str_concat (print_ttoken <$> template_tokens_go n s)).
    rewrite IH. cbn [str_drop].
    unfold match_token in E. destruct s as [|d s]; [done|].
    destruct (Ascii.eqb_spec c "$") as [->|]; [|done]. cbn [negb] in E.
    destruct (Ascii.eqb_spec d "$") as [->|]; [by injection E as <- <-|].
    destruct (open_ref _) as [r|] eqn:Eo; [|done]. simpl in E.
    destruct (cut_byte "}" r) as [[key t']|] eqn:Ec; [|done]. simpl in E.
    destruct (isRefName key); [|done]. injection E as <- <-.
    apply open_ref_Some in Eo. apply cut_byte_Some in Ec as [-> _]. injection Eo as -> ->.
    clear IH. rewrite str_nil_app.
    assert (Hd : str_drop (String.length key + 2) (String "{" (key +:+ String "}" t')) = t').
    { replace (String.length key + 2) with (S (String.length (key +:+ "}"))).
      2:{ rewrite str_length_app. simpl. lia. }
      rewrite str_drop_S. rewrite <-(str_drop_app (key +:+ "}") t') at 2. by rewrite str_app_assoc. }
    rewrite Hd. unfold print_ttoken, span. by rewrite !str_app_assoc.
  - cbn [fmap list_fmap str_concat foldr]. fold (str_concat (print_ttoken <$> template_tokens_go 0 s)).
    by rewrite IH.
Qed.

Lemma elem_of_missing_set secrets ts k :
  k ∈ missing_set secrets ts ↔ TRef k ∈ ts ∧ secrets !! k = None.
Proof.
  induction ts as [|t ts IH]; simpl; [set_solver|].
  destruct t as [c| |key]; simpl; [set_solver..|].
  case_bool_decide as Hs; rewrite ?elem_of_union, ?elem_of_singleton, IH, elem_of_cons.
  - split; [naive_solver|]. intros [[[= ->]|?] Hk]; [|done]. rewrite Hk in Hs. by destruct Hs.
  - rewrite <-eq_None_not_Some in Hs. naive_solver.
Qed.

(** Rendering cuts the content into the matches of the token expression and
the bytes between them; every byte outside a match is kept, [$$] becomes [$],
a reference becomes its secret's value or stays verbatim when it has none, and
the reported missing keys are exactly the referenced keys without a secret,
sorted and without repetition. *)
Theorem render_spec content secrets :
  let ts := template_tokens content in
  str_concat (print_ttoken <$> ts) = content ∧
  (Render content secrets).1 = str_concat (replace_token secrets <$> ts) ∧
  StronglySorted String.le (Render content secrets).2 ∧ NoDup (Render content secrets).2 ∧
  ∀ k, k ∈ (Render content secrets).2 ↔ TRef k ∈ ts ∧ secrets !! k = None.
Proof.
  intros ts. split; [apply template_tokens_print_go|].
  unfold Render. fold ts. case_bool_decide as Hm; simpl.
  - split; [done|]. split; [constructor|]. split; [constructor|]. intros k.
    rewrite <-elem_of_missing_set, Hm. set_solver.
  - split; [done|]. split; [apply sort_strings_sorted|]. split.
    + rewrite sort_strings_perm. apply NoDup_elements.
    + intros k. by rewrite elem_of_sort_strings, elem_of_elements, elem_of_missing_set.
Qed.
