(* ===== verification/Paths.v ===== *)
(** Slash-separated paths: the functions of Go's [path/filepath] (on Unix) that
the program uses. *)

From S2P Require Import Prelude GoStrings.

(** [filepath.IsAbs] *)
Definition IsAbs (p : string) : bool := has_prefix p "/".

(** One component in [Clean]: [.] and empty components vanish, [..] removes the
component before it when there is one to remove.  [st] is the result so far,
last component first. *)
Definition clean_step (rooted : bool) (st : list string) (c : string) : list string :=
  if bool_decide (c = "") || bool_decide (c = ".") then st
  else if bool_decide (c = "..") then
    match st with
    | [] => if rooted then [] else [".."]
    | x :: st' => if bool_decide (x = "..") then ".." :: st else st'
    end
  else c :: st.
Definition clean_components (p : string) : list string :=
  rev (foldl (clean_step (IsAbs p)) [] (split_byte "/" p)).
(** [filepath.Clean] *)
Definition Clean (p : string) : string :=
  if IsAbs p then "/" +:+ join "/" (clean_components p)
  else match clean_components p with [] => "." | l => join "/" l end.

(** [filepath.Join] of two elements: empty elements are ignored. *)
Definition Join (a b : string) : string :=
  if decide (a = "") then (if decide (b = "") then "" else Clean b)
  else if decide (b = "") then Clean a
  else Clean (a +:+ "/" +:+ b).

(** [filepath.Dir]: all but the last component. *)
Definition Dir (p : string) : string :=
  Clean (match last_index_byte p "/" with Some i => str_take (S i) p | None => "" end).

(** * Canonical absolute paths *)

(** A component that [Clean] keeps. *)
Definition good_component (c : string) : bool :=
  bool_decide (c ≠ "") && bool_decide (c ≠ ".") && bool_decide (c ≠ "..") && negb (has_byte "/" c).
(** The absolute path with these components. *)
Definition abs_path (l : list string) : string := "/" +:+ join "/" l.

Section lemmas.
Implicit Types (l : list string) (c s : string).

Lemma join_cons sep c l : l ≠ [] → join sep (c :: l) = c +:+ sep +:+ join sep l.
Proof. by destruct l. Qed.
Lemma split_join b l :
  l ≠ [] → (∀ c, c ∈ l → has_byte b c = false) → split_byte b (join (String b "") l) = l.
Proof.
  induction l as [|c l IH]; [done|]. intros _ Hl. destruct l as [|d l].
  - simpl. apply split_byte_no, Hl. set_solver.
  - rewrite join_cons by done. rewrite str_cons_app, str_nil_app.
    rewrite split_byte_app by (apply Hl; set_solver). f_equal. apply IH; [done|]. set_solver.
Qed.
Lemma join_snoc sep l c : l ≠ [] → join sep (l ++ [c]) = join sep l +:+ sep +:+ c.
Proof.
  induction l as [|d l IH]; [done|]. intros _. destruct l as [|e l]; [done|].
  simpl app. rewrite join_cons by done. rewrite (join_cons _ d (e :: l)) by done.
  change (e :: l ++ [c]) with ((e :: l) ++ [c]). rewrite IH by done.
  by rewrite !str_app_assoc.
Qed.

Lemma has_byte_false_lt b s : has_byte b s = false → last_index_byte s b = None.
Proof.
  induction s as [|d s IH]; [done|]. rewrite has_byte_cons, orb_false_iff. intros [Hb Hs].
  simpl. rewrite IH by done. rewrite ascii_eqb_false in Hb.
  by destruct (Ascii.eqb_spec d b) as [->|].
Qed.
Lemma last_index_byte_app b s t :
  has_byte b t = false → last_index_byte (s +:+ String b t) b = Some (String.length s).
Proof.
  intros Ht. induction s as [|d s IH].
  - rewrite str_nil_app. simpl. by rewrite (has_byte_false_lt _ _ Ht), ascii_eqb_refl.
  - rewrite str_cons_app. simpl. by rewrite IH.
Qed.
Lemma last_index_byte_Some b s i :
  last_index_byte s b = Some i →
  ∃ x y, s = x +:+ String b y ∧ String.length x = i ∧ has_byte b y = false.
Proof.
  revert i. induction s as [|d s IH]; intros i; simpl; [done|].
  destruct (last_index_byte s b) as [j|] eqn:E.
  - intros [= <-]. destruct (IH _ eq_refl) as (x & y & -> & <- & ?).
    exists (String d x), y. by rewrite str_cons_app.
  - destruct (Ascii.eqb_spec d b) as [->|]; [|done]. intros [= <-]. exists "", s.
    split; [done|]. split; [done|]. clear IH. induction s as [|e s IH]; [done|].
    simpl in E. destruct (last_index_byte s b) eqn:E'; [done|].
    destruct (Ascii.eqb_spec e b); [done|]. rewrite has_byte_cons, IH by done.
    rewrite orb_false_r. by apply ascii_eqb_false.
Qed.

Lemma clean_steps_good rooted st l :
  Forall (λ c, good_component c = true) l → foldl (clean_step rooted) st l = rev l ++ st.
Proof.
  intros Hl. revert st. induction Hl as [|c l Hc _ IH]; intros st; [done|]. simpl.
  rewrite <-app_assoc. simpl. rewrite <-IH. f_equal. unfold good_component in Hc. split_bools.
  unfold clean_step. by rewrite !bool_decide_eq_false_2 by done.
Qed.
Lemma good_component_no_slash c : good_component c = true → has_byte "/" c = false.
Proof. unfold good_component. intros. by split_bools. Qed.

Lemma clean_components_abs l :
  Forall (λ c, good_component c = true) l → clean_components (abs_path l) = l.
Proof.
  intros Hl. unfold clean_components, abs_path. change (IsAbs ("/" +:+ join "/" l)) with true.
  change ("/" +:+ join "/" l) with (String "/" (join "/" l)). simpl.
  destruct l as [|c l]; [done|].
  rewrite (split_join "/" (c :: l)); [|done|].
  2:{ intros d Hd. rewrite Forall_forall in Hl. apply good_component_no_slash; auto. }
  change (clean_step true [] "") with (@nil string).
  rewrite clean_steps_good by done. by rewrite app_nil_r, rev_involutive.
Qed.
Lemma Clean_abs l : Forall (λ c, good_component c = true) l → Clean (abs_path l) = abs_path l.
Proof.
  intros Hl. unfold Clean. change (IsAbs (abs_path l)) with true. simpl.
  by rewrite clean_components_abs.
Qed.

(** Leaving the last component, from a canonical path and from the root. *)
Lemma Dir_abs_snoc l c :
  Forall (λ c, good_component c = true) (l ++ [c]) → Dir (abs_path (l ++ [c])) = abs_path l.
Proof.
  intros Hl. pose proof Hl as [Hl1 Hc]%Forall_app. rewrite Forall_singleton in Hc.
  apply good_component_no_slash in Hc. unfold Dir, abs_path.
  destruct l as [|d l].
  - simpl app. simpl join. change ("/" +:+ c) with ("" +:+ String "/" c).
    by rewrite last_index_byte_app.
  - rewrite join_snoc by done. rewrite <-str_app_assoc.
    change ("/" +:+ c) with (String "/" c). rewrite last_index_byte_app by done.
    set (x := "/" +:+ join "/" (d :: l)).
    replace (str_take (S (String.length x)) (x +:+ String "/" c)) with (x +:+ "/").
    2:{ change (String "/" c) with ("/" +:+ c). rewrite <-str_app_assoc.
        replace (S (String.length x)) with (String.length (x +:+ "/")).
        { symmetry. apply str_take_app. } rewrite str_length_app. simpl. lia. }
    unfold Clean, clean_components. subst x.
    change (IsAbs _) with true. change (("/" +:+ join "/" (d :: l)) +:+ "/")
      with (String "/" (join "/" (d :: l) +:+ "/")). cbn [split_byte].
    change ("/" =c "/") with true. cbn iota.
    assert (∀ l', l' ≠ [] → (∀ c, c ∈ l' → has_byte "/" c = false) →
      split_byte "/" (join "/" l' +:+ "/") = l' ++ [""]) as Hs.
    { clear. induction l' as [|c l' IH]; [done|]. intros _ H. destruct l' as [|e l'].
      - simpl. apply (split_byte_app "/" c "").
        apply H. set_solver.
      - rewrite join_cons by done. rewrite !str_app_assoc.
        change ("/" +:+ join "/" (e :: l') +:+ "/") with (String "/" (join "/" (e :: l') +:+ "/")).
        rewrite split_byte_app by (apply H; set_solver). simpl app. f_equal.
        apply IH; [done|]. set_solver. }
    rewrite Hs; [|done|].
    2:{ intros e He. rewrite Forall_forall in Hl1. apply good_component_no_slash; auto. }
    cbn [foldl]. change (clean_step true [] "") with (@nil string).
    rewrite foldl_app, (clean_steps_good true [] (d :: l) Hl1), app_nil_r. cbn [foldl].
    change (clean_step true (rev (d :: l)) "") with (rev (d :: l)). by rewrite rev_involutive.
Qed.
Lemma Dir_root : Dir (abs_path []) = abs_path [].
Proof. done. Qed.
End lemmas.

(** * Joining *)


Lemma clean_components_snoc dir c :
  dir ≠ "" → good_component c = true → clean_components (dir +:+ "/" +:+ c) = clean_components dir ++ [c].
Proof.
  intros Hd Hc. unfold clean_components. assert (IsAbs (dir +:+ "/" +:+ c) = IsAbs dir) as -> by (by destruct dir).
  change ("/" +:+ c) with (String "/" c). rewrite split_byte_mid, foldl_app, (split_byte_no _ c) by (by apply good_component_no_slash).
  cbn [foldl]. unfold clean_step at 1. unfold good_component in Hc. split_bools.
  rewrite !bool_decide_false by done. cbn. done.
Qed.
Lemma Join_inj dir c d : dir ≠ "" → good_component c = true → good_component d = true → Join dir c = Join dir d → c = d.
Proof.
  intros Hd Hc Hc'. unfold Join. rewrite !(decide_False (P := dir = "")) by done.
  assert (c ≠ "" ∧ d ≠ "") as [??] by (unfold good_component in *; split_bools; done).
  rewrite !decide_False by done. unfold Clean.
  assert (IsAbs (dir +:+ "/" +:+ c) = IsAbs (dir +:+ "/" +:+ d)) as <- by (by destruct dir).
  rewrite !clean_components_snoc by done. set (l := clean_components dir).
  assert (Hj : join "/" (l ++ [c]) = join "/" (l ++ [d]) → c = d).
  { destruct (decide (l = [])) as [->|Hl]; [done|]. rewrite !join_snoc by done. rewrite <-!str_app_assoc.
    intros E. by apply (inj (String.append _)) in E. }
  destruct (IsAbs _).
  - intros E. apply Hj. by injection E.
  - destruct l; cbn; exact Hj.
Qed.

Lemma join_split b s : join (String b "") (split_byte b s) = s.
Proof.
  induction s as [|c s IH]; [done|]. simpl. pose proof (split_byte_ne b s) as Hne. destruct (Ascii.eqb_spec c b) as [->|_].
  - rewrite join_cons, IH by done. done.
  - destruct (split_byte b s) as [|x l]; [done|]. destruct l as [|y l].
    + cbn in *. by rewrite IH.
    + rewrite join_cons in IH |- * by done. rewrite str_cons_app. by rewrite IH.
Qed.
Lemma join_app sep l1 l2 : l1 ≠ [] → l2 ≠ [] → join sep (l1 ++ l2) = join sep l1 +:+ sep +:+ join sep l2.
Proof.
  intros H1 H2. induction l1 as [|x l1 IH]; [done|]. destruct l1 as [|y l1].
  - cbn [app]. by rewrite join_cons.
  - cbn [app] in *. rewrite !(join_cons _ x) by done. rewrite IH by done. by rewrite !str_app_assoc.
Qed.
(** Below a clean absolute directory. *)
Lemma Join_good root rel :
  IsAbs root = true → Clean root = root → Forall (λ c, good_component c = true) (split_byte "/" rel) → rel ≠ "" →
  Join root rel = if bool_decide (root = "/") then "/" +:+ rel else root +:+ "/" +:+ rel.
Proof.
  intros Ha Hc Hg Hrel. assert (root ≠ "") as Hne by (by intros ->). unfold Join.
  rewrite !decide_False by done. unfold Clean.
  assert (IsAbs (root +:+ "/" +:+ rel) = true) as -> by (by destruct root).
  assert (Hl : clean_components (root +:+ "/" +:+ rel) = clean_components root ++ split_byte "/" rel).
  { unfold clean_components. assert (IsAbs (root +:+ "/" +:+ rel) = IsAbs root) as -> by (by destruct root).
    change ("/" +:+ rel) with (String "/" rel). rewrite split_byte_mid, foldl_app, clean_steps_good by done.
    by rewrite rev_app_distr, rev_involutive. }
  rewrite Hl. pose proof Hc as Hc'. unfold Clean in Hc'. rewrite Ha in Hc'. pose proof (split_byte_ne "/" rel).
  destruct (decide (clean_components root = [])) as [El|El].
  - rewrite El in Hc' |- *. cbn in Hc'. subst root. rewrite bool_decide_true by done. cbn [app]. by rewrite join_split.
  - rewrite join_app, join_split by done. rewrite bool_decide_false.
    + rewrite <-Hc' at 2. by rewrite str_app_assoc.
    + intros ->. apply El. vm_compute. reflexivity.
Qed.
