(* ===== verification/Config.v ===== *)
(** Configuration: the .skret.yaml schema and its validation
(src/internal/config/schema.go), resolution (resolver.go), the key and path
helpers (keyresolve.go, pathresolve.go, ephemeral.go) and the upward search for
the file (loader.go). *)

From S2P Require Import Prelude GoStrings Paths.

(** * Schema *)

Record Environment := mkEnvironment {
  env_Provider : string;
  env_Path : string;
  env_Region : string;
  env_Profile : string;
  env_KMSKeyID : string;
  env_File : string;
  env_Project : string;
  env_Encrypted : bool;
  env_AuditLog : string;
  env_CompartmentID : string;
  env_VaultID : string;
  env_KeyID : string;
  env_VaultURL : string;
  env_VaultName : string;
}.

Record SyncTarget := mkSyncTarget {
  st_Type : string;
  st_Repo : string;
  st_Worker : string;
  st_Pages : string;
  st_Account : string;
  st_File : string;
  st_Project : string;
  st_Masked : bool;
  st_Protected : bool;
  st_Name : string;
  st_Namespace : string;
  st_NoOverwrite : bool;
  st_BaseURL : string;
}.
Record HubConfig := mkHubConfig { hub_URL : string; hub_Namespace : string }.
Record SyncConfig := mkSyncConfig { sync_Targets : list SyncTarget; sync_Hub : option HubConfig }.

Definition NotifyEventSet : string := "set".
Definition NotifyEventDelete : string := "delete".
Definition NotifyEventRotate : string := "rotate".
Definition NotifyEventSync : string := "sync".
Definition notifyEventValid : gset string :=
  {[NotifyEventSet; NotifyEventDelete; NotifyEventRotate; NotifyEventSync]}.
Definition ValidNotifyEvent (name : string) : bool := bool_decide (name ∈ notifyEventValid).

Record NotifyConfig := mkNotifyConfig {
  notify_WebhookURLs : list string;
  notify_Events : list string;
  notify_Secret : string;
}.
Record MCPConfig := mkMCPConfig { mcp_AllowWrite : bool; mcp_AllowedEnvs : list string }.

Record Config := mkConfig {
  cfg_Version : string;
  cfg_DefaultEnv : string;
  cfg_Project : string;
  cfg_Environments : gmap string Environment;
  cfg_Required : list string;
  cfg_Exclude : list string;
  cfg_Sync : option SyncConfig;
  cfg_Notify : option NotifyConfig;
  cfg_MCP : option MCPConfig;
}.

(** The errors, one constructor per message. *)
Inductive config_err :=
| version_required | unsupported_version (v : string) | no_environments
| default_env_not_found (n : string)
| provider_required (n : string) | field_required (n field provider : string)
| path_must_be_empty (n : string) | unknown_provider (n p : string)
| target_field_required (type field : string) | target_exactly_one | unknown_target (t : string)
| webhook_required | webhook_bad_url (u : string) | webhook_bad_node | unknown_event (e : string)
| allowed_env_not_found (n : string)
| no_environment_specified | environment_not_found (n : string) (available : list string).

(** * Validation *)

(** [net/url.Parse]: the scheme and the host of a URL, [None] for a parse error. *)
Class UrlParse : Type := { url_parse : string → option (string * string) }.

(** A decoded YAML node: the list or the string it decodes to, or [None] when
decoding it fails. *)
Inductive yaml_node :=
| SequenceNode (urls : option (list string))
| ScalarNode (single : option string)
| OtherNode.

Definition WebhookURLs_UnmarshalYAML (node : yaml_node) : result config_err (list string) :=
  match node with
  | SequenceNode None => Err webhook_bad_node
  | SequenceNode (Some urls) => Ok urls
  | ScalarNode None => Err webhook_bad_node
  | ScalarNode (Some single) => if decide (single = "") then Ok [] else Ok [single]
  | OtherNode => Err webhook_bad_node
  end.

Local Open Scope go_scope.

Section validate.
Context {URL : UrlParse}.

Definition webhook_ok (raw : string) : bool :=
  match url_parse raw with
  | None => false
  | Some (scheme, host) =>
    bool_decide (host ≠ "") && (bool_decide (scheme = "http") || bool_decide (scheme = "https"))
  end.

Definition NotifyConfig_validate (n : NotifyConfig) : error config_err :=
  err_if (bool_decide (notify_WebhookURLs n = [])) webhook_required (
  err_each (λ raw, err_if (negb (webhook_ok raw)) (webhook_bad_url raw) None) (notify_WebhookURLs n) ;;?
  err_each (λ e, err_if (negb (ValidNotifyEvent e)) (unknown_event e) None) (notify_Events n)).

Definition MCPConfig_validate (m : MCPConfig) (envs : gmap string Environment) : error config_err :=
  err_each (λ name, err_if (bool_decide (envs !! name = None)) (allowed_env_not_found name) None)
    (mcp_AllowedEnvs m).

Definition empty (s : string) : bool := bool_decide (s = "").

Definition Environment_validate (e : Environment) (name : string) : error config_err :=
  err_if (empty (env_Provider e)) (provider_required name) (
  if decide (env_Provider e = "aws") then
    err_if (empty (env_Path e)) (field_required name "path" "aws") None
  else if decide (env_Provider e = "gcp") then
    err_if (empty (env_Project e)) (field_required name "project" "gcp") (
    err_if (negb (empty (env_Path e))) (path_must_be_empty name) None)
  else if decide (env_Provider e = "local") then
    err_if (empty (env_File e)) (field_required name "file" "local") None
  else if decide (env_Provider e = "azure") then
    err_if (empty (env_VaultURL e) && empty (env_VaultName e))
      (field_required name "vault_url or vault_name" "azure") None
  else if decide (env_Provider e = "oci") then
    err_if (empty (env_CompartmentID e)) (field_required name "compartment_id" "oci") (
    err_if (empty (env_VaultID e)) (field_required name "vault_id" "oci") None)
  else Some (unknown_provider name (env_Provider e))).

Definition SyncTarget_validate (s : SyncTarget) : error config_err :=
  if decide (st_Type s = "github") then
    err_if (empty (st_Repo s)) (target_field_required "github" "repo") None
  else if decide (st_Type s = "cloudflare") then
    err_if (empty (st_Worker s) && empty (st_Pages s))
      (target_field_required "cloudflare" "worker or pages") (
    err_if (negb (empty (st_Worker s)) && negb (empty (st_Pages s))) target_exactly_one None)
  else if decide (st_Type s = "gitlab") then
    err_if (empty (st_Project s)) (target_field_required "gitlab" "project") None
  else if decide (st_Type s = "terraform") then None
  else if decide (st_Type s = "k8s" ∨ st_Type s = "k8s-manifest") then None
  else if decide (st_Type s = "dotenv") then None
  else Some (unknown_target (st_Type s)).

Definition Validate (c : Config) : error config_err :=
  err_if (empty (cfg_Version c)) version_required (
  err_if (bool_decide (cfg_Version c ≠ "1")) (unsupported_version (cfg_Version c)) (
  err_if (bool_decide (cfg_Environments c = ∅)) no_environments (
  err_if (negb (empty (cfg_DefaultEnv c)) &&
          bool_decide (cfg_Environments c !! cfg_DefaultEnv c = None))
    (default_env_not_found (cfg_DefaultEnv c)) (
  (match cfg_Sync c with
   | Some s => err_each SyncTarget_validate (sync_Targets s) | None => None end) ;;?
  (match cfg_Notify c with Some n => NotifyConfig_validate n | None => None end) ;;?
  (match cfg_MCP c with
   | Some m => MCPConfig_validate m (cfg_Environments c) | None => None end))))).
End validate.

(** * Keys and paths *)

(** [strings.TrimRight(resolvedPath, "/")] then the five cases; the boolean
reports a recovered shell-mangled key. *)
Definition ResolveKey (resolvedPath key : string) : string * bool :=
  let rp := trim_right "/" resolvedPath in
  if empty rp || empty key then (key, false)
  else if bool_decide (key = rp) || has_prefix key (rp +:+ "/") then (key, false)
  else match index key (rp +:+ "/") with
  | Some (S i) => (str_drop (S i) key, true)
  | _ =>
    if has_prefix key "/" then (key, false)
    else (rp +:+ "/" +:+ key, false)
  end.

Definition NormalizeSSMPath (p : string) : string :=
  if empty p || has_prefix p "/" then p
  else match p with
  | String _ (String c _) => if c =c ":" then p else "/" +:+ p
  | _ => "/" +:+ p
  end.

Definition isSSMPathSegment (s : string) : bool :=
  match s with
  | "" => false
  | String c s =>
    is_lower c && str_forall (λ c, is_lower c || is_digit c || (c =c "_") || (c =c "-")) s
  end.

Definition backslash_to_slash (s : string) : string :=
  str_map (λ c, if c =c BSL then "/"%char else c) s.

(** The backward scan: [current] is the end of the part not yet matched, -1 when
the first segment of [norm] was matched too.  [fuel] bounds the iterations;
every one moves [current] to an earlier position. *)
Fixpoint path_scan (fuel : nat) (norm : string) (current : Z) (matched : nat) : Z * nat :=
  match fuel with
  | O => (current, matched)
  | S fuel =>
    if (current <=? 0)%Z then (current, matched)
    else
      let head := str_take (Z.to_nat current) norm in
      let idx := match last_index_byte head "/" with Some i => Z.of_nat i | None => (-1)%Z end in
      let segStart := if (idx =? -1)%Z then 0 else Z.to_nat (idx + 1) in
      if negb (isSSMPathSegment (str_drop segStart head)) then (current, matched)
      else path_scan fuel norm idx (S matched)
  end.

Definition ResolvePath (raw : string) : string * bool :=
  if empty raw || has_prefix raw "/" then (raw, false)
  else match raw with
  | String _ (String c _) =>
    if negb (c =c ":") then (raw, false)
    else
      let norm := backslash_to_slash raw in
      let '(current, matched) :=
        path_scan (S (S (String.length norm))) norm (Z.of_nat (String.length norm)) 0 in
      if 2 <=? matched then
        let current := if (current =? -1)%Z then 0%Z else current in
        ("/" +:+ trim_left "/" (str_drop (Z.to_nat current) norm), true)
      else (raw, true)
  | _ => (raw, false)
  end.

(** * Resolution *)

Record ResolveOpts := mkResolveOpts {
  opt_Env : string; opt_Provider : string; opt_Path : string;
  opt_Region : string; opt_Profile : string; opt_File : string;
}.

Record ResolvedConfig := mkResolvedConfig {
  rc_EnvName : string;
  rc_Provider : string;
  rc_Path : string;
  rc_PathMangled : bool;
  rc_Region : string;
  rc_Profile : string;
  rc_KMSKeyID : string;
  rc_File : string;
  rc_Project : string;
  rc_Encrypted : bool;
  rc_AuditLog : string;
  rc_CompartmentID : string;
  rc_VaultID : string;
  rc_KeyID : string;
  rc_VaultURL : string;
  rc_VaultName : string;
  rc_Required : list string;
  rc_Exclude : list string;
  rc_Notify : option NotifyConfig;
}.

Fixpoint firstNonEmpty (values : list string) : string :=
  match values with
  | [] => ""
  | v :: vs => if bool_decide (v ≠ "") then v else firstNonEmpty vs
  end.

Definition envNames (envs : gmap string Environment) : list string := sorted_keys envs.

(** [getenv] is [os.Getenv]. *)
Definition select_env (getenv : string → string) (cfg : Config) (opts : ResolveOpts) : string :=
  let envName := firstNonEmpty [opt_Env opts; getenv "SKRET_ENV"; cfg_DefaultEnv cfg] in
  if empty envName then
    match map_to_list (cfg_Environments cfg) with [(name, _)] => name | _ => envName end
  else envName.

Definition Resolve (getenv : string → string) (cfg : Config) (opts : ResolveOpts) :
    result config_err ResolvedConfig :=
  let envName := select_env getenv cfg opts in
  if empty envName then Err no_environment_specified
  else match cfg_Environments cfg !! envName with
  | None => Err (environment_not_found envName (envNames (cfg_Environments cfg)))
  | Some env =>
    try! Environment_validate env envName;
    let '(flagPath, pathMangled) := ResolvePath (opt_Path opts) in
    Ok {|
      rc_EnvName := envName;
      rc_Provider := firstNonEmpty [opt_Provider opts; getenv "SKRET_PROVIDER"; env_Provider env];
      rc_Path := NormalizeSSMPath (firstNonEmpty [flagPath; getenv "SKRET_PATH"; env_Path env]);
      rc_PathMangled := pathMangled;
      rc_Region := firstNonEmpty
        [opt_Region opts; getenv "SKRET_REGION"; getenv "AWS_REGION"; env_Region env];
      rc_Profile := firstNonEmpty
        [opt_Profile opts; getenv "SKRET_PROFILE"; getenv "AWS_PROFILE"; env_Profile env];
      rc_KMSKeyID := env_KMSKeyID env;
      rc_File := firstNonEmpty [opt_File opts; env_File env];
      rc_Project := firstNonEmpty [getenv "GOOGLE_CLOUD_PROJECT"; env_Project env];
      rc_Encrypted := env_Encrypted env;
      rc_AuditLog := env_AuditLog env;
      rc_CompartmentID := env_CompartmentID env;
      rc_VaultID := env_VaultID env;
      rc_KeyID := env_KeyID env;
      rc_VaultURL := env_VaultURL env;
      rc_VaultName := env_VaultName env;
      rc_Required := cfg_Required cfg;
      rc_Exclude := cfg_Exclude cfg;
      rc_Notify := cfg_Notify cfg;
    |}
  end.

Definition anchorPath (p dir : string) : string :=
  if empty p || IsAbs p then p else Join dir p.

Definition anchor_env (dir : string) (e : Environment) : Environment :=
  {| env_Provider := env_Provider e; env_Path := env_Path e; env_Region := env_Region e;
     env_Profile := env_Profile e; env_KMSKeyID := env_KMSKeyID e;
     env_File := anchorPath (env_File e) dir; env_Project := env_Project e;
     env_Encrypted := env_Encrypted e; env_AuditLog := anchorPath (env_AuditLog e) dir;
     env_CompartmentID := env_CompartmentID e; env_VaultID := env_VaultID e;
     env_KeyID := env_KeyID e; env_VaultURL := env_VaultURL e; env_VaultName := env_VaultName e |}.
(** The loop rewrites every environment of the map in place. *)
Definition AnchorToDir (c : Config) (dir : string) : Config :=
  {| cfg_Version := cfg_Version c; cfg_DefaultEnv := cfg_DefaultEnv c;
     cfg_Project := cfg_Project c; cfg_Environments := anchor_env dir <$> cfg_Environments c;
     cfg_Required := cfg_Required c; cfg_Exclude := cfg_Exclude c; cfg_Sync := cfg_Sync c;
     cfg_Notify := cfg_Notify c; cfg_MCP := cfg_MCP c |}.

Definition EphemeralConfig (getenv : string → string) (opts : ResolveOpts) : Config :=
  let env := firstNonEmpty [opt_Env opts; getenv "SKRET_ENV"; "prod"] in
  let prov := firstNonEmpty [opt_Provider opts; getenv "SKRET_PROVIDER"; "aws"] in
  {| cfg_Version := "1"; cfg_DefaultEnv := env; cfg_Project := "";
     cfg_Environments := {[ env :=
       {| env_Provider := prov; env_Path := opt_Path opts;
          env_Region := firstNonEmpty [opt_Region opts; getenv "SKRET_REGION"; getenv "AWS_REGION"];
          env_Profile := firstNonEmpty
            [opt_Profile opts; getenv "SKRET_PROFILE"; getenv "AWS_PROFILE"];
          env_KMSKeyID := ""; env_File := opt_File opts; env_Project := "";
          env_Encrypted := false; env_AuditLog := ""; env_CompartmentID := ""; env_VaultID := "";
          env_KeyID := ""; env_VaultURL := ""; env_VaultName := "" |} ]};
     cfg_Required := []; cfg_Exclude := []; cfg_Sync := None; cfg_Notify := None;
     cfg_MCP := None |}.

(** * Loading *)

Inductive load_err := read_failed | parse_failed | invalid (e : config_err).

(** [read] is [os.ReadFile]; [decode] is the strict YAML decoder (an empty
document decodes to the zero configuration). *)
Definition Load {URL : UrlParse} (read : string → option string)
    (decode : string → option Config) (path : string) : result load_err Config :=
  match read path with
  | None => Err read_failed
  | Some data =>
    match decode data with
    | None => Err parse_failed
    | Some cfg => match Validate cfg with Some e => Err (invalid e) | None => Ok cfg end
    end
  end.

Definition ConfigFileName : string := ".skret.yaml".

(** [exists_] is "[os.Stat] succeeds"; [None] is [ErrConfigNotFound].  [fuel]
bounds the number of directories visited. *)
Fixpoint discover_loop (fuel : nat) (exists_ : string → bool) (dir : string) : option string :=
  match fuel with
  | O => None
  | S fuel =>
    let candidate := Join dir ConfigFileName in
    if exists_ candidate then Some candidate
    else if exists_ (Join dir ".git") then None
    else
      let parent := Dir dir in
      if decide (parent = dir) then None else discover_loop fuel exists_ parent
  end.
(** [dir] is the absolute start directory. *)
Definition Discover (exists_ : string → bool) (dir : string) : option string :=
  discover_loop (S (String.length dir)) exists_ dir.

(** * Keys and paths: properties *)

Lemma index_has_prefix s sub i : index s sub = Some i → has_prefix (str_drop i s) sub = true.
Proof.
  revert i. induction s as [|c s IH]; intros i; cbn [index]; destruct (has_prefix _ sub) eqn:E;
    try done; try (by intros [= <-]).
  intros (j & Hj & ->)%fmap_Some. by apply IH.
Qed.
Lemma has_prefix_trans s p q :
  has_prefix s (p +:+ q) = true → has_prefix s p = true.
Proof. rewrite !has_prefix_spec. intros [t ->]. exists (q +:+ t). by rewrite str_app_assoc. Qed.

(** The qualified form: under the path, or an absolute key of its own. *)
Definition qualified (rp key : string) : bool :=
  empty rp || empty key || bool_decide (key = rp) || has_prefix key (rp +:+ "/")
  || (bool_decide (index key (rp +:+ "/") = None) && has_prefix key "/").

Lemma ResolveKey_qualified p key :
  qualified (trim_right "/" p) key = true → ResolveKey p key = (key, false).
Proof.
  unfold qualified, ResolveKey. set (rp := trim_right "/" p).
  destruct (empty rp || empty key); [done|]. cbn [orb].
  destruct (bool_decide (key = rp) || has_prefix key (rp +:+ "/")); [done|]. cbn [orb].
  intros [->%bool_decide_eq_true ->]%andb_true_iff. done.
Qed.

(** [ResolveKey] settles: the key it returns is one it returns unchanged and
without the warning, and a key reported as recovered is the part of the given
key that starts with the configured path. *)
Theorem resolve_key_stable p key :
  let r := ResolveKey p key in
  ResolveKey p r.1 = (r.1, false) ∧
  (r.2 = true → has_prefix r.1 (trim_right "/" p +:+ "/") = true ∧
     ∃ prefix, prefix ≠ "" ∧ key = prefix +:+ r.1).
Proof.
  intros r. assert (Hr : r = ResolveKey p key) by done. clearbody r.
  assert (Hq : ∀ t, ResolveKey p (trim_right "/" p +:+ "/" +:+ t)
    = (trim_right "/" p +:+ "/" +:+ t, false)).
  { intros t. apply ResolveKey_qualified. unfold qualified.
    rewrite <-str_app_assoc, has_prefix_app. by rewrite !orb_true_r. }
  pose proof (ResolveKey_qualified p key) as Hq'. unfold qualified in Hq'.
  unfold ResolveKey in Hr. set (rp := trim_right "/" p) in *. rewrite Hr. clear Hr r.
  destruct (empty rp || empty key) eqn:E1; [split; [by apply Hq'|done]|].
  destruct (bool_decide (key = rp) || has_prefix key (rp +:+ "/")) eqn:E2.
  { split; [|done]. apply Hq'. by rewrite <-(orb_assoc false), E2. }
  destruct (index key (rp +:+ "/")) as [[|i]|] eqn:Ei; cbn [fst snd].
  - apply index_has_prefix in Ei. simpl in Ei. apply orb_false_iff in E2 as [_ E2]. congruence.
  - pose proof (index_has_prefix _ _ _ Ei) as Hp.
    split; [|intros _; split; [done|]].
    + apply has_prefix_spec in Hp as [t ->]. rewrite str_app_assoc. apply Hq.
    + exists (str_take (S i) key). rewrite str_take_drop. split; [|done].
      destruct key; [by destruct (empty rp)|done].
  - destruct (has_prefix key "/") eqn:Es; cbn [fst snd]; [|by split; [apply Hq|]].
    split; [|done]. apply Hq'. rewrite (bool_decide_eq_true_2 (None = None)) by done.
    by rewrite orb_true_r.
Qed.

Lemma resolve_key_stable_witness :
  ResolveKey "/app/prod/" "C:/msys/app/prod/DB" = ("/app/prod/DB", true) ∧
  ∃ prefix, prefix ≠ "" ∧ "C:/msys/app/prod/DB" = prefix +:+ "/app/prod/DB".
Proof.
  split; [reflexivity|].
  exact (proj2 (proj2 (resolve_key_stable "/app/prod/" "C:/msys/app/prod/DB") eq_refl)).
Defined.

(** ** The path scan *)

(** The longest suffix of [l] whose elements are all path segments. *)
Fixpoint trailing_segments (l : list string) : list string :=
  match l with
  | [] => []
  | x :: l' => if forallb isSSMPathSegment (x :: l') then x :: l' else trailing_segments l'
  end.

Lemma trailing_snoc_valid l x :
  isSSMPathSegment x = true → trailing_segments (l ++ [x]) = trailing_segments l ++ [x].
Proof.
  intros Hx. induction l as [|y l IH]; cbn [app trailing_segments forallb]; [by rewrite Hx|].
  rewrite forallb_app. simpl. rewrite Hx, !andb_true_r. fold (forallb isSSMPathSegment).
  by destruct (isSSMPathSegment y && forallb isSSMPathSegment l).
Qed.
Lemma trailing_snoc_invalid l x :
  isSSMPathSegment x = false → trailing_segments (l ++ [x]) = [].
Proof.
  intros Hx. induction l as [|y l IH]; cbn [app trailing_segments forallb]; [by rewrite Hx|].
  rewrite forallb_app. simpl. by rewrite Hx, !andb_false_r.
Qed.
Lemma trailing_suffix l : ∃ pre, l = pre ++ trailing_segments l.
Proof.
  induction l as [|x l [pre IH]]; [by exists []|]. cbn [trailing_segments].
  case_match; [by exists []|]. exists (x :: pre). simpl. by f_equal.
Qed.
Lemma trailing_valid l : Forall (λ x, isSSMPathSegment x = true) (trailing_segments l).
Proof.
  induction l as [|x l IH]; cbn [trailing_segments]; [done|]. case_match eqn:E; [|done].
  apply Forall_forall. intros y Hy%list_elem_of_In. by eapply forallb_forall in E.
Qed.

(** Where the scan stands when the segments [pre] are still to be looked at. *)
Definition scan_pos (pre : list string) : Z :=
  match pre with [] => (-1)%Z | _ => Z.of_nat (String.length (join "/" pre)) end.

Lemma join_last pre x rest :
  has_byte "/" x = false →
  let norm := join "/" (pre ++ [x]) +:+ rest in
  let head := str_take (Z.to_nat (scan_pos (pre ++ [x]))) norm in
  (match last_index_byte head "/" with Some i => Z.of_nat i | None => (-1)%Z end) = scan_pos pre ∧
  str_drop (if (scan_pos pre =? -1)%Z then 0 else Z.to_nat (scan_pos pre + 1)) head = x.
Proof.
  intros Hx norm head.
  assert (Hhead : head = join "/" (pre ++ [x])).
  { subst head norm. unfold scan_pos. destruct (pre ++ [x]) eqn:E; [by destruct pre|].
    rewrite Nat2Z.id. apply str_take_app. }
  rewrite Hhead. clear Hhead. subst head norm. destruct pre as [|y pre].
  - simpl. by rewrite has_byte_false_lt.
  - rewrite join_snoc by done. unfold scan_pos.
    change ("/" +:+ x) with (String "/" x). rewrite last_index_byte_app by done.
    split; [done|]. rewrite (proj2 (Z.eqb_neq _ _)) by lia.
    replace (Z.to_nat (Z.of_nat (String.length (join "/" (y :: pre))) + 1))
      with (String.length (join "/" (y :: pre) +:+ "/")) by (rewrite str_length_app; simpl; lia).
    change (String "/" x) with ("/" +:+ x). rewrite <-str_app_assoc. apply str_drop_app.
Qed.

Lemma scan_pos_snoc pre x : scan_pos (pre ++ [x]) = Z.of_nat (String.length (join "/" (pre ++ [x]))).
Proof. by destruct pre. Qed.

Lemma path_scan_spec fuel pre rest m :
  length pre < fuel → (∀ c, c ∈ pre → has_byte "/" c = false) →
  ∃ pre1, pre = pre1 ++ trailing_segments pre ∧
    (pre1 = [] → (scan_pos pre1 < 0)%Z) ∧
    path_scan fuel (join "/" pre +:+ rest) (scan_pos pre) m =
      (scan_pos pre1, m + length (trailing_segments pre)).
Proof.
  revert pre rest m. induction fuel as [|fuel IH]; intros pre rest m Hf Hs; [lia|].
  induction pre as [|x pre _] using rev_ind.
  { exists []. simpl. by rewrite Nat.add_0_r. }
  cbn [path_scan].
  assert (Hx : has_byte "/" x = false) by (apply Hs; set_solver).
  destruct (join_last pre x rest Hx) as [Hidx Hseg].
  destruct (Z.leb_spec (scan_pos (pre ++ [x])) 0) as [H0|H0].
  { assert (isSSMPathSegment x = false) as Hinv.
    { rewrite scan_pos_snoc in H0. destruct pre as [|y pre]; [by destruct x|].
      rewrite join_snoc, !str_length_app in H0 by done. simpl in H0. lia. }
    exists (pre ++ [x]). rewrite trailing_snoc_invalid by done.
    rewrite app_nil_r. split_and!; [done|by destruct pre|simpl; by rewrite Nat.add_0_r]. }
  rewrite Hidx, Hseg. destruct (isSSMPathSegment x) eqn:Hv; cbn [negb].
  - rewrite trailing_snoc_valid by done.
    rewrite length_app in Hf. simpl in Hf.
    destruct pre as [|y pre].
    { exists []. split_and!; [done|done|]. simpl. destruct fuel; [lia|]. simpl. f_equal. lia. }
    rewrite join_snoc, !str_app_assoc by done.
    destruct (IH (y :: pre) ("/" +:+ x +:+ rest) (S m)) as (pre1 & Hp & Hn & ->); [simpl in *; lia|set_solver|].
    exists pre1. split_and!; [by rewrite Hp at 1; rewrite app_assoc|done|].
    rewrite length_app. simpl. f_equal. lia.
  - exists (pre ++ [x]). rewrite trailing_snoc_invalid by done.
    rewrite app_nil_r. split_and!; [done|by destruct pre|simpl; by rewrite Nat.add_0_r].
Qed.

Lemma split_byte_length b s : length (split_byte b s) ≤ S (String.length s).
Proof.
  induction s as [|d s IH]; simpl; [lia|]. case_match; simpl; [lia|].
  destruct (split_byte b s); simpl in *; lia.
Qed.

Lemma segment_no_trim x t : isSSMPathSegment x = true → trim_left "/" (x +:+ t) = x +:+ t.
Proof.
  destruct x as [|c x]; [done|]. simpl. intros [Hc _]%andb_true_iff.
  rewrite str_cons_app. simpl. rewrite has_byte_cons, orb_false_r.
  destruct (Ascii.eqb_spec c "/") as [->|]; done.
Qed.

(** The backward scan of [ResolvePath] computes its specification: a value
without a drive letter is returned unchanged; a drive-lettered one is always
reported, and when its longest run of trailing path segments has at least two
segments, the result is the absolute path made of exactly that run. *)
Theorem resolve_path_spec a r :
  let raw := String a (String ":" r) in
  a ≠ "/"%char →
  let segs := trailing_segments (split_byte "/" (backslash_to_slash raw)) in
  ResolvePath raw =
    (if 2 <=? length segs then "/" +:+ join "/" segs else raw, true).
Proof.
  intros raw Ha segs. unfold ResolvePath.
  assert (empty raw || has_prefix raw "/" = false) as -> .
  { unfold raw. cbn [has_prefix]. by rewrite (proj2 (ascii_eqb_false "/" a)) by congruence. }
  unfold raw at 1. cbn iota beta. rewrite ascii_eqb_refl. cbn [negb].
  set (norm := backslash_to_slash raw) in *.
  set (l := split_byte "/" norm) in *.
  assert (Hn : norm = join "/" l) by (symmetry; apply join_split).
  destruct (path_scan_spec (S (S (String.length norm))) l "" 0) as (pre & Hl & Hpos & Hscan).
  { pose proof (split_byte_length "/" norm). subst l. lia. }
  { intros c Hc. by eapply split_byte_no_sep. }
  fold segs in Hl, Hscan. rewrite str_app_nil_r, <-Hn in Hscan.
  assert (Hstart : scan_pos l = Z.of_nat (String.length norm)).
  { rewrite Hn. unfold scan_pos. destruct l eqn:E; [by apply split_byte_ne in E|done]. }
  rewrite <-Hstart, Hscan. cbn [Nat.add]. case_match eqn:Hm; [|done]. apply Nat.leb_le in Hm.
  f_equal. f_equal. destruct segs as [|x xs] eqn:Hsegs; [simpl in Hm; lia|].
  assert (Hx : isSSMPathSegment x = true).
  { pose proof (trailing_valid l) as Hv. fold segs in Hv. rewrite Hsegs in Hv. by inversion Hv. }
  assert (Htrim : ∀ ys, trim_left "/" (join "/" (x :: ys)) = join "/" (x :: ys)).
  { intros ys. destruct ys as [|y ys]; [|rewrite join_cons by done; by apply segment_no_trim].
    simpl. rewrite <-(str_app_nil_r x). by apply segment_no_trim. }
  destruct pre as [|y pre].
  - change (trim_left "/" norm = join "/" (x :: xs)). rewrite Hn, Hl. apply Htrim.
  - rewrite (proj2 (Z.eqb_neq _ _)) by (simpl; lia). unfold scan_pos. rewrite Nat2Z.id.
    rewrite Hn, Hl, join_app by done. rewrite str_drop_app.
    rewrite <-Htrim at 2. done.
Qed.

Lemma resolve_path_spec_witness :
  ResolvePath "C:/Program Files/Git/myapp/prod" =
    (if 2 <=? length (trailing_segments (split_byte "/" (backslash_to_slash "C:/Program Files/Git/myapp/prod")))
     then "/" +:+ join "/" (trailing_segments (split_byte "/" (backslash_to_slash "C:/Program Files/Git/myapp/prod")))
     else "C:/Program Files/Git/myapp/prod", true).
Proof. apply (resolve_path_spec "C" "/Program Files/Git/myapp/prod"). discriminate. Defined.

(** * Resolution: properties *)

(** Resolution looks at the selected environment only: when two
configurations agree outside their environment maps and on the environment that
is selected, an incomplete or missing sibling environment changes neither
whether [Resolve] succeeds nor what it returns. *)
Theorem resolve_selected_only getenv cfg envs opts r :
  firstNonEmpty [opt_Env opts; getenv "SKRET_ENV"; cfg_DefaultEnv cfg] ≠ "" →
  let n := select_env getenv cfg opts in
  let cfg' := {| cfg_Version := cfg_Version cfg; cfg_DefaultEnv := cfg_DefaultEnv cfg;
    cfg_Project := cfg_Project cfg; cfg_Environments := envs; cfg_Required := cfg_Required cfg;
    cfg_Exclude := cfg_Exclude cfg; cfg_Sync := cfg_Sync cfg; cfg_Notify := cfg_Notify cfg;
    cfg_MCP := cfg_MCP cfg |} in
  envs !! n = cfg_Environments cfg !! n →
  Resolve getenv cfg opts = Ok r ↔ Resolve getenv cfg' opts = Ok r.
Proof.
  intros Hne n cfg' Hsame.
  assert (Hn : select_env getenv cfg' opts = n).
  { subst n. unfold select_env. cbn [cfg_DefaultEnv cfg'].
    unfold empty. by rewrite bool_decide_eq_false_2. }
  unfold Resolve. rewrite Hn. fold n. cbn [cfg_Environments cfg_Required cfg_Exclude cfg_Notify cfg'].
  destruct (empty n); [done|]. rewrite Hsame. by destruct (cfg_Environments cfg !! n).
Qed.

Definition aws_env (path : string) : Environment :=
  mkEnvironment "aws" path "" "" "" "" "" false "" "" "" "" "" "".
Definition example_config : Config :=
  mkConfig "1" "prod" "" {[ "prod" := aws_env "myapp/prod" ]} [] [] None None None.
Definition no_opts : ResolveOpts := mkResolveOpts "" "" "" "" "" "".

Lemma resolve_selected_only_witness :
  ∃ r, Resolve (λ _, "") example_config no_opts = Ok r ∧ rc_Path r = "/myapp/prod" ∧
  Resolve (λ _, "") (mkConfig "1" "prod" "" {[ "prod" := aws_env "myapp/prod"; "dev" := aws_env "" ]}
    [] [] None None None) no_opts = Ok r.
Proof.
  eexists. split; [vm_compute; reflexivity|]. split; [reflexivity|].
  apply (resolve_selected_only (λ _, "") example_config
    {[ "prod" := aws_env "myapp/prod"; "dev" := aws_env "" ]} no_opts).
  - refute_decide.
  - vm_compute. reflexivity.
  - vm_compute. reflexivity.
Defined.

(** a validated configuration with a default environment always has the
environment it is resolved to, unless a flag or the environment names another
one: the only way [Resolve] can then fail is a requirement of that environment's
own provider. *)
Theorem validate_then_resolve `{UrlParse} getenv cfg opts :
  Validate cfg = None → cfg_DefaultEnv cfg ≠ "" → opt_Env opts = "" → getenv "SKRET_ENV" = "" →
  ∃ env, cfg_Environments cfg !! cfg_DefaultEnv cfg = Some env ∧
    (is_ok (Resolve getenv cfg opts) = true ↔ Environment_validate env (cfg_DefaultEnv cfg) = None) ∧
    (∀ e, Resolve getenv cfg opts = Err e → Environment_validate env (cfg_DefaultEnv cfg) = Some e).
Proof.
  intros Hv Hd Ho Hg. unfold Validate in Hv. inv_ok.
  match goal with H : _ && _ = false |- _ => rename H into Hfound end.
  unfold empty in Hfound. rewrite (bool_decide_eq_false_2 (cfg_DefaultEnv cfg = "")) in Hfound by done.
  cbn [negb andb] in Hfound. apply bool_decide_eq_false in Hfound.
  destruct (cfg_Environments cfg !! cfg_DefaultEnv cfg) as [env|] eqn:El; [|done].
  exists env. split; [done|].
  assert (Hs : select_env getenv cfg opts = cfg_DefaultEnv cfg).
  { unfold select_env, empty. rewrite Ho, Hg. simpl.
    rewrite (bool_decide_eq_true_2 (cfg_DefaultEnv cfg ≠ "")) by done.
    by rewrite bool_decide_eq_false_2. }
  unfold Resolve. rewrite Hs, El. unfold empty. rewrite bool_decide_eq_false_2 by done.
  destruct (Environment_validate env _) as [e|]; simpl; [naive_solver|].
  destruct (ResolvePath _). naive_solver.
Qed.

#[local] Instance no_urls : UrlParse := {| url_parse _ := None |}.
Lemma validate_then_resolve_witness :
  ∃ env, cfg_Environments example_config !! "prod" = Some env ∧
    (is_ok (Resolve (λ _, "") example_config no_opts) = true ↔ Environment_validate env "prod" = None) ∧
    (∀ e, Resolve (λ _, "") example_config no_opts = Err e → Environment_validate env "prod" = Some e).
Proof.
  apply (validate_then_resolve (λ _, "") example_config no_opts);
    [vm_compute; reflexivity|discriminate|reflexivity|reflexivity].
Defined.

(** The components [Clean] keeps are non-empty and hold no slash. *)
Lemma clean_steps_keep rooted st l :
  (∀ c, c ∈ st → c ≠ "" ∧ has_byte "/" c = false) → (∀ c, c ∈ l → has_byte "/" c = false) →
  ∀ c, c ∈ foldl (clean_step rooted) st l → c ≠ "" ∧ has_byte "/" c = false.
Proof.
  revert st. induction l as [|x l IH]; intros st Hst Hl; [done|]. apply IH; [|set_solver].
  intros c. unfold clean_step. repeat case_bool_decide; simpl; auto.
  - destruct st as [|y st]; [destruct rooted; set_solver|]. case_bool_decide; set_solver.
  - intros [->|Hc]%elem_of_cons; [|auto]. split; [done|]. apply Hl. set_solver.
Qed.
Lemma clean_components_keep p c : c ∈ clean_components p → c ≠ "" ∧ has_byte "/" c = false.
Proof.
  unfold clean_components. rewrite list_elem_of_In, <-in_rev, <-list_elem_of_In.
  apply clean_steps_keep; [set_solver|]. intros d. apply split_byte_no_sep.
Qed.
Lemma IsAbs_app s t : IsAbs s = true → IsAbs (s +:+ t) = true.
Proof.
  unfold IsAbs. rewrite !has_prefix_spec. intros [u ->]. exists (u +:+ t). by rewrite str_app_assoc.
Qed.
Lemma IsAbs_Clean p : IsAbs p = true → IsAbs (Clean p) = true.
Proof. intros H. unfold Clean. by rewrite H. Qed.
Lemma IsAbs_Join a b : IsAbs a = true → IsAbs (Join a b) = true.
Proof.
  intros Ha. unfold Join. destruct (decide (a = "")) as [->|]; [done|].
  destruct (decide (b = "")); apply IsAbs_Clean; [done|]. by apply IsAbs_app.
Qed.
Lemma anchorPath_abs p dir :
  IsAbs dir = true → empty (anchorPath p dir) || IsAbs (anchorPath p dir) = true.
Proof.
  intros Hd. unfold anchorPath. case_match eqn:E; [done|]. by rewrite IsAbs_Join, orb_true_r.
Qed.

Lemma anchorPath_idem p dir dir' :
  IsAbs dir = true → anchorPath (anchorPath p dir) dir' = anchorPath p dir.
Proof. intros Hd. unfold anchorPath at 1. by rewrite anchorPath_abs. Qed.
Lemma anchor_env_idem e dir dir' :
  IsAbs dir = true → anchor_env dir' (anchor_env dir e) = anchor_env dir e.
Proof.
  intros Hd. unfold anchor_env. cbn [env_Provider env_Path env_Region env_Profile env_KMSKeyID
    env_File env_Project env_Encrypted env_AuditLog env_CompartmentID env_VaultID env_KeyID
    env_VaultURL env_VaultName]. by rewrite !anchorPath_idem.
Qed.

(** Anchoring at an absolute directory leaves every [file] and [audit_log]
path empty or absolute, keeps the absolute ones, and so is idempotent: anchoring
again, at any directory, changes nothing. *)
Theorem anchor_idempotent c dir dir' :
  IsAbs dir = true →
  AnchorToDir (AnchorToDir c dir) dir' = AnchorToDir c dir ∧
  ∀ n e, cfg_Environments c !! n = Some e →
    ∃ e', cfg_Environments (AnchorToDir c dir) !! n = Some e' ∧
      (empty (env_File e') || IsAbs (env_File e') = true) ∧
      (empty (env_AuditLog e') || IsAbs (env_AuditLog e') = true) ∧
      (IsAbs (env_File e) = true → env_File e' = env_File e).
Proof.
  intros Hd. split.
  - unfold AnchorToDir. cbn [cfg_Environments cfg_Version cfg_DefaultEnv cfg_Project cfg_Required
      cfg_Exclude cfg_Sync cfg_Notify cfg_MCP]. f_equal. rewrite <-map_fmap_compose.
    apply map_fmap_ext. intros n e _. by apply anchor_env_idem.
  - intros n e Hn. exists (anchor_env dir e).
    cbn [cfg_Environments AnchorToDir env_File env_AuditLog anchor_env].
    rewrite lookup_fmap, Hn. split; [done|].
    split; [by apply anchorPath_abs|]. split; [by apply anchorPath_abs|].
    intros Ha. unfold anchorPath. by rewrite Ha, orb_true_r.
Qed.

Lemma anchor_idempotent_witness :
  AnchorToDir (AnchorToDir example_config "/srv/app") "/tmp" = AnchorToDir example_config "/srv/app".
Proof. exact (proj1 (anchor_idempotent example_config "/srv/app" "/tmp" eq_refl)). Defined.

Lemma ResolvePath_nonempty raw : raw ≠ "" → (ResolvePath raw).1 ≠ "".
Proof.
  intros Hr. unfold ResolvePath. repeat (case_match; try done).
Qed.
Lemma firstNonEmpty_ne l : firstNonEmpty l ≠ "" ↔ ∃ v, v ∈ l ∧ v ≠ "".
Proof.
  induction l as [|v l IH]; simpl; [set_solver|].
  case_bool_decide; [set_solver|]. rewrite IH. set_solver.
Qed.
Lemma firstNonEmpty_cons v l : v ≠ "" → firstNonEmpty (v :: l) = v.
Proof. intros. simpl. by rewrite bool_decide_eq_true_2. Qed.
Lemma firstNonEmpty_skip l : firstNonEmpty ("" :: l) = firstNonEmpty l.
Proof. done. Qed.
Lemma firstNonEmpty_again x y z :
  firstNonEmpty [x; y; firstNonEmpty [x; y; z]] = firstNonEmpty [x; y; z].
Proof. by destruct x, y, z. Qed.

(** with [--path] and no .skret.yaml the in-memory configuration is valid and
resolves, for the aws provider, to the environment it declares, with the path
that was given (recovered when shell-mangled, with its leading slash). *)
Theorem ephemeral_resolves `{UrlParse} getenv opts :
  opt_Path opts ≠ "" → firstNonEmpty [opt_Provider opts; getenv "SKRET_PROVIDER"; "aws"] = "aws" →
  let cfg := EphemeralConfig getenv opts in
  Validate cfg = None ∧
  ∃ r, Resolve getenv cfg opts = Ok r ∧ rc_EnvName r = cfg_DefaultEnv cfg ∧
    rc_Provider r = "aws" ∧ rc_Path r = NormalizeSSMPath (ResolvePath (opt_Path opts)).1 ∧
    rc_PathMangled r = (ResolvePath (opt_Path opts)).2.
Proof.
  intros Hp Hprov cfg. set (env := cfg_DefaultEnv cfg).
  assert (Hne : env ≠ "").
  { apply firstNonEmpty_ne. exists "prod". set_solver. }
  assert (Hl : ∃ e, cfg_Environments cfg !! env = Some e ∧ env_Provider e = "aws" ∧
    env_Path e = opt_Path opts).
  { eexists. unfold cfg, EphemeralConfig at 1. cbn [cfg_Environments]. split.
    - unfold env, cfg. cbn [cfg_DefaultEnv EphemeralConfig]. apply lookup_singleton_eq.
    - split; [exact Hprov|done]. }
  destruct Hl as (e & Hl & He1 & He2). split.
  - unfold Validate. cbn [cfg_Version cfg_Sync cfg_Notify cfg_MCP cfg EphemeralConfig].
    fold cfg. fold env. rewrite Hl.
    rewrite (bool_decide_eq_false_2 (cfg_Environments cfg = ∅)).
    2:{ intros Hem. rewrite Hem in Hl. by rewrite lookup_empty in Hl. }
    rewrite (bool_decide_eq_false_2 (Some e = None)) by done. by rewrite andb_false_r.
  - assert (Hs : select_env getenv cfg opts = env).
    { pose proof (firstNonEmpty_again (opt_Env opts) (getenv "SKRET_ENV") "prod") as Ha.
      change (firstNonEmpty [opt_Env opts; getenv "SKRET_ENV"; "prod"]) with env in Ha.
      unfold select_env. change (cfg_DefaultEnv cfg) with env. rewrite Ha.
      unfold empty. by rewrite bool_decide_eq_false_2. }
    unfold Resolve. rewrite Hs, Hl. unfold empty at 1. rewrite bool_decide_eq_false_2 by done.
    assert (Environment_validate e env = None) as ->.
    { unfold Environment_validate. rewrite He1, He2. unfold empty.
      rewrite (bool_decide_eq_false_2 (opt_Path opts = "")) by done. done. }
    pose proof (ResolvePath_nonempty _ Hp) as Hne'.
    destruct (ResolvePath (opt_Path opts)) as [fp m]. cbn [err_guard fst snd] in *.
    eexists. split; [done|]. cbn [rc_EnvName rc_Provider rc_Path rc_PathMangled].
    split; [done|]. split.
    { rewrite He1. exact Hprov. }
    rewrite (firstNonEmpty_cons fp) by done. split; reflexivity.
Qed.

Lemma ephemeral_resolves_witness :
  let opts := mkResolveOpts "" "" "myapp/prod" "" "" "" in
  Validate (EphemeralConfig (λ _, "") opts) = None ∧
  ∃ r, Resolve (λ _, "") (EphemeralConfig (λ _, "") opts) opts = Ok r ∧ rc_EnvName r = "prod" ∧
    rc_Provider r = "aws" ∧ rc_Path r = "/myapp/prod" ∧ rc_PathMangled r = false.
Proof.
  apply (ephemeral_resolves (λ _, "") (mkResolveOpts "" "" "myapp/prod" "" "" "")); [discriminate|reflexivity].
Defined.

(** * Discovery: properties *)

Section discover.
Context (exists_ : string → bool).

(** Where the walk from the directory with components [l] should stop: [seen] is
how many of the nearest ancestors are neither configured nor a git root. *)
Definition config_at (l : list string) : bool := exists_ (Join (abs_path l) ConfigFileName).
Definition git_root (l : list string) : bool := exists_ (Join (abs_path l) ".git").

Lemma discover_loop_step fuel l c :
  Forall (λ c, good_component c = true) (l ++ [c]) →
  discover_loop (S fuel) exists_ (abs_path (l ++ [c])) =
  if config_at (l ++ [c]) then Some (Join (abs_path (l ++ [c])) ConfigFileName)
  else if git_root (l ++ [c]) then None else discover_loop fuel exists_ (abs_path l).
Proof.
  intros Hl. cbn [discover_loop]. fold (config_at (l ++ [c])) (git_root (l ++ [c])).
  rewrite Dir_abs_snoc by done. rewrite decide_False; [done|].
  unfold abs_path. intros E. apply (f_equal String.length) in E.
  rewrite !str_length_app in E. apply Nat.add_cancel_l in E.
  apply Forall_app in Hl as [_ Hc]. rewrite Forall_singleton in Hc.
  unfold good_component in Hc. split_bools. destruct l as [|d l].
  - destruct c; [done|]. simpl in E. lia.
  - rewrite join_snoc in E by done. rewrite !str_length_app in E. simpl in E. lia.
Qed.

Lemma abs_path_fuel l :
  Forall (λ c, good_component c = true) l → length l < String.length (abs_path l).
Proof.
  intros Hl. unfold abs_path. rewrite str_length_app. simpl.
  induction Hl as [|c l Hc Hl IH]; simpl; [lia|].
  unfold good_component in Hc. split_bools. destruct c as [|a c]; [done|].
  destruct l as [|d l]; [simpl; lia|].
  rewrite !str_length_app. simpl in *. lia.
Qed.

(** The answer the walk owes: the nearest configuration file, with neither a
configuration nor a git root strictly below it. *)
Definition nearest_config (l : list string) (p : string) : Prop :=
  ∃ n, n ≤ length l ∧ config_at (take n l) = true ∧ p = Join (abs_path (take n l)) ConfigFileName ∧
    ∀ m, n < m ≤ length l → config_at (take m l) = false ∧ git_root (take m l) = false.

Lemma nearest_config_snoc l c p :
  nearest_config (l ++ [c]) p ↔
  (config_at (l ++ [c]) = true ∧ p = Join (abs_path (l ++ [c])) ConfigFileName) ∨
  (config_at (l ++ [c]) = false ∧ git_root (l ++ [c]) = false ∧ nearest_config l p).
Proof.
  assert (Htop : take (S (length l)) (l ++ [c]) = l ++ [c]).
  { apply take_ge. rewrite length_app. simpl. lia. }
  unfold nearest_config. rewrite length_app. cbn [length]. rewrite Nat.add_1_r. split.
  - intros (n & Hn & Hc & Hp & Hbelow). destruct (decide (n = S (length l))) as [->|Hne].
    + rewrite Htop in *. by left.
    + right. destruct (Hbelow (S (length l))) as [H1 H2]; [lia|]. rewrite Htop in H1, H2.
      split; [done|]. split; [done|]. exists n. rewrite take_app_le in Hc, Hp by lia.
      split; [lia|]. split; [done|]. split; [done|]. intros m Hm.
      destruct (Hbelow m) as [H3 H4]; [lia|]. rewrite take_app_le in H3, H4 by lia. done.
  - intros [[Hc Hp]|(Hc & Hg & n & Hn & Hc' & Hp & Hbelow)].
    + exists (S (length l)). rewrite Htop. split; [lia|]. split; [done|]. split; [done|].
      intros m Hm. lia.
    + exists n. rewrite take_app_le by lia. split; [lia|]. split; [done|]. split; [done|].
      intros m Hm. destruct (decide (m = S (length l))) as [->|]; [by rewrite Htop|].
      rewrite take_app_le by lia. apply Hbelow. lia.
Qed.

Lemma discover_loop_spec fuel l p :
  Forall (λ c, good_component c = true) l → length l < fuel →
  discover_loop fuel exists_ (abs_path l) = Some p ↔ nearest_config l p.
Proof.
  revert fuel. induction l as [|c l IH] using rev_ind; intros fuel Hl Hf.
  - destruct fuel as [|fuel]; [simpl in Hf; lia|].
    cbn [discover_loop]. fold (config_at []) (git_root []).
    rewrite Dir_root, decide_True by done. unfold nearest_config. split.
    + intros H. exists 0. destruct (config_at []) eqn:E; [|by destruct (git_root [])].
      injection H as <-. repeat split; try done; simpl in *; lia.
    + intros ([|n] & Hn & Hc & -> & _); [|simpl in Hn; lia]. change (take 0 []) with (@nil string) in *.
      by rewrite Hc.
  - destruct fuel as [|fuel]; [lia|]. rewrite length_app in Hf. simpl in Hf.
    rewrite discover_loop_step, nearest_config_snoc by done.
    pose proof Hl as [Hl' _]%Forall_app. rewrite <-(IH fuel) by (done || lia).
    destruct (config_at (l ++ [c])); [naive_solver|].
    destruct (git_root (l ++ [c])); naive_solver.
Qed.
End discover.

(** from a canonical absolute directory the search terminates with the
configuration file of the nearest ancestor that has one, and never looks above
a git root (a directory holding [.git] without a configuration file ends it). *)
Theorem discover_nearest (exists_ : string → bool) (l : list string) (p : string) :
  Forall (λ c, good_component c = true) l →
  Discover exists_ (abs_path l) = Some p ↔ nearest_config exists_ l p.
Proof.
  intros Hl. apply discover_loop_spec; [done|]. pose proof (abs_path_fuel l Hl). lia.
Qed.

Lemma discover_nearest_witness :
  Discover (λ f, bool_decide (f = "/srv/.skret.yaml")) "/srv/app" = Some "/srv/.skret.yaml".
Proof.
  refine (proj2 (discover_nearest _ ["srv"; "app"] "/srv/.skret.yaml" ltac:(by_decide)) _).
  exists 1. split; [by_decide|]. split; [by_decide|]. split; [by_decide|].
  intros m Hm. assert (m = 2) as -> by (simpl in Hm; lia). split; by_decide.
Defined.
