(* ===== verification/OpMetadata.v ===== *)
(** The metadata of one target operation (src/internal/syncer/state.go):
[OperationMetadata], its validation before an operation starts
([metadata_validate]) and when it is read back or written
([validatePersisted]), its promotion once the operation is verified.

The string types of the source ([OutcomeStatus], [ReconciliationState], ...) are
strings here too, because any string may be read back from a state file;
generations are uint64 values and are only compared. *)

From S2P Require Import Prelude GoStrings Provider Digest.

(** * Data *)

Definition OutcomeStatus : Type := string.
Definition OutcomePending : OutcomeStatus := "pending".
Definition OutcomeSucceeded : OutcomeStatus := "succeeded".
Definition OutcomeNeedsReconciliation : OutcomeStatus := "needs_reconciliation".

Definition ReconciliationState : Type := string.
Definition ReconciliationStatePending : ReconciliationState := "pending".
Definition ReconciliationStateOwnerRiskRequired : ReconciliationState := "owner_risk_required".
Definition ReconciliationStateApproved : ReconciliationState := "approved".

Definition VerificationState : Type := string.
Definition VerificationStatePending : VerificationState := "pending".
Definition VerificationStatePassed : VerificationState := "passed".
Definition VerificationStateFailed : VerificationState := "failed".

Record OperationMetadata := mkMetadata {
  OldGeneration : Z;
  CurrentGeneration : Z;
  IntendedGeneration : Z;
  LifecycleLabel : string;
  KMSEnvelopeRef : string;
  md_Capability : Capability;
  Deadline : option time;
  Attempts : Z;
  md_ReconciliationState : ReconciliationState;
  CanaryState : VerificationState;
  PostconditionState : VerificationState;
}.

Definition maxOperationAttempts : Z := 3.

(** The errors of the journal; the constructors named [Err...] are the exported
sentinels, the others the unexported messages. *)
Inductive op_err :=
| ErrOperationMismatch (got want : string)
| ErrOperationKeyMismatch
| ErrOperationPhaseMismatch
| ErrOperationEmpty
| ErrOperationCapabilityInvalid
| ErrOperationCapabilityBlocked
| ErrOperationOwnerRiskApprovalRequired
| ErrOperationVerificationRequired
| ErrOperationDeadlineExceeded
| generation_order_invalid
| lifecycle_label_invalid
| kms_reference_invalid
| deadline_before_start
| attempts_out_of_range
| reconciliation_not_empty
| verification_not_pending
| outcome_status_invalid
| verification_state_invalid
| retention_state_invalid
| promoted_not_verified
| pending_with_evidence
| owner_risk_needs_state
| reconciliation_pending_invalid
| owner_risk_not_pending
| owner_risk_approval_invalid
| reconciliation_state_invalid
| operation_id_required
| nil_secret
| operation_key_required
| invalid_operation_method
| source_identity_too_long
| invalid_source_digest
| outcome_error (key : string) (e : op_err)
| unexpected_acknowledgement_hash
| missing_acknowledgement_hash
| invalid_acknowledgement_hash
| orphaned_retained_generation
| success_not_promoted
| invalid_verification_wait
| premature_generation_promotion.

#[export] Instance op_err_eq_dec : EqDecision op_err.
Proof. solve_decision. Defined.

(** * Predicates *)

Definition reference_byte (c : ascii) : bool :=
  is_lower c || is_upper c || is_digit c || (c =c "-") || (c =c "_") || (c =c ".")
  || (c =c ":") || (c =c "/").
Definition validOperationReference (value : string) : bool :=
  if bool_decide (value = "") || (512 <? String.length value) then false
  else str_forall reference_byte value.

(** A SHA-256 digest in lowercase hexadecimal. *)
Definition validAcknowledgedHash (value : string) : bool :=
  is_sha256_hex value.

Definition reconciliationStateFor (capability : Capability) : ReconciliationState :=
  if bool_decide (capability = CapabilityOwnerRiskGate)
  then ReconciliationStateOwnerRiskRequired else ReconciliationStatePending.

Definition referencesRetained (m : OperationMetadata) : bool :=
  (CurrentGeneration m <? IntendedGeneration m)%Z
  && (OldGeneration m <=? CurrentGeneration m)%Z
  && validOperationReference (LifecycleLabel m)
  && validOperationReference (KMSEnvelopeRef m)
  && match Deadline m with Some d => negb (is_zero d) | None => false end.

Definition generationPromoted (m : OperationMetadata) : bool :=
  (0 <? IntendedGeneration m)%Z
  && (CurrentGeneration m =? IntendedGeneration m)%Z
  && (OldGeneration m =? 0)%Z
  && bool_decide (LifecycleLabel m = "")
  && bool_decide (KMSEnvelopeRef m = "")
  && bool_decide (Deadline m = None).

Definition validVerificationStates (m : OperationMetadata) : bool :=
  if decide (CanaryState m = VerificationStatePending)
  then bool_decide (PostconditionState m = VerificationStatePending)
  else if decide (CanaryState m = VerificationStateFailed)
  then bool_decide (PostconditionState m = VerificationStatePending)
  else if decide (CanaryState m = VerificationStatePassed)
  then bool_decide (PostconditionState m = VerificationStatePending)
       || bool_decide (PostconditionState m = VerificationStatePassed)
       || bool_decide (PostconditionState m = VerificationStateFailed)
  else false.

Definition verificationPassed (m : OperationMetadata) : bool :=
  bool_decide (CanaryState m = VerificationStatePassed)
  && bool_decide (PostconditionState m = VerificationStatePassed).
Definition verificationFailed (m : OperationMetadata) : bool :=
  bool_decide (CanaryState m = VerificationStateFailed)
  || bool_decide (PostconditionState m = VerificationStateFailed).

(** * Validation *)

(** [OperationMetadata.validate], for a non-nil receiver. *)
Definition metadata_validate (m : OperationMetadata) (started : time) : option op_err :=
  err_if ((IntendedGeneration m <=? CurrentGeneration m)%Z
          || (CurrentGeneration m <? OldGeneration m)%Z) generation_order_invalid (
  err_if (bool_decide (md_Capability m = "") || negb (capability_Valid (md_Capability m)))
    ErrOperationCapabilityInvalid (
  err_if (negb (validOperationReference (LifecycleLabel m))) lifecycle_label_invalid (
  err_if (negb (validOperationReference (KMSEnvelopeRef m))) kms_reference_invalid (
  err_if (match Deadline m with None => true | Some d => negb (after d started) end)
    deadline_before_start (
  err_if ((Attempts m <? 0)%Z || (maxOperationAttempts <? Attempts m)%Z) attempts_out_of_range (
  err_if (negb (bool_decide (md_ReconciliationState m = ""))) reconciliation_not_empty (
  err_if (negb (bool_decide (CanaryState m = VerificationStatePending))
          || negb (bool_decide (PostconditionState m = VerificationStatePending)))
    verification_not_pending None))))))).

(** The reconciliation state a status and a capability admit. *)
Definition check_reconciliation (m : OperationMetadata) (status : OutcomeStatus) : option op_err :=
  let owner := bool_decide (md_Capability m = CapabilityOwnerRiskGate) in
  let needs := bool_decide (status = OutcomeNeedsReconciliation) in
  if decide (md_ReconciliationState m = "") then err_if (owner && needs) owner_risk_needs_state None
  else if decide (md_ReconciliationState m = ReconciliationStatePending)
  then err_if (owner || negb needs) reconciliation_pending_invalid None
  else if decide (md_ReconciliationState m = ReconciliationStateOwnerRiskRequired)
  then err_if (negb owner || negb needs) owner_risk_not_pending None
  else if decide (md_ReconciliationState m = ReconciliationStateApproved)
  then err_if (negb owner || (negb needs && negb (bool_decide (status = OutcomeSucceeded))))
         owner_risk_approval_invalid None
  else Some reconciliation_state_invalid.

Definition valid_status (status : OutcomeStatus) : bool :=
  bool_decide (status = OutcomePending) || bool_decide (status = OutcomeSucceeded)
  || bool_decide (status = OutcomeNeedsReconciliation).

(** [OperationMetadata.validatePersisted], for a non-nil receiver. *)
Definition validatePersisted (m : OperationMetadata) (status : OutcomeStatus) : option op_err :=
  err_if (negb (valid_status status)) outcome_status_invalid (
  err_if (negb (capability_Valid (md_Capability m))) ErrOperationCapabilityInvalid (
  err_if ((Attempts m <? 0)%Z || (maxOperationAttempts <? Attempts m)%Z) attempts_out_of_range (
  err_if (negb (validVerificationStates m)) verification_state_invalid (
  let retained := referencesRetained m in
  let promoted := generationPromoted m in
  err_if (eqb retained promoted) retention_state_invalid (
  err_seq
    (if promoted then
       err_if (negb (bool_decide (status = OutcomeSucceeded)) || negb (verificationPassed m))
         promoted_not_verified None
     else
       err_if (bool_decide (status = OutcomePending)
               && negb (bool_decide (CanaryState m = VerificationStatePending)))
         pending_with_evidence None)
  (err_seq (check_reconciliation m status)
  (err_if (bool_decide (md_Capability m = CapabilityBlocked)
           && bool_decide (status = OutcomeSucceeded)) ErrOperationCapabilityBlocked None))))))).

(** * Updates *)

Definition set_reconciliation (r : ReconciliationState) (m : OperationMetadata) :=
  {| OldGeneration := OldGeneration m; CurrentGeneration := CurrentGeneration m;
     IntendedGeneration := IntendedGeneration m; LifecycleLabel := LifecycleLabel m;
     KMSEnvelopeRef := KMSEnvelopeRef m; md_Capability := md_Capability m;
     Deadline := Deadline m; Attempts := Attempts m; md_ReconciliationState := r;
     CanaryState := CanaryState m; PostconditionState := PostconditionState m |}.
Definition set_verification (canary post : VerificationState) (m : OperationMetadata) :=
  {| OldGeneration := OldGeneration m; CurrentGeneration := CurrentGeneration m;
     IntendedGeneration := IntendedGeneration m; LifecycleLabel := LifecycleLabel m;
     KMSEnvelopeRef := KMSEnvelopeRef m; md_Capability := md_Capability m;
     Deadline := Deadline m; Attempts := Attempts m;
     md_ReconciliationState := md_ReconciliationState m;
     CanaryState := canary; PostconditionState := post |}.

(** The normalisation [beginOperation] applies to its clone. *)
Definition normalize_metadata (m : OperationMetadata) : OperationMetadata :=
  {| OldGeneration := if (OldGeneration m =? 0)%Z then CurrentGeneration m else OldGeneration m;
     CurrentGeneration := CurrentGeneration m; IntendedGeneration := IntendedGeneration m;
     LifecycleLabel := LifecycleLabel m; KMSEnvelopeRef := KMSEnvelopeRef m;
     md_Capability := md_Capability m; Deadline := Deadline m; Attempts := Attempts m;
     md_ReconciliationState := md_ReconciliationState m;
     CanaryState := if bool_decide (CanaryState m = "") then VerificationStatePending
                    else CanaryState m;
     PostconditionState := if bool_decide (PostconditionState m = "") then VerificationStatePending
                           else PostconditionState m |}.

Definition promoteMetadata (m : OperationMetadata) : OperationMetadata :=
  {| OldGeneration := 0; CurrentGeneration := IntendedGeneration m;
     IntendedGeneration := IntendedGeneration m; LifecycleLabel := ""; KMSEnvelopeRef := "";
     md_Capability := md_Capability m; Deadline := None; Attempts := Attempts m;
     md_ReconciliationState :=
       if bool_decide (md_Capability m = CapabilityOwnerRiskGate) then md_ReconciliationState m
       else "";
     CanaryState := CanaryState m; PostconditionState := PostconditionState m |}.

(** * Lemmas *)

(** Expose the string literals behind the named states. *)
Ltac unfold_states :=
  unfold OutcomePending, OutcomeSucceeded, OutcomeNeedsReconciliation, ReconciliationStatePending,
    ReconciliationStateOwnerRiskRequired, ReconciliationStateApproved, VerificationStatePending,
    VerificationStatePassed, VerificationStateFailed in *.

Section lemmas.
Implicit Types (m : OperationMetadata) (status : OutcomeStatus) (r : ReconciliationState).

Lemma check_reconciliation_pending m :
  check_reconciliation m OutcomePending = None ↔ md_ReconciliationState m = "".
Proof.
  unfold check_reconciliation. destruct (decide (md_ReconciliationState m = "")) as [->|].
  { by rewrite andb_false_r. }
  repeat case_decide; simplify_eq/=;
    destruct (bool_decide (md_Capability m = CapabilityOwnerRiskGate)); naive_solver.
Qed.
Lemma check_reconciliation_succeeded m :
  check_reconciliation m OutcomeSucceeded = None ↔
  md_ReconciliationState m = "" ∨
  (md_Capability m = CapabilityOwnerRiskGate ∧
   md_ReconciliationState m = ReconciliationStateApproved).
Proof.
  unfold check_reconciliation.
  destruct (decide (md_Capability m = CapabilityOwnerRiskGate)) as [Hc|Hc];
    [rewrite (bool_decide_eq_true_2 _ Hc)|rewrite (bool_decide_eq_false_2 _ Hc)];
    generalize (md_ReconciliationState m); intros r; unfold_states;
    repeat case_decide; simplify_eq/=; naive_solver.
Qed.
Lemma check_reconciliation_needs m :
  check_reconciliation m OutcomeNeedsReconciliation = None ↔
  if decide (md_Capability m = CapabilityOwnerRiskGate)
  then md_ReconciliationState m = ReconciliationStateOwnerRiskRequired
       ∨ md_ReconciliationState m = ReconciliationStateApproved
  else md_ReconciliationState m = "" ∨ md_ReconciliationState m = ReconciliationStatePending.
Proof.
  unfold check_reconciliation.
  destruct (decide (md_Capability m = CapabilityOwnerRiskGate)) as [Hc|Hc];
    [rewrite (bool_decide_eq_true_2 _ Hc)|rewrite (bool_decide_eq_false_2 _ Hc)];
    generalize (md_ReconciliationState m); intros r; unfold_states;
    repeat case_decide; simplify_eq/=; naive_solver.
Qed.

(** What a successful [validatePersisted] established. *)
Record persisted_ok m status : Prop := {
  po_status : valid_status status = true;
  po_capability : capability_Valid (md_Capability m) = true;
  po_attempts : (0 ≤ Attempts m ≤ maxOperationAttempts)%Z;
  po_verification : validVerificationStates m = true;
  po_retention : referencesRetained m = negb (generationPromoted m);
  po_promoted : generationPromoted m = true →
    status = OutcomeSucceeded ∧ verificationPassed m = true;
  po_pending : generationPromoted m = false → status = OutcomePending →
    CanaryState m = VerificationStatePending;
  po_reconciliation : check_reconciliation m status = None;
  po_blocked : status = OutcomeSucceeded → md_Capability m ≠ CapabilityBlocked;
}.

Lemma validatePersisted_None m status :
  validatePersisted m status = None ↔ persisted_ok m status.
Proof.
  unfold validatePersisted. rewrite !err_if_None, !err_seq_None, !err_if_None.
  rewrite !negb_false_iff, orb_false_iff, Z.ltb_ge, Z.ltb_ge. split.
  - intros (H1 & H2 & [H3 H3'] & H4 & H5 & H6 & H7 & H8 & _).
    assert (Hr : referencesRetained m = negb (generationPromoted m))
      by (destruct (referencesRetained m), (generationPromoted m); naive_solver).
    split; try done.
    + intros Hp. rewrite Hp in H6. apply err_if_None in H6 as [H6 _]. by split_bools.
    + intros Hp Hs. rewrite Hp in H6. apply err_if_None in H6 as [H6 _].
      apply andb_false_iff in H6 as [H6|H6]; split_bools; done.
    + intros Hs Hb. rewrite (bool_decide_eq_true_2 _ Hs), (bool_decide_eq_true_2 _ Hb) in H8.
      done.
  - intros []. repeat (split; [done|]). split.
    { rewrite po_retention0. by destruct (generationPromoted m). }
    split.
    { destruct (generationPromoted m).
      - destruct po_promoted0 as [Hs Hv]; [done|]. rewrite Hv, (bool_decide_eq_true_2 _ Hs). done.
      - apply err_if_None. split; [|done]. apply andb_false_iff.
        destruct (decide (status = OutcomePending)) as [Hs|Hs].
        + right. rewrite bool_decide_eq_true_2 by auto. done.
        + left. by rewrite bool_decide_eq_false_2. }
    split; [done|]. split; [|done]. apply andb_false_iff.
    destruct (decide (status = OutcomeSucceeded)) as [Hs|Hs].
    + left. rewrite bool_decide_eq_false_2 by auto. done.
    + right. by rewrite bool_decide_eq_false_2.
Qed.

Lemma promoted_not_retained m : generationPromoted m = true → referencesRetained m = false.
Proof.
  unfold generationPromoted, referencesRetained. intros. split_bools.
  destruct (Z.ltb_spec (CurrentGeneration m) (IntendedGeneration m)); [lia|done].
Qed.

Lemma set_reconciliation_same r m :
  referencesRetained (set_reconciliation r m) = referencesRetained m ∧
  generationPromoted (set_reconciliation r m) = generationPromoted m ∧
  verificationPassed (set_reconciliation r m) = verificationPassed m ∧
  verificationFailed (set_reconciliation r m) = verificationFailed m.
Proof. done. Qed.
Lemma set_verification_same c p m :
  referencesRetained (set_verification c p m) = referencesRetained m ∧
  generationPromoted (set_verification c p m) = generationPromoted m.
Proof. done. Qed.

(** Metadata that [beginOperation] accepts is valid for a pending outcome. *)
Lemma metadata_validate_persisted m started :
  (0 ≤ started)%Z → metadata_validate m started = None →
  persisted_ok m OutcomePending ∧ generationPromoted m = false.
Proof.
  intros Hst Hv. unfold metadata_validate in Hv. inv_ok. split_bools.
  destruct (Deadline m) as [d|] eqn:Hd; [|done]. unfold after in *. split_bools.
  assert (Hp : generationPromoted m = false).
  { unfold generationPromoted. destruct (Z.eqb_spec (CurrentGeneration m) (IntendedGeneration m));
      [lia|by rewrite andb_false_r]. }
  assert (Hr : referencesRetained m = true).
  { unfold referencesRetained. rewrite Hd.
    repeat (apply andb_true_iff; split); try done; [by apply Z.ltb_lt|by apply Z.leb_le|].
    unfold is_zero. apply negb_true_iff, Z.eqb_neq. lia. }
  split; [|done]. split; try done.
  - unfold validVerificationStates. by rewrite decide_True, bool_decide_eq_true_2 by done.
  - by rewrite Hr, Hp.
  - by rewrite Hp.
  - by apply check_reconciliation_pending.
Qed.

(** Moving a live outcome to [needs_reconciliation]. *)
Lemma persisted_needs m status :
  persisted_ok m status → generationPromoted m = false →
  persisted_ok (set_reconciliation (reconciliationStateFor (md_Capability m)) m)
    OutcomeNeedsReconciliation.
Proof.
  intros [] Hp. split; try done.
  - intros Hp'. discriminate (eq_trans (eq_sym Hp') Hp).
  - apply check_reconciliation_needs. cbn. unfold reconciliationStateFor.
    case_decide as Hc; [rewrite bool_decide_eq_true_2 by done|rewrite bool_decide_eq_false_2 by done]; auto.
Qed.

(** Recording a verification on an acknowledged outcome. *)
Lemma persisted_verified m status c p :
  persisted_ok m status → generationPromoted m = false → status ≠ OutcomePending →
  validVerificationStates (set_verification c p m) = true →
  persisted_ok (set_verification c p m) status.
Proof.
  intros [] Hp Hs Hv. split; try done.
  intros Hp'. discriminate (eq_trans (eq_sym Hp') Hp).
Qed.

(** Promotion of a verified, successful outcome. *)
Lemma persisted_promote m :
  persisted_ok m OutcomeSucceeded → generationPromoted m = false →
  (0 ≤ CurrentGeneration m)%Z → verificationPassed m = true →
  persisted_ok (promoteMetadata m) OutcomeSucceeded ∧ generationPromoted (promoteMetadata m) = true.
Proof.
  intros [] Hp Hc Hv. rewrite Hp in po_retention0. cbn in po_retention0.
  assert (Hpr : generationPromoted (promoteMetadata m) = true).
  { unfold referencesRetained in po_retention0. split_bools.
    unfold generationPromoted. cbn. rewrite Z.eqb_refl. rewrite !andb_true_r.
    apply Z.ltb_lt. lia. }
  split; [|done]. split; try done.
  - rewrite Hpr. by apply promoted_not_retained.
  - apply check_reconciliation_succeeded. apply check_reconciliation_succeeded in po_reconciliation0.
    cbn. destruct (decide (md_Capability m = CapabilityOwnerRiskGate)) as [He|He].
    + rewrite bool_decide_eq_true_2 by done. done.
    + rewrite bool_decide_eq_false_2 by done. auto.
Qed.
End lemmas.

#[export] Hint Resolve metadata_validate_persisted persisted_needs persisted_verified
  persisted_promote : journal.
