(* ===== verification/SyncState.v ===== *)
(** The sync journal (src/internal/syncer/state.go): the persisted state of one
target, one definition per method of [SyncState].

A method that mutates its receiver returns the new state together with its
error, because a state changed before an error return stays changed.  Metadata
is held by pointer in the source, but every outcome owns its own clone and each
mutation of it is followed by a store of the outcome, so it is a value here.  A
nil and an empty map are not told apart.  Loops over [Outcomes] follow Go's
unspecified map order ([range_map], one site per loop). *)

From S2P Require Import Prelude GoStrings Provider Digest OpMetadata.
#[local] Open Scope go_scope.

(** * Data *)

Record KeyOutcome := mkOutcome {
  Status : OutcomeStatus;
  oc_OperationID : string;
  oc_UpdatedAt : time;
  Metadata : option OperationMetadata;
  AcknowledgedHash : string;
}.

Definition OperationPhase : Type := string.
Definition OperationPhasePending : OperationPhase := "pending".
Definition OperationPhaseAwaitingVerification : OperationPhase := "awaiting_verification".
Definition OperationPhaseSucceeded : OperationPhase := "succeeded".
Definition OperationPhaseNeedsReconciliation : OperationPhase := "needs_reconciliation".

Record SyncState := mkState {
  st_Target : string;
  st_ID : string;
  Hashes : gmap string string;
  Updated : time;
  HashDomain : string;
  OperationMethod : string;
  SourceIdentity : string;
  st_SourceDigest : string;
  OperationID : string;
  Phase : OperationPhase;
  Intent : string;
  StartedAt : option time;
  CompletedAt : option time;
  LastSuccess : option time;
  Outcomes : gmap string KeyOutcome;
}.

(** The state and the error of a mutating method. *)
Definition stepped : Type := SyncState * option op_err.

Definition with_outcomes (o : gmap string KeyOutcome) (s : SyncState) : SyncState :=
  {| st_Target := st_Target s; st_ID := st_ID s; Hashes := Hashes s; Updated := Updated s;
     HashDomain := HashDomain s; OperationMethod := OperationMethod s;
     SourceIdentity := SourceIdentity s; st_SourceDigest := st_SourceDigest s;
     OperationID := OperationID s; Phase := Phase s; Intent := Intent s;
     StartedAt := StartedAt s; CompletedAt := CompletedAt s; LastSuccess := LastSuccess s;
     Outcomes := o |}.
Definition with_hashes (h : gmap string string) (s : SyncState) : SyncState :=
  {| st_Target := st_Target s; st_ID := st_ID s; Hashes := h; Updated := Updated s;
     HashDomain := HashDomain s; OperationMethod := OperationMethod s;
     SourceIdentity := SourceIdentity s; st_SourceDigest := st_SourceDigest s;
     OperationID := OperationID s; Phase := Phase s; Intent := Intent s;
     StartedAt := StartedAt s; CompletedAt := CompletedAt s; LastSuccess := LastSuccess s;
     Outcomes := Outcomes s |}.
Definition with_phase (p : OperationPhase) (completed : option time) (s : SyncState) : SyncState :=
  {| st_Target := st_Target s; st_ID := st_ID s; Hashes := Hashes s; Updated := Updated s;
     HashDomain := HashDomain s; OperationMethod := OperationMethod s;
     SourceIdentity := SourceIdentity s; st_SourceDigest := st_SourceDigest s;
     OperationID := OperationID s; Phase := p; Intent := Intent s;
     StartedAt := StartedAt s; CompletedAt := completed; LastSuccess := LastSuccess s;
     Outcomes := Outcomes s |}.
Definition with_last_success (t : time) (s : SyncState) : SyncState :=
  {| st_Target := st_Target s; st_ID := st_ID s; Hashes := Hashes s; Updated := Updated s;
     HashDomain := HashDomain s; OperationMethod := OperationMethod s;
     SourceIdentity := SourceIdentity s; st_SourceDigest := st_SourceDigest s;
     OperationID := OperationID s; Phase := Phase s; Intent := Intent s;
     StartedAt := StartedAt s; CompletedAt := CompletedAt s; LastSuccess := Some t;
     Outcomes := Outcomes s |}.
(** The start of an operation: phase pending, nothing completed. *)
Definition with_operation (id intent : string) (started : time) (s : SyncState) : SyncState :=
  {| st_Target := st_Target s; st_ID := st_ID s; Hashes := Hashes s; Updated := Updated s;
     HashDomain := HashDomain s; OperationMethod := OperationMethod s;
     SourceIdentity := SourceIdentity s; st_SourceDigest := st_SourceDigest s;
     OperationID := id; Phase := OperationPhasePending; Intent := intent;
     StartedAt := Some started; CompletedAt := None; LastSuccess := LastSuccess s;
     Outcomes := Outcomes s |}.

(** [outcome.Status = st; outcome.UpdatedAt = t] *)
Definition with_status (st : OutcomeStatus) (t : time) (o : KeyOutcome) : KeyOutcome :=
  {| Status := st; oc_OperationID := oc_OperationID o; oc_UpdatedAt := t; Metadata := Metadata o;
     AcknowledgedHash := AcknowledgedHash o |}.
Definition with_hash (h : string) (o : KeyOutcome) : KeyOutcome :=
  {| Status := Status o; oc_OperationID := oc_OperationID o; oc_UpdatedAt := oc_UpdatedAt o;
     Metadata := Metadata o; AcknowledgedHash := h |}.
Definition with_metadata (f : OperationMetadata → OperationMetadata) (o : KeyOutcome) :=
  {| Status := Status o; oc_OperationID := oc_OperationID o; oc_UpdatedAt := oc_UpdatedAt o;
     Metadata := f <$> Metadata o; AcknowledgedHash := AcknowledgedHash o |}.
(** The reconciliation state an outcome enters [needs_reconciliation] with. *)
Definition needs_reconciliation (t : time) (o : KeyOutcome) : KeyOutcome :=
  with_metadata (λ m, set_reconciliation (reconciliationStateFor (md_Capability m)) m)
    (with_status OutcomeNeedsReconciliation t o).

Definition NewSyncState (target id : string) : SyncState :=
  {| st_Target := target; st_ID := id; Hashes := ∅; Updated := 0; HashDomain := "";
     OperationMethod := ""; SourceIdentity := ""; st_SourceDigest := ""; OperationID := "";
     Phase := ""; Intent := ""; StartedAt := None; CompletedAt := None; LastSuccess := None;
     Outcomes := ∅ |}.

(** * Queries *)

Section queries.
Context {MR : MapRange}.

Definition operationPending (s : SyncState) : bool :=
  if decide (OperationID s = "") then false
  else if bool_decide (Phase s = OperationPhasePending)
          || bool_decide (Phase s = OperationPhaseAwaitingVerification)
          || (bool_decide (Phase s = "") && bool_decide (CompletedAt s = None)) then true
  else existsb (λ ko, bool_decide (oc_OperationID ko.2 = OperationID s)
                      && bool_decide (Status ko.2 = OutcomePending)) (range_map 0 (Outcomes s)).

Definition RequiresReconciliation (s : SyncState) : bool :=
  if bool_decide (OperationID s = "") || bool_decide (Phase s = OperationPhaseSucceeded)
  then false
  else if bool_decide (Phase s = OperationPhaseNeedsReconciliation)
          || bool_decide (Phase s = OperationPhaseAwaitingVerification) then true
  else existsb (λ ko, bool_decide (oc_OperationID ko.2 = OperationID s)
                      && negb (bool_decide (Status ko.2 = OutcomeSucceeded)))
         (range_map 0 (Outcomes s)).

Definition hasRetainedMetadataOperation (s : SyncState) : bool :=
  if bool_decide (OperationID s = "") || bool_decide (Phase s = OperationPhaseSucceeded)
  then false
  else existsb (λ ko, bool_decide (oc_OperationID ko.2 = OperationID s)
                      && match Metadata ko.2 with
                         | Some m => negb (generationPromoted m)
                         | None => false
                         end) (range_map 0 (Outcomes s)).
End queries.

Definition checkOperation (s : SyncState) (operationID : string) : option op_err :=
  if bool_decide (operationID = "") || negb (bool_decide (operationID = OperationID s))
  then Some (ErrOperationMismatch operationID (OperationID s)) else None.

Definition ownerRiskApproved (o : KeyOutcome) : bool :=
  match Metadata o with
  | Some m => bool_decide (md_Capability m = CapabilityOwnerRiskGate)
              && bool_decide (md_ReconciliationState m = ReconciliationStateApproved)
  | None => false
  end.

Definition outcomeCapabilityAllowsSuccess (o : KeyOutcome) : bool :=
  match Metadata o with
  | None => true
  | Some m =>
    if decide (md_Capability m = CapabilityNativeCAS) then true
    else if decide (md_Capability m = CapabilityEnforcedExclusive) then true
    else if decide (md_Capability m = CapabilityOwnerRiskGate) then ownerRiskApproved o
    else false
  end.

Definition ownedOutcome (s : SyncState) (operationID : string) (secret : option Secret) :
    result op_err (Secret * KeyOutcome) :=
  match secret with
  | None => Err nil_secret
  | Some sec =>
    if decide (trim_space (Key sec) = "") then Err operation_key_required
    else match Outcomes s !! Key sec with
    | Some o => if decide (oc_OperationID o = operationID) then Ok (sec, o)
                else Err ErrOperationKeyMismatch
    | None => Err ErrOperationKeyMismatch
    end
  end.

Definition validateBatch (s : SyncState) (operationID : string) (secrets : list (option Secret))
    (status : OutcomeStatus) : option op_err :=
  err_if (bool_decide (secrets = [])) ErrOperationEmpty (
  err_each (λ secret,
    match ownedOutcome s operationID secret with
    | Err e => Some e
    | Ok (_, o) =>
      if bool_decide (status = OutcomeSucceeded)
         && bool_decide (Status o = OutcomeNeedsReconciliation) && negb (ownerRiskApproved o)
      then Some ErrOperationPhaseMismatch
      else if bool_decide (status = OutcomeNeedsReconciliation)
              && bool_decide (Status o = OutcomeSucceeded)
      then Some ErrOperationPhaseMismatch
      else None
    end) secrets).

(** * Starting an operation *)

Section begin_operation.
Context {MR : MapRange}.

(** Pending outcomes of the operation that is being left. *)
Definition abandon (previous : string) (started : time) (o : KeyOutcome) : KeyOutcome :=
  if negb (bool_decide (Status o = OutcomePending))
     || (negb (bool_decide (oc_OperationID o = ""))
         && negb (bool_decide (oc_OperationID o = previous))) then o
  else
    let o' := needs_reconciliation started o in
    {| Status := Status o'; oc_OperationID :=
         if bool_decide (oc_OperationID o = "") then previous else oc_OperationID o;
       oc_UpdatedAt := oc_UpdatedAt o'; Metadata := Metadata o';
       AcknowledgedHash := AcknowledgedHash o' |}.

Definition pending_outcome (operationID : string) (started : time)
    (metadata : option OperationMetadata) : KeyOutcome :=
  {| Status := OutcomePending; oc_OperationID := operationID; oc_UpdatedAt := started;
     Metadata := metadata; AcknowledgedHash := "" |}.

Definition is_nil {A} (x : option A) : bool := match x with None => true | Some _ => false end.

(** The loop over the outcomes only rewrites the entry it visits. *)
Definition beginOperation (operationID intent : string) (secrets : list (option Secret))
    (started : time) (metadata : option OperationMetadata) (s : SyncState) : stepped :=
  if hasRetainedMetadataOperation s then (s, Some ErrOperationPhaseMismatch)
  else
    let metadata := normalize_metadata <$> metadata in
    match (m ← metadata; metadata_validate m started) with
    | Some e => (s, Some e)
    | None =>
      if bool_decide (trim_space operationID = "") then (s, Some operation_id_required)
      else if existsb is_nil secrets then (s, Some nil_secret)
      else
        let s := if operationPending s
                 then with_outcomes (abandon (OperationID s) started <$> Outcomes s) s else s in
        let s := with_operation operationID intent started s in
        let fresh := pending_outcome operationID started metadata in
        (with_outcomes
           (foldl (λ m secret, match secret with Some sec => <[Key sec := fresh]> m | None => m end)
              (Outcomes s) secrets) s, None)
    end.

Definition BeginOperation (operationID : string) (secrets : list (option Secret)) (started : time) :=
  beginOperation operationID "" secrets started None.
Definition BeginOperationWithIntent (operationID intent : string) (secrets : list (option Secret))
    (started : time) :=
  beginOperation operationID intent secrets started None.
Definition BeginOperationWithMetadata (operationID : string) (metadata : OperationMetadata)
    (secrets : list (option Secret)) (started : time) :=
  beginOperation operationID "" secrets started (Some metadata).
End begin_operation.

(** * Recording acknowledgements *)

Definition store (key : string) (o : KeyOutcome) (s : SyncState) : SyncState :=
  with_outcomes (<[key := o]> (Outcomes s)) s.

Definition rejectCapability (key : string) (o : KeyOutcome) (completed : time) (rejection : op_err)
    (s : SyncState) : stepped :=
  if decide (Status o = OutcomeNeedsReconciliation) then (s, Some rejection)
  else (with_phase OperationPhaseNeedsReconciliation (Some completed)
          (store key (needs_reconciliation completed o) s), Some rejection).

Section recording.
Context {MR : MapRange} {HK : HashKey}.

(** [Update], for the secrets that are not nil. *)
Definition Update (secrets : list Secret) (s : SyncState) : SyncState :=
  with_hashes (foldl (λ h sec, <[Key sec := hashSecret (Value sec)]> h) (Hashes s) secrets) s.

(** Reading a missing key of [Hashes] gives the empty string. *)
Definition FilterUnchanged (secrets : list Secret) (s : SyncState) : list Secret :=
  filter (λ sec, default "" (Hashes s !! Key sec) ≠ hashSecret (Value sec)) secrets.

(** The capability switch of [recordKeySuccess]: the rejection, if any. *)
Definition capability_rejection (o : KeyOutcome) (m : OperationMetadata) : option op_err :=
  if decide (md_Capability m = CapabilityNativeCAS) then None
  else if decide (md_Capability m = CapabilityEnforcedExclusive) then None
  else if decide (md_Capability m = CapabilityOwnerRiskGate)
  then (if ownerRiskApproved o then None else Some ErrOperationOwnerRiskApprovalRequired)
  else if decide (md_Capability m = CapabilityBlocked) then Some ErrOperationCapabilityBlocked
  else Some ErrOperationCapabilityInvalid.

Definition past_deadline (completed : time) (m : OperationMetadata) : bool :=
  match Deadline m with Some d => after completed d | None => false end.

(** The acknowledgement itself, once no guard rejected it. *)
Definition acknowledge (sec : Secret) (o : KeyOutcome) (completed : time) (s : SyncState) : stepped :=
  if bool_decide (Status o = OutcomeNeedsReconciliation) && negb (ownerRiskApproved o)
  then (s, Some ErrOperationPhaseMismatch)
  else
    let o := with_status OutcomeSucceeded completed o in
    match Metadata o with
    | Some _ => (store (Key sec) (with_hash (hashSecret (Value sec)) o) s, None)
    | None => (store (Key sec) o (Update [sec] s), None)
    end.

Definition recordKeySuccess (operationID : string) (secret : option Secret) (completed : time)
    (s : SyncState) : stepped :=
  match ownedOutcome s operationID secret with
  | Err e => (s, Some e)
  | Ok (sec, o) =>
    match (m ← Metadata o; validatePersisted m (Status o)) with
    | Some e => (s, Some e)
    | None =>
      let acknowledgedHash := hashSecret (Value sec) in
      if decide (Status o = OutcomeSucceeded) then
        match Metadata o with
        | Some _ =>
          if decide (AcknowledgedHash o = acknowledgedHash) then (s, None)
          else if hashKeyIsEphemeral
          then (store (Key sec) (with_hash acknowledgedHash o) s, None)
          else (s, Some ErrOperationKeyMismatch)
        | None => (s, None)
        end
      else match Metadata o with
      | Some m =>
        if past_deadline completed m
        then rejectCapability (Key sec) o completed ErrOperationDeadlineExceeded s
        else match capability_rejection o m with
        | Some e => rejectCapability (Key sec) o completed e s
        | None => acknowledge sec o completed s
        end
      | None => acknowledge sec o completed s
      end
    end
  end.

Definition RecordKeySuccess (operationID : string) (secret : option Secret) (completed : time)
    (s : SyncState) : stepped :=
  match checkOperation s operationID with
  | Some e => (s, Some e)
  | None => recordKeySuccess operationID secret completed s
  end.

Definition recordKeyNeedsReconciliation (operationID : string) (secret : option Secret)
    (completed : time) (s : SyncState) : stepped :=
  match ownedOutcome s operationID secret with
  | Err e => (s, Some e)
  | Ok (sec, o) =>
    match (m ← Metadata o; validatePersisted m (Status o)) with
    | Some e => (s, Some e)
    | None =>
      if decide (Status o = OutcomeSucceeded) then (s, Some ErrOperationPhaseMismatch)
      else if decide (Status o = OutcomeNeedsReconciliation) then (s, None)
      else (with_phase OperationPhaseNeedsReconciliation (Some completed)
              (store (Key sec) (needs_reconciliation completed o) s), None)
    end
  end.

Definition RecordKeyNeedsReconciliation (operationID : string) (secret : option Secret)
    (completed : time) (s : SyncState) : stepped :=
  match checkOperation s operationID with
  | Some e => (s, Some e)
  | None => recordKeyNeedsReconciliation operationID secret completed s
  end.

(** [for _, secret := range secrets { if err := f(secret); err != nil { return err } }] *)
Fixpoint record_each (f : option Secret → SyncState → stepped) (secrets : list (option Secret))
    (s : SyncState) : stepped :=
  match secrets with
  | [] => (s, None)
  | secret :: secrets =>
    match f secret s with
    | (s, Some e) => (s, Some e)
    | (s, None) => record_each f secrets s
    end
  end.

Definition RecordNeedsReconciliation (operationID : string) (secrets : list (option Secret))
    (completed : time) (s : SyncState) : stepped :=
  match err_seq (checkOperation s operationID)
          (validateBatch s operationID secrets OutcomeNeedsReconciliation) with
  | Some e => (s, Some e)
  | None => record_each (λ secret, recordKeyNeedsReconciliation operationID secret completed) secrets s
  end.

Definition ApproveOwnerRiskReconciliation (operationID key : string) (approvedAt : time)
    (s : SyncState) : stepped :=
  match checkOperation s operationID with
  | Some e => (s, Some e)
  | None =>
    match Outcomes s !! key with
    | None => (s, Some ErrOperationKeyMismatch)
    | Some o =>
      if negb (bool_decide (oc_OperationID o = operationID)) then (s, Some ErrOperationKeyMismatch)
      else match Metadata o with
      | None => (s, Some ErrOperationPhaseMismatch)
      | Some m =>
        if negb (bool_decide (Status o = OutcomeNeedsReconciliation))
        then (s, Some ErrOperationPhaseMismatch)
        else match validatePersisted m (Status o) with
        | Some e => (s, Some e)
        | None =>
          if negb (bool_decide (md_Capability m = CapabilityOwnerRiskGate))
          then (s, Some ErrOperationCapabilityInvalid)
          else if decide (md_ReconciliationState m = ReconciliationStateApproved) then (s, None)
          else
            let o := with_metadata (set_reconciliation ReconciliationStateApproved) o in
            (store key (with_status (Status o) approvedAt o) s, None)
        end
      end
    end
  end.

(** * Finishing an operation *)

(** What the loop of [FinalizeOperation] accumulates. *)
Record tally := mkTally {
  t_outcomes : gmap string KeyOutcome;
  t_owned : nat;
  t_metadataOwned : nat;
  t_hasPending : bool;
  t_hasNeedsReconciliation : bool;
  t_verificationPending : bool;
  t_verificationFailed : bool;
}.

(** The metadata checks of one owned outcome. *)
Definition finalize_check (o : KeyOutcome) : option op_err :=
  match Metadata o with
  | None => None
  | Some m =>
    err_seq (validatePersisted m (Status o))
      (err_if (bool_decide (Status o = OutcomeSucceeded) && referencesRetained m
               && negb (validAcknowledgedHash (AcknowledgedHash o)))
         missing_acknowledgement_hash None)
  end.

(** One owned outcome without error: its new value, whether it is pending or needs
reconciliation, and what it says about verification. *)
Definition finalize_visit (key : string) (o : KeyOutcome) (completed : time) (t : tally) : tally :=
  let demoted := bool_decide (Status o = OutcomeSucceeded)
                 && negb (outcomeCapabilityAllowsSuccess o) in
  let needs := bool_decide (Status o = OutcomeNeedsReconciliation) in
  {| t_outcomes := if demoted then <[key := needs_reconciliation completed o]> (t_outcomes t)
                   else t_outcomes t;
     t_owned := S (t_owned t);
     t_metadataOwned := match Metadata o with
                        | Some _ => S (t_metadataOwned t) | None => t_metadataOwned t end;
     t_hasPending := t_hasPending t
                     || (negb (bool_decide (Status o = OutcomeSucceeded)) && negb needs);
     t_hasNeedsReconciliation := t_hasNeedsReconciliation t || needs || demoted;
     t_verificationPending := t_verificationPending t
       || match Metadata o with Some m => negb (verificationPassed m) | None => false end;
     t_verificationFailed := t_verificationFailed t
       || match Metadata o with Some m => verificationFailed m | None => false end |}.

Fixpoint finalize_loop (operationID : string) (completed : time)
    (l : list (string * KeyOutcome)) (t : tally) : tally * option op_err :=
  match l with
  | [] => (t, None)
  | (key, o) :: l =>
    if decide (oc_OperationID o = operationID) then
      match finalize_check o with
      | Some e => (t, Some (outcome_error key e))
      | None => finalize_loop operationID completed l (finalize_visit key o completed t)
      end
    else finalize_loop operationID completed l t
  end.

(** The promotion loop: hashes and outcomes of the verified metadata. *)
Fixpoint promote_loop (operationID : string) (l : list (string * KeyOutcome)) (s : SyncState) :
    SyncState :=
  match l with
  | [] => s
  | (key, o) :: l =>
    promote_loop operationID l
      (if bool_decide (oc_OperationID o = operationID) && bool_decide (Status o = OutcomeSucceeded)
       then match Metadata o with
            | Some _ =>
              store key (with_metadata promoteMetadata (with_hash "" o))
                (with_hashes (<[key := AcknowledgedHash o]> (Hashes s)) s)
            | None => s
            end
       else s)
  end.

Definition tally0 (s : SyncState) : tally :=
  {| t_outcomes := Outcomes s; t_owned := 0; t_metadataOwned := 0; t_hasPending := false;
     t_hasNeedsReconciliation := false; t_verificationPending := false;
     t_verificationFailed := false |}.

(** What follows the loop. *)
Definition finalize_decide (operationID : string) (completed : time) (t : tally) (s : SyncState) :
    stepped :=
  if t_owned t =? 0 then (s, Some ErrOperationEmpty)
  else if negb (t_metadataOwned t =? 0) && negb (t_metadataOwned t =? t_owned t)
  then (s, Some ErrOperationPhaseMismatch)
  else if t_hasNeedsReconciliation t || t_verificationFailed t then
    (with_phase OperationPhaseNeedsReconciliation
       (match CompletedAt s with Some c => Some c | None => Some completed end) s, None)
  else if t_hasPending t then (with_phase OperationPhasePending None s, None)
  else if negb (t_metadataOwned t =? 0) && t_verificationPending t
  then (with_phase OperationPhaseAwaitingVerification None s, None)
  else if decide (Phase s = OperationPhaseSucceeded) then (s, None)
  else
    let s := promote_loop operationID (range_map 1 (Outcomes s)) s in
    (with_last_success completed (with_phase OperationPhaseSucceeded (Some completed) s), None).

Definition FinalizeOperation (operationID : string) (completed : time) (s : SyncState) : stepped :=
  match checkOperation s operationID with
  | Some e => (s, Some e)
  | None =>
    match finalize_loop operationID completed (range_map 0 (Outcomes s)) (tally0 s) with
    | (t, Some e) => (with_outcomes (t_outcomes t) s, Some e)
    | (t, None) => finalize_decide operationID completed t (with_outcomes (t_outcomes t) s)
    end
  end.

Definition RecordSuccess (operationID : string) (secrets : list (option Secret)) (completed : time)
    (s : SyncState) : stepped :=
  match err_seq (checkOperation s operationID)
          (validateBatch s operationID secrets OutcomeSucceeded) with
  | Some e => (s, Some e)
  | None =>
    match record_each (λ secret, recordKeySuccess operationID secret completed) secrets s with
    | (s, Some e) => (s, Some e)
    | (s, None) => FinalizeOperation operationID completed s
    end
  end.

(** * Verification *)

(** One acknowledged outcome under a verification verdict. *)
Definition verified_outcome (canaryPassed postconditionsPassed : bool) (completed : time)
    (o : KeyOutcome) : KeyOutcome :=
  let o := with_metadata
    (if canaryPassed
     then set_verification VerificationStatePassed
            (if postconditionsPassed then VerificationStatePassed else VerificationStateFailed)
     else set_verification VerificationStateFailed VerificationStatePending) o in
  if canaryPassed && postconditionsPassed then with_status (Status o) completed o
  else needs_reconciliation completed o.

(** The second loop: it stops with an error at the first owned outcome that is not
an acknowledged one; the outcomes it visited before keep their update. *)
Fixpoint verify_loop (operationID : string) (c p : bool) (completed : time)
    (l : list (string * KeyOutcome)) (owned : nat) (s : SyncState) : nat * stepped :=
  match l with
  | [] => (owned, (s, None))
  | (key, o) :: l =>
    if decide (oc_OperationID o = operationID) then
      if negb (bool_decide (Status o = OutcomeSucceeded)) || bool_decide (Metadata o = None)
         || negb (validAcknowledgedHash (AcknowledgedHash o))
      then (S owned, (s, Some ErrOperationPhaseMismatch))
      else verify_loop operationID c p completed l (S owned)
             (store key (verified_outcome c p completed o) s)
    else verify_loop operationID c p completed l owned s
  end.

Definition deadline_exceeded (operationID : string) (completed : time) (s : SyncState) : bool :=
  existsb (λ ko, bool_decide (oc_OperationID ko.2 = operationID)
                 && match Metadata ko.2 with Some m => past_deadline completed m | None => false end)
    (range_map 2 (Outcomes s)).

Definition RecordOperationVerification (operationID : string)
    (canaryPassed postconditionsPassed : bool) (completed : time) (s : SyncState) : stepped :=
  match checkOperation s operationID with
  | Some e => (s, Some e)
  | None =>
    if negb (bool_decide (Phase s = OperationPhaseAwaitingVerification))
    then (s, Some ErrOperationPhaseMismatch)
    else
      let deadlineExceeded := deadline_exceeded operationID completed s in
      let c := canaryPassed && negb deadlineExceeded in
      let p := postconditionsPassed && negb deadlineExceeded in
      match verify_loop operationID c p completed (range_map 3 (Outcomes s)) 0 s with
      | (_, (s, Some e)) => (s, Some e)
      | (owned, (s, None)) =>
        if owned =? 0 then (s, Some ErrOperationEmpty)
        else if negb c || negb p then
          (with_phase OperationPhaseNeedsReconciliation (Some completed) s,
           if deadlineExceeded then Some ErrOperationDeadlineExceeded else None)
        else FinalizeOperation operationID completed s
      end
  end.

(** * Persistence *)

(** The check of one outcome when a state is loaded or saved. *)
Definition persisted_outcome (s : SyncState) (o : KeyOutcome) : option op_err :=
  match Metadata o with
  | None => err_if (negb (bool_decide (AcknowledgedHash o = ""))) unexpected_acknowledgement_hash None
  | Some m =>
    err_seq (validatePersisted m (Status o)) (
    err_if (negb (bool_decide (AcknowledgedHash o = ""))
            && negb (validAcknowledgedHash (AcknowledgedHash o))) invalid_acknowledgement_hash (
    err_if (referencesRetained m && negb (bool_decide (oc_OperationID o = OperationID s)))
      orphaned_retained_generation (
    if negb (bool_decide (oc_OperationID o = OperationID s)) then None
    else if decide (Phase s = OperationPhaseSucceeded) then
      err_if (negb (generationPromoted m) || negb (bool_decide (AcknowledgedHash o = "")))
        success_not_promoted None
    else if decide (Phase s = OperationPhaseAwaitingVerification) then
      err_if (negb (bool_decide (Status o = OutcomeSucceeded)) || negb (referencesRetained m)
              || negb (validAcknowledgedHash (AcknowledgedHash o)) || verificationFailed m)
        invalid_verification_wait None
    else err_if (generationPromoted m) premature_generation_promotion None)))
  end.

Definition is_current_metadata (s : SyncState) (o : KeyOutcome) : bool :=
  negb (bool_decide (Metadata o = None)) && bool_decide (oc_OperationID o = OperationID s).

Definition validatePersistedOperationMetadata (s : SyncState) : option op_err :=
  err_if (negb (bool_decide (OperationMethod s = ""))
          && negb (validOperationReference (OperationMethod s))) invalid_operation_method (
  err_if (512 <? String.length (SourceIdentity s)) source_identity_too_long (
  err_if (negb (bool_decide (st_SourceDigest s = ""))
          && negb (validAcknowledgedHash (st_SourceDigest s))) invalid_source_digest (
  err_seq (err_each (λ ko, outcome_error ko.1 <$> persisted_outcome s ko.2)
             (range_map 4 (Outcomes s)))
  (err_if (bool_decide (Phase s = OperationPhaseAwaitingVerification)
           && (length (filter (λ ko, is_current_metadata s ko.2) (range_map 4 (Outcomes s))) =? 0))
     ErrOperationVerificationRequired None)))).

(** [currentHashDomain]: 16 hexadecimal digits that identify the key. *)
Definition currentHashDomain : string :=
  str_take 16 (hex_encode (hmac "skret sync-state hash domain v1")).

Inductive load_err := read_error | parse_error | identity_mismatch | invalid_state (e : op_err).

(** The reset of a state whose hashes belong to another key. *)
Definition reset_domain (s : SyncState) : SyncState :=
  {| st_Target := st_Target s; st_ID := st_ID s; Hashes := ∅; Updated := Updated s;
     HashDomain := currentHashDomain; OperationMethod := OperationMethod s;
     SourceIdentity := SourceIdentity s; st_SourceDigest := ""; OperationID := ""; Phase := "";
     Intent := ""; StartedAt := None; CompletedAt := None; LastSuccess := None; Outcomes := ∅ |}.

(** [LoadSyncState] after the file was read: [None] is a missing file, [Err] a
read error; [decode] is [json.Unmarshal]. *)
Definition LoadSyncState (file : result unit (option string)) (decode : string → option SyncState)
    (target id : string) : result load_err SyncState :=
  match file with
  | Err _ => Err read_error
  | Ok None => Ok (NewSyncState target id)
  | Ok (Some data) =>
    match decode data with
    | None => Err parse_error
    | Some s =>
      if negb (bool_decide (st_Target s = target)) || negb (bool_decide (st_ID s = id))
      then Err identity_mismatch
      else
        let s := if bool_decide (HashDomain s = currentHashDomain) then s else reset_domain s in
        match validatePersistedOperationMetadata s with
        | Some e => Err (invalid_state e)
        | None => Ok s
        end
    end
  end.

(** [SaveSyncState] up to the atomic file write: what it writes. *)
Definition saved_state (now : time) (s : SyncState) : result op_err SyncState :=
  try! validatePersistedOperationMetadata s;
  Ok {| st_Target := st_Target s; st_ID := st_ID s; Hashes := Hashes s; Updated := now;
        HashDomain := currentHashDomain; OperationMethod := OperationMethod s;
        SourceIdentity := SourceIdentity s; st_SourceDigest := st_SourceDigest s;
        OperationID := OperationID s; Phase := Phase s; Intent := Intent s;
        StartedAt := StartedAt s; CompletedAt := CompletedAt s; LastSuccess := LastSuccess s;
        Outcomes := Outcomes s |}.

(** * The source digest *)

Definition digest_pair (secret : option Secret) : string :=
  match secret with
  | None => "<nil>"
  | Some sec => Key sec +:+ str1 NUL +:+ hashSecret (Value sec)
  end.
Definition SourceDigest (secrets : list (option Secret)) : string :=
  hex_encode (hmac (join (str1 NUL) (sort_strings (digest_pair <$> secrets)))).
End recording.
