(* ===== verification/SyncInvariant.v ===== *)
(** The invariant of the sync journal and its preservation by every method.

[journal_inv] strengthens the check of [validatePersistedOperationMetadata] (the
gate of every load and save) into an inductive invariant; the file proves it for
each operation, on the error branches too, because a failed method may still
have changed the state. *)

From S2P Require Import Prelude GoStrings Provider Digest OpMetadata SyncState.

(** * The persisted form, as a proposition *)

Definition phase_ok (phase : string) (m : OperationMetadata) (o : KeyOutcome) : Prop :=
  if decide (phase = OperationPhaseSucceeded) then
    generationPromoted m = true ∧ AcknowledgedHash o = ""
  else if decide (phase = OperationPhaseAwaitingVerification) then
    Status o = OutcomeSucceeded ∧ referencesRetained m = true
    ∧ validAcknowledgedHash (AcknowledgedHash o) = true ∧ verificationFailed m = false
  else generationPromoted m = false.

Record metadata_ok (id phase : string) (m : OperationMetadata) (o : KeyOutcome) : Prop := {
  mo_persisted : persisted_ok m (Status o);
  mo_hash : AcknowledgedHash o = "" ∨ validAcknowledgedHash (AcknowledgedHash o) = true;
  mo_retained : referencesRetained m = true → oc_OperationID o = id;
  mo_phase : oc_OperationID o = id → phase_ok phase m o;
}.
Definition outcome_ok (id phase : string) (o : KeyOutcome) : Prop :=
  match Metadata o with
  | None => AcknowledgedHash o = ""
  | Some m => metadata_ok id phase m o
  end.

Record header_ok (s : SyncState) : Prop := {
  ho_method : OperationMethod s = "" ∨ validOperationReference (OperationMethod s) = true;
  ho_source : String.length (SourceIdentity s) ≤ 512;
  ho_digest : st_SourceDigest s = "" ∨ validAcknowledgedHash (st_SourceDigest s) = true;
}.

Lemma persisted_outcome_None s o :
  persisted_outcome s o = None ↔ outcome_ok (OperationID s) (Phase s) o.
Proof.
  unfold persisted_outcome, outcome_ok. destruct (Metadata o) as [m|] eqn:Hm.
  2:{ rewrite err_if_None, negb_false_iff, bool_decide_eq_true. tauto. }
  rewrite err_seq_None, !err_if_None, validatePersisted_None.
  rewrite !andb_false_iff, !negb_false_iff, !bool_decide_eq_true.
  match goal with |- context [if negb ?b then None else ?r] => set (rest := if negb b then None else r) end.
  assert (Hrest : rest = None ↔ (oc_OperationID o = OperationID s → phase_ok (Phase s) m o)).
  { subst rest. unfold phase_ok.
    destruct (decide (oc_OperationID o = OperationID s)) as [He|He].
    2:{ rewrite bool_decide_eq_false_2 by done. naive_solver. }
    rewrite bool_decide_eq_true_2 by done. cbn [negb].
    repeat case_decide; rewrite err_if_None, ?orb_false_iff, ?negb_false_iff,
      ?bool_decide_eq_true; naive_solver. }
  rewrite Hrest. clear. split.
  - intros (H1 & H2 & H3 & H4). split; try done. intros Hr. destruct H3 as [H3|H3]; [|done].
    by rewrite Hr in H3.
  - intros [H1 H2 H3 H4]. split; [done|]. split; [done|]. split; [|done].
    destruct (referencesRetained m); auto.
Qed.

Section invariant.
Context {MR : MapRange} {HK : HashKey}.

Lemma range_elem {A} site (m : gmap string A) (P : string * A → Prop) :
  (∀ x, x ∈ range_map site m → P x) ↔ (∀ k v, m !! k = Some v → P (k, v)).
Proof.
  split.
  - intros H k v Hk. apply H. by rewrite elem_of_range_map.
  - intros H [k v] Hk. apply H. by rewrite <-elem_of_range_map.
Qed.

(** The gate of every load and save. *)
Lemma validate_persisted_None s :
  validatePersistedOperationMetadata s = None ↔
  header_ok s ∧
  (∀ k o, Outcomes s !! k = Some o → outcome_ok (OperationID s) (Phase s) o) ∧
  (Phase s = OperationPhaseAwaitingVerification →
   ∃ k o m, Outcomes s !! k = Some o ∧ Metadata o = Some m ∧ oc_OperationID o = OperationID s).
Proof.
  unfold validatePersistedOperationMetadata.
  rewrite !err_if_None, err_seq_None, err_if_None, err_each_None.
  rewrite (range_elem 4 (Outcomes s)).
  rewrite !andb_false_iff, !negb_false_iff, !bool_decide_eq_true, Nat.ltb_ge.
  assert (Hcount : (length (filter (λ ko, is_current_metadata s ko.2) (range_map 4 (Outcomes s)))
      =? 0) = false ↔ ∃ k o m, Outcomes s !! k = Some o ∧ Metadata o = Some m ∧
      oc_OperationID o = OperationID s).
  { rewrite Nat.eqb_neq. rewrite length_zero_iff_nil. split.
    - intros Hne. destruct (filter _ _) as [|[k o] l] eqn:E; [done|].
      assert (Hin : (k, o) ∈ filter (λ ko : string * KeyOutcome, is_current_metadata s ko.2)
        (range_map 4 (Outcomes s))) by (rewrite E; set_solver).
      apply list_elem_of_filter in Hin as [Hc Hin%elem_of_range_map]. cbn in Hc.
      unfold is_current_metadata in Hc. apply Is_true_true in Hc. split_bools.
      destruct (Metadata o) as [m|] eqn:Hm; [|done]. naive_solver.
    - intros (k & o & m & Hk & Hm & Hid) E.
      assert (Hin : (k, o) ∈ filter (λ ko : string * KeyOutcome, is_current_metadata s ko.2)
        (range_map 4 (Outcomes s))).
      { apply list_elem_of_filter. split; [|by apply elem_of_range_map]. cbn.
        unfold is_current_metadata. rewrite Hm, (bool_decide_eq_true_2 _ Hid). done. }
      rewrite E in Hin. set_solver. }
  rewrite Hcount. setoid_rewrite fmap_None. setoid_rewrite persisted_outcome_None.
  split.
  - intros (H1 & H2 & H3 & H4 & [H5|H5] & _); (split; [split; (done || lia)|]);
      (split; [done|]); [|done]. intros Hp. apply bool_decide_eq_false in H5. done.
  - intros ([] & H4 & H5). repeat (split; [done || lia|]). split; [|done].
    destruct (decide (Phase s = OperationPhaseAwaitingVerification)) as [Hp|Hp];
      [right; auto|left; by apply bool_decide_eq_false].
Qed.

(** * The inductive invariant *)

(** [current s o]: the outcome belongs to the operation in progress. *)
Definition current (s : SyncState) (o : KeyOutcome) : Prop := oc_OperationID o = OperationID s.

Record outcome_inv (o : KeyOutcome) : Prop := {
  oi_id : oc_OperationID o ≠ "";
  oi_generation : ∀ m, Metadata o = Some m → (0 ≤ CurrentGeneration m)%Z;
  oi_allowed : Status o = OutcomeSucceeded → outcomeCapabilityAllowsSuccess o = true;
  oi_acknowledged : ∀ m, Metadata o = Some m → Status o = OutcomeSucceeded →
    referencesRetained m = true → validAcknowledgedHash (AcknowledgedHash o) = true;
  oi_status : valid_status (Status o) = true;
}.

Record journal_inv (s : SyncState) : Prop := {
  ji_header : header_ok s;
  ji_outcome : ∀ k o, Outcomes s !! k = Some o → outcome_ok (OperationID s) (Phase s) o;
  ji_awaiting : Phase s = OperationPhaseAwaitingVerification →
    ∃ k o m, Outcomes s !! k = Some o ∧ Metadata o = Some m ∧ current s o;
  ji_inv : ∀ k o, Outcomes s !! k = Some o → outcome_inv o;
  ji_uniform : ∀ k1 o1 k2 o2, Outcomes s !! k1 = Some o1 → Outcomes s !! k2 = Some o2 →
    current s o1 → current s o2 → Metadata o1 = None → Metadata o2 = None;
}.

Lemma journal_inv_saved s : journal_inv s → validatePersistedOperationMetadata s = None.
Proof. intros []. by apply validate_persisted_None. Qed.

(** Phases other than success and the verification wait. *)
Definition live (phase : string) : Prop :=
  phase ≠ OperationPhaseSucceeded ∧ phase ≠ OperationPhaseAwaitingVerification.
Lemma live_pending : live OperationPhasePending.
Proof. done. Qed.
Lemma live_needs : live OperationPhaseNeedsReconciliation.
Proof. done. Qed.

Lemma phase_ok_live phase m o : live phase → phase_ok phase m o ↔ generationPromoted m = false.
Proof. intros []. unfold phase_ok. by rewrite !decide_False. Qed.
Lemma phase_ok_succeeded m o :
  phase_ok OperationPhaseSucceeded m o ↔ generationPromoted m = true ∧ AcknowledgedHash o = "".
Proof. done. Qed.
Lemma phase_ok_awaiting m o :
  phase_ok OperationPhaseAwaitingVerification m o ↔
  Status o = OutcomeSucceeded ∧ referencesRetained m = true
  ∧ validAcknowledgedHash (AcknowledgedHash o) = true ∧ verificationFailed m = false.
Proof. done. Qed.

(** A metadata outcome of the current operation that has not succeeded keeps its
generation unpromoted and the phase live. *)
Lemma unfinished_live s k o m :
  journal_inv s → Outcomes s !! k = Some o → current s o → Metadata o = Some m →
  Status o ≠ OutcomeSucceeded →
  live (Phase s) ∧ generationPromoted m = false ∧ persisted_ok m (Status o).
Proof.
  intros Hi Hk Hc Hm Hs. pose proof (ji_outcome _ Hi _ _ Hk) as Ho.
  unfold outcome_ok in Ho. rewrite Hm in Ho. destruct Ho as [Hp _ _ Hph].
  specialize (Hph Hc). unfold phase_ok in Hph.
  destruct (generationPromoted m) eqn:Hg; [by destruct (po_promoted _ _ Hp Hg)|].
  repeat case_decide; try naive_solver. split; [|done]. by split.
Qed.

(** While the phase is not success no generation of the operation is promoted. *)
Lemma not_promoted s k o m :
  journal_inv s → Phase s ≠ OperationPhaseSucceeded →
  Outcomes s !! k = Some o → current s o → Metadata o = Some m → generationPromoted m = false.
Proof.
  intros Hi Hph Hk Hc Hm. pose proof (ji_outcome _ Hi _ _ Hk) as Ho.
  unfold outcome_ok in Ho. rewrite Hm in Ho. destruct Ho as [Hp _ _ Ho].
  specialize (Ho Hc). unfold phase_ok in Ho. repeat case_decide; try done.
  destruct Ho as (_ & Hr & _). rewrite (po_retention _ _ Hp) in Hr. by apply negb_true_iff.
Qed.

Lemma outcome_ok_phase id phase phase' o :
  outcome_ok id phase o →
  (∀ m, Metadata o = Some m → oc_OperationID o = id → phase_ok phase' m o) →
  outcome_ok id phase' o.
Proof.
  unfold outcome_ok. destruct (Metadata o) as [m|]; [|done]. intros [] H. split; try done.
  intros. by apply H.
Qed.

(** Leaving for a live phase. *)
Lemma inv_to_live s phase c :
  journal_inv s → live phase →
  (∀ k o m, Outcomes s !! k = Some o → current s o → Metadata o = Some m →
    generationPromoted m = false) →
  journal_inv (with_phase phase c s).
Proof.
  intros [] Hl Hp. split; try done.
  - by destruct ji_header0.
  - cbn. intros k o Hk. eapply outcome_ok_phase; [by eapply ji_outcome0|].
    intros m Hm Hid. apply phase_ok_live; [done|]. by eapply Hp.
  - cbn. intros ->. by destruct Hl.
Qed.

(** Replacing one outcome of the current operation by another one. *)
Lemma inv_store s k o o' :
  journal_inv s → Outcomes s !! k = Some o → current s o → current s o' →
  is_Some (Metadata o) ↔ is_Some (Metadata o') →
  outcome_ok (OperationID s) (Phase s) o' → outcome_inv o' →
  journal_inv (store k o' s).
Proof.
  intros [] Hk Hc Hc' Hm Ho' Hi'. split; cbn.
  - by destruct ji_header0.
  - intros k1 o1. rewrite lookup_insert_Some. intros [[<- <-]|[_ H]]; [done|]. by eapply ji_outcome0.
  - intros Hph. destruct (ji_awaiting0 Hph) as (k1 & o1 & m1 & H1 & H2 & H3).
    destruct (decide (k = k1)) as [<-|Hne].
    + destruct (proj1 Hm) as [m' Hm']; [rewrite H1 in Hk; injection Hk as ->; eauto|].
      exists k, o', m'. split; [apply lookup_insert_eq|]. split; [done|exact Hc'].
    + exists k1, o1, m1. rewrite lookup_insert_ne by done. split; [done|]. split; [done|exact H3].
  - intros k1 o1. rewrite lookup_insert_Some. intros [[<- <-]|[_ H]]; [done|]. by eapply ji_inv0.
  - intros k1 o1 k2 o2. unfold current. cbn. rewrite !lookup_insert_Some. unfold current in *.
    assert (Ho : Metadata o = None ↔ Metadata o' = None)
      by (rewrite !eq_None_not_Some; tauto).
    intros [[<- <-]|[_ H1]] [[<- <-]|[_ H2]] Hc1 Hc2 Hn; try done.
    + apply Ho in Hn. by eapply (ji_uniform0 k o k2 o2).
    + apply Ho. by eapply (ji_uniform0 k1 o1 k o).
    + by eapply (ji_uniform0 k1 o1 k2 o2).
Qed.

(** * One outcome at a time *)

Lemma with_metadata_Some f o m' :
  Metadata (with_metadata f o) = Some m' ↔ ∃ m, Metadata o = Some m ∧ m' = f m.
Proof. cbn. rewrite fmap_Some. naive_solver. Qed.

Lemma outcome_inv_needs t o : outcome_inv o → outcome_inv (needs_reconciliation t o).
Proof.
  intros []. split; try done.
  intros m' (m & Hm & ->)%with_metadata_Some. cbn. by apply oi_generation0.
Qed.

(** The metadata of the current operation is not promoted when an outcome of it
has not succeeded. *)
Lemma unfinished_unpromoted s k o :
  journal_inv s → Outcomes s !! k = Some o → current s o → Status o ≠ OutcomeSucceeded →
  ∀ k' o' m', Outcomes s !! k' = Some o' → current s o' → Metadata o' = Some m' →
  generationPromoted m' = false.
Proof.
  intros Hi Hk Hc Hs k' o' m' Hk' Hc' Hm'. destruct (Metadata o) as [m|] eqn:Hm.
  - destruct (unfinished_live _ _ _ _ Hi Hk Hc Hm Hs) as ([Hp _] & _).
    by eapply not_promoted.
  - by rewrite (ji_uniform _ Hi _ _ _ _ Hk Hk' Hc Hc' Hm) in Hm'.
Qed.

Lemma inv_needs s k o t c :
  journal_inv s → Outcomes s !! k = Some o → current s o → Status o ≠ OutcomeSucceeded →
  journal_inv (with_phase OperationPhaseNeedsReconciliation c (store k (needs_reconciliation t o) s)).
Proof.
  intros Hi Hk Hc Hs. pose proof (unfinished_unpromoted _ _ _ Hi Hk Hc Hs) as Hun.
  change (with_phase _ c (store k ?x s))
    with (store k x (with_phase OperationPhaseNeedsReconciliation c s)).
  pose proof (inv_to_live _ _ c Hi live_needs Hun) as Hi'.
  apply (inv_store _ k o); try done.
  - cbn. by rewrite fmap_is_Some.
  - pose proof (ji_outcome _ Hi _ _ Hk) as Ho. unfold outcome_ok in *. cbn.
    destruct (Metadata o) as [m|] eqn:Hm; cbn; [|done].
    destruct (unfinished_live _ _ _ _ Hi Hk Hc Hm Hs) as (_ & Hg & Hp). destruct Ho.
    split; try done. by eapply persisted_needs.
  - apply outcome_inv_needs. by eapply ji_inv.
Qed.

Lemma inv_reject s k o t e :
  journal_inv s → Outcomes s !! k = Some o → current s o → Status o ≠ OutcomeSucceeded →
  journal_inv (rejectCapability k o t e s).1.
Proof.
  intros Hi Hk Hc Hs. unfold rejectCapability. case_decide; [done|]. cbn.
  by apply inv_needs.
Qed.

Lemma capability_rejection_None o m :
  Metadata o = Some m → capability_rejection o m = None →
  outcomeCapabilityAllowsSuccess o = true ∧ md_Capability m ≠ CapabilityBlocked.
Proof.
  intros Hm. unfold capability_rejection, outcomeCapabilityAllowsSuccess, ownerRiskApproved.
  rewrite Hm. repeat case_decide; try done; try (intros; split; [done|congruence]).
  - intros _. split; [done|]. by rewrite H.
  - intros _. split; [done|]. by rewrite H0.
  - case_match; [|done]. intros _. split; [done|]. by rewrite H1.
Qed.

Lemma ownerRiskApproved_spec o :
  ownerRiskApproved o = true ↔ ∃ m, Metadata o = Some m ∧
    md_Capability m = CapabilityOwnerRiskGate ∧
    md_ReconciliationState m = ReconciliationStateApproved.
Proof.
  unfold ownerRiskApproved. destruct (Metadata o) as [m|]; [|naive_solver].
  rewrite andb_true_iff, !bool_decide_eq_true. naive_solver.
Qed.

Lemma persisted_acknowledged o m :
  Metadata o = Some m → persisted_ok m (Status o) → generationPromoted m = false →
  Status o ≠ OutcomeSucceeded → capability_rejection o m = None →
  (Status o = OutcomeNeedsReconciliation → ownerRiskApproved o = true) →
  persisted_ok m OutcomeSucceeded.
Proof.
  intros Hm [] Hg Hs Hc Ha.
  destruct (capability_rejection_None _ _ Hm Hc) as [_ Hb].
  split; try done.
  - intros. congruence.
  - apply check_reconciliation_succeeded.
    destruct (decide (Status o = OutcomePending)) as [E|E].
    + left. apply check_reconciliation_pending. by rewrite <-E.
    + destruct (decide (Status o = OutcomeNeedsReconciliation)) as [E'|E'].
      * right. apply Ha, ownerRiskApproved_spec in E' as (m' & Hm' & ?). naive_solver.
      * unfold valid_status in po_status. by rewrite !bool_decide_eq_false_2 in po_status.
Qed.

Lemma inv_update_hashes s h : journal_inv s → journal_inv (with_hashes h s).
Proof. intros []. split; try done. by destruct ji_header0. Qed.

Lemma inv_acknowledge s sec o t :
  journal_inv s → Outcomes s !! Key sec = Some o → current s o → Status o ≠ OutcomeSucceeded →
  (∀ m, Metadata o = Some m → capability_rejection o m = None) →
  journal_inv (acknowledge sec o t s).1.
Proof.
  intros Hi Hk Hc Hs Hrej. unfold acknowledge.
  pose proof (ji_outcome _ Hi _ _ Hk) as Ho. pose proof (ji_inv _ Hi _ _ Hk) as [].
  case_match eqn:Hnr; [done|]. cbn [Metadata with_status].
  destruct (Metadata o) as [m|] eqn:Hm.
  - cbn. assert (Hap : Status o = OutcomeNeedsReconciliation → ownerRiskApproved o = true).
    { intros E. rewrite bool_decide_eq_true_2 in Hnr by done. by apply negb_false_iff. }
    destruct (unfinished_live _ _ _ _ Hi Hk Hc Hm Hs) as (Hl & Hg & Hp).
    pose proof (hashSecret_valid (Value sec)) as Hh.
    apply (inv_store _ _ o); try done.
    + unfold outcome_ok in *. cbn. rewrite Hm in *. destruct Ho. split; cbn; try done.
      * apply (persisted_acknowledged o); auto.
      * by right.
      * intros _. by apply phase_ok_live.
    + destruct (capability_rejection_None _ _ Hm (Hrej _ eq_refl)). split; try done; cbn.
      by rewrite Hm.
  - cbn. change (store ?k ?x (Update ?l s)) with
      (with_hashes (Hashes (Update l s)) (store k x s)).
    apply inv_update_hashes, (inv_store _ _ o); try done.
    + unfold outcome_ok in *. cbn. by rewrite Hm in *.
    + split; cbn; rewrite ?Hm; try done. intros _. unfold outcomeCapabilityAllowsSuccess.
      cbn. by rewrite Hm.
Qed.

Lemma ownedOutcome_Ok s id secret sec o :
  ownedOutcome s id secret = Ok (sec, o) ↔
  secret = Some sec ∧ trim_space (Key sec) ≠ "" ∧ Outcomes s !! Key sec = Some o
  ∧ oc_OperationID o = id.
Proof.
  unfold ownedOutcome. destruct secret as [sec'|]; [|naive_solver].
  case_decide; [naive_solver|].
  destruct (Outcomes s !! Key sec') as [o'|] eqn:E; [case_decide|]; naive_solver.
Qed.
Lemma checkOperation_None s id : checkOperation s id = None ↔ id ≠ "" ∧ id = OperationID s.
Proof.
  unfold checkOperation. case_match eqn:E.
  - split; [done|]. intros [H1 H2]. rewrite bool_decide_eq_false_2, bool_decide_eq_true_2 in E; done.
  - split; [|done]. intros _. by split_bools.
Qed.

Lemma inv_recordKeySuccess s secret t :
  hashKeyIsEphemeral = false → journal_inv s →
  journal_inv (recordKeySuccess (OperationID s) secret t s).1.
Proof.
  intros Heph Hi. unfold recordKeySuccess.
  destruct (ownedOutcome _ _ _) as [[sec o]|] eqn:Ho; [|done].
  apply ownedOutcome_Ok in Ho as (_ & _ & Hk & Hc). rewrite Heph.
  destruct (m ← Metadata o; validatePersisted m (Status o)); [done|].
  case_decide as Hs. { by repeat case_match. }
  destruct (Metadata o) as [m|] eqn:Hm; [|by apply inv_acknowledge; naive_solver].
  case_match; [by apply (inv_reject _ _ o)|].
  destruct (capability_rejection o m) eqn:Hr; [by apply (inv_reject _ _ o)|].
  apply inv_acknowledge; naive_solver.
Qed.

Lemma inv_recordKeyNeeds s secret t :
  journal_inv s → journal_inv (recordKeyNeedsReconciliation (OperationID s) secret t s).1.
Proof.
  intros Hi. unfold recordKeyNeedsReconciliation.
  destruct (ownedOutcome _ _ _) as [[sec o]|] eqn:Ho; [|done].
  apply ownedOutcome_Ok in Ho as (_ & _ & Hk & Hc).
  destruct (m ← Metadata o; validatePersisted m (Status o)); [done|].
  repeat case_decide; try done. by apply (inv_needs _ _ o).
Qed.

Lemma inv_approve s id key t :
  journal_inv s → journal_inv (ApproveOwnerRiskReconciliation id key t s).1.
Proof.
  intros Hi. unfold ApproveOwnerRiskReconciliation.
  destruct (checkOperation s id) eqn:Hc; [done|]. apply checkOperation_None in Hc as [_ ->].
  destruct (Outcomes s !! key) as [o|] eqn:Hk; [|done].
  case_match eqn:Hid; [done|]. split_bools. destruct (Metadata o) as [m|] eqn:Hm; [|done].
  case_match eqn:Hs; [done|]. split_bools.
  destruct (validatePersisted m (Status o)) eqn:Hv; [done|].
  apply validatePersisted_None in Hv. case_match eqn:Hcap; [done|]. split_bools.
  case_decide; [done|]. cbn [fst].
  assert (Hns : Status o ≠ OutcomeSucceeded) by by rewrite Hs.
  destruct (unfinished_live _ _ _ _ Hi Hk Hid Hm Hns) as (Hl & Hg & Hp).
  pose proof (ji_outcome _ Hi _ _ Hk) as Ho. pose proof (ji_inv _ Hi _ _ Hk) as [].
  apply (inv_store _ _ o); try done.
  - cbn. by rewrite fmap_is_Some.
  - unfold outcome_ok in *. cbn. rewrite Hm in *. cbn. destruct Ho. split; cbn; try done.
    rewrite Hs in *. destruct Hv. split; try done.
    apply check_reconciliation_needs. cbn. rewrite decide_True by done. by right.
  - split; try done; cbn; try (intros; contradiction).
    intros m' (m1 & Hm1 & ->)%fmap_Some. cbn. by apply oi_generation0.
Qed.

(** * Starting an operation *)

Lemma existsb_range site {A} (m : gmap string A) (f : string * A → bool) :
  existsb f (range_map site m) = false ↔ ∀ k v, m !! k = Some v → f (k, v) = false.
Proof.
  rewrite <-not_true_iff_false, existsb_exists. split.
  - intros H k v Hk. apply not_true_iff_false. intros Hf. apply H. exists (k, v).
    split; [|done]. by apply list_elem_of_In, elem_of_range_map.
  - intros H ([k v] & Hin & Hf). apply list_elem_of_In, elem_of_range_map in Hin.
    by rewrite (H _ _ Hin) in Hf.
Qed.

Definition insert_fresh (fresh : KeyOutcome) (m : gmap string KeyOutcome) (secret : option Secret) :=
  match secret with Some sec => <[Key sec := fresh]> m | None => m end.
Lemma insert_fresh_lookup fresh secrets m k o :
  foldl (insert_fresh fresh) m secrets !! k = Some o →
  o = fresh ∨ m !! k = Some o.
Proof.
  revert m. induction secrets as [|[sec|] secrets IH]; intros m; cbn; [by right| |by apply IH].
  intros [->|H]%IH; [by left|]. apply lookup_insert_Some in H as [[_ <-]|[_ ?]]; auto.
Qed.

(** No retained generation survives the end of its operation. *)
Lemma none_retained s k o m :
  journal_inv s → hasRetainedMetadataOperation s = false →
  Outcomes s !! k = Some o → Metadata o = Some m → referencesRetained m = false.
Proof.
  intros Hi Hret Hk Hm. pose proof (ji_outcome _ Hi _ _ Hk) as Ho.
  unfold outcome_ok in Ho. rewrite Hm in Ho. destruct Ho as [Hp _ Hr Hph].
  destruct (referencesRetained m) eqn:E; [|done]. specialize (Hr eq_refl). specialize (Hph Hr).
  assert (Hg : generationPromoted m = false).
  { rewrite (po_retention _ _ Hp) in E. by apply negb_true_iff. }
  unfold hasRetainedMetadataOperation in Hret. case_match eqn:Hc.
  - apply orb_true_iff in Hc as [Hc|Hc]; apply bool_decide_eq_true in Hc.
    + destruct (oi_id _ (ji_inv _ Hi _ _ Hk)). congruence.
    + rewrite Hc in Hph. destruct Hph. congruence.
  - rewrite existsb_range in Hret. specialize (Hret _ _ Hk). cbn in Hret.
    by rewrite (bool_decide_eq_true_2 _ Hr), Hm, Hg in Hret.
Qed.

Lemma abandon_ok s id started k o :
  journal_inv s → hasRetainedMetadataOperation s = false →
  Outcomes s !! k = Some o → OperationID s ≠ "" → oc_OperationID o ≠ id → OperationID s ≠ id →
  outcome_ok id OperationPhasePending (abandon (OperationID s) started o) ∧
  outcome_inv (abandon (OperationID s) started o) ∧
  oc_OperationID (abandon (OperationID s) started o) ≠ id.
Proof.
  intros Hi Hret Hk Hne Hid Hid'. pose proof (ji_outcome _ Hi _ _ Hk) as Ho.
  pose proof (ji_inv _ Hi _ _ Hk) as Hoi. pose proof (oi_id _ Hoi) as Hone. unfold abandon.
  match goal with |- context [if ?b then o else _] => destruct b eqn:Hab end.
  - split; [|done]. unfold outcome_ok in *. destruct (Metadata o) as [m|] eqn:Hm; [|done].
    pose proof (none_retained _ _ _ _ Hi Hret Hk Hm). destruct Ho. split; try done; congruence.
  - apply orb_false_iff in Hab as [Hab _]. split_bools.
    destruct (Metadata o) as [m|] eqn:Hm; unfold outcome_ok in *.
    + rewrite Hm in Ho. destruct Ho as [Hp _ _ _]. exfalso.
      pose proof (none_retained _ _ _ _ Hi Hret Hk Hm) as Hr. rewrite Hab in Hp.
      destruct (generationPromoted m) eqn:Hg; [by destruct (po_promoted _ _ Hp Hg)|].
      by rewrite (po_retention _ _ Hp), Hg in Hr.
    + rewrite Hm in Ho. cbn. rewrite Hm. cbn.
      rewrite (bool_decide_eq_false_2 (oc_OperationID o = "")) by done.
      split; [done|]. split; [|done]. split; cbn; rewrite ?Hm; done.
Qed.

Lemma fresh_ok id started metadata :
  id ≠ "" → (0 ≤ started)%Z →
  (∀ m, metadata = Some m → (0 ≤ CurrentGeneration m)%Z ∧ metadata_validate m started = None) →
  outcome_ok id OperationPhasePending (pending_outcome id started metadata) ∧
  outcome_inv (pending_outcome id started metadata).
Proof.
  intros Hid Hst Hm. unfold outcome_ok. cbn. split.
  - destruct metadata as [m|]; [|done]. destruct (Hm m eq_refl) as [_ Hv].
    destruct (metadata_validate_persisted _ _ Hst Hv) as [Hp Hg].
    split; try done. by left.
  - split; cbn; try done. intros m Hm'. by apply Hm.
Qed.

Definition fresh_id (id : string) (s : SyncState) : Prop :=
  OperationID s ≠ id ∧ ∀ k o, Outcomes s !! k = Some o → oc_OperationID o ≠ id.

Lemma inv_begin s id intent secrets started metadata :
  journal_inv s → fresh_id id s → (0 ≤ started)%Z →
  (∀ m, metadata = Some m → (0 ≤ CurrentGeneration m)%Z) →
  journal_inv (beginOperation id intent secrets started metadata s).1.
Proof.
  intros Hi [Hfr Hfresh] Hst Hgen. unfold beginOperation.
  destruct (hasRetainedMetadataOperation s) eqn:Hret; [done|].
  destruct (m ← normalize_metadata <$> metadata; metadata_validate m started) eqn:Hv; [done|].
  case_match eqn:Htrim; [done|]. case_match; [done|]. split_bools.
  assert (Hid : id ≠ "") by (intros ->; by apply Htrim).
  set (fresh := pending_outcome id started (normalize_metadata <$> metadata)).
  set (old := if operationPending s then abandon (OperationID s) started <$> Outcomes s
              else Outcomes s).
  assert (Hold : ∀ k o, old !! k = Some o → outcome_ok id OperationPhasePending o ∧
    outcome_inv o ∧ oc_OperationID o ≠ id).
  { intros k o. subst old. destruct (operationPending s) eqn:Hp.
    - rewrite lookup_fmap, fmap_Some. intros (o1 & Hk & ->). apply (abandon_ok _ _ _ k); auto.
      + intros E. unfold operationPending in Hp. by rewrite decide_True in Hp.
      + by eapply Hfresh.
    - intros Hk. pose proof (ji_outcome _ Hi _ _ Hk) as Ho. split; [|split].
      + unfold outcome_ok in *. destruct (Metadata o) as [m|] eqn:Hm; [|done].
        pose proof (none_retained _ _ _ _ Hi Hret Hk Hm). destruct Ho. split; try done; [congruence|].
        intros E. by destruct (Hfresh _ _ Hk).
      + by eapply ji_inv.
      + by eapply Hfresh. }
  assert (Hfo : outcome_ok id OperationPhasePending fresh ∧ outcome_inv fresh).
  { apply fresh_ok; try done. intros m' (m & Hm & ->)%fmap_Some. rewrite Hm in Hv. cbn in Hv.
    split; [exact (Hgen m Hm)|done]. }
  fold (insert_fresh fresh).
  assert (Hnew : ∀ k o, foldl (insert_fresh fresh) old secrets !! k = Some o →
    o = fresh ∨ (outcome_ok id OperationPhasePending o ∧ outcome_inv o ∧ oc_OperationID o ≠ id)).
  { intros k o [->|H']%insert_fresh_lookup; [by left|right; by apply (Hold k)]. }
  clearbody fresh. destruct Hfo as [Hf1 Hf2].
  assert (Hinv : journal_inv (with_outcomes (foldl (insert_fresh fresh) old secrets)
    (with_operation id intent started s))).
  { split; cbn; try done.
    - by destruct Hi as [[] _ _ _ _].
    - by intros k o [->|(? & ? & ?)]%Hnew.
    - by intros k o [->|(? & ? & ?)]%Hnew.
    - intros k1 o1 k2 o2 [->|(_ & _ & H1)]%Hnew [->|(_ & _ & H2)]%Hnew; done. }
  subst old. by destruct (operationPending s).
Qed.
End invariant.
