(* ===== verification/SyncFinalize.v ===== *)
(** Finishing an operation: what [FinalizeOperation] and
[RecordOperationVerification] compute on a state that satisfies the journal
invariant, and that they preserve it.

On such a state no loop ends early and no outcome is demoted, so the result is a
function of the outcomes alone, whatever order Go visits the map in. *)

From S2P Require Import Prelude GoStrings Provider Digest OpMetadata SyncState SyncInvariant.

Section finalize.
Context {MR : MapRange} {HK : HashKey}.
Implicit Types (s : SyncState) (o : KeyOutcome).

Definition owned_by (id : string) (o : KeyOutcome) : bool := bool_decide (oc_OperationID o = id).

(** * The counting loop *)

Definition o_metadata o : bool := negb (bool_decide (Metadata o = None)).
Definition o_pending o : bool :=
  negb (bool_decide (Status o = OutcomeSucceeded))
  && negb (bool_decide (Status o = OutcomeNeedsReconciliation)).
Definition o_needs o : bool := bool_decide (Status o = OutcomeNeedsReconciliation).
Definition o_unverified o : bool :=
  match Metadata o with Some m => negb (verificationPassed m) | None => false end.
Definition o_failed o : bool :=
  match Metadata o with Some m => verificationFailed m | None => false end.

Definition quiet_outcome o : Prop :=
  finalize_check o = None ∧
  (Status o = OutcomeSucceeded → outcomeCapabilityAllowsSuccess o = true).

Definition count (f : KeyOutcome → bool) (l : list (string * KeyOutcome)) : nat :=
  length (filter (λ ko, f ko.2) l).

(** Without an error and a demotion the loop only counts. *)
Lemma finalize_loop_quiet id t l :
  (∀ k o, (k, o) ∈ l → oc_OperationID o = id → quiet_outcome o) →
  ∀ acc, finalize_loop id t l acc =
    ({| t_outcomes := t_outcomes acc;
        t_owned := t_owned acc + count (owned_by id) l;
        t_metadataOwned := t_metadataOwned acc + count (λ o, owned_by id o && o_metadata o) l;
        t_hasPending := t_hasPending acc || existsb (λ ko, owned_by id ko.2 && o_pending ko.2) l;
        t_hasNeedsReconciliation :=
          t_hasNeedsReconciliation acc || existsb (λ ko, owned_by id ko.2 && o_needs ko.2) l;
        t_verificationPending :=
          t_verificationPending acc || existsb (λ ko, owned_by id ko.2 && o_unverified ko.2) l;
        t_verificationFailed :=
          t_verificationFailed acc || existsb (λ ko, owned_by id ko.2 && o_failed ko.2) l |}, None).
Proof.
  intros Hq. induction l as [|[k o] l IH]; intros acc.
  { cbn. rewrite !orb_false_r, !Nat.add_0_r. by destruct acc. }
  cbn [finalize_loop]. unfold count, owned_by in *. cbn [existsb snd].
  rewrite !filter_cons. cbn [snd].
  destruct (decide (oc_OperationID o = id)) as [He|He].
  - destruct (Hq k o) as [Hc Ha]; [set_solver|done|]. rewrite Hc.
    rewrite IH by (intros; apply (Hq k0); set_solver).
    rewrite (bool_decide_eq_true_2 _ He). cbn [andb Is_true].
    assert (Hdem : bool_decide (Status o = OutcomeSucceeded)
        && negb (outcomeCapabilityAllowsSuccess o) = false).
    { destruct (decide (Status o = OutcomeSucceeded)) as [E|E].
      - by rewrite Ha, andb_false_r by done.
      - by rewrite bool_decide_eq_false_2. }
    unfold finalize_visit. rewrite Hdem. cbn.
    unfold o_metadata, o_pending, o_needs, o_unverified, o_failed.
    f_equal. f_equal.
    + rewrite decide_True by done. cbn. lia.
    + destruct (Metadata o); cbn; [rewrite decide_True by done; cbn; lia|].
      by rewrite decide_False by tauto.
    + by rewrite orb_assoc.
    + by rewrite orb_false_r, orb_assoc.
    + by rewrite orb_assoc.
    + by rewrite orb_assoc.
  - rewrite IH by (intros; apply (Hq k0); set_solver).
    rewrite (bool_decide_eq_false_2 _ He). cbn [andb orb].
    by rewrite !decide_False by (cbn; tauto).
Qed.

(** * The promotion loop *)

(** The outcomes the promotion loop rewrites. *)
Definition promotable (id : string) o : bool :=
  owned_by id o && bool_decide (Status o = OutcomeSucceeded) && o_metadata o.
Definition promote_one (id : string) o : KeyOutcome :=
  if promotable id o then with_metadata promoteMetadata (with_hash "" o) else o.
Definition promoted_hashes (id : string) (m : gmap string KeyOutcome) : gmap string string :=
  omap (λ o, if promotable id o then Some (AcknowledgedHash o) else None) m.
Definition promoted (s : SyncState) : SyncState :=
  with_outcomes (promote_one (OperationID s) <$> Outcomes s)
    (with_hashes (promoted_hashes (OperationID s) (Outcomes s) ∪ Hashes s) s).

Lemma promote_loop_maps id l s :
  promote_loop id l s =
  with_outcomes (overwrite (promotable id) (promote_one id) l (Outcomes s))
    (with_hashes (overwrite (promotable id) AcknowledgedHash l (Hashes s)) s).
Proof.
  revert s. induction l as [|[k o] l IH]; intros s; [by destruct s|].
  cbn [promote_loop]. rewrite IH. unfold overwrite. cbn [foldl fst snd].
  unfold promote_one, promotable, owned_by, o_metadata.
  destruct (bool_decide (oc_OperationID o = id) && bool_decide (Status o = OutcomeSucceeded));
    [|done].
  destruct (Metadata o); cbn [negb andb]; [|done]. done.
Qed.

Lemma promote_loop_eq site s :
  promote_loop (OperationID s) (range_map site (Outcomes s)) s = promoted s.
Proof.
  rewrite promote_loop_maps, overwrite_range, overwrite_range_other. unfold promoted.
  f_equal. apply map_fmap_ext. intros k o _. unfold promote_one.
  by destruct (promotable _ o).
Qed.

(** * The specification of [FinalizeOperation] *)

(** Some outcome of the operation in progress has the property. *)
Definition some_current s (f : KeyOutcome → bool) : bool :=
  bool_decide (map_Exists (λ _ o, owned_by (OperationID s) o && f o) (Outcomes s)).

Definition finalized (t : time) s : stepped :=
  if negb (some_current s (λ _, true)) then (s, Some ErrOperationEmpty)
  else if some_current s o_needs || some_current s o_failed then
    (with_phase OperationPhaseNeedsReconciliation
       (match CompletedAt s with Some c => Some c | None => Some t end) s, None)
  else if some_current s o_pending then (with_phase OperationPhasePending None s, None)
  else if some_current s o_unverified
  then (with_phase OperationPhaseAwaitingVerification None s, None)
  else if decide (Phase s = OperationPhaseSucceeded) then (s, None)
  else (with_last_success t (with_phase OperationPhaseSucceeded (Some t) (promoted s)), None).

Lemma some_current_true s f :
  some_current s f = true ↔ ∃ k o, Outcomes s !! k = Some o ∧ current s o ∧ f o = true.
Proof.
  unfold some_current, current. rewrite bool_decide_eq_true. unfold map_Exists, owned_by.
  split.
  - intros (k & o & Hk & Hf). apply Is_true_true in Hf. split_bools. eauto.
  - intros (k & o & Hk & Hc & Hf). exists k, o. split; [done|].
    by rewrite (bool_decide_eq_true_2 _ Hc), Hf.
Qed.
Lemma some_current_false s f :
  some_current s f = false ↔ ∀ k o, Outcomes s !! k = Some o → current s o → f o = false.
Proof.
  rewrite <-not_true_iff_false, some_current_true. split.
  - intros H k o Hk Hc. apply not_true_iff_false. eauto 10.
  - intros H (k & o & Hk & Hc & Hf). by rewrite (H k o Hk Hc) in Hf.
Qed.

Lemma existsb_current site s f :
  existsb (λ ko, owned_by (OperationID s) ko.2 && f ko.2) (range_map site (Outcomes s))
  = some_current s f.
Proof.
  destruct (some_current s f) eqn:E.
  - apply some_current_true in E as (k & o & Hk & Hc & Hf). apply existsb_exists.
    exists (k, o). split; [by apply list_elem_of_In, elem_of_range_map|].
    unfold owned_by. cbn. by rewrite (bool_decide_eq_true_2 _ Hc).
  - rewrite existsb_range. intros k o Hk. cbn. unfold owned_by.
    destruct (decide (oc_OperationID o = OperationID s)) as [Hc|Hc].
    + rewrite (proj1 (some_current_false s f) E k o Hk Hc). by rewrite andb_false_r.
    + by rewrite bool_decide_eq_false_2.
Qed.
Lemma count_zero f l : count f l = 0 ↔ existsb (λ ko, f ko.2) l = false.
Proof.
  induction l as [|x l IH]; [done|]. unfold count in *. rewrite filter_cons. cbn.
  destruct (f x.2); cbn; [rewrite decide_True by done; cbn; split; [lia|done]|].
  by rewrite decide_False by tauto.
Qed.
Lemma count_ext f g l : (∀ k o, (k, o) ∈ l → f o = g o) → count f l = count g l.
Proof.
  intros H. unfold count. induction l as [|[k o] l IH]; [done|].
  rewrite !filter_cons. cbn. rewrite (H k o) by set_solver.
  case_decide; cbn; rewrite IH; try done; intros k1 o1 Hin; apply (H k1); set_solver.
Qed.

Lemma count_current site s f :
  count (λ o, owned_by (OperationID s) o && f o) (range_map site (Outcomes s)) = 0
  ↔ some_current s f = false.
Proof.
  rewrite count_zero. by rewrite (existsb_current site s f).
Qed.

Lemma inv_quiet s k o :
  journal_inv s → Outcomes s !! k = Some o → quiet_outcome o.
Proof.
  intros Hi Hk. pose proof (ji_outcome _ Hi _ _ Hk) as Ho. pose proof (ji_inv _ Hi _ _ Hk) as [_ _ Hal Hack _].
  split; [|done]. unfold finalize_check. unfold outcome_ok in Ho.
  destruct (Metadata o) as [m|] eqn:Hm; [|done]. destruct Ho as [Hp _ _ _].
  rewrite err_seq_None, err_if_None, validatePersisted_None. split; [done|]. split; [|done].
  destruct (decide (Status o = OutcomeSucceeded)) as [E|E];
    [|by rewrite bool_decide_eq_false_2].
  rewrite bool_decide_eq_true_2 by done. destruct (referencesRetained m) eqn:Hr; [|done].
  by rewrite (Hack m).
Qed.

(** Metadata covers the whole operation or none of it. *)
Lemma metadata_counts site s :
  journal_inv s →
  let own := count (owned_by (OperationID s)) (range_map site (Outcomes s)) in
  let md := count (λ o, owned_by (OperationID s) o && o_metadata o) (range_map site (Outcomes s)) in
  md = 0 ∨ md = own.
Proof.
  intros Hi own md. destruct (decide (md = 0)) as [|Hne]; [by left|right].
  assert (Hex : some_current s o_metadata = true).
  { apply not_false_iff_true. intros E. by apply Hne, count_current. }
  apply some_current_true in Hex as (k & o & Hk & Hc & Hm).
  apply count_ext. intros k1 o1 Hin%elem_of_range_map. unfold owned_by.
  destruct (decide (oc_OperationID o1 = OperationID s)) as [Hc1|Hc1];
    [|by rewrite bool_decide_eq_false_2].
  rewrite bool_decide_eq_true_2 by done. cbn. unfold o_metadata in *.
  rewrite negb_true_iff, bool_decide_eq_false in *. intros Hm1.
  apply Hm. by eapply (ji_uniform _ Hi k1 o1 k o).
Qed.

(** On a state of the invariant [FinalizeOperation] is its specification, whatever
the order in which the outcomes are visited. *)
Lemma FinalizeOperation_eq t s :
  journal_inv s → OperationID s ≠ "" → FinalizeOperation (OperationID s) t s = finalized t s.
Proof.
  intros Hi Hid. unfold FinalizeOperation. rewrite (proj2 (checkOperation_None s _)) by done.
  rewrite finalize_loop_quiet.
  2:{ intros k o Hin%elem_of_range_map _. by eapply inv_quiet. }
  replace (with_outcomes (t_outcomes _) s) with s by by destruct s.
  unfold finalize_decide. cbn [t_owned t_metadataOwned t_hasPending t_hasNeedsReconciliation
    t_verificationPending t_verificationFailed tally0 Nat.add orb].
  rewrite !existsb_current, promote_loop_eq. unfold finalized.
  pose proof (metadata_counts 0 s Hi) as Hmd. cbn zeta in Hmd.
  assert (Hown : (count (owned_by (OperationID s)) (range_map 0 (Outcomes s)) =? 0)
    = negb (some_current s (λ _, true))).
  { apply eq_true_iff_eq. rewrite Nat.eqb_eq, negb_true_iff, <-(count_current 0).
    rewrite (count_ext (owned_by (OperationID s)) (λ o, owned_by (OperationID s) o && true));
      [done|]. intros. by rewrite andb_true_r. }
  rewrite Hown. case_match; [done|].
  set (md := count _ _) in Hmd |- *. set (own := count (owned_by _) _) in Hmd |- *.
  replace (negb (md =? 0) && negb (md =? own)) with false.
  2:{ destruct Hmd as [->| ->]; [done|]. by rewrite Nat.eqb_refl, andb_false_r. }
  replace (negb (md =? 0) && some_current s o_unverified) with (some_current s o_unverified).
  { done. }
  destruct (Nat.eqb_spec md 0) as [E|E]; [|done].
  apply (count_current 0 s o_metadata) in E. rewrite some_current_false in E |- *.
  intros k o Hk Hc. specialize (E k o Hk Hc). unfold o_metadata, o_unverified in *.
  split_bools. by rewrite E.
Qed.

(** * The invariant *)

Lemma passed_not_failed m : verificationPassed m = true → verificationFailed m = false.
Proof.
  unfold verificationPassed, verificationFailed. intros. split_bools.
  apply orb_false_iff. rewrite !bool_decide_eq_false. unfold_states. by split; congruence.
Qed.

(** Evidence that verification is missing or failed rules the success phase out. *)
Lemma unverified_phase s k o m :
  journal_inv s → Outcomes s !! k = Some o → current s o → Metadata o = Some m →
  verificationPassed m = false → Phase s ≠ OperationPhaseSucceeded.
Proof.
  intros Hi Hk Hc Hm Hv Hph. pose proof (ji_outcome _ Hi _ _ Hk) as Ho.
  unfold outcome_ok in Ho. rewrite Hm in Ho. destruct Ho as [Hp _ _ H]. specialize (H Hc).
  rewrite Hph in H. destruct H as [H _]. destruct (po_promoted _ _ Hp H). congruence.
Qed.
Lemma o_failed_unverified o : o_failed o = true → o_unverified o = true.
Proof.
  unfold o_failed, o_unverified. destruct (Metadata o) as [m|]; [|done].
  destruct (verificationPassed m) eqn:E; [|done]. by rewrite passed_not_failed.
Qed.

Lemma inv_finalize_live s f phase c :
  journal_inv s → live phase → some_current s f = true →
  (∀ o, f o = true → Status o ≠ OutcomeSucceeded ∨ o_unverified o = true) →
  journal_inv (with_phase phase c s).
Proof.
  intros Hi Hl (k & o & Hk & Hc & Hf)%some_current_true H. apply inv_to_live; try done.
  destruct (H o Hf) as [Hs|Hu]; [by eapply unfinished_unpromoted|].
  unfold o_unverified in Hu. destruct (Metadata o) as [m|] eqn:Hm; [|done].
  apply negb_true_iff in Hu. intros k' o' m' Hk' Hc' Hm'.
  refine (not_promoted s k' o' m' Hi _ Hk' Hc' Hm').
  exact (unverified_phase _ _ _ _ Hi Hk Hc Hm Hu).
Qed.

(** Every owned outcome succeeded. *)
Definition all_succeeded s : Prop :=
  ∀ k o, Outcomes s !! k = Some o → current s o → Status o = OutcomeSucceeded.
Lemma all_succeeded_intro s :
  some_current s o_needs = false → some_current s o_pending = false → all_succeeded s.
Proof.
  rewrite !some_current_false. intros H1 H2 k o Hk Hc. specialize (H1 k o Hk Hc).
  specialize (H2 k o Hk Hc). unfold o_needs, o_pending in *. rewrite H1 in H2. split_bools.
  rewrite andb_true_r in H2. by split_bools.
Qed.

Lemma inv_to_awaiting s :
  journal_inv s → all_succeeded s → some_current s o_failed = false →
  some_current s o_unverified = true →
  journal_inv (with_phase OperationPhaseAwaitingVerification None s).
Proof.
  intros Hi Hs Hf (k & o & Hk & Hc & Hu)%some_current_true.
  unfold o_unverified in Hu. destruct (Metadata o) as [m|] eqn:Hm; [|done].
  apply negb_true_iff in Hu. pose proof (unverified_phase _ _ _ _ Hi Hk Hc Hm Hu) as Hph.
  pose proof Hi as []. split; try done.
  - by destruct ji_header.
  - cbn. intros k1 o1 Hk1. apply (outcome_ok_phase _ (Phase s)); [by eapply ji_outcome|].
    intros m1 Hm1 Hc1. apply phase_ok_awaiting.
    pose proof (not_promoted _ _ _ _ Hi Hph Hk1 Hc1 Hm1) as Hg.
    pose proof (ji_outcome _ _ Hk1) as Ho1. unfold outcome_ok in Ho1. rewrite Hm1 in Ho1.
    destruct Ho1 as [Hp1 _ _ _].
    assert (Hr : referencesRetained m1 = true) by by rewrite (po_retention _ _ Hp1), Hg.
    split; [by eapply Hs|]. split; [done|]. split.
    + eapply oi_acknowledged; try done; [by eapply ji_inv|by eapply Hs].
    + pose proof (proj1 (some_current_false _ _) Hf _ _ Hk1 Hc1) as Hf1.
      unfold o_failed in Hf1. by rewrite Hm1 in Hf1.
  - intros _. eauto 10.
Qed.

Lemma outcome_inv_promote id o m :
  outcome_inv o → Metadata o = Some m → persisted_ok m OutcomeSucceeded →
  generationPromoted m = false → promotable id o = true → verificationPassed m = true →
  outcome_inv (promote_one id o).
Proof.
  intros [Hid Hgen Hal Hack Hst] Hm Hp Hg Hpr Hv. unfold promote_one. rewrite Hpr.
  destruct (persisted_promote _ Hp Hg (Hgen _ Hm) Hv) as [_ Hg'].
  pose proof (po_retention _ _ Hp) as Hr. rewrite Hg in Hr. split; cbn; rewrite ?Hm; cbn.
  - done.
  - intros m' [= <-]. cbn. unfold referencesRetained in Hr. cbn in Hr. split_bools.
    pose proof (Hgen _ Hm). lia.
  - intros Hs. specialize (Hal Hs). unfold outcomeCapabilityAllowsSuccess, ownerRiskApproved in *.
    cbn. rewrite Hm in *. cbn. repeat case_decide; try done.
  - intros m' [= <-] _ Hr'. rewrite (promoted_not_retained _ Hg') in Hr'. done.
  - done.
Qed.

Lemma inv_promoted s t c :
  journal_inv s → all_succeeded s → some_current s o_unverified = false →
  Phase s ≠ OperationPhaseSucceeded →
  journal_inv (with_last_success t (with_phase OperationPhaseSucceeded c (promoted s))).
Proof.
  intros Hi Hs Hu Hph. pose proof Hi as [].
  assert (Hm : ∀ k o m, Outcomes s !! k = Some o → Metadata o = Some m →
    promotable (OperationID s) o = true →
    persisted_ok m OutcomeSucceeded ∧ generationPromoted m = false ∧ verificationPassed m = true).
  { intros k o m Hk Hm Hpr. unfold promotable, owned_by in Hpr. split_bools.
    pose proof (ji_outcome _ _ Hk) as Ho. unfold outcome_ok in Ho. rewrite Hm in Ho.
    destruct Ho as [Hp _ _ _]. rewrite (Hs k o) in Hp by done. split; [done|].
    split; [by eapply not_promoted|].
    pose proof (proj1 (some_current_false _ _) Hu k o Hk) as Hu'. unfold o_unverified in Hu'.
    rewrite Hm in Hu'. apply negb_false_iff, Hu'. done. }
  split; try done.
  - by destruct ji_header.
  - cbn. intros k o'. rewrite lookup_fmap, fmap_Some. intros (o & Hk & ->).
    pose proof (ji_outcome _ _ Hk) as Ho. unfold promote_one.
    destruct (promotable (OperationID s) o) eqn:Hpr.
    + unfold outcome_ok in *. cbn.
      destruct (Metadata o) as [m|] eqn:Hmd; [cbn|done].
      destruct (Hm _ _ _ Hk Hmd Hpr) as (Hp & Hg & Hv).
      destruct (persisted_promote _ Hp Hg (oi_generation _ (ji_inv _ _ Hk) _ Hmd) Hv) as [Hp' Hg'].
      unfold promotable, owned_by in Hpr. split_bools. split; cbn; try done.
      * by rewrite (Hs k o).
      * by left.
    + eapply outcome_ok_phase; [done|]. intros m Hmd Hc. exfalso.
      unfold promotable, owned_by, o_metadata in Hpr.
      rewrite (bool_decide_eq_true_2 _ Hc), (bool_decide_eq_true_2 _ (Hs k o Hk Hc)), Hmd in Hpr.
      done.
  - cbn. intros k o'. rewrite lookup_fmap, fmap_Some. intros (o & Hk & ->).
    destruct (promotable (OperationID s) o) eqn:Hpr.
    + destruct (Metadata o) as [m|] eqn:Hmd.
      * destruct (Hm _ _ _ Hk Hmd Hpr) as (Hp & Hg & Hv).
        eapply outcome_inv_promote; try done. by eapply ji_inv.
      * unfold promotable, o_metadata in Hpr. rewrite Hmd in Hpr.
        by rewrite andb_false_r in Hpr.
    + unfold promote_one. rewrite Hpr. by eapply ji_inv.
  - cbn. unfold current. cbn. intros k1 o1 k2 o2. rewrite !lookup_fmap, !fmap_Some.
    intros (o3 & H3 & ->) (o4 & H4 & ->). unfold promote_one.
    assert (Hid : ∀ o, oc_OperationID (if promotable (OperationID s) o
      then with_metadata promoteMetadata (with_hash "" o) else o) = oc_OperationID o)
      by (intros o; by destruct (promotable _ o)).
    assert (Hmn : ∀ o, Metadata (if promotable (OperationID s) o
      then with_metadata promoteMetadata (with_hash "" o) else o) = None ↔ Metadata o = None)
      by (intros o; destruct (promotable _ o); cbn; by rewrite ?fmap_None).
    rewrite !Hid, !Hmn. by apply (ji_uniform k1 o3 k2 o4).
Qed.

Lemma inv_finalized t s : journal_inv s → journal_inv (finalized t s).1.
Proof.
  intros Hi. unfold finalized. case_match; [done|].
  destruct (some_current s o_needs) eqn:Hn; [|destruct (some_current s o_failed) eqn:Hf].
  - cbn. eapply inv_finalize_live; eauto using live_needs. intros o Ho. left.
    unfold o_needs in Ho. split_bools. by rewrite Ho.
  - cbn. eapply inv_finalize_live; eauto using live_needs. intros o Ho. right.
    by apply o_failed_unverified.
  - cbn. destruct (some_current s o_pending) eqn:Hp.
    { cbn. eapply inv_finalize_live; eauto using live_pending. intros o Ho. left.
      unfold o_pending in Ho. by split_bools. }
    pose proof (all_succeeded_intro _ Hn Hp) as Hs.
    destruct (some_current s o_unverified) eqn:Hu; [by apply inv_to_awaiting|].
    case_decide; [done|]. by apply inv_promoted.
Qed.

Lemma inv_FinalizeOperation id t s : journal_inv s → journal_inv (FinalizeOperation id t s).1.
Proof.
  intros Hi. destruct (checkOperation s id) as [e|] eqn:Hc.
  - unfold FinalizeOperation. by rewrite Hc.
  - apply checkOperation_None in Hc as [Hne ->]. rewrite FinalizeOperation_eq by done.
    by apply inv_finalized.
Qed.

(** * Verification *)

(** What a verification may find for an outcome of the operation. *)
Definition acknowledged o : Prop :=
  Status o = OutcomeSucceeded ∧ is_Some (Metadata o) ∧
  validAcknowledgedHash (AcknowledgedHash o) = true.

Lemma verify_loop_ok id c p t l n s :
  (∀ k o, (k, o) ∈ l → oc_OperationID o = id → acknowledged o) →
  verify_loop id c p t l n s =
    (n + count (owned_by id) l,
     (with_outcomes (overwrite (owned_by id) (verified_outcome c p t) l (Outcomes s)) s, None)).
Proof.
  revert n s. induction l as [|[k o] l IH]; intros n s Hl.
  { cbn. rewrite Nat.add_0_r. by destruct s. }
  assert (Hl' : ∀ k o, (k, o) ∈ l → oc_OperationID o = id → acknowledged o)
    by (intros k1 o1 ?; apply (Hl k1); set_solver).
  cbn [verify_loop]. unfold count, overwrite, owned_by in *. rewrite filter_cons.
  cbn [foldl fst snd]. destruct (decide (oc_OperationID o = id)) as [He|He].
  - destruct (Hl k o) as (Hs & Hm & Hh); [set_solver|done|]. rewrite Hh.
    rewrite (bool_decide_eq_true_2 _ Hs), (bool_decide_eq_true_2 _ He).
    rewrite (bool_decide_eq_false_2 (Metadata o = None)) by by intros E; rewrite E in Hm; destruct Hm.
    cbn [negb orb]. rewrite decide_True by done. cbn [length].
    rewrite (IH _ _ Hl'). cbn. f_equal. lia.
  - rewrite (bool_decide_eq_false_2 _ He), decide_False by (cbn; tauto).
    by apply IH.
Qed.

Lemma awaiting_acknowledged s k o :
  journal_inv s → Phase s = OperationPhaseAwaitingVerification →
  Outcomes s !! k = Some o → current s o → acknowledged o.
Proof.
  intros Hi Hph Hk Hc. destruct (ji_awaiting _ Hi Hph) as (k1 & o1 & m1 & Hk1 & Hm1 & Hc1).
  pose proof (ji_outcome _ Hi _ _ Hk) as Ho. unfold outcome_ok in Ho.
  destruct (Metadata o) as [m|] eqn:Hm.
  - destruct Ho as [_ _ _ H]. specialize (H Hc). rewrite Hph in H. destruct H as (Hs & _ & Hh & _).
    split; [done|]. rewrite Hm. eauto.
  - by rewrite (ji_uniform _ Hi _ _ _ _ Hk Hk1 Hc Hc1 Hm) in Hm1.
Qed.

(** The deadline of some owned outcome has passed. *)
Definition o_late (t : time) o : bool :=
  match Metadata o with Some m => past_deadline t m | None => false end.
Definition verify_outcomes (c p : bool) (t : time) s : SyncState :=
  with_outcomes ((λ o, if owned_by (OperationID s) o then verified_outcome c p t o else o)
                   <$> Outcomes s) s.

(** The specification of [RecordOperationVerification] in the waiting phase: fail
closed past the deadline, promote when both checks passed. *)
Definition verified (canary post : bool) (t : time) s : stepped :=
  let late := some_current s (o_late t) in
  let c := canary && negb late in
  let p := post && negb late in
  let s' := verify_outcomes c p t s in
  if negb c || negb p then
    (with_phase OperationPhaseNeedsReconciliation (Some t) s',
     if late then Some ErrOperationDeadlineExceeded else None)
  else (with_last_success t (with_phase OperationPhaseSucceeded (Some t) (promoted s')), None).

(** One outcome after its verification. *)
Lemma verified_outcome_ok s c p t k o m phase :
  journal_inv s → Phase s = OperationPhaseAwaitingVerification →
  Outcomes s !! k = Some o → current s o → Metadata o = Some m →
  phase = (if c && p then OperationPhaseAwaitingVerification else OperationPhaseNeedsReconciliation) →
  outcome_ok (OperationID s) phase (verified_outcome c p t o) ∧
  outcome_inv (verified_outcome c p t o).
Proof.
  intros Hi Hph Hk Hc Hm ->. pose proof (ji_outcome _ Hi _ _ Hk) as Ho.
  pose proof (ji_inv _ Hi _ _ Hk) as [Hid Hgen Hal Hack Hst].
  destruct (awaiting_acknowledged _ _ _ Hi Hph Hk Hc) as (Hs & _ & Hh).
  unfold outcome_ok in Ho. rewrite Hm in Ho. destruct Ho as [Hp _ _ H]. specialize (H Hc).
  rewrite Hph in H. destruct H as (_ & Hr & _ & _).
  pose proof (po_retention _ _ Hp) as Hg. rewrite Hr in Hg. symmetry in Hg.
  apply negb_true_iff in Hg. rewrite Hs in Hp. unfold verified_outcome.
  set (cv := if c then VerificationStatePassed else VerificationStateFailed).
  set (pv := if c then (if p then VerificationStatePassed else VerificationStateFailed)
             else VerificationStatePending).
  assert (Hf : (if c then set_verification VerificationStatePassed
      (if p then VerificationStatePassed else VerificationStateFailed)
      else set_verification VerificationStateFailed VerificationStatePending)
    = set_verification cv pv) by by destruct c.
  rewrite Hf. assert (Hvs : validVerificationStates (set_verification cv pv m) = true).
  { subst cv pv. by destruct c, p. }
  pose proof (persisted_verified _ _ _ _ Hp Hg ltac:(done) Hvs) as Hpv.
  destruct (c && p) eqn:Hcp.
  - apply andb_true_iff in Hcp as [-> ->]. split.
    + unfold outcome_ok. cbn. rewrite Hm. cbn. split; cbn; [by rewrite Hs|auto|auto|].
      intros _. split; [done|]. done.
    + split; cbn; rewrite ?Hm; cbn; try done; [by intros m' [= <-]; cbn; apply Hgen|].
      intros _. specialize (Hal Hs). unfold outcomeCapabilityAllowsSuccess, ownerRiskApproved in *.
      cbn. rewrite Hm in *. cbn. done.
  - split.
    + unfold outcome_ok. cbn. rewrite Hm. cbn. split; cbn; [|auto|auto|].
      * apply (persisted_needs _ _ Hpv Hg).
      * intros _. done.
    + split; cbn; rewrite ?Hm; cbn; try done. intros m' [= <-]. cbn. by apply Hgen.
Qed.

Lemma inv_verify_outcomes s c p t phase cp :
  journal_inv s → Phase s = OperationPhaseAwaitingVerification →
  phase = (if c && p then OperationPhaseAwaitingVerification else OperationPhaseNeedsReconciliation) →
  journal_inv (with_phase phase cp (verify_outcomes c p t s)).
Proof.
  intros Hi Hph Hphase. pose proof Hi as [].
  assert (Hmd : ∀ k o, Outcomes s !! k = Some o → current s o → is_Some (Metadata o)).
  { intros k o Hk Hc. by destruct (awaiting_acknowledged _ _ _ Hi Hph Hk Hc) as (_ & ? & _). }
  assert (Hnew : ∀ k o, Outcomes s !! k = Some o →
    let o' := if owned_by (OperationID s) o then verified_outcome c p t o else o in
    outcome_ok (OperationID s) phase o' ∧ outcome_inv o' ∧ oc_OperationID o' = oc_OperationID o
    ∧ (Metadata o' = None ↔ Metadata o = None)).
  { intros k o Hk. cbn. unfold owned_by. case_bool_decide as Hc.
    - destruct (Hmd _ _ Hk Hc) as [m Hm].
      destruct (verified_outcome_ok s c p t k o m phase) as [? ?]; try done.
      split; [done|]. split; [done|]. unfold verified_outcome.
      destruct (c && p); cbn; by rewrite !fmap_None.
    - split; [|split; [by eapply ji_inv|done]]. eapply outcome_ok_phase; [by eapply ji_outcome|].
      intros. done. }
  split; try done.
  - by destruct ji_header.
  - cbn. intros k o'. rewrite lookup_fmap, fmap_Some. intros (o & Hk & ->). by apply (Hnew k).
  - cbn. intros ->. destruct (ji_awaiting Hph) as (k & o & m & Hk & Hm & Hc).
    destruct (Hnew _ _ Hk) as (_ & _ & Hid & Hn). cbn in Hid, Hn.
    eexists k, _. rewrite lookup_fmap, Hk. cbn.
    destruct (Metadata (if owned_by (OperationID s) o then verified_outcome c p t o else o)) as [m'|]
      eqn:E; [|by rewrite (proj1 Hn eq_refl) in Hm].
    exists m'. split; [done|]. split; [done|]. unfold current in *. cbn. by rewrite Hid.
  - cbn. intros k o'. rewrite lookup_fmap, fmap_Some. intros (o & Hk & ->). by apply (Hnew k).
  - cbn. unfold current. cbn. intros k1 o1 k2 o2. rewrite !lookup_fmap, !fmap_Some.
    intros (o3 & H3 & ->) (o4 & H4 & ->).
    destruct (Hnew _ _ H3) as (_ & _ & Hid3 & Hn3). destruct (Hnew _ _ H4) as (_ & _ & Hid4 & Hn4).
    cbn in *. rewrite Hid3, Hid4, Hn3, Hn4. by apply (ji_uniform k1 o3 k2 o4).
Qed.

Lemma inv_verify_passed s t :
  journal_inv s → Phase s = OperationPhaseAwaitingVerification →
  journal_inv (verify_outcomes true true t s).
Proof.
  intros Hi Hph. pose proof (inv_verify_outcomes s true true t _ (CompletedAt s) Hi Hph eq_refl) as H.
  cbn [andb] in H. rewrite <-Hph in H. by destruct s.
Qed.

(** After a passed verification every owned outcome carries its evidence. *)
Lemma verify_passed_lookup s t k o :
  journal_inv s → Phase s = OperationPhaseAwaitingVerification →
  Outcomes (verify_outcomes true true t s) !! k = Some o → oc_OperationID o = OperationID s →
  Status o = OutcomeSucceeded ∧ ∃ m, Metadata o = Some m ∧ verificationPassed m = true.
Proof.
  intros Hi Hph. cbn. rewrite lookup_fmap, fmap_Some. intros (o1 & Hk & ->) Hc.
  assert (Hc1 : current s o1) by by unfold current; destruct (owned_by (OperationID s) o1).
  destruct (awaiting_acknowledged _ _ _ Hi Hph Hk Hc1) as (Hs & [m Hm] & _).
  unfold owned_by. rewrite (bool_decide_eq_true_2 _ Hc1). split; [done|].
  unfold verified_outcome. cbn. rewrite Hm. cbn. eauto.
Qed.

Lemma finalized_verified s t :
  journal_inv s → Phase s = OperationPhaseAwaitingVerification →
  finalized t (verify_outcomes true true t s) =
  (with_last_success t (with_phase OperationPhaseSucceeded (Some t)
     (promoted (verify_outcomes true true t s))), None).
Proof.
  intros Hi Hph. set (s' := verify_outcomes true true t s).
  pose proof (inv_verify_passed s t Hi Hph) as Hi'.
  assert (Hall : ∀ f, (∀ o m, Status o = OutcomeSucceeded → Metadata o = Some m →
    verificationPassed m = true → f o = false) → some_current s' f = false).
  { intros f Hf. apply some_current_false. intros k o Hk Hc.
    destruct (verify_passed_lookup _ _ _ _ Hi Hph Hk Hc) as (Hs & m & Hm & Hv). by eapply Hf. }
  unfold finalized. replace (some_current s' (λ _, true)) with true.
  2:{ symmetry. apply some_current_true.
      destruct (ji_awaiting _ Hi' Hph) as (k & o & m & Hk & _ & Hc). eauto. }
  cbn [negb]. rewrite !Hall; cbn [orb].
  - by rewrite decide_False by (cbn; rewrite Hph; done).
  - intros o m _ Hm Hv. unfold o_unverified. by rewrite Hm, Hv.
  - intros o m Hs _ _. unfold o_pending. by rewrite Hs.
  - intros o m _ Hm Hv. unfold o_failed. rewrite Hm. by apply passed_not_failed.
  - intros o m Hs _ _. unfold o_needs. by rewrite Hs.
Qed.

(** On a state of the invariant [RecordOperationVerification] is its specification. *)
Lemma RecordOperationVerification_eq canary post t s :
  journal_inv s → OperationID s ≠ "" → Phase s = OperationPhaseAwaitingVerification →
  RecordOperationVerification (OperationID s) canary post t s = verified canary post t s.
Proof.
  intros Hi Hid Hph. unfold RecordOperationVerification.
  rewrite (proj2 (checkOperation_None s _)) by done.
  rewrite (bool_decide_eq_true_2 _ Hph). cbn [negb].
  assert (Hlate : deadline_exceeded (OperationID s) t s = some_current s (o_late t)).
  { unfold deadline_exceeded. apply (existsb_current 2 s (o_late t)). }
  rewrite Hlate. unfold verified. set (late := some_current s (o_late t)).
  rewrite verify_loop_ok.
  2:{ intros k o Hin%elem_of_range_map Hc. by eapply awaiting_acknowledged. }
  rewrite overwrite_range. fold (verify_outcomes (canary && negb late) (post && negb late) t s).
  replace (0 + count _ _ =? 0) with false.
  2:{ symmetry. apply Nat.eqb_neq. cbn. rewrite count_zero.
      destruct (ji_awaiting _ Hi Hph) as (k & o & m & Hk & _ & Hc).
      rewrite existsb_range. intros H. specialize (H k o Hk). cbn in H.
      unfold owned_by in H. by rewrite (bool_decide_eq_true_2 _ Hc) in H. }
  destruct (canary && negb late); [|done]. destruct (post && negb late); [|done]. cbn [negb orb].
  change (OperationID s) with (OperationID (verify_outcomes true true t s)).
  rewrite FinalizeOperation_eq; [by apply finalized_verified| |done].
  by apply inv_verify_passed.
Qed.

Lemma inv_verified canary post t s :
  journal_inv s → Phase s = OperationPhaseAwaitingVerification →
  journal_inv (verified canary post t s).1.
Proof.
  intros Hi Hph. unfold verified. case_match eqn:E.
  - cbn. apply inv_verify_outcomes; try done.
    destruct (canary && _), (post && _); done.
  - apply orb_false_iff in E as [E1 E2]. apply negb_false_iff in E1, E2. rewrite E1, E2.
    rewrite <-finalized_verified by done. apply inv_finalized. by apply inv_verify_passed.
Qed.

Lemma inv_RecordOperationVerification id canary post t s :
  journal_inv s → journal_inv (RecordOperationVerification id canary post t s).1.
Proof.
  intros Hi. destruct (checkOperation s id) as [e|] eqn:Hc.
  { unfold RecordOperationVerification. by rewrite Hc. }
  pose proof Hc as Hc'. apply checkOperation_None in Hc as [Hne ->].
  destruct (decide (Phase s = OperationPhaseAwaitingVerification)) as [Hph|Hph].
  - rewrite RecordOperationVerification_eq by done. by apply inv_verified.
  - unfold RecordOperationVerification. by rewrite Hc', bool_decide_eq_false_2.
Qed.
End finalize.
