(* ===== verification/SyncJournal.v ===== *)
(** The sync journal as a state machine, and what the journal guarantees.

[journal_step] has one rule per method of [SyncState] (and per assignment the
sync command makes), applied to any arguments; a failed method is a step too.
The theorems: every reachable state can be saved, the drift cache changes only
for acknowledged and verified values, finishing does not depend on map order,
verification fails closed, an interrupted operation can be recovered. *)

From S2P Require Import Prelude GoStrings Provider Digest OpMetadata SyncState SyncInvariant SyncFinalize.

Section journal.
Context {MR : MapRange} {HK : HashKey}.
Implicit Types (s : SyncState) (o : KeyOutcome) (t : time).

(** * Steps *)

(** The identity the sync command stores after it began an operation. *)
Definition set_identity (method source digest : string) (s : SyncState) : SyncState :=
  {| st_Target := st_Target s; st_ID := st_ID s; Hashes := Hashes s; Updated := Updated s;
     HashDomain := HashDomain s; OperationMethod := method; SourceIdentity := source;
     st_SourceDigest := digest; OperationID := OperationID s; Phase := Phase s;
     Intent := Intent s; StartedAt := StartedAt s; CompletedAt := CompletedAt s;
     LastSuccess := LastSuccess s; Outcomes := Outcomes s |}.

Inductive journal_step : SyncState → SyncState → Prop :=
| step_begin s id intent secrets t metadata :
    fresh_id id s → (0 ≤ t)%Z → (∀ m, metadata = Some m → (0 ≤ CurrentGeneration m)%Z) →
    journal_step s (beginOperation id intent secrets t metadata s).1
| step_success s id secret t :
    journal_step s (RecordKeySuccess id secret t s).1
| step_needs s id secret t :
    journal_step s (RecordKeyNeedsReconciliation id secret t s).1
| step_approve s id key t :
    journal_step s (ApproveOwnerRiskReconciliation id key t s).1
| step_finalize s id t :
    journal_step s (FinalizeOperation id t s).1
| step_verify s id canary post t :
    journal_step s (RecordOperationVerification id canary post t s).1
| step_identity s method source secrets :
    method = "" ∨ validOperationReference method = true → String.length source ≤ 512 →
    journal_step s (set_identity method source (SourceDigest secrets) s)
| step_reset s : journal_step s (reset_domain s).

Definition reachable (target id : string) (s : SyncState) : Prop :=
  rtc journal_step (NewSyncState target id) s.

(** * Batches are sequences of steps *)

Lemma checkOperation_ok s id : checkOperation s id = None → id ≠ "" ∧ id = OperationID s.
Proof. apply checkOperation_None. Qed.

Lemma recordKeySuccess_id s id secret t :
  OperationID (recordKeySuccess id secret t s).1 = OperationID s.
Proof.
  unfold recordKeySuccess, acknowledge, rejectCapability.
  repeat (case_match; try done).
Qed.
Lemma recordKeyNeeds_id s id secret t :
  OperationID (recordKeyNeedsReconciliation id secret t s).1 = OperationID s.
Proof. unfold recordKeyNeedsReconciliation. repeat (case_match; try done). Qed.

Lemma record_each_steps (f : option Secret → SyncState → stepped) id secrets s :
  (∀ secret s, OperationID s = id → journal_step s (f secret s).1 ∧ OperationID (f secret s).1 = id) →
  OperationID s = id →
  rtc journal_step s (record_each f secrets s).1 ∧ OperationID (record_each f secrets s).1 = id.
Proof.
  intros Hf. revert s. induction secrets as [|secret secrets IH]; intros s Hid; cbn.
  { split; [constructor|done]. }
  destruct (Hf secret s Hid) as [Hs Hs']. destruct (f secret s) as [s' [e|]]; cbn in *.
  { split; [by apply rtc_once|done]. }
  destruct (IH s' Hs') as [H1 H2]. split; [by econstructor|done].
Qed.

Lemma key_success_step s id secret t :
  id ≠ "" → OperationID s = id → journal_step s (recordKeySuccess id secret t s).1.
Proof.
  intros Hne Hid. pose proof (step_success s id secret t) as H.
  unfold RecordKeySuccess in H. by rewrite (proj2 (checkOperation_None s id)) in H.
Qed.
Lemma key_needs_step s id secret t :
  id ≠ "" → OperationID s = id → journal_step s (recordKeyNeedsReconciliation id secret t s).1.
Proof.
  intros Hne Hid. pose proof (step_needs s id secret t) as H.
  unfold RecordKeyNeedsReconciliation in H. by rewrite (proj2 (checkOperation_None s id)) in H.
Qed.

(** [RecordSuccess] and [RecordNeedsReconciliation] are sequences of steps. *)
Lemma RecordSuccess_steps s id secrets t : rtc journal_step s (RecordSuccess id secrets t s).1.
Proof.
  unfold RecordSuccess. destruct (err_seq _ _) eqn:E; [constructor|].
  apply err_seq_None in E as [[Hne Hid]%checkOperation_ok _].
  destruct (record_each_steps (λ secret, recordKeySuccess id secret t) id secrets s) as [H1 H2]; [|done|].
  { intros secret s1 Hs1. rewrite recordKeySuccess_id. split; [by apply key_success_step|done]. }
  destruct (record_each _ secrets s) as [s' [e|]]; cbn in *; [done|].
  eapply rtc_r; [exact H1|]. apply step_finalize.
Qed.
Lemma RecordNeedsReconciliation_steps s id secrets t :
  rtc journal_step s (RecordNeedsReconciliation id secrets t s).1.
Proof.
  unfold RecordNeedsReconciliation. destruct (err_seq _ _) eqn:E; [constructor|].
  apply err_seq_None in E as [[Hne Hid]%checkOperation_ok _].
  apply (record_each_steps (λ secret, recordKeyNeedsReconciliation id secret t) id); [|done].
  intros secret s1 Hs1. rewrite recordKeyNeeds_id. split; [by apply key_needs_step|done].
Qed.

(** * The invariant holds on every reachable state *)

Lemma inv_new target id : journal_inv (NewSyncState target id).
Proof.
  split; cbn; try (intros; simplify_map_eq).
  split; cbn; [by left|lia|by left].
Qed.

Lemma inv_step s s' :
  hashKeyIsEphemeral = false → journal_inv s → journal_step s s' → journal_inv s'.
Proof.
  intros He Hi Hs. destruct Hs.
  - by apply inv_begin.
  - unfold RecordKeySuccess. destruct (checkOperation s id) eqn:Hc; [done|].
    apply checkOperation_None in Hc as [_ ->]. by apply inv_recordKeySuccess.
  - unfold RecordKeyNeedsReconciliation. destruct (checkOperation s id) eqn:Hc; [done|].
    apply checkOperation_None in Hc as [_ ->]. by apply inv_recordKeyNeeds.
  - by apply inv_approve.
  - by apply inv_FinalizeOperation.
  - by apply inv_RecordOperationVerification.
  - destruct Hi. split; try done. split; cbn; [done|done|]. right. apply hashSecret_valid.
  - destruct Hi as [[]]. split; cbn; try (intros; simplify_map_eq). split; cbn; [done|done|by left].
Qed.
Lemma inv_reachable target id s :
  hashKeyIsEphemeral = false → reachable target id s → journal_inv s.
Proof.
  intros He Hr. pose proof (inv_new target id) as Hi. unfold reachable in Hr.
  induction Hr; [done|]. apply IHHr. by eapply inv_step.
Qed.
(** * What a step does to one key *)

(** The life of a key under one operation. *)
Inductive key_phase := KPending | KAcknowledged | KNeeds | KApproved | KDone.
Definition abs_outcome (o : KeyOutcome) : option key_phase :=
  if decide (Status o = OutcomePending) then Some KPending
  else if decide (Status o = OutcomeNeedsReconciliation)
  then Some (if ownerRiskApproved o then KApproved else KNeeds)
  else if decide (Status o = OutcomeSucceeded) then
    Some (match Metadata o with
          | Some m => if generationPromoted m then KDone else KAcknowledged
          | None => KDone
          end)
  else None.

Inductive key_step : option key_phase → option key_phase → Prop :=
| key_stay a : key_step a a
| key_ack : key_step (Some KPending) (Some KAcknowledged)
| key_done : key_step (Some KPending) (Some KDone)
| key_ambiguous : key_step (Some KPending) (Some KNeeds)
| key_approve : key_step (Some KNeeds) (Some KApproved)
| key_resolved : key_step (Some KApproved) (Some KAcknowledged)
| key_verified : key_step (Some KAcknowledged) (Some KDone)
| key_refuted : key_step (Some KAcknowledged) (Some KNeeds).

(** The outcome of one key before and after: untouched unless it belongs to the
operation, and then moved along the life cycle. *)
Definition key_moves (s : SyncState) (o o' : KeyOutcome) : Prop :=
  o' = o ∨ (current s o ∧ oc_OperationID o' = oc_OperationID o
            ∧ key_step (abs_outcome o) (abs_outcome o')).

Lemma abs_pending o : Status o = OutcomePending → abs_outcome o = Some KPending.
Proof. intros H. unfold abs_outcome. by rewrite decide_True. Qed.
Lemma abs_needs o :
  Status o = OutcomeNeedsReconciliation →
  abs_outcome o = Some (if ownerRiskApproved o then KApproved else KNeeds).
Proof. intros H. unfold abs_outcome. by rewrite H. Qed.
Lemma abs_succeeded o :
  Status o = OutcomeSucceeded →
  abs_outcome o = Some (match Metadata o with
                        | Some m => if generationPromoted m then KDone else KAcknowledged
                        | None => KDone end).
Proof. intros H. unfold abs_outcome. by rewrite H. Qed.

Lemma needs_not_approved t o : ownerRiskApproved (needs_reconciliation t o) = false.
Proof.
  unfold ownerRiskApproved. cbn. destruct (Metadata o) as [m|]; cbn; [|done].
  unfold reconciliationStateFor. destruct (bool_decide (md_Capability m = _)); done.
Qed.
Lemma abs_needs_reconciliation t o : abs_outcome (needs_reconciliation t o) = Some KNeeds.
Proof. by rewrite abs_needs, needs_not_approved. Qed.

(** The states of an outcome that passed [validatePersisted]. *)
Lemma status_cases s k o :
  journal_inv s → Outcomes s !! k = Some o → is_Some (Metadata o) →
  Status o = OutcomePending ∨ Status o = OutcomeSucceeded ∨ Status o = OutcomeNeedsReconciliation.
Proof.
  intros Hi Hk [m Hm]. pose proof (ji_outcome _ Hi _ _ Hk) as Ho. unfold outcome_ok in Ho.
  rewrite Hm in Ho. destruct Ho as [[Hs _ _ _ _ _ _ _ _] _ _ _].
  unfold valid_status in Hs. rewrite !orb_true_iff, !bool_decide_eq_true in Hs. tauto.
Qed.

Lemma moves_store s k o o' k' o1 :
  Outcomes s !! k = Some o → key_moves s o o' → Outcomes s !! k' = Some o1 →
  ∃ o2, Outcomes (store k o' s) !! k' = Some o2 ∧ key_moves s o1 o2.
Proof.
  intros Hk Hm Hk'. cbn. destruct (decide (k = k')) as [<-|Hne].
  - rewrite lookup_insert_eq. exists o'. split; [done|]. congruence.
  - rewrite lookup_insert_ne by done. exists o1. split; [done|by left].
Qed.
Lemma moves_same s s' k o :
  Outcomes s' = Outcomes s → Outcomes s !! k = Some o →
  ∃ o', Outcomes s' !! k = Some o' ∧ key_moves s o o'.
Proof. intros -> Hk. exists o. split; [done|by left]. Qed.

(** ** The moves of each method *)

Definition moves (s s' : SyncState) : Prop :=
  ∀ k o, Outcomes s !! k = Some o → ∃ o', Outcomes s' !! k = Some o' ∧ key_moves s o o'.

Lemma moves_refl s : moves s s.
Proof. intros k o Hk. by apply moves_same. Qed.
Lemma moves_outcomes s s' : Outcomes s' = Outcomes s → moves s s'.
Proof. intros He k o Hk. by apply moves_same. Qed.
Lemma moves_with_store s s' k o o' :
  Outcomes s !! k = Some o → key_moves s o o' → Outcomes s' = Outcomes (store k o' s) → moves s s'.
Proof. intros Hk Hm He k1 o1 Hk1. rewrite He. by eapply moves_store. Qed.

Lemma key_moves_needs s o t :
  current s o → valid_status (Status o) = true → Status o ≠ OutcomeSucceeded →
  Status o ≠ OutcomeNeedsReconciliation → key_moves s o (needs_reconciliation t o).
Proof.
  intros Hc Hv H1 H2. right. split; [done|]. split; [done|]. rewrite abs_needs_reconciliation.
  rewrite abs_pending; [constructor|]. unfold valid_status in Hv.
  rewrite !orb_true_iff, !bool_decide_eq_true in Hv. tauto.
Qed.

Lemma moves_recordKeySuccess s secret t :
  hashKeyIsEphemeral = false → journal_inv s →
  moves s (recordKeySuccess (OperationID s) secret t s).1.
Proof.
  intros He Hi. unfold recordKeySuccess.
  destruct (ownedOutcome _ _ _) as [[sec o]|] eqn:Ho; [|apply moves_refl].
  apply ownedOutcome_Ok in Ho as (_ & _ & Hk & Hc). rewrite He.
  destruct (m ← Metadata o; validatePersisted m (Status o)); [apply moves_refl|].
  pose proof (oi_status _ (ji_inv _ Hi _ _ Hk)) as Hv.
  case_decide as Hs. { repeat case_match; apply moves_refl. }
  assert (Hrej : ∀ e, moves s (rejectCapability (Key sec) o t e s).1).
  { intros e. unfold rejectCapability. case_decide; [apply moves_refl|].
    eapply moves_with_store; [done|by apply key_moves_needs|done]. }
  assert (Hack : (∀ m, Metadata o = Some m → generationPromoted m = false) →
    moves s (acknowledge sec o t s).1).
  { intros Hg. unfold acknowledge. case_match eqn:Hnr; [apply moves_refl|].
    assert (Habs : abs_outcome o = Some KPending ∨
      (abs_outcome o = Some KApproved ∧ is_Some (Metadata o))).
    { unfold valid_status in Hv. rewrite !orb_true_iff, !bool_decide_eq_true in Hv.
      destruct Hv as [[Hp|]|Hn]; [left; by apply abs_pending|done|right].
      rewrite abs_needs by done. rewrite (bool_decide_eq_true_2 _ Hn) in Hnr. cbn in Hnr.
      apply negb_false_iff in Hnr. rewrite Hnr. split; [done|].
      apply ownerRiskApproved_spec in Hnr as (m & -> & _). eauto. }
    cbn [Metadata with_status]. destruct (Metadata o) as [m|] eqn:Hm.
    - eapply moves_with_store; [done| |done]. right. split; [done|]. split; [done|].
      rewrite (abs_succeeded (with_hash _ _)) by done. cbn. rewrite Hm, (Hg _ eq_refl).
      destruct Habs as [->|[-> _]]; constructor.
    - eapply moves_with_store; [done| |done]. right. split; [done|]. split; [done|].
      rewrite (abs_succeeded (with_status _ _ _)) by done. cbn. rewrite Hm.
      destruct Habs as [->|[_ [? ?]]]; [constructor|done]. }
  destruct (Metadata o) as [m|] eqn:Hm; [|by apply Hack].
  case_match; [apply Hrej|]. destruct (capability_rejection o m); [apply Hrej|].
  apply Hack. intros m' [= <-].
  by destruct (unfinished_live _ _ _ _ Hi Hk Hc Hm Hs) as (_ & ? & _).
Qed.

Lemma moves_recordKeyNeeds s secret t :
  journal_inv s → moves s (recordKeyNeedsReconciliation (OperationID s) secret t s).1.
Proof.
  intros Hi. unfold recordKeyNeedsReconciliation.
  destruct (ownedOutcome _ _ _) as [[sec o]|] eqn:Ho; [|apply moves_refl].
  apply ownedOutcome_Ok in Ho as (_ & _ & Hk & Hc).
  destruct (m ← Metadata o; validatePersisted m (Status o)); [apply moves_refl|].
  repeat case_decide; try apply moves_refl.
  eapply moves_with_store; [done| |done]. apply key_moves_needs; try done.
  apply (oi_status _ (ji_inv _ Hi _ _ Hk)).
Qed.

Lemma moves_approve s id key t :
  moves s (ApproveOwnerRiskReconciliation id key t s).1.
Proof.
  unfold ApproveOwnerRiskReconciliation.
  destruct (checkOperation s id) eqn:Hc; [apply moves_refl|].
  apply checkOperation_None in Hc as [_ ->].
  destruct (Outcomes s !! key) as [o|] eqn:Hk; [|apply moves_refl].
  case_match eqn:Hid; [apply moves_refl|]. split_bools.
  destruct (Metadata o) as [m|] eqn:Hm; [|apply moves_refl].
  case_match eqn:Hs; [apply moves_refl|]. split_bools.
  destruct (validatePersisted m (Status o)); [apply moves_refl|].
  case_match eqn:Hcap; [apply moves_refl|]. split_bools.
  case_decide as Hnap; [apply moves_refl|]. eapply moves_with_store; [done| |done].
  right. split; [done|]. split; [done|]. rewrite abs_needs by done.
  rewrite (abs_needs (with_status _ _ _)) by done.
  assert (ownerRiskApproved o = false) as ->.
  { unfold ownerRiskApproved. by rewrite Hm, (bool_decide_eq_false_2 _ Hnap), andb_false_r. }
  unfold ownerRiskApproved. cbn. rewrite Hm. cbn.
  rewrite (bool_decide_eq_true_2 _ Hcap). constructor.
Qed.

Lemma moves_promoted s s' :
  journal_inv s → Phase s ≠ OperationPhaseSucceeded → (∀ k o, Outcomes s !! k = Some o →
    current s o → o_unverified o = false) →
  Outcomes s' = Outcomes (promoted s) → moves s s'.
Proof.
  intros Hi Hph Hu He k o Hk. rewrite He. cbn. rewrite lookup_fmap, Hk. cbn.
  eexists. split; [done|]. unfold promote_one, promotable, owned_by, o_metadata.
  case_match eqn:Hpr; [|by left]. split_bools.
  destruct (Metadata o) as [m|] eqn:Hm; [|done]. right. split; [done|]. split; [done|].
  rewrite !abs_succeeded by done. cbn. rewrite Hm. cbn.
  assert (Hg : generationPromoted m = false) by by apply (not_promoted s k o m). rewrite Hg.
  pose proof (ji_outcome _ Hi _ _ Hk) as Ho. unfold outcome_ok in Ho. rewrite Hm in Ho.
  destruct Ho as [Hp _ _ _]. match goal with H : Status o = _ |- _ => rewrite H in Hp end.
  specialize (Hu k o Hk ltac:(done)). unfold o_unverified in Hu. rewrite Hm in Hu.
  apply negb_false_iff in Hu.
  destruct (persisted_promote m Hp Hg (oi_generation _ (ji_inv _ Hi _ _ Hk) _ Hm) Hu) as [_ ->].
  constructor.
Qed.

Lemma moves_finalized t s : journal_inv s → moves s (finalized t s).1.
Proof.
  intros Hi. unfold finalized. repeat (case_match; try by apply moves_outcomes).
  apply moves_promoted; try done. by apply some_current_false.
Qed.
Lemma moves_finalize id t s : journal_inv s → moves s (FinalizeOperation id t s).1.
Proof.
  intros Hi. destruct (checkOperation s id) as [e|] eqn:Hc.
  - unfold FinalizeOperation. rewrite Hc. apply moves_refl.
  - apply checkOperation_None in Hc as [Hne ->]. rewrite FinalizeOperation_eq by done.
    by apply moves_finalized.
Qed.

Lemma moves_verify id canary post t s :
  journal_inv s → moves s (RecordOperationVerification id canary post t s).1.
Proof.
  intros Hi. destruct (checkOperation s id) as [e|] eqn:Hc.
  { unfold RecordOperationVerification. rewrite Hc. apply moves_refl. }
  pose proof Hc as Hc'. apply checkOperation_None in Hc as [Hne ->].
  destruct (decide (Phase s = OperationPhaseAwaitingVerification)) as [Hph|Hph].
  2:{ unfold RecordOperationVerification. rewrite Hc', bool_decide_eq_false_2 by done.
      apply moves_refl. }
  rewrite RecordOperationVerification_eq by done. unfold verified.
  assert (Hack : ∀ k o, Outcomes s !! k = Some o → current s o →
    abs_outcome o = Some KAcknowledged).
  { intros k o Hk Hcur. destruct (awaiting_acknowledged _ _ _ Hi Hph Hk Hcur) as (Hs & [m Hm] & _).
    rewrite abs_succeeded, Hm by done. by rewrite (not_promoted s k o m) by by rewrite ?Hph. }
  case_match eqn:Hv.
  - intros k o Hk. cbn. rewrite lookup_fmap, Hk. cbn. eexists. split; [done|].
    unfold owned_by. case_bool_decide as Hcur; [|by left]. right. split; [done|].
    rewrite (Hack _ _ Hk Hcur). unfold verified_outcome.
    replace (canary && _ && _) with false.
    2:{ destruct (canary && _), (post && _); done. }
    split; [done|]. rewrite abs_needs_reconciliation. constructor.
  - apply orb_false_iff in Hv as [H1 H2]. apply negb_false_iff in H1, H2. rewrite H1, H2.
    intros k o Hk. pose proof (inv_verify_passed s t Hi Hph) as Hi'.
    set (s1 := verify_outcomes true true t s) in *.
    destruct (moves_promoted s1 (promoted s1) Hi') with
      (k := k) (o := if owned_by (OperationID s) o then verified_outcome true true t o else o)
      as (o' & Hk' & Hm); [by cbn; rewrite Hph| | | |].
    + intros k1 o1 Hk1 Hc1. destruct (verify_passed_lookup _ _ _ _ Hi Hph Hk1 Hc1) as (_ & m & Hm & Hp).
      unfold o_unverified. by rewrite Hm, Hp.
    + done.
    + cbn. by rewrite lookup_fmap, Hk.
    + exists o'. split; [done|]. unfold owned_by in Hm. case_bool_decide as Hcur.
      * assert (Habs : abs_outcome (verified_outcome true true t o) = Some KAcknowledged).
        { destruct (awaiting_acknowledged _ _ _ Hi Hph Hk Hcur) as (Hs & [m Hmd] & _).
          unfold verified_outcome. rewrite abs_succeeded by done. cbn. rewrite Hmd. cbn.
          change (generationPromoted (set_verification ?a ?b m)) with (generationPromoted m).
          by rewrite (not_promoted s k o m) by by rewrite ?Hph. }
        right. split; [done|]. rewrite (Hack _ _ Hk Hcur).
        destruct Hm as [->|(_ & Hid & Hst)]; [rewrite Habs; by split; [|constructor]|].
        rewrite Habs in Hst. done.
      * destruct Hm as [->|(Hc1 & _)]; [by left|]. done.
Qed.
End journal.

(** C1: every state the journal can reach, through any sequence of operations and
failures, passes the check that [SaveSyncState] and [LoadSyncState] apply, and
saving then loading it again gives the same state: the journal never writes
itself into a state it would refuse.  (Operation ids are fresh and the hash key
is not the process-random one; see [ephemeral_key_breaks_save] for that case.) *)
Theorem journal_always_savable `{MR : MapRange, HK : HashKey} target id s now :
  hashKeyIsEphemeral = false → reachable target id s →
  ∃ saved, saved_state now s = Ok saved ∧
    (∀ data decode, decode data = Some saved →
      LoadSyncState (Ok (Some data)) decode (st_Target s) (st_ID s) = Ok saved).
Proof.
  intros He Hr. pose proof (inv_reachable _ _ _ He Hr) as Hi.
  pose proof (journal_inv_saved _ Hi) as Hv. unfold saved_state. rewrite Hv. cbn.
  eexists. split; [done|]. intros data decode Hd. unfold LoadSyncState. rewrite Hd. cbn.
  rewrite !(bool_decide_eq_true_2 (_ = _)) by done. cbn.
  erewrite (journal_inv_saved _); [done|]. destruct Hi as [[]]. split; try done.
Qed.

(** C2: while an operation is in progress every key follows its life cycle,
whatever step is taken and whether or not it fails: pending keys are acknowledged
or become ambiguous, an ambiguous key is resolved only after an explicit
owner-risk approval, an acknowledged key is done only once verified; keys of
other operations do not change at all. *)
Theorem key_life_cycle `{MR : MapRange, HK : HashKey} target id s s' k o :
  hashKeyIsEphemeral = false → reachable target id s → journal_step s s' →
  OperationID s ≠ "" → OperationID s' = OperationID s → Outcomes s !! k = Some o →
  ∃ o', Outcomes s' !! k = Some o' ∧
    (o' = o ∨ (current s o ∧ oc_OperationID o' = oc_OperationID o
               ∧ key_step (abs_outcome o) (abs_outcome o'))).
Proof.
  intros He Hr Hs Hne Hid. pose proof (inv_reachable _ _ _ He Hr) as Hi.
  cut (moves s s'); [intros Hm; apply Hm|]. destruct Hs.
  - match goal with H : fresh_id _ _ |- _ => destruct H as [Hf _] end. revert Hid.
    unfold beginOperation. case_match; [intros; apply moves_refl|].
    destruct (m ← _; metadata_validate m t); [intros; apply moves_refl|].
    do 2 (case_match; [intros; apply moves_refl|]). cbn. intros E. by rewrite E in Hf.
  - unfold RecordKeySuccess. destruct (checkOperation s id0) eqn:Hc; [apply moves_refl|].
    apply checkOperation_None in Hc as [_ ->]. by apply moves_recordKeySuccess.
  - unfold RecordKeyNeedsReconciliation. destruct (checkOperation s id0) eqn:Hc; [apply moves_refl|].
    apply checkOperation_None in Hc as [_ ->]. by apply moves_recordKeyNeeds.
  - apply moves_approve.
  - by apply moves_finalize.
  - by apply moves_verify.
  - by apply moves_outcomes.
  - by destruct Hne.
Qed.
