(* ===== verification/SyncProps.v ===== *)
(** Properties of the single journal operations: finishing, verifying, beginning,
recovering, loading, and change detection; with the concrete journal the closed
examples run on. *)

From S2P Require Import Prelude GoStrings Provider Digest OpMetadata SyncState SyncInvariant SyncFinalize SyncJournal.

(** * A concrete journal *)

Definition ex_metadata : OperationMetadata :=
  {| OldGeneration := 0; CurrentGeneration := 1; IntendedGeneration := 2;
     LifecycleLabel := "rotate/v2"; KMSEnvelopeRef := "kms:envelope"; 
     md_Capability := CapabilityNativeCAS; Deadline := Some 100%Z; Attempts := 1;
     md_ReconciliationState := ""; CanaryState := ""; PostconditionState := "" |}.
Definition ex_secrets : list (option Secret) :=
  [Some (mk_secret "DB_URL" "postgres://"); Some (mk_secret "API_KEY" "k1")].
Section examples.
#[local] Existing Instance toy_key.
#[local] Existing Instance sorted_range.
Definition ex_new : SyncState := NewSyncState "github" "owner/repo".
Definition ex_begun : SyncState := (BeginOperationWithMetadata "op-1" ex_metadata ex_secrets 10 ex_new).1.
Definition ex_acked : SyncState := (RecordSuccess "op-1" ex_secrets 20 ex_begun).1.
Definition ex_done : SyncState := (RecordOperationVerification "op-1" true true 30 ex_acked).1.

Lemma ex_fresh : fresh_id "op-1" ex_new.
Proof. split; [done|]. intros k o Hk. cbn in Hk; by rewrite lookup_empty in Hk. Qed.
Lemma ex_reach_begun : reachable "github" "owner/repo" ex_begun.
Proof.
  apply rtc_once, step_begin; [apply ex_fresh|done|]. by intros m [= <-].
Qed.
Lemma ex_reach_acked : reachable "github" "owner/repo" ex_acked.
Proof. unfold reachable. transitivity ex_begun; [apply ex_reach_begun|apply RecordSuccess_steps]. Qed.
Lemma ex_inv_acked : journal_inv ex_acked.
Proof. apply (inv_reachable "github" "owner/repo"); [done|apply ex_reach_acked]. Qed.
Lemma ex_inv_begun : journal_inv ex_begun.
Proof. apply (inv_reachable "github" "owner/repo"); [done|apply ex_reach_begun]. Qed.

Lemma journal_always_savable_witness :
  ∃ saved, saved_state 40 ex_acked = Ok saved.
Proof.
  destruct (journal_always_savable (HK := toy_key) "github" "owner/repo" ex_acked 40 eq_refl ex_reach_acked)
    as (saved & Hs & _).
  by exists saved.
Defined.

Lemma key_life_cycle_witness :
  ∃ o', Outcomes ex_done !! "DB_URL" = Some o' ∧ Status o' = OutcomeSucceeded.
Proof.
  destruct (Outcomes ex_acked !! "DB_URL") as [o|] eqn:E.
  2:{ exfalso. revert E. vm_compute. discriminate. }
  destruct (key_life_cycle (HK := toy_key) "github" "owner/repo" ex_acked ex_done "DB_URL" o) as (o' & Ho' & _).
  - reflexivity.
  - exact ex_reach_acked.
  - exact (step_verify ex_acked "op-1" true true 30).
  - vm_compute. discriminate.
  - reflexivity.
  - exact E.
  - exists o'. split; [exact Ho'|]. revert Ho'. vm_compute. intros [= <-]. reflexivity.
Defined.
End examples.

(** * Finishing *)

(** the result of [FinalizeOperation] and of [RecordOperationVerification] on a
journal state does not depend on the order in which Go visits the outcomes. *)
Theorem finalize_order_independent (R1 R2 : MapRange) s id canary post t :
  journal_inv s →
  FinalizeOperation (MR := R1) id t s = FinalizeOperation (MR := R2) id t s ∧
  RecordOperationVerification (MR := R1) id canary post t s
  = RecordOperationVerification (MR := R2) id canary post t s.
Proof.
  intros Hi. destruct (checkOperation s id) as [e|] eqn:Hc.
  { unfold FinalizeOperation, RecordOperationVerification. by rewrite Hc. }
  pose proof Hc as Hc'. apply checkOperation_None in Hc as [Hne ->]. split.
  - by rewrite !FinalizeOperation_eq.
  - destruct (decide (Phase s = OperationPhaseAwaitingVerification)) as [Hph|Hph].
    + by rewrite !RecordOperationVerification_eq.
    + unfold RecordOperationVerification. by rewrite Hc', !bool_decide_eq_false_2.
Qed.

(** Reverse iteration: a second order of the map. *)
Program Definition reverse_range : MapRange := {| range_map A site m := reverse (map_to_list m) |}.
Next Obligation. intros. apply reverse_Permutation. Qed.

Lemma finalize_order_independent_witness :
  RecordOperationVerification (MR := sorted_range) "op-1" true true 30 ex_acked
  = RecordOperationVerification (MR := reverse_range) "op-1" true true 30 ex_acked.
Proof.
  exact (proj2 (finalize_order_independent sorted_range reverse_range
    ex_acked "op-1" true true 30 ex_inv_acked)).
Defined.

Section finishing.

Lemma promoted_lookup s k o :
  Outcomes s !! k = Some o → Outcomes (promoted s) !! k = Some (promote_one (OperationID s) o).
Proof. intros Hk. cbn. by rewrite lookup_fmap, Hk. Qed.
Lemma promoted_hash s k :
  Hashes (promoted s) !! k =
    match Outcomes s !! k with
    | Some o => if promotable (OperationID s) o then Some (AcknowledgedHash o) else Hashes s !! k
    | None => Hashes s !! k
    end.
Proof.
  cbn. unfold promoted_hashes. rewrite lookup_union, lookup_omap.
  destruct (Outcomes s !! k) as [o|]; cbn; [destruct (promotable _ o); cbn|];
    by destruct (Hashes s !! k).
Qed.

(** What it takes for an operation to succeed. *)
Definition operation_complete (s : SyncState) : Prop :=
  (∃ k o, Outcomes s !! k = Some o ∧ current s o) ∧
  ∀ k o, Outcomes s !! k = Some o → current s o →
    Status o = OutcomeSucceeded ∧
    ∀ m, Metadata o = Some m → verificationPassed m = true.

Lemma finalized_complete t s :
  journal_inv s → Phase s ≠ OperationPhaseSucceeded →
  (Phase (finalized t s).1 = OperationPhaseSucceeded ↔ operation_complete s) ∧
  (operation_complete s → finalized t s =
     (with_last_success t (with_phase OperationPhaseSucceeded (Some t) (promoted s)), None)).
Proof.
  intros Hi Hph.
  assert (Hcomplete : operation_complete s ↔ some_current s (λ _, true) = true ∧
    some_current s o_needs = false ∧ some_current s o_failed = false ∧
    some_current s o_pending = false ∧ some_current s o_unverified = false).
  { rewrite some_current_true, !some_current_false. unfold operation_complete. split.
    - intros [(k & o & Hk & Hc) Hall]. split; [eauto|].
      repeat split; intros k1 o1 Hk1 Hc1; destruct (Hall k1 o1 Hk1 Hc1) as [Hs Hv];
        unfold o_needs, o_failed, o_pending, o_unverified; rewrite ?Hs; try done;
        destruct (Metadata o1) as [m|]; try done; rewrite ?(passed_not_failed m), ?(Hv m); auto.
    - intros ((k & o & Hk & Hc & _) & H1 & H2 & H3 & H4). split; [eauto|].
      intros k1 o1 Hk1 Hc1. specialize (H1 _ _ Hk1 Hc1). specialize (H3 _ _ Hk1 Hc1).
      specialize (H4 _ _ Hk1 Hc1). unfold o_needs, o_pending, o_unverified in *. split.
      + rewrite H1 in H3. cbn in H3. rewrite andb_true_r in H3. by split_bools.
      + intros m Hm. rewrite Hm in H4. by apply negb_false_iff. }
  unfold finalized. split.
  - rewrite Hcomplete. destruct (some_current s (λ _, true)); cbn [negb]; [|naive_solver].
    destruct (some_current s o_needs); cbn [orb]; [naive_solver|].
    destruct (some_current s o_failed); [naive_solver|].
    destruct (some_current s o_pending); [naive_solver|].
    destruct (some_current s o_unverified); [naive_solver|].
    rewrite decide_False by done. naive_solver.
  - rewrite Hcomplete. intros (-> & -> & -> & -> & ->). cbn. by rewrite decide_False.
Qed.
End finishing.

(** an unfinished operation ends in success exactly when it owns at least one
key, every owned key was acknowledged and, with metadata, every owned key passed
canary and postcondition checks; then each owned metadata key's acknowledged hash
becomes its drift hash, its generation is promoted, and nothing else changes. *)
Theorem finalize_success `{MR : MapRange} s t :
  journal_inv s → OperationID s ≠ "" → Phase s ≠ OperationPhaseSucceeded →
  let s' := (FinalizeOperation (OperationID s) t s).1 in
  (Phase s' = OperationPhaseSucceeded ↔ operation_complete s) ∧
  (Phase s' = OperationPhaseSucceeded →
    LastSuccess s' = Some t ∧ CompletedAt s' = Some t ∧
    ∀ k o, Outcomes s !! k = Some o →
      if decide (oc_OperationID o = OperationID s ∧ is_Some (Metadata o)) then
        Hashes s' !! k = Some (AcknowledgedHash o) ∧
        Outcomes s' !! k = Some (with_metadata promoteMetadata (with_hash "" o))
      else Hashes s' !! k = Hashes s !! k ∧ Outcomes s' !! k = Some o).
Proof.
  intros Hi Hid Hph s'. unfold s'. rewrite FinalizeOperation_eq by done.
  destruct (finalized_complete t s Hi Hph) as [Hiff Hval].
  split; [done|]. rewrite Hiff. intros Hc. rewrite (Hval Hc). cbn [fst].
  split; [done|]. split; [done|]. intros k o Hk.
  change (Hashes (with_last_success _ _)) with (Hashes (promoted s)).
  change (Outcomes (with_last_success _ _)) with (Outcomes (promoted s)).
  rewrite promoted_hash, (promoted_lookup _ _ _ Hk), Hk. unfold promote_one.
  assert (Hpr : promotable (OperationID s) o
    = bool_decide (oc_OperationID o = OperationID s ∧ is_Some (Metadata o))).
  { apply eq_true_iff_eq. unfold promotable, owned_by, o_metadata.
    rewrite !andb_true_iff, negb_true_iff, bool_decide_eq_false, !bool_decide_eq_true.
    rewrite <-not_eq_None_Some. split; [tauto|]. intros [Hcur Hm]. repeat split; try done.
    by apply (proj2 Hc k). }
  rewrite Hpr. clear Hpr.
  destruct (decide (oc_OperationID o = OperationID s ∧ is_Some (Metadata o))) as [Hd|Hd];
    [rewrite bool_decide_eq_true_2 by done|rewrite bool_decide_eq_false_2 by done]; done.
Qed.

Lemma finalize_success_witness :
  Phase (FinalizeOperation (MR := sorted_range) "op-1" 30 ex_acked).1
    = OperationPhaseAwaitingVerification ∧
  ¬ operation_complete ex_acked.
Proof.
  pose proof (finalize_success (MR := sorted_range) ex_acked 30 ex_inv_acked
    ltac:(vm_compute; discriminate) ltac:(vm_compute; discriminate)) as [Hiff _].
  split; [vm_compute; reflexivity|]. intros Hc. apply (proj2 Hiff) in Hc. revert Hc.
  vm_compute. discriminate.
Defined.

(** * The drift cache *)

Section drift.
Context {MR : MapRange} {HK : HashKey}.

Lemma recordKeySuccess_hashes s id secret t :
  let r := recordKeySuccess id secret t s in
  Hashes r.1 = Hashes s ∨
  ∃ sec o, secret = Some sec ∧ Outcomes s !! Key sec = Some o ∧ oc_OperationID o = id ∧
    Metadata o = None ∧ r.2 = None ∧
    Hashes r.1 = <[Key sec := hashSecret (Value sec)]> (Hashes s).
Proof.
  cbn. unfold recordKeySuccess.
  destruct (ownedOutcome _ _ _) as [[sec o]|] eqn:Ho; [|by left].
  apply ownedOutcome_Ok in Ho as (-> & _ & Hk & Hc).
  destruct (m ← Metadata o; validatePersisted m (Status o)); [by left|].
  case_decide. { left. by repeat case_match. }
  assert (Hrej : ∀ e, Hashes (rejectCapability (Key sec) o t e s).1 = Hashes s).
  { intros e. unfold rejectCapability. by case_decide. }
  destruct (Metadata o) as [m|] eqn:Hm.
  - left. case_match; [apply Hrej|]. destruct (capability_rejection o m); [apply Hrej|].
    unfold acknowledge. case_match; [done|]. cbn [Metadata with_status]. by rewrite Hm.
  - unfold acknowledge. case_match; [by left|]. cbn [Metadata with_status]. rewrite Hm. right.
    exists sec, o. done.
Qed.

Lemma finalized_hashes t s :
  journal_inv s → Hashes (finalized t s).1 = Hashes s ∨
  (finalized t s = (with_last_success t (with_phase OperationPhaseSucceeded (Some t) (promoted s)), None)
   ∧ Phase s ≠ OperationPhaseSucceeded ∧ operation_complete s).
Proof.
  intros Hi. destruct (decide (Phase s = OperationPhaseSucceeded)) as [Hph|Hph].
  - left. unfold finalized. repeat (case_match; try done).
  - destruct (finalized_complete t s Hi Hph) as [Hiff Hval].
    destruct (decide (Phase (finalized t s).1 = OperationPhaseSucceeded)) as [E|E].
    + right. pose proof (proj1 Hiff E) as Hc. by rewrite Hval.
    + left. revert E. unfold finalized. repeat (case_match; try done).
Qed.

(** The drift entry a successful finish writes for a metadata key. *)
Definition verified_entry (s s' : SyncState) (k h : string) : Prop :=
  Phase s' = OperationPhaseSucceeded ∧
  ∃ o o' m', Outcomes s !! k = Some o ∧ current s o ∧ Status o = OutcomeSucceeded ∧
    AcknowledgedHash o = h ∧ Outcomes s' !! k = Some o' ∧ Metadata o' = Some m' ∧
    verificationPassed m' = true ∧ generationPromoted m' = true.

Lemma promoted_verified s k h :
  journal_inv s → Phase s ≠ OperationPhaseSucceeded → operation_complete s →
  Hashes (promoted s) !! k = Some h → Hashes s !! k = Some h ∨
  ∃ o o' m', Outcomes s !! k = Some o ∧ current s o ∧ Status o = OutcomeSucceeded ∧
    AcknowledgedHash o = h ∧ Outcomes (promoted s) !! k = Some o' ∧ Metadata o' = Some m' ∧
    verificationPassed m' = true ∧ generationPromoted m' = true.
Proof.
  intros Hi Hph [_ Hc]. rewrite promoted_hash. destruct (Outcomes s !! k) as [o|] eqn:Hk; [|by left].
  destruct (promotable (OperationID s) o) eqn:Hpr; [|by left]. intros [= <-]. right.
  pose proof Hpr as Hpr'. unfold promotable, owned_by, o_metadata in Hpr. split_bools.
  destruct (Metadata o) as [m|] eqn:Hm; [|done].
  destruct (Hc k o Hk) as [Hs Hv]; [done|]. specialize (Hv m Hm).
  exists o, (promote_one (OperationID s) o), (promoteMetadata m).
  rewrite (promoted_lookup _ _ _ Hk). unfold promote_one. rewrite Hpr'. cbn. rewrite Hm.
  pose proof (ji_outcome _ Hi _ _ Hk) as Ho. unfold outcome_ok in Ho. rewrite Hm in Ho.
  destruct Ho as [Hp _ _ _]. rewrite Hs in Hp.
  destruct (persisted_promote m Hp) as [_ Hg]; try done.
  - by eapply not_promoted.
  - by eapply oi_generation; [eapply ji_inv|].
Qed.

Lemma finalize_entries s id t k h :
  journal_inv s → Hashes (FinalizeOperation id t s).1 !! k = Some h →
  Hashes s !! k = Some h ∨ verified_entry s (FinalizeOperation id t s).1 k h.
Proof.
  intros Hi. destruct (checkOperation s id) as [e|] eqn:Hc.
  { unfold FinalizeOperation. rewrite Hc. by left. }
  apply checkOperation_None in Hc as [Hne ->]. rewrite FinalizeOperation_eq by done.
  destruct (finalized_hashes t s Hi) as [->|(-> & Hph & Hcomp)]; [by left|]. cbn [fst].
  intros Hh. destruct (promoted_verified s k h) as [?|He]; try done; [by left|].
  right. split; [done|exact He].
Qed.

Lemma verify_entries s id canary post t k h :
  journal_inv s → Hashes (RecordOperationVerification id canary post t s).1 !! k = Some h →
  Hashes s !! k = Some h ∨ verified_entry s (RecordOperationVerification id canary post t s).1 k h.
Proof.
  intros Hi. destruct (checkOperation s id) as [e|] eqn:Hc.
  { unfold RecordOperationVerification. rewrite Hc. by left. }
  pose proof Hc as Hc'. apply checkOperation_None in Hc as [Hne ->].
  destruct (decide (Phase s = OperationPhaseAwaitingVerification)) as [Hph|Hph].
  2:{ unfold RecordOperationVerification. rewrite Hc', bool_decide_eq_false_2 by done. by left. }
  rewrite RecordOperationVerification_eq by done. unfold verified. case_match eqn:Hv.
  { cbn. by left. }
  apply orb_false_iff in Hv as [H1 H2]. apply negb_false_iff in H1, H2. rewrite H1, H2. cbn [fst].
  intros Hh. pose proof (inv_verify_passed s t Hi Hph) as Hi'.
  destruct (promoted_verified (verify_outcomes true true t s) k h) as [?|He]; try done.
  - cbn. by rewrite Hph.
  - split.
    + destruct (ji_awaiting _ Hi' Hph) as (k1 & o1 & m1 & ? & _ & ?). eauto.
    + intros k1 o1 Hk1 Hc1.
      destruct (verify_passed_lookup _ _ _ _ Hi Hph Hk1 Hc1) as (Hs & m & Hm & Hp).
      split; [done|]. intros m' Hm'. congruence.
  - by left.
  - right. split; [done|]. destruct He as (o1 & o' & m' & Hk1 & Hc1 & Hs1 & Hh1 & Hk' & Hrest).
    cbn in Hk1. rewrite lookup_fmap, fmap_Some in Hk1. destruct Hk1 as (o & Hk & ->).
    assert (Hco : current s o) by by unfold current in *; destruct (owned_by (OperationID s) o).
    exists o, o', m'. split; [done|]. split; [done|].
    destruct (awaiting_acknowledged _ _ _ Hi Hph Hk Hco) as (Hs & _). split; [done|].
    split; [by destruct (owned_by (OperationID s) o)|]. by split.
Qed.
End drift.

(** The drift cache, which decides what a later sync may skip, never runs ahead
of the target: an entry that a step adds or changes is either the hash of the
value acknowledged in that very step for an operation without metadata, or the
hash acknowledged earlier for a key of an operation whose canary and
postcondition checks have passed and whose generation was promoted. *)
Theorem drift_cache_provenance `{MR : MapRange, HK : HashKey} target id s s' k h :
  hashKeyIsEphemeral = false → reachable target id s → journal_step s s' →
  Hashes s' !! k = Some h → Hashes s !! k ≠ Some h →
  (∃ sec o o', Key sec = k ∧ h = hashSecret (Value sec) ∧ Outcomes s !! k = Some o ∧ current s o ∧
     Metadata o = None ∧ Outcomes s' !! k = Some o' ∧ Status o' = OutcomeSucceeded) ∨
  verified_entry s s' k h.
Proof.
  intros He Hr Hs Hh Hne. pose proof (inv_reachable _ _ _ He Hr) as Hi. destruct Hs.
  - destruct Hne. revert Hh. unfold beginOperation. repeat (case_match; try done).
  - unfold RecordKeySuccess in *. destruct (checkOperation s id0) eqn:Hc; [done|].
    apply checkOperation_None in Hc as [_ ->].
    destruct (recordKeySuccess_hashes s (OperationID s) secret t) as
      [E|(sec & o & -> & Hk & Hc & Hm & Hok & E)]; rewrite E in Hh; [done|].
    apply lookup_insert_Some in Hh as [[<- <-]|[_ ?]]; [|done]. left.
    exists sec, o. assert (Hst : ∃ o', Outcomes (recordKeySuccess (OperationID s) (Some sec) t s).1
      !! Key sec = Some o' ∧ Status o' = OutcomeSucceeded).
    { revert Hok. unfold recordKeySuccess.
      destruct (ownedOutcome s (OperationID s) (Some sec)) as [[sec' o'']|] eqn:Ho; [|done].
      apply ownedOutcome_Ok in Ho as ([= <-] & _ & Hk' & _). rewrite Hk in Hk'. injection Hk' as <-.
      rewrite Hm. cbn [mbind option_bind]. case_decide as Hs; [by exists o|].
      unfold acknowledge. case_match; [done|]. cbn [Metadata with_status]. rewrite Hm. intros _.
      cbn. rewrite lookup_insert_eq. eauto. }
    destruct Hst as (o' & ? & ?). by exists o'.
  - destruct Hne. revert Hh. unfold RecordKeyNeedsReconciliation, recordKeyNeedsReconciliation.
    repeat (case_match; try done).
  - destruct Hne. revert Hh. unfold ApproveOwnerRiskReconciliation. repeat (case_match; try done).
  - destruct (finalize_entries _ _ _ _ _ Hi Hh) as [?|?]; [done|by right].
  - destruct (verify_entries _ _ _ _ _ _ _ Hi Hh) as [?|?]; [done|by right].
  - done.
  - cbn in Hh. by rewrite lookup_empty in Hh.
Qed.

Lemma drift_cache_provenance_witness :
  verified_entry ex_acked ex_done "API_KEY" (hashSecret (HK := toy_key) "k1").
Proof.
  destruct (drift_cache_provenance (MR := sorted_range) (HK := toy_key) "github" "owner/repo"
    ex_acked ex_done "API_KEY" (hashSecret (HK := toy_key) "k1")) as [Hplain|Hv].
  - reflexivity.
  - exact ex_reach_acked.
  - exact (step_verify (MR := sorted_range) (HK := toy_key) ex_acked "op-1" true true 30).
  - vm_compute. reflexivity.
  - vm_compute. discriminate.
  - exfalso. destruct Hplain as (sec & o & o' & _ & _ & Ho & _ & Hm & _). revert Ho Hm.
    vm_compute. intros [= <-]. discriminate.
  - exact Hv.
Defined.

(** * Verification *)

(** a verification that fails, or that arrives after the deadline of any owned
key, fails closed: every owned key needs reconciliation, the drift cache and the
other operations' outcomes are untouched, and the deadline is reported; with both
checks passed in time, the operation succeeds. *)
Theorem verification_fail_closed `{MR : MapRange} s canary post t :
  journal_inv s → OperationID s ≠ "" → Phase s = OperationPhaseAwaitingVerification →
  let r := RecordOperationVerification (OperationID s) canary post t s in
  let late := some_current s (o_late t) in
  if canary && post && negb late then
    r.2 = None ∧ Phase r.1 = OperationPhaseSucceeded ∧ LastSuccess r.1 = Some t
  else
    r.2 = (if late then Some ErrOperationDeadlineExceeded else None) ∧
    Phase r.1 = OperationPhaseNeedsReconciliation ∧ Hashes r.1 = Hashes s ∧
    LastSuccess r.1 = LastSuccess s ∧
    ∀ k o, Outcomes s !! k = Some o → ∃ o', Outcomes r.1 !! k = Some o' ∧
      if decide (oc_OperationID o = OperationID s) then Status o' = OutcomeNeedsReconciliation else o' = o.
Proof.
  intros Hi Hid Hph r late. unfold r. rewrite RecordOperationVerification_eq by done.
  unfold verified. fold late.
  replace (negb (canary && negb late) || negb (post && negb late))
    with (negb (canary && post && negb late)) by by destruct canary, post, late.
  destruct (canary && post && negb late) eqn:E; cbn [negb]; [done|]. cbn [fst snd].
  split; [done|]. split; [done|]. split; [done|]. split; [done|]. intros k o Hk. cbn.
  rewrite lookup_fmap, Hk. cbn. eexists. split; [done|]. unfold owned_by.
  destruct (decide (oc_OperationID o = OperationID s)) as [Hc|Hc];
    [rewrite bool_decide_eq_true_2 by done|by rewrite bool_decide_eq_false_2].
  unfold verified_outcome. replace (canary && negb late && (post && negb late)) with false;
    [done|]. by destruct canary, post, late.
Qed.

Lemma verification_fail_closed_witness :
  let r := RecordOperationVerification (MR := sorted_range) "op-1" true true 101 ex_acked in
  r.2 = Some ErrOperationDeadlineExceeded ∧ Hashes r.1 = ∅.
Proof.
  pose proof (verification_fail_closed (MR := sorted_range) ex_acked true true 101 ex_inv_acked
    ltac:(vm_compute; discriminate) ltac:(vm_compute; reflexivity)) as H.
  cbn zeta in H |- *. replace (some_current ex_acked (o_late 101)) with true in H
    by (vm_compute; reflexivity).
  destruct H as (H1 & _ & H2 & _). split; [exact H1|].
  exact (eq_trans H2 ltac:(vm_compute; reflexivity)).
Defined.

(** * Beginning *)

Definition secret_keys (secrets : list (option Secret)) : list string :=
  omap (λ secret, Key <$> secret) secrets.

Lemma fold_fresh_lookup fresh secrets m k :
  foldl (insert_fresh fresh) m secrets !! k =
    if decide (k ∈ secret_keys secrets) then Some fresh else m !! k.
Proof.
  revert m. induction secrets as [|[sec|] secrets IH]; intros m; cbn [foldl insert_fresh].
  - by rewrite decide_False by (apply not_elem_of_nil).
  - rewrite IH. cbn [secret_keys omap list_omap fmap option_fmap option_map].
    change (list_omap _ _ _ secrets) with (secret_keys secrets).
    destruct (decide (k ∈ secret_keys secrets)) as [Hin|Hin].
    + by rewrite decide_True by set_solver.
    + destruct (decide (Key sec = k)) as [<-|Hne].
      * rewrite decide_True by set_solver. apply lookup_insert_eq.
      * rewrite decide_False by set_solver. by rewrite lookup_insert_ne.
  - apply IH.
Qed.

(** beginning an operation is atomic and never clobbers one whose retained
generation is still referenced: any error leaves the journal as it was, a
retained metadata operation is refused, and success makes exactly the given keys
pending under the new id with the normalised, valid metadata, marks what the
previous operation left pending for reconciliation, and keeps everything else,
the drift cache included. *)
Theorem begin_operation_atomic `{MR : MapRange} s id intent secrets t metadata :
  let r := beginOperation id intent secrets t metadata s in
  (r.2 ≠ None → r.1 = s) ∧
  (hasRetainedMetadataOperation s = true → r.2 = Some ErrOperationPhaseMismatch) ∧
  (r.2 = None →
    OperationID r.1 = id ∧ Phase r.1 = OperationPhasePending ∧ Intent r.1 = intent ∧
    StartedAt r.1 = Some t ∧ CompletedAt r.1 = None ∧ Hashes r.1 = Hashes s ∧
    (∀ m, metadata = Some m → metadata_validate (normalize_metadata m) t = None) ∧
    ∀ k, Outcomes r.1 !! k =
      if decide (k ∈ secret_keys secrets)
      then Some (pending_outcome id t (normalize_metadata <$> metadata))
      else (if operationPending s then abandon (OperationID s) t else λ o, o) <$> Outcomes s !! k).
Proof.
  cbn zeta. unfold beginOperation. destruct (hasRetainedMetadataOperation s); [done|].
  destruct (m ← normalize_metadata <$> metadata; metadata_validate m t) eqn:Hv; [done|].
  case_match; [done|]. case_match; [done|]. cbn [fst snd]. split; [done|]. split; [done|].
  intros _. do 5 (split; [done|]). split; [by destruct (operationPending s)|]. split.
  - intros m ->. exact Hv.
  - intros k. cbn. fold (insert_fresh (pending_outcome id t (normalize_metadata <$> metadata))).
    rewrite fold_fresh_lookup. case_decide; [done|].
    destruct (operationPending s); cbn; [by rewrite lookup_fmap|].
    by destruct (Outcomes s !! k).
Qed.

(** * Change detection and persistence *)

(** the next sync skips exactly what the journal has: after [Update] records a
batch with distinct keys, [FilterUnchanged] drops every one of its secrets, and
it keeps a secret whose keyed hash differs from the recorded one. *)
Theorem update_then_unchanged `{HK : HashKey} s secrets :
  NoDup (Key <$> secrets) →
  FilterUnchanged secrets (Update secrets s) = [] ∧
  ∀ sec v, sec ∈ secrets → hashSecret v ≠ hashSecret (Value sec) →
    let changed := {| Key := Key sec; Value := v; sec_Version := sec_Version sec; Meta := Meta sec |} in
    FilterUnchanged [changed] (Update secrets s) = [changed].
Proof.
  intros Hnd.
  assert (Hlook : ∀ sec, sec ∈ secrets →
    Hashes (Update secrets s) !! Key sec = Some (hashSecret (Value sec))).
  { unfold Update. cbn. generalize (Hashes s). induction secrets as [|x l IH]; intros h sec; [set_solver|].
    cbn in Hnd. apply NoDup_cons in Hnd as [Hx Hnd]. cbn [foldl].
    intros [->|Hin]%elem_of_cons; [|by apply IH]. clear IH.
    assert (Hstay : ∀ h : gmap string string, h !! Key x = Some (hashSecret (Value x)) →
      foldl (λ h sec, <[Key sec := hashSecret (Value sec)]> h) h l !! Key x
      = Some (hashSecret (Value x))).
    { clear Hnd. induction l as [|y l IH]; intros h' Hh; [done|]. cbn. apply IH; [set_solver|].
      rewrite lookup_insert_ne; [done|]. set_solver. }
    apply Hstay, lookup_insert_eq. }
  split.
  - unfold FilterUnchanged. apply elem_of_nil_inv. intros sec [Hne Hin]%list_elem_of_filter.
    by rewrite (Hlook sec Hin) in Hne.
  - intros sec v Hin Hne changed. unfold FilterUnchanged. rewrite filter_cons, decide_True; [done|].
    change (default "" (Hashes (Update secrets s) !! Key sec) ≠ hashSecret v).
    rewrite (Hlook sec Hin). cbn. congruence.
Qed.

Lemma update_then_unchanged_witness :
  FilterUnchanged (HK := toy_key) [mk_secret "A" "1"; mk_secret "B" "2"]
    (Update (HK := toy_key) [mk_secret "A" "1"; mk_secret "B" "2"] ex_new) = [].
Proof.
  exact (proj1 (update_then_unchanged (HK := toy_key) ex_new [mk_secret "A" "1"; mk_secret "B" "2"]
    ltac:(by_decide))).
Defined.

(** C3: whatever a state file holds, a state [LoadSyncState] returns is for the
requested target, carries the active hash domain and passes the persisted check;
a file from another hash key keeps no drift hash, digest or operation. *)
Theorem load_state_safe `{MR : MapRange, HK : HashKey} data decode s0 target id s :
  decode data = Some s0 → LoadSyncState (Ok (Some data)) decode target id = Ok s →
  st_Target s = target ∧ st_ID s = id ∧ HashDomain s = currentHashDomain ∧
  validatePersistedOperationMetadata s = None ∧
  (HashDomain s0 = currentHashDomain → s = s0) ∧
  (HashDomain s0 ≠ currentHashDomain →
    Hashes s = ∅ ∧ Outcomes s = ∅ ∧ OperationID s = "" ∧ st_SourceDigest s = "" ∧ LastSuccess s = None).
Proof.
  intros Hd. unfold LoadSyncState. rewrite Hd.
  case_match eqn:Hid; [done|]. apply orb_false_iff in Hid as [H1 H2]. split_bools.
  case_match eqn:Hv; [done|]. intros [= <-].
  destruct (decide (HashDomain s0 = currentHashDomain)) as [E|E];
    [rewrite bool_decide_eq_true_2 in * by done|rewrite bool_decide_eq_false_2 in * by done]; done.
Qed.

Lemma load_state_safe_witness :
  Hashes (reset_domain (HK := toy_key) ex_new) = ∅.
Proof.
  exact (proj1 (proj2 (proj2 (proj2 (proj2 (proj2 (load_state_safe (MR := sorted_range) (HK := toy_key)
    "file" (λ _, Some ex_new) ex_new "github" "owner/repo"
    (reset_domain (HK := toy_key) ex_new) eq_refl ltac:(vm_compute; reflexivity)))))) ltac:(vm_compute; discriminate))).
Defined.

(** the digest that identifies a batch does not depend on the order of its
secrets, and it is a well-formed SHA-256 digest that the persisted check accepts. *)
Theorem source_digest_order `{HK : HashKey} l1 l2 :
  l1 ≡ₚ l2 → SourceDigest l1 = SourceDigest l2 ∧ validAcknowledgedHash (SourceDigest l1) = true.
Proof.
  intros Hp. split; [|apply hashSecret_valid]. unfold SourceDigest. do 3 f_equal.
  apply sort_strings_unique. by rewrite Hp.
Qed.
Lemma source_digest_order_witness :
  SourceDigest (HK := toy_key) ex_secrets = SourceDigest (HK := toy_key) (reverse ex_secrets).
Proof.
  exact (proj1 (source_digest_order (HK := toy_key) ex_secrets (reverse ex_secrets)
    (symmetry (reverse_Permutation ex_secrets)))).
Defined.

(** * The process-random hash key *)

(** with the process-random key the journal can refuse to save itself: when the
acknowledgement of a key of a finished operation is repeated, the re-acknowledge
branch stores a hash in an outcome that was already promoted, and the persisted
check then rejects the state. *)
Theorem ephemeral_key_breaks_save :
  ∃ (HK : HashKey) (MR : MapRange) (s : SyncState),
    reachable "github" "owner/repo" s ∧ validatePersistedOperationMetadata s ≠ None.
Proof.
  set (HK := {| hmac := toy_digest; hmac_length := toy_digest_length; hashKeyIsEphemeral := true |}).
  exists HK, sorted_range.
  exists (RecordKeySuccess (HK := HK) "op-1" (Some (mk_secret "API_KEY" "k1")) 40 ex_done).1.
  split.
  - unfold reachable. transitivity ex_begun.
    + apply rtc_once. apply (step_begin (MR := sorted_range) (HK := HK) ex_new "op-1" "" ex_secrets 10
        (Some ex_metadata)); [apply ex_fresh|done|]. by intros m [= <-].
    + transitivity ex_acked.
      * apply (RecordSuccess_steps (MR := sorted_range) (HK := HK) ex_begun "op-1" ex_secrets 20).
      * eapply rtc_l; [exact (step_verify (MR := sorted_range) (HK := HK) ex_acked "op-1" true true 30)|].
        apply rtc_once, step_success.
  - vm_compute. discriminate.
Qed.
