(* ===== verification/GoEncoding.v ===== *)
(** The encodings of Go's standard library that the program persists or signs:
JSON strings as [encoding/json] writes them, base64, decimal numbers and
RFC 3339 times; with the facts that make them safe to compare. *)

From S2P Require Import Prelude GoStrings.

(** * JSON strings *)

Definition hex4 (z : Z) : string :=
  let d z := byte_of (if (z <? 10)%Z then 48 + z else 87 + z) in
  String (d (z / 4096 mod 16)%Z) (String (d (z / 256 mod 16)%Z)
    (String (d (z / 16 mod 16)%Z) (str1 (d (z mod 16)%Z)))).
Definition u4 (z : Z) : string := String BSL (String "u" (hex4 z)).

(** [htmlSafeSet]: the ASCII bytes written as they are. *)
Definition html_safe (c : ascii) : bool :=
  in_range 32 127 c && negb (c =c DQ) && negb (c =c "&") && negb (c =c "<") && negb (c =c ">")
  && negb (c =c BSL).
Definition json_byte (c : ascii) : string :=
  if html_safe c then str1 c
  else if c =c BSL then String BSL (str1 BSL)
  else if c =c DQ then String BSL (str1 DQ)
  else if (code c =? 8)%Z then String BSL "b"
  else if (code c =? 12)%Z then String BSL "f"
  else if c =c LF then String BSL "n"
  else if c =c CR then String BSL "r"
  else if c =c TAB then String BSL "t"
  else u4 (code c).

(** The body of a JSON string: ASCII bytes through [json_byte]; a byte that starts
no UTF-8 sequence becomes [\ufffd]; U+2028 and U+2029 are escaped; other runes are
copied.  [skip] counts the bytes of the rune already written. *)
Fixpoint json_go (skip : nat) (s : string) : string :=
  match s with
  | "" => ""
  | String c s' =>
    match skip with
    | S k => json_go k s'
    | O =>
      if (code c <? 128)%Z then json_byte c +:+ json_go 0 s'
      else
        let '(r, n) := decode_rune s in
        if (r =? RuneError)%Z && (n =? 1) then u4 65533 +:+ json_go 0 s'
        else if (r =? 8232)%Z || (r =? 8233)%Z then u4 r +:+ json_go (pred n) s'
        else str_take n s +:+ json_go (pred n) s'
    end
  end.
Definition json_string (s : string) : string := String DQ (json_go 0 s +:+ str1 DQ).

(** * Base64 *)

Definition b64_char (url : bool) (z : Z) : ascii :=
  byte_of (if (z <? 26)%Z then 65 + z
           else if (z <? 52)%Z then 71 + z
           else if (z <? 62)%Z then z - 4
           else if (z =? 62)%Z then (if url then 45 else 43)
           else (if url then 95 else 47))%Z.

(** Three bytes to four digits; [pad] writes the padding of [StdEncoding]. *)
Fixpoint base64 (url pad : bool) (s : string) : string :=
  let d z := b64_char url z in
  match s with
  | "" => ""
  | String a "" =>
    String (d (code a / 4)%Z) (String (d (code a mod 4 * 16)%Z) (if pad then "==" else ""))
  | String a (String b "") =>
    String (d (code a / 4)%Z) (String (d (code a mod 4 * 16 + code b / 16)%Z)
      (String (d (code b mod 16 * 4)%Z) (if pad then "=" else "")))
  | String a (String b (String c s')) =>
    String (d (code a / 4)%Z) (String (d (code a mod 4 * 16 + code b / 16)%Z)
      (String (d (code b mod 16 * 4 + code c / 64)%Z) (String (d (code c mod 64)%Z)
        (base64 url pad s'))))
  end.
Definition StdEncoding : string → string := base64 false true.
Definition RawURLEncoding : string → string := base64 true false.

(** * Decimal numbers and times *)

Fixpoint decimal_go (fuel : nat) (n : Z) (acc : string) : string :=
  match fuel with
  | O => acc
  | S fuel =>
    let acc := String (byte_of (48 + n mod 10)%Z) acc in
    if (n <? 10)%Z then acc else decimal_go fuel (n / 10)%Z acc
  end.
(** [strconv.Itoa]; 20 digits suffice for a 64-bit integer. *)
Definition itoa (n : Z) : string :=
  if (n <? 0)%Z then String "-" (decimal_go 20 (- n)%Z "") else decimal_go 20 n "".
(** The last [w] digits, with leading zeros. *)
Fixpoint digits (w : nat) (n : Z) : string :=
  match w with
  | O => ""
  | S w => String (byte_of (48 + n / 10 ^ Z.of_nat w mod 10)%Z) (digits w n)
  end.

(** Civil date of a day number counted from 1 March of year 0. *)
Definition civil (days : Z) : Z * Z * Z :=
  (let era := days / 146097 in
  let doe := days mod 146097 in
  let yoe := (doe - doe / 1460 + doe / 36524 - doe / 146096) / 365 in
  let doy := doe - (365 * yoe + yoe / 4 - yoe / 100) in
  let mp := (5 * doy + 2) / 153 in
  let d := doy - (153 * mp + 2) / 5 + 1 in
  let m := if mp <? 10 then mp + 3 else mp - 9 in
  let y := yoe + era * 400 in
  (if m <=? 2 then y + 1 else y, m, d))%Z.

(** [t.UTC().Format(time.RFC3339Nano)] for a year of four digits; [t] is in
nanoseconds since 1 January of year 1, day 306 of the count above. *)
Definition rfc3339nano (t : Z) : string :=
  (let secs := t / 1000000000 in
  let nanos := t mod 1000000000 in
  let '(y, m, d) := civil (secs / 86400 + 306) in
  let sod := secs mod 86400 in
  let frac := if nanos =? 0 then "" else String "." (trim_right "0" (digits 9 nanos)) in
  digits 4 y +:+ "-" +:+ digits 2 m +:+ "-" +:+ digits 2 d +:+ "T" +:+
  digits 2 (sod / 3600) +:+ ":" +:+ digits 2 (sod / 60 mod 60) +:+ ":" +:+ digits 2 (sod mod 60)
  +:+ frac +:+ "Z")%Z.

(** [time.Time.MarshalJSON] refuses a year outside [0, 9999]. *)
Definition json_time_ok (t : Z) : bool :=
  ((-31622400 * 1000000000 <=? t) && (t <? 315537897600 * 1000000000))%Z.

Example rfc3339_epoch : rfc3339nano (62135596800 * 1000000000) = "1970-01-01T00:00:00Z".
Proof. reflexivity. Qed.
Example rfc3339_frac :
  rfc3339nano ((62135596800 + 1709210096) * 1000000000 + 120000000) = "2024-02-29T12:34:56.12Z".
Proof. reflexivity. Qed.
Example base64_hello : StdEncoding "hello" = "aGVsbG8=".
Proof. reflexivity. Qed.
Example json_example : json_string "a<b" = String DQ ("a" +:+ String BSL "u003cb" +:+ str1 DQ).
Proof. reflexivity. Qed.

(** * Lemmas: UTF-8 *)

(** The widths and bytes of a rune that is not an encoding error. *)
Lemma decode_rune_multi c s r n :
  (128 ≤ code c)%Z → decode_rune (String c s) = (r, n) → n ≠ 1 →
  ∃ k, n = S k ∧ 1 ≤ k ≤ String.length s ∧
    str_forall (λ d, 128 <=? code d)%Z (str_take n (String c s)) = true.
Proof.
  intros Hc. unfold decode_rune.
  repeat match goal with
  | |- context [(code c <? ?k)%Z] => destruct (Z.ltb_spec (code c) k)
  | |- context [(code c =? ?k)%Z] => destruct (Z.eqb_spec (code c) k)
  end; try lia; try (intros [= <- <-]; lia).
  all: destruct s as [|b1 [|b2 [|b3 s]]]; try (intros [= <- <-]; lia).
  all: repeat match goal with
  | |- context [if ?b then _ else _] => destruct b eqn:?
  end; intros [= <- <-]; try lia; intros _; eexists; (split; [reflexivity|]); cbn;
    unfold in_range in *; split_bools; (split; [lia|]);
    repeat (apply andb_true_iff; split); try done; apply Z.leb_le; lia.
Qed.

Lemma runes_go_skip k i s :
  k ≤ String.length s → runes_go k i s = runes_go 0 (k + i) (str_drop k s).
Proof.
  revert i s. induction k as [|k IH]; intros i s Hk; [done|].
  destruct s as [|c s]; [simpl in Hk; lia|]. simpl in Hk. cbn [runes_go str_drop].
  rewrite IH by lia. by rewrite Nat.add_succ_r.
Qed.
Definition rune_ok (x : nat * Z * nat) : bool := negb ((x.1.2 =? RuneError)%Z && (x.2 =? 1)%nat).
Lemma runes_go_index i j s :
  forallb rune_ok (runes_go 0 i s) = forallb rune_ok (runes_go 0 j s).
Proof.
  remember (String.length s) as n eqn:Hn. revert i j s Hn.
  induction (lt_wf n) as [n _ IH]. intros i j s ->. destruct s as [|c s]; [done|].
  cbn [runes_go]. destruct (decode_rune (String c s)) as [r w] eqn:E. cbn [forallb].
  f_equal. destruct (decide (pred w ≤ String.length s)) as [Hw|Hw].
  - rewrite (runes_go_skip _ (S i)), (runes_go_skip _ (S j)) by done. eapply IH; [|reflexivity]. rewrite str_drop_length. simpl. lia.
  - assert (Hskip : ∀ k i, String.length s < k → runes_go k i s = []).
    { clear. induction s as [|d s IH]; intros [|k] i Hk; simpl in *; try lia; try done.
      apply IH. lia. }
    by rewrite !Hskip by lia.
Qed.

(** A valid string: its first rune is one, and so is what follows it. *)
Lemma valid_utf8_cons c s :
  valid_utf8 (String c s) = true →
  let '(r, n) := decode_rune (String c s) in
  ¬ (r = RuneError ∧ n = 1) ∧ 1 ≤ n ≤ S (String.length s) ∧
  ((128 ≤ code c)%Z → n ≠ 1) ∧ ((code c < 128)%Z → n = 1) ∧
  valid_utf8 (str_drop (pred n) s) = true.
Proof.
  unfold valid_utf8, runes_at. cbn [runes_go].
  destruct (decode_rune (String c s)) as [r n] eqn:E. cbn [forallb].
  intros [Hok Hrest]%andb_true_iff. cbn [fst snd] in Hok.
  assert (Herr : ¬ (r = RuneError ∧ n = 1)) by (intros [-> ->]; by cbn in Hok).
  assert (Hn : ((128 ≤ code c)%Z → n ≠ 1) ∧ ((code c < 128)%Z → n = 1)).
  { revert E Herr. unfold decode_rune.
    repeat match goal with
    | |- context [(code c <? ?k)%Z] => destruct (Z.ltb_spec (code c) k)
    | |- context [(code c =? ?k)%Z] => destruct (Z.eqb_spec (code c) k)
    end; try lia;
    repeat (case_match; subst); intros [= <- <-] Herr; split; intros; lia || tauto || done. }
  destruct Hn as [Hn1 Hn2]. destruct (Z.lt_ge_cases (code c) 128) as [Hc|Hc].
  - rewrite (Hn2 Hc) in *. repeat split; try done; try lia.
    cbn [pred str_drop]. etrans; [apply (runes_go_index 0 1)|exact Hrest].
  - destruct (decode_rune_multi c s r n Hc E (Hn1 Hc)) as (k & -> & Hk & _).
    repeat split; try done; try lia. cbn [pred] in *.
    rewrite runes_go_skip in Hrest by lia. etrans; [apply (runes_go_index 0 (k + 1))|exact Hrest].
Qed.

Lemma ascii_valid_utf8 s : str_forall is_ascii s = true → valid_utf8 s = true.
Proof.
  unfold valid_utf8, runes_at. change (forallb (λ x, _) ?l) with (forallb rune_ok l).
  induction s as [|c s IH]; [done|]. cbn [str_forall]. intros [Hc Hs]%andb_true_iff.
  cbn [runes_go]. rewrite decode_rune_ascii by done. cbn [forallb pred].
  rewrite (runes_go_index 1 0), IH by done. unfold rune_ok, RuneError. cbn [fst snd].
  unfold is_ascii in Hc. split_bools. by rewrite (proj2 (Z.eqb_neq (code c) 65533)) by lia.
Qed.

Lemma json_go_skip k s : k ≤ String.length s → json_go k s = json_go 0 (str_drop k s).
Proof.
  revert s. induction k as [|k IH]; intros s Hk; [done|].
  destruct s as [|c s]; [simpl in Hk; lia|]. simpl in Hk. cbn [json_go str_drop]. apply IH. lia.
Qed.

(** * Lemmas: JSON strings *)

(** Reading a JSON string body back, byte by byte. *)
Definition unhex (c : ascii) : Z := if is_digit c then (code c - 48)%Z else (code c - 87)%Z.
Fixpoint unjson (s : string) : string :=
  match s with
  | "" => ""
  | String c s1 =>
    if c =c BSL then
      match s1 with
      | "" => ""
      | String e s2 =>
        if e =c "u" then
          match s2 with
          | String h1 (String h2 (String h3 (String h4 s3))) =>
            encode_rune (unhex h1 * 4096 + unhex h2 * 256 + unhex h3 * 16 + unhex h4)
            +:+ unjson s3
          | _ => ""
          end
        else String (if e =c "b" then byte_of 8 else if e =c "f" then byte_of 12
                     else if e =c "n" then LF else if e =c "r" then CR
                     else if e =c "t" then TAB else e) (unjson s2)
      end
    else String c (unjson s1)
  end.

Lemma unjson_byte c t : (code c < 128)%Z → unjson (json_byte c +:+ t) = String c (unjson t).
Proof.
  destruct c as [[] [] [] [] [] [] [] []]; intros Hc; try reflexivity; vm_compute in Hc; discriminate.
Qed.
Lemma unjson_high s t :
  str_forall (λ d, 128 <=? code d)%Z s = true → unjson (s +:+ t) = s +:+ unjson t.
Proof.
  induction s as [|c s IH]; [done|]. cbn [str_forall]. intros [Hc Hs]%andb_true_iff.
  rewrite !str_cons_app. cbn [unjson]. rewrite IH by done.
  destruct (Ascii.eqb_spec c BSL) as [->|]; [done|]. done.
Qed.

(** The line and paragraph separators are the only runes of their bytes. *)
Lemma decode_separator c s r n :
  (128 ≤ code c)%Z → decode_rune (String c s) = (r, n) → r = 8232%Z ∨ r = 8233%Z →
  str_take n (String c s) = encode_rune r.
Proof.
  intros Hc. unfold decode_rune.
  repeat match goal with
  | |- context [(code c <? ?k)%Z] => destruct (Z.ltb_spec (code c) k)
  | |- context [(code c =? ?k)%Z] => destruct (Z.eqb_spec (code c) k)
  end; try lia; try (intros [= <- <-]; unfold RuneError; lia).
  all: destruct s as [|b1 [|b2 [|b3 s]]]; try (intros [= <- <-]; unfold RuneError; lia).
  all: repeat match goal with
  | |- context [if ?b then _ else _] => destruct b eqn:?
  end; intros [= <- <-]; unfold RuneError; try lia.
  all: unfold in_range in *; split_bools; intros Hr; try lia.
  all: assert (code c = 226 ∧ code b1 = 128 ∧ (code b2 = 168 ∨ code b2 = 169))%Z as (E0 & E1 & E2) by lia;
    rewrite E0, E1; rewrite <-(byte_of_code c), <-(byte_of_code b1), <-(byte_of_code b2), E0, E1;
    destruct E2 as [-> | ->]; reflexivity.
Qed.

Lemma unjson_json s : valid_utf8 s = true → ∀ t, unjson (json_go 0 s +:+ t) = s +:+ unjson t.
Proof.
  remember (String.length s) as n eqn:Hn. revert s Hn.
  induction (lt_wf n) as [n _ IH]. intros s -> Hv t. destruct s as [|c s]; [done|].
  cbn [json_go]. pose proof (valid_utf8_cons c s Hv) as Hc.
  destruct (decode_rune (String c s)) as [r w] eqn:E. destruct Hc as (Herr & Hw & H1 & H2 & Hrest).
  destruct (Z.ltb_spec (code c) 128) as [Hlt|Hge].
  - rewrite (H2 Hlt) in Hrest. cbn [pred str_drop] in Hrest.
    rewrite str_app_assoc, unjson_byte, (IH (String.length s)) by (simpl; (lia || done)). done.
  - destruct (decode_rune_multi c s r w Hge E (H1 Hge)) as (k & -> & Hk & Hhigh). cbn [pred] in *.
    replace ((r =? RuneError)%Z && (S k =? 1)) with false.
    2:{ symmetry. apply andb_false_iff. right. apply Nat.eqb_neq. lia. }
    rewrite json_go_skip by lia.
    assert (Htail : ∀ t, unjson (json_go 0 (str_drop k s) +:+ t) = str_drop k s +:+ unjson t).
    { intros u. eapply IH; [|reflexivity|done]. rewrite str_drop_length. simpl. lia. }
    assert (Hsplit : String c s = str_take (S k) (String c s) +:+ str_drop k s).
    { change (str_drop k s) with (str_drop (S k) (String c s)). symmetry. apply str_take_drop. }
    case_match eqn:Hsep.
    + apply orb_true_iff in Hsep. rewrite !Z.eqb_eq in Hsep. rewrite str_app_assoc.
      assert (Hu : ∀ u, unjson (u4 r +:+ u) = encode_rune r +:+ unjson u)
        by (intros u; destruct Hsep as [-> | ->]; reflexivity).
      rewrite Hu, Htail, <-(decode_separator c s r (S k) Hge E Hsep), <-str_app_assoc.
      by rewrite <-Hsplit.
    + rewrite str_app_assoc, unjson_high, Htail, <-str_app_assoc by done. by rewrite <-Hsplit.
Qed.

(** JSON keeps distinct valid strings distinct. *)
Lemma json_string_inj s t :
  valid_utf8 s = true → valid_utf8 t = true → json_string s = json_string t → s = t.
Proof.
  intros Hs Ht E. injection E as E. apply (f_equal unjson) in E.
  rewrite !unjson_json in E by done. cbn in E.
  assert (Hl : ∀ a b, a +:+ str1 DQ = b +:+ str1 DQ → a = b).
  { intros a b Hab. rewrite <-(drop_last_snoc a DQ), <-(drop_last_snoc b DQ). by rewrite Hab. }
  by apply Hl.
Qed.

(** Where a JSON string ends: the first quote that no backslash escapes. *)
Definition prepend (p : string) (r : option (string * string)) : option (string * string) :=
  '(a, b) ← r; Some (p +:+ a, b).
Fixpoint json_cut (s : string) : option (string * string) :=
  match s with
  | "" => None
  | String c s1 =>
    if c =c DQ then Some ("", s1)
    else if c =c BSL then
      match s1 with
      | "" => None
      | String e s2 => prepend (String c (str1 e)) (json_cut s2)
      end
    else prepend (str1 c) (json_cut s1)
  end.

Lemma prepend_app p q r : prepend (p +:+ q) r = prepend p (prepend q r).
Proof. destruct r as [[a b]|]; [|done]. cbn. by rewrite str_app_assoc. Qed.
Definition plain_byte (c : ascii) : bool := negb (c =c DQ) && negb (c =c BSL).
Lemma json_cut_plain s t :
  str_forall plain_byte s = true → json_cut (s +:+ t) = prepend s (json_cut t).
Proof.
  induction s as [|c s IH]; [rewrite str_nil_app; by destruct (json_cut t) as [[]|]|].
  cbn [str_forall]. intros [Hc Hs]%andb_true_iff. unfold plain_byte in Hc. split_bools.
  rewrite !str_cons_app. cbn [json_cut]. rewrite IH by done.
  repeat match goal with H : (c =c _) = false |- _ => rewrite H end.
  change (String c s) with (str1 c +:+ s). by rewrite prepend_app.
Qed.
Lemma json_cut_escape e s t :
  str_forall plain_byte s = true →
  json_cut (String BSL (String e s) +:+ t) = prepend (String BSL (String e s)) (json_cut t).
Proof.
  intros Hs. rewrite !str_cons_app. cbn [json_cut].
  change (BSL =c DQ) with false. change (BSL =c BSL) with true. cbn iota.
  rewrite json_cut_plain by done.
  change (String BSL (String e s)) with (String BSL (str1 e) +:+ s). by rewrite prepend_app.
Qed.
Lemma json_cut_byte c t : (code c < 128)%Z → json_cut (json_byte c +:+ t) = prepend (json_byte c) (json_cut t).
Proof.
  destruct c as [[] [] [] [] [] [] [] []]; intros Hc; try (vm_compute in Hc; discriminate);
    match goal with |- json_cut (?b +:+ _) = _ => let s := eval vm_compute in b in change b with s end;
    first [apply json_cut_plain; reflexivity | apply json_cut_escape; reflexivity].
Qed.
Lemma json_cut_high s t :
  str_forall (λ d, 128 <=? code d)%Z s = true → json_cut (s +:+ t) = prepend s (json_cut t).
Proof.
  intros Hs. apply json_cut_plain. eapply str_forall_impl; [|exact Hs]. intros c Hc. cbn in Hc.
  unfold plain_byte. destruct (Ascii.eqb_spec c DQ) as [->|]; [done|].
  by destruct (Ascii.eqb_spec c BSL) as [->|].
Qed.

Lemma json_cut_json s : valid_utf8 s = true → ∀ t,
  json_cut (json_go 0 s +:+ t) = prepend (json_go 0 s) (json_cut t).
Proof.
  remember (String.length s) as n eqn:Hn. revert s Hn.
  induction (lt_wf n) as [n _ IH]. intros s -> Hv t.
  destruct s as [|c s]; [cbn [json_go]; rewrite str_nil_app; by destruct (json_cut t) as [[]|]|].
  cbn [json_go]. pose proof (valid_utf8_cons c s Hv) as Hc.
  destruct (decode_rune (String c s)) as [r w] eqn:E. destruct Hc as (Herr & Hw & H1 & H2 & Hrest).
  destruct (Z.ltb_spec (code c) 128) as [Hlt|Hge].
  - rewrite (H2 Hlt) in Hrest. cbn [pred str_drop] in Hrest.
    rewrite str_app_assoc, json_cut_byte, (IH (String.length s)) by (simpl; (lia || done)).
    by rewrite prepend_app.
  - destruct (decode_rune_multi c s r w Hge E (H1 Hge)) as (k & -> & Hk & Hhigh). cbn [pred] in *.
    replace ((r =? RuneError)%Z && (S k =? 1)) with false.
    2:{ symmetry. apply andb_false_iff. right. apply Nat.eqb_neq. lia. }
    rewrite json_go_skip by lia.
    assert (Htail : ∀ t, json_cut (json_go 0 (str_drop k s) +:+ t)
      = prepend (json_go 0 (str_drop k s)) (json_cut t)).
    { intros u. eapply IH; [|reflexivity|done]. rewrite str_drop_length. simpl. lia. }
    case_match eqn:Hsep.
    + apply orb_true_iff in Hsep. rewrite !Z.eqb_eq in Hsep. rewrite str_app_assoc.
      assert (Hu : ∀ u, json_cut (u4 r +:+ u) = prepend (u4 r) (json_cut u))
        by (intros u; destruct Hsep as [-> | ->]; apply json_cut_escape; reflexivity).
      by rewrite Hu, Htail, prepend_app.
    + by rewrite str_app_assoc, json_cut_high, Htail, prepend_app by done.
Qed.

(** A JSON string at the head of a text is determined by the text. *)
Lemma json_string_head s1 s2 t1 t2 :
  valid_utf8 s1 = true → valid_utf8 s2 = true →
  json_string s1 +:+ t1 = json_string s2 +:+ t2 → s1 = s2 ∧ t1 = t2.
Proof.
  intros H1 H2 E. unfold json_string in E. rewrite !str_cons_app, !str_app_assoc in E.
  injection E as E. apply (f_equal json_cut) in E.
  rewrite !json_cut_json in E by done. change (str1 DQ +:+ ?t) with (String DQ t) in E. cbn in E.
  injection E as E ->. rewrite !str_app_nil_r in E. split; [|done].
  apply json_string_inj; [done..|]. unfold json_string. by rewrite E.
Qed.

(** * Lemmas: base64 *)

Lemma b64_code url z :
  (0 ≤ z < 64)%Z →
  code (b64_char url z) = (if (z <? 26)%Z then 65 + z
           else if (z <? 52)%Z then 71 + z
           else if (z <? 62)%Z then z - 4
           else if (z =? 62)%Z then (if url then 45 else 43)
           else (if url then 95 else 47))%Z.
Proof.
  intros Hz. unfold b64_char. apply code_byte_of.
  destruct (Z.ltb_spec z 26), (Z.ltb_spec z 52), (Z.ltb_spec z 62), (Z.eqb_spec z 62), url; lia.
Qed.
Lemma b64_inj url x y :
  (0 ≤ x < 64)%Z → (0 ≤ y < 64)%Z → b64_char url x = b64_char url y → x = y.
Proof.
  intros Hx Hy E. apply (f_equal code) in E. rewrite !b64_code in E by done. revert E.
  destruct (Z.ltb_spec x 26), (Z.ltb_spec x 52), (Z.ltb_spec x 62), (Z.eqb_spec x 62), url;
    destruct (Z.ltb_spec y 26), (Z.ltb_spec y 52), (Z.ltb_spec y 62), (Z.eqb_spec y 62); lia.
Qed.
Lemma b64_not_pad url z : (0 ≤ z < 64)%Z → b64_char url z ≠ "="%char.
Proof.
  intros Hz E. apply (f_equal code) in E. rewrite b64_code in E by done.
  change (code "=") with 61%Z in E. revert E.
  destruct (Z.ltb_spec z 26), (Z.ltb_spec z 52), (Z.ltb_spec z 62), (Z.eqb_spec z 62), url; lia.
Qed.

Lemma code_split c : (0 ≤ code c / 4 < 64 ∧ 0 ≤ code c mod 4 < 4 ∧ 0 ≤ code c / 16 < 16 ∧
  0 ≤ code c mod 16 < 16 ∧ 0 ≤ code c / 64 < 4 ∧ 0 ≤ code c mod 64 < 64)%Z.
Proof.
  pose proof (code_range c).
  repeat split; try (apply Z.mod_pos_bound; lia); try (apply Z.div_pos; lia);
    apply Z.div_lt_upper_bound; lia.
Qed.
Lemma code_div_mod k c d :
  (0 < k)%Z → (code c / k = code d / k)%Z → (code c mod k = code d mod k)%Z → c = d.
Proof.
  intros Hk H1 H2. apply code_inj.
  rewrite (Z.div_mod (code c) k), (Z.div_mod (code d) k) by lia. by rewrite H1, H2.
Qed.

(** Turn equal digits into equal numbers. *)
Ltac b64_digits :=
  repeat match goal with
  | H : b64_char ?u _ = b64_char ?u _ |- _ => apply b64_inj in H; [|lia|lia]
  | H : b64_char _ _ = "="%char |- _ => apply b64_not_pad in H; [done|lia]
  | H : "="%char = b64_char _ _ |- _ => symmetry in H; apply b64_not_pad in H; [done|lia]
  end.

Lemma base64_inj url pad s t : base64 url pad s = base64 url pad t → s = t.
Proof.
  remember (String.length s) as n eqn:Hn. revert s Hn t.
  induction (lt_wf n) as [n _ IH]. intros s -> t E.
  destruct s as [|a [|b [|c s]]], t as [|a' [|b' [|c' t]]]; cbn in E; try done.
  all: try (destruct pad; discriminate E).
  all: pose proof (code_split a) as Ha; pose proof (code_split a') as Ha';
    try (pose proof (code_split b) as Hb); try (pose proof (code_split b') as Hb');
    try (pose proof (code_split c) as Hc); try (pose proof (code_split c') as Hc').
  all: try (destruct pad; injection E; intros; solve [discriminate | b64_digits]).
  - injection E as E1 E2. b64_digits. f_equal. apply (code_div_mod 4); lia.
  - injection E as E1 E2 E3. b64_digits. f_equal; [|f_equal].
    + apply (code_div_mod 4); lia.
    + apply (code_div_mod 16); lia.
  - injection E as E1 E2 E3 E4 E5. b64_digits.
    f_equal; [apply (code_div_mod 4); lia|]. f_equal; [apply (code_div_mod 16); lia|].
    f_equal; [apply (code_div_mod 64); lia|].
    eapply IH; [|reflexivity|exact E5]. simpl. lia.
Qed.
