(* ===== verification/GoTime.v ===== *)
(** The RFC 3339 form of a time determines the time: lemmas about the calendar
and the number formats of GoEncoding. *)

From S2P Require Import Prelude GoStrings Provider GoEncoding.
#[local] Open Scope Z_scope.

(** * Digits *)

Lemma digit_code n : code (byte_of (48 + n mod 10)) = 48 + n mod 10.
Proof. apply code_byte_of. pose proof (Z.mod_pos_bound n 10). lia. Qed.

Lemma digits_length w n : String.length (digits w n) = w.
Proof. induction w; simpl; auto. Qed.
Lemma digits_mod w n1 n2 : digits w n1 = digits w n2 → n1 mod 10 ^ Z.of_nat w = n2 mod 10 ^ Z.of_nat w.
Proof.
  induction w as [|w IH]; [intros _; by rewrite !Z.mod_1_r|].
  cbn [digits]. intros E. injection E as E1 E2.
  apply (f_equal code) in E1. rewrite !digit_code in E1. apply IH in E2.
  rewrite Nat2Z.inj_succ, Z.pow_succ_r, Z.mul_comm by lia.
  assert (0 < 10 ^ Z.of_nat w) by (apply Z.pow_pos_nonneg; lia).
  rewrite !Z.rem_mul_r by lia. rewrite E2. f_equal. f_equal. lia.
Qed.
Lemma digits_inj w n1 n2 :
  0 ≤ n1 < 10 ^ Z.of_nat w → 0 ≤ n2 < 10 ^ Z.of_nat w → digits w n1 = digits w n2 → n1 = n2.
Proof. intros H1 H2 E%digits_mod. by rewrite !Z.mod_small in E by done. Qed.

Lemma is_ascii_digit n : is_ascii (byte_of (48 + n mod 10)) = true.
Proof. unfold is_ascii. rewrite digit_code. apply Z.ltb_lt. pose proof (Z.mod_pos_bound n 10). lia. Qed.
Lemma digits_ascii w n : str_forall is_ascii (digits w n) = true.
Proof.
  induction w as [|w IH]; [done|]. cbn [digits str_forall]. by rewrite is_ascii_digit, IH.
Qed.

(** Trimming trailing zeros loses nothing when the width is known. *)
Lemma trim_right_forall p cs s : str_forall p s = true → str_forall p (trim_right cs s) = true.
Proof.
  induction s as [|c s IH]; [done|]. cbn [str_forall trim_right].
  intros [Hc Hs]%andb_true_iff. specialize (IH Hs).
  destruct (trim_right cs s) as [|d t]; [destruct (has_byte c cs); [done|]|]; cbn in *; by rewrite Hc.
Qed.
Lemma trim_zero_inj s t :
  String.length s = String.length t → trim_right "0" s = trim_right "0" t → s = t.
Proof.
  assert (Hz : ∀ c, has_byte c "0" = true → c = "0"%char).
  { intros c. rewrite has_byte_cons. change (has_byte c "") with false. rewrite orb_false_r.
    apply ascii_eqb_true. }
  revert t. induction s as [|c s IH]; intros [|d t]; try done.
  cbn [String.length trim_right]. intros [= Hl].
  destruct (trim_right "0" s) as [|c' s'] eqn:Es, (trim_right "0" t) as [|d' t'] eqn:Et.
  - assert (s = t) as -> by (apply IH; [done|by rewrite ?Es, ?Et]).
    destruct (has_byte c "0") eqn:Hc, (has_byte d "0") eqn:Hd; intros E; try done.
    + by rewrite (Hz c Hc), (Hz d Hd).
    + by injection E as ->.
  - destruct (has_byte c "0"); intros E; discriminate E || by injection E.
  - destruct (has_byte d "0"); intros E; discriminate E || by injection E.
  - intros E. injection E as -> E1 E2. f_equal. apply IH; [done|]. rewrite ?Es, ?Et. by rewrite E1, E2.
Qed.

(** * The calendar *)

(** Day number of a civil date, the inverse of [civil]. *)
Definition of_civil (y m d : Z) : Z :=
  let y := if m <=? 2 then y - 1 else y in
  let mp := if m <=? 2 then m + 9 else m - 3 in
  y / 400 * 146097 + (365 * (y mod 400) + y mod 400 / 4 - y mod 400 / 100) + ((153 * mp + 2) / 5 + d - 1).

(** The computations of [civil] within one era of 400 years, checked for every day. *)
Definition era_parts (doe : Z) : Z * Z :=
  let yoe := (doe - doe / 1460 + doe / 36524 - doe / 146096) / 365 in
  (yoe, doe - (365 * yoe + yoe / 4 - yoe / 100)).
Definition era_day_ok (doe : Z) : bool :=
  let '(yoe, doy) := era_parts doe in
  (0 <=? yoe) && (yoe <? 400) && (0 <=? doy) && (doy <=? 365).
Fixpoint count_ok (n : nat) (z : Z) : bool :=
  match n with O => true | S n => era_day_ok z && count_ok n (z + 1) end.
Lemma count_ok_spec n z : count_ok n z = true → ∀ x, z ≤ x < z + Z.of_nat n → era_day_ok x = true.
Proof.
  revert z. induction n as [|n IH]; intros z; [lia|]. cbn [count_ok].
  intros [Hz Hn]%andb_true_iff x Hx. destruct (decide (x = z)) as [->|]; [done|].
  apply (IH (z + 1)); [done|lia].
Qed.
Lemma era_all_ok : count_ok (Z.to_nat 146097) 0 = true.
Proof. vm_compute. reflexivity. Qed.
Lemma era_parts_range doe : 0 ≤ doe < 146097 →
  0 ≤ (era_parts doe).1 < 400 ∧ 0 ≤ (era_parts doe).2 ≤ 365.
Proof.
  intros H. pose proof (count_ok_spec _ _ era_all_ok doe) as Hc.
  rewrite Z2Nat.id in Hc by lia. specialize (Hc ltac:(lia)). unfold era_day_ok in Hc.
  destruct (era_parts doe). split_bools. simpl. lia.
Qed.

Lemma of_civil_civil days :
  let '(y, m, d) := civil days in
  of_civil y m d = days ∧ 1 ≤ m ≤ 12 ∧ 1 ≤ d ≤ 31 ∧
  400 * (days / 146097) ≤ y ≤ 400 * (days / 146097) + 400.
Proof.
  unfold civil. pose proof (Z.mod_pos_bound days 146097 ltac:(lia)) as Hdoe.
  pose proof (Z.div_mod days 146097 ltac:(lia)) as Hdays.
  set (era := days / 146097) in *. set (doe := days mod 146097) in *.
  pose proof (era_parts_range doe Hdoe) as [Hyoe Hdoy]. unfold era_parts in *. cbn [fst snd] in *.
  set (yoe := (doe - doe / 1460 + doe / 36524 - doe / 146096) / 365) in *. clearbody yoe.
  set (doy := doe - (365 * yoe + yoe / 4 - yoe / 100)) in *.
  assert (Hd : doe = 365 * yoe + yoe / 4 - yoe / 100 + doy) by (unfold doy; lia). clearbody doy.
  set (mp := (5 * doy + 2) / 153). assert (0 ≤ mp ≤ 11) by (unfold mp; Z.to_euclidean_division_equations; lia).
  assert (0 ≤ doy - (153 * mp + 2) / 5 ≤ 30) by (unfold mp in *; Z.to_euclidean_division_equations; lia).
  clearbody mp. unfold of_civil.
  assert (Hq : ∀ a, 0 ≤ a < 400 → (a + era * 400) / 400 = era ∧ (a + era * 400) mod 400 = a).
  { intros a Ha. rewrite Z.div_add, Z.mod_add, Z.div_small, Z.mod_small by lia. lia. }
  destruct (Hq yoe Hyoe) as [Hq1 Hq2].
  destruct (Z.ltb_spec mp 10).
  - rewrite (proj2 (Z.leb_gt (mp + 3) 2)) by lia. rewrite Hq1, Hq2.
    replace (mp + 3 - 3) with mp by lia. lia.
  - rewrite (proj2 (Z.leb_le (mp - 9) 2)) by lia. replace (yoe + era * 400 + 1 - 1) with (yoe + era * 400) by lia.
    rewrite Hq1, Hq2. replace (mp - 9 + 9) with mp by lia. lia.
Qed.

(** * RFC 3339 *)

Lemma str_app_inj_length s1 s2 t1 t2 :
  String.length s1 = String.length s2 → s1 +:+ t1 = s2 +:+ t2 → s1 = s2 ∧ t1 = t2.
Proof.
  revert s2. induction s1 as [|c s1 IH]; intros [|d s2]; try done.
  intros [= Hl] E. rewrite !str_cons_app in E. injection E as -> E. by destruct (IH s2 Hl E) as [-> ->].
Qed.
Lemma str_snoc_inj c s t : s +:+ str1 c = t +:+ str1 c → s = t.
Proof. intros E. by rewrite <-(drop_last_snoc s c), E, drop_last_snoc. Qed.

Lemma str_app_inj_tail s t u : s +:+ u = t +:+ u → s = t.
Proof.
  revert t. induction s as [|c s IH]; intros t E.
  - apply (f_equal String.length) in E as Hl. rewrite !str_length_app in Hl. destruct t; [done|simpl in Hl; lia].
  - destruct t as [|d t].
    + apply (f_equal String.length) in E. rewrite !str_length_app in E. simpl in E. lia.
    + rewrite !str_cons_app in E. injection E as -> E. f_equal. by apply IH.
Qed.

Definition fraction (nanos : Z) : string :=
  if nanos =? 0 then "" else String "." (trim_right "0" (digits 9 nanos)).
Lemma fraction_inj n1 n2 :
  0 ≤ n1 < 1000000000 → 0 ≤ n2 < 1000000000 → fraction n1 = fraction n2 → n1 = n2.
Proof.
  intros H1 H2. unfold fraction. destruct (Z.eqb_spec n1 0), (Z.eqb_spec n2 0); try done; try congruence.
  assert (Hinj : ∀ s t, String "." s = String "." t → s = t) by (intros s t E; by injection E).
  intros E%Hinj%trim_zero_inj; [|by rewrite !digits_length]. by apply (digits_inj 9).
Qed.
Lemma fraction_ascii n : str_forall is_ascii (fraction n) = true.
Proof.
  unfold fraction. destruct (n =? 0); [done|]. cbn [str_forall].
  by rewrite trim_right_forall by apply digits_ascii.
Qed.

Definition date_clock (days sod nanos : Z) : string :=
  let '(y, m, d) := civil days in
  digits 4 y +:+ "-" +:+ digits 2 m +:+ "-" +:+ digits 2 d +:+ "T" +:+
  digits 2 (sod / 3600) +:+ ":" +:+ digits 2 (sod / 60 mod 60) +:+ ":" +:+ digits 2 (sod mod 60)
  +:+ fraction nanos +:+ "Z".
Lemma rfc3339nano_date_clock t :
  rfc3339nano t = date_clock (t / 1000000000 / 86400 + 306) (t / 1000000000 mod 86400) (t mod 1000000000).
Proof. reflexivity. Qed.

Lemma year_range days : -60 ≤ days < 3652059 + 306 → let '(y, _, _) := civil days in 0 ≤ y < 10000.
Proof.
  intros Hd. pose proof (of_civil_civil days) as H. destruct (civil days) as [[y m] d] eqn:E.
  destruct H as (Hof & Hm & Hdd & Hy). unfold of_civil in Hof.
  split; apply Z.nlt_ge || apply Z.nle_gt; intros Hbad; revert Hof;
    destruct (Z.leb_spec m 2); Z.to_euclidean_division_equations; lia.
Qed.

Lemma digits_field w a b s t :
  0 ≤ a < 10 ^ Z.of_nat w → 0 ≤ b < 10 ^ Z.of_nat w → digits w a +:+ s = digits w b +:+ t →
  a = b ∧ s = t.
Proof.
  intros Ha Hb E. apply str_app_inj_length in E as [E Hst]; [|by rewrite !digits_length].
  split; [|done]. by eapply digits_inj.
Qed.
Lemma literal_field p s t : p +:+ s = p +:+ t → s = t.
Proof. intros E. by apply str_app_inj_length in E as [_ E]. Qed.

Lemma clock_range sod : 0 ≤ sod < 86400 →
  0 ≤ sod / 3600 < 100 ∧ 0 ≤ sod / 60 mod 60 < 100 ∧ 0 ≤ sod mod 60 < 100.
Proof. intros H. repeat split; Z.to_euclidean_division_equations; lia. Qed.
Lemma clock_inj s1 s2 : 0 ≤ s1 < 86400 → 0 ≤ s2 < 86400 →
  s1 / 3600 = s2 / 3600 → s1 / 60 mod 60 = s2 / 60 mod 60 → s1 mod 60 = s2 mod 60 → s1 = s2.
Proof. intros H1 H2 E1 E2 E3. Z.to_euclidean_division_equations; lia. Qed.

Lemma date_clock_inj d1 s1 n1 d2 s2 n2 :
  -60 ≤ d1 < 3652365 → -60 ≤ d2 < 3652365 → 0 ≤ s1 < 86400 → 0 ≤ s2 < 86400 →
  0 ≤ n1 < 1000000000 → 0 ≤ n2 < 1000000000 →
  date_clock d1 s1 n1 = date_clock d2 s2 n2 → d1 = d2 ∧ s1 = s2 ∧ n1 = n2.
Proof.
  intros Hd1 Hd2 Hs1 Hs2 Hn1 Hn2. unfold date_clock.
  pose proof (year_range d1 ltac:(lia)) as Hy1. pose proof (year_range d2 ltac:(lia)) as Hy2.
  pose proof (of_civil_civil d1) as Hc1. pose proof (of_civil_civil d2) as Hc2.
  destruct (civil d1) as [[y1 m1] dd1], (civil d2) as [[y2 m2] dd2].
  destruct Hc1 as (Hc1 & Hm1 & Hdd1 & _), Hc2 as (Hc2 & Hm2 & Hdd2 & _).
  destruct (clock_range s1 Hs1) as (Hh1 & Hi1 & Hj1), (clock_range s2 Hs2) as (Hh2 & Hi2 & Hj2).
  intros E.
  apply (digits_field 4) in E as [-> E]; [|exact Hy1|exact Hy2]. apply literal_field in E.
  apply (digits_field 2) in E as [-> E]; [|change (10 ^ Z.of_nat 2) with 100; lia..].
  apply literal_field in E.
  apply (digits_field 2) in E as [-> E]; [|change (10 ^ Z.of_nat 2) with 100; lia..].
  apply literal_field in E.
  apply (digits_field 2) in E as [Eh E]; [|exact Hh1|exact Hh2]. apply literal_field in E.
  apply (digits_field 2) in E as [Ei E]; [|exact Hi1|exact Hi2]. apply literal_field in E.
  apply (digits_field 2) in E as [Ej E]; [|exact Hj1|exact Hj2].
  apply (str_snoc_inj "Z") in E. apply fraction_inj in E; [|done..].
  split; [by rewrite <-Hc1, <-Hc2|]. split; [by apply clock_inj|done].
Qed.

(** Times the code may print keep their identity in RFC 3339 form. *)
Lemma rfc3339nano_inj t1 t2 :
  json_time_ok t1 = true → json_time_ok t2 = true → rfc3339nano t1 = rfc3339nano t2 → t1 = t2.
Proof.
  unfold json_time_ok. intros H1 H2. split_bools. rewrite !rfc3339nano_date_clock.
  intros E. apply date_clock_inj in E; try (Z.to_euclidean_division_equations; lia).
Qed.

Lemma rfc3339nano_utf8 t : valid_utf8 (rfc3339nano t) = true.
Proof.
  apply ascii_valid_utf8. rewrite rfc3339nano_date_clock. unfold date_clock.
  destruct (civil _) as [[y m] d]. by rewrite !str_forall_app, !digits_ascii, fraction_ascii.
Qed.
