(* ===== verification/Targets.v ===== *)
(** Sync targets (src/internal/syncer): the names secrets get at a target and the
checks that keep two secrets from one name (syncer.go, github.go), the registry
and the canonical identities of targets (registry.go), the dotenv, terraform and
Kubernetes writers (dotenv.go, terraform.go, k8s.go) and the hub inventory
(manifest.go).

Unicode normalisation (golang.org/x/text) and the URL parser are interfaces;
writing the file is the caller's, so a writer returns the bytes it writes. *)

From S2P Require Import Prelude GoStrings Provider Digest Dotenv Paths.
#[local] Open Scope go_scope.

(** * Names at the target *)

(** [SecretName]: the last path segment. *)
Definition SecretName (key : string) : string :=
  match last_index_byte key "/" with Some idx => str_drop (S idx) key | None => key end.

Definition K8sManifestAlias : string := "k8s-manifest".

Inductive target_err :=
| no_overwrite_unsupported (target : string)
| no_overwrite_list (target : string)
| secret_nil (target : string)
| destination_collision (target name previous key : string)
| dotenv_collision (name previous key : string)
| terraform_name (name : string)
| terraform_collision (name previous key : string)
| k8s_key (name : string)
| k8s_collision (name previous key : string)
| k8s_bad_name (name : string)
| k8s_bad_namespace (namespace : string)
| k8s_marshal
| bad_path (file : string)
| bad_repo (repo : string)
| bad_base_url (typ : string)
| account_required
| worker_or_pages
| project_required
| not_canonicalizable (typ : string)
| identity_error (i : nat) (e : target_err)
| identity_collision (previous i : nat) (ident : string)
| unknown_type (i : nat) (typ : string)
| factory_error (i : nat) (typ : string).

Section names.
Context {UC : UnicodeCase}.

(** [FilterAbsent]; [lister] is the target's [ExistingKeys] when it has one, with
[None] for its error. *)
Definition FilterAbsent (target : string) (lister : option (option (list string)))
    (secrets : list Secret) : result target_err (list Secret * nat) :=
  match lister with
  | None => Err (no_overwrite_unsupported target)
  | Some None => Err (no_overwrite_list target)
  | Some (Some names) =>
    let existing : gset string := list_to_set (to_upper <$> names) in
    let kept := filter (λ sec, to_upper (SecretName (Key sec)) ∉ existing) secrets in
    Ok (kept, length secrets - length kept)
  end.
End names.

Definition mapped_target (target : string) : bool :=
  bool_decide (target ∈ ["github"; "cloudflare"; "gitlab"; "terraform"; "k8s"; K8sManifestAlias]).

(** The loop stops at a nil secret or at the first clash, whichever comes first. *)
Fixpoint destination_loop (target : string) (nameToKey : gmap string string)
    (secrets : list (option Secret)) : option target_err :=
  match secrets with
  | [] => None
  | None :: _ => Some (secret_nil target)
  | Some s :: secrets =>
    let name := SecretName (Key s) in
    match nameToKey !! name with
    | Some previous =>
      if decide (previous = Key s)
      then destination_loop target (<[name := Key s]> nameToKey) secrets
      else Some (destination_collision target name previous (Key s))
    | None => destination_loop target (<[name := Key s]> nameToKey) secrets
    end
  end.
Definition ValidateDestinationMapping (target : string) (secrets : list (option Secret)) :
    option target_err :=
  if negb (mapped_target target) then None else destination_loop target ∅ secrets.

(** * Target identities *)

Record TargetConfig := mkTarget {
  tc_Type : string;
  Fields : gmap string string;
  tc_Token : string;
  NoOverwrite : bool;
}.
(** [field]: a missing entry reads as the empty string. *)
Definition field (tc : TargetConfig) (k : string) : string := default "" (Fields tc !! k).

(** What the code uses of other packages: NFC normalisation, [filepath.Abs] in the
process's working directory, and [url.Parse] with the parts it rewrites
([parse] gives scheme, host, path; [print] is [URL.String] after they were set
and [RawPath] cleared). *)
Class TargetEnv : Type := {
  nfc : string → string;
  abs : string → option string;
  url_parse : string → option (string * string * string);
  url_print : string → string → string → string → string;
}.

Section identities.
Context {UC : UnicodeCase} {TE : TargetEnv}.

Definition canonicalTargetPart (value : string) : string := to_lower (nfc (trim_space value)).

Definition canonicalEndpoint (value defaultURL : string) : option string :=
  let raw := trim_space value in
  let raw := if decide (raw = "") then defaultURL else raw in
  '(scheme, host, path) ← url_parse raw;
  if bool_decide (scheme = "") || bool_decide (host = "")
  then Some (trim_right "/" (canonicalTargetPart raw))
  else Some (trim_right "/" (url_print raw (to_lower scheme) (to_lower (nfc host))
                               (trim_right "/" (nfc path)))).

Definition file_identity (typ file : string) : result target_err string :=
  match abs (Clean file) with
  | None => Err (bad_path file)
  | Some a => Ok (typ +:+ "|" +:+ canonicalTargetPart a)
  end.
Definition or_default (file fallback : string) : string :=
  if decide (file = "") then fallback else file.

Definition CanonicalTargetIdentity (tc : TargetConfig) : result target_err string :=
  let typ := canonicalTargetPart (tc_Type tc) in
  if decide (typ = "dotenv") then file_identity "dotenv" (or_default (field tc "file") ".env")
  else if decide (typ = "github") then
    let repo := canonicalTargetPart (field tc "repo") in
    match cut_byte "/" repo with
    | Some (owner, name) =>
      if bool_decide (owner = "") || bool_decide (name = "") || has_byte "/" name
      then Err (bad_repo (field tc "repo"))
      else match canonicalEndpoint (field tc "base_url") "https://api.github.com" with
      | None => Err (bad_base_url "github")
      | Some baseURL => Ok ("github|" +:+ baseURL +:+ "|" +:+ repo)
      end
    | None => Err (bad_repo (field tc "repo"))
    end
  else if decide (typ = "cloudflare") then
    let account := canonicalTargetPart (field tc "account") in
    let worker := canonicalTargetPart (field tc "worker") in
    let pages := canonicalTargetPart (field tc "pages") in
    match canonicalEndpoint (field tc "base_url") "https://api.cloudflare.com/client/v4" with
    | None => Err (bad_base_url "cloudflare")
    | Some baseURL =>
      if decide (account = "") then Err account_required
      else if eqb (bool_decide (worker = "")) (bool_decide (pages = "")) then Err worker_or_pages
      else if bool_decide (worker = "")
      then Ok ("cloudflare|" +:+ baseURL +:+ "|" +:+ account +:+ "|pages|" +:+ pages)
      else Ok ("cloudflare|" +:+ baseURL +:+ "|" +:+ account +:+ "|worker|" +:+ worker)
    end
  else if decide (typ = "gitlab") then
    let project := canonicalTargetPart (field tc "project") in
    if decide (project = "") then Err project_required
    else match canonicalEndpoint (field tc "base_url") "https://gitlab.com" with
    | None => Err (bad_base_url "gitlab")
    | Some baseURL => Ok ("gitlab|" +:+ baseURL +:+ "|" +:+ project)
    end
  else if decide (typ = "terraform")
  then file_identity "terraform" (or_default (field tc "file") "terraform.tfvars")
  else if bool_decide (typ = "k8s") || bool_decide (typ = K8sManifestAlias) then
    let file := field tc "file" in
    if bool_decide (file = "") || bool_decide (file = "-") then Ok "k8s|stdout"
    else file_identity "k8s" file
  else Err (not_canonicalizable (tc_Type tc)).

Fixpoint identities_loop (i : nat) (seen : gmap string nat) (targets : list TargetConfig) :
    option target_err :=
  match targets with
  | [] => None
  | target :: targets =>
    match CanonicalTargetIdentity target with
    | Err e => Some (identity_error i e)
    | Ok ident =>
      match seen !! ident with
      | Some previous => Some (identity_collision previous i ident)
      | None => identities_loop (S i) (<[ident := i]> seen) targets
      end
    end
  end.
Definition ValidateTargetIdentities (targets : list TargetConfig) : option target_err :=
  identities_loop 0 ∅ targets.
End identities.

(** * The registry *)

(** [registry] maps a target type to its factory; [Register] overwrites. *)
Definition Factory (Syncer : Type) : Type := TargetConfig → option Syncer.
Definition Register {Syncer} (typ : string) (f : Factory Syncer) (registry : gmap string (Factory Syncer)) :=
  <[typ := f]> registry.
Fixpoint build_loop {Syncer} (registry : gmap string (Factory Syncer)) (i : nat)
    (targets : list TargetConfig) : result target_err (list Syncer) :=
  match targets with
  | [] => Ok []
  | tc :: targets =>
    match registry !! tc_Type tc with
    | None => Err (unknown_type i (tc_Type tc))
    | Some f =>
      match f tc with
      | None => Err (factory_error i (tc_Type tc))
      | Some s => let! out := build_loop registry (S i) targets in Ok (s :: out)
      end
    end
  end.
Definition Build {Syncer} (registry : gmap string (Factory Syncer)) (targets : list TargetConfig) :=
  build_loop registry 0 targets.

(** * Writers *)

Section writers.
Context {SS : SortSlice}.

(** The loop of a writer: check the name, refuse a second key for it, collect the
pair.  [nameToKey] is the code's map. *)
Fixpoint collect (bad : string → option target_err)
    (clash : string → string → string → target_err) (nameToKey : gmap string string)
    (secrets : list Secret) : result target_err (list (string * string)) :=
  match secrets with
  | [] => Ok []
  | s :: secrets =>
    let name := SecretName (Key s) in
    match bad name with
    | Some e => Err e
    | None =>
      match nameToKey !! name with
      | Some prev =>
        if decide (prev = Key s) then
          let! lines := collect bad clash (<[name := Key s]> nameToKey) secrets in
          Ok ((name, Value s) :: lines)
        else Err (clash name prev (Key s))
      | None =>
        let! lines := collect bad clash (<[name := Key s]> nameToKey) secrets in
        Ok ((name, Value s) :: lines)
      end
    end
  end.
(** [sort.Slice(lines, by name)] *)
Definition by_name (l : list (string * string)) : list (string * string) :=
  sort_slice (λ a b, str_lt a.1 b.1) l.

(** [DotenvSyncer.Sync]: the bytes of the file. *)
Definition DotenvSync (secrets : list Secret) : result target_err string :=
  let! lines := collect (λ _, None) dotenv_collision ∅ secrets in
  Ok (str_concat ((λ l : string * string, Encode l.1 l.2 +:+ str1 LF) <$> by_name lines)).

(** ** Terraform *)

Definition hcl_start (r : Z) : bool :=
  ((97 <=? r) && (r <=? 122) || (65 <=? r) && (r <=? 90) || (r =? 95))%Z.
Definition hcl_rest (r : Z) : bool := ((48 <=? r) && (r <=? 57) || (r =? 45))%Z.
Definition validHCLIdentifier (name : string) : bool :=
  negb (bool_decide (name = "")) &&
  forallb (λ x : nat * Z * nat, hcl_start x.1.2 || (hcl_rest x.1.2 && negb (x.1.1 =? 0)))
    (runes_at name).

(** [fmt.Fprintf("\u%04x")] for a rune below 256. *)
Definition u_escape (r : Z) : string :=
  String BSL (String "u" ("00" +:+ String (hex_digit (r / 16)) (str1 (hex_digit (r mod 16))))).
Definition hcl_rune (r : Z) : string :=
  if (r =? 34)%Z then String BSL (str1 DQ)
  else if (r =? 92)%Z then String BSL (str1 BSL)
  else if (r =? 10)%Z then String BSL "n"
  else if (r =? 13)%Z then String BSL "r"
  else if (r =? 9)%Z then String BSL "t"
  else if (r <? 32)%Z || (r =? 127)%Z then u_escape r
  else encode_rune r.
Definition hclQuote (s : string) : string :=
  String DQ (foldr (λ r t, hcl_rune r +:+ t) (str1 DQ) (runes s)).

Definition TerraformSync (secrets : list Secret) : result target_err string :=
  let! assignments := collect
    (λ name, if validHCLIdentifier name then None else Some (terraform_name name))
    terraform_collision ∅ secrets in
  Ok (str_concat ((λ a : string * string, a.1 +:+ " = " +:+ hclQuote a.2 +:+ str1 LF)
                    <$> by_name assignments)).

(** ** Kubernetes *)

Definition k8s_byte (c : ascii) : bool :=
  is_lower c || is_upper c || is_digit c || (c =c "-") || (c =c "_") || (c =c ".").
Definition validK8sSecretKey (name : string) : bool :=
  negb (bool_decide (name = "")) && str_forall k8s_byte name.

(** For a non-empty label. *)
Definition validDNSLabel (label : string) : bool :=
  match label with
  | "" => false
  | String c _ =>
    negb (c =c "-") && negb (bool_decide (last_byte label = Some "-"%char)) &&
    str_forall (λ c, is_lower c || is_digit c || (c =c "-")) label
  end.
(** The loop cuts one label at a time at the dots. *)
Definition validDNSSubdomain (name : string) : bool :=
  if bool_decide (name = "") || (253 <? String.length name) then false
  else forallb (λ label, negb (bool_decide (label = "")) && (String.length label <=? 63)
                         && validDNSLabel label) (split_byte "." name).

Record k8sSecretManifest := mkManifest {
  APIVersion : string;
  mf_Kind : string;
  md_Name : string;
  md_Namespace : string;
  mf_Type : string;
  StringData : gmap string string;
}.
Record K8sSyncer := mkK8s { k8s_filePath : string; k8s_secretName : string; k8s_namespace : string }.

Definition NewK8s (filePath secretName namespace : string) : K8sSyncer :=
  {| k8s_filePath := if decide (filePath = "") then "-" else filePath;
     k8s_secretName := if decide (secretName = "") then "skret-secrets" else secretName;
     k8s_namespace := namespace |}.
Definition newK8sFromConfig (tc : TargetConfig) : result target_err K8sSyncer :=
  let name := or_default (field tc "name") "skret-secrets" in
  if negb (validDNSSubdomain name) then Err (k8s_bad_name name)
  else
    let ns := field tc "namespace" in
    if negb (bool_decide (ns = "")) && negb (validDNSSubdomain ns) then Err (k8s_bad_namespace ns)
    else Ok (NewK8s (field tc "file") name ns).

(** [render]; [marshal] is the YAML encoder. *)
Definition k8s_manifest (k : K8sSyncer) (secrets : list Secret) :
    result target_err k8sSecretManifest :=
  let! pairs := collect
    (λ name, if validK8sSecretKey name then None else Some (k8s_key name))
    k8s_collision ∅ secrets in
  Ok {| APIVersion := "v1"; mf_Kind := "Secret"; md_Name := k8s_secretName k;
        md_Namespace := k8s_namespace k; mf_Type := "Opaque";
        StringData := foldl (λ m p, <[p.1 := p.2]> m) ∅ pairs |}.
Definition k8s_render (marshal : k8sSecretManifest → option string) (k : K8sSyncer)
    (secrets : list Secret) : result target_err string :=
  let! m := k8s_manifest k secrets in
  match marshal m with Some b => Ok b | None => Err k8s_marshal end.
End writers.

(** * The hub inventory *)

Record ManifestTarget := mkMT { Present : bool; mt_Status : string }.
Record ManifestKey := mkMK {
  mk_Name : string; mk_Fingerprint : string; mk_UpdatedAt : time; mk_Targets : gmap string ManifestTarget }.
Record Manifest := mkMF {
  mf_Namespace : string; mf_Env : string; GeneratedAt : time; Keys : list ManifestKey }.
Record TargetPresence := mkTP { Names : gset string; Ok_ : bool }.

Section inventory.
Context {UC : UnicodeCase} {SH : SHA256}.

(** [Fingerprint]: the first 8 hexadecimal digits of the salted digest. *)
Definition Fingerprint (salt value : string) : string := str_take 8 (sha256_hex (salt +:+ value)).

Definition target_status (name : string) (p : TargetPresence) : ManifestTarget :=
  if negb (Ok_ p) then {| Present := false; mt_Status := "unknown" |}
  else if decide (to_upper name ∈ Names p) then {| Present := true; mt_Status := "present" |}
  else {| Present := false; mt_Status := "absent" |}.

Definition BuildManifest (ns env salt : string) (secrets : list Secret)
    (presence : gmap string TargetPresence) : Manifest :=
  {| mf_Namespace := ns; mf_Env := env; GeneratedAt := 0;
     Keys := (λ s, {| mk_Name := SecretName (Key s);
                      mk_Fingerprint := Fingerprint salt (Value s);
                      mk_UpdatedAt := UpdatedAt (Meta s);
                      mk_Targets := target_status (SecretName (Key s)) <$> presence |}) <$> secrets |}.
End inventory.
