(* ===== verification/TargetProps.v ===== *)
(** Properties of the sync targets: destination names, the dotenv file and its
import, the terraform and Kubernetes writers, target identities, the inventory. *)

From S2P Require Import Prelude GoStrings Provider Digest Dotenv Paths Targets.
#[local] Open Scope go_scope.

(** * Names *)

Definition names_agree (secrets : list Secret) : Prop :=
  ∀ s1 s2, s1 ∈ secrets → s2 ∈ secrets →
    SecretName (Key s1) = SecretName (Key s2) → Key s1 = Key s2.

Lemma names_agree_all secrets :
  names_agree secrets ↔
  first_collision (λ _, false) (λ s, SecretName (Key s)) Key ∅ secrets = None.
Proof. rewrite first_collision_None. unfold names_agree, agree. naive_solver. Qed.

Lemma destination_loop_first target seen secrets :
  destination_loop target seen (Some <$> secrets) =
  (λ c : string * string * string, destination_collision target c.1.1 c.1.2 c.2) <$>
    first_collision (λ _, false) (λ s, SecretName (Key s)) Key seen secrets.
Proof.
  revert seen. induction secrets as [|s secrets IH]; intros seen; cbn; [done|].
  destruct (seen !! SecretName (Key s)); [case_decide|]; auto.
Qed.

Lemma collect_ok bad clash seen secrets lines :
  collect bad clash seen secrets = Ok lines →
  lines = (λ s, (SecretName (Key s), Value s)) <$> secrets ∧
  (∀ s, s ∈ secrets → bad (SecretName (Key s)) = None) ∧
  first_collision (λ _, false) (λ s, SecretName (Key s)) Key seen secrets = None.
Proof.
  revert seen lines. induction secrets as [|s secrets IH]; intros seen lines; cbn.
  { intros [= <-]. set_solver. }
  destruct (bad (SecretName (Key s))) eqn:Hb; [done|].
  assert (∀ seen', result_bind (λ lines, Ok ((SecretName (Key s), Value s) :: lines))
      (collect bad clash seen' secrets) = Ok lines →
    lines = (SecretName (Key s), Value s) :: ((λ s, (SecretName (Key s), Value s)) <$> secrets) ∧
    (∀ s', s' ∈ s :: secrets → bad (SecretName (Key s')) = None) ∧
    first_collision (λ _, false) (λ s, SecretName (Key s)) Key seen' secrets = None) as Hrec.
  { intros seen' (l & Hl & [= <-])%result_bind_Ok. destruct (IH _ _ Hl) as (-> & ? & ?).
    split; [done|]. split; [set_solver|done]. }
  destruct (seen !! SecretName (Key s)); [case_decide; [|done]|]; intros Hx; by apply Hrec.
Qed.
Lemma collect_total bad clash secrets :
  (∀ s, s ∈ secrets → bad (SecretName (Key s)) = None) → ∀ seen,
  first_collision (λ _, false) (λ s, SecretName (Key s)) Key seen secrets = None →
  collect bad clash seen secrets = Ok ((λ s, (SecretName (Key s), Value s)) <$> secrets).
Proof.
  intros Hb. induction secrets as [|s secrets IH]; intros seen; cbn; [done|].
  rewrite Hb by set_solver.
  destruct (seen !! SecretName (Key s)); [case_decide; [|done]|];
    intros Hx; (rewrite IH; [done|set_solver|done]).
Qed.

(** the check before any provider request accepts a batch for a name-keyed
target exactly when it holds no nil secret and no two distinct source keys share
a destination name; a rejected clash names two distinct keys of the batch. *)
Theorem destination_mapping_safe target secrets :
  mapped_target target = true →
  (ValidateDestinationMapping target secrets = None ↔
   ∃ l, secrets = Some <$> l ∧ names_agree l) ∧
  ∀ n k1 k2, ValidateDestinationMapping target secrets = Some (destination_collision target n k1 k2) →
    k1 ≠ k2 ∧ SecretName k1 = n ∧ SecretName k2 = n.
Proof.
  intros Ht. unfold ValidateDestinationMapping. rewrite Ht. cbn [negb].
  assert (Hgen : ∀ seen, (∀ n k, seen !! n = Some k → SecretName k = n) →
    (destination_loop target seen secrets = None → ∃ l, secrets = Some <$> l) ∧
    ∀ n k1 k2, destination_loop target seen secrets = Some (destination_collision target n k1 k2) →
      k1 ≠ k2 ∧ SecretName k1 = n ∧ SecretName k2 = n).
  { clear Ht. induction secrets as [|[s|] secrets IH]; intros seen Hseen; cbn.
    - split; [by exists []|done].
    - assert (Hs : ∀ n k, (<[SecretName (Key s) := Key s]> seen) !! n = Some k → SecretName k = n).
      { intros n k [[<- <-]|[_ H]]%lookup_insert_Some; auto. }
      destruct (IH _ Hs) as [IH1 IH2]. destruct (seen !! SecretName (Key s)) as [p|] eqn:E.
      + case_decide as Hp; split; auto; try done.
        * intros [l ->]%IH1. by exists (s :: l).
        * intros n k1 k2 [= <- <- <-]. auto.
      + split; [|done]. intros [l ->]%IH1. by exists (s :: l).
    - done. }
  destruct (Hgen ∅) as [H1 H2]; [done|]. split; [|done]. split.
  - intros H. destruct (H1 H) as [l ->]. exists l. split; [done|]. apply names_agree_all.
    rewrite destination_loop_first in H. by apply fmap_None in H.
  - intros (l & -> & Hl%names_agree_all). by rewrite destination_loop_first, Hl.
Qed.
Lemma destination_mapping_safe_witness :
  ValidateDestinationMapping "github" [Some (mk_secret "/a/X" "1"); Some (mk_secret "/b/X" "2")] ≠ None.
Proof.
  destruct (destination_mapping_safe "github"
    [Some (mk_secret "/a/X" "1"); Some (mk_secret "/b/X" "2")] eq_refl) as [[H1 _] _].
  intros (l & Hl & Ha)%H1. destruct l as [|s1 [|s2 [|]]]; try discriminate Hl.
  injection Hl as <- <-. discriminate (Ha (mk_secret "/a/X" "1") (mk_secret "/b/X" "2")
    ltac:(set_solver) ltac:(set_solver) eq_refl).
Defined.

(** no-overwrite never writes a name the target already holds (whatever its
case), keeps every other secret in order, and counts what it skipped; a target
that cannot list its names is an error, never an overwrite. *)
Theorem filter_absent_safe `{UC : UnicodeCase} target lister secrets :
  match lister with
  | Some (Some names) =>
    ∃ kept, FilterAbsent target lister secrets = Ok (kept, length secrets - length kept) ∧
      kept `sublist_of` secrets ∧
      (∀ s, s ∈ kept ↔ s ∈ secrets ∧ ∀ n, n ∈ names → to_upper n ≠ to_upper (SecretName (Key s)))
  | _ => ∃ e, FilterAbsent target lister secrets = Err e
  end.
Proof.
  destruct lister as [[names|]|]; cbn; [|eauto..]. eexists. split; [done|].
  split; [apply sublist_filter|]. intros s. rewrite list_elem_of_filter.
  rewrite elem_of_list_to_set, list_elem_of_fmap. split.
  - intros [Hn Hs]. split; [done|]. intros n Hin E. apply Hn. by exists n.
  - intros [Hs Hn]. split; [|done]. intros (n & E & Hin). by apply (Hn n).
Qed.

(** * The dotenv file *)

Section dotenv_file.
Context {SS : SortSlice}.

Lemma by_name_perm l : by_name l ≡ₚ l.
Proof. apply sort_slice_perm. Qed.

Lemma has_byte_flat_map_escape v : has_byte LF (str_flat_map escape_byte v) = false.
Proof.
  induction v as [|c v IH]; [done|]. cbn [str_flat_map]. rewrite has_byte_app, IH, orb_false_r.
  destruct c as [[] [] [] [] [] [] [] []]; by vm_compute.
Qed.

(** A value written bare holds no line break, no carriage return. *)
Lemma bare_clean v : needsQuoting v = false → has_byte LF v = false ∧ has_byte CR v = false.
Proof.
  intros Hq. unfold needsQuoting in Hq. case_decide; [done|].
  unfold contains_any in Hq. apply str_exists_false in Hq.
  split; unfold has_byte; apply str_exists_false; (eapply str_forall_impl; [|exact Hq]);
    intros c Hc; apply negb_true_iff; apply negb_true_iff in Hc; apply ascii_eqb_false;
    intros <-; vm_compute in Hc; discriminate.
Qed.
Lemma last_byte_app s c t : last_byte (s +:+ String c t) = last_byte (String c t).
Proof.
  induction s as [|d s IH]; [done|]. rewrite str_cons_app. cbn [last_byte].
  destruct s as [|e s]; [by rewrite str_nil_app|]. rewrite str_cons_app in IH |- *. exact IH.
Qed.
Lemma last_byte_has c s : last_byte s = Some c → has_byte c s = true.
Proof.
  induction s as [|d s IH]; [done|]. cbn [last_byte]. rewrite has_byte_cons. destruct s as [|e s].
  - intros [= ->]. by rewrite ascii_eqb_refl.
  - intros H. by rewrite IH, orb_true_r.
Qed.

(** An encoded line holds no line break and does not end in CR. *)
Lemma Encode_line k v :
  has_byte LF k = false →
  has_byte LF (Encode k v) = false ∧ last_byte (Encode k v) ≠ Some CR.
Proof.
  intros Hk. unfold Encode. destruct (needsQuoting v) eqn:Hq; cbn [negb].
  - change ("=" +:+ quote v) with (String "=" (quote v)). split.
    + rewrite has_byte_app, Hk, has_byte_cons. cbn [orb]. unfold quote.
      by rewrite has_byte_cons, has_byte_app, has_byte_flat_map_escape.
    + rewrite last_byte_app. unfold quote. rewrite <-str_cons_app, <-str_cons_app.
      by rewrite last_byte_snoc.
  - destruct (bare_clean v Hq) as [H1 H2].
    change ("=" +:+ v) with (String "=" v). split.
    + by rewrite has_byte_app, Hk, has_byte_cons, H1.
    + rewrite last_byte_app. intros Hl%last_byte_has. rewrite has_byte_cons, H2 in Hl. done.
Qed.

(** The lines of a file whose lines are ended by LF. *)
Lemma raw_lines_lines l :
  (∀ s, s ∈ l → has_byte LF s = false) →
  raw_lines (str_concat ((λ s, s +:+ str1 LF) <$> l)) = l.
Proof.
  intros Hl. unfold raw_lines. rewrite split_byte_lines by done. rewrite last_snoc.
  rewrite length_app, Nat.add_comm. cbn. apply take_app_length.
Qed.
End dotenv_file.

(** A secret the dotenv file can carry: its name is a dotenv key on one line, and
its line fits the importer's buffer. *)
Definition dotenv_secret (s : Secret) : bool :=
  dotenv_key (SecretName (Key s)) && negb (has_byte LF (SecretName (Key s)))
  && negb (line_too_long (Encode (SecretName (Key s)) (Value s))).

(** What `skret sync` writes to a dotenv file, `skret import` reads back: every
secret under its target name with its exact value, once per secret, in name
order; the writer refuses two distinct keys with one name. *)
Theorem dotenv_file_roundtrip `{SS : SortSlice} secrets :
  (∀ s, s ∈ secrets → dotenv_secret s = true) →
  (names_agree secrets ↔ is_ok (DotenvSync secrets) = true) ∧
  ∀ file, DotenvSync secrets = Ok file →
    ∃ imported, Import (Some file) = Ok imported ∧
      imported ≡ₚ (λ s, {| is_Key := SecretName (Key s); is_Value := Value s |}) <$> secrets ∧
      StronglySorted (λ a b, str_lt (is_Key b) (is_Key a) = false) imported.
Proof.
  intros Hs. split.
  - rewrite names_agree_all. unfold DotenvSync. split.
    + intros Hc. by rewrite collect_total.
    + destruct (collect _ _ _ _) eqn:E; [|done]. intros _. by apply collect_ok in E as (_ & _ & ?).
  - intros file. unfold DotenvSync. intros (lines & Hl & [= <-])%result_bind_Ok.
    apply collect_ok in Hl as (-> & _ & _).
    set (l := (λ s, (SecretName (Key s), Value s)) <$> secrets).
    assert (Hok : ∀ p, p ∈ by_name l → dotenv_key p.1 = true ∧ has_byte LF p.1 = false ∧
      line_too_long (Encode p.1 p.2) = false).
    { intros p. rewrite by_name_perm. unfold l. rewrite list_elem_of_fmap.
      intros (s & -> & Hin). specialize (Hs s Hin). unfold dotenv_secret in Hs. by split_bools. }
    assert (Hlines : raw_lines (str_concat ((λ p : string * string, Encode p.1 p.2 +:+ str1 LF)
      <$> by_name l)) = (λ p : string * string, Encode p.1 p.2) <$> by_name l).
    { rewrite <-(raw_lines_lines ((λ p, Encode p.1 p.2) <$> by_name l)).
      - by rewrite <-list_fmap_compose.
      - intros s. rewrite list_elem_of_fmap. intros (p & -> & Hin).
        by apply Encode_line, Hok. }
    exists ((λ p : string * string, {| is_Key := p.1; is_Value := p.2 |}) <$> by_name l).
    split; [|split].
    + unfold Import. rewrite Hlines.
      assert (existsb line_too_long ((λ p : string * string, Encode p.1 p.2) <$> by_name l) = false) as ->.
      { apply not_true_iff_false. intros (x & Hin & Hx)%existsb_exists.
        apply list_elem_of_In, list_elem_of_fmap in Hin as (p & -> & Hin).
        destruct (Hok p Hin) as (_ & _ & Hlen). congruence. }
      f_equal. clear Hlines. induction (by_name l) as [|p r IH]; [done|].
      destruct (Hok p) as (Hk & Hlf & _); [set_solver|]. cbn.
      assert (Hstrip : strip_cr (Encode p.1 p.2) = Encode p.1 p.2).
      { unfold strip_cr. rewrite decide_False; [done|]. by apply Encode_line. }
      rewrite Hstrip, (Decode_Encode p.1 p.2 Hk). cbn. f_equal. apply IH. set_solver.
    + rewrite by_name_perm. unfold l. by rewrite <-list_fmap_compose.
    + assert (Hsort : StronglySorted (λ a b : string * string, str_lt b.1 a.1 = false) (by_name l)).
      { apply sort_slice_sorted; intros; eauto with sorting. }
      clear Hok Hlines. induction Hsort as [|p r Hr IH Hp]; [constructor|].
      constructor; [done|]. apply Forall_fmap. exact Hp.
Qed.

Lemma dotenv_file_roundtrip_witness :
  let secrets := [mk_secret "/app/prod/DB" "p w"; mk_secret "/app/prod/API" "k"] in
  ∃ file, DotenvSync secrets = Ok file ∧
    Import (Some file) = Ok [ {| is_Key := "API"; is_Value := "k" |};
                              {| is_Key := "DB"; is_Value := "p w" |} ].
Proof.
  set (secrets := [mk_secret "/app/prod/DB" "p w"; mk_secret "/app/prod/API" "k"]).
  destruct (dotenv_file_roundtrip secrets) as [_ H].
  { apply Forall_forall. repeat constructor. }
  let f := eval vm_compute in (match DotenvSync secrets with Ok f => f | Err _ => "" end) in
    exists f; assert (E : DotenvSync secrets = Ok f) by (vm_compute; reflexivity).
  split; [exact E|]. destruct (H _ E) as (imported & Hi & _).
  rewrite Hi. vm_compute in Hi. injection Hi as <-. reflexivity.
Defined.

(** * The terraform and Kubernetes files *)

(** An unescaped [${] passes through [hclQuote], where HCL starts a template
interpolation: the written literal is not the value. *)
Lemma hclQuote_interpolation : hclQuote "${x}" = String DQ ("${x}" +:+ str1 DQ).
Proof. vm_compute. reflexivity. Qed.

(** Bytes that are not UTF-8 do not pass through: each becomes U+FFFD. *)
Lemma hclQuote_invalid_utf8 :
  hclQuote (str1 (byte_of 255)) = String DQ (encode_rune RuneError +:+ str1 DQ).
Proof. vm_compute. reflexivity. Qed.

(** the terraform and Kubernetes writers accept a batch exactly when every
target name is legal there and no two distinct keys share one; the Secret then
holds one entry per name, with the value of the last secret of that name. *)
Theorem file_targets_accept `{SS : SortSlice} k secrets :
  (is_ok (TerraformSync secrets) = true ↔
     (∀ s, s ∈ secrets → validHCLIdentifier (SecretName (Key s)) = true) ∧ names_agree secrets) ∧
  (is_ok (k8s_manifest k secrets) = true ↔
     (∀ s, s ∈ secrets → validK8sSecretKey (SecretName (Key s)) = true) ∧ names_agree secrets) ∧
  ∀ m, k8s_manifest k secrets = Ok m → ∀ n,
    StringData m !! n = Value <$> last (filter (λ s, SecretName (Key s) = n) secrets).
Proof.
  assert (Hacc : ∀ (ok : string → bool) (bad : string → target_err) clash,
    is_ok (collect (λ n, if ok n then None else Some (bad n)) clash ∅ secrets) = true ↔
    (∀ s, s ∈ secrets → ok (SecretName (Key s)) = true) ∧ names_agree secrets).
  { intros ok bad clash. rewrite names_agree_all. split.
    - destruct (collect _ _ _ _) eqn:E; [|done]. intros _. apply collect_ok in E as (_ & Hb & Hc).
      split; [|done]. intros s Hs. specialize (Hb s Hs). by destruct (ok _).
    - intros [Hb Hc]. rewrite collect_total; [done| |done]. intros s Hs. by rewrite Hb. }
  split; [|split].
  - rewrite <-(Hacc validHCLIdentifier terraform_name terraform_collision).
    unfold TerraformSync. by destruct (collect _ _ _ _).
  - rewrite <-(Hacc validK8sSecretKey k8s_key k8s_collision).
    unfold k8s_manifest. by destruct (collect _ _ _ _).
  - unfold k8s_manifest. intros m (l & Hl & [= <-])%result_bind_Ok n. cbn.
    apply collect_ok in Hl as (-> & _ & _).
    assert (Hfold : ∀ m0 : gmap string string,
      foldl (λ m p, <[p.1 := p.2]> m) m0 ((λ s, (SecretName (Key s), Value s)) <$> secrets) !! n =
      match last (filter (λ s, SecretName (Key s) = n) secrets) with
      | Some s => Some (Value s) | None => m0 !! n end).
    { clear. induction secrets as [|s l IH]; intros m0; [done|]. cbn [fmap list_fmap foldl fst snd].
      rewrite IH, filter_cons. case_decide as Hn.
      - rewrite last_cons. destruct (last (filter _ l)); [done|]. by rewrite Hn, lookup_insert_eq.
      - destruct (last (filter _ l)); [done|]. by rewrite lookup_insert_ne. }
    rewrite Hfold. by destruct (last _).
Qed.

(** * Target identities *)

(** a target list passes exactly when every target has a canonical identity and
no two targets resolve to the same destination; a reported collision names the
two positions that share one. *)
Theorem target_identities_distinct `{UC : UnicodeCase, TE : TargetEnv} targets :
  (ValidateTargetIdentities targets = None ↔
   ∃ ids, CanonicalTargetIdentity <$> targets = Ok <$> ids ∧ NoDup ids) ∧
  ∀ p i ident, ValidateTargetIdentities targets = Some (identity_collision p i ident) →
    p < i ∧ CanonicalTargetIdentity <$> targets !! p = Some (Ok ident) ∧
    CanonicalTargetIdentity <$> targets !! i = Some (Ok ident).
Proof.
  unfold ValidateTargetIdentities.
  assert (Hgen : ∀ rest pre ids seen, CanonicalTargetIdentity <$> pre = Ok <$> ids → NoDup ids →
    (∀ x p, seen !! x = Some p ↔ ids !! p = Some x) →
    (identities_loop (length pre) seen rest = None ↔
     ∃ ids', CanonicalTargetIdentity <$> rest = Ok <$> ids' ∧ NoDup (ids ++ ids')) ∧
    ∀ p i ident, identities_loop (length pre) seen rest = Some (identity_collision p i ident) →
      p < i ∧ CanonicalTargetIdentity <$> (pre ++ rest) !! p = Some (Ok ident) ∧
      CanonicalTargetIdentity <$> (pre ++ rest) !! i = Some (Ok ident)).
  { induction rest as [|t rest IH]; intros pre ids seen Hpre Hnd Hseen; cbn [identities_loop].
    - split; [|done]. split; [|done]. intros _. exists []. by rewrite app_nil_r.
    - assert (Hlen : length pre = length ids) by (apply (f_equal length) in Hpre; by rewrite !length_fmap in Hpre).
      destruct (CanonicalTargetIdentity t) as [x|e] eqn:Ht.
      2:{ split; [|done]. split; [done|]. intros (ids' & Hid & _). cbn in Hid. rewrite Ht in Hid.
          destruct ids'; done. }
      destruct (seen !! x) as [p0|] eqn:Hx.
      + apply Hseen in Hx. split.
        * split; [done|]. intros (ids' & Hid & Hnd'). cbn in Hid. rewrite Ht in Hid.
          destruct ids' as [|y ids']; [done|]. injection Hid as <- _.
          apply NoDup_app in Hnd' as (_ & Hd & _). exfalso. apply (Hd x); [|set_solver].
          by eapply list_elem_of_lookup_2.
        * intros p i ident [= <- <- <-]. pose proof (lookup_lt_Some _ _ _ Hx). split; [lia|].
          rewrite lookup_app_l by lia. split.
          -- assert (Hp : (CanonicalTargetIdentity <$> pre) !! p0 = Some (Ok x))
               by by rewrite Hpre, list_lookup_fmap, Hx.
             by rewrite list_lookup_fmap in Hp.
          -- rewrite lookup_app_r, Nat.sub_diag by lia. cbn. by rewrite Ht.
      + destruct (IH (pre ++ [t]) (ids ++ [x]) (<[x := length pre]> seen)) as [IH1 IH2].
        * rewrite !fmap_app, Hpre. cbn. by rewrite Ht.
        * apply NoDup_app. split; [done|]. split; [|apply NoDup_singleton].
          intros y Hy ->%list_elem_of_singleton.
          apply list_elem_of_lookup in Hy as [j Hj]. apply Hseen in Hj. congruence.
        * intros y p. rewrite lookup_insert_Some, lookup_app_Some, Hseen.
          assert (ids !! p = Some x → False).
          { intros Hp. apply Hseen in Hp. congruence. }
          split.
          -- intros [[<- <-]|[Hne Hy]]; [right|by left]. split; [lia|]. by rewrite Hlen, Nat.sub_diag.
          -- intros [Hy|[Hge Hy]]; [right; split; [by intros ->|done]|left].
             apply list_lookup_singleton_Some in Hy as [Hp <-]. split; [done|lia].
        * rewrite length_app in IH1, IH2. cbn in IH1, IH2. rewrite Nat.add_1_r in IH1, IH2. split.
          -- rewrite IH1. split.
             ++ intros (ids' & Hid & Hnd'). exists (x :: ids'). cbn. rewrite Ht, Hid.
                split; [done|]. by rewrite <-app_assoc in Hnd'.
             ++ intros (ids' & Hid & Hnd'). cbn in Hid. rewrite Ht in Hid.
                destruct ids' as [|y ids']; [done|]. injection Hid as <- Hid. exists ids'.
                split; [done|]. by rewrite <-app_assoc.
          -- intros p i ident Hl. specialize (IH2 _ _ _ Hl). by rewrite <-app_assoc in IH2. }
  apply (Hgen targets [] [] ∅); [done|constructor|]. intros x p. rewrite lookup_empty. by destruct p.
Qed.

(** * The inventory *)

(** the hub inventory holds no secret value: two batches with the same keys,
times and salted fingerprints give the same manifest, whatever their values;
each entry's status is present, absent or unknown as the target's listing says. *)
Theorem manifest_hides_values `{UC : UnicodeCase, SH : SHA256} ns env salt l1 l2 presence :
  Forall2 (λ s1 s2, Key s1 = Key s2 ∧ UpdatedAt (Meta s1) = UpdatedAt (Meta s2) ∧
    Fingerprint salt (Value s1) = Fingerprint salt (Value s2)) l1 l2 →
  BuildManifest ns env salt l1 presence = BuildManifest ns env salt l2 presence ∧
  ∀ k t mt, k ∈ Keys (BuildManifest ns env salt l1 presence) → mk_Targets k !! t = Some mt →
    ∃ p, presence !! t = Some p ∧
      (mt_Status mt = "unknown" ∧ Ok_ p = false ∨
       mt_Status mt = "present" ∧ Ok_ p = true ∧ to_upper (mk_Name k) ∈ Names p ∨
       mt_Status mt = "absent" ∧ Ok_ p = true ∧ to_upper (mk_Name k) ∉ Names p) ∧
      Present mt = bool_decide (mt_Status mt = "present").
Proof.
  intros Hl. split.
  - unfold BuildManifest. f_equal. induction Hl as [|s1 s2 l1 l2 (Hk & Hu & Hf) _ IH]; [done|].
    rewrite !fmap_cons, IH. by rewrite Hk, Hu, Hf.
  - intros k t mt Hk Ht. unfold BuildManifest in Hk. cbn in Hk.
    apply list_elem_of_fmap in Hk as (s & -> & _). cbn in Ht.
    rewrite lookup_fmap, fmap_Some in Ht. destruct Ht as (p & Hp & ->). exists p.
    split; [done|]. unfold target_status. cbn. destruct (Ok_ p); cbn; [case_decide|];
      (split; [cbn; tauto|done]).
Qed.
Lemma manifest_hides_values_witness :
  BuildManifest (SH := toy_sha) "app" "prod" "salt" [mk_secret "A" "xx"] ∅ =
  BuildManifest (SH := toy_sha) "app" "prod" "salt" [mk_secret "A" "yy"] ∅.
Proof.
  apply (manifest_hides_values (SH := toy_sha) "app" "prod" "salt" [mk_secret "A" "xx"]
    [mk_secret "A" "yy"] ∅).
  constructor; [|constructor]. split; [reflexivity|]. split; [reflexivity|].
  vm_compute. reflexivity.
Defined.
