(* ===== verification/Envelope.v ===== *)
(** Signed executor envelopes (src/internal/syncer/envelope_client.go): building,
canonical signing bytes, verification, and the client's submission.

Ed25519 is an interface with the law of a signature scheme; the URL parser is one
that gives the parts the code inspects. *)

From S2P Require Import Prelude GoStrings Provider Digest GoEncoding.
#[local] Open Scope go_scope.

Definition EnvelopeVersion : Z := 1.
(** 15 minutes in nanoseconds. *)
Definition MaxEnvelopeTTL : Z := 900 * second.
Definition MaxEnvelopeResponseBytes : Z := 1048576.
Definition executorEnvelopePath : string := "/operator/executor-envelope".

Record ExecutorEnvelope := mkEnvelope {
  ev_Version : Z;
  Audience : string;
  Role : string;
  ManifestDigest : string;
  BodyDigest : string;
  Nonce : string;
  ExpiresAt : time;
  Body : string;
  Signature : string;
}.

Inductive envelope_err :=
| missing_envelope
| unsupported_version
| field_required (name : string)
| invalid_manifest_digest
| invalid_body_digest
| body_required
| body_digest_mismatch
| invalid_expiry
| expiry_required
| expiry_not_future
| expiry_exceeds_ttl
| invalid_signature
| invalid_verifier_key
| invalid_signer
| missing_client
| session_cookie_required
| invalid_base_url
| base_url_scheme
| base_url_host
| base_url_userinfo
| base_url_not_origin
| base_url_query
| base_url_fragment
| submit_failed
| submit_no_response
| hub_status (status : Z)
| response_read_failed
| response_too_large.

Definition validateRequiredField (value name : string) : option envelope_err :=
  if decide (trim_space value = "") then Some (field_required name) else None.

Section envelope.
Context {UC : UnicodeCase} {SH : SHA256} {ED : Ed25519}.

(** [hex.DecodeString] succeeds: an even number of digits of either case. *)
Definition hex_decodable (s : string) : bool :=
  Nat.even (String.length s) && str_forall (λ c, hex_byte c || in_range 65 70 c) s.
Definition validDigest (value : string) : bool :=
  if negb (has_prefix value "sha256:") then false
  else
    let hexValue := trim_prefix value "sha256:" in
    if negb (String.length hexValue =? 64) then false
    else hex_decodable hexValue && bool_decide (hexValue = to_lower hexValue).
Definition digestBytes (body : string) : string := "sha256:" +:+ sha256_hex body.

Definition validateExpiry (expiresAt now : time) : option envelope_err :=
  err_if (is_zero expiresAt) expiry_required (
  err_if (negb (json_time_ok expiresAt)) invalid_expiry (
  err_if (negb (after expiresAt now)) expiry_not_future (
  err_if (MaxEnvelopeTTL <? time_sub expiresAt now)%Z expiry_exceeds_ttl None))).

Definition validateEnvelopeFields (e : ExecutorEnvelope) : option envelope_err :=
  err_if (negb (ev_Version e =? EnvelopeVersion)%Z) unsupported_version (
  err_seq (validateRequiredField (Audience e) "audience") (
  err_seq (validateRequiredField (Role e) "role") (
  err_seq (validateRequiredField (ManifestDigest e) "manifest digest") (
  err_if (negb (validDigest (ManifestDigest e))) invalid_manifest_digest (
  err_seq (validateRequiredField (BodyDigest e) "body digest") (
  err_if (negb (validDigest (BodyDigest e))) invalid_body_digest (
  err_seq (validateRequiredField (Nonce e) "nonce") (
  err_if (bool_decide (Body e = "")) body_required (
  err_if (negb (bool_decide (digestBytes (Body e) = BodyDigest e))) body_digest_mismatch (
  err_if (negb (json_time_ok (ExpiresAt e))) invalid_expiry None)))))))))).

Definition validateEnvelope (e : ExecutorEnvelope) (now : time) : option envelope_err :=
  err_seq (validateEnvelopeFields e) (
  err_seq (validateExpiry (ExpiresAt e) now) (
  err_if (negb (String.length (Signature e) =? SignatureSize)) invalid_signature None)).

(** [json.Marshal] of [envelopeSigningDocument]: the fields in order. *)
Definition json_field (name value : string) : string := json_string name +:+ ":" +:+ value.
Definition signing_document (e : ExecutorEnvelope) : string :=
  "{" +:+ json_field "version" (itoa (ev_Version e)) +:+ "," +:+
  json_field "audience" (json_string (Audience e)) +:+ "," +:+
  json_field "role" (json_string (Role e)) +:+ "," +:+
  json_field "manifest_digest" (json_string (ManifestDigest e)) +:+ "," +:+
  json_field "body_digest" (json_string (BodyDigest e)) +:+ "," +:+
  json_field "nonce" (json_string (Nonce e)) +:+ "," +:+
  json_field "expires_at" (json_string (rfc3339nano (ExpiresAt e))) +:+ "," +:+
  json_field "body" (String DQ (StdEncoding (Body e) +:+ str1 DQ)) +:+ "}".

(** [CanonicalSigningBytes], on a possibly nil receiver. *)
Definition CanonicalSigningBytes (e : option ExecutorEnvelope) : result envelope_err string :=
  match e with
  | None => Err missing_envelope
  | Some e => try! validateEnvelopeFields e; Ok (signing_document e)
  end.

Definition BuildSignedEnvelope (manifestDigest role audience nonce : string) (expiresAt : time)
    (body signer : string) (now : time) : result envelope_err ExecutorEnvelope :=
  try! validateRequiredField manifestDigest "manifest digest";
  try! err_if (negb (validDigest manifestDigest)) invalid_manifest_digest None;
  try! validateRequiredField role "role";
  try! validateRequiredField audience "audience";
  try! validateRequiredField nonce "nonce";
  try! err_if (bool_decide (body = "")) body_required None;
  try! err_if (negb (String.length signer =? PrivateKeySize)) invalid_signer None;
  try! validateExpiry expiresAt now;
  let unsigned sig :=
    {| ev_Version := EnvelopeVersion; Audience := audience; Role := role;
       ManifestDigest := manifestDigest; BodyDigest := digestBytes body; Nonce := nonce;
       ExpiresAt := expiresAt; Body := body; Signature := sig |} in
  let! canonical := CanonicalSigningBytes (Some (unsigned "")) in
  Ok (unsigned (ed_sign signer canonical)).

Definition VerifySignedEnvelope (envelope : option ExecutorEnvelope) (publicKey : string)
    (now : time) : option envelope_err :=
  match envelope with
  | None => Some missing_envelope
  | Some e =>
    err_seq (validateEnvelope e now) (
    err_if (negb (String.length publicKey =? PublicKeySize)) invalid_verifier_key (
    match CanonicalSigningBytes (Some e) with
    | Err err => Some err
    | Ok canonical =>
      err_if (negb (ed_verify publicKey canonical (Signature e))) invalid_signature None
    end))
  end.

(** ** Submission *)

(** The parts of a parsed URL that [fixedEnvelopeURL] inspects. *)
Record parsed_url := mkURL {
  u_Scheme : string; u_Host : string; u_Hostname : string; u_User : bool; u_Path : string;
  u_RawPath : string; u_RawQuery : string; u_ForceQuery : bool; u_Fragment : string;
  u_Opaque : string }.

(** [strings.EqualFold] with an ASCII word. *)
Definition equal_fold (s t : string) : bool := bool_decide (str_map (λ c,
  if is_upper c then byte_of (code c + 32) else c) s = t).

(** [parse] is [url.Parse]; [print] is [URL.String] after the rewrite: the path is
fixed, query and fragment are cleared. *)
Definition fixedEnvelopeURL (parse : string → option parsed_url) (print : parsed_url → string)
    (rawBaseURL : string) : result envelope_err string :=
  match parse rawBaseURL with
  | None => Err invalid_base_url
  | Some u =>
    if negb (equal_fold (u_Scheme u) "http") && negb (equal_fold (u_Scheme u) "https")
    then Err base_url_scheme
    else if bool_decide (u_Host u = "") || bool_decide (u_Hostname u = "") then Err base_url_host
    else if u_User u then Err base_url_userinfo
    else if negb (bool_decide (u_Path u = "")) && negb (bool_decide (u_Path u = "/"))
    then Err base_url_not_origin
    else if negb (bool_decide (u_RawPath u = "")) && negb (bool_decide (u_RawPath u = "/"))
    then Err base_url_not_origin
    else if negb (bool_decide (u_RawQuery u = "")) || u_ForceQuery u || has_byte "?" rawBaseURL
    then Err base_url_query
    else if negb (bool_decide (u_Fragment u = "")) || has_byte "#" rawBaseURL
    then Err base_url_fragment
    else if negb (bool_decide (u_Opaque u = "")) then Err base_url_not_origin
    else Ok (print {| u_Scheme := u_Scheme u; u_Host := u_Host u; u_Hostname := u_Hostname u;
                      u_User := u_User u; u_Path := executorEnvelopePath; u_RawPath := "";
                      u_RawQuery := ""; u_ForceQuery := false; u_Fragment := "";
                      u_Opaque := u_Opaque u |})
  end.

(** What one POST that follows no redirect delivers. *)
Inductive http_reply := no_reply | nil_response | reply (status : Z) (read : option string).

Record EnvelopeClient := mkClient {
  BaseURL : string; Signer : string; OperatorSessionCookie : string }.

(** [Submit] on a client; [post] is the transport, called at most once, with the
endpoint and the JSON of the envelope. *)
Definition Submit (parse : string → option parsed_url) (print : parsed_url → string)
    (marshal : ExecutorEnvelope → string) (post : string → string → http_reply)
    (c : option EnvelopeClient) (now : time)
    (manifestDigest role audience nonce : string) (expiresAt : time) (body : string) :
    result envelope_err string :=
  match c with
  | None => Err missing_client
  | Some c =>
    if decide (trim_space (OperatorSessionCookie c) = "") then Err session_cookie_required
    else
      let! e := BuildSignedEnvelope manifestDigest role audience nonce expiresAt body (Signer c) now in
      let! endpoint := fixedEnvelopeURL parse print (BaseURL c) in
      match post endpoint (marshal e) with
      | no_reply => Err submit_failed
      | nil_response => Err submit_no_response
      | reply status read =>
        if ((status <? 200) || (300 <=? status))%Z then Err (hub_status status)
        else match read with
        | None => Err response_read_failed
        | Some data =>
          if (MaxEnvelopeResponseBytes <? Z.of_nat (String.length data))%Z then Err response_too_large else Ok data
        end
      end
  end.
End envelope.
