(* ===== verification/Replay.v ===== *)
(** Replay protection of signed envelopes (src/internal/syncer/envelope_replay.go).

[EnvelopeReplayStore] is the interface the verifier uses, with the contract its
Go comment states as laws; the in-memory store implements it.  A mutex makes
each [Consume] one atomic step, so a run is a sequence of steps. *)

From S2P Require Import Prelude GoStrings Provider Digest GoEncoding Envelope.
#[local] Open Scope go_scope.

Definition defaultEnvelopeReplayStoreCapacity : Z := 1024.

Inductive replay_err :=
| ErrEnvelopeReplay
| ErrEnvelopeReplayStoreFull
| ErrEnvelopeReplayStoreUnavailable
| errEnvelopeReplayRequest
| errEnvelopeReplayExpired
| errEnvelopeReplayCanonical
| replay_envelope (e : envelope_err).

Record EnvelopeReplayScope := mkScope { sc_Audience : string; sc_Role : string; sc_Nonce : string }.
#[export] Instance scope_eq_dec : EqDecision EnvelopeReplayScope.
Proof. solve_decision. Defined.
#[export] Instance scope_countable : Countable EnvelopeReplayScope.
Proof.
  refine (inj_countable' (λ s, (sc_Audience s, sc_Role s, sc_Nonce s))
    (λ x, let '(a, r, n) := x in mkScope a r n) _). by intros [].
Defined.

Record envelopeReplayEntry := mkEntry { re_digest : string; re_expiresAt : time }.

(** What [Consume] answers: the store after it, and [(bool, error)]. *)
Class EnvelopeReplayStore (St : Type) : Type := {
  Consume : St → EnvelopeReplayScope → string → time → time → St * result replay_err bool;
  (** The store retains the scope until that time. *)
  retains : St → EnvelopeReplayScope → time → Prop;
  consume_retains st sc d exp now st' :
    Consume st sc d exp now = (st', Ok true) → retains st' sc exp ∧ after exp now = true;
  retains_kept st sc exp sc' d exp' now :
    retains st sc exp → after exp now = true →
    retains (Consume st sc' d exp' now).1 sc exp;
  retains_rejects st sc exp d exp' now :
    retains st sc exp → after exp now = true →
    (Consume st sc d exp' now).2 ≠ Ok true;
}.

(** ** The in-memory store *)

Record InMemoryEnvelopeReplayStore := mkStore {
  entries : gmap EnvelopeReplayScope envelopeReplayEntry;
  capacity : Z;
}.

Definition NewInMemoryEnvelopeReplayStore (cap : list Z) : InMemoryEnvelopeReplayStore :=
  {| entries := ∅;
     capacity := match cap with
                 | c :: _ => if (0 <? c)%Z then c else defaultEnvelopeReplayStoreCapacity
                 | [] => defaultEnvelopeReplayStoreCapacity
                 end |}.

Definition ensureInitializedLocked (s : InMemoryEnvelopeReplayStore) : InMemoryEnvelopeReplayStore :=
  {| entries := entries s;
     capacity := if (capacity s <=? 0)%Z then defaultEnvelopeReplayStoreCapacity else capacity s |}.

Definition Len (s : option InMemoryEnvelopeReplayStore) : option InMemoryEnvelopeReplayStore * nat :=
  match s with
  | None => (None, 0)
  | Some s => (Some (ensureInitializedLocked s), size (entries s))
  end.

(** Deleting while ranging over a map visits every entry once, in any order: what
is left is a filter. *)
Definition cleanupExpiredLocked (s : InMemoryEnvelopeReplayStore) (now : time) : InMemoryEnvelopeReplayStore :=
  {| entries := filter (λ se, after (re_expiresAt se.2) now = true) (entries s);
     capacity := capacity s |}.

Definition validateEnvelopeReplayScope (scope : EnvelopeReplayScope) : option replay_err :=
  err_if (bool_decide (validateRequiredField (sc_Audience scope) "audience" ≠ None)) errEnvelopeReplayRequest (
  err_if (bool_decide (validateRequiredField (sc_Role scope) "role" ≠ None)) errEnvelopeReplayRequest (
  err_if (bool_decide (validateRequiredField (sc_Nonce scope) "nonce" ≠ None)) errEnvelopeReplayRequest None)).

Section replay.
Context {UC : UnicodeCase}.

(** [Consume] on a possibly nil store. *)
Definition consume_in_memory (s : option InMemoryEnvelopeReplayStore) (scope : EnvelopeReplayScope)
    (digest : string) (expiresAt now : time) :
    option InMemoryEnvelopeReplayStore * result replay_err bool :=
  match s with
  | None => (None, Err ErrEnvelopeReplayStoreUnavailable)
  | Some s =>
    match validateEnvelopeReplayScope scope with
    | Some err => (Some s, Err err)
    | None =>
      if negb (validDigest digest) then (Some s, Err errEnvelopeReplayRequest)
      else if is_zero expiresAt || negb (after expiresAt now)
      then (Some s, Err errEnvelopeReplayExpired)
      else
        let s := cleanupExpiredLocked (ensureInitializedLocked s) now in
        match entries s !! scope with
        | Some _ => (Some s, Ok false)
        | None =>
          if (capacity s <=? Z.of_nat (size (entries s)))%Z
          then (Some s, Err ErrEnvelopeReplayStoreFull)
          else (Some {| entries := <[scope := mkEntry digest expiresAt]> (entries s);
                        capacity := capacity s |}, Ok true)
        end
    end
  end.

Context {SH : SHA256} {ED : Ed25519} {St : Type} {RS : EnvelopeReplayStore St}.

(** [VerifyAndConsumeSignedEnvelope]; [None] is the nil store. *)
Definition VerifyAndConsumeSignedEnvelope (envelope : option ExecutorEnvelope) (publicKey : string)
    (now : time) (store : option St) : option St * option replay_err :=
  match VerifySignedEnvelope envelope publicKey now, envelope with
  | Some err, _ => (store, Some (replay_envelope err))
  | None, None => (store, None)
  | None, Some e =>
    match store with
    | None => (None, Some ErrEnvelopeReplayStoreUnavailable)
    | Some st =>
      match CanonicalSigningBytes (Some e) with
      | Err _ => (Some st, Some errEnvelopeReplayCanonical)
      | Ok canonical =>
        let scope := mkScope (Audience e) (Role e) (Nonce e) in
        let '(st, res) := Consume st scope (digestBytes canonical) (ExpiresAt e) now in
        (Some st, match res with
                  | Err ErrEnvelopeReplayStoreFull => Some ErrEnvelopeReplayStoreFull
                  | Err _ => Some ErrEnvelopeReplayStoreUnavailable
                  | Ok false => Some ErrEnvelopeReplay
                  | Ok true => None
                  end)
      end
    end
  end.

(** A verifier's life: envelopes arrive one after the other, each at its time. *)
Fixpoint verifier_run (publicKey : string) (store : option St)
    (arrivals : list (ExecutorEnvelope * time)) : list (option replay_err) :=
  match arrivals with
  | [] => []
  | (e, now) :: arrivals =>
    let '(store, res) := VerifyAndConsumeSignedEnvelope (Some e) publicKey now store in
    res :: verifier_run publicKey store arrivals
  end.
End replay.

(** ** The in-memory store meets the contract *)

Section in_memory.
Context {UC : UnicodeCase}.
Implicit Types s : option InMemoryEnvelopeReplayStore.

Definition in_memory_retains s (sc : EnvelopeReplayScope) (exp : time) : Prop :=
  ∃ st en, s = Some st ∧ entries st !! sc = Some en ∧ re_expiresAt en = exp.

Lemma cleanup_lookup st now sc en :
  entries (cleanupExpiredLocked st now) !! sc = Some en ↔
  entries st !! sc = Some en ∧ after (re_expiresAt en) now = true.
Proof. cbn. by rewrite map_lookup_filter_Some. Qed.

Lemma consume_accepts s sc d exp now s' :
  consume_in_memory s sc d exp now = (s', Ok true) →
  in_memory_retains s' sc exp ∧ after exp now = true.
Proof.
  unfold consume_in_memory. destruct s as [st|]; [|done].
  destruct (validateEnvelopeReplayScope sc); [done|]. destruct (negb (validDigest d)); [done|].
  destruct (is_zero exp || negb (after exp now)) eqn:Ha; [done|]. cbn zeta.
  destruct (entries _ !! sc) eqn:?; [done|]. destruct (_ <=? _)%Z; [done|]. intros [= <-].
  split_bools. split; [|done]. eexists _, _. split; [done|]. cbn.
  by rewrite lookup_insert_eq.
Qed.

Lemma consume_keeps s sc exp sc' d exp' now :
  in_memory_retains s sc exp → after exp now = true →
  in_memory_retains (consume_in_memory s sc' d exp' now).1 sc exp.
Proof.
  intros (st & en & -> & Hl & He) Ha. unfold consume_in_memory.
  assert (Hst : ∃ en, entries st !! sc = Some en ∧ re_expiresAt en = exp) by eauto.
  assert (Hcl : entries (cleanupExpiredLocked (ensureInitializedLocked st) now) !! sc = Some en).
  { apply cleanup_lookup. cbn. by rewrite He. }
  destruct (validateEnvelopeReplayScope sc'); [by eexists _, _|].
  destruct (negb (validDigest d)); [by eexists _, _|].
  destruct (is_zero exp' || negb (after exp' now)); [by eexists _, _|]. cbn zeta.
  destruct (entries _ !! sc') eqn:Hsc; [by eexists _, _|].
  destruct (_ <=? _)%Z; [by eexists _, _|].
  eexists _, en. split; [done|]. cbn [entries].
  rewrite lookup_insert_ne; [done|]. intros ->. by rewrite Hcl in Hsc.
Qed.

Lemma consume_rejects s sc exp d exp' now :
  in_memory_retains s sc exp → after exp now = true →
  (consume_in_memory s sc d exp' now).2 ≠ Ok true.
Proof.
  intros (st & en & -> & Hl & He) Ha. unfold consume_in_memory.
  destruct (validateEnvelopeReplayScope sc); [done|]. destruct (negb (validDigest d)); [done|].
  destruct (is_zero exp' || negb (after exp' now)); [done|]. cbn zeta.
  by rewrite (proj2 (cleanup_lookup (ensureInitializedLocked st) now sc en))
    by (cbn; by rewrite He).
Qed.

#[global] Instance in_memory_store : EnvelopeReplayStore (option InMemoryEnvelopeReplayStore) := {|
  Consume := consume_in_memory;
  retains := in_memory_retains;
  consume_retains := consume_accepts;
  retains_kept := consume_keeps;
  retains_rejects := consume_rejects;
|}.

(** The size of the store never exceeds its capacity. *)
Definition bounded (s : InMemoryEnvelopeReplayStore) : Prop :=
  (0 < capacity s)%Z ∧ (Z.of_nat (size (entries s)) ≤ capacity s)%Z.

Lemma new_bounded cap : bounded (NewInMemoryEnvelopeReplayStore cap).
Proof.
  unfold bounded, NewInMemoryEnvelopeReplayStore. cbn [entries capacity]. rewrite map_size_empty.
  destruct cap as [|c ?]; [done|]. destruct (Z.ltb_spec 0 c); [lia|done].
Qed.
Lemma cleanup_size (s : InMemoryEnvelopeReplayStore) now : size (entries (cleanupExpiredLocked s now)) ≤ size (entries s).
Proof. apply map_size_filter. Qed.
Lemma ensure_bounded (s : InMemoryEnvelopeReplayStore) : bounded s → ensureInitializedLocked s = s.
Proof.
  intros [Hc _]. destruct s as [m c]. unfold ensureInitializedLocked. cbn in *.
  by rewrite (proj2 (Z.leb_gt c 0)).
Qed.
End in_memory.
