(* ===== verification/EnvelopeProps.v ===== *)
(** Properties of signed envelopes and of replay protection: what a verified
envelope guarantees, what its signature binds, and how often it is accepted. *)

From S2P Require Import Prelude GoStrings Provider Digest GoEncoding GoTime Envelope Replay.

(** * Lemmas *)

Section envelope_lemmas.
Context {UC : UnicodeCase} {SH : SHA256}.

Lemma hex_byte_plain c : hex_byte c = true → is_ascii c && negb (is_upper c) = true.
Proof.
  unfold hex_byte, is_ascii, is_upper, is_digit, in_range. intros [H|H]%orb_true_iff; split_bools;
    apply andb_true_iff; (split; [apply Z.ltb_lt; lia|]); apply negb_true_iff, andb_false_iff;
    rewrite !Z.leb_gt; lia.
Qed.

Lemma validDigest_digestBytes b : validDigest (digestBytes b) = true.
Proof.
  unfold validDigest, digestBytes. rewrite has_prefix_app. unfold negb at 1, trim_prefix.
  rewrite has_prefix_app, str_drop_app. pose proof (sha256_hex_valid b) as Hv.
  unfold is_sha256_hex in Hv. apply andb_true_iff in Hv as [Hlen Hhex]. rewrite Hlen. cbn [negb].
  apply andb_true_iff. split.
  - unfold hex_decodable. apply Nat.eqb_eq in Hlen. rewrite Hlen. cbn [Nat.even andb].
    eapply str_forall_impl; [|exact Hhex]. by intros c ->.
  - apply bool_decide_eq_true. symmetry. apply to_lower_id.
    eapply str_forall_impl; [|exact Hhex]. apply hex_byte_plain.
Qed.
Lemma digestBytes_required b name : validateRequiredField (digestBytes b) name = None.
Proof.
  unfold validateRequiredField. rewrite decide_False; [done|]. unfold digestBytes.
  change ("sha256:" +:+ sha256_hex b) with (String "s" ("ha256:" +:+ sha256_hex b)).
  by apply trim_space_ne.
Qed.

Lemma time_sub_mono t u v : (u ≤ v)%Z → (time_sub t v ≤ time_sub t u)%Z.
Proof. unfold time_sub, min_int64, max_int64. lia. Qed.

Lemma validateExpiry_later exp now now' :
  validateExpiry exp now = None → (now ≤ now')%Z → after exp now' = true →
  validateExpiry exp now' = None.
Proof.
  unfold validateExpiry. rewrite !err_if_None. intros (H1 & H2 & _ & H4 & _) Hle Ha.
  split_bools. rewrite H1, H2, Ha. repeat split; [done..|].
  apply Z.ltb_ge. pose proof (time_sub_mono exp now now' Hle). lia.
Qed.
Lemma validateExpiry_after exp now : validateExpiry exp now = None → after exp now = true.
Proof. unfold validateExpiry. rewrite !err_if_None. intros (_ & _ & H & _). by split_bools. Qed.

Context {ED : Ed25519}.

(** What [BuildSignedEnvelope] returns. *)
Lemma BuildSignedEnvelope_Ok md role aud nonce exp body signer now e :
  BuildSignedEnvelope md role aud nonce exp body signer now = Ok e →
  String.length signer = 64 ∧ validateExpiry exp now = None ∧ validateEnvelopeFields e = None ∧
  Signature e = ed_sign signer (signing_document e) ∧
  ev_Version e = EnvelopeVersion ∧ Audience e = aud ∧ Role e = role ∧ ManifestDigest e = md ∧
  BodyDigest e = digestBytes body ∧ Nonce e = nonce ∧ ExpiresAt e = exp ∧ Body e = body.
Proof.
  unfold BuildSignedEnvelope. intros H. inv_ok. split_bools.
  match goal with H : (err_guard _ _ = Ok _) |- _ => apply err_guard_Ok in H as [Hf Hx] end.
  injection Hx as <-. by repeat split.
Qed.

Lemma VerifySignedEnvelope_None e pk now :
  VerifySignedEnvelope (Some e) pk now = None ↔
  validateEnvelopeFields e = None ∧ validateExpiry (ExpiresAt e) now = None ∧
  String.length (Signature e) = 64 ∧ String.length pk = 32 ∧
  ed_verify pk (signing_document e) (Signature e) = true.
Proof.
  unfold VerifySignedEnvelope, validateEnvelope. cbn [CanonicalSigningBytes].
  rewrite !err_seq_None, !err_if_None, !negb_false_iff, !Nat.eqb_eq.
  destruct (validateEnvelopeFields e) eqn:Hf; cbn [err_guard]; [naive_solver|].
  rewrite err_if_None, negb_false_iff. unfold SignatureSize, PublicKeySize. intuition done.
Qed.

Lemma validDigest_utf8 v : validDigest v = true → valid_utf8 v = true.
Proof.
  unfold validDigest. destruct (has_prefix v "sha256:") eqn:Hp; [|done]. cbn [negb].
  apply has_prefix_spec in Hp as [t ->]. unfold trim_prefix.
  rewrite has_prefix_app, str_drop_app. destruct (String.length t =? 64); [|done]. cbn [negb].
  intros [Hh _]%andb_true_iff. unfold hex_decodable in Hh. apply andb_true_iff in Hh as [_ Hh].
  apply ascii_valid_utf8. rewrite str_forall_app. apply andb_true_iff. split; [done|].
  eapply str_forall_impl; [|exact Hh]. intros c Hc. unfold is_ascii, hex_byte, is_digit, in_range in *.
  apply orb_true_iff in Hc as [[Hc|Hc]%orb_true_iff|Hc]; split_bools; apply Z.ltb_lt; lia.
Qed.

Definition utf8_fields (e : ExecutorEnvelope) : bool :=
  valid_utf8 (Audience e) && valid_utf8 (Role e) && valid_utf8 (Nonce e).

(** The fields of a signing document can be read back one by one. *)
Lemma json_field_head name v1 v2 t1 t2 :
  valid_utf8 v1 = true → valid_utf8 v2 = true →
  json_field name (json_string v1) +:+ "," +:+ t1 = json_field name (json_string v2) +:+ "," +:+ t2 →
  v1 = v2 ∧ t1 = t2.
Proof.
  intros H1 H2. unfold json_field. rewrite !str_app_assoc. intros E%literal_field%literal_field.
  apply json_string_head in E as [-> E]; [|done..]. by apply literal_field in E.
Qed.
Lemma json_field_bytes name b1 b2 t :
  json_field name (String DQ (StdEncoding b1 +:+ str1 DQ)) +:+ t =
  json_field name (String DQ (StdEncoding b2 +:+ str1 DQ)) +:+ t → b1 = b2.
Proof.
  unfold json_field. rewrite !str_app_assoc. intros E%literal_field%literal_field.
  apply str_app_inj_tail in E. assert (Hinj : ∀ s t, String DQ s = String DQ t → s = t)
    by (intros s u Hs; by injection Hs).
  by apply Hinj, str_snoc_inj, base64_inj in E.
Qed.
Lemma CanonicalSigningBytes_Ok e b :
  CanonicalSigningBytes (Some e) = Ok b → validateEnvelopeFields e = None ∧ b = signing_document e.
Proof. cbn. intros H. by inv_ok. Qed.
Lemma validateEnvelopeFields_None e :
  validateEnvelopeFields e = None →
  ev_Version e = EnvelopeVersion ∧ validDigest (ManifestDigest e) = true ∧
  validDigest (BodyDigest e) = true ∧ Body e ≠ "" ∧ BodyDigest e = digestBytes (Body e) ∧
  json_time_ok (ExpiresAt e) = true.
Proof.
  unfold validateEnvelopeFields. intros H. repeat (apply err_seq_None in H as [_ H] ||
    (apply err_if_None in H as [? H])). split_bools. by repeat split.
Qed.
End envelope_lemmas.

(** Concrete inputs for closed examples. *)
Definition toy_signer : string := zeros 64.
Lemma toy_signer_pair : key_pair toy_signer.
Proof. exists (zeros 32). split; vm_compute; reflexivity. Qed.
Definition toy_md : string := "sha256:" +:+ hex_encode (zeros 32).
(** 1 January 2024, and ten minutes later. *)
Definition toy_now : time := 63839664000 * second.
Definition toy_expiry : time := toy_now + 600 * second.
Definition toy_envelope : ExecutorEnvelope :=
  let e sig := mkEnvelope 1 "hub" "deploy" toy_md (digestBytes (SH := toy_sha) "body") "n-1" toy_expiry "body" sig in
  e (toy_sign toy_signer (signing_document (e ""))).

(** * Building and verifying *)

(** C10: whatever [BuildSignedEnvelope] signs, the holder of the matching public key
verifies at any later time before the expiry, and the envelope carries exactly
the caller's authority fields with the digest of its body. *)
Theorem envelope_roundtrip `{UC : UnicodeCase, SH : SHA256, ED : Ed25519}
    md role aud nonce exp body signer now now' e :
  BuildSignedEnvelope md role aud nonce exp body signer now = Ok e →
  key_pair signer → (now ≤ now')%Z → after exp now' = true →
  VerifySignedEnvelope (Some e) (ed_public signer) now' = None ∧
  Audience e = aud ∧ Role e = role ∧ ManifestDigest e = md ∧ Nonce e = nonce ∧
  ExpiresAt e = exp ∧ Body e = body ∧ BodyDigest e = digestBytes body.
Proof.
  intros (Hlen & Hexp & Hf & Hsig & _ & <- & <- & <- & Hbd & <- & <- & <-)%BuildSignedEnvelope_Ok Hpair Hle Ha.
  split; [|done]. apply VerifySignedEnvelope_None. split; [done|].
  split; [by eapply validateExpiry_later|]. rewrite Hsig, ed_sign_size, ed_public_size.
  by rewrite ed_correct.
Qed.
Lemma envelope_roundtrip_witness :
  VerifySignedEnvelope (SH := toy_sha) (Some toy_envelope) (ed_public toy_signer) (toy_now + 300 * second) = None.
Proof.
  refine (proj1 (envelope_roundtrip (SH := toy_sha) toy_md "deploy" "hub" "n-1" toy_expiry "body"
    toy_signer toy_now (toy_now + 300 * second) toy_envelope _ toy_signer_pair _ _)); vm_compute; congruence.
Defined.

(** the signed bytes bind every authority field: two envelopes with the same
canonical bytes agree on version, audience, role, manifest digest, nonce, expiry
and body, provided their free-text fields are UTF-8. *)
Theorem canonical_bytes_bind `{UC : UnicodeCase, SH : SHA256} e1 e2 bytes :
  utf8_fields e1 = true → utf8_fields e2 = true →
  CanonicalSigningBytes (Some e1) = Ok bytes → CanonicalSigningBytes (Some e2) = Ok bytes →
  ev_Version e1 = ev_Version e2 ∧ Audience e1 = Audience e2 ∧ Role e1 = Role e2 ∧
  ManifestDigest e1 = ManifestDigest e2 ∧ BodyDigest e1 = BodyDigest e2 ∧ Nonce e1 = Nonce e2 ∧
  ExpiresAt e1 = ExpiresAt e2 ∧ Body e1 = Body e2.
Proof.
  intros U1 U2 [F1 ->]%CanonicalSigningBytes_Ok [F2 E]%CanonicalSigningBytes_Ok.
  apply validateEnvelopeFields_None in F1 as (V1 & M1 & B1 & _ & _ & T1).
  apply validateEnvelopeFields_None in F2 as (V2 & M2 & B2 & _ & _ & T2).
  unfold utf8_fields in *. split_bools. unfold signing_document in E.
  rewrite V1, V2 in E. apply literal_field, literal_field, literal_field in E.
  apply json_field_head in E as [-> E]; [|done..]. apply json_field_head in E as [-> E]; [|done..].
  apply json_field_head in E as [-> E]; [|by apply validDigest_utf8..].
  apply json_field_head in E as [-> E]; [|by apply validDigest_utf8..].
  apply json_field_head in E as [-> E]; [|done..].
  apply json_field_head in E as [Et E]; [|apply rfc3339nano_utf8..].
  apply rfc3339nano_inj in Et; [|done..]. apply json_field_bytes in E. by rewrite V1, V2.
Qed.
Lemma canonical_bytes_bind_witness :
  Nonce toy_envelope = "n-1" ∧ Body toy_envelope = Body toy_envelope.
Proof.
  split; [reflexivity|].
  refine (proj2 (proj2 (proj2 (proj2 (proj2 (proj2 (proj2 (canonical_bytes_bind (SH := toy_sha)
    toy_envelope toy_envelope (signing_document toy_envelope) _ _ _ _))))))));
    vm_compute; reflexivity.
Defined.

(** * Replay *)

Section replay_lemmas.
Context {UC : UnicodeCase} {SH : SHA256} {ED : Ed25519} {St : Type} {RS : EnvelopeReplayStore St}.

Definition scope_of (e : ExecutorEnvelope) : EnvelopeReplayScope :=
  mkScope (Audience e) (Role e) (Nonce e).

(** One arrival: the store it leaves and whether it was accepted. *)
Lemma verify_and_consume_cases e pk now st :
  (VerifySignedEnvelope (Some e) pk now ≠ None ∧
   (VerifyAndConsumeSignedEnvelope (Some e) pk now (Some st)).1 = Some st ∧
   (VerifyAndConsumeSignedEnvelope (Some e) pk now (Some st)).2 ≠ None) ∨
  (VerifySignedEnvelope (Some e) pk now = None ∧ ∃ d,
   (VerifyAndConsumeSignedEnvelope (Some e) pk now (Some st)).1
     = Some (Consume st (scope_of e) d (ExpiresAt e) now).1 ∧
   ((VerifyAndConsumeSignedEnvelope (Some e) pk now (Some st)).2 = None ↔
    (Consume st (scope_of e) d (ExpiresAt e) now).2 = Ok true)).
Proof.
  unfold VerifyAndConsumeSignedEnvelope.
  destruct (VerifySignedEnvelope (Some e) pk now) eqn:Hv; [by left|]. right. split; [done|].
  apply VerifySignedEnvelope_None in Hv as (Hf & _). cbn [CanonicalSigningBytes]. rewrite Hf.
  cbn [err_guard]. exists (digestBytes (signing_document e)). fold (scope_of e).
  destruct (Consume st (scope_of e) _ _ now) as [st' [[]|[]]]; cbn; (split; [done|]); split; congruence.
Qed.

Lemma accepted_retains e pk now st st' :
  VerifyAndConsumeSignedEnvelope (Some e) pk now (Some st) = (st', None) →
  VerifySignedEnvelope (Some e) pk now = None ∧
  ∃ st1, st' = Some st1 ∧ retains st1 (scope_of e) (ExpiresAt e) ∧ after (ExpiresAt e) now = true.
Proof.
  intros Hr. destruct (verify_and_consume_cases e pk now st) as [(_ & _ & Hn)|(Hv & d & H1 & H2)];
    rewrite Hr in *; [done|]. cbn in *. split; [done|]. subst st'. eexists. split; [done|].
  destruct (Consume _ _ _ _ _) as [st1 r] eqn:Hc. cbn in *. destruct H2 as [H2 _].
  rewrite H2 in Hc by done. by eapply consume_retains.
Qed.
Lemma retains_arrival e pk now st sc exp :
  retains st sc exp → after exp now = true →
  ∃ st', (VerifyAndConsumeSignedEnvelope (Some e) pk now (Some st)).1 = Some st' ∧ retains st' sc exp ∧
    (scope_of e = sc → (VerifyAndConsumeSignedEnvelope (Some e) pk now (Some st)).2 ≠ None).
Proof.
  intros Hr Ha. destruct (verify_and_consume_cases e pk now st) as [(_ & -> & ?)|(_ & d & -> & H2)].
  - by exists st.
  - eexists. split; [done|]. split; [by apply retains_kept|]. intros <-. rewrite H2.
    by apply (retains_rejects st (scope_of e) exp).
Qed.

(** While a scope is retained and unexpired, no arrival of that scope passes. *)
Lemma retained_run pk st arrivals sc exp j e now :
  retains st sc exp → arrivals !! j = Some (e, now) → scope_of e = sc →
  verifier_run pk (Some st) arrivals !! j = Some None →
  ∃ k ek nk, k ≤ j ∧ arrivals !! k = Some (ek, nk) ∧ after exp nk = false.
Proof.
  revert st j. induction arrivals as [|[e0 n0] arrivals IH]; intros st j Hr; [done|].
  destruct (after exp n0) eqn:Ha; [|by intros; exists 0, e0, n0; repeat split; [lia|done]].
  destruct (retains_arrival e0 pk n0 st sc exp Hr Ha) as (st' & H1 & Hr' & Hrej).
  cbn [verifier_run]. destruct (VerifyAndConsumeSignedEnvelope _ _ _ _) as [s r].
  cbn in H1, Hrej. subst s. destruct j as [|j]; cbn.
  - intros [= -> ->] Hs [= ->]. by destruct (Hrej Hs).
  - intros Hj Hs Hrun. destruct (IH st' j Hr' Hj Hs Hrun) as (k & ek & nk & Hk & Hl & Hafter).
    exists (S k), ek, nk. split; [lia|done].
Qed.

Lemma accepted_then pk st arrivals i j e1 n1 e2 n2 :
  i < j → arrivals !! i = Some (e1, n1) → arrivals !! j = Some (e2, n2) →
  verifier_run pk (Some st) arrivals !! i = Some None →
  verifier_run pk (Some st) arrivals !! j = Some None →
  scope_of e1 = scope_of e2 →
  ∃ k ek nk, i < k ≤ j ∧ arrivals !! k = Some (ek, nk) ∧ after (ExpiresAt e1) nk = false.
Proof.
  revert st i j. induction arrivals as [|[e0 n0] arrivals IH]; intros st i j Hij; [done|].
  cbn [verifier_run].
  destruct (VerifyAndConsumeSignedEnvelope (Some e0) pk n0 (Some st)) as [s r] eqn:Hv.
  destruct j as [|j]; [lia|]. destruct i as [|i]; cbn.
  - intros [= -> ->] Hj [= ->] Hrun Hs. apply accepted_retains in Hv as (_ & st1 & -> & Hr & _).
    destruct (retained_run _ _ _ _ _ _ _ _ Hr Hj (eq_sym Hs) Hrun) as (k & ek & nk & Hk & Hl & Ha).
    exists (S k), ek, nk. split; [lia|done].
  - intros Hi Hj Hri Hrj Hs.
    destruct (verify_and_consume_cases e0 pk n0 st) as [(_ & H1 & _)|(_ & d & H1 & _)];
      rewrite Hv in H1; cbn in H1; subst s;
      destruct (IH _ i j ltac:(lia) Hi Hj Hri Hrj Hs) as (k & ek & nk & Hk & Hl & Ha);
      (exists (S k), ek, nk; split; [lia|done]).
Qed.
Lemma accepted_verified pk st arrivals j e now :
  arrivals !! j = Some (e, now) → verifier_run pk (Some st) arrivals !! j = Some None →
  VerifySignedEnvelope (Some e) pk now = None.
Proof.
  revert st j. induction arrivals as [|[e0 n0] arrivals IH]; intros st j; [done|].
  cbn [verifier_run].
  destruct (VerifyAndConsumeSignedEnvelope (Some e0) pk n0 (Some st)) as [s r] eqn:Hv.
  destruct j as [|j]; cbn.
  - intros [= -> ->] [= ->]. by apply accepted_retains in Hv as [? _].
  - destruct (verify_and_consume_cases e0 pk n0 st) as [(_ & H1 & _)|(_ & d & H1 & _)];
      rewrite Hv in H1; cbn in H1; subst s; apply IH.
Qed.
End replay_lemmas.

(** C9: an audience/role/nonce scope is accepted at most once while it is valid:
for any store that meets the replay contract and any sequence of arrivals under a
clock that does not go back, a second acceptance of the scope can only happen
after the first envelope expired; in particular one envelope never passes twice. *)
Theorem envelope_single_use `{UC : UnicodeCase, SH : SHA256, ED : Ed25519} {St}
    `{RS : EnvelopeReplayStore St} pk (st : St) arrivals i j e1 n1 e2 n2 :
  (∀ a b x y, a ≤ b → arrivals !! a = Some x → arrivals !! b = Some y → (x.2 ≤ y.2)%Z) →
  i < j → arrivals !! i = Some (e1, n1) → arrivals !! j = Some (e2, n2) →
  verifier_run pk (Some st) arrivals !! i = Some None →
  verifier_run pk (Some st) arrivals !! j = Some None →
  scope_of e1 = scope_of e2 →
  (ExpiresAt e1 ≤ n2)%Z ∧ e1 ≠ e2.
Proof.
  intros Hclock Hij Hi Hj Hri Hrj Hs.
  destruct (accepted_then pk st arrivals i j e1 n1 e2 n2 Hij Hi Hj Hri Hrj Hs)
    as (k & ek & nk & Hk & Hl & Ha).
  pose proof (Hclock k j (ek, nk) (e2, n2) ltac:(lia) Hl Hj) as Hle. cbn in Hle.
  apply (accepted_verified _ _ _ _ e2 n2 Hj) in Hrj. apply VerifySignedEnvelope_None in Hrj as (_ & Hexp & _).
  apply validateExpiry_after in Hexp. unfold after in *. split_bools.
  split; [lia|]. intros ->. lia.
Qed.
(** A second envelope for the scope of [toy_envelope], valid after that expired. *)
Definition toy_again : ExecutorEnvelope :=
  let e sig := mkEnvelope 1 "hub" "deploy" toy_md (digestBytes (SH := toy_sha) "body") "n-1"
    (toy_expiry + 600 * second) "body" sig in
  e (toy_sign toy_signer (signing_document (e ""))).
Lemma envelope_single_use_witness : (ExpiresAt toy_envelope ≤ toy_expiry + second)%Z.
Proof.
  refine (proj1 (envelope_single_use (SH := toy_sha) (RS := in_memory_store) (ed_public toy_signer)
    (Some (NewInMemoryEnvelopeReplayStore [])) [(toy_envelope, toy_now); (toy_again, toy_expiry + second)%Z]
    0 1 toy_envelope toy_now toy_again (toy_expiry + second)%Z _ _ _ _ _ _ _)).
  - intros [|[|a]] [|[|b]] x y; cbn; try lia; intros ? [= <-] [= <-]; vm_compute; congruence.
  - lia.
  - reflexivity.
  - reflexivity.
  - vm_compute. reflexivity.
  - vm_compute. reflexivity.
  - vm_compute. reflexivity.
Defined.

(** C11: the in-memory store never holds more scopes than its capacity, whatever is
asked of it; it refuses a fresh valid scope only when that many unexpired scopes
are held, and otherwise accepts it. *)
Theorem replay_store_bounded `{UC : UnicodeCase} s sc d exp now :
  bounded s →
  (∃ s', (consume_in_memory (Some s) sc d exp now).1 = Some s' ∧ bounded s' ∧ capacity s' = capacity s) ∧
  (validateEnvelopeReplayScope sc = None → validDigest d = true → is_zero exp = false →
   after exp now = true → (∀ en, entries s !! sc = Some en → after (re_expiresAt en) now = false) →
   (consume_in_memory (Some s) sc d exp now).2 =
     if decide (Z.of_nat (size (filter (λ se, after (re_expiresAt se.2) now = true) (entries s))) < capacity s)%Z
     then Ok true else Err ErrEnvelopeReplayStoreFull).
Proof.
  intros Hb. pose proof (cleanup_size s now) as Hsz. unfold consume_in_memory.
  rewrite ensure_bounded by done. destruct Hb as [Hc Hs]. set (s1 := cleanupExpiredLocked s now) in *.
  assert (Hb1 : bounded s1) by (split; [done|]; change (capacity s1) with (capacity s); lia).
  assert (Hb : bounded s) by done.
  split.
  - destruct (validateEnvelopeReplayScope sc); [by exists s|]. destruct (negb _); [by exists s|].
    destruct (is_zero exp || _); [by exists s|]. cbn zeta.
    destruct (entries s1 !! sc) eqn:Hl; [by exists s1|].
    destruct (Z.leb_spec (capacity s1) (Z.of_nat (size (entries s1)))); [by exists s1|].
    eexists. split; [done|]. split; [|done]. split; [done|]. cbn [entries capacity].
    rewrite map_size_insert_None by done. lia.
  - intros -> -> -> -> Hfree. cbn [negb orb]. cbn zeta.
    destruct (entries s1 !! sc) as [en|] eqn:Hl.
    { apply cleanup_lookup in Hl as [Hl Ha]. by rewrite (Hfree en Hl) in Ha. }
    fold (entries s1). change (filter _ (entries s)) with (entries s1).
    destruct (Z.leb_spec (capacity s1) (Z.of_nat (size (entries s1)))); cbn [snd];
      [rewrite decide_False by (change (capacity s) with (capacity s1); lia)
      |rewrite decide_True by (change (capacity s) with (capacity s1); lia)]; done.
Qed.
Lemma replay_store_bounded_witness :
  (consume_in_memory (Some (NewInMemoryEnvelopeReplayStore [1%Z])) (mkScope "hub" "deploy" "n") toy_md
    toy_expiry toy_now).2 = Ok true.
Proof.
  refine (eq_trans (proj2 (replay_store_bounded (NewInMemoryEnvelopeReplayStore [1%Z])
    (mkScope "hub" "deploy" "n") toy_md toy_expiry toy_now (new_bounded [1%Z])) _ _ _ _ _) _).
  1-4: vm_compute; reflexivity.
  - intros en Hen. vm_compute in Hen. discriminate Hen.
  - reflexivity.
Defined.
