(* ===== verification/Retry.v ===== *)
(** HTTP reads with bounded retries and single-attempt mutations
(src/internal/syncer/retry.go).

The context, the request factory and the server are the environment [Net]: what
each answers at its [n]-th use.  A run returns the trace of what it did with its
outcome. *)

From S2P Require Import Prelude GoStrings.

Definition maxHTTPAttempts : nat := 3.
(** [retryBackoff], in milliseconds. *)
Definition retryBackoff : Z := 10.

Inductive retry_err :=
| context_err
| request_err
| transport_err
| HTTPStatusError (StatusCode : Z)
| MutationNeedsReconciliationError (Method : string) (StatusCode : Z) (Cause : retry_err).

(** [errors.Is(err, ErrMutationNeedsReconciliation)] *)
Definition needs_reconciliation (e : retry_err) : bool :=
  match e with MutationNeedsReconciliationError _ _ _ => true | _ => false end.
(** [errors.As(err, *HTTPStatusError)]: the chain of causes is searched. *)
Fixpoint http_status (e : retry_err) : option Z :=
  match e with
  | HTTPStatusError s => Some s
  | MutationNeedsReconciliationError _ _ c => http_status c
  | _ => None
  end.

(** The environment of a call, by attempt. *)
Record Net := mkNet {
  ctx_before : nat → bool;            (* [ctx.Err() != nil] before the request *)
  newRequest : nat → option string;   (* the method of the request, or an error *)
  client_Do : nat → option Z;         (* the status, or a transport error *)
  ctx_after : nat → bool;             (* [ctx.Err() != nil] after a transport error *)
  ctx_wait : nat → bool;              (* [ctx.Done()] during the backoff *)
}.

Inductive net_event := Sent (method : string) | Waited (milliseconds : Z).

Definition isTransientHTTPStatus (status : Z) : bool :=
  bool_decide (status ∈ [408; 425; 429; 500; 502; 503; 504]%Z).
Fixpoint statusAllowed (status : Z) (successStatuses : list Z) : bool :=
  match successStatuses with
  | [] => false
  | success :: rest => if (status =? success)%Z then true else statusAllowed status rest
  end.

(** [waitForRetry]: an error when the context ends first. *)
Definition waitForRetry (net : Net) (attempt : nat) : option retry_err :=
  if ctx_wait net attempt then Some context_err else None.

(** The loop of [doWithRetry] with [remaining] attempts to go. *)
Fixpoint retry_loop (net : Net) (successStatuses : list Z) (attempt remaining : nat) :
    list net_event * result retry_err Z :=
  match remaining with
  | O => ([], Err context_err)
  | S remaining =>
    if ctx_before net attempt then ([], Err context_err)
    else match newRequest net attempt with
    | None => ([], Err request_err)
    | Some method =>
      match client_Do net attempt with
      | None => ([Sent method], Err (if ctx_after net attempt then context_err else transport_err))
      | Some status =>
        if statusAllowed status successStatuses then ([Sent method], Ok status)
        else if negb (isTransientHTTPStatus status) || (attempt =? maxHTTPAttempts - 1)
        then ([Sent method], Err (HTTPStatusError status))
        else match waitForRetry net attempt with
        | Some err => ([Sent method], Err err)
        | None =>
          let '(trace, r) := retry_loop net successStatuses (S attempt) remaining in
          (Sent method :: Waited (retryBackoff * Z.shiftl 1 (Z.of_nat attempt)) :: trace, r)
        end
      end
    end
  end.
Definition doWithRetry (net : Net) (successStatuses : list Z) : list net_event * result retry_err Z :=
  retry_loop net successStatuses 0 maxHTTPAttempts.

Definition doMutation (net : Net) (successStatuses : list Z) : list net_event * result retry_err Z :=
  if ctx_before net 0 then ([], Err context_err)
  else match newRequest net 0 with
  | None => ([], Err request_err)
  | Some method =>
    match client_Do net 0 with
    | None => ([Sent method], Err (MutationNeedsReconciliationError method 0
                 (if ctx_after net 0 then context_err else transport_err)))
    | Some status =>
      if statusAllowed status successStatuses then ([Sent method], Ok status)
      else ([Sent method], Err (MutationNeedsReconciliationError method status (HTTPStatusError status)))
    end
  end.

(** * Properties *)

Definition is_sent (e : net_event) : bool := match e with Sent _ => true | Waited _ => false end.
Definition sent (trace : list net_event) : nat := length (List.filter is_sent trace).

Lemma statusAllowed_spec status l : statusAllowed status l = true ↔ status ∈ l.
Proof.
  induction l as [|x l IH]; cbn; [set_solver|].
  destruct (Z.eqb_spec status x) as [->|Hne]; [set_solver|]. rewrite IH. set_solver.
Qed.

(** Attempt [i] of a run was a transient failure that the loop went on from. *)
Definition transient_at (net : Net) (success : list Z) (i : nat) : Prop :=
  ∃ s, client_Do net i = Some s ∧ s ∉ success ∧ isTransientHTTPStatus s = true.

Lemma retry_loop_spec net success remaining : ∀ attempt trace r,
  attempt + remaining = maxHTTPAttempts → 0 < remaining →
  retry_loop net success attempt remaining = (trace, r) →
  sent trace ≤ remaining ∧
  (∀ i, attempt ≤ i → S i < attempt + sent trace → transient_at net success i) ∧
  match r with
  | Ok s => 0 < sent trace ∧ s ∈ success ∧ client_Do net (attempt + pred (sent trace)) = Some s
  | Err (HTTPStatusError s) => 0 < sent trace ∧ s ∉ success ∧
      client_Do net (attempt + pred (sent trace)) = Some s ∧
      (isTransientHTTPStatus s = true → sent trace = remaining)
  | Err (MutationNeedsReconciliationError _ _ _) => False
  | _ => True
  end.
Proof.
  induction remaining as [|remaining IH]; intros attempt trace r Hsum Hpos; [lia|]. cbn [retry_loop].
  destruct (ctx_before net attempt); [intros [= <- <-]; cbn; repeat split; lia|].
  destruct (newRequest net attempt) as [m|]; [|intros [= <- <-]; cbn; repeat split; lia].
  destruct (client_Do net attempt) as [s|] eqn:Hdo.
  2:{ intros [= <- <-]. cbn. destruct (ctx_after net attempt); cbn; repeat split; lia. }
  destruct (statusAllowed s success) eqn:Hs.
  { apply statusAllowed_spec in Hs. intros [= <- <-]. cbn. rewrite Nat.add_0_r. repeat split; done || lia. }
  assert (Hns : s ∉ success) by (rewrite <-statusAllowed_spec; congruence).
  destruct (negb (isTransientHTTPStatus s) || (attempt =? maxHTTPAttempts - 1)) eqn:Hstop.
  { intros [= <- <-]. cbn. rewrite Nat.add_0_r. repeat split; try done; try lia.
    intros Ht. rewrite Ht in Hstop. cbn [negb orb] in Hstop. unfold maxHTTPAttempts in *. split_bools. lia. }
  unfold waitForRetry. destruct (ctx_wait net attempt).
  { intros [= <- <-]. cbn. repeat split; lia. }
  apply orb_false_iff in Hstop as [Ht Hlast]. apply negb_false_iff in Ht. apply Nat.eqb_neq in Hlast.
  destruct (retry_loop net success (S attempt) remaining) as [tr r'] eqn:Hrec. intros [= <- <-].
  destruct (IH (S attempt) tr r' ltac:(lia) ltac:(unfold maxHTTPAttempts in *; lia) Hrec) as (H1 & H2 & H3).
  change (sent (Sent m :: Waited _ :: tr)) with (S (sent tr)). split; [lia|]. split.
  - intros i Hi Hlt. destruct (decide (i = attempt)) as [->|]; [by exists s|]. apply H2; lia.
  - cbn [pred]. destruct r' as [s'|[| | |s'|]]; try done.
    + destruct H3 as (? & ? & Hd). split; [lia|]. split; [done|]. rewrite <-Hd. f_equal. lia.
    + destruct H3 as (? & ? & Hd & Hf). split; [lia|]. split; [done|]. split; [rewrite <-Hd; f_equal; lia|].
      intros Hts. by rewrite Hf.
Qed.

(** a read sends at most three requests, goes on only after a transient status,
succeeds only with an allowed status of its last request, and reports a status
only if that was the last request's and either not transient or the third. *)
Theorem read_retry_bounded net success :
  let '(trace, r) := doWithRetry net success in
  sent trace ≤ 3 ∧
  (∀ i, S i < sent trace → transient_at net success i) ∧
  match r with
  | Ok s => s ∈ success ∧ client_Do net (pred (sent trace)) = Some s
  | Err (HTTPStatusError s) => s ∉ success ∧ client_Do net (pred (sent trace)) = Some s ∧
      (isTransientHTTPStatus s = true → sent trace = 3)
  | Err e => needs_reconciliation e = false
  end.
Proof.
  unfold doWithRetry. destruct (retry_loop net success 0 maxHTTPAttempts) as [trace r] eqn:Hr.
  apply retry_loop_spec in Hr as (H1 & H2 & H3); [|done|unfold maxHTTPAttempts; lia].
  split; [done|]. split; [intros; apply H2; lia|].
  destruct r as [s|[| | |s|]]; cbn in *; by try destruct H3.
Qed.

(** A mutation is sent at most once, with no wait and no replay; if it was sent
and the answer is anything but an allowed status the error demands
reconciliation and keeps the status, and an error that does not demand it means
that nothing was sent. *)
Theorem mutation_sent_once net success :
  let '(trace, r) := doMutation net success in
  (trace = [] ∨ ∃ m, newRequest net 0 = Some m ∧ trace = [Sent m]) ∧
  match r with
  | Ok s => trace ≠ [] ∧ client_Do net 0 = Some s ∧ s ∈ success
  | Err e =>
    (needs_reconciliation e = true ↔ trace ≠ []) ∧
    (needs_reconciliation e = true →
       http_status e = client_Do net 0 ∧ ∀ s, client_Do net 0 = Some s → s ∉ success)
  end.
Proof.
  unfold doMutation. destruct (ctx_before net 0); [cbn; naive_solver|].
  destruct (newRequest net 0) as [m|]; [|cbn; naive_solver].
  destruct (client_Do net 0) as [s|].
  - destruct (statusAllowed s success) eqn:Hs.
    + apply statusAllowed_spec in Hs. split; [by right; exists m|done].
    + assert (s ∉ success) by (rewrite <-statusAllowed_spec; congruence).
      split; [by right; exists m|]. cbn. split; [done|]. intros _. split; [done|]. naive_solver.
  - split; [by right; exists m|]. cbn. split; [done|]. intros _.
    destruct (ctx_after net 0); (split; [done|naive_solver]).
Qed.
