(* ===== verification/Effects.v ===== *)
(** A state-and-error monad over any world, for code that calls the outside, and its
Hoare triples: the world is the caller's state with the trace of calls, so a triple
speaks of what was done as well as of what is returned. *)

From S2P Require Import Prelude.

Section monad.
Context {W E : Type}.

Definition act (A : Type) : Type := W → W * result E A.
Definition ret {A} (a : A) : act A := λ w, (w, Ok a).
Definition throw {A} (e : E) : act A := λ w, (w, Err e).
Definition bind {A B} (m : act A) (f : A → act B) : act B := λ w,
  match m w with (w, Ok a) => f a w | (w, Err e) => (w, Err e) end.
Definition lift {A} (r : result E A) : act A := λ w, (w, r).
(** [if err := ...; err != nil { return err }] *)
Definition guard (e : option E) : act unit := λ w,
  (w, match e with Some e => Err e | None => Ok () end).
(** The same with the error wrapped. *)
Definition lift_err {F A} (f : F → E) (r : result F A) : act A :=
  match r with Ok a => ret a | Err e => throw (f e) end.
Definition when (b : bool) (m : act unit) : act unit := if b then m else ret ().
(** Read and change the world. *)
Definition gets {A} (f : W → A) : act A := λ w, (w, Ok (f w)).
Definition modify (f : W → W) : act unit := λ w, (f w, Ok ()).
(** The outcome as a value: what the code does with an error it inspects. *)
Definition attempt {A} (m : act A) : act (result E A) := λ w,
  let '(w, r) := m w in (w, Ok r).
Fixpoint each {A} (f : A → act unit) (l : list A) : act unit :=
  match l with [] => ret () | x :: l => bind (f x) (λ _, each f l) end.

(** Running a step that succeeds. *)
Lemma run_bind {A B} (m : act A) (f : A → act B) w w' a : m w = (w', Ok a) → bind m f w = f a w'.
Proof. unfold bind. by intros ->. Qed.
Lemma run_lift {A} (r : result E A) w a : r = Ok a → lift r w = (w, Ok a).
Proof. by intros ->. Qed.

(** From a world in [P], [m] returns in [Q] or fails in [R]. *)
Definition triple {A} (P : W → Prop) (m : act A) (Q : A → W → Prop) (R : W → Prop) : Prop :=
  ∀ w, P w → match m w with (w', Ok a) => Q a w' | (w', Err _) => R w' end.

Lemma triple_bind {A B} P (m : act A) Q (f : A → act B) Q' R :
  triple P m Q R → (∀ a, triple (Q a) (f a) Q' R) → triple P (bind m f) Q' R.
Proof.
  intros Hm Hf w Hw. specialize (Hm w Hw). unfold bind. destruct (m w) as [w' [a|e]]; [|done].
  by apply Hf.
Qed.
Lemma triple_ret {A} P (a : A) (Q : A → W → Prop) R : (∀ w, P w → Q a w) → triple P (ret a) Q R.
Proof. intros H w Hw. by apply H. Qed.
Lemma triple_throw {A} P e (Q : A → W → Prop) R : (∀ w, P w → R w) → triple P (throw e) Q R.
Proof. intros H w Hw. by apply H. Qed.
Lemma triple_lift {A} P (r : result E A) (Q : A → W → Prop) R :
  (∀ a w, r = Ok a → P w → Q a w) → (∀ w, P w → R w) → triple P (lift r) Q R.
Proof. intros HQ HR w Hw. unfold lift. destruct r; auto. Qed.
Lemma triple_guard P e (Q : unit → W → Prop) R :
  (∀ w, e = None → P w → Q () w) → (∀ w, P w → R w) → triple P (guard e) Q R.
Proof. intros HQ HR w Hw. unfold guard. destruct e; auto. Qed.
Lemma triple_lift_err {F A} P (f : F → E) (r : result F A) (Q : A → W → Prop) R :
  (∀ a w, r = Ok a → P w → Q a w) → (∀ w, P w → R w) → triple P (lift_err f r) Q R.
Proof. intros HQ HR. destruct r as [a|e]; [apply triple_ret|apply triple_throw]; auto. Qed.
Lemma triple_when P (b : bool) (m : act unit) R :
  (b = true → triple P m (λ _, P) R) → triple P (when b m) (λ _, P) R.
Proof. intros H. destruct b; cbn; [auto|by apply triple_ret]. Qed.
Lemma triple_gets {A} P (f : W → A) (Q : A → W → Prop) R :
  (∀ w, P w → Q (f w) w) → triple P (gets f) Q R.
Proof. intros H w Hw. by apply H. Qed.
Lemma triple_modify P f (Q : unit → W → Prop) R :
  (∀ w, P w → Q () (f w)) → triple P (modify f) Q R.
Proof. intros H w Hw. by apply H. Qed.
Lemma triple_attempt {A} P (m : act A) (Q : result E A → W → Prop) R S :
  triple P m (λ a, Q (Ok a)) S → (∀ e w, S w → Q (Err e) w) → triple P (attempt m) Q R.
Proof.
  intros Hm Hs w Hw. specialize (Hm w Hw). unfold attempt. destruct (m w) as [w' [a|e]]; [done|].
  by apply Hs.
Qed.
Lemma triple_conseq {A} P P' (m : act A) (Q Q' : A → W → Prop) R R' :
  triple P' m Q' R' → (∀ w, P w → P' w) → (∀ a w, Q' a w → Q a w) → (∀ w, R' w → R w) →
  triple P m Q R.
Proof.
  intros Hm HP HQ HR w Hw. specialize (Hm w (HP w Hw)). destruct (m w) as [w' [a|e]]; auto.
Qed.
Lemma triple_pre {A} P P' (m : act A) (Q : A → W → Prop) R :
  triple P' m Q R → (∀ w, P w → P' w) → triple P m Q R.
Proof. intros Hm HP w Hw. apply Hm. auto. Qed.
Lemma triple_each {A} (f : A → act unit) (l : list A) (I : list A → W → Prop) R :
  (∀ x l, triple (I (x :: l)) (f x) (λ _, I l) R) →
  triple (I l) (each f l) (λ _, I []) R.
Proof.
  intros Hf. induction l as [|x l IH]; cbn [each]; [by apply triple_ret|].
  eapply triple_bind; [apply Hf|]. intros ?. apply IH.
Qed.
Lemma triple_conj {A} P P' (m : act A) (Q Q' : A → W → Prop) R R' :
  triple P m Q R → triple P' m Q' R' →
  triple (λ w, P w ∧ P' w) m (λ a w, Q a w ∧ Q' a w) (λ w, R w ∧ R' w).
Proof.
  intros H H' w [Hw Hw']. specialize (H w Hw). specialize (H' w Hw'). by destruct (m w) as [w1 [a|e]].
Qed.
(** An action that never returns. *)
Definition fails {A} (m : act A) : Prop := ∀ w, match (m w).2 with Ok _ => False | Err _ => True end.
Lemma fails_throw {A} e : fails (throw (A := A) e).
Proof. done. Qed.
Lemma fails_bind {A B} (m : act A) (f : A → act B) : (∀ a, fails (f a)) → fails (bind m f).
Proof. intros Hf w. unfold bind. destruct (m w) as [w' [a|e]]; [apply Hf|done]. Qed.
Lemma fails_match {A} (m : act A) w (Q : A → W → Prop) :
  fails m → match m w with (w', Ok a) => Q a w' | (_, Err _) => True end.
Proof. intros Hm. specialize (Hm w). by destruct (m w) as [w' [a|e]]. Qed.
(** A fact that does not depend on the world. *)
Lemma triple_pure {A} (φ : Prop) P (m : act A) (Q : A → W → Prop) R :
  (φ → triple P m Q R) → triple (λ w, P w ∧ φ) m Q R.
Proof. intros H w [Hw Hφ]. by apply H. Qed.
(** An invariant kept by every step of a loop. *)
Lemma triple_each_inv {A} (f : A → act unit) (l : list A) (I : W → Prop) R :
  (∀ x, x ∈ l → triple I (f x) (λ _, I) R) → triple I (each f l) (λ _, I) R.
Proof.
  intros Hf. induction l as [|x l IH]; cbn [each]; [by apply triple_ret|].
  eapply triple_bind; [apply Hf; by left|]. intros ?. apply IH. intros y Hy. apply Hf. by right.
Qed.
End monad.
Arguments act W E A : clear implicits.

(** An action under a change of its error. *)
Definition map_err {W E F A} (f : E → F) (m : act W E A) : act W F A := λ w,
  match m w with (w, Ok a) => (w, Ok a) | (w, Err e) => (w, Err (f e)) end.
Lemma triple_map_err {W E F A} P (f : F → E) (m : act W F A) (Q : A → W → Prop) R :
  triple P m Q R → triple P (map_err f m) Q R.
Proof. intros H w Hw. specialize (H w Hw). unfold map_err. by destruct (m w) as [w' [a|e]]. Qed.

Notation "'do!' x ':=' m 'in' k" := (bind m (λ x, k))
  (at level 20, x pattern, m at level 100, k at level 200,
   format "'do!'  x  ':='  m  'in'  '/' k") : go_scope.
Notation "'run!' m ';' k" := (bind m (λ _, k))
  (at level 20, m at level 100, k at level 200, format "'run!'  m ;  '/' k") : go_scope.
