(* ===== verification/SyncRun.v ===== *)
(** `skret sync` (src/internal/cli/sync.go): which targets a run serves, and what
the run does to each of them around the journal.

A run is written in a small state and error monad.  Its world is the journal
state in memory and the trace of the effects so far; what other parties answer
(the target, the file system, the clock) is a function of that trace. *)

From S2P Require Import Prelude Provider GoStrings Digest EnvExec Config OpMetadata SyncState Targets Effects.
#[local] Open Scope go_scope.

(** * Which targets *)

Record syncOptions := mkOptions {
  o_to : string; o_file : string; o_githubRepo : string;
  o_skipUnchanged : bool; o_noOverwrite : bool; o_rotate : bool; o_dryRun : bool;
  o_strictNotify : bool; o_declaredOnly : bool; o_suppressNotify : bool;
}.


Inductive sync_fault :=
| rotate_no_overwrite
| github_misconfigured (no_token : bool) (bad_repos : list string) (no_repo : bool)
| cloudflare_undeclared
| gitlab_undeclared
| unknown_to (typ : string)
| build_targets (e : target_err)
| validate_targets (e : target_err)
| bad_destination (target : string) (e : target_err)
| lock_target
| load_state (e : load_err)
| absent_check (target : string) (e : target_err)
| reconciliation_required (target : string)
| recover_operation (e : op_err)
| save_recovered
| create_operation
| begin_operation (e : op_err)
| save_state
| journal_failed (what : string)
| target_failed (target : string)
| notify_failed.

(** [skret.Error]: an exit code and what went wrong. *)
Definition cli_error : Type := Z * sync_fault.

(** The loop over a comma-separated list: every field, trimmed. *)
Definition comma_fields (s : string) : list string := trim_space <$> split_byte "," s.
(** [wantOrder]: the fields that are not empty, once each, in order. *)
Fixpoint want_order (seen : gset string) (fields : list string) : list string :=
  match fields with
  | [] => []
  | t :: fields =>
    if bool_decide (t = "") || bool_decide (t ∈ seen) then want_order seen fields
    else t :: want_order ({[t]} ∪ seen) fields
  end.

Section targets.
(** [os.Getenv] and [os.ExpandEnv]. *)
Context (getenv : string → string) (expand_env : string → string).

Definition tokenForType (typ : string) : string :=
  if decide (typ = "github") then getenv "GITHUB_TOKEN"
  else if decide (typ = "cloudflare") then getenv "CLOUDFLARE_API_TOKEN"
  else if decide (typ = "gitlab") then getenv "GITLAB_TOKEN"
  else "".

Definition format_bool (b : bool) : string := if b then "true" else "false".
Definition targetFromConfig (t : SyncTarget) : TargetConfig :=
  {| tc_Type := st_Type t;
     Fields := list_to_map
       [("repo", st_Repo t); ("worker", st_Worker t); ("pages", st_Pages t);
        ("account", expand_env (st_Account t)); ("file", st_File t);
        ("base_url", st_BaseURL t); ("project", st_Project t);
        ("masked", format_bool (st_Masked t)); ("protected", format_bool (st_Protected t));
        ("name", st_Name t); ("namespace", st_Namespace t)];
     tc_Token := tokenForType (st_Type t); NoOverwrite := st_NoOverwrite t |}.

Definition file_target (typ file : string) : TargetConfig :=
  {| tc_Type := typ; Fields := {[ "file" := file ]}; tc_Token := ""; NoOverwrite := false |}.

(** [owner/repo] with both parts present. *)
Definition repo_ok (r : string) : bool :=
  match cut_byte "/" r with
  | Some (owner, repo) => negb (bool_decide (owner = "")) && negb (bool_decide (repo = ""))
  | None => false
  end.

Definition targetFromFlags (o : syncOptions) (typ : string) : result cli_error (list TargetConfig) :=
  if decide (typ = "dotenv") then Ok [file_target "dotenv" (o_file o)]
  else if decide (typ = "terraform") then Ok [file_target "terraform" (o_file o)]
  else if bool_decide (typ = "k8s") || bool_decide (typ = K8sManifestAlias)
  then Ok [file_target typ (o_file o)]
  else if decide (typ = "github") then
    let token := getenv "GITHUB_TOKEN" in
    let repos := filter (λ r, r ≠ "") (comma_fields (o_githubRepo o)) in
    let bad := filter (λ r, repo_ok r = false) repos in
    let tcs := (λ r, {| tc_Type := "github"; Fields := {[ "repo" := r ]}; tc_Token := token;
                        NoOverwrite := false |}) <$> filter (λ r, repo_ok r = true) repos in
    let no_token := bool_decide (token = "") in
    let no_repo := bool_decide (tcs = []) && bool_decide (bad = []) in
    if no_token || negb (bool_decide (bad = [])) || no_repo
    then Err (ExitConfigError, github_misconfigured no_token bad no_repo)
    else Ok tcs
  else if decide (typ = "cloudflare") then Err (ExitConfigError, cloudflare_undeclared)
  else if decide (typ = "gitlab") then Err (ExitConfigError, gitlab_undeclared)
  else Err (ExitConfigError, unknown_to typ).

Definition declared_of (sc : option SyncConfig) (typ : string) : list SyncTarget :=
  match sc with Some c => filter (λ t, st_Type t = typ) (sync_Targets c) | None => [] end.

(** The loop over [wantOrder]. *)
Fixpoint wanted_targets (o : syncOptions) (sc : option SyncConfig) (order : list string) :
    result cli_error (list TargetConfig) :=
  match order with
  | [] => Ok []
  | typ :: order =>
    let! tcs := (if decide (declared_of sc typ = []) then targetFromFlags o typ
                 else Ok (targetFromConfig <$> declared_of sc typ)) in
    let! out := wanted_targets o sc order in
    Ok (tcs ++ out)
  end.

Definition resolveTargets (o : syncOptions) (sc : option SyncConfig) :
    result cli_error (list TargetConfig) :=
  let order := want_order ∅ (comma_fields (o_to o)) in
  let! out :=
    (if decide (order = [])
     then Ok (match sc with Some c => targetFromConfig <$> sync_Targets c | None => [] end)
     else wanted_targets o sc order) in
  Ok (if bool_decide (out = []) && negb (o_declaredOnly o)
      then [file_target "dotenv" (o_file o)] else out).
End targets.

(** * One target *)

Section filter_excluded.
Context {UC : UnicodeCase}.
Definition filterExcluded (secrets : list Secret) (pathPrefix : string) (exclude : list string) :
    list Secret :=
  if decide (exclude = []) then secrets
  else filter (λ s, KeyToEnvName (Key s) pathPrefix ∉ exclude_set exclude) secrets.
End filter_excluded.

(** The effects of a run, as an observer of the target, the journal file and the
lock sees them. *)
Inductive event :=
| Locked | Unlocked
| KeyCalled (secret : Secret) (acknowledged : bool)
| Written (secrets : list Secret) (acknowledged : bool)
| Saved (s : SyncState)
| SaveFailed
| Notified (event : string) (keys : list string).
Abbreviation trace := (list event).

Inductive save_outcome := save_written | save_refused | save_lost.

(** A target with the world around it. *)
Record Target := mkIO {
  t_Name : string;
  t_Config : TargetConfig;
  t_SyncKey : option (trace → Secret → bool);   (* [PerKeySyncer], when implemented *)
  t_Sync : trace → list Secret → bool;
  t_ExistingKeys : option (option (list string));
  io_lock : bool;                               (* [acquireTargetLock] succeeds *)
  io_load : string → string → result load_err SyncState;
  io_save : trace → save_outcome;               (* how the file write of a save ends *)
  io_now : trace → time;
  io_operation : option string;                 (* [NewOperationID] *)
  io_notify : string → list string → option bool; (* no webhook, or whether it answered *)
}.

Definition world : Type := option SyncState * trace.
Abbreviation M := (act world).

Definition emit {E} (ev : event) : M E unit := λ w, ((w.1, w.2 ++ [ev]), Ok tt).
Definition get_trace {E} : M E trace := λ w, (w, Ok w.2).
Definition get_state {E} : M E (option SyncState) := λ w, (w, Ok w.1).
Definition set_state {E} (s : SyncState) : M E unit := λ w, ((Some s, w.2), Ok tt).
Section driver.
Context {UC : UnicodeCase} {MR : MapRange} {HK : HashKey} {TE : TargetEnv}.
Context (t : Target).

(** A method of the journal state: what it changed before an error stays. *)
Definition on_state {E} (op : SyncState → stepped) (wrap : op_err → E) : M E unit := λ w,
  match w.1 with
  | None => (w, Ok tt)
  | Some s => match op s with
              | (s, None) => ((Some s, w.2), Ok tt)
              | (s, Some e) => ((Some s, w.2), Err (wrap e))
              end
  end.

(** [saveSyncState]: a refused state is not touched; a written one is stamped. *)
Definition save {E} (err : E) : M E unit := λ w,
  match w.1 with
  | None => (w, Ok tt)
  | Some s =>
    match saved_state (io_now t w.2) s with
    | Err _ => ((Some s, w.2 ++ [SaveFailed]), Err err)
    | Ok s' =>
      match io_save t w.2 with
      | save_written => ((Some s', w.2 ++ [Saved s']), Ok tt)
      | save_refused => ((Some s, w.2 ++ [SaveFailed]), Err err)
      | save_lost => ((Some s', w.2 ++ [SaveFailed]), Err err)
      end
    end
  end.

Inductive per_key_err := syncJournalError (what : string) | key_failed.

Definition call_key (sync_key : trace → Secret → bool) (secret : Secret) : M per_key_err bool := λ w,
  let ok := sync_key w.2 secret in ((w.1, w.2 ++ [KeyCalled secret ok]), Ok ok).

(** The loop of [syncPerKeyOperation]. *)
Fixpoint per_key_loop (sync_key : trace → Secret → bool) (operationID : string)
    (secrets : list Secret) : M per_key_err unit :=
  match secrets with
  | [] => ret tt
  | secret :: secrets =>
    do! ok := call_key sync_key secret in
    do! tr := get_trace in
    if ok then
      run! on_state (RecordKeySuccess operationID (Some secret) (io_now t tr))
            (λ _, syncJournalError "record key success");
      run! save (syncJournalError "save key success");
      per_key_loop sync_key operationID secrets
    else
      run! on_state (RecordKeyNeedsReconciliation operationID (Some secret) (io_now t tr))
            (λ _, syncJournalError "record key reconciliation");
      run! save (syncJournalError "save key reconciliation");
      throw key_failed
  end.

Definition syncPerKeyOperation (sync_key : trace → Secret → bool) (operationID : string)
    (secrets : list Secret) : M per_key_err unit :=
  run! per_key_loop sync_key operationID secrets;
  do! tr := get_trace in
  run! on_state (FinalizeOperation operationID (io_now t tr)) (λ _, syncJournalError "finalize operation");
  save (syncJournalError "save finalized operation").

Definition syncStateNeedsRecovery (state : option SyncState) : bool :=
  match state with
  | None => false
  | Some s =>
    if decide (OperationID s = "") then false
    else if negb (bool_decide (Phase s = OperationPhasePending))
            && (negb (bool_decide (Phase s = "")) || negb (bool_decide (CompletedAt s = None)))
    then false
    else
      let owned := filter (λ ko, oc_OperationID ko.2 = OperationID s) (range_map 5 (Outcomes s)) in
      forallb (λ ko, bool_decide (Status ko.2 = OutcomeSucceeded)) owned && negb (length owned =? 0)
  end.

Definition mutationMethod : string :=
  if decide (t_Name t = "github") then "PUT"
  else if decide (t_Name t = "gitlab") then "PUT"
  else if decide (t_Name t = "cloudflare")
  then (if decide (field (t_Config t) "pages" = "") then "PUT" else "PATCH")
  else "".

Definition targetStateID : string :=
  let file := field (t_Config t) "file" in
  if decide (t_Name t = "dotenv") then or_default file ".env"
  else if decide (t_Name t = "terraform") then or_default file "terraform.tfvars"
  else if decide (t_Name t = "k8s")
  then (if bool_decide (file = "") || bool_decide (file = "-") then "k8s:stdout" else file)
  else if decide (t_Name t ∈ ["github"; "cloudflare"; "gitlab"])
  then match CanonicalTargetIdentity (t_Config t) with Ok identity => identity | Err _ => "" end
  else "".

Definition journalByDefault : bool := bool_decide (t_Name t ∈ ["github"; "cloudflare"; "gitlab"]).
(** The exit code of a failed target write. *)
Definition write_exit : Z :=
  if decide (tc_Type (t_Config t) ∈ ["dotenv"; "terraform"; "k8s"; K8sManifestAlias])
  then ExitGenericError else ExitNetworkError.

Definition requires_reconciliation (s : option SyncState) : bool :=
  match s with Some s => RequiresReconciliation s | None => false end.
Definition set_source (method source digest : string) (s : SyncState) : SyncState :=
  {| st_Target := st_Target s; st_ID := st_ID s; Hashes := Hashes s; Updated := Updated s;
     HashDomain := HashDomain s; OperationMethod := method; SourceIdentity := source;
     st_SourceDigest := digest; OperationID := OperationID s; Phase := Phase s;
     Intent := Intent s; StartedAt := StartedAt s; CompletedAt := CompletedAt s;
     LastSuccess := LastSuccess s; Outcomes := Outcomes s |}.

(** [defer release()] around the rest of the target's work; a dry run takes no lock. *)
Definition with_lock {A} (dryRun : bool) (m : M cli_error A) : M cli_error A := λ w,
  if dryRun then m w
  else if io_lock t
  then match m (w.1, w.2 ++ [Locked]) with (w, r) => ((w.1, w.2 ++ [Unlocked]), r) end
  else (w, Err (ExitGenericError, lock_target)).

Definition save_or (fault : sync_fault) : M cli_error unit := save (ExitGenericError, fault).
Definition refuse_reconciliation : M cli_error unit :=
  do! state := get_state in
  when (journalByDefault && requires_reconciliation state)
    (throw (ExitNetworkError, reconciliation_required (t_Name t))).

(** Finish an operation whose keys were all acknowledged before a crash; what is
left to send, and whether that happened. *)
Definition recover (toSync : list Secret) : M cli_error (list Secret * bool) :=
  do! state := get_state in
  if syncStateNeedsRecovery state then
    do! tr := get_trace in
    run! on_state (λ s, FinalizeOperation (OperationID s) (io_now t tr) s)
           (λ e, (ExitGenericError, recover_operation e));
    run! save_or save_recovered;
    do! state := get_state in
    ret (match state with
         | Some s => if journalByDefault then FilterUnchanged toSync s else toSync
         | None => toSync
         end, true)
  else ret (toSync, false).

(** The durable start of an operation: its identity is on disk before any write. *)
Definition start_operation (rotate : bool) (source : string) (toSync : list Secret) :
    M cli_error string :=
  run! refuse_reconciliation;
  do! operationID := lift_err (λ _, (ExitGenericError, create_operation))
                       (match io_operation t with Some id => Ok id | None => Err tt end) in
  do! tr := get_trace in
  run! on_state
         (if rotate
          then BeginOperationWithIntent operationID "rotate" (Some <$> toSync) (io_now t tr)
          else BeginOperation operationID (Some <$> toSync) (io_now t tr))
         (λ e, (ExitGenericError, begin_operation e));
  run! on_state (λ s, (set_source mutationMethod source (SourceDigest (Some <$> toSync)) s, None))
         (λ e, (ExitGenericError, begin_operation e));
  run! save_or save_state;
  ret operationID.

Definition per_key_fault (e : per_key_err) : cli_error :=
  match e with
  | syncJournalError _ => (ExitGenericError, target_failed (t_Name t))
  | key_failed => (ExitNetworkError, target_failed (t_Name t))
  end.

(** [s.Sync(ctx, toSync)] and the journal entry of its failure. *)
Definition call_sync (operationID : string) (toSync : list Secret) : M cli_error unit :=
  do! ok := (λ w, let ok := t_Sync t w.2 toSync in ((w.1, w.2 ++ [Written toSync ok]), Ok ok)) in
  if ok : bool then ret tt
  else
    run! when (negb (bool_decide (operationID = "")))
      (do! tr := get_trace in
       run! on_state (RecordNeedsReconciliation operationID (Some <$> toSync) (io_now t tr))
              (λ _, (write_exit, journal_failed (t_Name t)));
       save (write_exit, journal_failed (t_Name t)));
    throw (write_exit, target_failed (t_Name t)).

Definition reportMutation (strict : bool) (ev : string) (keys : list string) : M cli_error unit :=
  match io_notify t ev keys with
  | None => ret tt
  | Some ok =>
    run! emit (Notified ev keys);
    when (strict && negb ok) (throw (ExitNetworkError, notify_failed))
  end.

(** From the no-overwrite filter to the report. *)
Definition sync_body (o : syncOptions) (source : string) (noOv : bool) (toSync : list Secret) :
    M cli_error unit :=
  do! toSync := (if noOv
                 then lift_err (λ e, (ExitConfigError, absent_check (t_Name t) e))
                        (result_map fst (FilterAbsent (t_Name t) (t_ExistingKeys t) toSync))
                 else ret toSync) in
  if o_dryRun o then ret tt
  else
    run! refuse_reconciliation;
    do! (toSync, recovered) := recover toSync in
    do! state := get_state in
    let starts := negb (bool_decide (state = None)) && negb (bool_decide (toSync = [])) in
    do! operationID := (if starts then start_operation (o_rotate o) source toSync else ret "") in
    let recoveredState := recovered && negb starts in
    let hasState := negb (bool_decide (state = None)) in
    let operating := hasState && negb (bool_decide (operationID = "")) in
    run! (match t_SyncKey t with
          | Some sync_key =>
            if operating then map_err per_key_fault (syncPerKeyOperation sync_key operationID toSync)
            else call_sync operationID toSync
          | None => call_sync operationID toSync
          end);
    let durablePerKey := operating && negb (is_nil (t_SyncKey t)) in
    do! tr := get_trace in
    run! when (operating && negb durablePerKey)
           (on_state (RecordSuccess operationID (Some <$> toSync) (io_now t tr))
              (λ _, (ExitGenericError, journal_failed (t_Name t))));
    run! when (hasState && negb durablePerKey && negb recoveredState) (save_or save_state);
    when (negb (o_suppressNotify o))
      (reportMutation (o_strictNotify o) (if o_rotate o then "rotate" else "sync")
         (Key <$> toSync)).

(** The whole work on one target; [secrets] is the filtered source batch. *)
Definition sync_target (o : syncOptions) (source : string) (secrets : list Secret) :
    M cli_error unit :=
  match ValidateDestinationMapping (t_Name t) (Some <$> secrets) with
  | Some e => throw (ExitConfigError, bad_destination (t_Name t) e)
  | None =>
    let noOv := negb (o_rotate o) && (NoOverwrite (t_Config t) || o_noOverwrite o) in
    if journalByDefault || o_rotate o || (o_skipUnchanged o && negb noOv) then
      with_lock (o_dryRun o) (
        do! state := lift_err (λ e, (ExitGenericError, load_state e)) (io_load t (t_Name t) targetStateID) in
        run! set_state state;
        sync_body o source noOv
          (if o_skipUnchanged o && negb (o_rotate o) && negb noOv
           then FilterUnchanged secrets state else secrets))
    else sync_body o source noOv secrets
  end.
End driver.

(** The loop of [run]: the targets in order, each with a journal of its own; the
first failure ends the run.  [run]'s preparations before the loop only read. *)
Fixpoint run_loop {UC : UnicodeCase} {MR : MapRange} {HK : HashKey} {TE : TargetEnv}
    (o : syncOptions) (source : string) (secrets : list Secret) (targets : list Target)
    (tr : trace) : trace * option cli_error :=
  match targets with
  | [] => (tr, None)
  | t :: targets =>
    match sync_target t o source secrets (None, tr) with
    | ((_, tr), Ok _) => run_loop o source secrets targets tr
    | ((_, tr), Err e) => (tr, Some e)
    end
  end.
Definition run {UC : UnicodeCase} {MR : MapRange} {HK : HashKey} {TE : TargetEnv}
    (o : syncOptions) (source path : string) (exclude : list string) (secrets : list Secret)
    (targets : list Target) : trace * option cli_error :=
  if o_rotate o && o_noOverwrite o then ([], Some (ExitConfigError, rotate_no_overwrite))
  else match ValidateTargetIdentities (t_Config <$> targets) with
  | Some e => ([], Some (ExitConfigError, validate_targets e))
  | None => run_loop o source (filterExcluded secrets path exclude) targets []
  end.
