(* ===== verification/SyncRunProps.v ===== *)
(** Properties of `skret sync`: what the journal on disk says before and after
every write to a target. *)

From S2P Require Import Prelude Provider GoStrings Digest EnvExec Config OpMetadata SyncState SyncInvariant Targets Effects SyncRun.
#[local] Open Scope go_scope.

(** * A program logic for the driver *)

Section triples.
Context {E : Type}.
Implicit Types P R : world → Prop.

Lemma triple_get_trace P R : triple (E := E) P get_trace (λ tr w, P w ∧ tr = w.2) R.
Proof. by intros w Hw. Qed.
Lemma triple_get_state P R : triple (E := E) P get_state (λ s w, P w ∧ s = w.1) R.
Proof. by intros w Hw. Qed.
End triples.

(** * Journaled traces *)

(** The journal on disk: the last state that was saved. *)
Definition durable (tr : trace) : option SyncState :=
  foldl (λ d ev, match ev with Saved s => Some s | _ => d end) None tr.

(** The state holds an outcome of its own operation for the key. *)
Definition owns (s : SyncState) (key : string) : Prop :=
  ∃ o, Outcomes s !! key = Some o ∧ oc_OperationID o = OperationID s.
Definition has_status (s : SyncState) (key : string) (st : OutcomeStatus) : Prop :=
  ∃ o, Outcomes s !! key = Some o ∧ oc_OperationID o = OperationID s ∧ Status o = st.

(** Before a write: the journal on disk already carries the operation for each key. *)
Definition intent_durable (pre : trace) (ev : event) : Prop :=
  match ev with
  | KeyCalled sec _ => ∃ st, durable pre = Some st ∧ OperationID st ≠ "" ∧ owns st (Key sec)
  | Written l _ => l ≠ [] → ∃ st, durable pre = Some st ∧ OperationID st ≠ "" ∧
      ∀ sec, sec ∈ l → owns st (Key sec)
  | _ => True
  end.
(** After a write of one key nothing happens before its outcome is on disk; when
that save fails the run ends. *)
Definition outcome_next (prev ev : event) : Prop :=
  match prev with
  | KeyCalled sec ok =>
    match ev with
    | Saved st => has_status st (Key sec) (if ok then OutcomeSucceeded else OutcomeNeedsReconciliation)
    | SaveFailed | Unlocked => True
    | _ => False
    end
  | SaveFailed => ev = Unlocked
  | _ => True
  end.
Definition journaled (tr : trace) : Prop :=
  ∀ pre ev post, tr = pre ++ ev :: post →
    intent_durable pre ev ∧ ∀ prev, last pre = Some prev → outcome_next prev ev.

Lemma journaled_snoc tr ev :
  journaled (tr ++ [ev]) ↔
  journaled tr ∧ intent_durable tr ev ∧ ∀ prev, last tr = Some prev → outcome_next prev ev.
Proof.
  split.
  - intros H. split; [|by apply (H tr ev [])].
    intros pre ev' post ->. apply (H pre ev' (post ++ [ev])). by rewrite <-app_assoc.
  - intros (Hj & Hi & Hn) pre ev' post E. destruct post as [|x post _] using rev_ind.
    + apply app_inj_tail in E as [-> ->]. done.
    + rewrite app_comm_cons, app_assoc in E. apply app_inj_tail in E as [-> _]. by eapply Hj.
Qed.
Lemma durable_snoc tr ev :
  durable (tr ++ [ev]) = match ev with Saved s => Some s | _ => durable tr end.
Proof. unfold durable. by rewrite foldl_app. Qed.
Lemma journaled_nil : journaled [].
Proof. intros pre ev post E. by destruct pre. Qed.

(** The last event lets the run go on with any event. *)
Definition settled (tr : trace) : Prop :=
  ∀ prev, last tr = Some prev → match prev with KeyCalled _ _ | SaveFailed => False | _ => True end.
Lemma settled_next tr ev : settled tr → ∀ prev, last tr = Some prev → outcome_next prev ev.
Proof. intros H prev Hp. specialize (H prev Hp). by destruct prev. Qed.
Lemma settled_snoc tr ev :
  match ev with KeyCalled _ _ | SaveFailed => False | _ => True end → settled (tr ++ [ev]).
Proof. intros H prev. rewrite last_snoc. by intros [= <-]. Qed.

(** * What the journal operations do *)

Section journal_ops.
Context {MR : MapRange} {HK : HashKey}.

Lemma saved_state_fields now s s' :
  saved_state now s = Ok s' → Outcomes s' = Outcomes s ∧ OperationID s' = OperationID s ∧
    Phase s' = Phase s ∧ Hashes s' = Hashes s ∧ LastSuccess s' = LastSuccess s.
Proof. unfold saved_state. intros H. by inv_ok. Qed.

Lemma owns_store s key o k :
  oc_OperationID o = OperationID s → owns s k → owns (store key o s) k.
Proof.
  intros Ho (o1 & Hk & Hid). unfold owns. cbn. destruct (decide (k = key)) as [->|Hne].
  - exists o. by rewrite lookup_insert_eq.
  - exists o1. by rewrite lookup_insert_ne.
Qed.
Lemma has_status_store s key o st :
  oc_OperationID o = OperationID s → Status o = st → has_status (store key o s) key st.
Proof. intros H1 H2. exists o. cbn. by rewrite lookup_insert_eq. Qed.

(** An acknowledgement that is accepted leaves the key succeeded. *)
Lemma RecordKeySuccess_None id sec now s s' :
  RecordKeySuccess id (Some sec) now s = (s', None) →
  id = OperationID s ∧ OperationID s' = OperationID s ∧ has_status s' (Key sec) OutcomeSucceeded ∧
  ∀ k, owns s k → owns s' k.
Proof.
  unfold RecordKeySuccess. destruct (checkOperation s id) as [e|] eqn:Hc; [done|].
  apply checkOperation_None in Hc as [_ ->]. unfold recordKeySuccess.
  destruct (ownedOutcome _ _ _) as [[sec' o]|e] eqn:Ho; [|done].
  apply ownedOutcome_Ok in Ho as ([= <-] & _ & Hk & Hid). destruct (m ← _; _); [done|].
  assert (Hack : acknowledge sec o now s = (s', None) →
    OperationID s = OperationID s ∧ OperationID s' = OperationID s ∧
    has_status s' (Key sec) OutcomeSucceeded ∧ ∀ k, owns s k → owns s' k).
  { unfold acknowledge. destruct (_ && _); [done|]. cbn [Metadata with_status].
    destruct (Metadata o); intros [= <-]; (split; [done|]; split; [done|]; split;
      [by apply has_status_store|intros; by apply owns_store]). }
  destruct (decide (Status o = OutcomeSucceeded)) as [Hs|Hs].
  - destruct (Metadata o) as [m|].
    + destruct (decide _); [intros [= <-]; repeat split; try done; by exists o|].
      destruct hashKeyIsEphemeral; [|done]. intros [= <-]. repeat split; try done.
      * by apply has_status_store.
      * intros. by apply owns_store.
    + intros [= <-]. repeat split; try done. by exists o.
  - destruct (Metadata o) as [m|]; [|done].
    destruct (past_deadline now m); [by unfold rejectCapability; destruct (decide _)|].
    destruct (capability_rejection o m); [by unfold rejectCapability; destruct (decide _)|done].
Qed.

Lemma RecordKeyNeeds_None id sec now s s' :
  RecordKeyNeedsReconciliation id (Some sec) now s = (s', None) →
  id = OperationID s ∧ OperationID s' = OperationID s ∧
  has_status s' (Key sec) OutcomeNeedsReconciliation.
Proof.
  unfold RecordKeyNeedsReconciliation. destruct (checkOperation s id) as [e|] eqn:Hc; [done|].
  apply checkOperation_None in Hc as [_ ->]. unfold recordKeyNeedsReconciliation.
  destruct (ownedOutcome _ _ _) as [[sec' o]|e] eqn:Ho; [|done].
  apply ownedOutcome_Ok in Ho as ([= <-] & _ & Hk & Hid). destruct (m ← _; _); [done|].
  destruct (decide _); [done|]. destruct (decide _) as [Hs|].
  - intros [= <-]. repeat split; try done. by exists o.
  - intros [= <-]. repeat split; try done. exists (needs_reconciliation now o). cbn.
    by rewrite lookup_insert_eq.
Qed.

Lemma fresh_lookup o (l : list Secret) (m : gmap string KeyOutcome) sec :
  sec ∈ l → foldl (λ m secret, match secret with Some sec => <[Key sec := o]> m | None => m end)
              m (Some <$> l) !! Key sec = Some o.
Proof.
  intros Hin. assert (H : ∀ m : gmap string KeyOutcome, m !! Key sec = Some o ∨ sec ∈ l →
    foldl (λ m secret, match secret with Some sec => <[Key sec := o]> m | None => m end)
      m (Some <$> l) !! Key sec = Some o); [|by apply H; right].
  clear. induction l as [|x l IH]; intros m [H|H]; cbn; try done; [by apply not_elem_of_nil in H|..].
  - apply IH. left. destruct (decide (Key x = Key sec)) as [->|]; [by rewrite lookup_insert_eq|].
    by rewrite lookup_insert_ne.
  - apply elem_of_cons in H as [<-|H]; apply IH; [left; by rewrite lookup_insert_eq|by right].
Qed.
Lemma fresh_lookup_other o (l : list Secret) (m : gmap string KeyOutcome) k :
  k ∉ Key <$> l → foldl (λ m secret, match secret with Some sec => <[Key sec := o]> m | None => m end)
              m (Some <$> l) !! k = m !! k.
Proof.
  revert m. induction l as [|x l IH]; intros m Hk; cbn; [done|]. cbn in Hk.
  rewrite IH by set_solver. apply lookup_insert_ne. set_solver.
Qed.

(** Beginning an operation gives every key a pending outcome of its own. *)
Lemma beginOperation_None id intent l now s s' :
  beginOperation id intent (Some <$> l) now None s = (s', None) →
  OperationID s' = id ∧ id ≠ "" ∧ Phase s' = OperationPhasePending ∧ Hashes s' = Hashes s ∧
  (∀ sec, sec ∈ l → Outcomes s' !! Key sec = Some (pending_outcome id now None)) ∧
  (∀ k, k ∉ Key <$> l → Outcomes s' !! k =
     (if operationPending s then abandon (OperationID s) now <$> Outcomes s !! k else Outcomes s !! k)).
Proof.
  unfold beginOperation. destruct (hasRetainedMetadataOperation s); [done|]. cbn [fmap option_fmap option_map mbind option_bind].
  destruct (bool_decide (trim_space id = "")) eqn:Hid; [done|]. destruct (existsb _ _); [done|].
  intros [= <-]. split_bools. repeat split; try (by destruct (operationPending s)).
  - by intros ->.
  - intros sec Hin. cbn [Outcomes with_outcomes]. by apply fresh_lookup.
  - intros k Hk. cbn [Outcomes with_outcomes with_operation]. rewrite fresh_lookup_other by done.
    destruct (operationPending s); [|done]. cbn. by rewrite lookup_fmap.
Qed.
End journal_ops.

(** * The driver keeps the discipline *)

Section driver_triples.
Context {UC : UnicodeCase} {MR : MapRange} {HK : HashKey} {TE : TargetEnv}.
Context (t : Target) (tr0 : trace).

(** A condition on the memory state and on the events since [tr0]. *)
Definition W (P : option SyncState → trace → Prop) (w : world) : Prop :=
  ∃ new, w.2 = tr0 ++ new ∧ P w.1 new.

Definition stopped : world → Prop := W (λ _ new, journaled new).
Definition quiet (S : option SyncState → Prop) : world → Prop :=
  W (λ st new, journaled new ∧ settled new ∧ S st).
(** The last event was the call for [sec]; the state satisfies [S]. *)
Definition called (sec : Secret) (ok : bool) (S : SyncState → Prop) : world → Prop :=
  W (λ st new, journaled new ∧ last new = Some (KeyCalled sec ok) ∧ ∃ s, st = Some s ∧ S s).
(** Memory and disk agree. *)
Definition on_disk (S : SyncState → Prop) : world → Prop :=
  W (λ st new, journaled new ∧ settled new ∧ ∃ s, st = Some s ∧ durable new = Some s ∧ S s).

Lemma quiet_stopped S w : quiet S w → stopped w.
Proof. intros (new & ? & ? & _). by exists new. Qed.
Lemma on_disk_quiet S w : on_disk S w → quiet (λ st, ∃ s, st = Some s ∧ S s) w.
Proof. intros (new & ? & ? & ? & s & ? & ? & ?). exists new. naive_solver. Qed.
Lemma on_disk_stopped S w : on_disk S w → stopped w.
Proof. intros (new & ? & ? & _). by exists new. Qed.
Lemma called_stopped sec ok S w : called sec ok S w → stopped w.
Proof. intros (new & ? & ? & _). by exists new. Qed.

Lemma triple_emit {E} (ev : event) S :
  (∀ new, intent_durable new ev) → match ev with KeyCalled _ _ | SaveFailed => False | _ => True end →
  triple (E := E) (quiet S) (emit ev) (λ _, quiet S) stopped.
Proof.
  intros Hi Hev [st tr] (new & E1 & Hj & Hs & HS). cbn in E1. subst tr.
  exists (new ++ [ev]). split; [cbn; by rewrite <-app_assoc|].
  split; [|split; [by apply settled_snoc|done]]. apply journaled_snoc.
  split; [done|]. split; [apply Hi|]. by apply settled_next.
Qed.

(** Changing the state in memory. *)
Lemma triple_on_state {E} P P' (op : SyncState → stepped) (wrap : op_err → E) :
  (∀ st new, P st new → journaled new ∧ is_Some st) →
  (∀ s s' new, P (Some s) new → op s = (s', None) → P' (Some s') new) →
  triple (W P) (on_state op wrap) (λ _, W P') stopped.
Proof.
  intros Hj H [st tr] (new & E1 & HP). cbn in E1, HP. subst tr. destruct (Hj _ _ HP) as [Hn [s ->]].
  unfold on_state. cbn. destruct (op s) as [s' [e|]] eqn:Hop; [by exists new|].
  exists new. split; [done|]. by eapply H.
Qed.

(** A save after any point from which the state may be written. *)
Lemma triple_save {E} (err : E) P (S : SyncState → Prop) :
  (∀ st new, P st new → journaled new ∧ ∃ s, st = Some s ∧ S s) →
  (∀ st new s, P st new → S s → ∀ prev, last new = Some prev →
     outcome_next prev (Saved s) ∧ outcome_next prev SaveFailed) →
  (∀ now s s', S s → saved_state now s = Ok s' → S s') →
  triple (W P) (save t err) (λ _, on_disk S) stopped.
Proof.
  intros Hst Hnext Hcl [st tr] (new & E1 & HP). cbn in E1, HP. subst tr.
  destruct (Hst _ _ HP) as (Hj & s & -> & HS). unfold save. cbn.
  assert (Hfail : stopped (Some s, (tr0 ++ new) ++ [SaveFailed])).
  { exists (new ++ [SaveFailed]). split; [cbn; by rewrite <-app_assoc|]. apply journaled_snoc.
    split; [done|]. split; [done|]. intros prev Hp. by apply (Hnext _ _ s HP HS). }
  destruct (saved_state _ s) as [s'|e] eqn:Hs; [|done].
  destruct (io_save t _); [|done|]; pose proof (Hcl _ _ _ HS Hs) as HS'.
  - exists (new ++ [Saved s']). split; [cbn; by rewrite <-app_assoc|].
    split; [|split; [by apply settled_snoc|]].
    + apply journaled_snoc. split; [done|]. split; [done|]. intros prev Hp.
      by apply (Hnext _ _ s' HP HS').
    + exists s'. by rewrite durable_snoc.
  - destruct Hfail as (new' & E1 & Hj'). by exists new'.
Qed.

Lemma triple_save_quiet {E} (err : E) (S : SyncState → Prop) :
  (∀ now s s', S s → saved_state now s = Ok s' → S s') →
  triple (quiet (λ st, ∃ s, st = Some s ∧ S s)) (save t err) (λ _, on_disk S) stopped.
Proof.
  intros Hcl. apply triple_save; [naive_solver| |done].
  intros st new s (_ & Hs & _) _ prev Hp. specialize (Hs prev Hp). by destruct prev.
Qed.
Lemma triple_save_called {E} (err : E) (sec : Secret) (ok : bool) (S : SyncState → Prop) :
  (∀ now s s', S s → saved_state now s = Ok s' → S s') →
  (∀ s, S s → has_status s (Key sec) (if ok then OutcomeSucceeded else OutcomeNeedsReconciliation)) →
  triple (called sec ok S) (save t err) (λ _, on_disk S) stopped.
Proof.
  intros Hcl Hst. apply triple_save; [naive_solver| |done].
  intros st new s (_ & Hl & _) HS prev Hp. rewrite Hl in Hp. injection Hp as <-.
  split; [by apply Hst|done].
Qed.

(** ** Keys one by one *)

Definition operating (id : string) (keys : list Secret) (s : SyncState) : Prop :=
  OperationID s = id ∧ id ≠ "" ∧ ∀ sec, sec ∈ keys → owns s (Key sec).
Lemma operating_saved id keys now s s' :
  operating id keys s → saved_state now s = Ok s' → operating id keys s'.
Proof.
  intros (H1 & H2 & H3) (Ho & Hid & _)%saved_state_fields. unfold operating, owns in *.
  by rewrite Ho, Hid.
Qed.
Lemma has_status_saved now s s' k st :
  has_status s k st → saved_state now s = Ok s' → has_status s' k st.
Proof. intros H (Ho & Hid & _)%saved_state_fields. unfold has_status in *. by rewrite Ho, Hid. Qed.

Lemma call_key_triple sync_key id sec keys :
  sec ∈ keys →
  triple (on_disk (operating id keys)) (call_key sync_key sec)
    (λ ok, called sec ok (operating id keys)) stopped.
Proof.
  intros Hin [st tr] (new & E1 & Hj & Hs & s & E2 & Hd & Hop). cbn in E1, E2. subst st tr.
  unfold call_key. cbn. eexists (new ++ [_]). split; [cbn; by rewrite <-app_assoc|].
  split; [|split; [by rewrite last_snoc|by exists s]]. apply journaled_snoc.
  split; [done|]. split; [|by apply settled_next].
  destruct Hop as (H1 & H2 & H3). exists s. repeat split; [done|congruence|by apply H3].
Qed.

Lemma per_key_loop_triple sync_key id keys secrets :
  (∀ sec, sec ∈ secrets → sec ∈ keys) →
  triple (on_disk (operating id keys)) (per_key_loop t sync_key id secrets)
    (λ _, on_disk (operating id keys)) stopped.
Proof.
  induction secrets as [|sec secrets IH]; intros Hsub; [by apply triple_ret|].
  cbn [per_key_loop]. eapply triple_bind; [apply (call_key_triple _ _ _ keys); set_solver|].
  intros ok. eapply triple_bind; [apply triple_get_trace|]. intros tr.
  destruct ok.
  - eapply triple_bind.
    { eapply triple_pre; [|intros w [H _]; exact H].
      apply triple_on_state with (P' := λ st new, journaled new ∧ last new = Some (KeyCalled sec true) ∧
        ∃ s, st = Some s ∧ operating id keys s ∧ has_status s (Key sec) OutcomeSucceeded); [naive_solver|].
      intros s s' new (Hj & Hl & s1 & [= <-] & Hop) (_ & Hid & Hst & Hown)%RecordKeySuccess_None.
      split; [done|]. split; [done|]. exists s'. split; [done|]. split; [|done].
      destruct Hop as (H1 & H2 & H3). split; [congruence|]. split; [done|]. auto. }
    intros ?. eapply triple_bind.
    { apply triple_save_called.
      - intros now s s' [H1 H2] Hsv. split; [by eapply operating_saved|by eapply has_status_saved].
      - by intros s [_ H]. }
    intros ?. eapply triple_conseq; [apply IH; set_solver| |done|done].
    intros w (new & E1 & Hj & Hs & s & E2 & Hd & Hop & _). exists new. naive_solver.
  - eapply triple_bind.
    { eapply triple_pre; [|intros w [H _]; exact H].
      apply triple_on_state with (P' := λ st new, journaled new ∧ last new = Some (KeyCalled sec false) ∧
        ∃ s, st = Some s ∧ has_status s (Key sec) OutcomeNeedsReconciliation); [naive_solver|].
      intros s s' new (Hj & Hl & s1 & [= <-] & Hop) (_ & _ & Hst)%RecordKeyNeeds_None.
      naive_solver. }
    intros ?. eapply triple_bind.
    { apply triple_save_called; [|done]. intros now s s' H Hsv. by eapply has_status_saved. }
    intros ?. apply triple_throw. apply on_disk_stopped.
Qed.

Lemma per_key_triple sync_key id keys :
  triple (on_disk (operating id keys)) (syncPerKeyOperation t sync_key id keys)
    (λ _, on_disk (λ _, True)) stopped.
Proof.
  eapply triple_bind; [by apply per_key_loop_triple|]. intros ?.
  eapply triple_bind; [apply triple_get_trace|]. intros tr. eapply triple_bind.
  { eapply triple_pre; [|intros w [H _]; exact H].
    apply triple_on_state with (P' := λ st new, journaled new ∧ settled new ∧ ∃ s, st = Some s ∧ True);
      [naive_solver|]. intros s s' new (Hj & Hs & _) _. naive_solver. }
  intros ?. by apply triple_save_quiet.
Qed.

(** ** A whole target *)

Abbreviation has_state := (λ st : option SyncState, ∃ s, st = Some s ∧ True).

Lemma triple_on_state_quiet {E} (op : SyncState → stepped) (wrap : op_err → E) :
  triple (quiet has_state) (on_state op wrap) (λ _, quiet has_state) stopped.
Proof. apply triple_on_state; naive_solver. Qed.
Lemma triple_save_state {E} (err : E) :
  triple (quiet has_state) (save t err) (λ _, quiet has_state) stopped.
Proof.
  eapply triple_conseq; [by apply (triple_save_quiet _ (λ _, True))|done| |done].
  intros ? w. apply on_disk_quiet.
Qed.

Lemma refuse_triple S : triple (quiet S) (refuse_reconciliation t) (λ _, quiet S) stopped.
Proof.
  eapply triple_bind; [apply triple_get_state|]. intros st.
  eapply triple_pre; [|intros w [H _]; exact H]. apply triple_when. intros _.
  apply triple_throw. apply quiet_stopped.
Qed.

Lemma recover_triple toSync :
  triple (quiet has_state) (recover t toSync) (λ _, quiet has_state) stopped.
Proof.
  eapply triple_bind; [apply triple_get_state|]. intros st.
  eapply triple_pre; [|intros w [H _]; exact H].
  destruct (syncStateNeedsRecovery st); [|by apply triple_ret].
  eapply triple_bind; [apply triple_get_trace|]. intros tr.
  eapply triple_pre; [|intros w [H _]; exact H].
  eapply triple_bind; [apply triple_on_state_quiet|]. intros ?.
  eapply triple_bind; [apply triple_save_state|]. intros ?.
  eapply triple_bind; [apply triple_get_state|]. intros ?. apply triple_ret. by intros w [H _].
Qed.

Lemma start_triple rotate source toSync :
  triple (quiet has_state) (start_operation t rotate source toSync)
    (λ id, on_disk (operating id toSync)) stopped.
Proof.
  eapply triple_bind; [apply refuse_triple|]. intros ?.
  eapply triple_bind; [apply (triple_lift_err _ _ _ (λ _, quiet has_state)); [done|apply quiet_stopped]|]. intros id.
  eapply triple_bind; [apply triple_get_trace|]. intros tr.
  eapply triple_pre; [|intros w [H _]; exact H].
  eapply triple_bind.
  { apply triple_on_state with (P' := λ st new, journaled new ∧ settled new ∧
      ∃ s, st = Some s ∧ operating id toSync s); [naive_solver|].
    intros s s' new (Hj & Hs & _) Hb. split; [done|]. split; [done|]. exists s'. split; [done|].
    assert (Hb' : ∃ intent, beginOperation id intent (Some <$> toSync) (io_now t tr) None s = (s', None))
      by (destruct rotate; eexists; exact Hb).
    destruct Hb' as [intent (Hid & Hne & _ & _ & Hfresh & _)%beginOperation_None].
    split; [done|]. split; [done|]. intros sec Hin. eexists. split; [by apply Hfresh|done]. }
  intros ?. eapply triple_bind.
  { apply triple_on_state with (P' := λ st new, journaled new ∧ settled new ∧
      ∃ s, st = Some s ∧ operating id toSync s); [naive_solver|].
    intros s s' new (Hj & Hs & s1 & [= <-] & Hop) [= <-]. naive_solver. }
  intros ?. eapply triple_bind.
  { apply (triple_save_quiet _ (operating id toSync)). intros now s s'. apply operating_saved. }
  intros ?. by apply triple_ret.
Qed.

(** The write of a batch: empty, or covered by the operation on disk. *)
Definition covered (id : string) (toSync : list Secret) : world → Prop :=
  W (λ st new, journaled new ∧ settled new ∧ has_state st ∧
     (toSync ≠ [] → ∃ s, durable new = Some s ∧ operating id toSync s)).

Lemma call_sync_triple id toSync :
  triple (covered id toSync) (call_sync t id toSync) (λ _, quiet has_state) stopped.
Proof.
  eapply triple_bind with (Q := λ _, quiet has_state).
  { intros [st tr] (new & E1 & Hj & Hs & Hst & Hc). cbn in E1, Hst. subst tr.
    eexists (new ++ [_]). cbn. split; [by rewrite <-app_assoc|].
    split; [|split; [by apply settled_snoc|done]]. apply journaled_snoc.
    split; [done|]. split; [|by apply settled_next]. intros Hne.
    destruct (Hc Hne) as (s & Hd & H1 & H2 & H3). exists s. split; [done|]. split; [congruence|done]. }
  intros [|]; [by apply triple_ret|].
  eapply triple_bind with (Q := λ _, quiet has_state); [|intros ?; apply triple_throw, quiet_stopped].
  apply triple_when. intros Hop. eapply triple_bind; [apply triple_get_trace|]. intros tr.
  eapply triple_pre; [|intros w [H _]; exact H].
  eapply triple_bind; [apply triple_on_state_quiet|]. intros ?. apply triple_save_state.
Qed.

Lemma report_triple strict ev keys :
  triple (quiet has_state) (reportMutation t strict ev keys) (λ _, quiet has_state) stopped.
Proof.
  unfold reportMutation. destruct (io_notify t ev keys) as [ok|]; [|by apply triple_ret].
  eapply triple_bind; [by apply triple_emit|]. intros ?. apply triple_when. intros _.
  apply triple_throw, quiet_stopped.
Qed.

Lemma triple_or {E A} P1 P2 (m : M E A) (Q : A → world → Prop) R :
  triple P1 m Q R → triple P2 m Q R → triple (λ w, P1 w ∨ P2 w) m Q R.
Proof. intros H1 H2 w [H|H]; [by apply H1|by apply H2]. Qed.
Lemma triple_pure_l {E A} (φ : Prop) P (m : M E A) (Q : A → world → Prop) R :
  (φ → triple P m Q R) → triple (λ w, φ ∧ P w) m Q R.
Proof. intros H w [Hp HP]. by apply H. Qed.

Lemma on_disk_covered id toSync w : on_disk (operating id toSync) w → covered id toSync w.
Proof. intros (new & ? & ? & ? & s & ? & ? & ?). exists new. repeat (split; [done|]). split; [by exists s|]. intros _. by exists s. Qed.
Lemma quiet_covered id w : quiet has_state w → covered id [] w.
Proof. intros (new & ? & ? & ? & ?). exists new. by repeat (split; [done|]). Qed.

(** The write itself, by key or as a batch. *)
Definition write_target (operating : bool) (id : string) (toSync : list Secret) : M cli_error unit :=
  match t_SyncKey t with
  | Some sync_key =>
    if operating then map_err (per_key_fault t) (syncPerKeyOperation t sync_key id toSync)
    else call_sync t id toSync
  | None => call_sync t id toSync
  end.
Definition started (starts : bool) (id : string) (toSync : list Secret) (w : world) : Prop :=
  (starts = true ∧ on_disk (operating id toSync) w) ∨
  (starts = false ∧ id = "" ∧ toSync = [] ∧ quiet has_state w).

Lemma write_triple (b starts : bool) id toSync :
  triple (started starts id toSync) (write_target (b && negb (bool_decide (id = ""))) id toSync)
    (λ _, quiet has_state) stopped.
Proof.
  unfold write_target, started. apply triple_or; apply triple_pure_l; intros Hst.
  - assert (Hc : triple (on_disk (operating id toSync)) (call_sync t id toSync) (λ _, quiet has_state) stopped)
      by (eapply triple_pre; [apply call_sync_triple|apply on_disk_covered]).
    destruct (t_SyncKey t) as [sk|]; [|done]. destruct (b && _); [|done].
    apply triple_map_err. eapply triple_conseq; [apply per_key_triple|done| |done].
    intros ? w. apply on_disk_quiet.
  - apply triple_pure_l. intros ->. apply triple_pure_l. intros ->.
    assert (Hc : triple (quiet has_state) (call_sync t "" []) (λ _, quiet has_state) stopped)
      by (eapply triple_pre; [apply call_sync_triple|apply quiet_covered]).
    rewrite bool_decide_eq_true_2, andb_false_r by done. by destruct (t_SyncKey t).
Qed.

Lemma body_triple o source noOv toSync :
  triple (quiet has_state) (sync_body t o source noOv toSync) (λ _, stopped) stopped.
Proof.
  unfold sync_body. eapply triple_bind with (Q := λ _, quiet has_state).
  { destruct noOv; [|by apply triple_ret]. apply triple_lift_err; [done|apply quiet_stopped]. }
  intros kept. destruct (o_dryRun o); [apply triple_ret, quiet_stopped|].
  eapply triple_bind; [apply refuse_triple|]. intros ?.
  eapply triple_bind; [apply recover_triple|]. intros [l rec].
  eapply triple_bind; [apply triple_get_state|]. intros st. cbv beta iota zeta.
  set (hasState := negb (bool_decide (st = None))).
  set (starts := hasState && negb (bool_decide (l = []))).
  eapply triple_bind with (Q := λ id, started starts id l).
  { destruct starts eqn:Hs.
    - eapply triple_conseq; [apply start_triple|by intros w [H _]| |done]. intros id w H. by left.
    - intros w [H ->]. right. split; [done|]. split; [done|].
      destruct H as (new & E1 & Hj & Hset & s & E2 & _).
      split; [|by exists new; split; [|split; [|split; [|exists s]]]].
      unfold starts, hasState in Hs. rewrite E2 in Hs. cbn in Hs. by split_bools. }
  intros id. eapply triple_bind; [apply (write_triple hasState)|]. intros ?.
  eapply triple_bind; [apply triple_get_trace|]. intros tr.
  eapply triple_pre; [|intros w [H _]; exact H].
  eapply triple_bind; [apply triple_when; intros _; apply triple_on_state_quiet|]. intros ?.
  eapply triple_bind; [apply triple_when; intros _; apply triple_save_state|]. intros ?.
  eapply triple_conseq; [apply triple_when; intros _; apply report_triple|done| |done].
  intros ? w. apply quiet_stopped.
Qed.
End driver_triples.

Lemma no_new_events (tr0 : trace) : ∃ new, tr0 = tr0 ++ new ∧ journaled new.
Proof. exists []. rewrite app_nil_r. split; [done|apply journaled_nil]. Qed.

(** C7: the journal discipline of a target with a durable journal (always for
github, cloudflare and gitlab, and for every target of a rotation): whatever the
target, the disk and the clock do, no value is sent before the journal on disk
carries the operation for its key, and after each key the next thing that happens
is that its outcome is on disk, or the run ends. *)
Theorem sync_journal_discipline `{UC : UnicodeCase, MR : MapRange, HK : HashKey, TE : TargetEnv}
    t o source secrets tr0 :
  journalByDefault t = true ∨ o_rotate o = true →
  ∃ new, (sync_target t o source secrets (None, tr0)).1.2 = tr0 ++ new ∧ journaled new.
Proof.
  intros Hd. unfold sync_target.
  destruct (ValidateDestinationMapping _ _); [apply no_new_events|]. cbv zeta.
  rewrite (proj2 (orb_true_iff (journalByDefault t || o_rotate o) _)) by (left; apply orb_true_iff; tauto).
  assert (Hinner : ∀ f, triple (quiet tr0 (λ _, True))
    (do! state := lift_err (λ e, (ExitGenericError, load_state e)) (io_load t (t_Name t) (targetStateID t)) in
     run! set_state state; sync_body t o source
       (negb (o_rotate o) && (NoOverwrite (t_Config t) || o_noOverwrite o)) (f state))
    (λ _, stopped tr0) (stopped tr0)).
  { intros f. eapply triple_bind; [apply (triple_lift_err _ _ _ (λ _, quiet tr0 (λ _, True))); [done|apply quiet_stopped]|].
    intros s. eapply triple_bind with (Q := λ _, quiet tr0 (λ st, ∃ s, st = Some s ∧ True)).
    { intros w (new & H1 & H2 & H3 & _). exists new. naive_solver. }
    intros ?. apply body_triple. }
  unfold with_lock. destruct (o_dryRun o).
  - specialize (Hinner (λ state, if o_skipUnchanged o && negb (o_rotate o) &&
      negb (negb (o_rotate o) && (NoOverwrite (t_Config t) || o_noOverwrite o))
      then FilterUnchanged secrets state else secrets) (None, tr0)).
    destruct (bind _ _ _) as [w' [a|e]]; cbn; apply Hinner; exists []; rewrite app_nil_r;
      (split; [done|split; [apply journaled_nil|by split]]).
  - destruct (io_lock t); [|apply no_new_events].
    specialize (Hinner (λ state, if o_skipUnchanged o && negb (o_rotate o) &&
      negb (negb (o_rotate o) && (NoOverwrite (t_Config t) || o_noOverwrite o))
      then FilterUnchanged secrets state else secrets) (None, tr0 ++ [Locked])).
    cbn [fst snd]. destruct (bind _ _ _) as [w' r]. cbn.
    assert (Hw : stopped tr0 w').
    { destruct r; apply Hinner; exists [Locked]; (split; [done|]); (split; [|split; [|done]]).
      1,3: apply (journaled_snoc [] Locked); split; [apply journaled_nil|done].
      all: by apply (settled_snoc [] Locked). }
    destruct Hw as (new & -> & Hj). exists (new ++ [Unlocked]). rewrite <-app_assoc. split; [done|].
    apply journaled_snoc. split; [done|]. split; [done|]. intros prev _. by destruct prev.
Qed.

(** * Concrete runs *)

#[export] Instance toy_env : TargetEnv := {|
  nfc := λ s, s; abs := Some; url_parse := λ s, Some ("https", s, "");
  url_print := λ _ _ host _, host |}.
Definition toy_io (name : string) (fields : gmap string string) (keyed : bool)
    (answer : trace → bool) (disk : SyncState) : Target :=
  {| t_Name := name;
     t_Config := {| tc_Type := name; Fields := fields; tc_Token := "t"; NoOverwrite := false |};
     t_SyncKey := if keyed then Some (λ tr _, answer tr) else None;
     t_Sync := λ tr _, answer tr; t_ExistingKeys := None; io_lock := true;
     io_load := λ _ _, Ok disk; io_save := λ _, save_written; io_now := λ tr, Z.of_nat (length tr);
     io_operation := Some "op-1"; io_notify := λ _ _, Some true |}.
Definition toy_options (skip dry : bool) : syncOptions :=
  {| o_to := ""; o_file := ""; o_githubRepo := ""; o_skipUnchanged := skip; o_noOverwrite := false;
     o_rotate := false; o_dryRun := dry; o_strictNotify := false; o_declaredOnly := false;
     o_suppressNotify := false |}.
Definition toy_github (answer : trace → bool) : Target :=
  toy_io "github" {[ "repo" := "o/r" ]} true answer (NewSyncState "github" "github|api.github.com|o/r").
Definition toy_run (t : Target) (o : syncOptions) (l : list Secret) : world * result cli_error unit :=
  sync_target (MR := sorted_range) (HK := toy_key) t o "local:/app" l (None, []).
(** The shape of a trace: what each event was about. *)
Definition event_shape (ev : event) : string :=
  match ev with
  | Locked => "lock" | Unlocked => "unlock"
  | KeyCalled s ok => (if ok then "ack " else "fail ") +:+ Key s
  | Written l ok => "write " +:+ join "," (Key <$> l)
  | Saved s => "save " +:+ Phase s | SaveFailed => "save failed"
  | Notified e ks => "notify " +:+ e +:+ " " +:+ join "," ks
  end.

Example run_two_keys :
  event_shape <$> (toy_run (toy_github (λ _, true)) (toy_options false false)
    [mk_secret "A" "1"; mk_secret "B" "2"]).1.2 =
  ["lock"; "save pending"; "ack A"; "save pending"; "ack B"; "save pending"; "save succeeded";
   "notify sync A,B"; "unlock"].
Proof. vm_compute. reflexivity. Qed.
Example run_second_key_fails :
  event_shape <$> (toy_run (toy_github (λ tr, length tr <? 3)) (toy_options false false)
    [mk_secret "A" "1"; mk_secret "B" "2"]).1.2 =
  ["lock"; "save pending"; "ack A"; "save pending"; "fail B"; "save needs_reconciliation"; "unlock"].
Proof. vm_compute. reflexivity. Qed.

Lemma sync_journal_discipline_witness :
  ∃ new, (sync_target (MR := sorted_range) (HK := toy_key) (toy_github (λ tr, length tr <? 3))
    (toy_options false false) "local:/app" [mk_secret "A" "1"; mk_secret "B" "2"] (None, [])).1.2 = [] ++ new
    ∧ journaled new.
Proof. apply sync_journal_discipline. left. reflexivity. Defined.

(** A file target with --skip-unchanged: the second run, after only B changed,
rewrites the whole file with B alone. *)
Definition file_run (disk : SyncState) (l : list Secret) :=
  toy_run (toy_io "dotenv" ∅ false (λ _, true) disk) (toy_options true false) l.
Definition written_batches (tr : trace) : list (list Secret) :=
  omap (λ ev, match ev with Written l true => Some l | _ => None end) tr.
Theorem skip_unchanged_truncates_file :
  let run1 := file_run (NewSyncState "dotenv" ".env") [mk_secret "A" "1"; mk_secret "B" "2"] in
  let run2 := file_run (default (NewSyncState "dotenv" ".env") (durable run1.1.2))
                [mk_secret "A" "1"; mk_secret "B" "3"] in
  run1.2 = Ok tt ∧ run2.2 = Ok tt ∧
  DotenvSync <$> written_batches run1.1.2 = [Ok ("A=1" +:+ str1 LF +:+ "B=2" +:+ str1 LF)] ∧
  DotenvSync <$> written_batches run2.1.2 = [Ok ("B=3" +:+ str1 LF)].
Proof. vm_compute. repeat split; reflexivity. Qed.

(** A dry run has no effect: nothing is locked, sent, saved or reported. *)
Theorem dry_run_silent `{UC : UnicodeCase, MR : MapRange, HK : HashKey, TE : TargetEnv}
    t o source secrets tr0 :
  o_dryRun o = true → (sync_target t o source secrets (None, tr0)).1.2 = tr0.
Proof.
  intros Hd. assert (Hb : ∀ st noOv l, (sync_body t o source noOv l (st, tr0)).1.2 = tr0).
  { intros st noOv l. unfold sync_body, bind, lift_err. rewrite Hd.
    destruct noOv; [|done]. by destruct (result_map _ _). }
  unfold sync_target. destruct (ValidateDestinationMapping _ _); [done|]. cbv zeta.
  destruct (_ || _ || _); [|apply Hb]. unfold with_lock. rewrite Hd.
  unfold lift_err, bind. destruct (io_load t _ _) as [s|]; [|done]. cbn [ret set_state fst snd]. apply Hb.
Qed.
Lemma dry_run_silent_witness :
  (toy_run (toy_github (λ _, true)) (toy_options false true) [mk_secret "A" "1"]).1.2 = [].
Proof. apply dry_run_silent. reflexivity. Defined.

(** a target with a durable journal whose last operation is unreconciled is not
written: the run fails, and all it did was to take and release the lock. *)
Theorem sync_refuses_unreconciled `{UC : UnicodeCase, MR : MapRange, HK : HashKey, TE : TargetEnv}
    t o source secrets tr0 s :
  journalByDefault t = true → o_dryRun o = false →
  io_load t (t_Name t) (targetStateID t) = Ok s → RequiresReconciliation s = true →
  ∃ e, (sync_target t o source secrets (None, tr0)).2 = Err e ∧
    ((sync_target t o source secrets (None, tr0)).1.2 = tr0 ∨
     (sync_target t o source secrets (None, tr0)).1.2 = tr0 ++ [Locked; Unlocked]).
Proof.
  intros Hj Hd Hl Hr. unfold sync_target.
  destruct (ValidateDestinationMapping _ _); [by eexists; split; [|left]|]. cbv zeta.
  rewrite Hj. cbn [orb]. unfold with_lock. rewrite Hd.
  destruct (io_lock t); [|by eexists; split; [|left]].
  rewrite Hl. unfold lift_err, bind. cbn [ret set_state fst snd].
  assert (Hb : ∀ noOv l, ∃ e, sync_body t o source noOv l (Some s, tr0 ++ [Locked]) =
    ((Some s, tr0 ++ [Locked]), Err e)).
  { intros noOv l. unfold sync_body, bind, lift_err.
    rewrite Hd. destruct noOv; [destruct (result_map _ _) as [l'|e]; [|by eexists]|];
      unfold refuse_reconciliation, bind, get_state, when, ret, throw;
      cbn [fst snd requires_reconciliation]; rewrite Hj, Hr; cbn [andb]; by eexists. }
  match goal with |- context [sync_body t o source ?n ?l] => destruct (Hb n l) as [e He] end.
  rewrite He. exists e. split; [done|]. right. cbn. by rewrite <-app_assoc.
Qed.
Lemma sync_refuses_unreconciled_witness :
  let s := with_phase OperationPhaseNeedsReconciliation (Some 5%Z)
             (with_operation "op-0" "" 4 (NewSyncState "github" "id")) in
  ∃ e, (toy_run (toy_io "github" ∅ true (λ _, true) s) (toy_options false false) [mk_secret "A" "1"]).2 = Err e.
Proof.
  intros s. destruct (sync_refuses_unreconciled (MR := sorted_range) (HK := toy_key)
    (toy_io "github" ∅ true (λ _, true) s) (toy_options false false) "local:/app" [mk_secret "A" "1"] [] s)
    as (e & He & _); [reflexivity..|]. exists e. exact He.
Defined.

(** * Target selection *)

Lemma elem_of_want_order seen l x : x ∈ want_order seen l ↔ x ∈ l ∧ x ≠ "" ∧ x ∉ seen.
Proof.
  revert seen. induction l as [|y l IH]; intros seen; cbn [want_order]; [set_solver|].
  destruct (bool_decide (y = "") || bool_decide (y ∈ seen)) eqn:E.
  - rewrite IH. apply orb_true_iff in E as [E|E]; split_bools; set_solver.
  - split_bools. rewrite !elem_of_cons, IH. destruct (decide (x = y)) as [->|]; set_solver.
Qed.
Lemma want_order_nodup seen l : NoDup (want_order seen l).
Proof.
  revert seen. induction l as [|y l IH]; intros seen; cbn [want_order]; [constructor|].
  destruct (_ || _); [done|]. constructor; [|done]. rewrite elem_of_want_order. set_solver.
Qed.

Section select.
Context (getenv : string → string) (expand_env : string → string).

Lemma targetFromFlags_type o typ tcs :
  targetFromFlags getenv o typ = Ok tcs → tcs ≠ [] ∧ ∀ tc, tc ∈ tcs → tc_Type tc = typ.
Proof.
  unfold targetFromFlags. repeat match goal with
  | |- context [decide (typ = ?s)] => destruct (decide (typ = s)) as [->|]
  end; try done.
  1-2: intros [= <-]; split; [done|]; by intros tc ->%list_elem_of_singleton.
  - change (bool_decide ("github" = "k8s") || bool_decide ("github" = K8sManifestAlias)) with false.
    cbv iota zeta.
    set (tcs' := _ <$> _). set (bad := filter (λ r, repo_ok r = false) _).
    destruct (bool_decide (getenv _ = "") || _ || _) eqn:E; [done|]. intros [= <-].
    apply orb_false_iff in E as [E1 E2]. apply orb_false_iff in E1 as [_ E1]. rewrite negb_false_iff in E1.
    rewrite E1, andb_true_r in E2. split_bools. split; [done|].
    intros tc Htc. unfold tcs' in Htc. apply list_elem_of_fmap in Htc as (r & -> & _). done.
  - destruct (bool_decide (typ = "k8s") || _); [|done]. intros [= <-]. split; [done|].
    by intros tc ->%list_elem_of_singleton.
Qed.

Lemma wanted_targets_spec o sc order out :
  wanted_targets getenv expand_env o sc order = Ok out →
  (∀ tc, tc ∈ out → tc_Type tc ∈ order) ∧
  (∀ typ, typ ∈ order → ∃ tc, tc ∈ out ∧ tc_Type tc = typ) ∧
  (∀ typ d, typ ∈ order → d ∈ declared_of sc typ → targetFromConfig getenv expand_env d ∈ out).
Proof.
  revert out. induction order as [|typ order IH]; intros out; cbn [wanted_targets].
  { intros [= <-]. set_solver. }
  intros H. apply result_bind_Ok in H as (tcs & Htcs & H). apply result_bind_Ok in H as (rest & Hrest & [= <-]).
  destruct (IH rest Hrest) as (H1 & H2 & H3).
  assert (Ht : tcs ≠ [] ∧ (∀ tc, tc ∈ tcs → tc_Type tc = typ) ∧
    ∀ d, d ∈ declared_of sc typ → targetFromConfig getenv expand_env d ∈ tcs).
  { destruct (decide (declared_of sc typ = [])) as [Hd|Hd].
    - destruct (targetFromFlags_type _ _ _ Htcs) as [Ha Hb]. split; [done|]. split; [done|].
      rewrite Hd. set_solver.
    - injection Htcs as <-. split; [by destruct (declared_of sc typ)|]. split.
      + intros tc (d & -> & Hin)%list_elem_of_fmap. unfold declared_of in Hin. destruct sc; [|set_solver].
        by apply list_elem_of_filter in Hin as [? _].
      + intros d Hin. by apply list_elem_of_fmap_2. }
  destruct Ht as (Hne & Hty & Hdecl). split; [|split].
  - intros tc [Htc|Htc]%elem_of_app; [rewrite (Hty tc Htc); set_solver|].
    apply elem_of_cons. right. auto.
  - intros x [->|Hx]%elem_of_cons.
    + destruct tcs as [|tc tcs]; [done|]. exists tc. split; [set_solver|]. apply Hty. set_solver.
    + destruct (H2 x Hx) as (tc & ? & ?). exists tc. set_solver.
  - intros x d [->|Hx]%elem_of_cons Hd; apply elem_of_app; [left; auto|right; eauto].
Qed.
End select.

(** target selection drops and invents nothing: with --to, every requested type
gets at least one target (all its declared ones when there are any) and every
target is of a requested type; without --to, the targets are the declared ones,
and the dotenv default applies only when nothing was declared. *)
Theorem resolve_targets_spec getenv expand_env o sc out :
  resolveTargets getenv expand_env o sc = Ok out →
  let wanted := filter (λ t, t ≠ "") (comma_fields (o_to o)) in
  (wanted ≠ [] →
     (∀ tc, tc ∈ out → tc_Type tc ∈ wanted) ∧
     (∀ typ, typ ∈ wanted → ∃ tc, tc ∈ out ∧ tc_Type tc = typ) ∧
     (∀ typ d, typ ∈ wanted → d ∈ declared_of sc typ → targetFromConfig getenv expand_env d ∈ out)) ∧
  (wanted = [] →
     let declared := match sc with
                     | Some c => targetFromConfig getenv expand_env <$> sync_Targets c
                     | None => []
                     end in
     out = if bool_decide (declared = []) && negb (o_declaredOnly o)
           then [file_target "dotenv" (o_file o)] else declared).
Proof.
  intros Hr wanted. unfold resolveTargets in Hr. apply result_bind_Ok in Hr as (l & Hl & Hout).
  injection Hout as <-.
  assert (Hw : ∀ x, x ∈ want_order ∅ (comma_fields (o_to o)) ↔ x ∈ wanted).
  { intros x. unfold wanted. rewrite elem_of_want_order, list_elem_of_filter. set_solver. }
  destruct (decide (want_order ∅ (comma_fields (o_to o)) = [])) as [E|E].
  - injection Hl as <-. assert (wanted = []) as ->; [|done].
    destruct wanted as [|x ?]; [done|]. assert (x ∈ want_order ∅ (comma_fields (o_to o))) by (apply Hw; set_solver).
    rewrite E in *. set_solver.
  - destruct (wanted_targets_spec _ _ _ _ _ _ Hl) as (H1 & H2 & H3).
    assert (Hne : l ≠ []).
    { intros ->. destruct (want_order _ _) as [|x ?]; [done|]. destruct (H2 x) as (? & ? & _); set_solver. }
    rewrite (bool_decide_eq_false_2 _ Hne). cbn [andb]. split.
    + intros _. split; [intros tc Htc; apply Hw; auto|]. split; [intros typ Ht; apply H2, Hw, Ht|].
      intros typ d Ht. apply H3, Hw, Ht.
    + intros Hn. destruct (want_order _ _) as [|x ?]; [done|].
      assert (Hx : x ∈ wanted) by (apply Hw; set_solver). rewrite Hn in Hx. set_solver.
Qed.
Lemma resolve_targets_spec_witness :
  let o := {| o_to := "dotenv, terraform"; o_file := "f"; o_githubRepo := ""; o_skipUnchanged := false;
              o_noOverwrite := false; o_rotate := false; o_dryRun := false; o_strictNotify := false;
              o_declaredOnly := false; o_suppressNotify := false |} in
  ∃ tc, tc ∈ [file_target "dotenv" "f"; file_target "terraform" "f"] ∧ tc_Type tc = "terraform".
Proof.
  intros o. apply (proj1 (proj2 (proj1 (resolve_targets_spec (λ _, "") (λ s, s) o None
    [file_target "dotenv" "f"; file_target "terraform" "f"] ltac:(vm_compute; reflexivity))
    ltac:(vm_compute; discriminate)))).
  by_decide.
Defined.
