(* ===== verification/SyncOutcome.v ===== *)
(** What a per-key sync leaves behind: the calls it made and the journal state, for
a run that succeeds and for one that a failing key stops. *)

From S2P Require Import Prelude GoStrings Provider Digest EnvExec Config OpMetadata SyncState SyncInvariant SyncFinalize Targets Effects SyncRun SyncRunProps.
#[local] Open Scope go_scope.

(** The keys sent, with the target's answer. *)
Definition calls (tr : trace) : list (Secret * bool) :=
  omap (λ ev, match ev with KeyCalled sec ok => Some (sec, ok) | _ => None end) tr.
Lemma calls_app l1 l2 : calls (l1 ++ l2) = calls l1 ++ calls l2.
Proof. apply omap_app. Qed.

Section outcome.
Context {MR : MapRange} {HK : HashKey}.

(** A key acknowledged in operation [id], with its value in the drift cache. *)
Definition acked (id : string) (s : SyncState) (sec : Secret) : Prop :=
  Hashes s !! Key sec = Some (hashSecret (Value sec)) ∧
  ∃ o, Outcomes s !! Key sec = Some o ∧ oc_OperationID o = id ∧ Metadata o = None ∧
       Status o = OutcomeSucceeded.
Definition waiting (id : string) (s : SyncState) (sec : Secret) : Prop :=
  ∃ now, Outcomes s !! Key sec = Some (pending_outcome id now None).

(** [h0] is the drift cache the operation started with. *)
Record stage (id : string) (h0 : gmap string string) (done failed todo : list Secret) (s : SyncState) : Prop := {
  sg_id : OperationID s = id;
  sg_done : ∀ sec, sec ∈ done → acked id s sec;
  sg_failed : ∀ sec, sec ∈ failed → has_status s (Key sec) OutcomeNeedsReconciliation;
  sg_todo : ∀ sec, sec ∈ todo → waiting id s sec;
  sg_owned : ∀ k o, Outcomes s !! k = Some o → oc_OperationID o = id →
    k ∈ Key <$> done ++ failed ++ todo;
  sg_other : ∀ k, k ∉ Key <$> done → Hashes s !! k = h0 !! k;
}.

Lemma stage_ext id h0 d f l s s' :
  stage id h0 d f l s → OperationID s' = OperationID s → Outcomes s' = Outcomes s →
  Hashes s' = Hashes s → stage id h0 d f l s'.
Proof.
  intros [H1 H2 H3 H4 H5 H6] E1 E2 E3. unfold acked, waiting, has_status in *.
  split; unfold acked, waiting, has_status; rewrite ?E1, ?E2, ?E3; done.
Qed.

Lemma success_on_pending id sec now t0 s s' :
  Outcomes s !! Key sec = Some (pending_outcome id t0 None) →
  RecordKeySuccess id (Some sec) now s = (s', None) →
  s' = store (Key sec) (with_status OutcomeSucceeded now (pending_outcome id t0 None)) (Update [sec] s).
Proof.
  intros Hk. unfold RecordKeySuccess. destruct (checkOperation s id); [done|].
  unfold recordKeySuccess. destruct (ownedOutcome _ _ _) as [[sec' o]|e] eqn:Ho; [|done].
  apply ownedOutcome_Ok in Ho as ([= <-] & _ & Hk' & Hid). rewrite Hk in Hk'. injection Hk' as <-.
  cbn [Metadata pending_outcome mbind option_bind Status]. destruct (decide _); [done|].
  unfold acknowledge. cbn. by intros [= <-].
Qed.
Lemma needs_on_pending id sec now t0 s s' :
  Outcomes s !! Key sec = Some (pending_outcome id t0 None) →
  RecordKeyNeedsReconciliation id (Some sec) now s = (s', None) →
  s' = with_phase OperationPhaseNeedsReconciliation (Some now)
         (store (Key sec) (needs_reconciliation now (pending_outcome id t0 None)) s).
Proof.
  intros Hk. unfold RecordKeyNeedsReconciliation. destruct (checkOperation s id); [done|].
  unfold recordKeyNeedsReconciliation. destruct (ownedOutcome _ _ _) as [[sec' o]|e] eqn:Ho; [|done].
  apply ownedOutcome_Ok in Ho as ([= <-] & _ & Hk' & Hid). rewrite Hk in Hk'. injection Hk' as <-.
  cbn [Metadata pending_outcome mbind option_bind Status]. do 2 (destruct (decide _); [done|]).
  by intros [= <-].
Qed.

Lemma stage_success id h0 d sec l now s s' :
  NoDup (Key <$> d ++ sec :: l) → stage id h0 d [] (sec :: l) s →
  RecordKeySuccess id (Some sec) now s = (s', None) → stage id h0 (d ++ [sec]) [] l s'.
Proof.
  intros Hnd Hst Hr. destruct (sg_todo _ _ _ _ _ _ Hst sec) as [t0 Hk]; [set_solver|].
  apply (success_on_pending _ _ _ _ _ _ Hk) in Hr as ->.
  rewrite fmap_app in Hnd. cbn in Hnd. apply NoDup_app in Hnd as (_ & Hd & [Hl _]%NoDup_cons).
  assert (Hne : ∀ x, x ∈ d ++ l → Key x ≠ Key sec).
  { intros x [Hx|Hx]%elem_of_app E; [apply (Hd (Key x)); [by apply list_elem_of_fmap_2|set_solver]|].
    apply Hl. rewrite <-E. by apply list_elem_of_fmap_2. }
  destruct Hst as [H1 H2 H3 H4 H5 H6]. split; cbn.
  - done.
  - intros x [Hx| ->%list_elem_of_singleton]%elem_of_app.
    + destruct (H2 x Hx) as (Hh & o & Ho & ?). split; cbn;
        rewrite ?lookup_insert_ne by (apply not_eq_sym, Hne; set_solver); [done|by exists o].
    + split; cbn; rewrite !lookup_insert_eq; [done|]. by eexists.
  - set_solver.
  - intros x Hx. destruct (H4 x) as [t1 Ht]; [set_solver|]. exists t1. cbn.
    rewrite lookup_insert_ne by (apply not_eq_sym, Hne; set_solver). done.
  - intros k o. destruct (decide (k = Key sec)) as [->|Hk']; [intros; set_solver|].
    rewrite lookup_insert_ne by done. intros Ho Hid. specialize (H5 k o Ho Hid). set_solver.
  - intros k Hk'. rewrite lookup_insert_ne by set_solver. apply H6. set_solver.
Qed.

Lemma stage_failure id h0 d sec l now s s' :
  NoDup (Key <$> d ++ sec :: l) → stage id h0 d [] (sec :: l) s →
  RecordKeyNeedsReconciliation id (Some sec) now s = (s', None) →
  stage id h0 d [sec] l s' ∧ Phase s' = OperationPhaseNeedsReconciliation.
Proof.
  intros Hnd Hst Hr. destruct (sg_todo _ _ _ _ _ _ Hst sec) as [t0 Hk]; [set_solver|].
  apply (needs_on_pending _ _ _ _ _ _ Hk) in Hr as ->. split; [|done].
  rewrite fmap_app in Hnd. cbn in Hnd. apply NoDup_app in Hnd as (_ & Hd & [Hl _]%NoDup_cons).
  assert (Hne : ∀ x, x ∈ d ++ l → Key x ≠ Key sec).
  { intros x [Hx|Hx]%elem_of_app E; [apply (Hd (Key x)); [by apply list_elem_of_fmap_2|set_solver]|].
    apply Hl. rewrite <-E. by apply list_elem_of_fmap_2. }
  destruct Hst as [H1 H2 H3 H4 H5 H6]. split; cbn.
  - done.
  - intros x Hx. destruct (H2 x Hx) as (Hh & o & Ho & ?). split; [done|]. exists o. cbn.
    rewrite lookup_insert_ne by (apply not_eq_sym, Hne; set_solver). done.
  - intros x ->%list_elem_of_singleton. eexists. cbn. rewrite lookup_insert_eq. by rewrite H1.
  - intros x Hx. destruct (H4 x) as [t1 Ht]; [set_solver|]. exists t1. cbn.
    rewrite lookup_insert_ne by (apply not_eq_sym, Hne; set_solver). done.
  - intros k o. destruct (decide (k = Key sec)) as [->|Hk']; [intros; set_solver|].
    rewrite lookup_insert_ne by done. intros Ho Hid. specialize (H5 k o Ho Hid). set_solver.
  - done.
Qed.

Context {UC : UnicodeCase} {TE : TargetEnv} (t : Target).

Lemma save_run {E} (err : E) s tr :
  (∃ s', save t err (Some s, tr) = ((Some s', tr ++ [Saved s']), Ok tt) ∧
     OperationID s' = OperationID s ∧ Outcomes s' = Outcomes s ∧ Hashes s' = Hashes s ∧
     Phase s' = Phase s ∧ LastSuccess s' = LastSuccess s) ∨
  (save t err (Some s, tr)).2 = Err err.
Proof.
  unfold save. cbn. destruct (saved_state _ s) as [s'|] eqn:Hs; [|by right].
  apply saved_state_fields in Hs as (? & ? & ? & ? & ?).
  destruct (io_save t tr); [|by right..]. left. exists s'. done.
Qed.

Definition ack (sec : Secret) : Secret * bool := (sec, true).

Lemma last_cons_Some {A} (x y : A) l : last l = Some y → last (x :: l) = Some y.
Proof. intros H. by rewrite last_cons, H. Qed.

(** One key whose call succeeded, up to the save of its outcome. *)
Lemma acked_key_run id h0 done sec todo s tr now :
  NoDup (Key <$> done ++ sec :: todo) → stage id h0 done [] (sec :: todo) s → Phase s = OperationPhasePending →
  let m := run! on_state (RecordKeySuccess id (Some sec) now) (λ _, syncJournalError "record key success");
           save t (syncJournalError "save key success") in
  (∃ s', m (Some s, tr) = ((Some s', tr ++ [Saved s']), Ok tt) ∧
     stage id h0 (done ++ [sec]) [] todo s' ∧ Phase s' = OperationPhasePending) ∨
  (∃ w what, m (Some s, tr) = (w, Err (syncJournalError what))).
Proof.
  intros Hnd Hst Hph m. unfold m, bind, on_state. cbn [fst snd].
  destruct (RecordKeySuccess id (Some sec) _ s) as [s1 [e|]] eqn:Hr; [right; by eexists _, _|].
  pose proof (stage_success _ _ _ _ _ _ _ _ Hnd Hst Hr) as Hst1.
  destruct (sg_todo _ _ _ _ _ _ Hst sec) as [t0 Hk]; [set_solver|].
  apply (success_on_pending _ _ _ _ _ _ Hk) in Hr.
  destruct (save_run (syncJournalError "save key success") s1 tr) as [(s2 & -> & E1 & E2 & E3 & E4 & _)|Hf].
  - left. exists s2. split; [done|]. split; [by apply (stage_ext _ _ _ _ _ _ _ Hst1)|]. rewrite E4. by subst s1.
  - right. destruct (save _ _ _) as [w r]. cbn in Hf. subst r. by eexists _, _.
Qed.
(** One key whose call failed. *)
Lemma failed_key_run id h0 done sec todo s tr now :
  NoDup (Key <$> done ++ sec :: todo) → stage id h0 done [] (sec :: todo) s →
  let m := run! on_state (RecordKeyNeedsReconciliation id (Some sec) now)
                 (λ _, syncJournalError "record key reconciliation");
           run! save t (syncJournalError "save key reconciliation"); throw (A := unit) key_failed in
  (∃ s', m (Some s, tr) = ((Some s', tr ++ [Saved s']), Err key_failed) ∧
     stage id h0 done [sec] todo s' ∧ Phase s' = OperationPhaseNeedsReconciliation) ∨
  (∃ w what, m (Some s, tr) = (w, Err (syncJournalError what))).
Proof.
  intros Hnd Hst m. unfold m, bind, on_state. cbn [fst snd].
  destruct (RecordKeyNeedsReconciliation id (Some sec) _ s) as [s1 [e|]] eqn:Hr; [right; by eexists _, _|].
  destruct (stage_failure _ _ _ _ _ _ _ _ Hnd Hst Hr) as [Hst1 Hph].
  destruct (save_run (syncJournalError "save key reconciliation") s1 tr) as [(s2 & -> & E1 & E2 & E3 & E4 & _)|Hf].
  - left. exists s2. split; [done|]. split; [by apply (stage_ext _ _ _ _ _ _ _ Hst1)|]. by rewrite E4.
  - right. destruct (save _ _ _) as [w r]. cbn in Hf. subst r. by eexists _, _.
Qed.

Lemma bind_assoc {E A B C} (m : M E A) (f : A → M E B) (g : B → M E C) w :
  bind m (λ a, bind (f a) g) w = bind (bind m f) g w.
Proof. unfold bind. by destruct (m w) as [w' [a|e]]. Qed.

Lemma per_key_loop_run sk id h0 todo : ∀ done s tr,
  NoDup (Key <$> done ++ todo) → stage id h0 done [] todo s → Phase s = OperationPhasePending →
  match per_key_loop t sk id todo (Some s, tr) with
  | (w', Ok _) => ∃ s' new, w' = (Some s', tr ++ new) ∧ stage id h0 (done ++ todo) [] [] s' ∧
      Phase s' = OperationPhasePending ∧ calls new = ack <$> todo
  | (w', Err key_failed) => ∃ s' new d sec l, w' = (Some s', tr ++ new) ∧ last new = Some (Saved s') ∧
      todo = d ++ sec :: l ∧ stage id h0 (done ++ d) [sec] l s' ∧
      Phase s' = OperationPhaseNeedsReconciliation ∧ calls new = (ack <$> d) ++ [(sec, false)]
  | (_, Err (syncJournalError _)) => True
  end.
Proof.
  induction todo as [|sec todo IH]; intros done s tr Hnd Hst Hph; cbn [per_key_loop].
  { exists s, []. by rewrite !app_nil_r. }
  unfold bind at 1. cbn [call_key fst snd]. unfold bind at 1. cbn [get_trace fst snd].
  set (tr1 := tr ++ [KeyCalled sec (sk tr sec)]). destruct (sk tr sec) eqn:Hok.
  - rewrite bind_assoc. unfold bind at 1.
    destruct (acked_key_run id h0 done sec todo s tr1 (io_now t tr1) Hnd Hst Hph)
      as [(s2 & -> & Hst2 & Hph2)|(w & what & ->)]; [|done].
    specialize (IH (done ++ [sec]) s2 (tr1 ++ [Saved s2])). rewrite <-app_assoc in IH.
    specialize (IH Hnd Hst2 Hph2).
    destruct (per_key_loop _ _ _ _ _) as [w' [u|[what|]]]; [|done|].
    + destruct IH as (s' & new & -> & H1 & H2 & H3).
      exists s', (KeyCalled sec true :: Saved s2 :: new). unfold tr1. rewrite <-!app_assoc. cbn [app].
      repeat (split; [done|]). cbn. by rewrite <-H3.
    + destruct IH as (s' & new & d & x & l & -> & Hd & -> & H1 & H2 & H3).
      exists s', (KeyCalled sec true :: Saved s2 :: new), (sec :: d), x, l. unfold tr1.
      rewrite <-!app_assoc in *. cbn [app] in *. split; [done|].
      split; [by do 2 apply last_cons_Some|]. repeat (split; [done|]). cbn. by rewrite <-H3.
  - destruct (failed_key_run id h0 done sec todo s tr1 (io_now t tr1) Hnd Hst)
      as [(s2 & -> & Hst2 & Hph2)|(w & what & ->)]; [|done].
    exists s2, [KeyCalled sec false; Saved s2], [], sec, todo. unfold tr1.
    rewrite <-!app_assoc, app_nil_r. by repeat (split; [done|]).
Qed.

(** Finishing an operation without metadata whose keys were all acknowledged. *)
Lemma finalize_acked id h0 all now s s' :
  stage id h0 all [] [] s → all ≠ [] → Phase s = OperationPhasePending →
  FinalizeOperation id now s = (s', None) →
  s' = with_last_success now (with_phase OperationPhaseSucceeded (Some now) s).
Proof.
  intros Hst Hne Hph. unfold FinalizeOperation. destruct (checkOperation s id) eqn:Hc; [done|].
  apply checkOperation_None in Hc as [_ ->].
  assert (Hall : ∀ k o, Outcomes s !! k = Some o → oc_OperationID o = OperationID s →
    Metadata o = None ∧ Status o = OutcomeSucceeded).
  { intros k o Ho Hid. pose proof (sg_owned _ _ _ _ _ _ Hst k o Ho Hid) as Hin.
    rewrite app_nil_r in Hin. apply list_elem_of_fmap in Hin as (sec & -> & Hin).
    destruct (sg_done _ _ _ _ _ _ Hst sec Hin) as (_ & o' & Ho' & _ & ? & ?). by simplify_eq. }
  rewrite finalize_loop_quiet.
  2:{ intros k o Hin%elem_of_range_map Hid. destruct (Hall k o Hin Hid) as [Hm Hs].
      split; [by unfold finalize_check; rewrite Hm|]. intros _.
      unfold outcomeCapabilityAllowsSuccess. by rewrite Hm. }
  replace (with_outcomes (t_outcomes _) s) with s by by destruct s.
  assert (Hno : ∀ f, (∀ o, Metadata o = None → Status o = OutcomeSucceeded → f o = false) →
    some_current s f = false).
  { intros f Hf. apply some_current_false. intros k o Ho Hid. destruct (Hall k o Ho Hid). auto. }
  unfold finalize_decide. cbn [t_owned t_metadataOwned t_hasPending t_hasNeedsReconciliation
    t_verificationPending t_verificationFailed tally0 Nat.add orb].
  rewrite !existsb_current.
  assert (Hmd : count (λ o, owned_by (OperationID s) o && o_metadata o) (range_map 0 (Outcomes s)) = 0).
  { apply count_current, Hno. intros o Hm _. unfold o_metadata. by rewrite Hm. }
  rewrite Hmd. cbn [Nat.eqb negb andb].
  rewrite !Hno by (intros o Hm Hs; unfold o_pending, o_needs, o_failed, o_unverified; rewrite ?Hm, ?Hs; done).
  cbn [orb andb negb]. destruct (_ =? 0); [done|]. rewrite decide_False by (rewrite Hph; done).
  rewrite promote_loop_eq. intros [= <-].
  assert (promoted s = s) as ->; [|done]. unfold promoted, promoted_hashes.
  assert (Hp : ∀ k o, Outcomes s !! k = Some o → promotable (OperationID s) o = false).
  { intros k o Ho. unfold promotable, owned_by, o_metadata. destruct (decide (oc_OperationID o = OperationID s)) as [E|E].
    - destruct (Hall k o Ho E) as [Hm _]. rewrite Hm. by rewrite andb_false_r.
    - by rewrite (bool_decide_eq_false_2 _ E). }
  assert (promote_one (OperationID s) <$> Outcomes s = Outcomes s) as ->.
  { apply map_eq. intros k. rewrite lookup_fmap. destruct (Outcomes s !! k) as [o|] eqn:Ho; [|done].
    cbn. unfold promote_one. by rewrite (Hp k o Ho). }
  assert (omap (λ o, if promotable (OperationID s) o then Some (AcknowledgedHash o) else None) (Outcomes s) = ∅) as ->.
  { apply map_eq. intros k. rewrite lookup_omap, lookup_empty. destruct (Outcomes s !! k) as [o|] eqn:Ho; [|done].
    cbn. by rewrite (Hp k o Ho). }
  rewrite (left_id_L ∅ (∪)). by destruct s.
Qed.
End outcome.

Lemma begun_stage `{MR : MapRange, HK : HashKey} id secrets now s0 s method source digest :
  OperationID s0 ≠ id → (∀ k o, Outcomes s0 !! k = Some o → oc_OperationID o ≠ id) →
  BeginOperation id (Some <$> secrets) now s0 = (s, None) →
  stage id (Hashes s0) [] [] secrets (set_source method source digest s) ∧
  Phase (set_source method source digest s) = OperationPhasePending ∧ id ≠ "".
Proof.
  intros Hid Hfresh (H1 & H2 & H3 & H4 & H5 & H6)%beginOperation_None.
  split; [|done]. split; cbn; try set_solver; try congruence.
  - intros sec Hin. exists now. cbn. by apply H5.
  - intros k o Hk Ho. destruct (decide (k ∈ Key <$> secrets)) as [|Hn]; [done|].
    rewrite (H6 k Hn) in Hk. destruct (operationPending s0); [|by eapply Hfresh in Ho].
    apply fmap_Some in Hk as (o0 & Hk0 & ->). specialize (Hfresh k o0 Hk0). revert Ho.
    unfold abandon. destruct (_ || _); [done|]. cbn. by case_bool_decide.
Qed.

Lemma acked_unchanged `{HK : HashKey} id s l :
  (∀ x, x ∈ l → acked id s x) → FilterUnchanged l s = [].
Proof.
  intros Hl. unfold FilterUnchanged. induction l as [|x l IHl]; [done|]. rewrite filter_cons.
  destruct (Hl x) as [Hx _]; [set_solver|]. rewrite Hx, decide_False by tauto. apply IHl. set_solver.
Qed.
Lemma acked_succeeded `{HK : HashKey} id s x :
  OperationID s = id → acked id s x → has_status s (Key x) OutcomeSucceeded.
Proof. intros <- (_ & o & Ho & Hid & _ & Hs). by exists o. Qed.

(** The state a per-key sync of a fresh operation ends in, by key. *)
Lemma per_key_stage `{UC : UnicodeCase, MR : MapRange, HK : HashKey, TE : TargetEnv}
    t sk id secrets now s0 s tr method source digest :
  NoDup (Key <$> secrets) → secrets ≠ [] → OperationID s0 ≠ id →
  (∀ k o, Outcomes s0 !! k = Some o → oc_OperationID o ≠ id) →
  BeginOperation id (Some <$> secrets) now s0 = (s, None) →
  match syncPerKeyOperation t sk id secrets (Some (set_source method source digest s), tr) with
  | (w, Ok _) => ∃ s' new, w = (Some s', tr ++ new) ∧ last new = Some (Saved s') ∧
      calls new = ack <$> secrets ∧ stage id (Hashes s0) secrets [] [] s' ∧
      Phase s' = OperationPhaseSucceeded ∧ is_Some (LastSuccess s')
  | (w, Err key_failed) => ∃ s' new d sec l, w = (Some s', tr ++ new) ∧ last new = Some (Saved s') ∧
      secrets = d ++ sec :: l ∧ calls new = (ack <$> d) ++ [(sec, false)] ∧
      stage id (Hashes s0) d [sec] l s' ∧ RequiresReconciliation s' = true
  | (_, Err (syncJournalError _)) => True
  end.
Proof.
  intros Hnd Hne Hid Hfresh Hb.
  destruct (begun_stage id secrets now s0 s method source digest Hid Hfresh Hb) as (Hst & Hph & Hid').
  unfold syncPerKeyOperation, bind at 1.
  pose proof (per_key_loop_run t sk id (Hashes s0) secrets [] _ tr Hnd Hst Hph) as Hrun.
  destruct (per_key_loop t sk id secrets _) as [w [u|[what|]]]; [|done|].
  - destruct Hrun as (s1 & new & -> & Hst1 & Hph1 & Hcalls). cbn [app] in Hst1.
    unfold bind, get_trace, on_state. cbn [fst snd].
    destruct (FinalizeOperation id _ s1) as [s2 [e|]] eqn:Hf; [done|].
    pose proof (finalize_acked _ _ _ _ _ _ Hst1 Hne Hph1 Hf) as Hs2.
    destruct (save_run t (syncJournalError "save finalized operation") s2 (tr ++ new))
      as [(s3 & -> & E1 & E2 & E3 & E4 & E5)|Hfail].
    + exists s3, (new ++ [Saved s3]). rewrite <-app_assoc. split; [done|].
      split; [by rewrite last_snoc|]. rewrite calls_app, app_nil_r. split; [done|]. subst s2.
      split; [by apply (stage_ext _ _ _ _ _ s1)|]. split; [by rewrite E4|by rewrite E5].
    + destruct (save t _ _) as [w r]. cbn in Hfail. by subst r.
  - destruct Hrun as (s' & new & d & sec & l & -> & Hl & -> & Hst1 & Hph1 & Hcalls). cbn [app] in Hst1.
    exists s', new, d, sec, l. repeat (split; [done|]).
    unfold RequiresReconciliation. rewrite (sg_id _ _ _ _ _ _ Hst1), Hph1.
    by rewrite bool_decide_eq_false_2 by done.
Qed.

(** C8: what a per-key sync of a fresh operation leaves behind.  On success every
key was sent once, in order, and is acknowledged; the state on disk is finished, the
next sync skips the batch, and no other key's cache entry changed.  When a key
fails, exactly the keys before it were sent and acknowledged, nothing after it was
sent, and the state on disk says so: it asks for reconciliation, the keys before it
are recorded as done, the failing one as unsettled, the later ones as pending. *)
Theorem per_key_outcome `{UC : UnicodeCase, MR : MapRange, HK : HashKey, TE : TargetEnv}
    t sk id secrets now s0 s tr method source digest :
  NoDup (Key <$> secrets) → secrets ≠ [] → OperationID s0 ≠ id →
  (∀ k o, Outcomes s0 !! k = Some o → oc_OperationID o ≠ id) →
  BeginOperation id (Some <$> secrets) now s0 = (s, None) →
  match syncPerKeyOperation t sk id secrets (Some (set_source method source digest s), tr) with
  | (w, Ok _) => ∃ s' new, w = (Some s', tr ++ new) ∧ last new = Some (Saved s') ∧
      calls new = ack <$> secrets ∧ Phase s' = OperationPhaseSucceeded ∧ is_Some (LastSuccess s') ∧
      (∀ x, x ∈ secrets → has_status s' (Key x) OutcomeSucceeded) ∧
      FilterUnchanged secrets s' = [] ∧ (∀ k, k ∉ Key <$> secrets → Hashes s' !! k = Hashes s0 !! k)
  | (w, Err key_failed) => ∃ s' new d sec l, w = (Some s', tr ++ new) ∧ last new = Some (Saved s') ∧
      secrets = d ++ sec :: l ∧ calls new = (ack <$> d) ++ [(sec, false)] ∧
      RequiresReconciliation s' = true ∧
      (∀ x, x ∈ d → has_status s' (Key x) OutcomeSucceeded) ∧
      has_status s' (Key sec) OutcomeNeedsReconciliation ∧ (∀ x, x ∈ l → waiting id s' x) ∧
      (∀ k, k ∉ Key <$> d → Hashes s' !! k = Hashes s0 !! k)
  | (_, Err (syncJournalError _)) => True
  end.
Proof.
  intros Hnd Hne Hid Hfresh Hb.
  pose proof (per_key_stage t sk id secrets now s0 s tr method source digest Hnd Hne Hid Hfresh Hb) as H.
  destruct (syncPerKeyOperation _ _ _ _ _) as [w [u|[what|]]]; [|done|].
  - destruct H as (s' & new & -> & Hl & Hc & [H1 H2 H3 H4 H5 H6] & Hp & Hls).
    exists s', new. repeat (split; [done|]).
    split; [intros x Hx; by apply (acked_succeeded id), H2|]. split; [by apply (acked_unchanged id)|done].
  - destruct H as (s' & new & d & sec & l & -> & Hl & -> & Hc & [H1 H2 H3 H4 H5 H6] & Hr).
    exists s', new, d, sec, l. repeat (split; [done|]).
    split; [intros x Hx; by apply (acked_succeeded id), H2|]. split; [apply H3; set_solver|]. done.
Qed.

(** The drift cache after a failing key: the keys sent before it are already in it,
on disk, so the next sync skips them; the sync guide says the cache updates only
after a fully successful sync to the target. *)
Theorem failed_sync_caches_acked `{UC : UnicodeCase, MR : MapRange, HK : HashKey, TE : TargetEnv}
    t sk id secrets now s0 s tr method source digest w :
  NoDup (Key <$> secrets) → secrets ≠ [] → OperationID s0 ≠ id →
  (∀ k o, Outcomes s0 !! k = Some o → oc_OperationID o ≠ id) →
  BeginOperation id (Some <$> secrets) now s0 = (s, None) →
  syncPerKeyOperation t sk id secrets (Some (set_source method source digest s), tr) = (w, Err key_failed) →
  ∃ s' new d sec l, w = (Some s', tr ++ new) ∧ last new = Some (Saved s') ∧ secrets = d ++ sec :: l ∧
    FilterUnchanged d s' = [].
Proof.
  intros Hnd Hne Hid Hfresh Hb Hr.
  pose proof (per_key_stage t sk id secrets now s0 s tr method source digest Hnd Hne Hid Hfresh Hb) as H.
  rewrite Hr in H. destruct H as (s' & new & d & sec & l & -> & Hl & -> & _ & Hst & _).
  exists s', new, d, sec, l. repeat (split; [done|]). apply (acked_unchanged id), Hst.
Qed.
Lemma per_key_outcome_witness :
  let s0 := NewSyncState "github" "id" in
  let secrets := [mk_secret "A" "1"; mk_secret "B" "2"] in
  let s := (BeginOperation (MR := sorted_range) "op-1" (Some <$> secrets) 5 s0).1 in
  (∃ s' new, (syncPerKeyOperation (MR := sorted_range) (HK := toy_key) (toy_github (λ _, true)) (λ _ _, true)
     "op-1" secrets (Some (set_source "PUT" "" "" s), [])).1 = (Some s', [] ++ new) ∧
   last new = Some (Saved s')).
Proof.
  intros s0 secrets s.
  pose proof (per_key_outcome (MR := sorted_range) (HK := toy_key) (toy_github (λ _, true)) (λ _ _, true)
    "op-1" secrets 5 s0 s [] "PUT" "" "") as H.
  specialize (H ltac:(by_decide)). specialize (H ltac:(discriminate)). specialize (H ltac:(discriminate)).
  specialize (H ltac:(intros k o Hk; discriminate Hk)). specialize (H eq_refl).
  destruct (syncPerKeyOperation _ _ _ _ _) as [w [u|e]] eqn:E.
  - destruct H as (s' & new & -> & Hl & _). by exists s', new.
  - vm_compute in E. discriminate E.
Defined.
