(* ===== verification/Json.v ===== *)
(** Typed JSON encodings as [encoding/json] writes them, with the law that makes an
encoding usable in a signed document: what follows an encoded value can be cut
off, and the value is determined by what was cut.

[Json] is the class of such types; strings, unsigned integers, booleans, slices
and maps are instances, and records are built field by field. *)

From S2P Require Import Prelude GoStrings Digest GoEncoding GoTime.

(** * The class *)

(** What may follow a value inside a document. *)
Definition ends (s : string) : Prop :=
  match s with
  | "" => True
  | String c _ => c = ","%char ∨ c = "}"%char ∨ c = "]"%char
  end.

Class Json (A : Type) : Type := {
  encode : A → string;
  wf : A → Prop;
  encode_head x : wf x → ∃ c s, encode x = String c s ∧ c ≠ "]"%char ∧ c ≠ "}"%char;
  encode_cut x y s t : wf x → wf y → ends s → ends t → encode x +:+ s = encode y +:+ t → x = y ∧ s = t;
}.

Lemma encode_inj `{Json A} x y : wf x → wf y → encode x = encode y → x = y.
Proof.
  intros Hx Hy E. destruct (encode_cut x y "" "" Hx Hy I I) as [-> _]; [|done]. by rewrite E.
Qed.

(** * Strings, numbers, booleans *)

#[export] Program Instance json_of_string : Json string := {|
  encode := json_string; wf s := valid_utf8 s = true |}.
Next Obligation. intros s _. unfold json_string. by eexists _, _. Qed.
Next Obligation. intros x y s t Hx Hy _ _. by apply json_string_head. Qed.

(** What a decimal number is made of. *)
Definition number_byte (c : ascii) : bool := is_digit c || (c =c "-").

Lemma number_string_cut d1 d2 s t :
  str_forall number_byte d1 = true → str_forall number_byte d2 = true → ends s → ends t →
  d1 +:+ s = d2 +:+ t → d1 = d2 ∧ s = t.
Proof.
  assert (Hend : ∀ c u, number_byte c = true → ends (String c u) → False).
  { intros c u Hc [->|[->| ->]]; discriminate Hc. }
  intros H1 H2 Hs Ht. revert d2 H2. induction d1 as [|c d1 IH]; intros [|d d2] H2; try done.
  - intros E. exfalso. change ("" +:+ s) with s in E. rewrite str_cons_app in E. subst s.
    cbn in H2. apply andb_true_iff in H2 as [H2 _]. by eapply Hend.
  - intros E. exfalso. change ("" +:+ t) with t in E. rewrite str_cons_app in E. subst t.
    cbn in H1. apply andb_true_iff in H1 as [H1 _]. by eapply Hend.
  - cbn in H1, H2. apply andb_true_iff in H1 as [_ H1], H2 as [_ H2].
    rewrite !str_cons_app. intros E. injection E as -> E.
    by destruct (IH H1 d2 H2 E) as [-> ->].
Qed.

(** Decimal digits, most significant first. *)
Lemma decimal_digit n : is_digit (byte_of (48 + n mod 10)) = true.
Proof.
  unfold is_digit, in_range. rewrite digit_code. pose proof (Z.mod_pos_bound n 10).
  apply andb_true_iff. split; apply Z.leb_le; lia.
Qed.
Lemma decimal_go_digits fuel n acc :
  str_forall is_digit acc = true → str_forall is_digit (decimal_go fuel n acc) = true.
Proof.
  revert n acc. induction fuel as [|fuel IH]; intros n acc Hacc; cbn [decimal_go]; [done|].
  assert (H : str_forall is_digit (String (byte_of (48 + n mod 10)) acc) = true)
    by (cbn [str_forall]; by rewrite decimal_digit).
  destruct (n <? 10)%Z; [done|by apply IH].
Qed.

(** The value of a digit string. *)
Fixpoint digits_value (acc : Z) (s : string) : Z :=
  match s with "" => acc | String c s => digits_value (10 * acc + (code c - 48)) s end.
Lemma digits_value_go fuel n acc :
  (0 ≤ n < 10 ^ Z.of_nat fuel)%Z → digits_value 0 (decimal_go fuel n acc) = digits_value n acc.
Proof.
  revert n acc. induction fuel as [|fuel IH]; intros n acc Hn; cbn [decimal_go].
  { cbn in Hn. by replace n with 0%Z by lia. }
  rewrite Nat2Z.inj_succ, Z.pow_succ_r in Hn by lia.
  pose proof (Z.div_mod n 10 ltac:(lia)) as Hdm. pose proof (Z.mod_pos_bound n 10 ltac:(lia)).
  destruct (Z.ltb_spec n 10).
  - cbn [digits_value]. rewrite digit_code, Z.mod_small by lia. f_equal. lia.
  - rewrite IH; [cbn [digits_value]; rewrite digit_code; f_equal; lia|].
    split; [apply Z.div_pos; lia|apply Z.div_lt_upper_bound; lia].
Qed.
Lemma itoa_digits n : (0 ≤ n)%Z → str_forall is_digit (itoa n) = true.
Proof.
  intros Hn. unfold itoa. destruct (Z.ltb_spec n 0); [lia|]. by apply decimal_go_digits.
Qed.
Lemma itoa_bytes n : str_forall number_byte (itoa n) = true.
Proof.
  assert (Hd : ∀ m, str_forall number_byte (decimal_go 20 m "") = true).
  { intros m. eapply str_forall_impl; [|by apply decimal_go_digits].
    intros c Hc. unfold number_byte. by rewrite Hc. }
  unfold itoa. destruct (n <? 0)%Z; [cbn [str_forall]; by rewrite Hd|by apply Hd].
Qed.
Lemma itoa_value n : (0 ≤ n < 10 ^ 20)%Z → digits_value 0 (itoa n) = n.
Proof.
  intros Hn. unfold itoa. destruct (Z.ltb_spec n 0); [lia|]. by rewrite digits_value_go.
Qed.

(** The integer a decimal numeral stands for. *)
Definition number_value (s : string) : Z :=
  match s with
  | String c t => if c =c "-" then (- digits_value 0 t)%Z else digits_value 0 s
  | "" => 0
  end.
Lemma decimal_go_head fuel n acc :
  (0 < fuel ∨ acc ≠ "") → str_forall is_digit acc = true →
  ∃ c s, decimal_go fuel n acc = String c s ∧ is_digit c = true.
Proof.
  intros Hne Hacc. assert (Hd := decimal_go_digits fuel n acc Hacc).
  assert (decimal_go fuel n acc ≠ "").
  { clear Hacc Hd. revert n acc Hne. induction fuel as [|fuel IH]; intros n acc [Hne|Hne];
      cbn [decimal_go]; [lia|done|..]; (destruct (n <? 10)%Z; [done|apply IH; by right]). }
  destruct (decimal_go fuel n acc) as [|c s]; [done|]. exists c, s. split; [done|].
  cbn in Hd. by apply andb_true_iff in Hd as [? _].
Qed.
Lemma itoa_number n : (- 10 ^ 20 < n < 10 ^ 20)%Z → number_value (itoa n) = n.
Proof.
  intros Hn. destruct (Z.ltb_spec n 0).
  - unfold itoa. destruct (Z.ltb_spec n 0); [|lia]. cbn [number_value Ascii.eqb Bool.eqb].
    rewrite digits_value_go by lia. cbn. lia.
  - pose proof (itoa_value n ltac:(lia)) as Hv. unfold itoa in Hv |- *.
    destruct (Z.ltb_spec n 0); [lia|].
    destruct (decimal_go_head 20 n "") as (c & s & E & Hc); [left; lia|done|].
    rewrite E in *. unfold number_value. destruct (Ascii.eqb_spec c "-") as [->|]; [done|]. done.
Qed.
Lemma itoa_head n : ∃ c s, itoa n = String c s ∧ number_byte c = true.
Proof.
  unfold itoa, number_byte. destruct (n <? 0)%Z; [by eexists _, _|].
  destruct (decimal_go_head 20 n "") as (c & s & E & Hc); [left; lia|done|].
  exists c, s. split; [done|]. by rewrite Hc.
Qed.

(** Signed and unsigned 64-bit integers. *)
#[export] Program Instance json_of_int : Json Z := {|
  encode := itoa; wf n := (- 2 ^ 63 ≤ n < 2 ^ 64)%Z |}.
Next Obligation.
  intros n _. destruct (itoa_head n) as (c & s & E & Hc). exists c, s.
  split; [done|]. by split; intros ->.
Qed.
Next Obligation.
  cbn. intros x y s t Hx Hy Hs Ht E.
  apply number_string_cut in E as [E Hst]; [|by apply itoa_bytes..|done|done].
  split; [|done]. rewrite <-(itoa_number x), <-(itoa_number y) by lia. by rewrite E.
Qed.

Definition json_bool (b : bool) : string := if b then "true" else "false".
#[export] Program Instance json_of_bool : Json bool := {| encode := json_bool; wf _ := True |}.
Next Obligation. intros [] _; by eexists _, _. Qed.
Next Obligation.
  intros [] [] s t _ _ _ _ E; unfold json_bool in E; rewrite ?str_cons_app, ?str_nil_app in E;
    by simplify_eq.
Qed.

(** * Sequences in brackets *)

(** A Go slice: a nil one is encoded as [null], an empty one as []. *)
Abbreviation slice A := (option (list A)).
Definition elems {A} (l : slice A) : list A := default [] l.

(** What closes a bracket. *)
Class Closing (close : ascii) : Prop := closing : close = "]"%char ∨ close = "}"%char.
#[export] Instance closing_bracket : Closing "]". Proof. by left. Qed.
#[export] Instance closing_brace : Closing "}". Proof. by right. Qed.

Section sequences.
Context `{Json A} (close : ascii) `{!Closing close}.

Lemma closing_ends s : ends (String close s).
Proof. destruct closing as [->| ->]; cbn; auto. Qed.
Lemma head_not_closing (x : A) s t : wf x → encode x +:+ s ≠ String close t.
Proof.
  intros Hx E. destruct (encode_head x Hx) as (c & w & Hc & H1 & H2).
  rewrite Hc, str_cons_app in E. injection E as -> _. by destruct closing.
Qed.

Lemma join_cut (l1 l2 : list A) s t :
  Forall wf l1 → Forall wf l2 →
  join "," (encode <$> l1) +:+ String close s = join "," (encode <$> l2) +:+ String close t →
  l1 = l2 ∧ s = t.
Proof.
  assert (Hnil : ∀ (l : list A) u, l ≠ [] → Forall wf l → ∀ v,
    join "," (encode <$> l) +:+ u ≠ String close v).
  { intros [|x l] u Hne Hwf v E; [done|]. apply Forall_cons in Hwf as [Hx _].
    destruct l; cbn [fmap list_fmap join] in E;
      rewrite ?str_app_assoc in E; by apply head_not_closing in E. }
  revert l2. induction l1 as [|x l1 IH]; intros l2 H1 H2 E.
  - destruct l2 as [|y l2]; [by injection E|].
    by destruct (Hnil (y :: l2) (String close t) ltac:(done) H2 s).
  - destruct l2 as [|y l2]; [by destruct (Hnil (x :: l1) (String close s) ltac:(done) H1 t)|].
    apply Forall_cons in H1 as [Hx H1], H2 as [Hy H2].
    destruct l1 as [|x1 l1], l2 as [|y1 l2];
      cbn [fmap list_fmap join] in E; rewrite ?str_app_assoc in E;
      (apply encode_cut in E as [-> E]; [|done..|try apply closing_ends; by left|try apply closing_ends; by left]).
    + by injection E as ->.
    + destruct closing as [->| ->]; discriminate E.
    + destruct closing as [->| ->]; discriminate E.
    + rewrite !str_cons_app, !str_nil_app in E. injection E as E.
      by destruct (IH (y1 :: l2) H1 H2 E) as [-> ->].
Qed.
End sequences.

Section slices.
Context `{Json A}.

Definition json_slice (l : slice A) : string :=
  match l with None => "null" | Some l => "[" +:+ join "," (encode <$> l) +:+ "]" end.

#[global] Program Instance json_of_slice : Json (slice A) := {|
  encode := json_slice; wf l := Forall wf (elems l) |}.
Next Obligation. by intros [l|] _; eexists _, _. Qed.
Next Obligation.
  intros [l1|] [l2|] s t H1 H2 _ _ E; unfold json_slice in E;
    rewrite ?str_app_assoc, ?str_cons_app, ?str_nil_app in E; try discriminate E.
  - injection E as E. apply join_cut in E as [-> ->]; [done|apply _|done..].
  - by injection E as ->.
Qed.
End slices.

(** * Maps *)

(** The entries of a map, in the order in which they are written. *)
Definition entries {A} (m : gmap string A) : list (string * A) :=
  omap (λ k, (k,.) <$> m !! k) (sorted_keys m).

Lemma elem_of_entries {A} (m : gmap string A) k v : (k, v) ∈ entries m ↔ m !! k = Some v.
Proof.
  unfold entries. rewrite list_elem_of_omap. split.
  - intros (k' & _ & E). apply fmap_Some in E as (v' & E & ?). by simplify_eq.
  - intros E. exists k. split; [apply elem_of_sorted_keys; by eexists|]. by rewrite E.
Qed.
Lemma entries_inj {A} (m1 m2 : gmap string A) : entries m1 = entries m2 → m1 = m2.
Proof.
  intros E. apply map_eq. intros k. apply option_eq. intros v. by rewrite <-!elem_of_entries, E.
Qed.

(** One member of an object. *)
#[export] Program Instance json_of_member `{Json A} : Json (string * A) := {|
  encode m := json_string m.1 +:+ ":" +:+ encode m.2;
  wf m := valid_utf8 m.1 = true ∧ wf m.2 |}.
Next Obligation. intros A ? [k v] _. unfold json_string. by eexists _, _. Qed.
Next Obligation.
  intros A ? [k1 v1] [k2 v2] s t [Hk1 Hv1] [Hk2 Hv2] Hs Ht E.
  cbn [fst snd] in E. rewrite !str_app_assoc in E.
  apply json_string_head in E as [-> E]; [|done..]. rewrite !str_cons_app, !str_nil_app in E.
  injection E as E. by apply encode_cut in E as [-> ->].
Qed.

Section maps.
Context `{Json A}.

(** A nil map is [null]; otherwise the members are sorted by key. *)
Definition json_map (m : option (gmap string A)) : string :=
  match m with None => "null" | Some m => "{" +:+ join "," (encode <$> entries m) +:+ "}" end.

#[global] Program Instance json_of_map : Json (option (gmap string A)) := {|
  encode := json_map;
  wf m := Forall wf (entries (default ∅ m)) |}.
Next Obligation. by intros [l|] _; eexists _, _. Qed.
Next Obligation.
  intros [l1|] [l2|] s t H1 H2 _ _ E; unfold json_map in E;
    rewrite ?str_app_assoc, ?str_cons_app, ?str_nil_app in E; try discriminate E.
  - injection E as E. destruct (join_cut (A := string * A) "}" (entries l1) (entries l2) s t H1 H2 E) as [E' ->].
    by apply entries_inj in E' as ->.
  - by injection E as ->.
Qed.
End maps.

(** * Records *)

(** A member of a record, and what follows it. *)
Definition field `{Json A} (name : string) (v : A) (rest : string) : string :=
  json_string name +:+ ":" +:+ encode v +:+ rest.

Lemma field_app `{Json A} name (v : A) r s : field name v r +:+ s = field name v (r +:+ s).
Proof. unfold field. by rewrite !str_app_assoc. Qed.
Lemma field_cut `{Json A} name (x y : A) r1 r2 :
  wf x → wf y → ends r1 → ends r2 → field name x r1 = field name y r2 → x = y ∧ r1 = r2.
Proof.
  intros Hx Hy H1 H2 E. unfold field in E.
  apply (inj (String.app _)), (inj (String.app _)) in E. by apply encode_cut in E.
Qed.

(** Takes a record's encoding apart, member by member. *)
Ltac json_peel E :=
  rewrite ?str_app_assoc, ?field_app, ?str_cons_app, ?str_nil_app in E;
  repeat (
    first [ apply (f_equal (str_drop 1)) in E; cbn [str_drop] in E | idtac ];
    let H := fresh "Hf" in
    apply field_cut in E as [H E]; [| done || (cbn [ends]; auto) ..];
    rewrite ?str_app_assoc, ?field_app, ?str_cons_app, ?str_nil_app in E).

(** * Indented output *)

(** [json.MarshalIndent] with an indent of two spaces: arrays and objects of members that are
already written, at a depth. *)
Definition new_line (depth : nat) : string := str1 LF +:+ Nat.iter depth (String.append "  ") "".
Definition json_items (depth : nat) (op cl : string) (items : list string) : string :=
  match items with
  | [] => op +:+ cl
  | _ => op +:+ new_line (S depth) +:+ join ("," +:+ new_line (S depth)) items +:+ new_line depth +:+ cl
  end.
Definition json_strings (depth : nat) (s : slice string) : string :=
  match s with None => "null" | Some l => json_items depth "[" "]" (json_string <$> l) end.
(** One member of an object. *)
Definition json_member (name value : string) : string := json_string name +:+ ": " +:+ value.

(** * Words *)

(** Visible ASCII without spaces. *)
Definition word (w : string) : Prop := w ≠ "" ∧ str_forall word_byte w = true.
Lemma word_no c w : word_byte c = false → str_forall word_byte w = true → has_byte c w = false.
Proof.
  intros Hc Hw. unfold has_byte, str_exists. apply negb_false_iff. eapply str_forall_impl; [|exact Hw].
  intros d Hd. apply negb_true_iff, ascii_eqb_false. congruence.
Qed.
Lemma join_words_no c ws :
  word_byte c = false → (c =c " ") = false → Forall word ws → has_byte c (join " " ws) = false.
Proof.
  intros Hc Hs. induction 1 as [|w ws [_ Hw] Hws IH]; [done|]. apply (word_no c) in Hw; [|done].
  destruct ws as [|w2 ws]; [done|]. change (join " " (w :: w2 :: ws)) with (w +:+ " " +:+ join " " (w2 :: ws)).
  rewrite !has_byte_app, Hw, IH. unfold has_byte, str_exists. cbn. by rewrite Hs.
Qed.
Lemma itoa_word n : (0 ≤ n)%Z → word (itoa n).
Proof.
  intros Hn. split.
  - unfold itoa. destruct (Z.ltb_spec n 0); [lia|].
    destruct (decimal_go_head 20 n "") as (c & s & -> & _); [left; lia|done|done].
  - eapply str_forall_impl; [|by apply itoa_digits]. intros c. unfold is_digit, word_byte, in_range.
    intros H. split_bools. apply andb_true_iff. split; apply Z.leb_le; lia.
Qed.
