(* ===== verification/LaunchError.v ===== *)
(** The failures of the secret launcher (src/internal/secretlaunch/errors.go): stable
codes with an optional key name, and nothing of the underlying error. *)

From S2P Require Import Prelude GoStrings.

Inductive ErrorCode :=
| ErrInvalidInput | ErrCanonical | ErrUnknownField | ErrDuplicateField | ErrSignature
| ErrTrust | ErrExpired | ErrNotYetValid | ErrTTL | ErrBinding | ErrKey | ErrFetch
| ErrCrypto | ErrReplay | ErrFrame | ErrLifecycle | ErrDaemon | ErrRuntime
| ErrNotInvoked | ErrChild | ErrNoProvider.

Definition code_text (c : ErrorCode) : string :=
  match c with
  | ErrInvalidInput => "invalid_input" | ErrCanonical => "noncanonical_manifest"
  | ErrUnknownField => "unknown_manifest_field" | ErrDuplicateField => "duplicate_manifest_field"
  | ErrSignature => "signature_rejected" | ErrTrust => "trust_rejected"
  | ErrExpired => "manifest_expired" | ErrNotYetValid => "manifest_not_yet_valid"
  | ErrTTL => "manifest_ttl_rejected" | ErrBinding => "binding_mismatch"
  | ErrKey => "key_rejected" | ErrFetch => "secret_fetch_failed"
  | ErrCrypto => "envelope_rejected" | ErrReplay => "envelope_replay"
  | ErrFrame => "frame_rejected" | ErrLifecycle => "lifecycle_failed"
  | ErrDaemon => "daemon_unavailable" | ErrRuntime => "runtime_rejected"
  | ErrNotInvoked => "runtime_not_explicitly_invoked" | ErrChild => "child_failed"
  | ErrNoProvider => "provider_required"
  end.

#[export] Instance ErrorCode_eq_dec : EqDecision ErrorCode.
Proof. solve_decision. Defined.

Record LaunchError := mkErr { Code : ErrorCode; Key : string }.

#[export] Instance LaunchError_eq_dec : EqDecision LaunchError.
Proof. solve_decision. Defined.

Definition MaxKeyLength : nat := 256.

(** [LaunchError.Error], on a possibly nil receiver. *)
Definition Error (e : option LaunchError) : string :=
  match e with
  | None => "secret launch: unknown failure"
  | Some e =>
    if negb (bool_decide (Key e = ""))
    then "secret launch: " +:+ code_text (Code e) +:+ " (key " +:+ Key e +:+ ")"
    else "secret launch: " +:+ code_text (Code e)
  end.

(** What a key name may not contain to be shown. *)
Definition blank_rune (r : Z) : bool :=
  (r =? 0)%Z || (r =? 13)%Z || (r =? 10)%Z || (r =? 9)%Z || (r =? 32)%Z.
Definition evidenceKey (key : string) : string :=
  if bool_decide (key = "") || (MaxKeyLength <? String.length key) then "invalid"
  else if existsb blank_rune (runes key) then "invalid" else key.

Definition fail (c : ErrorCode) : LaunchError := {| Code := c; Key := "" |}.
Definition failKey (c : ErrorCode) (key : string) : LaunchError :=
  {| Code := c; Key := evidenceKey key |}.

(** [errorCode]; [None] is an error of another type. *)
Definition errorCode (e : option LaunchError) : ErrorCode :=
  match e with Some e => Code e | None => ErrLifecycle end.

(** A failure that names a key always names one, and never a long or a blank one. *)
Lemma failKey_named c k :
  Key (failKey c k) ≠ "" ∧ String.length (Key (failKey c k)) ≤ MaxKeyLength ∧
  existsb blank_rune (runes (Key (failKey c k))) = false.
Proof.
  assert (Hinvalid : String.length "invalid" ≤ MaxKeyLength) by by_decide.
  cbn [Key failKey]. unfold evidenceKey.
  destruct (bool_decide (k = "")) eqn:E; [done|].
  destruct (MaxKeyLength <? String.length k) eqn:E2; [done|]. cbn [orb].
  destruct (existsb blank_rune (runes k)) eqn:E3; [done|].
  apply bool_decide_eq_false in E. by apply Nat.ltb_ge in E2.
Qed.
