(* ===== verification/JsonScan.v ===== *)
(** The duplicate-key scanner that guards every signed document
(src/internal/secretlaunch/manifest.go, [validateJSONObject] and [jsonScanner]).

The scanner's position is the suffix of the data that is still to be read.  The
loops are fuelled with [scan_fuel] calls, four for each byte; [scan_total] shows that
this is enough.  [value_text] is the grammar the scanner implements. *)

From S2P Require Import Prelude GoStrings GoEncoding GoTime Json LaunchError.
#[local] Open Scope go_scope.

(** What the scanner uses of [encoding/json] and [strconv]: whether data is valid
JSON, the string a literal denotes, whether a number can be parsed. *)
Class JsonLib : Type := {
  json_valid : string → bool;
  unquote : string → option string;
  parse_float : string → bool;
  unquote_marshal s : valid_utf8 s = true → unquote (json_string s) = Some s;
  parse_float_itoa n : (- 2 ^ 63 ≤ n < 2 ^ 64)%Z → parse_float (itoa n) = true;
}.

Definition isJSONSpace (b : ascii) : bool :=
  (b =c SP) || (b =c TAB) || (b =c CR) || (b =c LF).

(** A scan: [None] is exhausted fuel. *)
Abbreviation scan A := (option (result LaunchError A)).
Definition scan_bind {A B} (f : A → scan B) (m : scan A) : scan B :=
  match m with None => None | Some (Err e) => Some (Err e) | Some (Ok a) => f a end.
Notation "'scan!' x ':=' m 'in' k" := (scan_bind (λ x, k) m)
  (at level 20, x pattern, m at level 100, k at level 200,
   format "'scan!'  x  ':='  m  'in'  '/' k") : go_scope.
Definition reject {A} (c : ErrorCode) : scan A := Some (Err (fail c)).

Section scanner.
Context `{JsonLib}.

Fixpoint space (s : string) : string :=
  match s with String b r => if isJSONSpace b then space r else s | "" => "" end.

(** The rest of a string literal, up to and with its closing quote; a backslash
skips the byte after it. *)
Fixpoint string_body (s : string) : option (string * string) :=
  match s with
  | "" => None
  | String b r =>
    if b =c BSL then
      match r with
      | "" => None
      | String e r => prepend (String b (str1 e)) (string_body r)
      end
    else if b =c DQ then Some (str1 b, r)
    else prepend (str1 b) (string_body r)
  end.
(** [string]: the literal's value and what follows it. *)
Definition scan_string (s : string) : result LaunchError (string * string) :=
  match string_body (str_drop 1 s) with
  | None => Err (fail ErrCanonical)
  | Some (consumed, r) =>
    match unquote (String DQ consumed) with
    | None => Err (fail ErrCanonical)
    | Some v => Ok (v, r)
    end
  end.

Definition literal (word s : string) : result LaunchError string :=
  if has_prefix s word then Ok (str_drop (String.length word) s) else Err (fail ErrCanonical).

Definition number_end (b : ascii) : bool :=
  (b =c ",") || (b =c "]") || (b =c "}") || isJSONSpace b.
Fixpoint number_cut (s : string) : string * string :=
  match s with
  | "" => ("", "")
  | String b r =>
    if number_end b then ("", s) else let '(t, u) := number_cut r in (String b t, u)
  end.
Definition number (s : string) : result LaunchError string :=
  let '(t, u) := number_cut s in
  if bool_decide (t = "") then Err (fail ErrCanonical)
  else if parse_float t then Ok u else Err (fail ErrCanonical).

(** [value] with the loops of [object] and [array]; the fuel counts calls. *)
Fixpoint value (n : nat) (s : string) : scan string :=
  match n with
  | O => None
  | S n =>
    match space s with
    | "" => reject ErrCanonical
    | String b r as s =>
      if b =c "{" then object n r
      else if b =c "[" then array n r
      else if b =c DQ then Some (let! v := scan_string s in Ok v.2)
      else if b =c "t" then Some (literal "true" s)
      else if b =c "f" then Some (literal "false" s)
      else if b =c "n" then Some (literal "null" s)
      else Some (number s)
    end
  end
with object (n : nat) (s : string) : scan string :=
  match n with
  | O => None
  | S n =>
    match space s with
    | String b r as s => if b =c "}" then Some (Ok r) else members n ∅ s
    | "" => members n ∅ ""
    end
  end
with members (n : nat) (seen : gset string) (s : string) : scan string :=
  match n with
  | O => None
  | S n =>
    match space s with
    | "" => reject ErrCanonical
    | String b _ as s =>
      if negb (b =c DQ) then reject ErrCanonical
      else
        scan! kr := Some (scan_string s) in
        if decide (kr.1 ∈ seen) then Some (Err (failKey ErrDuplicateField kr.1))
        else
          match space kr.2 with
          | "" => reject ErrCanonical
          | String b r =>
            if negb (b =c ":") then reject ErrCanonical
            else
              scan! r := value n r in
              match space r with
              | "" => reject ErrCanonical
              | String b r =>
                if b =c "}" then Some (Ok r)
                else if negb (b =c ",") then reject ErrCanonical
                else members n ({[kr.1]} ∪ seen) r
              end
          end
    end
  end
with array (n : nat) (s : string) : scan string :=
  match n with
  | O => None
  | S n =>
    match space s with
    | String b r as s => if b =c "]" then Some (Ok r) else elements n s
    | "" => elements n ""
    end
  end
with elements (n : nat) (s : string) : scan string :=
  match n with
  | O => None
  | S n =>
    scan! r := value n s in
    match space r with
    | "" => reject ErrCanonical
    | String b r =>
      if b =c "]" then Some (Ok r)
      else if negb (b =c ",") then reject ErrCanonical
      else elements n (space r)
    end
  end.

(** Enough for any data of this length. *)
Definition scan_fuel (data : string) : nat := 4 * String.length data + 4.

Definition validateJSONObject (data : string) : scan unit :=
  if bool_decide (data = "") || negb (json_valid data) then reject ErrCanonical
  else
    scan! r := value (scan_fuel data) data in
    if negb (bool_decide (space r = "")) then reject ErrCanonical
    else
      match space data with
      | String b _ => if b =c "{" then Some (Ok ()) else reject ErrInvalidInput
      | "" => reject ErrInvalidInput
      end.

(** * The grammar *)

Definition spaces (w : string) : Prop := str_forall isJSONSpace w = true.
(** A literal that closes exactly at its end, and its value. *)
Definition string_text (t v : string) : Prop :=
  ∃ c, t = String DQ c ∧ string_body c = Some (c, "") ∧ unquote t = Some v.
Definition number_start (b : ascii) : bool :=
  negb ((b =c "{") || (b =c "[") || (b =c DQ) || (b =c "t") || (b =c "f") || (b =c "n")).
Definition number_text (t : string) : Prop :=
  parse_float t = true ∧ str_forall (λ b, negb (number_end b)) t = true ∧
  match t with String b _ => number_start b = true | "" => False end.

Inductive value_text : string → Prop :=
| vt_word t : t ∈ ["true"; "false"; "null"] → value_text t
| vt_number t : number_text t → value_text t
| vt_string t v : string_text t v → value_text t
| vt_object_nil w : spaces w → value_text (String "{" (w +:+ "}"))
| vt_object vs t : members_text vs t → NoDup vs → value_text (String "{" t)
| vt_array_nil w : spaces w → value_text (String "[" (w +:+ "]"))
| vt_array t : elements_text t → value_text (String "[" t)
with members_text : list string → string → Prop :=
| mt_last w1 k v w2 w3 t w4 :
    spaces w1 → string_text k v → spaces w2 → spaces w3 → value_text t → spaces w4 →
    members_text [v] (w1 +:+ k +:+ w2 +:+ ":" +:+ w3 +:+ t +:+ w4 +:+ "}")
| mt_more w1 k v w2 w3 t w4 vs u :
    spaces w1 → string_text k v → spaces w2 → spaces w3 → value_text t → spaces w4 →
    members_text vs u →
    members_text (v :: vs) (w1 +:+ k +:+ w2 +:+ ":" +:+ w3 +:+ t +:+ w4 +:+ "," +:+ u)
with elements_text : string → Prop :=
| et_last w1 t w2 :
    spaces w1 → value_text t → spaces w2 → elements_text (w1 +:+ t +:+ w2 +:+ "]")
| et_more w1 t w2 u :
    spaces w1 → value_text t → spaces w2 → elements_text u →
    elements_text (w1 +:+ t +:+ w2 +:+ "," +:+ u).

(** * Lemmas on the lexical functions *)

Lemma spaces_app w1 w2 : spaces w1 → spaces w2 → spaces (w1 +:+ w2).
Proof. unfold spaces. intros H1 H2. by rewrite str_forall_app, H1, H2. Qed.
Lemma space_spec s :
  ∃ w, s = w +:+ space s ∧ spaces w ∧
    match space s with "" => True | String b _ => isJSONSpace b = false end.
Proof.
  induction s as [|b s (w & E & Hw & Hh)]; [by exists ""|]. cbn [space].
  destruct (isJSONSpace b) eqn:Eb; [|by exists ""].
  exists (String b w). unfold spaces. cbn [str_forall]. rewrite Eb. split; [|done].
  rewrite str_cons_app. by f_equal.
Qed.
Lemma space_app w s : spaces w → space (w +:+ s) = space s.
Proof.
  unfold spaces. induction w as [|b w IH]; [done|]. cbn [str_forall].
  intros [Hb Hw]%andb_true_iff. rewrite str_cons_app. cbn [space]. rewrite Hb. by apply IH.
Qed.
Lemma space_head b s : isJSONSpace b = false → space (String b s) = String b s.
Proof. intros E. cbn. by rewrite E. Qed.

Lemma prepend_inv p o c r :
  prepend p o = Some (c, r) → ∃ c', o = Some (c', r) ∧ c = p +:+ c'.
Proof. destruct o as [[c' r']|]; cbn; [|done]. intros E. injection E as <- <-. by eexists. Qed.

(** Induction over a string body by what it reads at a time. *)
Lemma string_body_spec n s c r :
  String.length s ≤ n → string_body s = Some (c, r) →
  s = c +:+ r ∧ ∀ r', string_body (c +:+ r') = Some (c, r').
Proof.
  revert s c r. induction n as [|n IH]; intros [|b s] c r Hn E; try done; [cbn in Hn; lia|].
  cbn [string_body] in E. cbn [String.length] in Hn. destruct (b =c BSL) eqn:E1.
  - destruct s as [|e s]; [done|]. apply prepend_inv in E as (c' & E & ->).
    cbn [String.length] in Hn. destruct (IH s c' r ltac:(lia) E) as [-> Hc]. split; [done|].
    intros r'. change ((String b (str1 e) +:+ c') +:+ r') with (String b (String e (c' +:+ r'))).
    cbn [string_body]. by rewrite E1, Hc.
  - destruct (b =c DQ) eqn:E2.
    + injection E as <- <-. split; [done|]. intros r'.
      change (str1 b +:+ r') with (String b r'). cbn [string_body]. by rewrite E1, E2.
    + apply prepend_inv in E as (c' & E & ->). destruct (IH s c' r ltac:(lia) E) as [-> Hc].
      split; [done|]. intros r'. change ((str1 b +:+ c') +:+ r') with (String b (c' +:+ r')).
      cbn [string_body]. by rewrite E1, E2, Hc.
Qed.

Lemma scan_string_sound s v r b :
  b = DQ → scan_string (String b s) = Ok (v, r) → ∃ t, String b s = t +:+ r ∧ string_text t v.
Proof.
  intros -> E. unfold scan_string in E. cbn [str_drop] in E.
  destruct (string_body s) as [[c r']|] eqn:Eb; [|done].
  destruct (unquote _) as [v'|] eqn:Eu; [|done]. injection E as -> ->.
  destruct (string_body_spec _ _ _ _ (le_n _) Eb) as [-> Hc].
  exists (String DQ c). split; [done|]. exists c. split; [done|]. split; [|done].
  specialize (Hc ""). by rewrite str_app_nil_r in Hc.
Qed.
Lemma scan_string_complete t v r : string_text t v → scan_string (t +:+ r) = Ok (v, r).
Proof.
  intros (c & -> & Hc & Hu). unfold scan_string. rewrite str_cons_app. cbn [str_drop].
  destruct (string_body_spec _ _ _ _ (le_n _) Hc) as [_ ->]. by rewrite Hu.
Qed.
Lemma string_text_head t v : string_text t v → ∃ u, t = String DQ u.
Proof. intros (c & -> & _). by eexists. Qed.

Lemma number_cut_spec s t u :
  number_cut s = (t, u) → s = t +:+ u ∧ str_forall (λ b, negb (number_end b)) t = true.
Proof.
  revert t u. induction s as [|b s IH]; intros t u E; cbn [number_cut] in E; [by injection E as <- <-|].
  destruct (number_end b) eqn:Eb; [by injection E as <- <-|].
  destruct (number_cut s) as [t' u']. injection E as <- <-.
  destruct (IH t' u' eq_refl) as [-> H']. split; [done|]. cbn [str_forall]. by rewrite Eb.
Qed.
(** What may follow a value for the scanner. *)
Definition delimited (r : string) : Prop :=
  match r with "" => True | String b _ => number_end b = true end.
Lemma number_cut_app t r :
  str_forall (λ b, negb (number_end b)) t = true → delimited r → number_cut (t +:+ r) = (t, r).
Proof.
  induction t as [|b t IH]; cbn [str_forall].
  - intros _ Hr. rewrite str_nil_app. destruct r as [|b r]; [done|]. cbn in Hr |- *. by rewrite Hr.
  - intros [Hb Ht]%andb_true_iff Hr. rewrite str_cons_app. cbn [number_cut].
    apply negb_true_iff in Hb. by rewrite Hb, IH.
Qed.

Lemma members_text_space w vs t : spaces w → members_text vs t → members_text vs (w +:+ t).
Proof.
  intros Hw []; rewrite <-str_app_assoc; constructor; try done; by apply spaces_app.
Qed.
Lemma elements_text_space w t : spaces w → elements_text t → elements_text (w +:+ t).
Proof.
  intros Hw []; rewrite <-str_app_assoc; constructor; try done; by apply spaces_app.
Qed.

(** * What the scanner accepts is in the grammar *)

Definition sound_value n := ∀ s r, value n s = Some (Ok r) →
  ∃ w t, s = w +:+ t +:+ r ∧ spaces w ∧ value_text t.
Definition sound_object n := ∀ s r, object n s = Some (Ok r) →
  ∃ t, s = t +:+ r ∧ value_text (String "{" t).
Definition sound_members n := ∀ seen s r, members n seen s = Some (Ok r) →
  ∃ vs t, s = t +:+ r ∧ members_text vs t ∧ NoDup vs ∧ ∀ v, v ∈ vs → v ∉ seen.
Definition sound_array n := ∀ s r, array n s = Some (Ok r) →
  ∃ t, s = t +:+ r ∧ value_text (String "[" t).
Definition sound_elements n := ∀ s r, elements n s = Some (Ok r) →
  ∃ t, s = t +:+ r ∧ elements_text t.

Lemma scan_bind_Ok {A B} (m : scan A) (f : A → scan B) b :
  scan_bind f m = Some (Ok b) ↔ ∃ a, m = Some (Ok a) ∧ f a = Some (Ok b).
Proof. destruct m as [[]|]; naive_solver. Qed.

Lemma literal_sound word s r :
  word ∈ ["true"; "false"; "null"] → literal word s = Ok r → ∃ t, s = t +:+ r ∧ value_text t.
Proof.
  unfold literal. intros Hw E. destruct (has_prefix s word) eqn:Ep; [|done].
  apply has_prefix_spec in Ep as [u ->]. rewrite str_drop_app in E. injection E as ->.
  exists word. split; [done|by constructor].
Qed.
Lemma number_sound b s r :
  number_start b = true → number (String b s) = Ok r →
  ∃ t, String b s = t +:+ r ∧ value_text t.
Proof.
  unfold number. intros Hb E. destruct (number_cut _) as [t u] eqn:Ec.
  apply number_cut_spec in Ec as [Es Ht]. case_bool_decide; [done|].
  destruct (parse_float t) eqn:Ef; [|done]. injection E as ->. exists t. split; [done|].
  apply vt_number. split; [done|]. split; [done|]. destruct t as [|b' t]; [done|].
  rewrite str_cons_app in Es. by injection Es as <- _.
Qed.

(** Split off the leading space of [s]. *)
Ltac split_space s :=
  let w := fresh "w" in let E := fresh "Es" in let H := fresh "Hw" in
  destruct (space_spec s) as (w & E & H & _); destruct (space s) eqn:?; [try done|].

Lemma value_step n : sound_object n → sound_array n → sound_value (S n).
Proof.
  intros Ho Ha s r E. cbn [value] in E. split_space s. rename s0 into u, a into b.
  assert (Hgoal : ∃ t, String b u = t +:+ r ∧ value_text t).
  2: { destruct Hgoal as (t & Et & Ht). exists w, t. by rewrite <-Et. }
  destruct (b =c "{") eqn:E1.
  { apply ascii_eqb_true in E1 as ->. apply Ho in E as (t & -> & Ht).
    exists (String "{" t). by rewrite str_cons_app. }
  destruct (b =c "[") eqn:E2.
  { apply ascii_eqb_true in E2 as ->. apply Ha in E as (t & -> & Ht).
    exists (String "[" t). by rewrite str_cons_app. }
  destruct (b =c DQ) eqn:E3.
  { apply ascii_eqb_true in E3. injection E as E. apply result_bind_Ok in E as ([v r'] & E & E').
    injection E' as ->. apply scan_string_sound in E as (t & Et & Ht); [|done].
    exists t. split; [done|]. by eapply vt_string. }
  destruct (b =c "t") eqn:E4; [injection E as E; eapply literal_sound; [|done]; set_solver|].
  destruct (b =c "f") eqn:E5; [injection E as E; eapply literal_sound; [|done]; set_solver|].
  destruct (b =c "n") eqn:E6; [injection E as E; eapply literal_sound; [|done]; set_solver|].
  injection E as E. eapply number_sound; [|done]. unfold number_start.
  by rewrite E1, E2, E3, E4, E5, E6.
Qed.

Lemma object_step n : sound_members n → sound_object (S n).
Proof.
  intros Hm s r E. cbn [object] in E.
  destruct (space_spec s) as (w & Es & Hw & _). destruct (space s) as [|b u].
  - apply Hm in E as (vs & t & Et & Ht & Hnd & _). exists (w +:+ t).
    split; [by rewrite Es, Et, str_app_assoc|]. eapply vt_object; [|done]. by apply members_text_space.
  - destruct (b =c "}") eqn:E1.
    + apply ascii_eqb_true in E1 as ->. injection E as ->. exists (w +:+ "}").
      split; [by rewrite str_app_assoc|by apply vt_object_nil].
    + apply Hm in E as (vs & t & Et & Ht & Hnd & _). exists (w +:+ t).
      split; [by rewrite Es, Et, str_app_assoc|]. eapply vt_object; [|done]. by apply members_text_space.
Qed.

Lemma array_step n : sound_elements n → sound_array (S n).
Proof.
  intros Hm s r E. cbn [array] in E.
  destruct (space_spec s) as (w & Es & Hw & _). destruct (space s) as [|b u].
  - apply Hm in E as (t & Et & Ht). exists (w +:+ t).
    split; [by rewrite Es, Et, str_app_assoc|]. apply vt_array. by apply elements_text_space.
  - destruct (b =c "]") eqn:E1.
    + apply ascii_eqb_true in E1 as ->. injection E as ->. exists (w +:+ "]").
      split; [by rewrite str_app_assoc|by apply vt_array_nil].
    + apply Hm in E as (t & Et & Ht). exists (w +:+ t).
      split; [by rewrite Es, Et, str_app_assoc|]. apply vt_array. by apply elements_text_space.
Qed.

Lemma elements_step n : sound_value n → sound_elements n → sound_elements (S n).
Proof.
  intros Hv He s r E. cbn [elements] in E. apply scan_bind_Ok in E as (r1 & E1 & E).
  apply Hv in E1 as (w1 & t & -> & Hw1 & Ht).
  destruct (space_spec r1) as (w2 & -> & Hw2 & _). destruct (space r1) as [|b u]; [done|].
  destruct (b =c "]") eqn:Eb.
  - apply ascii_eqb_true in Eb as ->. injection E as ->.
    exists (w1 +:+ t +:+ w2 +:+ "]"). split; [by rewrite !str_app_assoc|by constructor].
  - destruct (b =c ",") eqn:Ec; [|done]. apply ascii_eqb_true in Ec as ->. cbn [negb] in E.
    apply He in E as (t2 & Et & Ht2). destruct (space_spec u) as (w3 & Eu & Hw3 & _).
    exists (w1 +:+ t +:+ w2 +:+ "," +:+ (w3 +:+ t2)). split.
    + rewrite !str_app_assoc, Eu, Et. by rewrite str_cons_app, str_nil_app.
    + constructor; [done..|]. by apply elements_text_space.
Qed.

Lemma members_step n : sound_value n → sound_members n → sound_members (S n).
Proof.
  intros Hv Hm seen s r E. cbn [members] in E.
  destruct (space_spec s) as (w1 & Es & Hw1 & _). destruct (space s) as [|b u]; [done|].
  destruct (b =c DQ) eqn:Eb; [|done]. cbn [negb] in E.
  apply scan_bind_Ok in E as ([v r1] & E1 & E). injection E1 as E1. cbn [fst snd] in E.
  apply scan_string_sound in E1 as (k & Ek & Hk); [|by apply ascii_eqb_true].
  destruct (decide (v ∈ seen)); [done|].
  destruct (space_spec r1) as (w2 & Er1 & Hw2 & _). destruct (space r1) as [|c u2]; [done|].
  destruct (c =c ":") eqn:Ec; [|done]. apply ascii_eqb_true in Ec as ->. cbn [negb] in E.
  apply scan_bind_Ok in E as (r2 & E2 & E). apply Hv in E2 as (w3 & t & -> & Hw3 & Ht).
  destruct (space_spec r2) as (w4 & Er2 & Hw4 & _). destruct (space r2) as [|d u3]; [done|].
  assert (Es' : ∀ x, String d u3 = x +:+ r →
    s = (w1 +:+ k +:+ w2 +:+ ":" +:+ w3 +:+ t +:+ w4 +:+ x) +:+ r).
  { intros x Ex. rewrite !str_app_assoc, <-Ex, <-Er2, Es, Ek, Er1.
    by rewrite !str_cons_app, !str_nil_app, ?str_app_assoc. }
  destruct (d =c "}") eqn:Ed.
  - apply ascii_eqb_true in Ed as ->. injection E as ->. eexists [v], _.
    split; [by apply (Es' "}")|]. split; [by constructor|]. split; [by apply NoDup_singleton|].
    intros v' ->%list_elem_of_singleton. done.
  - destruct (d =c ",") eqn:Ed2; [|done]. apply ascii_eqb_true in Ed2 as ->. cbn [negb] in E.
    apply Hm in E as (vs & t2 & Et & Ht2 & Hnd & Hfresh). eexists (v :: vs), _.
    split; [apply (Es' ("," +:+ t2)); by rewrite Et, str_cons_app|].
    split; [by constructor|]. split; [constructor; [set_solver|done]|set_solver].
Qed.

Lemma scan_sound n :
  sound_value n ∧ sound_object n ∧ sound_members n ∧ sound_array n ∧ sound_elements n.
Proof.
  induction n as [|n (? & ? & ? & ? & ?)]; [repeat split; repeat intro; done|].
  auto 6 using value_step, object_step, array_step, elements_step, members_step.
Qed.

(** * Termination *)

Lemma value_text_nonempty t : value_text t → 0 < String.length t.
Proof.
  intros [? Hw|? (_ & _ & Hn)|? ? (? & -> & _)|?|?|?|?]; cbn [String.length]; try lia.
  - by repeat (apply elem_of_cons in Hw as [->|Hw]; [cbn; lia|]); apply elem_of_nil in Hw.
  - destruct t0; [done|cbn; lia].
Qed.
Lemma value_shrinks n s r : value n s = Some (Ok r) → String.length r < String.length s.
Proof.
  intros E. destruct (scan_sound n) as [Hv _]. apply Hv in E as (w & t & -> & _ & Ht).
  apply value_text_nonempty in Ht. rewrite !str_length_app. lia.
Qed.
Lemma space_length s : String.length (space s) ≤ String.length s.
Proof. destruct (space_spec s) as (w & E & _). rewrite E at 2. rewrite str_length_app. lia. Qed.
Lemma scan_string_shrinks s v r b :
  b = DQ → scan_string (String b s) = Ok (v, r) → String.length r ≤ String.length s.
Proof.
  intros Hb E. apply scan_string_sound in E as (t & Et & Ht); [|done].
  apply string_text_head in Ht as [u ->]. apply (f_equal String.length) in Et.
  rewrite str_length_app in Et. cbn [String.length] in Et. lia.
Qed.

Definition total_value n := ∀ s, 4 * String.length s < n → value n s ≠ None.
Definition total_object n := ∀ s, 4 * String.length s + 2 < n → object n s ≠ None.
Definition total_members n := ∀ seen s, 4 * String.length s + 1 < n → members n seen s ≠ None.
Definition total_array n := ∀ s, 4 * String.length s + 2 < n → array n s ≠ None.
Definition total_elements n := ∀ s, 4 * String.length s + 1 < n → elements n s ≠ None.

Ltac space_bound s u :=
  let H := fresh "Hl" in pose proof (space_length s) as H;
  destruct (space s) as [|? u]; cbn [String.length] in H.

Lemma value_total n : total_object n → total_array n → total_value (S n).
Proof.
  intros Ho Ha s Hn. cbn [value]. space_bound s u; [done|].
  repeat match goal with |- context [if ?b then _ else _] => destruct b; try done end;
    [apply Ho|apply Ha]; lia.
Qed.
Lemma object_total n : total_members n → total_object (S n).
Proof.
  intros Hm s Hn. cbn [object]. space_bound s u; [apply Hm; cbn; lia|].
  destruct (_ =c _); [done|]. apply Hm. cbn [String.length]. lia.
Qed.
Lemma array_total n : total_elements n → total_array (S n).
Proof.
  intros Hm s Hn. cbn [array]. space_bound s u; [apply Hm; cbn; lia|].
  destruct (_ =c _); [done|]. apply Hm. cbn [String.length]. lia.
Qed.
Lemma elements_total n : total_value n → total_elements n → total_elements (S n).
Proof.
  intros Hv He s Hn. cbn [elements]. destruct (value n s) as [[r|]|] eqn:E; cbn [scan_bind];
    [|done|by apply Hv in E; [|lia]].
  apply value_shrinks in E. space_bound r u; [done|].
  destruct (_ =c "]"); [done|]. destruct (_ =c ","); [|done]. cbn [negb].
  apply He. pose proof (space_length u). lia.
Qed.
Lemma members_total n : total_value n → total_members n → total_members (S n).
Proof.
  intros Hv Hm seen s Hn. cbn [members]. space_bound s u; [done|].
  destruct (_ =c DQ) eqn:Eq; [|done]. apply ascii_eqb_true in Eq. cbn [negb].
  destruct (scan_string _) as [[k r1]|] eqn:E1; cbn [scan_bind fst snd]; [|done].
  apply scan_string_shrinks in E1; [|done]. case_decide; [done|].
  space_bound r1 u1; [done|]. destruct (_ =c ":"); [|done]. cbn [negb].
  destruct (value n u1) as [[r2|]|] eqn:E2; cbn [scan_bind]; [|done|by apply Hv in E2; [|lia]].
  apply value_shrinks in E2. space_bound r2 u2; [done|].
  destruct (_ =c "}"); [done|]. destruct (_ =c ","); [|done]. apply Hm. lia.
Qed.

Lemma scan_total n :
  total_value n ∧ total_object n ∧ total_members n ∧ total_array n ∧ total_elements n.
Proof.
  induction n as [|n (? & ? & ? & ? & ?)];
    [repeat split; repeat intro; match goal with H : _ < 0 |- _ => inversion H end|].
  auto 6 using value_total, object_total, array_total, elements_total, members_total.
Qed.

(** * What is in the grammar is accepted *)

Scheme value_text_min := Minimality for value_text Sort Prop
with members_text_min := Minimality for members_text Sort Prop
with elements_text_min := Minimality for elements_text Sort Prop.
Combined Scheme text_mutind from value_text_min, members_text_min, elements_text_min.

Lemma space_idem s : space (space s) = space s.
Proof. destruct (space_spec s) as (w & _ & _ & Hh). destruct (space s); [done|by apply space_head]. Qed.
Lemma value_space n s : value n (space s) = value n s.
Proof. destruct n; [done|]. cbn [value]. by rewrite space_idem. Qed.
Lemma members_space n seen s : members n seen (space s) = members n seen s.
Proof. destruct n; [done|]. cbn [members]. by rewrite space_idem. Qed.
Lemma elements_space n s : elements n (space s) = elements n s.
Proof. destruct n; [done|]. cbn [elements]. by rewrite value_space. Qed.

(** The first byte of a value: neither space nor what ends a value. *)
Lemma value_text_head t : value_text t → ∃ b u, t = String b u ∧ number_end b = false.
Proof.
  intros [? Hw|? (_ & Hf & Hn)|? ? (? & -> & _)|?|?|?|?]; try by eexists _, _.
  - by repeat (apply elem_of_cons in Hw as [->|Hw]; [by eexists _, _|]); apply elem_of_nil in Hw.
  - destruct t0 as [|b u]; [done|]. cbn [str_forall] in Hf. apply andb_true_iff in Hf as [Hb _].
    apply negb_true_iff in Hb. by eexists _, _.
Qed.
Lemma number_end_space b : number_end b = false → isJSONSpace b = false.
Proof. unfold number_end. by intros [_ ?]%orb_false_iff. Qed.
Lemma space_value w t r : spaces w → value_text t → space (w +:+ t +:+ r) = t +:+ r.
Proof.
  intros Hw Ht. rewrite space_app by done. apply value_text_head in Ht as (b & u & -> & Hb).
  rewrite str_cons_app. apply space_head. by apply number_end_space.
Qed.

Lemma members_text_space_head vs t r : members_text vs t → ∃ u, space (t +:+ r) = String DQ u.
Proof.
  intros []; rewrite !str_app_assoc, space_app by done;
    match goal with H : string_text _ _ |- _ => apply string_text_head in H as [? ->] end;
    rewrite str_cons_app; by eexists.
Qed.
Lemma elements_text_space_head t r :
  elements_text t → ∃ b u, space (t +:+ r) = String b u ∧ number_end b = false.
Proof.
  intros []; rewrite !str_app_assoc, space_value by done;
    match goal with H : value_text _ |- _ => apply value_text_head in H as (b & x & -> & Hb) end;
    by exists b; eexists.
Qed.

(** The scanner reads [t] from [t ++ r], whatever delimits it. *)
Definition complete_value (t : string) : Prop := ∀ w r m,
  spaces w → delimited r → 4 * String.length (w +:+ t +:+ r) < m →
  value m (w +:+ t +:+ r) = Some (Ok r).
Definition complete_members (vs : list string) (t : string) : Prop := ∀ seen r m,
  NoDup vs → (∀ v, v ∈ vs → v ∉ seen) → 4 * String.length (t +:+ r) + 1 < m →
  members m seen (t +:+ r) = Some (Ok r).
Definition complete_elements (t : string) : Prop := ∀ r m,
  4 * String.length (t +:+ r) + 1 < m → elements m (t +:+ r) = Some (Ok r).

Lemma delimited_space w c r : spaces w → number_end c = true → delimited (w +:+ String c r).
Proof.
  intros Hw Hc. destruct w as [|b w]; [done|]. rewrite str_cons_app. cbn.
  unfold spaces in Hw. cbn [str_forall] in Hw. apply andb_true_iff in Hw as [Hb _].
  unfold number_end. by rewrite Hb, !orb_true_r.
Qed.

Ltac lens :=
  rewrite ?str_cons_app, ?str_nil_app in *;
  repeat (progress (rewrite ?str_length_app in *; cbn [String.length] in * )); lia.

Lemma word_complete t : t ∈ ["true"; "false"; "null"] → complete_value t.
Proof.
  intros Ht w r [|m] Hw Hr Hm; [lia|]. cbn [value].
  rewrite space_value by (done || by constructor).
  repeat (apply elem_of_cons in Ht as [->|Ht]; [done|]). by apply elem_of_nil in Ht.
Qed.
Lemma number_complete t : number_text t → complete_value t.
Proof.
  intros Ht w r [|m] Hw Hr Hm; [lia|]. cbn [value]. rewrite space_value by (done || by constructor).
  destruct Ht as (Hp & Hf & Hs). destruct t as [|b t]; [done|]. rewrite str_cons_app.
  unfold number_start in Hs. split_bools.
  repeat match goal with H : (b =c _) = false |- _ => rewrite H; clear H end.
  rewrite <-str_cons_app. unfold number. rewrite number_cut_app by done.
  rewrite bool_decide_eq_false_2 by done. by rewrite Hp.
Qed.
Lemma string_complete t v : string_text t v → complete_value t.
Proof.
  intros Ht w r [|m] Hw Hr Hm; [lia|]. cbn [value]. rewrite space_value by (done || by econstructor).
  pose proof (scan_string_complete t v r Ht) as E. apply string_text_head in Ht as [u ->].
  rewrite str_cons_app in E |- *. cbn. by rewrite E.
Qed.
Lemma object_complete vs t :
  members_text vs t → complete_members vs t → NoDup vs → complete_value (String "{" t).
Proof.
  intros Hx Ht Hnd w r [|[|m]] Hw Hr Hm; [lens..|]. cbn [value].
  rewrite space_value by (done || by econstructor). rewrite str_cons_app. cbn -[members].
  destruct (members_text_space_head vs t r Hx) as [u Eu]. rewrite Eu. cbn -[members].
  rewrite <-Eu, members_space. apply Ht; [done|set_solver|lens].
Qed.
Lemma array_complete t :
  elements_text t → complete_elements t → complete_value (String "[" t).
Proof.
  intros Hx Ht w r [|[|m]] Hw Hr Hm; [lens..|]. cbn [value].
  rewrite space_value by (done || by constructor). rewrite str_cons_app. cbn -[elements].
  destruct (elements_text_space_head t r Hx) as (b & u & Eu & Hb). rewrite Eu.
  assert ((b =c "]") = false) as -> by (unfold number_end in Hb; by split_bools).
  rewrite <-Eu, elements_space. apply Ht. lens.
Qed.

Lemma element_complete t w1 w2 c x m :
  complete_value t → spaces w1 → spaces w2 → number_end c = true → isJSONSpace c = false →
  4 * String.length (w1 +:+ t +:+ w2 +:+ String c x) < m →
  ∃ r, value m (w1 +:+ t +:+ w2 +:+ String c x) = Some (Ok r) ∧ space r = String c x.
Proof.
  intros Ht Hw1 Hw2 Hc Hs Hm. exists (w2 +:+ String c x).
  split; [apply Ht; [done|by apply delimited_space|done]|].
  rewrite space_app by done. by apply space_head.
Qed.
Lemma elements_last_complete w1 t w2 :
  spaces w1 → complete_value t → spaces w2 → complete_elements (w1 +:+ t +:+ w2 +:+ "]").
Proof.
  intros Hw1 Ht Hw2 r [|m] Hm; [lia|]. rewrite !str_app_assoc in Hm |- *.
  change ("]" +:+ r) with (String "]" r) in *. cbn [elements].
  destruct (element_complete t w1 w2 "]" r m) as (r' & -> & E); [done..|lens|].
  cbn [scan_bind]. by rewrite E.
Qed.
Lemma elements_more_complete w1 t w2 u :
  spaces w1 → complete_value t → spaces w2 → complete_elements u →
  complete_elements (w1 +:+ t +:+ w2 +:+ "," +:+ u).
Proof.
  intros Hw1 Ht Hw2 Hu r [|m] Hm; [lia|]. rewrite !str_app_assoc in Hm |- *.
  change ("," +:+ u +:+ r) with (String "," (u +:+ r)) in *. cbn [elements].
  destruct (element_complete t w1 w2 "," (u +:+ r) m) as (r' & E1 & E); [done..|lens|].
  rewrite E1. cbn [scan_bind]. rewrite E. cbn -[elements].
  rewrite elements_space. apply Hu. lens.
Qed.

(** The part of [members] up to the separator after the first member. *)
Lemma member_complete w1 k v w2 w3 t w4 c x seen m :
  spaces w1 → string_text k v → spaces w2 → spaces w3 → complete_value t → spaces w4 →
  number_end c = true → isJSONSpace c = false → v ∉ seen →
  4 * String.length (w1 +:+ k +:+ w2 +:+ ":" +:+ w3 +:+ t +:+ w4 +:+ String c x) < m →
  members (S m) seen (w1 +:+ k +:+ w2 +:+ ":" +:+ w3 +:+ t +:+ w4 +:+ String c x) =
  if c =c "}" then Some (Ok x)
  else if negb (c =c ",") then reject ErrCanonical else members m ({[v]} ∪ seen) x.
Proof.
  intros Hw1 Hk Hw2 Hw3 Ht Hw4 Hc Hs Hv Hm. cbn [members]. rewrite space_app by done.
  pose proof (scan_string_complete k v (w2 +:+ ":" +:+ w3 +:+ t +:+ w4 +:+ String c x) Hk) as E.
  pose proof (string_text_head k v Hk) as [u ->]. rewrite str_cons_app in E |- *.
  rewrite space_head by done. cbn [negb Ascii.eqb Bool.eqb DQ]. rewrite E.
  cbn [scan_bind fst snd]. rewrite decide_False by done. rewrite space_app by done.
  change (":" +:+ ?y) with (String ":" y). rewrite space_head by done. cbn [negb Ascii.eqb Bool.eqb].
  destruct (element_complete t w3 w4 c x m) as (r' & -> & Er); [done..|lens|].
  cbn [scan_bind]. by rewrite Er.
Qed.
Lemma members_last_complete w1 k v w2 w3 t w4 :
  spaces w1 → string_text k v → spaces w2 → spaces w3 → complete_value t → spaces w4 →
  complete_members [v] (w1 +:+ k +:+ w2 +:+ ":" +:+ w3 +:+ t +:+ w4 +:+ "}").
Proof.
  intros Hw1 Hk Hw2 Hw3 Ht Hw4 seen r [|m] _ Hseen Hm; [lia|]. rewrite !str_app_assoc in Hm |- *.
  change ("}" +:+ r) with (String "}" r) in *.
  rewrite (member_complete w1 k v); [done..|apply Hseen; by left|lens].
Qed.
Lemma members_more_complete w1 k v w2 w3 t w4 vs u :
  spaces w1 → string_text k v → spaces w2 → spaces w3 → complete_value t → spaces w4 →
  complete_members vs u →
  complete_members (v :: vs) (w1 +:+ k +:+ w2 +:+ ":" +:+ w3 +:+ t +:+ w4 +:+ "," +:+ u).
Proof.
  intros Hw1 Hk Hw2 Hw3 Ht Hw4 Hu seen r [|m] [Hv Hnd]%NoDup_cons Hseen Hm; [lia|].
  rewrite !str_app_assoc in Hm |- *. change ("," +:+ u +:+ r) with (String "," (u +:+ r)) in *.
  rewrite (member_complete w1 k v); [|done..|apply Hseen; by left|lens]. cbn -[members].
  apply Hu; [done| |lens].
  intros v' Hv'. apply not_elem_of_union. split; [|apply Hseen; by right].
  intros ->%elem_of_singleton. done.
Qed.

Lemma text_complete :
  (∀ t, value_text t → complete_value t) ∧
  (∀ vs t, members_text vs t → complete_members vs t) ∧
  (∀ t, elements_text t → complete_elements t).
Proof.
  apply text_mutind; intros;
    eauto using word_complete, number_complete, string_complete, object_complete, array_complete,
      members_last_complete, members_more_complete, elements_last_complete, elements_more_complete.
  - intros v r [|[|m]] Hv Hr Hm; [lens..|]. cbn [value].
    rewrite space_value by (done || by constructor). rewrite str_cons_app, str_app_assoc.
    cbn. by rewrite space_app.
  - intros v r [|[|m]] Hv Hr Hm; [lens..|]. cbn [value].
    rewrite space_value by (done || by constructor). rewrite str_cons_app, str_app_assoc.
    cbn. by rewrite space_app.
Qed.

Lemma value_complete t w r m :
  value_text t → spaces w → delimited r → 4 * String.length (w +:+ t +:+ r) < m →
  value m (w +:+ t +:+ r) = Some (Ok r).
Proof. intros Ht. by apply (proj1 text_complete). Qed.

Lemma spaces_delimited w : spaces w → delimited w.
Proof.
  intros Hw. destruct w as [|b w]; [done|]. unfold spaces in Hw. cbn in Hw |- *.
  apply andb_true_iff in Hw as [Hb _]. unfold number_end. by rewrite Hb, !orb_true_r.
Qed.
Lemma space_spaces w : space w = "" ↔ spaces w.
Proof.
  split; [|intros Hsp; rewrite <-(str_app_nil_r w); by rewrite space_app].
  destruct (space_spec w) as (w' & E & Hw & _). intros E'. rewrite E' in E.
  rewrite str_app_nil_r in E. by subst.
Qed.

Lemma validate_total data : validateJSONObject data ≠ None.
Proof.
  unfold validateJSONObject. destruct (_ || _); [done|]. destruct (scan_total (scan_fuel data)) as [Hv _].
  destruct (value (scan_fuel data) data) as [[r|]|] eqn:E; cbn [scan_bind]; [|done|].
  + destruct (negb _); [done|]. destruct (space data); [done|]. by destruct (_ =c _).
  + exfalso. revert E. apply Hv. unfold scan_fuel. lia.
Qed.

Definition is_object_text (data : string) : Prop :=
  ∃ w t w', data = w +:+ String "{" t +:+ w' ∧ spaces w ∧ spaces w' ∧ value_text (String "{" t).

Lemma validate_accepts data :
  validateJSONObject data = Some (Ok ()) ↔ json_valid data = true ∧ is_object_text data.
Proof.
  unfold validateJSONObject. split.
  + destruct (_ || _) eqn:E0; [done|]. split_bools. intros E.
    apply scan_bind_Ok in E as (r & E & E2). split; [done|].
    apply (proj1 (scan_sound _)) in E as (w & t & -> & Hw & Ht).
    destruct (negb _) eqn:E3; [done|]. split_bools. rewrite space_value in E2 by done.
    apply value_text_head in Ht as Hh. destruct Hh as (b & u & -> & _).
    rewrite str_cons_app in E2. destruct (b =c "{") eqn:Eb; [|done].
    apply ascii_eqb_true in Eb as ->. exists w, u, r.
    split; [done|]. split; [done|]. split; [by apply space_spaces|done].
  + intros (Hj & w & t & w' & -> & Hw & Hw' & Ht). rewrite Hj.
    rewrite bool_decide_eq_false_2 by (intros E; apply (f_equal String.length) in E; lens). cbn [orb negb].
    rewrite value_complete; [|done..|by apply spaces_delimited|unfold scan_fuel; lia].
    cbn [scan_bind]. apply space_spaces in Hw' as Hsp. rewrite Hsp. cbn [negb bool_decide].
    rewrite bool_decide_eq_true_2 by done. cbn [negb]. rewrite space_value by done. done.
Qed.

(** * The property *)

(** C15: The scanner in front of every signed document decides exactly one grammar
and never runs out of fuel: for every input it answers, and it accepts precisely
the valid JSON texts that are one object, with nothing but white space around it,
in which no object at any depth has two members whose decoded keys are equal. *)
Theorem validateJSONObject_spec data :
  validateJSONObject data ≠ None ∧
  (validateJSONObject data = Some (Ok ()) ↔
   json_valid data = true ∧ is_object_text data).
Proof. split; [apply validate_total|apply validate_accepts]. Qed.
End scanner.

(** * Encoded documents are accepted *)

(** [string_body] and the cut of [GoEncoding] read the same literal. *)
Lemma string_body_cut n s : String.length s ≤ n →
  string_body s = '(a, r) ← json_cut s; Some (a +:+ str1 DQ, r).
Proof.
  revert s. induction n as [|n IH]; intros [|b s] Hn; try done; [cbn in Hn; lia|].
  cbn [String.length] in Hn. cbn [string_body json_cut].
  destruct (b =c BSL) eqn:E1.
  - apply ascii_eqb_true in E1 as ->. cbn [Ascii.eqb Bool.eqb BSL DQ].
    destruct s as [|e s]; [done|]. cbn [String.length] in Hn. rewrite IH by lia.
    by destruct (json_cut s) as [[]|].
  - destruct (b =c DQ) eqn:E2; [by apply ascii_eqb_true in E2 as ->|]. rewrite IH by lia.
    by destruct (json_cut s) as [[]|].
Qed.

(** Types whose encodings are texts of the grammar. *)
Class JsonText (A : Type) `{JsonLib, Json A} : Prop :=
  encode_text x : wf x → value_text (encode x).

Section texts.
Context `{JsonLib}.

Lemma json_string_text s : valid_utf8 s = true → string_text (json_string s) s.
Proof.
  intros Hs. exists (json_go 0 s +:+ str1 DQ). split; [done|]. split; [|by apply unquote_marshal].
  rewrite (string_body_cut _ _ (le_n _)), json_cut_json by done. cbn. by rewrite str_app_nil_r.
Qed.
#[global] Instance text_of_string : JsonText string.
Proof. intros s Hs. eapply vt_string. by apply json_string_text. Qed.
#[global] Instance text_of_bool : JsonText bool.
Proof. intros [] _; constructor; cbn; set_solver. Qed.
#[global] Instance text_of_int : JsonText Z.
Proof.
  intros n Hn. apply vt_number. pose proof (itoa_bytes n) as Hd.
  destruct (itoa_head n) as (c & s & E & Hc). cbn [encode json_of_int].
  assert (Hbyte : ∀ b, number_byte b = true → number_end b = false ∧ number_start b = true).
  { intros b. destruct b as [[] [] [] [] [] [] [] []]; vm_compute; naive_solver. }
  split; [by apply parse_float_itoa|]. split.
  - eapply str_forall_impl; [|exact Hd]. intros b Hb. cbn. by destruct (Hbyte b Hb) as [-> _].
  - rewrite E. by apply Hbyte.
Qed.

Lemma elements_of `{Json A, !JsonText A} (l : list A) :
  Forall wf l → l ≠ [] → elements_text (join "," (encode <$> l) +:+ "]").
Proof.
  intros Hl Hne. induction Hl as [|x l Hx Hl IH]; [done|].
  destruct l as [|y l]; cbn [fmap list_fmap join].
  - apply (et_last "" (encode x) ""); [done|by apply encode_text|done].
  - rewrite !str_app_assoc.
    apply (et_more "" (encode x) ""); [done|by apply encode_text|done|by apply IH].
Qed.
#[global] Instance text_of_slice `{Json A, !JsonText A} : JsonText (slice A).
Proof.
  intros [l|] Hl; cbn [encode json_of_slice json_slice]; [|constructor; set_solver].
  destruct l as [|x l]; [by apply (vt_array_nil "")|].
  change ("[" +:+ ?s) with (String "[" s). apply vt_array. by apply elements_of.
Qed.

Lemma field_last `{Json A, !JsonText A} name (v : A) :
  valid_utf8 name = true → wf v → members_text [name] (field name v "}").
Proof.
  intros Hn Hv. apply (mt_last "" (json_string name) name "" "" (encode v) ""); try done;
    [by apply json_string_text|by apply encode_text].
Qed.
Lemma field_more `{Json A, !JsonText A} name (v : A) vs u :
  valid_utf8 name = true → wf v → members_text vs u →
  members_text (name :: vs) (field name v ("," +:+ u)).
Proof.
  intros Hn Hv Hu. apply (mt_more "" (json_string name) name "" "" (encode v) ""); try done;
    [by apply json_string_text|by apply encode_text].
Qed.

Lemma members_of `{Json A, !JsonText A} (l : list (string * A)) :
  Forall wf l → l ≠ [] → members_text l.*1 (join "," (encode <$> l) +:+ "}").
Proof.
  intros Hl Hne. induction Hl as [|[k v] l [Hk Hv] Hl IH]; [done|]. cbn [fst snd] in Hk, Hv.
  assert (Hfield : ∀ rest, encode (k, v) +:+ rest = field k v rest).
  { intros rest. cbn [encode json_of_member fst snd]. unfold field. by rewrite !str_app_assoc. }
  destruct l as [|y l]; cbn [fmap list_fmap join].
  - rewrite Hfield. by apply field_last.
  - rewrite !str_app_assoc, Hfield. apply field_more; [done..|by apply IH].
Qed.
Lemma entries_keys {A} (m : gmap string A) : (entries m).*1 = sorted_keys m.
Proof.
  unfold entries. assert (Hall : ∀ k, k ∈ sorted_keys m → is_Some (m !! k))
    by (intros k; by apply elem_of_sorted_keys). revert Hall.
  induction (sorted_keys m) as [|k l IH]; intros Hall; [done|]. cbn.
  destruct (Hall k (list_elem_of_here _ _)) as [v ->]. cbn. f_equal.
  apply IH. intros k' Hk'. apply Hall. by right.
Qed.
#[global] Instance text_of_map `{Json A, !JsonText A} : JsonText (option (gmap string A)).
Proof.
  intros [m|] Hm; cbn [encode json_of_map json_map]; [|constructor; set_solver].
  change ("{" +:+ ?s) with (String "{" s).
  destruct (entries m) as [|x l] eqn:E; [by apply (vt_object_nil "")|].
  apply (vt_object (entries m).*1).
  - rewrite E. apply members_of; [|done]. rewrite <-E. by apply Hm.
  - rewrite entries_keys. unfold sorted_keys. rewrite sort_strings_perm. apply NoDup_fst_map_to_list.
Qed.

(** A record's text, from its members. *)
Lemma record_text vs t : members_text vs t → NoDup vs → value_text ("{" +:+ t).
Proof. apply vt_object. Qed.

Lemma text_accepted t :
  value_text (String "{" t) → json_valid (String "{" t) = true →
  validateJSONObject (String "{" t) = Some (Ok ()).
Proof.
  intros Ht Hj. apply validate_accepts. split; [done|]. exists "", t, "".
  by rewrite str_nil_app, str_app_nil_r.
Qed.
End texts.

(** * An instance, for concrete inputs *)

#[export] Program Instance toy_json_lib : JsonLib := {|
  json_valid _ := true;
  unquote t := Some (drop_last (unjson (str_drop 1 t)));
  parse_float t := negb (bool_decide (t = "")) && str_forall number_byte t |}.
Next Obligation.
  intros s Hs. unfold json_string. cbn [str_drop]. rewrite unjson_json by done.
  change (unjson (str1 DQ)) with (str1 DQ). by rewrite drop_last_snoc.
Qed.
Next Obligation.
  intros n _. apply andb_true_iff. split; [|apply itoa_bytes].
  destruct (itoa_head n) as (c & s & -> & _). done.
Qed.
