(* ===== verification/Base64.v ===== *)
(** [base64.StdEncoding.DecodeString], which skips line ends, and that it undoes
[EncodeToString]. *)

From S2P Require Import Prelude GoStrings GoEncoding.

Definition b64_value (c : ascii) : option Z :=
  if is_upper c then Some (code c - 65)%Z
  else if is_lower c then Some (code c - 71)%Z
  else if is_digit c then Some (code c + 4)%Z
  else if c =c "+" then Some 62%Z
  else if c =c "/" then Some 63%Z
  else None.

(** Four digits at a time; padding only in the last group. *)
Fixpoint b64_groups (s : string) : option string :=
  match s with
  | "" => Some ""
  | String a (String b (String c (String d r))) =>
    x ← b64_value a; y ← b64_value b;
    let b1 := byte_of (x * 4 + y / 16) in
    if c =c "=" then
      if (d =c "=") && bool_decide (r = "") then Some (str1 b1) else None
    else
      z ← b64_value c;
      let b2 := byte_of (y mod 16 * 16 + z / 4) in
      if d =c "=" then
        if bool_decide (r = "") then Some (String b1 (str1 b2)) else None
      else
        w ← b64_value d;
        rest ← b64_groups r;
        Some (String b1 (String b2 (String (byte_of (z mod 4 * 64 + w)) rest)))
  | _ => None
  end.
Definition drop_line_ends : string → string :=
  str_flat_map (λ c, if (c =c CR) || (c =c LF) then "" else str1 c).
Definition StdDecode (s : string) : option string := b64_groups (drop_line_ends s).

Lemma b64_value_char z : (0 ≤ z < 64)%Z → b64_value (b64_char false z) = Some z.
Proof.
  intros Hz. pose proof (b64_code false z Hz) as Hc. unfold b64_value.
  assert (Hplus : (b64_char false z =c "+") = (code (b64_char false z) =? 43)%Z).
  { apply eq_true_iff_eq. rewrite ascii_eqb_true, Z.eqb_eq. split; [by intros ->|].
    intros E. by apply code_inj. }
  assert (Hslash : (b64_char false z =c "/") = (code (b64_char false z) =? 47)%Z).
  { apply eq_true_iff_eq. rewrite ascii_eqb_true, Z.eqb_eq. split; [by intros ->|].
    intros E. by apply code_inj. }
  rewrite Hplus, Hslash. unfold is_upper, is_lower, is_digit, in_range. rewrite Hc.
  destruct (Z.ltb_spec z 26), (Z.ltb_spec z 52), (Z.ltb_spec z 62), (Z.eqb_spec z 62);
    repeat match goal with
    | |- context [(?a <=? ?b)%Z] => destruct (Z.leb_spec a b); [|try lia]
    | |- context [(?a =? ?b)%Z] => destruct (Z.eqb_spec a b); [try lia|try lia]
    end; cbn [andb]; try (f_equal; lia); try lia.
Qed.
Lemma b64_char_not_pad z : (0 ≤ z < 64)%Z → (b64_char false z =c "=") = false.
Proof. intros Hz. apply ascii_eqb_false. by apply b64_not_pad. Qed.
(** A predicate of the digits and of the padding holds of every encoded byte. *)
Lemma base64_forall P url pad s :
  (∀ z, (0 ≤ z < 64)%Z → P (b64_char url z) = true) → P "="%char = true →
  str_forall P (base64 url pad s) = true.
Proof.
  intros Hd Hp. remember (String.length s) as n eqn:Hn. revert s Hn.
  induction (lt_wf n) as [n _ IH]. intros [|a [|b [|c s]]] ->; [done|..]; cbn [base64];
    pose proof (code_split a); try pose proof (code_split b); try pose proof (code_split c);
    cbn [str_forall]; rewrite !Hd by lia; [destruct pad; cbn; by rewrite ?Hp..|].
  cbn [andb]. eapply IH; [|done]. cbn. lia.
Qed.
Lemma b64_char_range url z : (0 ≤ z < 64)%Z → (43 ≤ code (b64_char url z) < 128)%Z.
Proof.
  intros Hz. rewrite b64_code by done.
  destruct (Z.ltb_spec z 26), (Z.ltb_spec z 52), (Z.ltb_spec z 62), (Z.eqb_spec z 62), url; lia.
Qed.
Lemma base64_ascii url pad s : str_forall is_ascii (base64 url pad s) = true.
Proof.
  apply base64_forall; [|done]. intros z Hz. apply Z.ltb_lt. by apply b64_char_range.
Qed.
Lemma str_flat_map_id f s :
  str_forall (λ c, bool_decide (f c = str1 c)) s = true → str_flat_map f s = s.
Proof.
  induction s as [|c s IH]; [done|]. cbn. intros [Hc Hs]%andb_true_iff.
  apply bool_decide_eq_true in Hc. by rewrite Hc, IH.
Qed.
Lemma drop_line_ends_base64 s : drop_line_ends (StdEncoding s) = StdEncoding s.
Proof.
  apply str_flat_map_id, base64_forall; [|done]. intros z Hz. apply bool_decide_eq_true.
  pose proof (b64_char_range false z Hz) as Hr.
  destruct (Ascii.eqb_spec (b64_char false z) CR) as [E|_]; [rewrite E in Hr; change (code CR) with 13%Z in Hr; lia|].
  destruct (Ascii.eqb_spec (b64_char false z) LF) as [E|_]; [rewrite E in Hr; change (code LF) with 10%Z in Hr; lia|].
  done.
Qed.

(** Rebuilding a byte from its digits. *)
Lemma byte_of_is z c : z = code c → byte_of z = c.
Proof. intros ->. apply byte_of_code. Qed.
Lemma first_byte a r :
  (0 ≤ r < 16)%Z → byte_of (code a / 4 * 4 + (code a mod 4 * 16 + r) / 16) = a.
Proof.
  intros Hr. apply byte_of_is. rewrite Z.div_add_l, (Z.div_small r) by lia.
  pose proof (Z.div_mod (code a) 4). lia.
Qed.
Lemma second_byte a b r :
  (0 ≤ r < 4)%Z →
  byte_of ((code a mod 4 * 16 + code b / 16) mod 16 * 16 + (code b mod 16 * 4 + r) / 4) = b.
Proof.
  intros Hr. pose proof (code_split b). apply byte_of_is.
  rewrite Z.add_comm, Z.div_add_l, (Z.div_small r) by lia.
  rewrite (Z.add_comm (code a mod 4 * 16)), Z.mod_add, (Z.mod_small (code b / 16)) by lia.
  pose proof (Z.div_mod (code b) 16). lia.
Qed.
Lemma third_byte b c :
  byte_of ((code b mod 16 * 4 + code c / 64) mod 4 * 64 + code c mod 64) = c.
Proof.
  pose proof (code_split c). apply byte_of_is.
  rewrite (Z.add_comm (code b mod 16 * 4)), Z.mod_add, (Z.mod_small (code c / 64)) by lia.
  pose proof (Z.div_mod (code c) 64). lia.
Qed.

Lemma b64_groups_base64 s : b64_groups (StdEncoding s) = Some s.
Proof.
  unfold StdEncoding. remember (String.length s) as n eqn:Hn. revert s Hn.
  induction (lt_wf n) as [n _ IH]. intros [|a [|b [|c s]]] ->; [done|..]; cbn [base64];
    pose proof (code_split a) as Ha; try pose proof (code_split b) as Hb;
    try pose proof (code_split c) as Hc.
  - cbn [b64_groups]. rewrite !b64_value_char by lia. cbn [mbind option_bind Ascii.eqb Bool.eqb].
    rewrite <-(Z.add_0_r (code a mod 4 * 16)), first_byte by lia. done.
  - cbn [b64_groups]. rewrite !b64_value_char by lia. cbn [mbind option_bind].
    rewrite b64_char_not_pad by lia. cbn [Ascii.eqb Bool.eqb].
    rewrite <-(Z.add_0_r (code b mod 16 * 4)), first_byte, second_byte by lia. done.
  - cbn [b64_groups]. rewrite !b64_value_char by lia. cbn [mbind option_bind].
    rewrite !b64_char_not_pad by lia. cbn [mbind option_bind].
    rewrite (IH (String.length s)) by (cbn; lia || done). cbn [mbind option_bind].
    by rewrite first_byte, second_byte, third_byte by lia.
Qed.

(** Decoding undoes encoding. *)
Lemma StdDecode_encode s : StdDecode (StdEncoding s) = Some s.
Proof. unfold StdDecode. by rewrite drop_line_ends_base64, b64_groups_base64. Qed.
