(* ===== verification/LaunchTypes.v ===== *)
(** The signed launch authority: its data and its canonical encoding
(src/internal/secretlaunch/manifest.go, the types).

Slices and maps are nil or not, as in Go: [json.Marshal] writes the two
differently.  Each record's encoding is an instance of [Json] and of [JsonText],
so a document is determined by its encoding and is accepted by the scanner. *)

From S2P Require Import Prelude GoStrings GoEncoding GoTime Json LaunchError JsonScan.
#[local] Open Scope go_scope.

(** [map[string]string], possibly nil. *)
Abbreviation strings := (slice string).
Abbreviation string_map := (option (gmap string string)).

Record ManifestKey := mkKey { mk_Name : string; mk_Version : string; mk_Env : string }.
Record ChildSpec := mkChild { ch_Argv : strings; ch_User : string; ch_Environment : string_map }.
Record HealthSpec := mkHealth {
  hs_Command : strings;
  hs_IntervalMS : Z; hs_TimeoutMS : Z; hs_Retries : Z;
  hs_HeartbeatIntervalMS : Z; hs_HeartbeatTimeoutMS : Z }.
Record ArtifactDigests := mkDigests { ad_Helper : string; ad_Supervisor : string; ad_Compose : string }.
Record ServiceAuthority := mkService {
  sa_Name : string; sa_Image : string; sa_User : string;
  sa_Argv : strings; sa_Environment : string_map; sa_Labels : string_map;
  sa_Networks : strings; sa_Restart : string; sa_OpenStdin : bool; sa_Health : HealthSpec;
  sa_Dependencies : strings; sa_Keys : slice ManifestKey; sa_WrapperDigest : string;
  sa_Child : ChildSpec }.
Record Manifest := mkManifest {
  m_Version : string; m_RuntimeID : string; m_Role : string; m_Generation : Z;
  m_IssuedAt : Z; m_ExpiresAt : Z; m_Nonce : string;
  m_Services : slice ServiceAuthority; m_Digests : ArtifactDigests }.
Record SignedManifest := mkSigned { sm_Manifest : Manifest; sm_KeyID : string; sm_Signature : string }.
Record LaunchBinding := mkBinding {
  lb_RuntimeID : string; lb_Service : string; lb_Role : string; lb_Generation : Z;
  lb_ExpiresAt : Z; lb_Nonce : string }.
Record TrustPolicy := mkPolicy {
  AllowedSigningKeys : gmap string string; AllowedVersions : gmap string bool;
  AllowedRuntimeIDs : gmap string bool; AllowedRoles : gmap string bool;
  KeyVersions : gmap string (gmap string bool) }.
Record TrustDocument := mkTrust {
  td_Keys : string_map; td_Versions : strings; td_RuntimeIDs : strings; td_Roles : strings;
  td_KeyVersions : option (gmap string (option (gmap string bool))) }.

#[export] Instance ManifestKey_eq_dec : EqDecision ManifestKey.
Proof. solve_decision. Defined.
#[export] Instance ChildSpec_eq_dec : EqDecision ChildSpec.
Proof. solve_decision. Defined.
#[export] Instance HealthSpec_eq_dec : EqDecision HealthSpec.
Proof. solve_decision. Defined.
#[export] Instance ArtifactDigests_eq_dec : EqDecision ArtifactDigests.
Proof. solve_decision. Defined.
#[export] Instance ServiceAuthority_eq_dec : EqDecision ServiceAuthority.
Proof. solve_decision. Defined.
#[export] Instance Manifest_eq_dec : EqDecision Manifest.
Proof. solve_decision. Defined.

(** * Encodings *)

Definition json_key (k : ManifestKey) : string :=
  "{" +:+ field "name" (mk_Name k) ("," +:+ field "version" (mk_Version k) ("," +:+
  field "env" (mk_Env k) "}")).
Definition json_child (c : ChildSpec) : string :=
  "{" +:+ field "argv" (ch_Argv c) ("," +:+ field "user" (ch_User c) ("," +:+
  field "environment" (ch_Environment c) "}")).
Definition json_health (h : HealthSpec) : string :=
  "{" +:+ field "command" (hs_Command h) ("," +:+ field "interval_ms" (hs_IntervalMS h) ("," +:+
  field "timeout_ms" (hs_TimeoutMS h) ("," +:+ field "retries" (hs_Retries h) ("," +:+
  field "heartbeat_interval_ms" (hs_HeartbeatIntervalMS h) ("," +:+
  field "heartbeat_timeout_ms" (hs_HeartbeatTimeoutMS h) "}"))))).
Definition json_digests (d : ArtifactDigests) : string :=
  "{" +:+ field "helper" (ad_Helper d) ("," +:+ field "supervisor" (ad_Supervisor d) ("," +:+
  field "compose" (ad_Compose d) "}")).

(** The members of two equal encodings are equal one by one. *)
Ltac record_cut f :=
  intros [] [] s t Hx Hy _ _ E; destruct_and?; unfold f in E; json_peel E; simplify_eq/=; done.
(** A record's encoding is a text: its members are, and their names differ. *)
Ltac record_is_text f :=
  let H := fresh in
  intros x H; cbn in H; destruct_and?; cbn [encode]; unfold f; eapply record_text;
  [ repeat (eapply field_more; [reflexivity|done|]); eapply field_last; [reflexivity|done]
  | by_decide ].

#[export] Program Instance json_of_key : Json ManifestKey := {|
  encode := json_key;
  wf k := wf (mk_Name k) ∧ wf (mk_Version k) ∧ wf (mk_Env k) |}.
Next Obligation. intros k _. by eexists _, _. Qed.
Next Obligation. record_cut json_key. Qed.
#[export] Instance text_of_key `{JsonLib} : JsonText ManifestKey.
Proof. record_is_text json_key. Qed.

#[export] Program Instance json_of_child : Json ChildSpec := {|
  encode := json_child;
  wf c := wf (ch_Argv c) ∧ wf (ch_User c) ∧ wf (ch_Environment c) |}.
Next Obligation. intros c _. by eexists _, _. Qed.
Next Obligation. record_cut json_child. Qed.
#[export] Instance text_of_child `{JsonLib} : JsonText ChildSpec.
Proof. record_is_text json_child. Qed.

#[export] Program Instance json_of_health : Json HealthSpec := {|
  encode := json_health;
  wf h := wf (hs_Command h) ∧ wf (hs_IntervalMS h) ∧ wf (hs_TimeoutMS h) ∧
    wf (hs_Retries h) ∧ wf (hs_HeartbeatIntervalMS h) ∧
    wf (hs_HeartbeatTimeoutMS h) |}.
Next Obligation. intros h _. by eexists _, _. Qed.
Next Obligation. record_cut json_health. Qed.
#[export] Instance text_of_health `{JsonLib} : JsonText HealthSpec.
Proof. record_is_text json_health. Qed.

#[export] Program Instance json_of_digests : Json ArtifactDigests := {|
  encode := json_digests;
  wf d := wf (ad_Helper d) ∧ wf (ad_Supervisor d) ∧ wf (ad_Compose d) |}.
Next Obligation. intros d _. by eexists _, _. Qed.
Next Obligation. record_cut json_digests. Qed.
#[export] Instance text_of_digests `{JsonLib} : JsonText ArtifactDigests.
Proof. record_is_text json_digests. Qed.

Definition json_service (s : ServiceAuthority) : string :=
  "{" +:+ field "name" (sa_Name s) ("," +:+ field "image" (sa_Image s) ("," +:+
  field "user" (sa_User s) ("," +:+ field "argv" (sa_Argv s) ("," +:+
  field "environment" (sa_Environment s) ("," +:+ field "labels" (sa_Labels s) ("," +:+
  field "networks" (sa_Networks s) ("," +:+ field "restart" (sa_Restart s) ("," +:+
  field "open_stdin" (sa_OpenStdin s) ("," +:+ field "health" (sa_Health s) ("," +:+
  field "dependencies" (sa_Dependencies s) ("," +:+ field "keys" (sa_Keys s) ("," +:+
  field "wrapper_digest" (sa_WrapperDigest s) ("," +:+ field "child" (sa_Child s) "}"))))))))))))).

#[export] Program Instance json_of_service : Json ServiceAuthority := {|
  encode := json_service;
  wf s := wf (sa_Name s) ∧ wf (sa_Image s) ∧ wf (sa_User s) ∧ wf (sa_Argv s) ∧
    wf (sa_Environment s) ∧ wf (sa_Labels s) ∧ wf (sa_Networks s) ∧
    wf (sa_Restart s) ∧ wf (sa_OpenStdin s) ∧ wf (sa_Health s) ∧
    wf (sa_Dependencies s) ∧ wf (sa_Keys s) ∧ wf (sa_WrapperDigest s) ∧
    wf (sa_Child s) |}.
Next Obligation. intros s _. by eexists _, _. Qed.
Next Obligation. record_cut json_service. Qed.
#[export] Instance text_of_service `{JsonLib} : JsonText ServiceAuthority.
Proof. record_is_text json_service. Qed.

Definition json_manifest (m : Manifest) : string :=
  "{" +:+ field "version" (m_Version m) ("," +:+ field "runtime_id" (m_RuntimeID m) ("," +:+
  field "role" (m_Role m) ("," +:+ field "generation" (m_Generation m) ("," +:+
  field "issued_at" (m_IssuedAt m) ("," +:+ field "expires_at" (m_ExpiresAt m) ("," +:+
  field "nonce" (m_Nonce m) ("," +:+ field "services" (m_Services m) ("," +:+
  field "digests" (m_Digests m) "}")))))))).

#[export] Program Instance json_of_manifest : Json Manifest := {|
  encode := json_manifest;
  wf m := wf (m_Version m) ∧ wf (m_RuntimeID m) ∧ wf (m_Role m) ∧ wf (m_Generation m) ∧
    wf (m_IssuedAt m) ∧ wf (m_ExpiresAt m) ∧ wf (m_Nonce m) ∧ wf (m_Services m) ∧
    wf (m_Digests m) |}.
Next Obligation. intros m _. by eexists _, _. Qed.
Next Obligation. record_cut json_manifest. Qed.
#[export] Instance text_of_manifest `{JsonLib} : JsonText Manifest.
Proof. record_is_text json_manifest. Qed.

Definition json_signed (s : SignedManifest) : string :=
  "{" +:+ field "manifest" (sm_Manifest s) ("," +:+ field "key_id" (sm_KeyID s) ("," +:+
  field "signature" (sm_Signature s) "}")).

#[export] Program Instance json_of_signed : Json SignedManifest := {|
  encode := json_signed;
  wf s := wf (sm_Manifest s) ∧ wf (sm_KeyID s) ∧ wf (sm_Signature s) |}.
Next Obligation. intros s _. by eexists _, _. Qed.
Next Obligation. record_cut json_signed. Qed.
#[export] Instance text_of_signed `{JsonLib} : JsonText SignedManifest.
Proof. record_is_text json_signed. Qed.

Definition json_trust (d : TrustDocument) : string :=
  "{" +:+ field "keys" (td_Keys d) ("," +:+ field "versions" (td_Versions d) ("," +:+
  field "runtime_ids" (td_RuntimeIDs d) ("," +:+ field "roles" (td_Roles d) ("," +:+
  field "key_versions" (td_KeyVersions d) "}")))).

#[export] Program Instance json_of_trust : Json TrustDocument := {|
  encode := json_trust;
  wf d := wf (td_Keys d) ∧ wf (td_Versions d) ∧ wf (td_RuntimeIDs d) ∧ wf (td_Roles d) ∧
    wf (td_KeyVersions d) |}.
Next Obligation. intros d _. by eexists _, _. Qed.
Next Obligation. record_cut json_trust. Qed.
#[export] Instance text_of_trust `{JsonLib} : JsonText TrustDocument.
Proof. record_is_text json_trust. Qed.

#[global] Arguments encode {A _} x : simpl never.
#[global] Arguments wf {A _} x : simpl never.
