(* ===== verification/LaunchManifest.v ===== *)
(** Validation, trust, signing and parsing of launch manifests
(src/internal/secretlaunch/manifest.go) and their renewal (renew.go).

Ed25519 and SHA-256 are interfaces; the JSON decoder is one whose law is that the
strings it delivers are valid UTF-8 and its integers have 64 bits. *)

From S2P Require Import Prelude GoStrings Provider Digest GoEncoding Base64 Json LaunchError JsonScan LaunchTypes.
#[local] Open Scope go_scope.

(** [json.NewDecoder(data).Decode] with [DisallowUnknownFields]: it reads one value
and ignores what follows it. *)
Class JsonDecode (A : Type) `{Json A} : Type := {
  decode : string → option A;
  decode_wf d x : decode d = Some x → wf x;
}.

(** * Syntax of names *)

Definition rune_in (lo hi r : Z) : bool := (lo <=? r)%Z && (r <=? hi)%Z.
Definition upper_rune : Z → bool := rune_in 65 90.
Definition lower_rune : Z → bool := rune_in 97 122.
Definition digit_rune : Z → bool := rune_in 48 57.
Definition alnum_rune (r : Z) : bool := upper_rune r || lower_rune r || digit_rune r.
Definition rune_is (c : ascii) (r : Z) : bool := (r =? code c)%Z.

Definition validNonce (value : string) : bool :=
  if (String.length value <? 16) || (128 <? String.length value) then false
  else forallb (λ r, alnum_rune r || rune_is "." r || rune_is "_" r || rune_is "~" r || rune_is "-" r)
         (runes value).

Definition bounded_name (value : string) : bool :=
  negb (bool_decide (value = "")) && (String.length value <=? MaxKeyLength).
Definition validKeyName (value : string) : bool :=
  bounded_name value && forallb (λ r, negb (blank_rune r)) (runes value).
Definition validEnvName (value : string) : bool :=
  bounded_name value &&
  forallb (λ '(i, r, _),
    let firstCharacter := upper_rune r || lower_rune r || rune_is "_" r in
    let subsequentCharacter := firstCharacter || digit_rune r in
    negb (((i =? 0)%nat && negb firstCharacter) || ((0 <? i)%nat && negb subsequentCharacter)))
    (runes_at value).
Definition validServiceName (value : string) : bool :=
  bounded_name value &&
  forallb (λ r, alnum_rune r || rune_is "-" r || rune_is "_" r || rune_is "." r) (runes value).

(** [strconv.ParseInt] in base 10 with 64 bits. *)
Definition parse_digits (s : string) : option Z :=
  if negb (bool_decide (s = "")) && str_forall is_digit s then Some (digits_value 0 s) else None.
Definition ParseInt (value : string) : option Z :=
  let '(neg, body) :=
    match value with
    | String c r => if c =c "-" then (true, r) else if c =c "+" then (false, r) else (false, value)
    | "" => (false, "")
    end in
  n ← parse_digits body;
  let v := if (neg : bool) then (- n)%Z else n in
  if (min_int64 <=? v)%Z && (v <=? max_int64)%Z then Some v else None.
Lemma ParseInt_itoa n : (0 ≤ n ≤ max_int64)%Z → ParseInt (itoa n) = Some n.
Proof.
  intros Hn. unfold ParseInt. pose proof (itoa_digits n ltac:(lia)) as Hd.
  destruct (itoa n) as [|c r] eqn:E; [by destruct (itoa_word n ltac:(lia))|].
  assert (Hc : (c =c "-") = false ∧ (c =c "+") = false).
  { cbn in Hd. apply andb_true_iff in Hd as [Hd _]. split; apply ascii_eqb_false; by intros ->. }
  assert (Hv : digits_value 0 (String c r) = n) by (rewrite <-E; apply itoa_value; unfold max_int64 in Hn; lia).
  destruct Hc as [-> ->]. unfold parse_digits. rewrite Hd, bool_decide_false, Hv by done.
  cbn [negb andb mbind option_bind]. unfold min_int64.
  rewrite (proj2 (Z.leb_le _ n)), (proj2 (Z.leb_le n _)) by lia. done.
Qed.
Definition validProviderVersion (value : string) : bool :=
  match ParseInt value with
  | Some version => (0 <? version)%Z && bool_decide (itoa version = value)
  | None => false
  end.

Definition validDigest (value : string) : bool :=
  if negb (String.length value =? 71) || negb (has_prefix value "sha256:") then false
  else forallb (λ r, digit_rune r || rune_in 97 102 r) (runes (str_drop 7 value)).
Definition pinnedImage (value : string) : bool :=
  match cut_byte "@" value with
  | Some (prefix, digest) => negb (bool_decide (prefix = "")) && validDigest digest
  | None => false
  end.

Section names.
Context {UC : UnicodeCase}.

Definition secret_markers : list string :=
  ["SECRET"; "PASSWORD"; "TOKEN"; "CREDENTIAL"; "PRIVATE_KEY"; "API_KEY"].
Definition secretLikeName (value : string) : bool :=
  let upper := to_upper value in existsb (contains upper) secret_markers.
End names.

(** * Service authorities *)

Definition validArguments (values : strings) : option LaunchError :=
  let l := elems values in
  if (length l =? 0) || (1024 <? length l) then Some (fail ErrInvalidInput)
  else if existsb (λ v, bool_decide (v = "") || has_byte NUL v) l then Some (fail ErrInvalidInput)
  else None.

(** 32-bit unsigned arithmetic. *)
Definition uint32_max : Z := 4294967295.
Definition u32_mul (a b : Z) : Z := (a * b mod 4294967296)%Z.
Definition HeartbeatSafetyFactor : Z := 3.
Definition MaxHeartbeatIntervalMS : Z := 300000.
Definition MaxHeartbeatTimeoutMS : Z := 900000.

Definition validHealth (h : HealthSpec) : option LaunchError :=
  err_if ((hs_IntervalMS h =? 0) || (hs_TimeoutMS h =? 0) || (hs_Retries h =? 0))%Z
    (fail ErrInvalidInput) (
  err_if ((hs_HeartbeatIntervalMS h =? 0)%Z ||
      (hs_HeartbeatTimeoutMS h =? 0)%Z ||
      (MaxHeartbeatIntervalMS <? hs_HeartbeatIntervalMS h)%Z ||
      (MaxHeartbeatTimeoutMS <? hs_HeartbeatTimeoutMS h)%Z ||
      (uint32_max / HeartbeatSafetyFactor <? hs_HeartbeatIntervalMS h)%Z ||
      (hs_HeartbeatTimeoutMS h <? u32_mul (hs_HeartbeatIntervalMS h) HeartbeatSafetyFactor)%Z)
    (fail ErrInvalidInput)
    (validArguments (hs_Command h))).

(** A missing key reads as the empty string. *)
Definition map_get (m : string_map) (k : string) : string := default "" (default ∅ m !! k).
Definition equalStringMap (first second : string_map) : bool :=
  let m1 := default ∅ first in
  if negb (size m1 =? size (default ∅ second)) then false
  else forallb (λ '(k, v), bool_decide (map_get second k = v)) (map_to_list m1).

(** [for _, x := range names { if !ok(x) || x <= last ... }] *)
Fixpoint ordered_names (ok : string → bool) (last : string) (l : list string) : bool :=
  match l with
  | [] => true
  | x :: l => ok x && negb (str_le x last) && ordered_names ok x l
  end.

(** The loop over a service's keys. *)
Fixpoint key_loop (environment : string_map) (last : string) (envNames : gset string)
    (keys : list ManifestKey) : option LaunchError :=
  match keys with
  | [] => None
  | k :: keys =>
    err_if (negb (validKeyName (mk_Name k)) || negb (validProviderVersion (mk_Version k)) ||
            negb (validEnvName (mk_Env k)) || str_le (mk_Name k) last)
      (failKey ErrKey (mk_Name k)) (
    err_if (bool_decide (is_Some (default ∅ environment !! mk_Env k))) (failKey ErrKey (mk_Name k)) (
    err_if (bool_decide (mk_Env k ∈ envNames)) (failKey ErrKey (mk_Name k))
      (key_loop environment (mk_Name k) ({[mk_Env k]} ∪ envNames) keys)))
  end.

Section manifest.
Context {UC : UnicodeCase} {MR : MapRange} {SH : SHA256} {ED : Ed25519}.

Definition check_environment (c : ErrorCode) (m : string_map) : option LaunchError :=
  err_each (λ '(key, value),
    err_if (negb (validEnvName key) || secretLikeName key || has_byte NUL value) (failKey c key) None)
    (range_map 0 (default ∅ m)).
Definition check_labels (c : ErrorCode) (m : string_map) : option LaunchError :=
  err_each (λ '(key, value),
    err_if (bool_decide (key = "") || has_prefix key "com.skret.secret-launch" || secretLikeName key ||
            secretLikeName value || has_byte NUL key || has_byte NUL value) (failKey c key) None)
    (range_map 1 (default ∅ m)).

Definition validateServiceAuthority (s : ServiceAuthority) : option LaunchError :=
  let invalid := fail ErrInvalidInput in
  err_if (negb (validServiceName (sa_Name s)) || negb (pinnedImage (sa_Image s)) ||
          bool_decide (sa_User s = "") || has_byte NUL (sa_User s) ||
          negb (bool_decide (sa_Restart s = "no")) || negb (sa_OpenStdin s) ||
          negb (validDigest (sa_WrapperDigest s))) invalid (
  err_seq (validArguments (sa_Argv s)) (
  err_if ((length (elems (ch_Argv (sa_Child s))) =? 0) || bool_decide (ch_User (sa_Child s) = "") ||
          has_byte NUL (ch_User (sa_Child s)) ||
          bool_decide (validArguments (ch_Argv (sa_Child s)) ≠ None)) invalid (
  err_if (negb (equalStringMap (ch_Environment (sa_Child s)) (sa_Environment s))) invalid (
  err_seq (validHealth (sa_Health s)) (
  err_if ((length (elems (sa_Keys s)) =? 0) || (1024 <? length (elems (sa_Keys s)))) invalid (
  err_seq (key_loop (sa_Environment s) "" ∅ (elems (sa_Keys s))) (
  err_if (negb (ordered_names (λ d, validServiceName d && negb (bool_decide (d = sa_Name s))) ""
                  (elems (sa_Dependencies s)))) invalid (
  err_if (negb (ordered_names validServiceName "" (elems (sa_Networks s)))) invalid (
  err_seq (check_environment ErrInvalidInput (sa_Environment s))
    (check_labels ErrInvalidInput (sa_Labels s))))))))))).

(** * Manifests *)

Definition ManifestVersion : string := "v2".
(** [int64(MaxManifestTTL/time.Second)] *)
Definition MaxManifestTTLSeconds : Z := 900.

Fixpoint services_ok (last : string) (l : list ServiceAuthority) : bool :=
  match l with
  | [] => true
  | s :: l =>
    negb (str_le (sa_Name s) last) && bool_decide (validateServiceAuthority s = None) &&
    services_ok (sa_Name s) l
  end.

Definition Validate (m : Manifest) : option LaunchError :=
  let invalid := fail ErrInvalidInput in
  err_if (negb (bool_decide (m_Version m = ManifestVersion)) || negb (validServiceName (m_RuntimeID m)) ||
          negb (validServiceName (m_Role m)) || (m_Generation m =? 0)%Z) invalid (
  err_if ((m_IssuedAt m <=? 0) || (m_ExpiresAt m <=? m_IssuedAt m) ||
          (MaxManifestTTLSeconds <? m_ExpiresAt m - m_IssuedAt m))%Z (fail ErrTTL) (
  err_if (negb (validNonce (m_Nonce m)) || (length (elems (m_Services m)) =? 0) ||
          (256 <? length (elems (m_Services m)))) invalid (
  err_if (negb (services_ok "" (elems (m_Services m)))) invalid (
  err_if (negb (forallb validDigest
            [ad_Helper (m_Digests m); ad_Supervisor (m_Digests m); ad_Compose (m_Digests m)]))
    invalid None)))).

Definition ValidateAt (m : Manifest) (now : time) : option LaunchError :=
  err_seq (Validate m) (
  err_if (unix now <? m_IssuedAt m)%Z (fail ErrNotYetValid) (
  err_if (m_ExpiresAt m <=? unix now)%Z (fail ErrExpired) None)).

(** [json.Marshal] of a manifest never fails. *)
Definition canonicalBytesUnchecked (m : Manifest) : result LaunchError string := Ok (encode m).
Definition CanonicalBytes (m : Manifest) : result LaunchError string :=
  try! Validate m; canonicalBytesUnchecked m.
Definition manifest_Digest (m : Manifest) : result LaunchError string :=
  let! b := CanonicalBytes m in Ok (sha256 b).

Definition find_service (name : string) : list ServiceAuthority → option ServiceAuthority :=
  List.find (λ s, bool_decide (sa_Name s = name)).
Definition Service (m : Manifest) (name : string) : option ServiceAuthority :=
  find_service name (elems (m_Services m)).

Definition MatchBinding (m : Manifest) (b : LaunchBinding) : option LaunchError :=
  let mismatch := fail ErrBinding in
  err_if (bool_decide (lb_RuntimeID b = "") || bool_decide (lb_Service b = "")) mismatch (
  err_if (negb (bool_decide (m_RuntimeID m = lb_RuntimeID b))) mismatch (
  err_if (bool_decide (Service m (lb_Service b) = None)) mismatch (
  err_if (negb (bool_decide (lb_Role b = "")) && negb (bool_decide (m_Role m = lb_Role b))) mismatch (
  err_if (negb (lb_Generation b =? 0)%Z && negb (m_Generation m =? lb_Generation b)%Z) mismatch (
  err_if (negb (lb_ExpiresAt b =? 0)%Z && negb (m_ExpiresAt m =? lb_ExpiresAt b)%Z) mismatch (
  err_if (negb (bool_decide (lb_Nonce b = "")) && negb (bool_decide (m_Nonce m = lb_Nonce b)))
    mismatch None)))))).
End manifest.

(** * Trust *)

(** [m[k]] of a map to booleans. *)
Definition allowed (m : gmap string bool) (k : string) : bool := default false (m !! k).

Definition ValidateTrustPolicy (p : TrustPolicy) : option LaunchError :=
  err_if (bool_decide (AllowedSigningKeys p = ∅) || bool_decide (AllowedVersions p = ∅) ||
          bool_decide (AllowedRuntimeIDs p = ∅) || bool_decide (AllowedRoles p = ∅) ||
          bool_decide (KeyVersions p = ∅)) (fail ErrTrust) (
  err_if (existsb (λ '(keyID, key),
            bool_decide (keyID = "") || negb (String.length key =? PublicKeySize))
            (map_to_list (AllowedSigningKeys p))) (fail ErrTrust) None).

(** The loop over the services' keys. *)
Definition check_key_versions (p : TrustPolicy) (m : Manifest) : option LaunchError :=
  err_each (λ s, err_each (λ k,
    match KeyVersions p !! mk_Name k with
    | Some versions => err_if (negb (allowed versions (mk_Version k))) (failKey ErrKey (mk_Name k)) None
    | None => Some (failKey ErrKey (mk_Name k))
    end) (elems (sa_Keys s))) (elems (m_Services m)).

Section trust.
Context {UC : UnicodeCase} {MR : MapRange} {SH : SHA256} {ED : Ed25519}.

Definition verifyManifestTrust (m : Manifest) (signature keyID : string) (p : TrustPolicy)
    : option LaunchError :=
  match canonicalBytesUnchecked m with
  | Err e => Some e
  | Ok canonical =>
    err_seq (ValidateTrustPolicy p) (
    match AllowedSigningKeys p !! keyID with
    | None => Some (fail ErrSignature)
    | Some public =>
      err_if (negb (String.length public =? PublicKeySize) || negb (ed_verify public canonical signature))
        (fail ErrSignature) (
      err_if (negb (allowed (AllowedVersions p) (m_Version m)) ||
              negb (allowed (AllowedRuntimeIDs p) (m_RuntimeID m)) ||
              negb (allowed (AllowedRoles p) (m_Role m))) (fail ErrTrust)
        (check_key_versions p m))
    end)
  end.

Definition VerifyManifest (m : Manifest) (signature keyID : string) (p : TrustPolicy) (now : time)
    : option LaunchError :=
  match canonicalBytesUnchecked m with
  | Err e => Some e
  | Ok _ => err_seq (ValidateAt m now) (verifyManifestTrust m signature keyID p)
  end.

Definition SignManifest (m : Manifest) (keyID private : string) (now : time)
    : result LaunchError string :=
  try! err_if (negb (String.length private =? PrivateKeySize) || bool_decide (keyID = ""))
         (fail ErrInvalidInput) None;
  try! ValidateAt m now;
  let! canonical := canonicalBytesUnchecked m in
  Ok (encode {| sm_Manifest := m; sm_KeyID := keyID;
                sm_Signature := StdEncoding (ed_sign private canonical) |}).

(** * Parsing *)

Context {JL : JsonLib} {DM : JsonDecode Manifest} {DS : JsonDecode SignedManifest}
  {DT : JsonDecode TrustDocument}.

(** The scan's outcome; it never runs out of fuel (JsonScan.validate_total). *)
Definition scanned (data : string) : option LaunchError :=
  match validateJSONObject data with
  | Some (Ok _) => None
  | Some (Err e) => Some e
  | None => Some (fail ErrCanonical)
  end.

Definition ParseManifest (data : string) : result LaunchError Manifest :=
  try! scanned data;
  match decode data with
  | None => Err (fail ErrUnknownField)
  | Some m =>
    let! canonical := canonicalBytesUnchecked m in
    try! err_if (negb (bool_decide (canonical = data))) (fail ErrCanonical) None;
    try! Validate m;
    Ok m
  end.

Definition ParseSignedManifest (data : string) : result LaunchError SignedManifest :=
  try! scanned data;
  match decode data with
  | None => Err (fail ErrUnknownField)
  | Some s =>
    try! err_if (negb (bool_decide (encode s = data))) (fail ErrCanonical) None;
    let! manifestBytes := canonicalBytesUnchecked (sm_Manifest s) in
    let! _ := ParseManifest manifestBytes in
    try! err_if (bool_decide (sm_KeyID s = "") || bool_decide (sm_Signature s = ""))
           (fail ErrSignature) None;
    Ok s
  end.

(** The decoded signature, of the right size. *)
Definition decode_signature (s : string) : result LaunchError string :=
  match StdDecode s with
  | Some b => if String.length b =? SignatureSize then Ok b else Err (fail ErrSignature)
  | None => Err (fail ErrSignature)
  end.
Definition VerifySignedManifest (data : string) (p : TrustPolicy) (now : time)
    : result LaunchError Manifest :=
  let! s := ParseSignedManifest data in
  let! signature := decode_signature (sm_Signature s) in
  try! VerifyManifest (sm_Manifest s) signature (sm_KeyID s) p now;
  Ok (sm_Manifest s).

Fixpoint boolSet_loop (last : string) (acc : gmap string bool) (l : list string) : gmap string bool :=
  match l with
  | [] => acc
  | v :: l =>
    if bool_decide (v = "") || str_le v last then ∅ else boolSet_loop v (<[v := true]> acc) l
  end.
Definition boolSet (values : strings) : gmap string bool := boolSet_loop "" ∅ (elems values).

(** The public keys of a trust document. *)
Fixpoint decode_keys (l : list (string * string)) : result LaunchError (gmap string string) :=
  match l with
  | [] => Ok ∅
  | (keyID, encoded) :: l =>
    match StdDecode encoded with
    | Some key =>
      if String.length key =? PublicKeySize
      then let! m := decode_keys l in Ok (<[keyID := key]> m)
      else Err (fail ErrTrust)
    | None => Err (fail ErrTrust)
    end
  end.

Definition LoadTrustDocument (data : string) : result LaunchError TrustPolicy :=
  try! scanned data;
  match decode data with
  | None => Err (fail ErrTrust)
  | Some d =>
    try! err_if (negb (bool_decide (encode d = data))) (fail ErrCanonical) None;
    let! keys := decode_keys (range_map 2 (default ∅ (td_Keys d))) in
    let policy :=
      {| AllowedSigningKeys := keys; AllowedVersions := boolSet (td_Versions d);
         AllowedRuntimeIDs := boolSet (td_RuntimeIDs d); AllowedRoles := boolSet (td_Roles d);
         KeyVersions := default ∅ <$> default ∅ (td_KeyVersions d) |} in
    try! ValidateTrustPolicy policy;
    Ok policy
  end.

(** * Renewal *)

Definition hour : Z := 3600 * second.
Definition MaxRenewalAge : Z := 168 * hour.
Definition MaxManifestTTL : Z := 900 * second.

(** The manifest with another validity window. *)
Definition with_window (issued expires : Z) (m : Manifest) : Manifest :=
  {| m_Version := m_Version m; m_RuntimeID := m_RuntimeID m; m_Role := m_Role m;
     m_Generation := m_Generation m; m_IssuedAt := issued; m_ExpiresAt := expires;
     m_Nonce := m_Nonce m; m_Services := m_Services m; m_Digests := m_Digests m |}.

Definition AuthorityBytes (m : Manifest) : result LaunchError string :=
  canonicalBytesUnchecked (with_window 0 0 m).
Definition AuthorityDigest (m : Manifest) : result LaunchError string :=
  try! Validate m;
  let! b := AuthorityBytes m in Ok (sha256 b).

Definition RenewManifest (base : Manifest) (now : time) (ttl : Z) : result LaunchError Manifest :=
  try! Validate base;
  try! err_if ((ttl <? second) || (MaxManifestTTL <? ttl))%Z (fail ErrTTL) None;
  let renewed := with_window (unix now) (unix (now + ttl)%Z) base in
  try! Validate renewed;
  Ok renewed.

Definition AcceptRenewal (current candidate : Manifest) (now : time) : option LaunchError :=
  err_seq (ValidateAt candidate now) (
  match AuthorityDigest current with
  | Err e => Some e
  | Ok want =>
    match AuthorityDigest candidate with
    | Err e => Some e
    | Ok got =>
      err_if (negb (bool_decide (got = want))) (fail ErrBinding) (
      err_if (m_ExpiresAt candidate <? m_ExpiresAt current)%Z (fail ErrReplay) None)
    end
  end).

(** [time.Unix(n, 0)]: the seconds since year 1 wrap at 64 bits. *)
Definition wrap64 (z : Z) : Z := ((z + 2 ^ 63) mod 2 ^ 64 - 2 ^ 63)%Z.
Definition time_of_unix (n : Z) : time := (wrap64 (n + unix_to_internal) * second)%Z.

Definition RenewSignedManifest (template : string) (p : TrustPolicy) (private : string) (now : time)
    (ttl maxAge : Z) : result LaunchError string :=
  try! err_if ((maxAge <=? 0)%Z || (MaxRenewalAge <? maxAge)%Z ||
               negb (String.length private =? PrivateKeySize)) (fail ErrInvalidInput) None;
  let! s := ParseSignedManifest template in
  let! signature := decode_signature (sm_Signature s) in
  try! verifyManifestTrust (sm_Manifest s) signature (sm_KeyID s) p;
  try! err_if (negb (bool_decide (ed_public private = default "" (AllowedSigningKeys p !! sm_KeyID s))))
         (fail ErrSignature) None;
  let issued := time_of_unix (m_IssuedAt (sm_Manifest s)) in
  try! err_if (now <? issued)%Z (fail ErrNotYetValid) None;
  try! err_if (maxAge <? time_sub now issued)%Z (fail ErrExpired) None;
  let! renewed := RenewManifest (sm_Manifest s) now ttl in
  SignManifest renewed (sm_KeyID s) private now.
End trust.
