(* ===== verification/LaunchProps.v ===== *)
(** Theorems on the launch manifest: what an accepted signed manifest guarantees, that
its canonical bytes determine it, that what is signed is accepted, and what a
renewal may change. *)

From S2P Require Import Prelude GoStrings Provider Digest GoEncoding Base64 Json LaunchError JsonScan LaunchTypes LaunchManifest.
#[local] Open Scope go_scope.

(** Unlike [injection], this leaves the two values as they are. *)
Lemma Ok_inj {E A} (x y : A) : @Ok E A x = Ok y → x = y.
Proof. congruence. Qed.

(** * Validation *)

Section validation.
Context {UC : UnicodeCase} {MR : MapRange} {SH : SHA256} {ED : Ed25519}.

Lemma Validate_window m :
  Validate m = None →
  (0 < m_IssuedAt m < m_ExpiresAt m ∧ m_ExpiresAt m - m_IssuedAt m ≤ MaxManifestTTLSeconds)%Z.
Proof. unfold Validate. intros H. inv_ok. split_bools. lia. Qed.
Lemma ValidateAt_inv m now :
  ValidateAt m now = None ↔ Validate m = None ∧ (m_IssuedAt m ≤ unix now < m_ExpiresAt m)%Z.
Proof.
  unfold ValidateAt. rewrite err_seq_None, !err_if_None, Z.ltb_ge, Z.leb_gt. naive_solver lia.
Qed.
Lemma Validate_services m s :
  Validate m = None → s ∈ elems (m_Services m) → validateServiceAuthority s = None.
Proof.
  unfold Validate. intros H Hs. inv_ok. split_bools.
  match goal with Hok : services_ok _ _ = true |- _ => revert Hok Hs end. clear. generalize "". induction (elems (m_Services m)) as [|x l IH]; [set_solver|].
  intros last. cbn. intros ?%andb_true_iff. destruct_and!. split_bools.
  intros [->|]%elem_of_cons; [done|eauto].
Qed.

(** What the key loop has checked of each key. *)
Definition key_ok (env : string_map) (k : ManifestKey) : Prop :=
  default ∅ env !! mk_Env k = None ∧ validKeyName (mk_Name k) = true ∧
  validEnvName (mk_Env k) = true ∧ validProviderVersion (mk_Version k) = true.

Lemma key_loop_spec env last seen keys :
  key_loop env last seen keys = None →
  NoDup (mk_Env <$> keys) ∧ ∀ k, k ∈ keys → mk_Env k ∉ seen ∧ key_ok env k.
Proof.
  revert last seen. induction keys as [|k keys IH]; intros last seen; cbn [key_loop].
  { intros _. split; [constructor|set_solver]. }
  intros H. inv_ok. split_bools.
  match goal with H : key_loop _ _ _ _ = None |- _ => apply IH in H as [Hnd Hk] end. split.
  - cbn. constructor; [|done]. intros (k' & E & Hk')%list_elem_of_fmap.
    apply Hk in Hk' as [Hk' _]. set_solver.
  - intros k' [->|Hk']%elem_of_cons; [|apply Hk in Hk'; set_solver].
    split; [done|]. unfold key_ok. by rewrite eq_None_not_Some.
Qed.

Lemma validateServiceAuthority_keys s :
  validateServiceAuthority s = None →
  NoDup (mk_Env <$> elems (sa_Keys s)) ∧
  ∀ k, k ∈ elems (sa_Keys s) → key_ok (sa_Environment s) k.
Proof.
  unfold validateServiceAuthority. intros H. inv_ok.
  match goal with H : key_loop _ _ _ _ = None |- _ => apply key_loop_spec in H as [Hnd Hk] end.
  split; [done|]. intros k Hin. by apply Hk.
Qed.
End validation.

(** * What validation guarantees of a service *)

Section services.
Context {UC : UnicodeCase} {MR : MapRange}.

Lemma str_le_true s t : str_le s t = true ↔ String.le s t.
Proof. unfold str_le, String.le. by rewrite Is_true_true. Qed.
Lemma str_le_refl s : str_le s s = true.
Proof. by apply str_le_true. Qed.
Lemma str_le_false_trans s t u : str_le t s = false → str_le u t = false → str_le u s = false.
Proof.
  rewrite <-!not_true_iff_false, !str_le_true. intros H1 H2 H3. apply H2.
  etrans; [exact H3|]. by destruct (total String.le s t).
Qed.

Lemma services_ok_names last l :
  services_ok last l = true → ∀ s, s ∈ l → str_le (sa_Name s) last = false ∧
    List.find (λ x, bool_decide (sa_Name x = sa_Name s)) l = Some s.
Proof.
  revert last. induction l as [|x l IH]; intros last; [set_solver|]. cbn [services_ok List.find].
  intros H s Hs. split_bools. apply elem_of_cons in Hs as [->|Hs].
  - split; [done|]. by rewrite bool_decide_eq_true_2.
  - destruct (IH (sa_Name x) ltac:(done) s Hs) as [Hlt Hf].
    assert (Hne : sa_Name x ≠ sa_Name s).
    { intros E. rewrite E in Hlt. by rewrite str_le_refl in Hlt. }
    rewrite bool_decide_eq_false_2 by done. split; [|done].
    eapply str_le_false_trans; [|exact Hlt]. done.
Qed.

Lemma ParseInt_range t v : ParseInt t = Some v → (min_int64 ≤ v ≤ max_int64)%Z.
Proof.
  unfold ParseInt. destruct (match t with "" => _ | _ => _ end) as [neg body].
  destruct (parse_digits body) as [n|]; cbn [mbind option_bind]; [|done].
  destruct (_ && _) eqn:E; [|done]. intros [= <-]. split_bools. lia.
Qed.

(** The heartbeat window of an accepted service, in whole numbers. *)
Lemma validHealth_window h :
  (0 ≤ hs_HeartbeatIntervalMS h)%Z → validHealth h = None →
  (HeartbeatSafetyFactor * hs_HeartbeatIntervalMS h ≤ hs_HeartbeatTimeoutMS h ≤ MaxHeartbeatTimeoutMS)%Z.
Proof.
  unfold validHealth. intros H0 H. inv_ok. split_bools.
  unfold u32_mul, HeartbeatSafetyFactor, MaxHeartbeatTimeoutMS, MaxHeartbeatIntervalMS in *.
  match goal with H : context [(_ mod _)%Z] |- _ => rewrite Z.mod_small in H by lia end. lia.
Qed.

(** In a valid manifest every service is the one its name selects, no two of its
secrets are delivered under one environment name, none under a name its public
environment already has, every version is a positive decimal 64-bit number in
canonical form, and the heartbeat deadline is at least three intervals and at most
fifteen minutes, the product computed without overflow. *)
Theorem validated_service m s
    (Hv : Validate m = None) (Hs : s ∈ elems (m_Services m))
    (Hu : (0 ≤ hs_HeartbeatIntervalMS (sa_Health s))%Z) :
  Service m (sa_Name s) = Some s ∧
  NoDup (mk_Env <$> elems (sa_Keys s)) ∧
  (∀ k, k ∈ elems (sa_Keys s) →
    default ∅ (sa_Environment s) !! mk_Env k = None ∧
    ∃ v, (0 < v ≤ max_int64)%Z ∧ mk_Version k = itoa v) ∧
  (let h := sa_Health s in
   (3 * hs_HeartbeatIntervalMS h ≤ hs_HeartbeatTimeoutMS h ≤ MaxHeartbeatTimeoutMS)%Z).
Proof.
  pose proof (Validate_services _ _ Hv Hs) as Hsv.
  destruct (validateServiceAuthority_keys _ Hsv) as [Hnd Hk]. split.
  - unfold Validate in Hv. inv_ok. split_bools. unfold Service, find_service.
    match goal with H : services_ok _ _ = true |- _ => by apply (services_ok_names _ _ H) end.
  - split; [done|]. split.
    + intros k Hin. destruct (Hk k Hin) as (? & _ & _ & Hver). split; [done|].
      unfold validProviderVersion in Hver. destruct (ParseInt (mk_Version k)) as [v|] eqn:E; [|done].
      split_bools. exists v. split; [|done]. apply ParseInt_range in E. lia.
    + apply validHealth_window; [done|]. unfold validateServiceAuthority in Hsv. by inv_ok.
Qed.

(** [equalStringMap] compares a missing key with the empty string, so the environments of
a service and of its child may differ: here the child's own environment has an empty
entry under the very name the service's secret is delivered under. *)
Lemma child_environment_may_differ :
  ∃ s k, validateServiceAuthority (UC := ascii_case) (MR := sorted_range) s = None ∧ k ∈ elems (sa_Keys s) ∧
    ch_Environment (sa_Child s) ≠ sa_Environment s ∧
    default ∅ (ch_Environment (sa_Child s)) !! mk_Env k = Some "".
Proof.
  set (digest := "sha256:0000000000000000000000000000000000000000000000000000000000000000").
  set (k := mkKey "APP_TOKEN" "1" "APP_TOKEN").
  exists (mkService "api" ("img@" +:+ digest) "u" (Some ["helper"]) (Some {["A" := ""]}) None None "no" true
    (mkHealth (Some ["true"]) 1 1 1 1 3) None (Some [k]) digest
    (mkChild (Some ["run"]) "u" (Some {["APP_TOKEN" := ""]}))), k.
  split; [vm_compute; reflexivity|]. split; [by left|]. split; [|vm_compute; reflexivity].
  intros E. apply (f_equal (λ m, default ∅ m !! "A")) in E. vm_compute in E. discriminate E.
Qed.
End services.

(** * Verification *)

Section verification.
Context {UC : UnicodeCase} {MR : MapRange} {SH : SHA256} {ED : Ed25519}.

(** What a trust policy admits, beyond the signature. *)
Definition trusted (p : TrustPolicy) (m : Manifest) : Prop :=
  allowed (AllowedVersions p) (m_Version m) = true ∧
  allowed (AllowedRuntimeIDs p) (m_RuntimeID m) = true ∧
  allowed (AllowedRoles p) (m_Role m) = true ∧
  ∀ s k, s ∈ elems (m_Services m) → k ∈ elems (sa_Keys s) →
    ∃ versions, KeyVersions p !! mk_Name k = Some versions ∧ allowed versions (mk_Version k) = true.

(** The keys of a service have strictly increasing names. *)
Lemma key_loop_names env last seen keys :
  key_loop env last seen keys = None →
  NoDup (mk_Name <$> keys) ∧ ∀ k, k ∈ keys → str_le (mk_Name k) last = false.
Proof.
  revert last seen. induction keys as [|k keys IH]; intros last seen; cbn [key_loop].
  { intros _. split; [constructor|]. intros k []%not_elem_of_nil. }
  intros H. inv_ok. split_bools.
  match goal with H : key_loop _ _ _ _ = None |- _ => apply IH in H as [Hnd Hle] end. split.
  - cbn. constructor; [|done]. intros (k' & E & Hk')%list_elem_of_fmap.
    apply Hle in Hk'. by rewrite E, str_le_refl in Hk'.
  - intros k' [->|Hk']%elem_of_cons; [done|]. eapply str_le_false_trans; [|by apply Hle]. done.
Qed.

Lemma check_key_versions_None p m :
  check_key_versions p m = None ↔
  ∀ s k, s ∈ elems (m_Services m) → k ∈ elems (sa_Keys s) →
    ∃ versions, KeyVersions p !! mk_Name k = Some versions ∧ allowed versions (mk_Version k) = true.
Proof.
  unfold check_key_versions. rewrite err_each_None. split.
  - intros H s k Hs Hk. specialize (H s Hs). rewrite err_each_None in H. specialize (H k Hk). cbn in H.
    destruct (KeyVersions p !! mk_Name k) as [versions|]; [|done]. exists versions.
    apply err_if_None in H as [H _]. by apply negb_false_iff in H.
  - intros H s Hs. apply err_each_None. intros k Hk. destruct (H s k Hs Hk) as (versions & -> & ->). done.
Qed.

Lemma verifyManifestTrust_None m signature keyID p :
  verifyManifestTrust m signature keyID p = None ↔
  ValidateTrustPolicy p = None ∧ trusted p m ∧
  ∃ public, AllowedSigningKeys p !! keyID = Some public ∧ String.length public = PublicKeySize ∧
    ed_verify public (encode m) signature = true.
Proof.
  unfold verifyManifestTrust, canonicalBytesUnchecked, trusted. rewrite err_seq_None.
  destruct (AllowedSigningKeys p !! keyID) as [public|]; [|naive_solver].
  rewrite !err_if_None, check_key_versions_None, !orb_false_iff, !negb_false_iff, Nat.eqb_eq.
  split; [intros (?&(?&?)&((?&?)&?)&?)|intros (?&(?&?&?&?)&?&[= <-]&?&?)]; [|done].
  split; [done|]. split; [done|]. by exists public.
Qed.

Context {JL : JsonLib} {DM : JsonDecode Manifest} {DS : JsonDecode SignedManifest}.

Lemma ParseManifest_Ok data m :
  ParseManifest data = Ok m →
  wf m ∧ data = encode m ∧ Validate m = None ∧ validateJSONObject data = Some (Ok ()).
Proof.
  unfold ParseManifest, scanned, canonicalBytesUnchecked. intros H. inv_ok.
  destruct (validateJSONObject data) as [[[]|]|] eqn:Es; try done.
  destruct (decode data) as [m'|] eqn:Ed; [|done]. inv_ok. split_bools.
  by apply decode_wf in Ed.
Qed.

Lemma ParseSignedManifest_Ok data s :
  ParseSignedManifest data = Ok s →
  wf s ∧ data = encode s ∧ Validate (sm_Manifest s) = None ∧ sm_KeyID s ≠ "" ∧ sm_Signature s ≠ "".
Proof.
  unfold ParseSignedManifest. intros H. inv_ok. destruct (decode data) as [s'|] eqn:Ed; [|done].
  apply decode_wf in Ed. unfold canonicalBytesUnchecked in *. inv_ok. split_bools.
  match goal with H : ParseManifest _ = _ |- _ => apply ParseManifest_Ok in H as (Hm & E & Hv & _) end.
  assert (sm_Manifest s = x) as -> by (apply encode_inj; [by destruct Ed|done|done]). done.
Qed.

Lemma decode_signature_Ok t b :
  decode_signature t = Ok b ↔ StdDecode t = Some b ∧ String.length b = SignatureSize.
Proof.
  unfold decode_signature. destruct (StdDecode t) as [b'|]; [|naive_solver].
  destruct (String.length b' =? SignatureSize) eqn:E.
  - apply Nat.eqb_eq in E. naive_solver.
  - apply Nat.eqb_neq in E. naive_solver.
Qed.

(** C12: A signed manifest that is accepted is exactly the canonical document of the
manifest returned: no other byte of the input carries meaning.  Its signature
verifies over the manifest's own canonical bytes under the key the policy lists for
its key ID; the clock is inside a validity window of at most fifteen minutes; and
the version, runtime, role and every (secret name, secret version) pair of every
service are admitted by the policy. *)
Theorem verified_manifest_authentic data p now m :
  VerifySignedManifest data p now = Ok m →
  wf m ∧ Validate m = None ∧ trusted p m ∧
  (m_IssuedAt m ≤ unix now < m_ExpiresAt m ∧ m_ExpiresAt m - m_IssuedAt m ≤ MaxManifestTTLSeconds)%Z ∧
  ∃ keyID sig signature public,
    data = encode (mkSigned m keyID sig) ∧ StdDecode sig = Some signature ∧
    AllowedSigningKeys p !! keyID = Some public ∧ ed_verify public (encode m) signature = true.
Proof.
  unfold VerifySignedManifest. intros H. inv_ok.
  match goal with H : ParseSignedManifest _ = _ |- _ =>
    apply ParseSignedManifest_Ok in H as ((Hm & _) & -> & Hv & _) end.
  match goal with H : decode_signature _ = _ |- _ => apply decode_signature_Ok in H as [Hsig _] end.
  match goal with H : VerifyManifest _ _ _ _ _ = _ |- _ =>
    unfold VerifyManifest, canonicalBytesUnchecked in H; apply err_seq_None in H as [Ha Ht] end.
  apply ValidateAt_inv in Ha as [_ Hw].
  apply verifyManifestTrust_None in Ht as (_ & Ht & public & Hpub & _ & Hver).
  pose proof (Validate_window _ Hv). do 3 (split; [done|]). split; [lia|].
  match goal with s : SignedManifest |- _ => destruct s as [m keyID sig] end.
  by exists keyID, sig; eexists _, public.
Qed.
End verification.

(** * Signing *)

(** What [encoding/json] writes of [x] it finds valid and reads back as [x]. *)
Definition reads_back {A} `{JsonLib, JsonDecode A} (x : A) : Prop :=
  json_valid (encode x) = true ∧ decode (encode x) = Some x.

Section signing.
Context {UC : UnicodeCase} {MR : MapRange} {SH : SHA256} {ED : Ed25519}.

(** The canonical bytes bind the whole authority: two manifests (of valid strings
and 64-bit integers) with the same canonical bytes are the same manifest, field by
field, service by service, down to nil and empty lists; so a signature over the
bytes is a signature over everything the manifest says. *)
Theorem canonical_manifest_inj (m1 m2 : Manifest) bytes :
  wf m1 → wf m2 → CanonicalBytes m1 = Ok bytes → CanonicalBytes m2 = Ok bytes → m1 = m2.
Proof.
  unfold CanonicalBytes, canonicalBytesUnchecked. intros H1 H2 [_ E1]%err_guard_Ok [_ E2]%err_guard_Ok.
  apply Ok_inj in E1, E2. apply encode_inj; [done..|]. by rewrite E1, E2.
Qed.

Context {JL : JsonLib} {DM : JsonDecode Manifest} {DS : JsonDecode SignedManifest}.

Lemma reads_back_scanned `{Json A, !JsonText A, !JsonDecode A} (x : A) t :
  wf x → reads_back x → encode x = String "{" t → scanned (encode x) = None.
Proof.
  intros Hx [Hv _] E. unfold scanned. pose proof (encode_text x Hx) as Ht.
  rewrite E in Ht, Hv |- *. by rewrite text_accepted.
Qed.
Lemma ParseManifest_encode (m : Manifest) :
  wf m → Validate m = None → reads_back m → ParseManifest (encode m) = Ok m.
Proof.
  intros Hm Hv Hr. unfold ParseManifest, canonicalBytesUnchecked.
  rewrite (reads_back_scanned m _ Hm Hr eq_refl). destruct Hr as [_ ->]. cbn [err_guard result_bind].
  rewrite bool_decide_eq_true_2 by done. cbn [negb err_if err_guard]. by rewrite Hv.
Qed.
Lemma ParseSignedManifest_encode (s : SignedManifest) :
  wf s → Validate (sm_Manifest s) = None → sm_KeyID s ≠ "" → sm_Signature s ≠ "" →
  reads_back s → reads_back (sm_Manifest s) → ParseSignedManifest (encode s) = Ok s.
Proof.
  intros Hs Hv Hk Hsig Hr Hrm. unfold ParseSignedManifest, canonicalBytesUnchecked.
  rewrite (reads_back_scanned s _ Hs Hr eq_refl). destruct Hr as [_ ->]. cbn [err_guard result_bind].
  rewrite bool_decide_eq_true_2 by done. cbn [negb err_if err_guard result_bind].
  rewrite ParseManifest_encode by (try done; by destruct Hs). cbn [result_bind].
  by rewrite !bool_decide_eq_false_2 by done.
Qed.

Lemma StdEncoding_nonempty s : s ≠ "" → StdEncoding s ≠ "".
Proof. destruct s as [|a [|b [|c s]]]; done. Qed.

Lemma decode_signature_encode b :
  String.length b = SignatureSize → decode_signature (StdEncoding b) = Ok b.
Proof. intros Hb. apply decode_signature_Ok. by rewrite StdDecode_encode. Qed.

(** The signed document [SignManifest] writes. *)
Definition signed_by (private keyID : string) (m : Manifest) : SignedManifest :=
  mkSigned m keyID (StdEncoding (ed_sign private (encode m))).

Lemma signed_by_wf private keyID (m : Manifest) : wf m → valid_utf8 keyID = true → wf (signed_by private keyID m).
Proof.
  intros Hm Hk. split; [done|]. split; [done|]. apply ascii_valid_utf8, base64_ascii.
Qed.

(** Verifying what was signed comes down to the policy and the signature. *)
Lemma signed_checked (m : Manifest) keyID private p now :
  wf m → valid_utf8 keyID = true → keyID ≠ "" → Validate m = None →
  reads_back m → reads_back (signed_by private keyID m) → (m_IssuedAt m ≤ unix now < m_ExpiresAt m)%Z →
  VerifySignedManifest (encode (signed_by private keyID m)) p now =
    match verifyManifestTrust m (ed_sign private (encode m)) keyID p with Some e => Err e | None => Ok m end.
Proof.
  intros Hm Hk Hne Hv Hr Hrs Hw. unfold VerifySignedManifest.
  rewrite ParseSignedManifest_encode; [|by apply signed_by_wf|done..| |done|done].
  2: { apply StdEncoding_nonempty. intros E. pose proof (ed_sign_size private (encode m)) as Hs.
       by rewrite E in Hs. }
  cbn [result_bind sm_Signature signed_by]. rewrite decode_signature_encode by apply ed_sign_size.
  cbn [result_bind]. unfold signed_by. cbn [sm_Manifest sm_KeyID]. unfold VerifyManifest, canonicalBytesUnchecked.
  assert (ValidateAt m now = None) as -> by (by apply ValidateAt_inv). cbn [err_seq].
  by destruct (verifyManifestTrust _ _ _ _).
Qed.
Lemma signed_accepted (m : Manifest) keyID private p now :
  wf m → valid_utf8 keyID = true → keyID ≠ "" → key_pair private → Validate m = None →
  ValidateTrustPolicy p = None → trusted p m → AllowedSigningKeys p !! keyID = Some (ed_public private) →
  reads_back m → reads_back (signed_by private keyID m) → (m_IssuedAt m ≤ unix now < m_ExpiresAt m)%Z →
  VerifySignedManifest (encode (signed_by private keyID m)) p now = Ok m.
Proof.
  intros Hm Hk Hne Hpair Hv Hp Ht Hpub Hr Hrs Hw. rewrite signed_checked by done.
  assert (verifyManifestTrust m (ed_sign private (encode m)) keyID p = None) as ->; [|done].
  apply verifyManifestTrust_None. split; [done|]. split; [done|]. exists (ed_public private).
  split; [done|]. split; [apply ed_public_size|by apply ed_correct].
Qed.
Lemma signed_refused (m : Manifest) keyID private p now :
  wf m → valid_utf8 keyID = true → keyID ≠ "" → Validate m = None →
  ed_verify (ed_public private) (encode m) (ed_sign private (encode m)) = false →
  AllowedSigningKeys p !! keyID = Some (ed_public private) →
  reads_back m → reads_back (signed_by private keyID m) → (m_IssuedAt m ≤ unix now < m_ExpiresAt m)%Z →
  ∃ e, VerifySignedManifest (encode (signed_by private keyID m)) p now = Err e.
Proof.
  intros Hm Hk Hne Hv Hver Hpub Hr Hrs Hw. rewrite signed_checked by done.
  destruct (verifyManifestTrust _ _ _ _) as [e|] eqn:E; [by exists e|].
  apply verifyManifestTrust_None in E as (_ & _ & public & Hpub' & _ & Hver'). congruence.
Qed.

(** C13: What is signed is accepted: for a valid manifest inside its window and a key the
policy trusts, [SignManifest] succeeds, and the document it writes is verified to
the same manifest at every moment of the validity window, whatever the moment of
signing was. *)
Theorem sign_verify_roundtrip (m : Manifest) keyID private p now
    (Hm : wf m) (Hk : valid_utf8 keyID = true) (Hne : keyID ≠ "")
    (Hpair : key_pair private) (Hnow : ValidateAt m now = None)
    (Hp : ValidateTrustPolicy p = None) (Ht : trusted p m)
    (Hpub : AllowedSigningKeys p !! keyID = Some (ed_public private))
    (Hr : reads_back m) (Hrs : reads_back (signed_by private keyID m)) :
  ∃ data, SignManifest m keyID private now = Ok data ∧
  ∀ now', (m_IssuedAt m ≤ unix now' < m_ExpiresAt m)%Z → VerifySignedManifest data p now' = Ok m.
Proof.
  exists (encode (signed_by private keyID m)). apply ValidateAt_inv in Hnow as Hv. split.
  - unfold SignManifest. rewrite key_pair_size, bool_decide_eq_false_2 by done. cbn [err_if err_guard].
    by rewrite Hnow.
  - intros now' Hw. by apply signed_accepted; try apply Hv.
Qed.
End signing.

(** * Renewal *)

Section renewal.
Context {UC : UnicodeCase} {MR : MapRange} {SH : SHA256} {ED : Ed25519}.

Lemma with_window_wf a b (m : Manifest) :
  (- 2 ^ 63 ≤ a < 2 ^ 64)%Z → (- 2 ^ 63 ≤ b < 2 ^ 64)%Z → wf m → wf (with_window a b m).
Proof. intros Ha Hb (?&?&?&?&?&?&?&?&?). repeat (split; [done|]). done. Qed.

(** Equal authorities differ in the window only. *)
Lemma authority_inj (m1 m2 : Manifest) :
  wf m1 → wf m2 → AuthorityBytes m1 = AuthorityBytes m2 →
  m2 = with_window (m_IssuedAt m2) (m_ExpiresAt m2) m1.
Proof.
  unfold AuthorityBytes, canonicalBytesUnchecked. intros H1 H2 E%Ok_inj.
  apply encode_inj in E; [|by apply with_window_wf; [lia..|]|by apply with_window_wf; [lia..|]].
  destruct m1, m2. unfold with_window in *. cbn in *. congruence.
Qed.
Lemma authority_window a b m : AuthorityBytes (with_window a b m) = AuthorityBytes m.
Proof. done. Qed.

(** SHA-256 does not collide on the two authorities. *)
Definition authorities_distinguished (m1 m2 : Manifest) : Prop :=
  sha256 (encode (with_window 0 0 m1)) = sha256 (encode (with_window 0 0 m2)) →
  encode (with_window 0 0 m1) = encode (with_window 0 0 m2).

Lemma AuthorityDigest_Ok m d :
  AuthorityDigest m = Ok d ↔ Validate m = None ∧ d = sha256 (encode (with_window 0 0 m)).
Proof.
  unfold AuthorityDigest, AuthorityBytes, canonicalBytesUnchecked. rewrite err_guard_Ok.
  cbn [result_bind]. naive_solver.
Qed.
Lemma AuthorityDigest_valid m :
  Validate m = None → AuthorityDigest m = Ok (sha256 (encode (with_window 0 0 m))).
Proof. intros Hv. by apply AuthorityDigest_Ok. Qed.

Lemma AcceptRenewal_window (current candidate : Manifest) now :
  wf current → wf candidate → authorities_distinguished current candidate →
  AcceptRenewal current candidate now = None →
  ValidateAt candidate now = None ∧ Validate current = None ∧
  candidate = with_window (m_IssuedAt candidate) (m_ExpiresAt candidate) current ∧
  (m_ExpiresAt current ≤ m_ExpiresAt candidate)%Z.
Proof.
  intros Hc Hd Hh. unfold AcceptRenewal. rewrite err_seq_None.
  intros [Ha H]. split; [done|]. destruct (AuthorityDigest current) as [want|] eqn:E1; [|done].
  destruct (AuthorityDigest candidate) as [got|] eqn:E2; [|done].
  apply AuthorityDigest_Ok in E1 as [Hv ->], E2 as [Hv2 ->]. split; [done|].
  rewrite !err_if_None, negb_false_iff, bool_decide_eq_true, Z.ltb_ge in H. destruct H as (E & Hexp & _).
  split; [|done]. apply authority_inj; [done..|]. unfold AuthorityBytes, canonicalBytesUnchecked.
  f_equal. by apply Hh.
Qed.

(** A running launch replaces its manifest by exactly the renewals of its own
authority: a candidate is accepted if and only if it is live now, both manifests are
valid, it is the current manifest in everything but the validity window, and it does
not end earlier. *)
Theorem accept_renewal_exact (current candidate : Manifest) now
    (Hc : wf current) (Hd : wf candidate) (Hh : authorities_distinguished current candidate) :
  AcceptRenewal current candidate now = None ↔
  ValidateAt candidate now = None ∧ Validate current = None ∧
  candidate = with_window (m_IssuedAt candidate) (m_ExpiresAt candidate) current ∧
  (m_ExpiresAt current ≤ m_ExpiresAt candidate)%Z.
Proof.
  split; [by apply AcceptRenewal_window|].
  intros (Ha & Hv & E & Hexp). unfold AcceptRenewal. rewrite err_seq_None. split; [done|]. pose proof (proj1 (proj1 (ValidateAt_inv _ _) Ha)) as Hv2.
  rewrite !AuthorityDigest_valid by done. rewrite E. cbn [with_window m_Version m_RuntimeID m_Role
      m_Generation m_Nonce m_Services m_Digests m_ExpiresAt].
    rewrite bool_decide_eq_true_2 by done. cbn [negb err_if]. apply Z.ltb_ge in Hexp. by rewrite Hexp.
Qed.

Context {JL : JsonLib} {DM : JsonDecode Manifest} {DS : JsonDecode SignedManifest}.

Lemma SignManifest_Ok m keyID private now data :
  SignManifest m keyID private now = Ok data →
  ValidateAt m now = None ∧ data = encode (signed_by private keyID m).
Proof.
  unfold SignManifest, canonicalBytesUnchecked, signed_by. rewrite !err_guard_Ok. cbn [result_bind].
  intros (_ & ? & E%Ok_inj). done.
Qed.
Lemma RenewManifest_Ok base now ttl m :
  RenewManifest base now ttl = Ok m →
  Validate base = None ∧ Validate m = None ∧ (second ≤ ttl ≤ MaxManifestTTL)%Z ∧
  m = with_window (unix now) (unix (now + ttl)%Z) base.
Proof.
  unfold RenewManifest. rewrite !err_guard_Ok, err_if_None, orb_false_iff, !Z.ltb_ge.
  intros (? & (? & _) & ? & E). injection E as <-. done.
Qed.

(** C14: Renewing extends a launch and changes nothing else: the output is the template's
own authority under a window that starts now and lasts at most fifteen minutes, signed
by a private key whose public half the policy lists for the template's key ID and
under which the template itself was verified; and a template older than [maxAge], at
most one week, is never renewed. *)
Theorem renewal_keeps_authority template p private now ttl maxAge data :
  RenewSignedManifest template p private now ttl maxAge = Ok data →
  ∃ s signature,
    template = encode s ∧ wf s ∧ trusted p (sm_Manifest s) ∧
    StdDecode (sm_Signature s) = Some signature ∧
    AllowedSigningKeys p !! sm_KeyID s = Some (ed_public private) ∧
    ed_verify (ed_public private) (encode (sm_Manifest s)) signature = true ∧
    (let issued := time_of_unix (m_IssuedAt (sm_Manifest s)) in
     (issued ≤ now ∧ time_sub now issued ≤ maxAge ≤ MaxRenewalAge)%Z) ∧
    let renewed := with_window (unix now) (unix (now + ttl)%Z) (sm_Manifest s) in
    data = encode (signed_by private (sm_KeyID s) renewed) ∧ ValidateAt renewed now = None ∧
    trusted p renewed ∧ AuthorityBytes renewed = AuthorityBytes (sm_Manifest s) ∧
    (m_ExpiresAt renewed - m_IssuedAt renewed ≤ MaxManifestTTLSeconds)%Z.
Proof.
  unfold RenewSignedManifest. rewrite err_guard_Ok, err_if_None, !orb_false_iff, Z.ltb_ge.
  intros [(((_ & Hmax) & _) & _) H]. apply result_bind_Ok in H as (s & Hs & H).
  apply result_bind_Ok in H as (signature & Hsig & H). rewrite !err_guard_Ok in H.
  destruct H as (Htrust & Hkey & Hbefore & Hage & H). apply result_bind_Ok in H as (m & Hm & Hsign).
  apply ParseSignedManifest_Ok in Hs as (Hwf & -> & _). apply decode_signature_Ok in Hsig as [Hsig _].
  apply verifyManifestTrust_None in Htrust as (_ & Ht & public & Hpub & _ & Hver).
  rewrite Hpub, err_if_None, negb_false_iff, bool_decide_eq_true in Hkey.
  destruct Hkey as [Hkey _]. change (ed_public private = public) in Hkey. subst public. apply err_if_None in Hbefore as [Hbefore%Z.ltb_ge _].
  apply err_if_None in Hage as [Hage%Z.ltb_ge _].
  apply RenewManifest_Ok in Hm as (_ & Hv & _ & ->). apply SignManifest_Ok in Hsign as [Ha ->].
  exists s, signature. do 6 (split; [done|]). split; [done|].
  do 4 (split; [done|]). by apply Validate_window.
Qed.
End renewal.
