(* ===== verification/LaunchFixture.v ===== *)
(** A concrete launch, after the fixtures of src/internal/secretlaunch/test_helpers_test.go,
and the witnesses of the launch theorems: their hypotheses hold of it. *)

From S2P Require Import Prelude GoStrings Provider Digest GoEncoding Base64 Json LaunchError JsonScan LaunchTypes LaunchManifest LaunchProps.
#[local] Open Scope go_scope.

Fixpoint repeat_str (n : nat) (c : ascii) : string :=
  match n with O => "" | S n => String c (repeat_str n c) end.
Definition digestFixture (c : ascii) : string := "sha256:" +:+ repeat_str 64 c.

Definition fixture_service : ServiceAuthority := {|
  sa_Name := "api"; sa_Image := "registry.example/api@sha256:" +:+ repeat_str 64 "1";
  sa_User := "1000:1000";
  sa_Argv := Some ["/usr/local/bin/skret-secret-helper"; "--runtime"; "docker-prod"; "--service"; "api"];
  sa_Environment := Some {["LOG_LEVEL" := "info"]};
  sa_Labels := Some {["com.example.component" := "api"]};
  sa_Networks := Some ["backend"]; sa_Restart := "no"; sa_OpenStdin := true;
  sa_Health := {| hs_Command := Some ["/bin/true"]; hs_IntervalMS := 30000; hs_TimeoutMS := 5000;
                  hs_Retries := 1; hs_HeartbeatIntervalMS := 1000; hs_HeartbeatTimeoutMS := 5000 |};
  sa_Dependencies := Some [];
  sa_Keys := Some [{| mk_Name := "APP_TOKEN"; mk_Version := "1"; mk_Env := "APP_TOKEN" |}];
  sa_WrapperDigest := digestFixture "c";
  sa_Child := {| ch_Argv := Some ["/bin/echo"; "ready"]; ch_User := "current";
                 ch_Environment := Some {["LOG_LEVEL" := "info"]} |} |}.

Definition fixture_unix : Z := 1700000000.
Definition fixture_now : time := time_of_unix fixture_unix.

Definition fixture_manifest : Manifest := {|
  m_Version := ManifestVersion; m_RuntimeID := "docker-prod"; m_Role := "prod-api"; m_Generation := 7;
  m_IssuedAt := fixture_unix - 60; m_ExpiresAt := fixture_unix + 600; m_Nonce := "nonce-1234567890";
  m_Services := Some [fixture_service];
  m_Digests := {| ad_Helper := digestFixture "a"; ad_Supervisor := digestFixture "b";
                  ad_Compose := digestFixture "d" |} |}.

Definition fixture_private : string := zeros 64.
Definition fixture_policy : TrustPolicy := {|
  AllowedSigningKeys := {["fixture-key" := ed_public fixture_private]};
  AllowedVersions := {[ManifestVersion := true]}; AllowedRuntimeIDs := {["docker-prod" := true]};
  AllowedRoles := {["prod-api" := true]};
  KeyVersions := {["APP_TOKEN" := {["1" := true]}]} |}.

Definition fixture_signed : SignedManifest := signed_by fixture_private "fixture-key" fixture_manifest.
Definition fixture_data : string := encode fixture_signed.

(** Well-formedness of a concrete document, by computation. *)
Ltac by_wf :=
  repeat match goal with
  | |- wf _ => hnf
  | |- _ ∧ _ => split
  | |- True => exact I
  | |- _ = true => vm_compute; reflexivity
  | |- (_ ≤ _)%Z => vm_compute; discriminate
  | |- (_ < _)%Z => vm_compute; reflexivity
  | |- Forall _ (entries ?m) =>
    let l := eval vm_compute in (entries m) in
    let E := fresh in assert (E : entries m = l) by (vm_compute; reflexivity); rewrite E; clear E; repeat constructor
  | |- Forall _ ?l => let l' := eval hnf in l in change l with l'; constructor
  end.

Lemma fixture_wf : wf fixture_manifest.
Proof. by_wf. Qed.
Lemma fixture_signed_wf : wf fixture_signed.
Proof. by_wf. Qed.

(** A decoder that knows a list of documents. *)
Program Definition decoder_of {A} `{Json A} (l : list A) (Hl : Forall wf l) : JsonDecode A :=
  {| decode d := List.find (λ x, bool_decide (encode x = d)) l |}.
Next Obligation.
  intros A ? l Hl d x E. apply find_some in E as [E _]. rewrite Forall_forall in Hl.
  apply Hl. by apply list_elem_of_In.
Qed.
Lemma fixtures_wf : Forall wf [fixture_manifest].
Proof. constructor; [apply fixture_wf|constructor]. Qed.
Lemma signed_fixtures_wf : Forall wf [fixture_signed].
Proof. constructor; [apply fixture_signed_wf|constructor]. Qed.
#[export] Instance fixture_decoder : JsonDecode Manifest := decoder_of _ fixtures_wf.
#[export] Instance fixture_signed_decoder : JsonDecode SignedManifest := decoder_of _ signed_fixtures_wf.
#[export] Existing Instance toy_sha.

Lemma fixture_valid : Validate fixture_manifest = None.
Proof. vm_compute. reflexivity. Qed.

Lemma verified_manifest_authentic_witness :
  VerifySignedManifest fixture_data fixture_policy fixture_now = Ok fixture_manifest ∧
  trusted fixture_policy fixture_manifest.
Proof.
  assert (H : VerifySignedManifest fixture_data fixture_policy fixture_now = Ok fixture_manifest)
    by (vm_compute; reflexivity).
  split; [exact H|]. exact (proj1 (proj2 (proj2 (verified_manifest_authentic _ _ _ _ H)))).
Defined.

Lemma canonical_manifest_inj_witness :
  ∃ bytes, CanonicalBytes fixture_manifest = Ok bytes ∧ fixture_manifest = fixture_manifest.
Proof.
  exists (encode fixture_manifest).
  assert (H : CanonicalBytes fixture_manifest = Ok (encode fixture_manifest)) by (vm_compute; reflexivity).
  split; [exact H|]. exact (canonical_manifest_inj _ _ _ fixture_wf fixture_wf H H).
Defined.

Lemma fixture_trusted : trusted fixture_policy fixture_manifest.
Proof.
  repeat (split; [reflexivity|]). apply check_key_versions_None. vm_compute. reflexivity.
Qed.

Lemma fixture_pair : key_pair fixture_private.
Proof. exists (zeros 32). split; vm_compute; reflexivity. Qed.
Lemma sign_verify_roundtrip_witness :
  ∃ data, SignManifest fixture_manifest "fixture-key" fixture_private fixture_now = Ok data ∧
    VerifySignedManifest data fixture_policy (fixture_now + 60 * second) = Ok fixture_manifest.
Proof.
  destruct (sign_verify_roundtrip fixture_manifest "fixture-key" fixture_private fixture_policy
    fixture_now fixture_wf eq_refl) as (data & Hs & Hv);
    [discriminate|exact fixture_pair|vm_compute; reflexivity|vm_compute; reflexivity|apply fixture_trusted
    |vm_compute; reflexivity|split; vm_compute; reflexivity|split; vm_compute; reflexivity|].
  exists data. split; [exact Hs|]. apply Hv. vm_compute. split; [discriminate|reflexivity].
Defined.

(** A renewal of the fixture, five minutes later. *)
Definition fixture_renewed : Manifest :=
  with_window (fixture_unix + 300) (fixture_unix + 1200) fixture_manifest.

Lemma accept_renewal_exact_witness :
  AcceptRenewal fixture_manifest fixture_renewed (fixture_now + 300 * second) = None.
Proof.
  apply accept_renewal_exact; [apply fixture_wf|by_wf|unfold authorities_distinguished; reflexivity|].
  split; [vm_compute; reflexivity|]. split; [apply fixture_valid|]. split; [reflexivity|].
  vm_compute. discriminate.
Defined.

Lemma renewal_keeps_authority_witness :
  ∃ data, RenewSignedManifest fixture_data fixture_policy fixture_private (fixture_now + 300 * second)
      (900 * second) (24 * hour) = Ok data ∧
    ∃ s : SignedManifest, fixture_data = encode s ∧
      data = encode (signed_by fixture_private (sm_KeyID s)
        (with_window (fixture_unix + 300) (fixture_unix + 1200) (sm_Manifest s))).
Proof.
  set (data := encode (signed_by fixture_private "fixture-key" fixture_renewed)).
  assert (H : RenewSignedManifest fixture_data fixture_policy fixture_private (fixture_now + 300 * second)
      (900 * second) (24 * hour) = Ok data) by (vm_compute; reflexivity).
  exists data. split; [exact H|].
  destruct (renewal_keeps_authority _ _ _ _ _ _ _ H) as (s & sig & Es & _ & _ & _ & _ & _ & _ & Ed & _).
  exists s. split; [exact Es|]. exact Ed.
Defined.

Lemma validated_service_witness :
  fixture_service ∈ elems (m_Services fixture_manifest) ∧
  Service fixture_manifest "api" = Some fixture_service.
Proof.
  assert (Hs : fixture_service ∈ elems (m_Services fixture_manifest)) by (by left).
  split; [exact Hs|].
  refine (proj1 (validated_service _ _ fixture_valid Hs _)). vm_compute. discriminate.
Defined.
