(* ===== verification/LaunchSession.v ===== *)
(** The secret channel between supervisor and helper (src/internal/secretlaunch/crypto.go):
the handshake and its key derivation, and sessions that seal and open numbered frames.

X25519, HMAC-SHA256 and AES-GCM are interfaces.  A session is explicit state; the
mutex makes each call one step, and the random source is the nonce it delivers. *)

From S2P Require Import Prelude GoStrings Provider Digest LaunchError LaunchManifest.
#[local] Open Scope go_scope.

(** HMAC-SHA256. *)
Class HMAC256 : Type := {
  hmac256 : string → string → string;
  hmac256_length k m : String.length (hmac256 k m) = 32;
}.
(** X25519: public keys of 32 bytes, and a shared point that may be refused. *)
Class X25519 : Type := {
  x_public : string → string;
  x_shared : string → string → option string;
  x_public_length sk : String.length (x_public sk) = 32;
  x_commutes a b : x_shared a (x_public b) = x_shared b (x_public a);
}.
(** AES-256-GCM: sixteen bytes of tag, and opening undoes sealing. *)
Class AEAD : Type := {
  aead_seal : string → string → string → string → string;
  aead_open : string → string → string → string → option string;
  aead_length k n p a : String.length (aead_seal k n p a) = String.length p + 16;
  aead_correct k n p a : aead_open k n (aead_seal k n p a) a = Some p;
}.

Definition len (s : string) : Z := Z.of_nat (String.length s).
Definition sub_str (off n : nat) (s : string) : string := str_take n (str_drop off s).

(** [binary.BigEndian] with [n] bytes. *)
Fixpoint put_be (n : nat) (z : Z) : string :=
  match n with
  | O => ""
  | S n => String (byte_of (z / 256 ^ Z.of_nat n mod 256)) (put_be n z)
  end.
Fixpoint get_be_go (acc : Z) (s : string) : Z :=
  match s with "" => acc | String c s => get_be_go (acc * 256 + code c) s end.
Definition get_be (s : string) : Z := get_be_go 0 s.

Definition MaxValueLength : Z := 1048576.
Definition MaxFrameLength : Z := MaxValueLength + 4096.
Definition uint64_max : Z := 18446744073709551615.
Definition messageSecret : Z := 1.
Definition messageHeartbeat : Z := 2.
Definition handshakeMagic : string := "SLH1".
Definition frameMagic : string := "SLP1".
Definition handshakeSize : nat := 36.
Definition frameHeaderSize : nat := 33.
Definition x25519PublicKeySize : nat := 32.

(** * Key derivation *)

Section derivation.
Context {HM : HMAC256}.

(** The loop of [hkdfSHA256]; the counter is a byte. *)
Fixpoint hkdf_loop (fuel : nat) (prk info : string) (length : nat) (counter : Z)
    (previous result : string) : string :=
  match fuel with
  | O => result
  | S fuel =>
    if String.length result <? length then
      let block := hmac256 prk (previous +:+ info +:+ str1 (byte_of counter)) in
      hkdf_loop fuel prk info length ((counter + 1) mod 256) block (result +:+ block)
    else result
  end.
Definition hkdfSHA256 (secret salt info : string) (length : nat) : string :=
  let prk := hmac256 salt secret in
  str_take length (hkdf_loop length prk info length 1 "" "").
End derivation.

Definition channel_info : string := "skret secret-launch v2".

(** * Handshake *)

Record Handshake := mkHandshake { h_private : option string; h_public : string }.

Section handshake.
Context {SH : SHA256} {HM : HMAC256} {X : X25519}.

(** [NewHandshake]: [key] is the private key the random source gives, if it does. *)
Definition NewHandshake (key : option string) : result LaunchError Handshake :=
  match key with
  | None => Err (fail ErrCrypto)
  | Some sk => Ok {| h_private := Some sk; h_public := x_public sk |}
  end.
Definition PublicKey (h : option Handshake) : string :=
  match h with None => "" | Some h => h_public h end.
Definition Derive (h : option Handshake) (peer manifestCanonical : string) : result LaunchError string :=
  match h with
  | Some {| h_private := Some sk |} =>
    if negb (String.length peer =? x25519PublicKeySize) || bool_decide (manifestCanonical = "")
    then Err (fail ErrCrypto)
    else
      match x_shared sk peer with
      | None => Err (fail ErrCrypto)
      | Some shared => Ok (hkdfSHA256 shared (sha256 manifestCanonical) channel_info 32)
      end
  | _ => Err (fail ErrCrypto)
  end.
Definition close_handshake (h : option Handshake) : option Handshake :=
  (λ _, {| h_private := None; h_public := "" |}) <$> h.

Definition EncodeHandshake (public : string) : result LaunchError string :=
  if negb (String.length public =? x25519PublicKeySize) then Err (fail ErrCrypto)
  else Ok (handshakeMagic +:+ public).
(** [ReadHandshake] from a reader that still has [input]: the key and what is left. *)
Definition ReadHandshake (input : option string) : result LaunchError (string * string) :=
  match input with
  | None => Err (fail ErrCrypto)
  | Some input =>
    if String.length input <? handshakeSize then Err (fail ErrCrypto)
    else
      let buffer := str_take handshakeSize input in
      if negb (bool_decide (str_take 4 buffer = handshakeMagic)) then Err (fail ErrCrypto)
      else Ok (str_drop 4 buffer, str_drop handshakeSize input)
  end.
End handshake.

(** * Sessions *)

Record Frame := mkFrame {
  f_Kind : Z; f_Sequence : Z; f_Key : string; f_Version : string; f_Value : string }.
Record Session := mkSession { s_key : string; s_aad : string; s_send : Z; s_received : Z }.

Definition validateFrameFields (key version value : string) : option LaunchError :=
  err_if (bool_decide (key = "") || (MaxKeyLength <? String.length key) ||
          bool_decide (version = "") || (MaxKeyLength <? String.length version)) (fail ErrFrame) (
  err_if (MaxValueLength <? len value)%Z (fail ErrFrame) (
  err_if (existsb (λ v, existsb blank_rune (runes v)) [key; version]) (fail ErrFrame) None)).

Definition makeAAD (manifestAAD header key version : string) : string :=
  manifestAAD +:+ header +:+ key +:+ version.

(** The 33 header bytes. *)
Definition frame_header (kind sequence : Z) (nonce : string) (key version : string)
    (ciphertextLength : Z) : string :=
  frameMagic +:+ str1 (byte_of kind) +:+ put_be 8 sequence +:+ nonce +:+
  put_be 2 (len key) +:+ put_be 2 (len version) +:+ put_be 4 ciphertextLength.

Section session.
Context {SH : SHA256} {HM : HMAC256} {AE : AEAD}.

Definition NewSession (shared manifestCanonical : string) : result LaunchError Session :=
  if negb (String.length shared =? 32) || bool_decide (manifestCanonical = "") then Err (fail ErrCrypto)
  else
    let digest := sha256 manifestCanonical in
    Ok {| s_key := hkdfSHA256 shared digest channel_info 32; s_aad := digest;
          s_send := 0; s_received := 0 |}.

(** [Close] keeps the send counter. *)
Definition close_session (s : Session) : Session :=
  {| s_key := ""; s_aad := ""; s_send := s_send s; s_received := 0 |}.

(** [seal]: [nonce] is what the random source delivers, if it does. *)
Definition seal (s : Session) (kind : Z) (key version value : string) (nonce : option string)
    : result LaunchError string * Session :=
  let refuse c := (Err (fail c), s) in
  if negb (String.length (s_key s) =? 32) then refuse ErrFrame
  else if negb (kind =? messageSecret)%Z && negb (kind =? messageHeartbeat)%Z then refuse ErrFrame
  else if (kind =? messageSecret)%Z &&
          (bool_decide (key = "") || bool_decide (validateFrameFields key version value ≠ None))
  then refuse ErrFrame
  else if (kind =? messageHeartbeat)%Z &&
          (negb (bool_decide (key = "")) || negb (bool_decide (version = "")) ||
           negb (bool_decide (value = "")))
  then refuse ErrFrame
  else if (s_send s =? uint64_max)%Z then refuse ErrFrame
  else
    let sequence := (s_send s + 1)%Z in
    match nonce with
    | None => refuse ErrCrypto
    | Some nonce =>
      let ciphertextLength := (len value + 16)%Z in
      if (MaxValueLength + 16 <? ciphertextLength)%Z then refuse ErrFrame
      else if (MaxKeyLength <? String.length key) || (MaxKeyLength <? String.length version)
      then refuse ErrFrame
      else
        let header := frame_header kind sequence nonce key version ciphertextLength in
        let sealed := aead_seal (s_key s) nonce value (makeAAD (s_aad s) header key version) in
        (Ok (header +:+ key +:+ version +:+ sealed),
         {| s_key := s_key s; s_aad := s_aad s; s_send := sequence; s_received := s_received s |})
    end.

Definition Seal (s : Session) (f : Frame) (nonce : option string) : result LaunchError string * Session :=
  if negb (f_Kind f =? messageSecret)%Z || bool_decide (f_Key f = "") then (Err (fail ErrFrame), s)
  else
    match validateFrameFields (f_Key f) (f_Version f) (f_Value f) with
    | Some e => (Err e, s)
    | None => seal s messageSecret (f_Key f) (f_Version f) (f_Value f) nonce
    end.
Definition SealHeartbeat (s : Session) (nonce : option string) : result LaunchError string * Session :=
  seal s messageHeartbeat "" "" "" nonce.

(** [Open]: the checks in the code's order, then the decryption. *)
Definition open_frame (s : Session) (wire : string) : result LaunchError Frame :=
  let refuse c := Err (fail c) in
  if (String.length wire <? frameHeaderSize) || (MaxFrameLength <? len wire)%Z then refuse ErrFrame
  else if negb (String.length (s_key s) =? 32) then refuse ErrFrame
  else
    let header := str_take frameHeaderSize wire in
    if negb (bool_decide (str_take 4 header = frameMagic)) then refuse ErrFrame
    else
      let kind := get_be (sub_str 4 1 header) in
      if negb (kind =? messageSecret)%Z && negb (kind =? messageHeartbeat)%Z then refuse ErrFrame
      else
        let sequence := get_be (sub_str 5 8 header) in
        if (sequence =? 0)%Z || (s_received s =? uint64_max)%Z || negb (sequence =? s_received s + 1)%Z
        then refuse ErrReplay
        else
          let keyLength := get_be (sub_str 25 2 header) in
          let versionLength := get_be (sub_str 27 2 header) in
          let ciphertextLength := get_be (sub_str 29 4 header) in
          let maxKey := Z.of_nat MaxKeyLength in
          if (maxKey <? keyLength)%Z || (maxKey <? versionLength)%Z || (ciphertextLength <? 16)%Z ||
             (MaxValueLength + 16 <? ciphertextLength)%Z
          then refuse ErrFrame
          else if negb (Z.of_nat frameHeaderSize + keyLength + versionLength + ciphertextLength =? len wire)%Z
          then refuse ErrFrame
          else
            let versionStart := frameHeaderSize + Z.to_nat keyLength in
            let key := sub_str frameHeaderSize (Z.to_nat keyLength) wire in
            let version := sub_str versionStart (Z.to_nat versionLength) wire in
            if (kind =? messageHeartbeat)%Z &&
               (negb (keyLength =? 0)%Z || negb (versionLength =? 0)%Z) then refuse ErrFrame
            else
              try! (if (kind =? messageSecret)%Z then validateFrameFields key version "" else None);
              let nonce := sub_str 13 12 header in
              let ciphertext := str_drop (versionStart + Z.to_nat versionLength) wire in
              match aead_open (s_key s) nonce ciphertext (makeAAD (s_aad s) header key version) with
              | None => refuse ErrCrypto
              | Some plain =>
                if (kind =? messageHeartbeat)%Z && negb (bool_decide (plain = "")) then refuse ErrFrame
                else Ok {| f_Kind := kind; f_Sequence := sequence; f_Key := key;
                           f_Version := version; f_Value := plain |}
              end.
Definition Open (s : Session) (wire : string) : result LaunchError Frame * Session :=
  match open_frame s wire with
  | Ok f => (Ok f, {| s_key := s_key s; s_aad := s_aad s; s_send := s_send s;
                      s_received := f_Sequence f |})
  | Err e => (Err e, s)
  end.
End session.
