(* ===== verification/LaunchSessionProps.v ===== *)
(** Theorems on the secret channel: both ends derive one key, what is sealed is opened
once and in order, no frame is accepted twice, and what is authenticated with a frame
determines all of it. *)

From S2P Require Import Prelude GoStrings Provider Digest LaunchError LaunchManifest LaunchSession.
#[local] Open Scope go_scope.

(** * Fixed-width fields *)

Lemma put_be_length n z : String.length (put_be n z) = n.
Proof. induction n; cbn; [done|]. by f_equal. Qed.
Lemma get_be_go_put n acc z :
  (0 ≤ z)%Z → get_be_go acc (put_be n z) = (acc * 256 ^ Z.of_nat n + z mod 256 ^ Z.of_nat n)%Z.
Proof.
  intros Hz. revert acc. induction n as [|n IH]; intros acc; cbn [put_be get_be_go].
  { change (256 ^ Z.of_nat 0)%Z with 1%Z. rewrite Z.mod_1_r. lia. }
  assert (Hp : (0 < 256 ^ Z.of_nat n)%Z) by (apply Z.pow_pos_nonneg; lia).
  rewrite IH, code_byte_of by (apply Z.mod_pos_bound; lia).
  rewrite Nat2Z.inj_succ, Z.pow_succ_r, (Z.mul_comm 256), Z.rem_mul_r by lia. lia.
Qed.
Lemma get_be_put n z : (0 ≤ z < 256 ^ Z.of_nat n)%Z → get_be (put_be n z) = z.
Proof. intros Hz. unfold get_be. rewrite get_be_go_put, Z.mod_small by lia. lia. Qed.
Lemma put_be_inj n x y :
  (0 ≤ x < 256 ^ Z.of_nat n)%Z → (0 ≤ y < 256 ^ Z.of_nat n)%Z → put_be n x = put_be n y → x = y.
Proof. intros Hx Hy E. rewrite <-(get_be_put n x), <-(get_be_put n y) by done. by rewrite E. Qed.

Lemma str_take_exact n s t : String.length s = n → str_take n (s +:+ t) = s.
Proof. intros <-. apply str_take_app. Qed.
Lemma str_drop_exact n s t : String.length s = n → str_drop n (s +:+ t) = t.
Proof. intros <-. apply str_drop_app. Qed.
(** Equal texts with heads of equal length agree on heads and tails. *)
Lemma str_app_split s1 s2 t1 t2 :
  String.length s1 = String.length s2 → s1 +:+ t1 = s2 +:+ t2 → s1 = s2 ∧ t1 = t2.
Proof.
  intros Hl E. split.
  - apply (f_equal (str_take (String.length s1))) in E. by rewrite str_take_app, Hl, str_take_app in E.
  - apply (f_equal (str_drop (String.length s1))) in E. by rewrite str_drop_app, Hl, str_drop_app in E.
Qed.
Lemma sub_str_skip off n s t : String.length s ≤ off → sub_str off n (s +:+ t) = sub_str (off - String.length s) n t.
Proof.
  unfold sub_str. intros H. f_equal. revert off H. induction s as [|c s IH]; intros off H; cbn in *.
  - by rewrite Nat.sub_0_r.
  - destruct off; [lia|]. rewrite str_cons_app. cbn. apply IH. lia.
Qed.
Lemma sub_str_here n s t : String.length s = n → sub_str 0 n (s +:+ t) = s.
Proof. apply str_take_exact. Qed.

(** * Key derivation *)

Section derivation.
Context {HM : HMAC256}.

Lemma hkdf_loop_length fuel prk info length counter previous result :
  length ≤ String.length result + 32 * fuel →
  length ≤ String.length (hkdf_loop fuel prk info length counter previous result).
Proof.
  revert counter previous result. induction fuel as [|fuel IH]; intros counter previous result H;
    cbn [hkdf_loop]; [lia|].
  destruct (Nat.ltb_spec (String.length result) length); [|done].
  apply IH. rewrite str_length_app, hmac256_length. lia.
Qed.
Lemma str_take_length n s : n ≤ String.length s → String.length (str_take n s) = n.
Proof.
  revert s. induction n as [|n IH]; intros [|c s] H; cbn in *; try lia. rewrite IH; lia.
Qed.
(** The derived key has the length asked for. *)
Lemma hkdf_length secret salt info length :
  String.length (hkdfSHA256 secret salt info length) = length.
Proof. unfold hkdfSHA256. apply str_take_length, hkdf_loop_length. cbn. lia. Qed.

Context {SH : SHA256} {X : X25519}.

(** Both ends of a handshake derive the same key, of 32 bytes, for the same launch
authority: what one sends with [EncodeHandshake] the other reads back with
[ReadHandshake], leaving the rest of the stream, and the two [Derive] calls agree,
also on refusing. *)
Theorem handshake_agreement ska skb manifest ha hb rest :
  NewHandshake (Some ska) = Ok ha → NewHandshake (Some skb) = Ok hb →
  (∃ wire, EncodeHandshake (PublicKey (Some ha)) = Ok wire ∧ String.length wire = handshakeSize ∧
     ReadHandshake (Some (wire +:+ rest)) = Ok (PublicKey (Some ha), rest)) ∧
  Derive (Some ha) (PublicKey (Some hb)) manifest = Derive (Some hb) (PublicKey (Some ha)) manifest ∧
  (∀ key, Derive (Some ha) (PublicKey (Some hb)) manifest = Ok key → String.length key = 32).
Proof.
  cbn [NewHandshake]. intros [= <-] [= <-]. cbn [PublicKey h_public]. split.
  - exists (handshakeMagic +:+ x_public ska). unfold EncodeHandshake, ReadHandshake.
    rewrite x_public_length. split; [done|].
    assert (Hw : String.length (handshakeMagic +:+ x_public ska) = handshakeSize)
      by (by rewrite str_length_app, x_public_length). split; [done|].
    rewrite str_length_app, Hw, (str_take_exact handshakeSize), (str_drop_exact handshakeSize) by done.
    replace (handshakeSize + String.length rest <? handshakeSize) with false
      by (symmetry; apply Nat.ltb_ge; lia).
    by rewrite (str_take_exact 4), (str_drop_exact 4) by done.
  - cbn [Derive]. rewrite !x_public_length, (x_commutes ska skb). split; [done|].
    intros key. destruct (_ || _); [done|]. destruct (x_shared _ _); [|done].
    intros [= <-]. apply hkdf_length.
Qed.
End derivation.

(** * Frames *)

Lemma code_get c : get_be (str1 c) = code c.
Proof. unfold get_be, str1. cbn [get_be_go]. lia. Qed.

Section header.
Context (kind sequence : Z) (nonce key version : string) (cl : Z).
Context (Hnonce : String.length nonce = 12).
Definition the_header : string := frame_header kind sequence nonce key version cl.

Lemma header_length : String.length the_header = frameHeaderSize.
Proof.
  unfold the_header, frame_header. rewrite !str_length_app, !put_be_length, Hnonce. done.
Qed.

(** Walks over the fields before the one read. *)
Ltac read_field :=
  unfold the_header, frame_header;
  repeat (rewrite sub_str_skip by (rewrite ?put_be_length, ?Hnonce; cbn; lia);
          rewrite ?put_be_length, ?Hnonce; cbn [String.length frameMagic str1 Nat.sub]);
  rewrite ?sub_str_here by (rewrite ?put_be_length, ?Hnonce; done).

Lemma header_magic : str_take 4 the_header = frameMagic.
Proof. by apply str_take_exact. Qed.
Lemma header_kind : sub_str 4 1 the_header = str1 (byte_of kind).
Proof. by read_field. Qed.
Lemma header_sequence : sub_str 5 8 the_header = put_be 8 sequence.
Proof. by read_field. Qed.
Lemma header_nonce : sub_str 13 12 the_header = nonce.
Proof. by read_field. Qed.
Lemma header_key : sub_str 25 2 the_header = put_be 2 (len key).
Proof. by read_field. Qed.
Lemma header_version : sub_str 27 2 the_header = put_be 2 (len version).
Proof. by read_field. Qed.
Lemma header_cl : sub_str 29 4 the_header = put_be 4 cl.
Proof. read_field. by rewrite <-(str_app_nil_r (put_be 4 cl)), sub_str_here by apply put_be_length. Qed.
End header.

(** * Sealing and opening *)

Section channel.
Context {SH : SHA256} {HM : HMAC256} {AE : AEAD}.

(** What a successful [seal] has checked and built. *)
Definition sealed_wire (s : Session) (kind : Z) (key version value nonce : string) : string :=
  let header := frame_header kind (s_send s + 1) nonce key version (len value + 16) in
  header +:+ key +:+ version +:+
  aead_seal (s_key s) nonce value (makeAAD (s_aad s) header key version).

Definition sealable (kind : Z) (key version value : string) : Prop :=
  (kind = messageSecret ∧ key ≠ "" ∧ validateFrameFields key version value = None) ∨
  (kind = messageHeartbeat ∧ key = "" ∧ version = "" ∧ value = "").

Definition sent (s : Session) : Session :=
  {| s_key := s_key s; s_aad := s_aad s; s_send := s_send s + 1; s_received := s_received s |}.

Lemma seal_Ok s kind key version value nonce wire s' :
  seal s kind key version value nonce = (Ok wire, s') →
  String.length (s_key s) = 32 ∧ sealable kind key version value ∧ s_send s ≠ uint64_max ∧
  (len value ≤ MaxValueLength)%Z ∧ String.length key ≤ MaxKeyLength ∧
  String.length version ≤ MaxKeyLength ∧
  ∃ n, nonce = Some n ∧ wire = sealed_wire s kind key version value n ∧ s' = sent s.
Proof.
  unfold seal. cbv zeta.
  destruct (negb (String.length (s_key s) =? 32)) eqn:E1; [done|].
  destruct (negb (kind =? messageSecret)%Z && _) eqn:E2; [done|].
  destruct ((kind =? messageSecret)%Z && _) eqn:E3; [done|].
  destruct ((kind =? messageHeartbeat)%Z && _) eqn:E4; [done|].
  destruct (s_send s =? uint64_max)%Z eqn:E5; [done|]. destruct nonce as [n|]; [|done].
  destruct (MaxValueLength + 16 <? len value + 16)%Z eqn:E6; [done|].
  destruct ((MaxKeyLength <? String.length key) || _) eqn:E7; [done|].
  intros [= <- <-]. split_bools. split; [done|]. split; [|naive_solver lia].
  destruct (Z.eqb_spec kind messageSecret) as [->|Hk]; [left|right]; cbn in E2, E3, E4.
  - split_bools. split_and!; [done..|]. apply dec_stable. by intros ?.
  - apply negb_false_iff in E2. rewrite E2 in E4. apply Z.eqb_eq in E2 as ->. cbn in E4. split_bools.
    done.
Qed.

Lemma len_le_key k : String.length k ≤ MaxKeyLength → (0 ≤ len k ≤ 256)%Z.
Proof. unfold len, MaxKeyLength. lia. Qed.

(** Reading back the parts of a sealed wire. *)
Lemma validateFrameFields_value k v x :
  validateFrameFields k v x = None → validateFrameFields k v "" = None.
Proof.
  unfold validateFrameFields. rewrite !err_if_None. intros (? & _ & ? & _). done.
Qed.

Lemma wire_parts h k v c :
  let wire := h +:+ k +:+ v +:+ c in
  sub_str (String.length h) (Z.to_nat (len k)) wire = k ∧
  sub_str (String.length h + Z.to_nat (len k)) (Z.to_nat (len v)) wire = v ∧
  str_drop (String.length h + Z.to_nat (len k) + Z.to_nat (len v)) wire = c.
Proof.
  unfold sub_str, len. rewrite !Nat2Z.id. cbn zeta. split; [by rewrite str_drop_app, str_take_app|].
  rewrite <-!str_length_app. split.
  - rewrite <-(str_app_assoc h k), str_drop_app. apply str_take_app.
  - by rewrite <-!(str_app_assoc h), <-(str_app_assoc (h +:+ k)), str_drop_app.
Qed.
(** The checks on a well-formed frame pass. *)
Lemma sealable_checks kind key version value :
  sealable kind key version value →
  (negb (kind =? messageSecret)%Z && negb (kind =? messageHeartbeat)%Z) = false ∧
  ((kind =? messageHeartbeat)%Z && (negb (len key =? 0)%Z || negb (len version =? 0)%Z)) = false ∧
  (if (kind =? messageSecret)%Z then validateFrameFields key version "" else None) = None ∧
  ((kind =? messageHeartbeat)%Z && negb (bool_decide (value = ""))) = false.
Proof.
  intros [(-> & _ & Hv)|(-> & -> & -> & ->)]; [|done].
  apply validateFrameFields_value in Hv. cbn. by rewrite Hv.
Qed.

Lemma open_sealed r s kind key version value n :
  s_key r = s_key s → s_aad r = s_aad s → s_received r = s_send s →
  String.length (s_key s) = 32 → sealable kind key version value →
  (0 ≤ s_send s < uint64_max)%Z → String.length n = 12 →
  (len value ≤ MaxValueLength)%Z → String.length key ≤ MaxKeyLength →
  String.length version ≤ MaxKeyLength →
  open_frame r (sealed_wire s kind key version value n) =
    Ok {| f_Kind := kind; f_Sequence := s_send s + 1; f_Key := key; f_Version := version; f_Value := value |}.
Proof.
  intros Hk Ha Hr H32 Hs Hsend Hn Hv Hkl Hvl. unfold sealed_wire.
  set (cl := (len value + 16)%Z). set (seq := (s_send s + 1)%Z).
  change (frame_header kind seq n key version cl) with (the_header kind seq n key version cl).
  set (h := the_header kind seq n key version cl).
  set (ct := aead_seal _ _ _ _).
  assert (Hct : len ct = cl) by (unfold len, ct; rewrite aead_length; unfold cl, len; lia).
  assert (Hh : String.length h = frameHeaderSize) by (by apply header_length).
  assert (Hwire : len (h +:+ key +:+ version +:+ ct) = (33 + len key + len version + cl)%Z).
  { rewrite <-Hct. unfold len. rewrite !str_length_app, Hh. unfold frameHeaderSize. lia. }
  unfold open_frame. cbv zeta.
  assert (Hkey := len_le_key _ Hkl). assert (Hver := len_le_key _ Hvl).
  assert (Hcl : (16 ≤ cl ≤ MaxValueLength + 16)%Z) by (unfold cl, len in *; lia).
  replace (String.length (h +:+ key +:+ version +:+ ct) <? frameHeaderSize) with false
    by (symmetry; apply Nat.ltb_ge; unfold len, frameHeaderSize in *; lia).
  replace (MaxFrameLength <? len (h +:+ key +:+ version +:+ ct))%Z with false
    by (symmetry; apply Z.ltb_ge; unfold MaxFrameLength; lia).
  rewrite Hk, H32, Ha, Hr, (str_take_exact frameHeaderSize h) by done. cbn [Nat.eqb negb orb].
  subst h. rewrite header_magic, header_kind, header_sequence, header_nonce, header_key, header_version,
    header_cl by done. fold cl.
  rewrite bool_decide_eq_true_2 by done. cbn [negb].
  rewrite code_get, code_byte_of by (destruct Hs as [[-> _]|[-> _]]; done).
  rewrite !get_be_put by (unfold seq, cl, uint64_max, MaxValueLength, len in *; lia).
  rewrite <-Hh. destruct (wire_parts (the_header kind seq n key version cl) key version ct) as (-> & -> & ->).
  destruct (sealable_checks _ _ _ _ Hs) as (-> & -> & -> & Hplain).
  replace ((seq =? 0)%Z || (s_send s =? uint64_max)%Z || negb (seq =? s_send s + 1)%Z) with false
    by (symmetry; unfold seq; rewrite Z.eqb_refl; cbn; rewrite orb_false_r, orb_false_iff, !Z.eqb_neq; lia).
  replace (_ || _ || _ || _) with false
    by (symmetry; change (Z.of_nat MaxKeyLength) with 256%Z; rewrite !orb_false_iff, !Z.ltb_ge; lia).
  rewrite Hwire, Hh. change (Z.of_nat frameHeaderSize) with 33%Z. rewrite Z.eqb_refl. cbn [negb err_guard].
  unfold ct. rewrite aead_correct, Hplain. done.
Qed.

(** What one end seals the other opens, once: if the receiver holds the sender's key
and context and has received exactly what was sent before, opening the sealed bytes
returns the very frame, with the next sequence number, and leaves the two ends in step
again.  It holds for secrets and for heartbeats. *)
Theorem session_roundtrip s r kind key version value n wire s'
    (Hkey : s_key r = s_key s) (Haad : s_aad r = s_aad s) (Hstep : s_received r = s_send s)
    (Hsend : (0 ≤ s_send s ≤ uint64_max)%Z) (Hn : String.length n = 12)
    (Hseal : seal s kind key version value (Some n) = (Ok wire, s')) :
  ∃ r', Open r wire = (Ok {| f_Kind := kind; f_Sequence := s_send s + 1; f_Key := key;
                             f_Version := version; f_Value := value |}, r') ∧
    s_received r' = s_send s' ∧ s_key r' = s_key s' ∧ s_aad r' = s_aad s' ∧
    (0 ≤ s_send s' ≤ uint64_max)%Z.
Proof.
  apply seal_Ok in Hseal as (H32 & Hs & Hmax & Hv & Hk & Hver & n' & [= <-] & -> & ->).
  unfold Open. rewrite open_sealed by (done || lia). eexists. split; [reflexivity|].
  cbn [s_received s_send s_key s_aad sent f_Sequence]. do 3 (split; [done|]). lia.
Qed.

(** ** Order and replay *)

(** Opening a series of wires, in order. *)
Fixpoint opens (s : Session) (wires : list string) : list (result LaunchError Frame) * Session :=
  match wires with
  | [] => ([], s)
  | w :: wires =>
    let '(r, s) := Open s w in
    let '(rs, s) := opens s wires in (r :: rs, s)
  end.
(** The frames accepted. *)
Definition accepted (rs : list (result LaunchError Frame)) : list Frame :=
  omap (λ r, match r with Ok f => Some f | Err _ => None end) rs.

Lemma open_frame_sequence s wire f :
  open_frame s wire = Ok f →
  f_Sequence f = (s_received s + 1)%Z ∧
  f_Sequence f = get_be (sub_str 5 8 (str_take frameHeaderSize wire)).
Proof.
  unfold open_frame. cbv zeta. intros H.
  repeat match type of H with
  | (if ?b then _ else _) = _ => let E := fresh "E" in destruct b eqn:E; [discriminate H|]
  end.
  apply err_guard_Ok in H as [_ H]. destruct (aead_open _ _ _ _) as [p|]; [|done].
  match type of H with (if ?b then _ else _) = _ => destruct b; [done|] end.
  injection H as <-. cbn [f_Sequence]. split_bools. done.
Qed.

Lemma Open_cases s wire r s' :
  Open s wire = (r, s') →
  s_key s' = s_key s ∧ s_aad s' = s_aad s ∧ s_send s' = s_send s ∧
  match r with
  | Ok f => f_Sequence f = (s_received s + 1)%Z ∧ s_received s' = f_Sequence f
  | Err _ => s' = s
  end.
Proof.
  unfold Open. destruct (open_frame s wire) as [f|e] eqn:E; intros [= <- <-]; [|done].
  by apply open_frame_sequence in E as [E _].
Qed.

Lemma opens_order wires : ∀ s rs s',
  opens s wires = (rs, s') →
  f_Sequence <$> accepted rs = seqZ (s_received s + 1) (Z.of_nat (length (accepted rs))) ∧
  s_received s' = (s_received s + Z.of_nat (length (accepted rs)))%Z ∧ s_key s' = s_key s.
Proof.
  induction wires as [|w wires IH]; intros s rs s'; cbn [opens].
  { intros [= <- <-]. cbn. split; [done|]. split; [lia|done]. }
  destruct (Open s w) as [r s1] eqn:E1. destruct (opens s1 wires) as [rs1 s2] eqn:E2.
  intros [= <- <-]. apply Open_cases in E1 as (Hk & _ & _ & H1).
  apply IH in E2 as (Hseq & Hrec & Hk2). rewrite Hk in Hk2. destruct r as [f|e].
  - destruct H1 as [Hf Hr]. unfold accepted. cbn [omap list_omap]. fold (accepted rs1).
    cbn [fmap list_fmap length]. rewrite Hrec, Hr, Hf. split; [|split; [lia|done]].
    rewrite Nat2Z.inj_succ, seqZ_cons by lia. rewrite Z.pred_succ, <-Z.add_1_r. f_equal.
    by rewrite Hseq, Hr, Hf.
  - subst s1. unfold accepted. cbn [omap list_omap]. fold (accepted rs1). done.
Qed.

Lemma open_replayed s s2 wire f :
  open_frame s wire = Ok f → String.length (s_key s2) = String.length (s_key s) →
  (f_Sequence f ≤ s_received s2)%Z → open_frame s2 wire = Err (fail ErrReplay).
Proof.
  intros H Hk Hle. apply open_frame_sequence in H as Hseq. destruct Hseq as [_ Hseq].
  unfold open_frame in H |- *. cbv zeta in H |- *. rewrite Hk. fold (sub_str 5 8 (str_take frameHeaderSize wire)) in *.
  destruct (_ || (MaxFrameLength <? _)%Z); [done|]. destruct (negb (_ =? 32)); [done|].
  destruct (negb (bool_decide (str_take 4 _ = _))); [done|].
  destruct (negb (_ =? messageSecret)%Z && _); [done|]. rewrite <-Hseq in *.
  replace ((f_Sequence f =? 0)%Z || (s_received s2 =? uint64_max)%Z ||
           negb (f_Sequence f =? s_received s2 + 1)%Z) with true; [done|].
  symmetry. rewrite !orb_true_iff, negb_true_iff, Z.eqb_neq. right. lia.
Qed.

(** C16: A session delivers frames in order, each once, without gaps: whatever bytes it is
given, the accepted frames carry the consecutive sequence numbers from the next
expected one on, the counter is the number of frames accepted, and bytes that were
accepted are answered with a replay error at every later moment. *)
Theorem session_in_order s wires rs s' :
  opens s wires = (rs, s') →
  f_Sequence <$> accepted rs = seqZ (s_received s + 1) (Z.of_nat (length (accepted rs))) ∧
  s_received s' = (s_received s + Z.of_nat (length (accepted rs)))%Z ∧
  ∀ before w f s2 after,
    Open (opens s before).2 w = (Ok f, s2) →
    Open (opens s2 after).2 w = (Err (fail ErrReplay), (opens s2 after).2).
Proof.
  intros H. apply opens_order in H as (H1 & H2 & _). split; [done|]. split; [done|].
  intros before w f s2 after Hw. set (s1 := (opens s before).2) in *. destruct (opens s2 after) as [rs2 s3] eqn:Ea. cbn [snd].
  apply opens_order in Ea as (_ & Hrec & Hk). apply Open_cases in Hw as Hc.
  destruct Hc as (Hk2 & _ & _ & Hf & Hr). unfold Open in Hw.
  destruct (open_frame s1 w) as [f'|] eqn:Eo; [|done]. injection Hw as -> _.
  unfold Open. rewrite (open_replayed s1 s3 w f); [done..|by rewrite Hk, Hk2|lia].
Qed.
End channel.

(** * What is authenticated *)

(** The additional data of a frame determines the frame's launch, kind, number, nonce,
key name, version and length: no two different headers and names share it, although
its parts are simply concatenated. *)
Theorem frame_context_binds d1 d2 kind1 kind2 seq1 seq2 n1 n2 key1 key2 v1 v2 cl1 cl2
    (Hd : String.length d1 = 32 ∧ String.length d2 = 32)
    (Hkind : (0 ≤ kind1 < 256)%Z ∧ (0 ≤ kind2 < 256)%Z)
    (Hseq : (0 ≤ seq1 ≤ uint64_max)%Z ∧ (0 ≤ seq2 ≤ uint64_max)%Z)
    (Hn : String.length n1 = 12 ∧ String.length n2 = 12)
    (Hk : String.length key1 ≤ MaxKeyLength ∧ String.length key2 ≤ MaxKeyLength)
    (Hv : String.length v1 ≤ MaxKeyLength ∧ String.length v2 ≤ MaxKeyLength)
    (Hcl : (0 ≤ cl1 ≤ MaxFrameLength)%Z ∧ (0 ≤ cl2 ≤ MaxFrameLength)%Z) :
  makeAAD d1 (frame_header kind1 seq1 n1 key1 v1 cl1) key1 v1 =
  makeAAD d2 (frame_header kind2 seq2 n2 key2 v2 cl2) key2 v2 →
  d1 = d2 ∧ kind1 = kind2 ∧ seq1 = seq2 ∧ n1 = n2 ∧ key1 = key2 ∧ v1 = v2 ∧ cl1 = cl2.
Proof.
  destruct Hd as [Hd1 Hd2], Hn as [Hn1 Hn2], Hk as [Hk1 Hk2], Hv as [Hv1 Hv2].
  unfold makeAAD. intros E. apply str_app_split in E as [-> E]; [|by rewrite Hd1, Hd2].
  apply str_app_split in E as [Eh E].
  2: { fold (the_header kind1 seq1 n1 key1 v1 cl1) (the_header kind2 seq2 n2 key2 v2 cl2).
       by rewrite !header_length. }
  fold (the_header kind1 seq1 n1 key1 v1 cl1) (the_header kind2 seq2 n2 key2 v2 cl2) in Eh.
  pose proof (f_equal (sub_str 4 1) Eh) as Ekind. pose proof (f_equal (sub_str 5 8) Eh) as Eseq.
  pose proof (f_equal (sub_str 13 12) Eh) as En. pose proof (f_equal (sub_str 25 2) Eh) as Ek.
  pose proof (f_equal (sub_str 29 4) Eh) as Ecl.
  rewrite !header_kind in Ekind by done. rewrite !header_sequence in Eseq by done.
  rewrite !header_nonce in En by done. rewrite !header_key in Ek by done.
  rewrite !header_cl in Ecl by done.
  apply put_be_inj in Eseq; [|unfold uint64_max in *; lia..].
  apply put_be_inj in Ek; [|pose proof (len_le_key _ Hk1); pose proof (len_le_key _ Hk2); lia..].
  apply put_be_inj in Ecl; [|unfold MaxFrameLength, MaxValueLength in *; lia..].
  apply (f_equal get_be) in Ekind. rewrite !code_get, !code_byte_of in Ekind by lia.
  apply str_app_split in E as [-> ->]; [done|]. unfold len in Ek. lia.
Qed.

(** * Instances, for concrete inputs *)

#[local] Obligation Tactic := idtac.
#[export] Program Instance toy_hmac : HMAC256 := {| hmac256 k m := toy_digest (k +:+ m) |}.
Next Obligation. intros. apply toy_digest_length. Qed.
#[export] Program Instance toy_x25519 : X25519 := {|
  x_public sk := toy_digest sk; x_shared _ _ := Some (zeros 32) |}.
Next Obligation. intros. apply toy_digest_length. Qed.
Next Obligation. done. Qed.
#[export] Program Instance toy_aead : AEAD := {|
  aead_seal k n p a := p +:+ zeros 16;
  aead_open k n c a := Some (str_take (String.length c - 16) c) |}.
Next Obligation. intros k n p a. cbv beta. by rewrite str_length_app, zeros_length. Qed.
Next Obligation.
  intros k n p a. cbv beta. by rewrite str_length_app, zeros_length, Nat.add_sub, str_take_app.
Qed.

Definition toy_session : Session :=
  {| s_key := zeros 32; s_aad := zeros 32; s_send := 0; s_received := 0 |}.
Definition toy_wire : string := sealed_wire toy_session messageSecret "DB_PASSWORD" "3" "hunter2" (zeros 12).

Lemma handshake_agreement_witness :
  ∃ ha hb, NewHandshake (Some "a") = Ok ha ∧ NewHandshake (Some "b") = Ok hb ∧
    Derive (SH := toy_sha) (Some ha) (PublicKey (Some hb)) "m" = Derive (SH := toy_sha) (Some hb) (PublicKey (Some ha)) "m".
Proof.
  eexists _, _. split; [reflexivity|]. split; [reflexivity|].
  exact (proj1 (proj2 (handshake_agreement (SH := toy_sha) "a" "b" "m" _ _ "" eq_refl eq_refl))).
Defined.

Lemma toy_sealed : seal toy_session messageSecret "DB_PASSWORD" "3" "hunter2" (Some (zeros 12))
    = (Ok toy_wire, sent toy_session).
Proof. vm_compute. reflexivity. Qed.
Lemma toy_counter : (0 ≤ s_send toy_session ≤ uint64_max)%Z.
Proof. vm_compute. split; discriminate. Qed.
Lemma session_roundtrip_witness :
  ∃ r', Open toy_session toy_wire = (Ok (mkFrame messageSecret 1 "DB_PASSWORD" "3" "hunter2"), r') ∧
    s_received r' = 1%Z.
Proof.
  destruct (session_roundtrip toy_session toy_session messageSecret "DB_PASSWORD" "3" "hunter2"
    (zeros 12) toy_wire (sent toy_session) eq_refl eq_refl eq_refl toy_counter eq_refl toy_sealed) as (r' & Ho & Hr & _).
  exists r'. split; [exact Ho|exact Hr].
Defined.

Definition toy_run : list (result LaunchError Frame) * Session := opens toy_session [toy_wire; toy_wire].
Lemma session_in_order_witness :
  accepted toy_run.1 = [mkFrame messageSecret 1 "DB_PASSWORD" "3" "hunter2"] ∧ s_received toy_run.2 = 1%Z.
Proof.
  assert (Ha : accepted toy_run.1 = [mkFrame messageSecret 1 "DB_PASSWORD" "3" "hunter2"])
    by (vm_compute; reflexivity).
  assert (E : opens toy_session [toy_wire; toy_wire] = (toy_run.1, toy_run.2)) by apply surjective_pairing.
  split; [exact Ha|]. rewrite (proj1 (proj2 (session_in_order _ _ _ _ E))), Ha. reflexivity.
Defined.

Lemma frame_context_binds_witness : "K" = "K" ∧ "1" = "1".
Proof.
  destruct (frame_context_binds (zeros 32) (zeros 32) 1 1 1 1 (zeros 12) (zeros 12) "K" "K" "1" "1" 20 20)
    as (_ & _ & _ & _ & Hk & Hv & _);
    [vm_compute; repeat split; first [reflexivity|discriminate|lia]..|].
  split; [exact Hk|exact Hv].
Defined.
