(* ===== verification/LaunchRuntime.v ===== *)
(** The rendered model and the container runtime of the launcher
(src/internal/secretlaunch/runtime.go, manifest_mount.go): the model that must agree
with the signed manifest, ownership labels, and the docker commands.

A run-time panic (writing to a nil map) is the outcome [None] of an [option].  The
docker binary is a function from arguments to its standard output. *)

From S2P Require Import Prelude GoStrings Paths Provider Digest GoEncoding Json LaunchError JsonScan LaunchTypes LaunchManifest LaunchSession.
#[local] Open Scope go_scope.

(** * The model *)

Record ServiceSpec := mkSpec {
  sp_Name : string; sp_Image : string; sp_User : string;
  sp_Argv : strings; sp_Environment : string_map; sp_Labels : string_map;
  sp_Networks : strings; sp_Restart : string; sp_OpenStdin : bool; sp_Health : HealthSpec;
  sp_Dependencies : strings; sp_SecretKeys : strings; sp_WrapperDigest : string;
  sp_Child : ChildSpec }.
Record RenderedModel := mkModel {
  rm_RuntimeID : string; rm_ComposeDigest : string; rm_Services : slice ServiceSpec }.

#[export] Instance ServiceSpec_eq_dec : EqDecision ServiceSpec.
Proof. solve_decision. Defined.
#[export] Instance RenderedModel_eq_dec : EqDecision RenderedModel.
Proof. solve_decision. Defined.

Definition json_spec (s : ServiceSpec) : string :=
  "{" +:+ field "name" (sp_Name s) ("," +:+ field "image" (sp_Image s) ("," +:+
  field "user" (sp_User s) ("," +:+ field "argv" (sp_Argv s) ("," +:+
  field "environment" (sp_Environment s) ("," +:+ field "labels" (sp_Labels s) ("," +:+
  field "networks" (sp_Networks s) ("," +:+ field "restart" (sp_Restart s) ("," +:+
  field "open_stdin" (sp_OpenStdin s) ("," +:+ field "health" (sp_Health s) ("," +:+
  field "dependencies" (sp_Dependencies s) ("," +:+ field "secret_keys" (sp_SecretKeys s) ("," +:+
  field "wrapper_digest" (sp_WrapperDigest s) ("," +:+ field "child" (sp_Child s) "}"))))))))))))).
#[export] Program Instance json_of_spec : Json ServiceSpec := {|
  encode := json_spec;
  wf s := wf (sp_Name s) ∧ wf (sp_Image s) ∧ wf (sp_User s) ∧ wf (sp_Argv s) ∧
    wf (sp_Environment s) ∧ wf (sp_Labels s) ∧ wf (sp_Networks s) ∧ wf (sp_Restart s) ∧
    wf (sp_OpenStdin s) ∧ wf (sp_Health s) ∧ wf (sp_Dependencies s) ∧ wf (sp_SecretKeys s) ∧
    wf (sp_WrapperDigest s) ∧ wf (sp_Child s) |}.
Next Obligation. intros s _. by eexists _, _. Qed.
Next Obligation. record_cut json_spec. Qed.

(** The document [ModelDigest] hashes, and the whole model. *)
Definition json_model_body (runtimeID : string) (services : slice ServiceSpec) : string :=
  "{" +:+ field "runtime_id" runtimeID ("," +:+ field "services" services "}").
Definition json_model (m : RenderedModel) : string :=
  "{" +:+ field "runtime_id" (rm_RuntimeID m) ("," +:+
  field "compose_digest" (rm_ComposeDigest m) ("," +:+ field "services" (rm_Services m) "}")).
#[export] Program Instance json_of_model : Json RenderedModel := {|
  encode := json_model;
  wf m := wf (rm_RuntimeID m) ∧ wf (rm_ComposeDigest m) ∧ wf (rm_Services m) |}.
Next Obligation. intros s _. by eexists _, _. Qed.
Next Obligation. record_cut json_model. Qed.

Definition serviceSpecFromAuthority (a : ServiceAuthority) : ServiceSpec := {|
  sp_Name := sa_Name a; sp_Image := sa_Image a; sp_User := sa_User a; sp_Argv := sa_Argv a;
  sp_Environment := sa_Environment a; sp_Labels := sa_Labels a; sp_Networks := sa_Networks a;
  sp_Restart := sa_Restart a; sp_OpenStdin := sa_OpenStdin a; sp_Health := sa_Health a;
  sp_Dependencies := sa_Dependencies a; sp_SecretKeys := Some (mk_Name <$> elems (sa_Keys a));
  sp_WrapperDigest := sa_WrapperDigest a; sp_Child := sa_Child a |}.

(** The loop over secret keys names the first bad one. *)
Fixpoint secret_key_loop (last : string) (l : list string) : option LaunchError :=
  match l with
  | [] => None
  | k :: l => err_if (negb (validKeyName k) || str_le k last) (failKey ErrRuntime k) (secret_key_loop k l)
  end.

Section model.
Context {UC : UnicodeCase} {MR : MapRange} {SH : SHA256}.

Definition validateServiceSpec (s : ServiceSpec) : option LaunchError :=
  let invalid := fail ErrRuntime in
  err_if (negb (validServiceName (sp_Name s)) || negb (pinnedImage (sp_Image s)) ||
          bool_decide (sp_User s = "") || has_byte NUL (sp_User s) ||
          negb (bool_decide (sp_Restart s = "no")) || negb (sp_OpenStdin s) ||
          negb (validDigest (sp_WrapperDigest s)) || bool_decide (validArguments (sp_Argv s) ≠ None) ||
          bool_decide (ch_User (sp_Child s) = "") || has_byte NUL (ch_User (sp_Child s)) ||
          bool_decide (validArguments (ch_Argv (sp_Child s)) ≠ None) ||
          bool_decide (validHealth (sp_Health s) ≠ None) ||
          negb (equalStringMap (ch_Environment (sp_Child s)) (sp_Environment s))) invalid (
  err_if (negb (ordered_names (λ d, validServiceName d && negb (bool_decide (d = sp_Name s))) ""
                  (elems (sp_Dependencies s)))) invalid (
  err_if (negb (ordered_names validServiceName "" (elems (sp_Networks s)))) invalid (
  err_seq (secret_key_loop "" (elems (sp_SecretKeys s))) (
  err_seq (check_environment ErrRuntime (sp_Environment s))
    (check_labels ErrRuntime (sp_Labels s)))))).

Fixpoint model_services (last : string) (l : list ServiceSpec) : option LaunchError :=
  match l with
  | [] => None
  | s :: l =>
    err_if (str_le (sp_Name s) last) (fail ErrRuntime) (
    err_seq (validateServiceSpec s) (model_services (sp_Name s) l))
  end.
Definition validateModelStructure (m : RenderedModel) : option LaunchError :=
  let l := elems (rm_Services m) in
  err_if (negb (validServiceName (rm_RuntimeID m)) || (length l =? 0) || (256 <? length l))
    (fail ErrRuntime) (model_services "" l).

Definition ModelDigest (m : RenderedModel) : result LaunchError string :=
  try! validateModelStructure m;
  Ok ("sha256:" +:+ sha256_hex (json_model_body (rm_RuntimeID m) (rm_Services m))).
Definition ValidateRenderedModel (m : RenderedModel) : option LaunchError :=
  match ModelDigest m with
  | Err e => Some e
  | Ok expected => err_if (negb (bool_decide (rm_ComposeDigest m = expected))) (fail ErrBinding) None
  end.

Definition ParseRenderedModel `{JsonLib, JsonDecode RenderedModel} (data : string)
    : result LaunchError RenderedModel :=
  try! err_if (bool_decide (scanned data ≠ None)) (fail ErrRuntime) None;
  match decode data with
  | None => Err (fail ErrRuntime)
  | Some m =>
    try! err_if (negb (bool_decide (encode m = data))) (fail ErrRuntime) None;
    try! ValidateRenderedModel m;
    Ok m
  end.

(** [reflect.DeepEqual] distinguishes nil from empty, as equality does here. *)
Definition ValidateManifestModel (m : Manifest) (r : RenderedModel) : option LaunchError :=
  err_seq (Validate m) (
  err_seq (ValidateRenderedModel r) (
  err_if (negb (bool_decide (m_RuntimeID m = rm_RuntimeID r)) ||
          negb (bool_decide (ad_Compose (m_Digests m) = rm_ComposeDigest r)) ||
          negb (length (elems (m_Services m)) =? length (elems (rm_Services r)))) (fail ErrBinding) (
  err_if (existsb (λ '(a, s), negb (bool_decide (serviceSpecFromAuthority a = s)))
            (zip (elems (m_Services m)) (elems (rm_Services r)))) (fail ErrBinding) None))).

(** * Labels *)

Definition label_root : string := "com.skret.secret-launch".
Definition label (name : string) : string := label_root +:+ "." +:+ name.

Definition OwnershipLabels (m : Manifest) : gmap string string :=
  match AuthorityDigest m with
  | Err _ => ∅
  | Ok digest =>
    list_to_map [(label_root, ManifestVersion); (label "runtime", m_RuntimeID m);
      (label "role", m_Role m); (label "generation", itoa (m_Generation m));
      (label "nonce", m_Nonce m); (label "manifest", "sha256:" +:+ hex_encode digest)]
  end.
Definition OwnershipScopeLabels (m : Manifest) : gmap string string :=
  list_to_map [(label_root, ManifestVersion); (label "runtime", m_RuntimeID m);
    (label "role", m_Role m)].

(** [m[k]]: a missing label reads as the empty string. *)
Definition label_get (labels : gmap string string) (k : string) : string := default "" (labels !! k).
Definition ContainsLabels (actual required : gmap string string) : bool :=
  forallb (λ '(k, v), bool_decide (label_get actual k = v)) (map_to_list required).
Definition ExactLabels (actual expected : gmap string string) : bool :=
  if negb (size actual =? size expected) then false else ContainsLabels actual expected.

(** [strconv.ParseUint] in base 10 with 64 bits. *)
Definition ParseUint (s : string) : option Z :=
  n ← parse_digits s; if (n <=? uint64_max)%Z then Some n else None.

Definition currentOwnedGeneration (labels : gmap string string) (m : Manifest) (serviceName : string) : bool :=
  if bool_decide (serviceName = "") then false
  else
    let expected := <[label "service" := serviceName]> (OwnershipLabels m) in
    negb (size expected =? 0) && ContainsLabels labels expected.
Definition ownedGenerationInScope (labels scope : gmap string string) (current : Z) : bool :=
  if negb (ContainsLabels labels scope) || bool_decide (label_get labels (label "service") = "") then false
  else
    match ParseUint (label_get labels (label "generation")) with
    | None => false
    | Some generation =>
      (0 <? generation)%Z && (generation <=? current)%Z &&
      validNonce (label_get labels (label "nonce")) && validDigest (label_get labels (label "manifest"))
    end.
Definition olderOwnedGeneration (labels scope : gmap string string) (s : ServiceSpec) (current : Z) : bool :=
  if bool_decide (sp_Name s = "") || negb (ownedGenerationInScope labels scope current) then false
  else
    match ParseUint (label_get labels (label "generation")) with
    | None => false
    | Some generation =>
      (generation <? current)%Z && bool_decide (label_get labels (label "service") = sp_Name s)
    end.

Definition LaunchLabels (m : Manifest) (s : ServiceSpec) : gmap string string :=
  <[label "service" := sp_Name s]> (OwnershipLabels m).
(** [labels[key] = value] on the clone of a nil map panics. *)
Definition ServiceLabels (m : Manifest) (s : ServiceSpec) : option (gmap string string) :=
  match sp_Labels s with
  | None => None
  | Some labels => Some (LaunchLabels m s ∪ labels)
  end.
End model.

(** * Docker output and identifiers *)

Fixpoint parse_label_entries (l : list string) (acc : gmap string string) : gmap string string :=
  match l with
  | [] => acc
  | e :: l =>
    parse_label_entries l
      (match cut_byte "=" e with
       | Some (key, val) => if bool_decide (key = "") then acc else <[key := val]> acc
       | None => acc
       end)
  end.
Definition parseDockerLabels (value : string) : gmap string string :=
  parse_label_entries (split_byte "," value) ∅.

Definition validContainerID (value : string) : bool :=
  negb (bool_decide (value = "") || (128 <? String.length value) || has_byte NUL value) &&
  forallb (λ r, negb ((r =? 32) || (r =? 13) || (r =? 10) || (r =? 9))%Z) (runes value).

(** * The manifest mount *)

Record ManifestMount := mkMount { mm_HostDir : string; mm_ContainerDir : string; mm_FileName : string }.

Definition mountSafe (value : string) : bool :=
  forallb (λ r, negb ((r <? 32)%Z || (r =? 127)%Z || rune_is "," r || (r =? 34)%Z)) (runes value) &&
  negb (bool_decide (value = "")).
Definition ContainerPath (m : ManifestMount) : string := Join (mm_ContainerDir m) (mm_FileName m).

Definition has_suffix (s suffix : string) : bool :=
  (String.length suffix <=? String.length s) &&
  bool_decide (str_drop (String.length s - String.length suffix) s = suffix).
(** What a directory holds: [None] when it cannot be read or is none; each entry with
whether it is a regular file. *)
Definition directory : Type := option (list (string * bool)).
Definition mount_valid (m : ManifestMount) (content : directory) : option LaunchError :=
  err_if (negb (IsAbs (mm_HostDir m)) || negb (mountSafe (mm_HostDir m)) ||
          negb (IsAbs (mm_ContainerDir m)) || bool_decide (mm_ContainerDir m = "/") ||
          negb (bool_decide (Clean (mm_ContainerDir m) = mm_ContainerDir m)) ||
          negb (mountSafe (mm_ContainerDir m)) ||
          bool_decide (mm_FileName m = "") || bool_decide (mm_FileName m = ".") ||
          bool_decide (mm_FileName m = "..") ||
          contains_any (mm_FileName m) (String "/" (str1 BSL)) ||
          negb (mountSafe (mm_FileName m))) (fail ErrRuntime)
  match content with
  | None => Some (fail ErrRuntime)
  | Some entries =>
    err_each (λ '(name, regular),
      let temporary := has_prefix name ".skret-" && has_suffix name ".tmp" in
      err_if ((negb (bool_decide (name = mm_FileName m)) && negb temporary) || negb regular)
        (fail ErrRuntime) None) entries
  end.
Definition mount_args (m : ManifestMount) : list string :=
  ["--mount"; "type=bind,source=" +:+ mm_HostDir m +:+ ",target=" +:+ mm_ContainerDir m +:+ ",readonly"].

(** The positions of [--manifest], and whether each is followed by the mounted path. *)
Fixpoint manifest_flags (path : string) (argv : list string) : option nat :=
  match argv with
  | [] => Some 0
  | arg :: rest =>
    if bool_decide (arg = "--manifest") then
      match rest with
      | next :: _ => if bool_decide (next = path) then S <$> manifest_flags path rest else None
      | [] => None
      end
    else manifest_flags path rest
  end.
Definition checkArgv (m : ManifestMount) (argv : list string) : option LaunchError :=
  match manifest_flags (ContainerPath m) argv with
  | Some 1 => None
  | _ => Some (fail ErrRuntime)
  end.

(** * The docker runtime *)

Record Container := mkContainer {
  c_ID : string; c_Name : string; c_Labels : gmap string string; c_Running : bool; c_Healthy : bool }.
Record ContainerState := mkState { cs_Container : Container; cs_ExitCode : Z }.

(** One line of [docker ps] and the document of [docker inspect]. *)
Record ps_row := mkRow { r_ID : string; r_Names : string; r_Labels : string; r_State : string }.
Record inspect_row := mkInspect {
  i_ID : string; i_Name : string; i_Labels : string_map; i_Running : bool; i_ExitCode : Z;
  i_Health : option string }.

Record DockerRuntime := mkDocker {
  d_Binary : string;
  d_Runner : option (list string → option string);
  d_ExplicitInvoke : bool;
  d_AttachRunner : option (list string → bool);
  d_ManifestMount : option (ManifestMount * directory) }.

Definition invoke (d : option DockerRuntime) (args : list string) : result LaunchError string :=
  match d with
  | None => Err (fail ErrNotInvoked)
  | Some d =>
    if negb (d_ExplicitInvoke d) then Err (fail ErrNotInvoked)
    else
      match d_Runner d with
      | None => Err (fail ErrRuntime)
      | Some run =>
        if bool_decide (d_Binary d = "") then Err (fail ErrRuntime)
        else match run args with Some stdout => Ok stdout | None => Err (fail ErrDaemon) end
      end
  end.

Section docker.
Context {UC : UnicodeCase} {MR : MapRange}.

Definition docker_Render `{SHA256} (m : RenderedModel) : result LaunchError RenderedModel :=
  try! ValidateRenderedModel m; Ok m.

Definition filter_args (labels : gmap string string) : list string :=
  k ← sorted_keys labels; ["--filter"; "label=" +:+ k +:+ "=" +:+ label_get labels k].
Definition row_container (r : ps_row) : Container :=
  {| c_ID := r_ID r; c_Name := r_Names r; c_Labels := parseDockerLabels (r_Labels r);
     c_Running := has_prefix (to_lower (r_State r)) "up"; c_Healthy := false |}.
Fixpoint list_rows (parse : string → option ps_row) (lines : list string)
    : result LaunchError (list Container) :=
  match lines with
  | [] => Ok []
  | line :: lines =>
    let line := trim_space line in
    if bool_decide (line = "") then list_rows parse lines
    else
      match parse line with
      | Some r =>
        if bool_decide (r_ID r = "") then Err (fail ErrRuntime)
        else let! cs := list_rows parse lines in Ok (row_container r :: cs)
      | None => Err (fail ErrRuntime)
      end
  end.
Definition docker_List (parse : string → option ps_row) (d : option DockerRuntime)
    (labels : gmap string string) : result LaunchError (list Container) :=
  let! stdout := invoke d (["ps"; "--all"; "--no-trunc"] ++ filter_args labels ++
                           ["--format"; "{{json .}}"]) in
  list_rows parse (split_byte LF stdout).

(** [strings.EqualFold] with "healthy": simple folding, under which only ASCII letters
fold to its letters. *)
Definition is_healthy (status : string) : bool :=
  bool_decide (str_map (λ c, if is_upper c then byte_of (code c + 32) else c) status = "healthy").
Definition docker_Inspect (parse : string → option inspect_row) (d : option DockerRuntime)
    (id : string) : result LaunchError ContainerState :=
  if negb (validContainerID id) then Err (fail ErrRuntime)
  else
    let! stdout := invoke d ["inspect"; "--format"; "{{json .}}"; id] in
    match parse (trim_space stdout) with
    | Some r =>
      if bool_decide (i_ID r = "") then Err (fail ErrRuntime)
      else Ok {| cs_Container := {| c_ID := i_ID r; c_Name := trim_prefix (i_Name r) "/";
                   c_Labels := default ∅ (i_Labels r); c_Running := i_Running r;
                   c_Healthy := match i_Health r with Some h => is_healthy h | None => false end |};
                 cs_ExitCode := i_ExitCode r |}
    | None => Err (fail ErrRuntime)
    end.

(** The merge of custom and ownership labels: a collision is an error, and writing to the
clone of nil labels panics. *)
Definition merge_labels (custom : string_map) (labels : gmap string string)
    : option (result LaunchError string_map) :=
  match custom with
  | None => if bool_decide (labels = ∅) then Some (Ok None) else None
  | Some m =>
    if existsb (λ '(k, _), bool_decide (is_Some (m !! k))) (map_to_list labels)
    then Some (Err (fail ErrRuntime)) else Some (Ok (Some (labels ∪ m)))
  end.

(** [strconv.Itoa(int(x)) + "ms"] *)
Definition millis (x : Z) : string := itoa x +:+ "ms".
Definition create_args (d : option DockerRuntime) (s : ServiceSpec) (merged : gmap string string)
    : list string :=
  ["create"; "--name"; sp_Name s; "--restart"; "no"; "--interactive"; "--attach"; "stdin"] ++
  match d ≫= d_ManifestMount with Some (m, _) => mount_args m | None => [] end ++
  (if bool_decide (sp_User s = "") then [] else ["--user"; sp_User s]) ++
  (n ← elems (sp_Networks s); ["--network"; n]) ++
  (k ← sorted_keys (default ∅ (sp_Environment s)); ["--env"; k +:+ "=" +:+ map_get (sp_Environment s) k]) ++
  (k ← sorted_keys merged; ["--label"; k +:+ "=" +:+ label_get merged k]) ++
  (if 0 <? length (elems (hs_Command (sp_Health s))) then
     ["--health-cmd"; join " " (elems (hs_Command (sp_Health s)));
      "--health-interval"; millis (hs_IntervalMS (sp_Health s));
      "--health-timeout"; millis (hs_TimeoutMS (sp_Health s));
      "--health-retries"; itoa (hs_Retries (sp_Health s))]
   else []) ++
  ["--"; sp_Image s] ++ elems (sp_Argv s).

Definition docker_Create (d : option DockerRuntime) (s : ServiceSpec) (labels : gmap string string)
    : option (result LaunchError Container) :=
  match validateServiceSpec s with
  | Some e => Some (Err e)
  | None =>
    match (m ← d ≫= d_ManifestMount; err_seq (mount_valid m.1 m.2) (checkArgv m.1 (elems (sp_Argv s)))) with
    | Some e => Some (Err e)
    | None =>
      match merge_labels (sp_Labels s) labels with
      | None => None
      | Some (Err e) => Some (Err e)
      | Some (Ok merged) =>
        let merged := default ∅ merged in
        Some (
          let! stdout := invoke d (create_args d s merged) in
          let id := trim_space stdout in
          if negb (validContainerID id) then Err (fail ErrRuntime)
          else Ok {| c_ID := id; c_Name := sp_Name s; c_Labels := merged;
                     c_Running := false; c_Healthy := false |})
      end
    end
  end.

Definition container_command (d : option DockerRuntime) (id : string) (args : list string)
    : option LaunchError :=
  if negb (validContainerID id) then Some (fail ErrRuntime)
  else match invoke d args with Ok _ => None | Err e => Some e end.
(** The error of the attach runner itself is of another type: [Some None]. *)
Definition docker_Attach (d : option DockerRuntime) (id : string) : option (option LaunchError) :=
  match d with
  | Some {| d_Binary := binary; d_ExplicitInvoke := true; d_AttachRunner := Some attach |} =>
    if negb (validContainerID id) || bool_decide (binary = "") then Some (Some (fail ErrRuntime))
    else if attach [binary; "attach"; id] then None else Some None
  | Some {| d_ExplicitInvoke := true |} => Some (Some (fail ErrRuntime))
  | _ => Some (Some (fail ErrNotInvoked))
  end.
Definition docker_Start (d : option DockerRuntime) (id : string) : option LaunchError :=
  container_command d id ["start"; id].
Definition docker_Kill (d : option DockerRuntime) (id : string) : option LaunchError :=
  container_command d id ["kill"; id].
Definition docker_Remove (d : option DockerRuntime) (id : string) (force : bool) : option LaunchError :=
  container_command d id (["rm"] ++ (if force then ["--force"] else []) ++ [id]).
End docker.
