(* ===== verification/LaunchRuntimeProps.v ===== *)
(** Theorems on the container runtime: a manifest admits one model, and docker's own
words for a running container are not the ones its listing looks for. *)

From S2P Require Import Prelude GoStrings Provider Digest Json LaunchError LaunchTypes LaunchManifest LaunchProps LaunchFixture LaunchRuntime.
#[local] Open Scope go_scope.

Section model.
Context {UC : UnicodeCase} {MR : MapRange} {SH : SHA256}.

Lemma zip_equal (l : list ServiceAuthority) (l' : list ServiceSpec) :
  length l = length l' →
  existsb (λ '(a, s), negb (bool_decide (serviceSpecFromAuthority a = s))) (zip l l') = false ↔
  l' = serviceSpecFromAuthority <$> l.
Proof.
  revert l'. induction l as [|a l IH]; intros [|s l'] Hlen; try done. cbn.
  rewrite orb_false_iff, negb_false_iff, bool_decide_eq_true, IH by (by injection Hlen).
  split; [by intros [<- ->]|]. intros [= <- E]. done.
Qed.
Lemma ValidateManifestModel_spec m r :
  ValidateManifestModel m r = None ↔
  Validate m = None ∧ ValidateRenderedModel r = None ∧ rm_RuntimeID r = m_RuntimeID m ∧
  rm_ComposeDigest r = ad_Compose (m_Digests m) ∧
  elems (rm_Services r) = serviceSpecFromAuthority <$> elems (m_Services m).
Proof.
  unfold ValidateManifestModel. rewrite !err_seq_None, !err_if_None, !orb_false_iff, !negb_false_iff,
    !bool_decide_eq_true, Nat.eqb_eq. split.
  - intros (? & ? & ((? & ?) & Hlen) & Hz & _). apply zip_equal in Hz; [|done]. done.
  - intros (? & ? & ? & ? & E). assert (Hlen : length (elems (m_Services m)) = length (elems (rm_Services r)))
      by (by rewrite E, length_fmap). apply zip_equal in E; [|done]. done.
Qed.
Lemma ValidateRenderedModel_spec r :
  ValidateRenderedModel r = None ↔ validateModelStructure r = None ∧
  rm_ComposeDigest r = "sha256:" +:+ sha256_hex (json_model_body (rm_RuntimeID r) (rm_Services r)).
Proof.
  unfold ValidateRenderedModel, ModelDigest. destruct (validateModelStructure r); cbn; [naive_solver|].
  rewrite err_if_None, negb_false_iff, bool_decide_eq_true. naive_solver.
Qed.
Lemma structure_services r : validateModelStructure r = None → rm_Services r = Some (elems (rm_Services r)).
Proof.
  unfold validateModelStructure. intros H. inv_ok. split_bools. by destruct (rm_Services r).
Qed.

(** A manifest admits one model.  A model passes against a manifest exactly when the
manifest is valid, names the model's runtime and compose digest, the digest is that of
the model's own content, and every service is, field by field and in order, what the
manifest authorises; so two models that pass against one manifest are the same. *)
Theorem manifest_model_unique m r1 r2
    (H1 : ValidateManifestModel m r1 = None) (H2 : ValidateManifestModel m r2 = None) :
  r1 = r2 ∧ rm_Services r1 = Some (serviceSpecFromAuthority <$> elems (m_Services m)) ∧
  ad_Compose (m_Digests m) = "sha256:" +:+ sha256_hex (json_model_body (m_RuntimeID m) (rm_Services r1)).
Proof.
  apply ValidateManifestModel_spec in H1 as (_ & H1 & Hid1 & Hd1 & Hs1), H2 as (_ & H2 & Hid2 & Hd2 & Hs2).
  apply ValidateRenderedModel_spec in H1 as [Hv1 Hdig1], H2 as [Hv2 _].
  apply structure_services in Hv1, Hv2. rewrite Hs1 in Hv1. rewrite Hs2 in Hv2. split; [|split; [done|]].
  - destruct r1, r2. cbn in *. congruence.
  - by rewrite <-Hd1, Hdig1, Hid1.
Qed.

(** [docker ps] reports [running] as the state of a running container; [List] looks for
a state that starts with [up], which none does. *)
Lemma running_never_listed id names labels :
  c_Running (row_container (mkRow id names labels "running")) = false.
Proof.
  unfold row_container. cbn [c_Running r_State]. rewrite to_lower_id; [done|]. vm_compute. done.
Qed.
(** A valid service without labels cannot be created: the merge writes into a nil map. *)
Lemma nil_labels_panic d s labels :
  validateServiceSpec s = None → sp_Labels s = None → labels ≠ ∅ → d ≫= d_ManifestMount = None →
  docker_Create d s labels = None.
Proof.
  intros Hv Hl Hne Hm. unfold docker_Create. rewrite Hv, Hm, Hl. cbn [merge_labels mbind option_bind].
  by rewrite bool_decide_eq_false_2.
Qed.
End model.

(** The fixture's model, under its own digest. *)
Definition fixture_model_of (compose : string) : RenderedModel := {|
  rm_RuntimeID := "docker-prod"; rm_ComposeDigest := compose;
  rm_Services := Some [serviceSpecFromAuthority fixture_service] |}.
Definition fixture_compose : string := Eval vm_compute in
  match ModelDigest (fixture_model_of "") with Ok d => d | Err _ => "" end.
Definition fixture_model : RenderedModel := fixture_model_of fixture_compose.
Definition fixture_launch : Manifest := {|
  m_Version := m_Version fixture_manifest; m_RuntimeID := m_RuntimeID fixture_manifest;
  m_Role := m_Role fixture_manifest; m_Generation := 7; m_IssuedAt := m_IssuedAt fixture_manifest;
  m_ExpiresAt := m_ExpiresAt fixture_manifest; m_Nonce := m_Nonce fixture_manifest;
  m_Services := m_Services fixture_manifest;
  m_Digests := {| ad_Helper := digestFixture "a"; ad_Supervisor := digestFixture "b";
                  ad_Compose := fixture_compose |} |}.
Lemma fixture_model_valid : ValidateManifestModel fixture_launch fixture_model = None.
Proof. vm_compute. reflexivity. Qed.
Lemma manifest_model_unique_witness :
  ValidateManifestModel fixture_launch fixture_model = None ∧
  rm_Services fixture_model = Some (serviceSpecFromAuthority <$> elems (m_Services fixture_launch)).
Proof.
  split; [exact fixture_model_valid|].
  exact (proj1 (proj2 (manifest_model_unique fixture_launch fixture_model fixture_model fixture_model_valid fixture_model_valid))).
Defined.
