(* ===== verification/LaunchOrder.v ===== *)
(** The start order of the services (src/internal/secretlaunch/supervisor.go,
[OrderServices] and [validateDependencies]): a depth-first search that marks names
open and done, and the proof that it is a topological sort that fails exactly when
there is none. *)

From S2P Require Import Prelude GoStrings Json LaunchError LaunchTypes LaunchRuntime.
#[local] Open Scope go_scope.

(** The marks on names (0 unseen, 1 open, 2 done) and the services ordered so far. *)
Abbreviation marks := (gmap string nat).
Abbreviation dfs := (marks * list ServiceSpec)%type.
Definition mark (st : dfs) (name : string) : nat := default 0 (st.1 !! name).

(** An outcome: [None] is exhausted fuel. *)
Abbreviation visited := (option (result LaunchError dfs)).
Definition then_visit (m : visited) (k : dfs → visited) : visited :=
  match m with Some (Ok st) => k st | _ => m end.

Section visit.
Context (byName : gmap string ServiceSpec).

Fixpoint visit (fuel : nat) (name : string) (st : dfs) : visited :=
  match fuel with
  | O => None
  | S fuel =>
    if mark st name =? 1 then Some (Err (fail ErrRuntime))
    else if mark st name =? 2 then Some (Ok st)
    else
      match byName !! name with
      | None => Some (Err (fail ErrRuntime))
      | Some s =>
        then_visit
          ((fix deps (l : list string) (st : dfs) : visited :=
              match l with
              | [] => Some (Ok st)
              | d :: l => then_visit (visit fuel d st) (deps l)
              end) (sort_strings (elems (sp_Dependencies s))) (<[name := 1]> st.1, st.2))
          (λ st, Some (Ok (<[name := 2]> st.1, st.2 ++ [s])))
      end
  end.
Fixpoint visit_all (fuel : nat) (l : list string) (st : dfs) : visited :=
  match l with
  | [] => Some (Ok st)
  | d :: l => then_visit (visit fuel d st) (visit_all fuel l)
  end.
End visit.

(** The map by name; a duplicate is refused. *)
Fixpoint by_name (l : list ServiceSpec) (acc : gmap string ServiceSpec)
    : result LaunchError (gmap string ServiceSpec) :=
  match l with
  | [] => Ok acc
  | s :: l =>
    if bool_decide (is_Some (acc !! sp_Name s)) then Err (fail ErrRuntime)
    else by_name l (<[sp_Name s := s]> acc)
  end.

Definition order_from (services : list ServiceSpec) : option (result LaunchError (list ServiceSpec)) :=
  match by_name services ∅ with
  | Err e => Some (Err e)
  | Ok m =>
    match visit_all m (S (size m)) (sorted_keys m) (∅, []) with
    | Some (Ok st) => Some (Ok st.2)
    | Some (Err e) => Some (Err e)
    | None => None
    end
  end.
Definition OrderServices (services : list ServiceSpec) : result LaunchError (list ServiceSpec) :=
  match order_from services with Some r => r | None => Err (fail ErrRuntime) end.

Definition validateDependencies (ordered : list ServiceSpec) (all : gmap string ServiceSpec)
    : option LaunchError :=
  err_each (λ s, err_each (λ d,
    err_if (negb (bool_decide (is_Some (all !! d)))) (fail ErrRuntime) None)
    (elems (sp_Dependencies s))) ordered.

(** * What an order is *)

Definition names (l : list ServiceSpec) : list string := sp_Name <$> l.
Definition deps_of (s : ServiceSpec) : list string := elems (sp_Dependencies s).

(** Every service comes after all it depends on. *)
Inductive ordered_deps : list ServiceSpec → Prop :=
| od_nil : ordered_deps []
| od_snoc l s : ordered_deps l → (∀ d, d ∈ deps_of s → d ∈ names l) → ordered_deps (l ++ [s]).

(** * The search *)

Section search.
Context (byName : gmap string ServiceSpec) (Hnames : ∀ n s, byName !! n = Some s → sp_Name s = n).

(** The loop over dependencies is [visit_all]. *)
Lemma visit_S fuel name st :
  visit byName (S fuel) name st =
    if mark st name =? 1 then Some (Err (fail ErrRuntime))
    else if mark st name =? 2 then Some (Ok st)
    else match byName !! name with
         | None => Some (Err (fail ErrRuntime))
         | Some s =>
           then_visit (visit_all byName fuel (sort_strings (deps_of s)) (<[name := 1]> st.1, st.2))
             (λ st, Some (Ok (<[name := 2]> st.1, st.2 ++ [s])))
         end.
Proof.
  cbn [visit]. destruct (_ =? 1); [done|]. destruct (_ =? 2); [done|].
  destruct (byName !! name) as [s|]; [|done]. unfold deps_of. f_equal.
  generalize (<[name := 1]> st.1, st.2). induction (sort_strings (elems (sp_Dependencies s))) as [|d l IH];
    intros st'; cbn [visit_all]; [done|].
  destruct (visit byName fuel d st') as [[st2|]|]; cbn [then_visit]; [apply IH|done|done].
Qed.

Lemma mark_insert st name k x :
  mark (<[name := k]> st.1, st.2) x = if decide (x = name) then k else mark st x.
Proof.
  unfold mark. cbn [fst]. case_decide as E; [subst; by rewrite lookup_insert_eq|].
  by rewrite lookup_insert_ne by congruence.
Qed.

(** The invariant: the done names are those of the services ordered, which are known,
distinct and in order. *)
Record dfs_ok (st : dfs) : Prop := {
  ok_done x : mark st x = 2 ↔ x ∈ names st.2;
  ok_known s : s ∈ st.2 → byName !! sp_Name s = Some s;
  ok_nodup : NoDup (names st.2);
  ok_order : ordered_deps st.2;
}.
(** What a visit keeps: the open names, and what was ordered before. *)
Definition extends (st st' : dfs) : Prop :=
  (∀ x, mark st' x = 1 ↔ mark st x = 1) ∧ ∃ l, st'.2 = st.2 ++ l.

Lemma extends_refl st : extends st st.
Proof. split; [done|]. exists []. by rewrite app_nil_r. Qed.
Lemma extends_trans st1 st2 st3 : extends st1 st2 → extends st2 st3 → extends st1 st3.
Proof.
  intros [H1 [l1 E1]] [H2 [l2 E2]]. split; [naive_solver|].
  exists (l1 ++ l2). by rewrite E2, E1, app_assoc.
Qed.
Lemma extends_done st st' x : extends st st' → x ∈ names st.2 → x ∈ names st'.2.
Proof. intros [_ [l ->]]. unfold names. rewrite fmap_app. set_solver. Qed.

Lemma then_visit_Ok m k st : then_visit m k = Some (Ok st) ↔ ∃ st1, m = Some (Ok st1) ∧ k st1 = Some (Ok st).
Proof. destruct m as [[]|]; cbn; naive_solver. Qed.

(** Opening an unseen name, and closing it. *)
Lemma open_ok name st : dfs_ok st → mark st name ≠ 2 → dfs_ok (<[name := 1]> st.1, st.2).
Proof.
  intros [Hd Hk Hn Ho] Hm. split; cbn [snd]; [|done..]. intros x. rewrite mark_insert, <-Hd.
  case_decide as E; [subst|done]. split; [done|]. intros ?. done.
Qed.
Lemma close_ok name s st :
  byName !! name = Some s → dfs_ok st → mark st name = 1 → (∀ d, d ∈ deps_of s → d ∈ names st.2) →
  dfs_ok (<[name := 2]> st.1, st.2 ++ [s]).
Proof.
  intros Hs [Hd Hk Hn Ho] Hm Hdeps. pose proof (Hnames _ _ Hs) as Hname.
  assert (Hfresh : name ∉ names st.2) by (rewrite <-Hd; congruence).
  split; cbn [snd].
  - intros x. unfold mark. cbn [fst]. unfold names. rewrite fmap_app, elem_of_app. cbn [fmap list_fmap].
    rewrite Hname, list_elem_of_singleton. destruct (decide (x = name)) as [->|Hx].
    + rewrite lookup_insert_eq. naive_solver.
    + rewrite lookup_insert_ne by congruence. change (default 0 (st.1 !! x)) with (mark st x).
      rewrite Hd. naive_solver.
  - intros s' [Hs'|Hs']%elem_of_app; [by apply Hk|]. apply list_elem_of_singleton in Hs' as ->.
    by rewrite Hname.
  - unfold names. rewrite fmap_app. apply NoDup_app. split; [done|]. cbn. split; [|apply NoDup_singleton].
    intros x Hx ->%list_elem_of_singleton. by rewrite Hname in Hx.
  - by constructor.
Qed.

Definition visit_spec (fuel : nat) : Prop := ∀ name st st',
  dfs_ok st → visit byName fuel name st = Some (Ok st') →
  dfs_ok st' ∧ extends st st' ∧ name ∈ names st'.2.
Lemma visit_all_sound fuel l : visit_spec fuel → ∀ st st',
  dfs_ok st → visit_all byName fuel l st = Some (Ok st') →
  dfs_ok st' ∧ extends st st' ∧ ∀ x, x ∈ l → x ∈ names st'.2.
Proof.
  intros Hv. induction l as [|d l IH]; intros st st' Hok; cbn [visit_all].
  { intros [= <-]. split; [done|]. split; [apply extends_refl|set_solver]. }
  intros (st1 & H1 & H2)%then_visit_Ok. apply Hv in H1 as (Hok1 & Hext1 & Hd); [|done].
  apply IH in H2 as (Hok2 & Hext2 & Hl); [|done]. split; [done|].
  split; [by eapply extends_trans|]. intros x [->|Hx]%elem_of_cons; [by eapply extends_done|auto].
Qed.
Lemma visit_sound fuel : visit_spec fuel.
Proof.
  induction fuel as [|fuel IH]; intros name st st' Hok; [done|]. rewrite visit_S.
  destruct (Nat.eqb_spec (mark st name) 1) as [|H1]; [done|].
  destruct (Nat.eqb_spec (mark st name) 2) as [H2|H2].
  { intros [= <-]. split; [done|]. split; [apply extends_refl|]. by apply (ok_done _ Hok). }
  destruct (byName !! name) as [s|] eqn:Es; [|done].
  intros (st2 & Hall & E)%then_visit_Ok. injection E as <-.
  apply (visit_all_sound _ _ IH) in Hall as (Hok2 & [Hm [l El]] & Hdeps); [|by apply open_ok].
  assert (Hopen : mark st2 name = 1) by (rewrite Hm, mark_insert; by rewrite decide_True).
  split; [|split].
  - apply (close_ok name); [done..|]. intros d Hd. apply Hdeps. by apply elem_of_sort_strings.
  - split; [|exists (l ++ [s]); cbn in *; by rewrite El, app_assoc].
    intros x. change (<[name := 2]> st2.1, st2.2 ++ [s]) with (<[name := 2]> (st2.1, st2.2 ++ [s]).1, (st2.1, st2.2 ++ [s]).2).
    rewrite mark_insert. case_decide as Ex; [by subst|].
    change (mark (st2.1, st2.2 ++ [s]) x) with (mark st2 x). rewrite Hm, mark_insert.
    by rewrite decide_False.
  - cbn [snd]. unfold names. rewrite fmap_app, elem_of_app. right. cbn.
    rewrite (Hnames _ _ Es). by left.
Qed.

(** ** Fuel *)

(** The names that are open. *)
Definition open_names (st : dfs) : gset string := filter (λ x, mark st x = 1) (dom byName).
Lemma open_names_extends st st' : extends st st' → open_names st' = open_names st.
Proof. intros [H _]. apply set_eq. intros x. unfold open_names. rewrite !elem_of_filter. naive_solver. Qed.
Lemma open_names_insert st name :
  is_Some (byName !! name) → mark st name ≠ 1 →
  size (open_names (<[name := 1]> st.1, st.2)) = S (size (open_names st)).
Proof.
  intros Hs Hm.
  assert (E : open_names (<[name := 1]> st.1, st.2) = {[name]} ∪ open_names st).
  { apply set_eq. intros x. unfold open_names.
    rewrite elem_of_union, elem_of_singleton, !elem_of_filter, mark_insert. case_decide as Ex.
    - subst. rewrite elem_of_dom. naive_solver.
    - naive_solver. }
  rewrite E, size_union; [by rewrite size_singleton|].
  apply disjoint_singleton_l. unfold open_names. rewrite elem_of_filter. naive_solver.
Qed.
Lemma open_names_size st : size (open_names st) ≤ size byName.
Proof.
  rewrite <-(size_dom byName). apply subseteq_size. intros x. unfold open_names.
  rewrite elem_of_filter. naive_solver.
Qed.

Definition total_spec (fuel : nat) : Prop := ∀ name st,
  dfs_ok st → size byName < fuel + size (open_names st) → visit byName fuel name st ≠ None.
Lemma visit_all_total fuel l : total_spec fuel → ∀ st,
  dfs_ok st → size byName < fuel + size (open_names st) → visit_all byName fuel l st ≠ None.
Proof.
  intros Ht. induction l as [|d l IH]; intros st Hok Hf; cbn [visit_all]; [done|].
  destruct (visit byName fuel d st) as [[st1|]|] eqn:E; cbn [then_visit]; [|done|by apply Ht in E].
  apply visit_sound in E as (Hok1 & Hext & _); [|done]. apply IH; [done|].
  by rewrite (open_names_extends _ _ Hext).
Qed.
Lemma visit_total fuel : total_spec fuel.
Proof.
  induction fuel as [|fuel IH]; intros name st Hok Hf.
  { pose proof (open_names_size st). lia. }
  rewrite visit_S. destruct (Nat.eqb_spec (mark st name) 1) as [|H1]; [done|].
  destruct (Nat.eqb_spec (mark st name) 2) as [H2|H2]; [done|].
  destruct (byName !! name) as [s|] eqn:Es; [|done].
  destruct (visit_all _ _ _ _) as [[st1|]|] eqn:E; cbn [then_visit]; [done|done|].
  apply visit_all_total in E; [done|done|by apply open_ok|].
  rewrite open_names_insert by (done || by eexists). lia.
Qed.
End search.

(** ** Completeness *)

Section complete.
Context (byName : gmap string ServiceSpec) (Hnames : ∀ n s, byName !! n = Some s → sp_Name s = n).
(** All dependencies are known and rank below what depends on them. *)
Context (rank : string → nat).
Context (Hrank : ∀ n s d, byName !! n = Some s → d ∈ deps_of s → is_Some (byName !! d) ∧ rank d < rank n).

Definition above (st : dfs) (name : string) : Prop := ∀ x, mark st x = 1 → rank name < rank x.
Definition complete_spec (fuel : nat) : Prop := ∀ name st e,
  dfs_ok byName st → is_Some (byName !! name) → above st name →
  visit byName fuel name st ≠ Some (Err e).

Lemma visit_all_complete fuel l : complete_spec fuel → ∀ st e,
  dfs_ok byName st → (∀ d, d ∈ l → is_Some (byName !! d) ∧ above st d) →
  visit_all byName fuel l st ≠ Some (Err e).
Proof.
  intros Hc. induction l as [|d l IH]; intros st e Hok Hl; cbn [visit_all]; [done|].
  destruct (Hl d) as [Hd Ha]; [by left|].
  destruct (visit byName fuel d st) as [[st1|e1]|] eqn:E; cbn [then_visit]; [|by apply Hc in E|done].
  apply visit_sound in E as (Hok1 & [Hm _] & _); [|done|done]. apply IH; [done|].
  intros d' Hd'. destruct (Hl d') as [? Ha']; [by right|]. split; [done|].
  intros x Hx. apply Ha'. by rewrite <-Hm.
Qed.
Lemma visit_complete fuel : complete_spec fuel.
Proof.
  induction fuel as [|fuel IH]; intros name st e Hok [s Hs] Ha; [done|]. rewrite visit_S.
  destruct (Nat.eqb_spec (mark st name) 1) as [H1|H1]; [apply Ha in H1; lia|].
  destruct (Nat.eqb_spec (mark st name) 2) as [H2|H2]; [done|]. rewrite Hs.
  destruct (visit_all _ _ _ _) as [[st1|e1]|] eqn:E; cbn [then_visit]; [done| |done].
  exfalso. revert E. apply (visit_all_complete _ _ IH); [by apply open_ok|].
  intros d Hd. apply (proj1 (elem_of_sort_strings _ _)) in Hd. destruct (Hrank _ _ _ Hs Hd) as [Hk Hlt]. split; [done|].
  intros x. rewrite mark_insert. case_decide as Ex; [by subst|]. intros Hx. apply Ha in Hx. lia.
Qed.
End complete.

(** * The map by name *)

Lemma by_name_Ok l acc m :
  by_name l acc = Ok m →
  NoDup (names l) ∧ (∀ n, n ∈ names l → acc !! n = None) ∧
  ∀ n s, m !! n = Some s ↔ acc !! n = Some s ∨ (s ∈ l ∧ sp_Name s = n).
Proof.
  revert acc. induction l as [|s l IH]; intros acc; cbn [by_name].
  { intros [= <-]. split; [constructor|]. set_solver. }
  case_bool_decide as Hnew; [done|]. apply eq_None_not_Some in Hnew.
  intros (Hnd & Hfresh & Hm)%IH.
  assert (Hs : sp_Name s ∉ names l).
  { intros Hin%Hfresh. by rewrite lookup_insert_eq in Hin. }
  split; [by constructor|]. split.
  - intros n [->|Hn]%elem_of_cons; [done|]. apply Hfresh in Hn as Hn'.
    rewrite lookup_insert_ne in Hn'; [done|]. intros E. by rewrite E in Hs.
  - intros n s'. rewrite Hm, elem_of_cons. destruct (decide (sp_Name s = n)) as [<-|Hne].
    + rewrite lookup_insert_eq, Hnew. split.
      * intros [[= <-]|[Hin E]]; [by right; split; [left|]|]. exfalso. apply Hs. rewrite <-E.
        by apply list_elem_of_fmap_2.
      * intros [?|[[->|Hin] E]]; [done|by left|by right].
    + rewrite lookup_insert_ne by done. naive_solver.
Qed.
Lemma by_name_total l acc :
  NoDup (names l) → (∀ n, n ∈ names l → acc !! n = None) → ∃ m, by_name l acc = Ok m.
Proof.
  revert acc. induction l as [|s l IH]; intros acc; cbn [by_name names fmap list_fmap]; [by eexists|].
  intros [Hs Hnd]%NoDup_cons Hacc. rewrite bool_decide_eq_false_2.
  - apply IH; [done|]. intros n Hn. rewrite lookup_insert_ne; [apply Hacc; by right|].
    intros E. by rewrite E in Hs.
  - rewrite Hacc by (by left). by intros [? ?].
Qed.

(** * The rank of a valid order *)

Definition rank_in (l : list ServiceSpec) (n : string) : nat :=
  match list_find (λ x, x = n) (names l) with Some (i, _) => i | None => length l end.
Lemma rank_in_lt l n : n ∈ names l → rank_in l n < length l.
Proof.
  intros Hn. unfold rank_in. destruct (list_find (λ x, x = n) (names l)) as [[i x]|] eqn:E.
  - apply list_find_Some in E as (E & _ & _). apply lookup_lt_Some in E.
    unfold names in E. by rewrite length_fmap in E.
  - apply list_find_None in E. rewrite Forall_forall in E. by destruct (E n Hn).
Qed.
Lemma rank_in_app l1 l2 n : n ∈ names l1 → rank_in (l1 ++ l2) n = rank_in l1 n.
Proof.
  intros Hn. unfold rank_in, names. rewrite fmap_app.
  destruct (list_find (λ x, x = n) (sp_Name <$> l1)) as [[i x]|] eqn:E.
  - by rewrite (list_find_app_l _ _ _ _ _ E).
  - apply list_find_None in E. rewrite Forall_forall in E. by destruct (E n Hn).
Qed.
Lemma rank_in_last l s : sp_Name s ∉ names l → rank_in (l ++ [s]) (sp_Name s) = length l.
Proof.
  intros Hn. unfold rank_in, names. rewrite fmap_app. cbn [fmap list_fmap].
  assert (E : list_find (λ x, x = sp_Name s) (sp_Name <$> l) = None).
  { apply list_find_None, Forall_forall. intros x Hx ->. done. }
  rewrite list_find_app_r by done. cbn. rewrite decide_True by done. cbn. rewrite length_fmap. lia.
Qed.
Lemma ordered_rank l : ordered_deps l → NoDup (names l) → ∀ s d,
  s ∈ l → d ∈ deps_of s → d ∈ names l ∧ rank_in l d < rank_in l (sp_Name s).
Proof.
  induction 1 as [|l s' Hl IH Hs']; intros Hnd s d; [set_solver|].
  unfold names in Hnd. rewrite fmap_app, NoDup_app in Hnd. destruct Hnd as (Hnd & Hdisj & _).
  assert (Hfresh : sp_Name s' ∉ names l).
  { intros Hin. apply (Hdisj _ Hin). cbn. by left. }
  rewrite elem_of_app, list_elem_of_singleton. intros [Hin| ->] Hd.
  - destruct (IH Hnd s d Hin Hd) as [Hdn Hlt]. split; [unfold names; rewrite fmap_app; set_solver|].
    rewrite !rank_in_app; [done| |done]. by apply list_elem_of_fmap_2.
  - apply Hs' in Hd. split; [unfold names; rewrite fmap_app; set_solver|].
    rewrite rank_in_app, rank_in_last by done. by apply rank_in_lt.
Qed.

(** * The property *)

Lemma start_ok m : dfs_ok m (∅, []).
Proof.
  split; cbn [snd names fmap list_fmap]; [|set_solver|constructor|constructor].
  intros x. unfold mark. cbn [fst]. rewrite lookup_empty. set_solver.
Qed.

Lemma order_from_total services : order_from services ≠ None.
Proof.
  unfold order_from. destruct (by_name services ∅) as [m|] eqn:Em; [|done].
  apply by_name_Ok in Em as (_ & _ & Hm).
  assert (Hnames : ∀ n s, m !! n = Some s → sp_Name s = n) by (intros n s; rewrite Hm; set_solver).
  destruct (visit_all m _ _ _) as [[st|]|] eqn:E; [done|done|]. exfalso. revert E.
  apply visit_all_total; [done|by apply visit_total|by apply start_ok|]. lia.
Qed.

Lemma OrderServices_Ok services ordered :
  OrderServices services = Ok ordered →
  NoDup (names services) ∧ ordered ≡ₚ services ∧ ordered_deps ordered.
Proof.
  unfold OrderServices, order_from. destruct (by_name services ∅) as [m|] eqn:Em; [|done].
  apply by_name_Ok in Em as (Hnd & _ & Hm).
  assert (Hnames : ∀ n s, m !! n = Some s → sp_Name s = n) by (intros n s; rewrite Hm; set_solver).
  destruct (visit_all m _ _ _) as [[st|]|] eqn:E; [|done|done]. intros [= <-].
  apply visit_all_sound in E as (Hok & _ & Hall); [|done|by apply visit_sound|by apply start_ok].
  split; [done|]. split; [|by apply Hok].
  apply NoDup_Permutation; [by eapply NoDup_fmap_1, Hok|by eapply NoDup_fmap_1|].
  intros s. split.
  - intros Hs. apply Hok in Hs. apply Hm in Hs as [Hs|[Hs _]]; [by rewrite lookup_empty in Hs|done].
  - intros Hs. assert (Hms : m !! sp_Name s = Some s) by (apply Hm; by right).
    assert (Hin : sp_Name s ∈ names st.2) by (apply Hall, elem_of_sorted_keys; by eexists).
    apply list_elem_of_fmap in Hin as (s' & E & Hs'). apply (ok_known _ _ Hok) in Hs' as Hk.
    rewrite <-E, Hms in Hk. by injection Hk as ->.
Qed.

Lemma OrderServices_complete services l :
  NoDup (names services) → l ≡ₚ services → ordered_deps l → is_ok (OrderServices services) = true.
Proof.
  intros Hnd Hl Hord. unfold OrderServices, order_from.
  destruct (by_name_total services ∅ Hnd) as [m Em]; [intros; apply lookup_empty|].
  rewrite Em. apply by_name_Ok in Em as (_ & _ & Hm).
  assert (Hm' : ∀ n s, m !! n = Some s ↔ s ∈ l ∧ sp_Name s = n).
  { intros n s. rewrite Hm, lookup_empty, Hl. naive_solver. }
  assert (Hnames : ∀ n s, m !! n = Some s → sp_Name s = n) by (intros n s; rewrite Hm'; naive_solver).
  assert (Hndl : NoDup (names l)) by (unfold names; by rewrite Hl).
  assert (Hrank : ∀ n s d, m !! n = Some s → d ∈ deps_of s → is_Some (m !! d) ∧ rank_in l d < rank_in l n).
  { intros n s d [Hs <-]%Hm' Hd. destruct (ordered_rank l Hord Hndl s d Hs Hd) as [Hin Hlt].
    split; [|done]. apply list_elem_of_fmap in Hin as (s' & -> & Hs'). exists s'. by apply Hm'. }
  destruct (visit_all m _ _ _) as [[st|e]|] eqn:E; [done| |].
  - exfalso. revert E.
    apply (visit_all_complete m Hnames (rank_in l) _ _ (visit_complete m Hnames (rank_in l) Hrank _));
      [by apply start_ok|]. intros d Hd%elem_of_sorted_keys. split; [done|].
    intros x. unfold mark. cbn [fst]. by rewrite lookup_empty.
  - exfalso. revert E.
    apply visit_all_total; [done|by apply visit_total|by apply start_ok|]. lia.
Qed.

(** C22: The start order is a topological sort, and it is found whenever there is one: a
successful [OrderServices] returns a permutation of the services in which every
service comes after all its dependencies; it succeeds exactly when the names are
distinct and such an order exists, so it fails only for a duplicate name, a missing
dependency or a cycle; and the recursion always ends. *)
Theorem order_services_spec services :
  order_from services ≠ None ∧
  (∀ ordered, OrderServices services = Ok ordered → ordered ≡ₚ services ∧ ordered_deps ordered) ∧
  (is_ok (OrderServices services) = true ↔
   NoDup (names services) ∧ ∃ l, l ≡ₚ services ∧ ordered_deps l).
Proof.
  split; [apply order_from_total|]. split; [by intros ordered (_ & ? & ?)%OrderServices_Ok|]. split.
  - destruct (OrderServices services) as [l|] eqn:E; [|done].
    intros _. apply OrderServices_Ok in E as (? & ? & ?). split; [done|by exists l].
  - intros (Hnd & l & Hl & Hord). by eapply OrderServices_complete.
Qed.
