(* ===== verification/LaunchProvider.v ===== *)
(** The secrets of one launch (src/internal/secretlaunch/provider.go): the exact-version
adapter over a provider and the fetch of a service's key set.  The clearing of buffers
is not represented. *)

From S2P Require Import Prelude GoStrings Provider LaunchError LaunchTypes LaunchManifest LaunchSession Effects.
#[local] Open Scope go_scope.

Record SecretBuffer := mkBuffer { sb_Key : string; sb_Version : string; sb_Env : string; sb_Bytes : string }.
Abbreviation SecretSet := (gmap string SecretBuffer).

(** An error of the runtime: a [LaunchError] or one of another type ([None]). *)
Abbreviation rt_error := (option LaunchError).
Definition own {A} (r : result LaunchError A) : result rt_error A :=
  match r with Ok a => Ok a | Err e => Err (Some e) end.

(** [SkretProvider.Fetch] over a provider that may read exact versions. *)
Definition skret_Fetch (reader : option (string → Z → option Secret))
    (key version : string) : result LaunchError string :=
  if negb (validKeyName key) || negb (validProviderVersion version) then Err (fail ErrFetch)
  else
    let numeric := default 0%Z (ParseInt version) in
    match reader with
    | None => Err (fail ErrNoProvider)
    | Some get =>
      match get key numeric with
      | None => Err (fail ErrFetch)
      | Some s =>
        if negb (sec_Version s =? numeric)%Z || negb (bool_decide (Provider.Key s = key)) then Err (fail ErrFetch)
        else Ok (Value s)
      end
    end.

Section fetch.
Context {W : Type} (fetch : string → string → act W rt_error (option string)).

(** The loop of [FetchSecrets]. *)
Fixpoint fetch_loop (keys : list ManifestKey) (items : SecretSet) : act W rt_error SecretSet :=
  match keys with
  | [] => ret items
  | k :: keys =>
    let refuse c := throw (Some (failKey c (mk_Name k))) in
    if negb (validKeyName (mk_Name k)) || negb (validProviderVersion (mk_Version k)) ||
       negb (validEnvName (mk_Env k)) then refuse ErrKey
    else if bool_decide (is_Some (items !! mk_Name k)) then refuse ErrKey
    else
      do! value := fetch (mk_Name k) (mk_Version k) in
      match value with
      | Some v =>
        if (MaxValueLength <? len v)%Z then refuse ErrFetch
        else fetch_loop keys (<[mk_Name k := mkBuffer (mk_Name k) (mk_Version k) (mk_Env k) v]> items)
      | None => refuse ErrFetch
      end
  end.
Definition FetchSecrets (keys : list ManifestKey) : act W rt_error SecretSet :=
  if length keys =? 0 then throw (Some (fail ErrNoProvider)) else fetch_loop keys ∅.
End fetch.


(** A set of secrets is the one for some keys: each key's own value, under its exact
version and environment name and with the property [Q], and nothing else. *)
Definition item_for (k : ManifestKey) (value : string) : SecretBuffer :=
  mkBuffer (mk_Name k) (mk_Version k) (mk_Env k) value.
Definition set_for (Q : ManifestKey → string → Prop) (keys : list ManifestKey) (items : SecretSet) : Prop :=
  NoDup (mk_Name <$> keys) ∧ dom items = list_to_set (mk_Name <$> keys) ∧
  ∀ k, k ∈ keys → ∃ v, items !! mk_Name k = Some (item_for k v) ∧ Q k v.
(** A value that fits into a frame. *)
Definition fits (_ : ManifestKey) (v : string) : Prop := (len v ≤ MaxValueLength)%Z.

Lemma set_for_nil Q : set_for Q [] ∅.
Proof. split; [constructor|]. split; [by rewrite dom_empty_L|]. intros k []%not_elem_of_nil. Qed.
Lemma set_for_insert (Q : ManifestKey → string → Prop) keys items k v :
  set_for Q keys items → items !! mk_Name k = None → Q k v →
  set_for Q (keys ++ [k]) (<[mk_Name k := item_for k v]> items).
Proof.
  intros (Hnd & Hdom & Hv) Hk Hq.
  assert (Hout : mk_Name k ∉ mk_Name <$> keys).
  { rewrite <-(elem_of_list_to_set (C := gset string)), <-Hdom. by apply not_elem_of_dom. }
  split; [|split].
  - rewrite fmap_app. apply NoDup_app. split; [done|]. split; [|apply NoDup_singleton].
    intros x Hx Hin%list_elem_of_singleton. by subst x.
  - rewrite dom_insert_L, Hdom, fmap_app, list_to_set_app_L. cbn. clear. set_solver.
  - intros k' [Hk'| ->%list_elem_of_singleton]%elem_of_app; [|exists v; by rewrite lookup_insert_eq].
    destruct (Hv k' Hk') as (v' & Hv' & ?). exists v'. rewrite lookup_insert_ne; [done|].
    intros E. apply Hout. rewrite E. by apply list_elem_of_fmap_2.
Qed.
Lemma set_for_size Q keys items : set_for Q keys items → size items = length keys.
Proof.
  intros (Hnd & Hdom & _). rewrite <-size_dom, Hdom, size_list_to_set, length_fmap; done.
Qed.

Section fetched.
Context {W : Type} (fetch : string → string → act W rt_error (option string)).
Context (P : W → Prop) (R : W → Prop) (answered : string → string → string → Prop).
Context (Hfetch : ∀ k v, triple P (fetch k v) (λ r w, P w ∧ ∀ x, r = Some x → answered k v x) R).
Context (HR : ∀ w, P w → R w).

(** A value of a key: the source's answer for its name and version, and not too long. *)
Definition served (k : ManifestKey) (v : string) : Prop :=
  fits k v ∧ answered (mk_Name k) (mk_Version k) v.

Lemma triple_fetch_loop keys before items :
  set_for served before items →
  triple P (fetch_loop fetch keys items) (λ items w, P w ∧ set_for served (before ++ keys) items) R.
Proof.
  revert before items. induction keys as [|k keys IH]; intros before items Hset; cbn [fetch_loop].
  { apply triple_ret. intros w Hw. by rewrite app_nil_r. }
  destruct (_ || _); [by apply triple_throw|]. case_bool_decide as Hnew; [by apply triple_throw|].
  eapply triple_bind; [apply Hfetch|]. intros r. apply triple_pure. intros Hans.
  destruct r as [v|]; [|by apply triple_throw].
  destruct (Z.ltb_spec MaxValueLength (len v)); [by apply triple_throw|].
  replace (before ++ k :: keys) with ((before ++ [k]) ++ keys) by by rewrite <-app_assoc.
  apply IH, set_for_insert; [done| |]; [by apply eq_None_not_Some|]. split; [unfold fits; lia|auto].
Qed.
(** What is fetched is the set for the keys asked for. *)
Lemma triple_FetchSecrets keys :
  triple P (FetchSecrets fetch keys) (λ items w, P w ∧ set_for served keys items) R.
Proof.
  unfold FetchSecrets. destruct (_ =? _); [by apply triple_throw|].
  apply (triple_fetch_loop keys [] ∅), set_for_nil.
Qed.
End fetched.
