(* ===== verification/LaunchSupervisor.v ===== *)
(** The supervisor (src/internal/secretlaunch/supervisor.go): one reconciliation as a program over the container runtime, the
secret provider and the open streams, and the loop around it.

The world is the supervisor's sessions, the streams closed so far and the trace of
calls; the runtime and the provider answer from the trace before the call.  The
clearing of secret buffers is not represented. *)

From S2P Require Import Prelude GoStrings Provider Digest Json LaunchError LaunchTypes LaunchManifest LaunchSession LaunchRuntime LaunchOrder Effects LaunchProvider.
#[local] Open Scope go_scope.

(** * The world *)

Inductive event :=
| EvRender
| EvList (labels : gmap string string)
| EvInspect (id : string)
| EvFetch (key version : string)
| EvCreate (s : ServiceSpec) (labels : gmap string string)
| EvAttach (id : string)
| EvStart (id : string)
| EvSend (id : string) (service : string)
| EvKill (id : string)
| EvClose (stream : nat)
| EvRemove (id : string)
| EvWait
| EvReload
| EvReloadError (e : option LaunchError).
Abbreviation trace := (list event).

Record world := mkWorld { w_sessions : gmap string nat; w_closed : gset nat; w_trace : trace }.
Abbreviation sup := (act world rt_error).

(** The runtime, the provider, the clock, and who else closes a stream: the heartbeat
sender does, when a write fails. *)
Class RuntimeEnv : Type := {
  re_render : trace → RenderedModel → result rt_error RenderedModel;
  re_list : trace → gmap string string → result rt_error (list Container);
  re_inspect : trace → string → result rt_error ContainerState;
  re_create : trace → ServiceSpec → gmap string string → result rt_error Container;
  re_attach : trace → string → option rt_error;
  re_start : trace → string → option rt_error;
  re_kill : trace → string → option rt_error;
  re_remove : trace → string → option rt_error;
  re_fetch : trace → string → string → option string;
  re_send : trace → nat → Manifest → ServiceAuthority → SecretSet → option rt_error;
  re_closed : trace → nat → bool;
  re_now : trace → time;
  (** The context, [WaitDaemon], [Reload] and the select of [Run]: does it end? *)
  re_cancelled : trace → bool;
  re_wait : option (trace → option rt_error);
  re_reload : option (trace → result rt_error Manifest);
  re_done : trace → bool;
}.

Record ReconcileResult := mkReconcile {
  rr_Created : list string; rr_Removed : nat; rr_Reused : list string; rr_FetchedKeys : list string }.
Definition no_result : ReconcileResult := mkReconcile [] 0 [] [].

Section supervisor.
Context {UC : UnicodeCase} {MR : MapRange} {SH : SHA256} {RE : RuntimeEnv}.

Definition push (ev : event) (w : world) : world :=
  mkWorld (w_sessions w) (w_closed w) (w_trace w ++ [ev]).
(** A call that is recorded and answered. *)
Definition call {A} (ev : event) (answer : trace → result rt_error A) : sup A := λ w,
  (push ev w, answer (w_trace w)).
Definition call_error (ev : event) (answer : trace → option rt_error) : sup unit :=
  call ev (λ tr, match answer tr with Some e => Err e | None => Ok () end).

Definition Render (m : RenderedModel) : sup RenderedModel := call EvRender (λ tr, re_render tr m).
Definition List_ (labels : gmap string string) : sup (list Container) :=
  call (EvList labels) (λ tr, re_list tr labels).
Definition Inspect (id : string) : sup ContainerState := call (EvInspect id) (λ tr, re_inspect tr id).
Definition Create (s : ServiceSpec) (labels : gmap string string) : sup Container :=
  call (EvCreate s labels) (λ tr, re_create tr s labels).
(** [Attach] and the tracked stream around it, named by its place in the trace. *)
Definition Attach (id : string) : sup nat := λ w,
  (push (EvAttach id) w,
   match re_attach (w_trace w) id with Some e => Err e | None => Ok (length (w_trace w)) end).
Definition Start (id : string) : sup unit := call_error (EvStart id) (λ tr, re_start tr id).
Definition Kill (id : string) : sup unit := call_error (EvKill id) (λ tr, re_kill tr id).
Definition Remove (id : string) : sup unit := call_error (EvRemove id) (λ tr, re_remove tr id).
Definition Fetch (key version : string) : sup (option string) :=
  call (EvFetch key version) (λ tr, Ok (re_fetch tr key version)).
Definition Send (stream : nat) (id : string) (m : Manifest) (a : ServiceAuthority) (values : SecretSet)
    : sup unit :=
  call_error (EvSend id (sa_Name a)) (λ tr, re_send tr stream m a values).
(** [_ = f()] *)
Definition ignore {A} (m : sup A) : sup unit := bind (attempt m) (λ _, ret ()).

(** ** Sessions *)

(** [trackedStream.Close]: a closed stream is not closed again. *)
Definition close_stream (sid : nat) : sup unit := λ w,
  if bool_decide (sid ∈ w_closed w) then (w, Ok ())
  else (mkWorld (w_sessions w) ({[sid]} ∪ w_closed w) (w_trace w ++ [EvClose sid]), Ok ()).
Definition hasSession (id : string) (w : world) : bool :=
  match w_sessions w !! id with
  | Some sid => negb (bool_decide (sid ∈ w_closed w)) && negb (re_closed (w_trace w) sid)
  | None => false
  end.
Definition closeSession (id : string) : sup unit :=
  do! session := gets (λ w, w_sessions w !! id) in
  run! modify (λ w, mkWorld (delete id (w_sessions w)) (w_closed w) (w_trace w));
  match session with Some sid => close_stream sid | None => ret () end.
Definition trackSession (id : string) (sid : nat) : sup unit :=
  do! previous := gets (λ w, w_sessions w !! id) in
  run! modify (λ w, mkWorld (<[id := sid]> (w_sessions w)) (w_closed w) (w_trace w));
  match previous with Some old => close_stream old | None => ret () end.
(** [Close]: every session, in some order. *)
Definition close_all : sup unit :=
  do! sessions := gets w_sessions in
  run! modify (λ w, mkWorld ∅ (w_closed w) (w_trace w));
  each (λ '(_, sid), close_stream sid) (range_map 3 sessions).

(** ** Reconciliation *)

Definition specs_by_name (l : list ServiceSpec) : gmap string ServiceSpec :=
  foldl (λ m s, <[sp_Name s := s]> m) ∅ l.
Definition authorities_by_name (l : list ServiceAuthority) : gmap string ServiceAuthority :=
  foldl (λ m s, <[sa_Name s := s]> m) ∅ l.

(** The containers that stand for a desired service. *)
Definition matches_service (m : Manifest) (scope : gmap string string)
    (by_name : gmap string ServiceSpec) (c : Container) : bool :=
  let serviceName := label_get (c_Labels c) (label "service") in
  match by_name !! c_Name c with
  | None => false
  | Some s =>
    (bool_decide (serviceName = sp_Name s) || bool_decide (serviceName = "")) &&
    (currentOwnedGeneration (c_Labels c) m (sp_Name s) ||
     olderOwnedGeneration (c_Labels c) scope s (m_Generation m))
  end.
(** Owned containers that stand for no desired service. *)
Definition stale_owned (m : Manifest) (scope : gmap string string)
    (by_name : gmap string ServiceSpec) (c : Container) : bool :=
  let serviceName := label_get (c_Labels c) (label "service") in
  ownedGenerationInScope (c_Labels c) scope (m_Generation m) &&
  negb (bool_decide (serviceName = "")) &&
  match by_name !! serviceName with
  | None => true
  | Some wanted => negb (bool_decide (c_Name c = sp_Name wanted))
  end.

Record pending := mkPending {
  p_service : ServiceSpec; p_authority : ServiceAuthority; p_old : list Container }.

(** The reuse test of one service, then the loop that splits reused from pending. *)
Definition reusable (m : Manifest) (s : ServiceSpec) (existing : list Container) : sup bool :=
  match existing with
  | [c] =>
    do! open := gets (hasSession (c_ID c)) in
    if c_Running c && open then
      do! r := attempt (Inspect (c_ID c)) in
      ret (match r with
           | Ok st => c_Running (cs_Container st) && c_Healthy (cs_Container st) &&
                      currentOwnedGeneration (c_Labels (cs_Container st)) m (sp_Name s)
           | Err _ => false
           end)
    else ret false
  | _ => ret false
  end.
Fixpoint plan_loop (m : Manifest) (matches : string → list Container)
    (authorities : gmap string ServiceAuthority) (services : list ServiceSpec)
    : sup (list pending * list string) :=
  match services with
  | [] => ret ([], [])
  | s :: services =>
    let existing := matches (sp_Name s) in
    do! reuse := reusable m s existing in
    if reuse then
      do! r := plan_loop m matches authorities services in ret (r.1, sp_Name s :: r.2)
    else
      match authorities !! sp_Name s with
      | None => throw (Some (fail ErrBinding))
      | Some a =>
        do! r := plan_loop m matches authorities services in
        ret (mkPending s a existing :: r.1, r.2)
      end
  end.

(** All secrets are fetched before anything is changed. *)
Fixpoint fetch_all (l : list pending) : sup (list (pending * SecretSet)) :=
  match l with
  | [] => ret []
  | p :: l =>
    do! values := FetchSecrets Fetch (elems (sa_Keys (p_authority p))) in
    do! rest := fetch_all l in ret ((p, values) :: rest)
  end.

Definition remove_container (c : Container) : sup unit :=
  run! closeSession (c_ID c); Remove (c_ID c).

(** The loop over one dependency's containers: whether one was found. *)
Fixpoint dependency_loop (m : Manifest) (dependency : string) (expected : ServiceSpec)
    (l : list Container) : sup bool :=
  match l with
  | [] => ret false
  | c :: l =>
    if negb (bool_decide (c_Name c = dependency)) ||
       negb (currentOwnedGeneration (c_Labels c) m (sp_Name expected))
    then dependency_loop m dependency expected l
    else
      do! r := attempt (Inspect (c_ID c)) in
      match r with
      | Ok st =>
        if negb (c_Running (cs_Container st)) || negb (c_Healthy (cs_Container st)) ||
           negb (currentOwnedGeneration (c_Labels (cs_Container st)) m (sp_Name expected))
        then throw (Some (fail ErrRuntime))
        else do! _ := dependency_loop m dependency expected l in ret true
      | Err _ => throw (Some (fail ErrRuntime))
      end
  end.
Definition checkDependencies (s : ServiceSpec) (all : gmap string ServiceSpec) (m : Manifest) : sup unit :=
  each (λ dependency,
    match all !! dependency with
    | None => throw (Some (fail ErrRuntime))
    | Some expected =>
      do! containers := List_ (OwnershipLabels m) in
      do! found := dependency_loop m dependency expected containers in
      if found then ret () else throw (Some (fail ErrRuntime))
    end) (elems (sp_Dependencies s)).

(** Create, attach, start and send: a failure undoes what was done. *)
Definition launch (m : Manifest) (p : pending) (values : SecretSet) : sup unit :=
  do! c := Create (p_service p) (LaunchLabels m (p_service p)) in
  do! attached := attempt (Attach (c_ID c)) in
  match attached with
  | Err e => run! ignore (Remove (c_ID c)); throw e
  | Ok stream =>
    do! started := attempt (Start (c_ID c)) in
    match started with
    | Err e => run! close_stream stream; run! ignore (Remove (c_ID c)); throw e
    | Ok _ =>
      do! sent := attempt (Send stream (c_ID c) m (p_authority p) values) in
      match sent with
      | Err e =>
        run! ignore (Kill (c_ID c)); run! close_stream stream; run! ignore (Remove (c_ID c)); throw e
      | Ok _ => trackSession (c_ID c) stream
      end
    end
  end.
(** The result is built as the work is done: a container counts when it was removed, a
service when its session is tracked. *)
Definition removed_one (res : ReconcileResult) : ReconcileResult :=
  mkReconcile (rr_Created res) (S (rr_Removed res)) (rr_Reused res) (rr_FetchedKeys res).
Definition created_one (name : string) (res : ReconcileResult) : ReconcileResult :=
  mkReconcile (rr_Created res ++ [name]) (rr_Removed res) (rr_Reused res) (rr_FetchedKeys res).
Fixpoint remove_all (l : list Container) (res : ReconcileResult) : sup ReconcileResult :=
  match l with
  | [] => ret res
  | c :: l => run! remove_container c; remove_all l (removed_one res)
  end.
Definition start_pending (all : gmap string ServiceSpec) (m : Manifest) (pv : pending * SecretSet)
    (res : ReconcileResult) : sup ReconcileResult :=
  do! res := remove_all (p_old pv.1) res in
  run! checkDependencies (p_service pv.1) all m;
  run! launch m pv.1 pv.2;
  ret (created_one (sp_Name (p_service pv.1)) res).
Fixpoint start_all (all : gmap string ServiceSpec) (m : Manifest) (work : list (pending * SecretSet))
    (res : ReconcileResult) : sup ReconcileResult :=
  match work with
  | [] => ret res
  | pv :: work => do! res := start_pending all m pv res in start_all all m work res
  end.

Definition uniqueStrings (l : list string) : list string :=
  (fix go last l := match l with
   | [] => []
   | v :: l => if bool_decide (v = last) then go last l else v :: go v l
   end) "" l.

Definition Reconcile (model : RenderedModel) (m : Manifest) : sup ReconcileResult :=
  do! now := gets (λ w, re_now (w_trace w)) in
  run! guard (Some <$> ValidateAt m now);
  run! guard (Some <$> ValidateManifestModel m model);
  do! rendered := Render model in
  run! guard (Some <$> ValidateManifestModel m rendered);
  let scope := OwnershipScopeLabels m in
  run! guard (if bool_decide (scope = ∅) then Some (Some (fail ErrBinding)) else None);
  do! containers := List_ scope in
  let services := elems (rm_Services rendered) in
  do! ordered := lift (own (OrderServices services)) in
  let by_name := specs_by_name services in
  run! guard (Some <$> validateDependencies ordered by_name);
  let matches name := filter (λ c, c_Name c = name ∧ matches_service m scope by_name c = true) containers in
  let stale := filter (λ c, stale_owned m scope by_name c = true) containers in
  do! plan := plan_loop m matches (authorities_by_name (elems (m_Services m))) ordered in
  do! work := fetch_all plan.1 in
  let fetched := uniqueStrings (sort_strings
    (pv ← work; mk_Name <$> elems (sa_Keys (p_authority pv.1)))) in
  do! res := remove_all stale (mkReconcile [] 0 plan.2 fetched) in
  start_all by_name m work res.

(** ** Orphans, reload, recovery *)

Fixpoint scavenge_loop (labels : gmap string string) (removed : nat) (l : list Container) : sup nat :=
  match l with
  | [] => ret removed
  | c :: l =>
    if negb (ExactLabels (c_Labels c) labels) then scavenge_loop labels removed l
    else run! remove_container c; scavenge_loop labels (S removed) l
  end.
Definition ScavengeOrphans (labels : gmap string string) : sup nat :=
  if bool_decide (labels = ∅) then throw (Some (fail ErrRuntime))
  else do! containers := List_ labels in scavenge_loop labels 0 containers.

(** [refreshManifest]: the reloaded manifest when it is an acceptable renewal. *)
Definition refreshManifest (current : Manifest) : sup Manifest :=
  match re_reload with
  | None => ret current
  | Some reload =>
    do! loaded := attempt (call EvReload reload) in
    match loaded with
    | Err e => run! call_error (EvReloadError e) (λ _, None); ret current
    | Ok candidate =>
      do! now := gets (λ w, re_now (w_trace w)) in
      match AcceptRenewal current candidate now with
      | Some e => run! call_error (EvReloadError (Some e)) (λ _, None); ret current
      | None => ret candidate
      end
    end
  end.

(** What follows an error of an attempt: a daemon outage is waited out. *)
Definition recover (e : rt_error) : sup unit :=
  match re_wait with
  | Some wait =>
    if negb (bool_decide (errorCode e = ErrDaemon)) then throw e
    else
      do! waited := attempt (call_error EvWait wait) in
      match waited with
      | Ok _ => ret ()
      | Err _ =>
        do! cancelled := gets (λ w, re_cancelled (w_trace w)) in
        throw (if cancelled then None else Some (fail ErrDaemon))
      end
  | None => throw e
  end.
(** One turn of the loop: whether it reconciled. *)
Definition recovery_turn (model : RenderedModel) (m : Manifest) : sup bool :=
  do! cancelled := gets (λ w, re_cancelled (w_trace w)) in
  if cancelled then throw None
  else
    do! scavenged := attempt (ScavengeOrphans (OwnershipLabels m)) in
    match scavenged with
    | Err e => run! recover e; ret false
    | Ok _ =>
      do! reconciled := attempt (Reconcile model m) in
      match reconciled with
      | Ok _ => ret true
      | Err e => run! recover e; ret false
      end
    end.
(** The loop, for at most [fuel] turns: [false] when they did not suffice. *)
Fixpoint reconcileWithRecovery (fuel : nat) (model : RenderedModel) (m : Manifest) : sup bool :=
  match fuel with
  | O => ret false
  | S fuel =>
    do! finished := recovery_turn model m in
    if finished then ret true else reconcileWithRecovery fuel model m
  end.

(** [Run] reconciles, then again at every tick: [true] when it returns nil. *)
Fixpoint run_loop (ticks fuel : nat) (model : RenderedModel) (m : Manifest) : sup bool :=
  do! r := attempt (reconcileWithRecovery fuel model m) in
  match r with
  | Err e =>
    do! cancelled := gets (λ w, re_cancelled (w_trace w)) in
    if cancelled then ret true else throw e
  | Ok false => ret false
  | Ok true =>
    do! finished := gets (λ w, re_done (w_trace w)) in
    if finished then ret true
    else
      match ticks with
      | O => ret false
      | S ticks => do! m := refreshManifest m in run_loop ticks fuel model m
      end
  end.
Definition Run (ticks fuel : nat) (model : RenderedModel) (m : Manifest) : sup bool :=
  do! r := attempt (run_loop ticks fuel model m) in
  run! close_all;
  lift r.
End supervisor.

(** * What any supervisor call keeps *)

Section keeps.
Context {UC : UnicodeCase} {MR : MapRange} {SH : SHA256} {RE : RuntimeEnv}.
Context (allowed : event → Prop) (P : world → Prop).
Context (Hpush : ∀ w ev, allowed ev → P w → P (push ev w)).

Abbreviation keeps m := (triple (E := rt_error) P m (λ _, P) P).

Lemma keeps_ret {A} (a : A) : keeps (ret a).
Proof. by apply triple_ret. Qed.
Lemma keeps_throw {A} e : keeps (throw (A := A) e).
Proof. by apply triple_throw. Qed.
Lemma keeps_lift {A} (r : result rt_error A) : keeps (lift r).
Proof. by apply triple_lift. Qed.
Lemma keeps_guard e : keeps (guard e).
Proof. by apply triple_guard. Qed.
Lemma keeps_gets {A} (f : world → A) : keeps (gets f).
Proof. by apply triple_gets. Qed.
Lemma keeps_bind {A B} (m : sup A) (f : A → sup B) : keeps m → (∀ a, keeps (f a)) → keeps (bind m f).
Proof. by apply triple_bind. Qed.
Lemma keeps_attempt {A} (m : sup A) : keeps m → keeps (attempt m).
Proof. intros H. by eapply triple_attempt with (Q := λ _, P). Qed.
Lemma keeps_each {A} (f : A → sup unit) l : (∀ x, keeps (f x)) → keeps (each f l).
Proof. intros H. apply triple_each_inv. intros x _. apply H. Qed.
Lemma keeps_ignore {A} (m : sup A) : keeps m → keeps (ignore m).
Proof. intros H. apply keeps_bind; [by apply keeps_attempt|]. intros. apply keeps_ret. Qed.
Lemma keeps_call {A} ev (answer : trace → result rt_error A) : allowed ev → keeps (call ev answer).
Proof. intros He w Hw. unfold call. pose proof (Hpush w ev He Hw). by destruct (answer _). Qed.
Lemma keeps_call_error ev answer : allowed ev → keeps (call_error ev answer).
Proof. apply keeps_call. Qed.

(** Walks over a program. *)
Ltac keep_step :=
  match goal with
  | H : context [triple P _ (λ _, P) P] |- _ => by apply H
  | |- triple _ (bind _ _) _ _ => apply keeps_bind; [|intros ?; cbn beta]
  | |- triple _ (ret _) _ _ => apply keeps_ret
  | |- triple _ (throw _) _ _ => apply keeps_throw
  | |- triple _ (lift _) _ _ => apply keeps_lift
  | |- triple _ (guard _) _ _ => apply keeps_guard
  | |- triple _ (gets _) _ _ => apply keeps_gets
  | |- triple _ (attempt _) _ _ => apply keeps_attempt
  | |- triple _ (ignore _) _ _ => apply keeps_ignore
  | |- triple _ (each _ _) _ _ => apply keeps_each; intros ?; cbn beta
  | H : ∀ ev, match ev with EvRender => _ | _ => _ end |- triple _ (call ?ev _) _ _ => apply keeps_call; exact (H ev)
  | H : ∀ ev, match ev with EvRender => _ | _ => _ end |- triple _ (call_error ?ev _) _ _ =>
      apply keeps_call_error; exact (H ev)
  | |- triple _ (if ?b then _ else _) _ _ => destruct b
  | |- triple _ (match ?x with _ => _ end) _ _ => destruct x
  end.
Ltac keep := repeat keep_step.

(** The calls a reconciliation makes besides those of [launch]. *)
Context (Hread : ∀ ev, match ev with
  | EvRender | EvList _ | EvInspect _ | EvFetch _ _ | EvRemove _ => allowed ev | _ => True end).
Context (HcloseSession : ∀ id, keeps (closeSession id)).

Lemma keeps_remove_container c : keeps (remove_container c).
Proof. unfold remove_container, Remove. keep. Qed.
Lemma keeps_scavenge labels : keeps (ScavengeOrphans labels).
Proof.
  assert (H : ∀ l n, keeps (scavenge_loop labels n l)).
  { induction l as [|c l IH]; intros n; cbn [scavenge_loop]; [keep|].
    destruct (negb _); [apply IH|]. apply keeps_bind; [apply keeps_remove_container|]. intros ?. apply IH. }
  unfold ScavengeOrphans, List_. keep.
Qed.
Lemma keeps_remove_all l res : keeps (remove_all l res).
Proof.
  revert res. induction l as [|c l IH]; intros res; cbn [remove_all]; [keep|].
  apply keeps_bind; [apply keeps_remove_container|]. intros ?. apply IH.
Qed.
Lemma keeps_checkDependencies s all m : keeps (checkDependencies s all m).
Proof.
  assert (H : ∀ d e l, keeps (dependency_loop m d e l)).
  { intros d e l. induction l as [|c l IH]; cbn [dependency_loop]; [keep|]. destruct (_ || _); [apply IH|].
    unfold Inspect. keep. }
  unfold checkDependencies, List_. keep.
Qed.
Lemma keeps_plan m matches authorities services : keeps (plan_loop m matches authorities services).
Proof.
  induction services as [|s services IH]; cbn [plan_loop]; [keep|]. unfold reusable, Inspect. keep.
Qed.
Lemma keeps_fetch_all l : keeps (fetch_all l).
Proof.
  assert (H : ∀ keys items, keeps (fetch_loop Fetch keys items)).
  { induction keys as [|k keys IH]; intros items; cbn [fetch_loop]; [keep|]. unfold Fetch. keep. }
  induction l as [|p l IH]; cbn [fetch_all]; [keep|]. unfold FetchSecrets. keep.
Qed.

Context (m : Manifest) (Hlaunch : ∀ p values, keeps (launch m p values)).
Lemma keeps_start_all all work res : keeps (start_all all m work res).
Proof.
  assert (H : ∀ pv res, keeps (start_pending all m pv res)).
  { intros pv r. pose proof keeps_remove_all. pose proof keeps_checkDependencies. unfold start_pending. keep. }
  revert res. induction work as [|pv work IH]; intros res; cbn [start_all]; [keep|].
  apply keeps_bind; [apply H|]. intros ?. apply IH.
Qed.
Lemma keeps_Reconcile model : keeps (Reconcile model m).
Proof.
  pose proof keeps_plan. pose proof keeps_fetch_all. pose proof keeps_remove_all.
  pose proof keeps_start_all. unfold Reconcile, Render, List_. keep.
Qed.
End keeps.

(** What does not depend on the sessions and the closed streams. *)
Section trace_only.
Context {UC : UnicodeCase} {MR : MapRange} {SH : SHA256} {RE : RuntimeEnv}.
Context (allowed : event → Prop) (P : world → Prop).
Context (Hpush : ∀ w ev, allowed ev → P w → P (push ev w)).
Context (Hsessions : ∀ w ss cl, P w → P (mkWorld ss cl (w_trace w))).
Context (Hclose : ∀ sid, allowed (EvClose sid)).

Abbreviation keeps m := (triple (E := rt_error) P m (λ _, P) P).

Lemma keeps_sessions f : keeps (modify (λ w, mkWorld (f w) (w_closed w) (w_trace w))).
Proof. apply triple_modify. intros w Hw. by apply Hsessions. Qed.
Lemma keeps_close_stream sid : keeps (close_stream sid).
Proof.
  intros w Hw. unfold close_stream. case_bool_decide; [done|].
  by apply (Hsessions (push (EvClose sid) w)), Hpush.
Qed.
Lemma keeps_closeSession id : keeps (closeSession id).
Proof.
  apply keeps_bind; [apply keeps_gets|]. intros session.
  apply keeps_bind; [apply keeps_sessions|]. intros ?. destruct session; [apply keeps_close_stream|apply keeps_ret].
Qed.
Lemma keeps_trackSession id sid : keeps (trackSession id sid).
Proof.
  apply keeps_bind; [apply keeps_gets|]. intros session.
  apply keeps_bind; [apply keeps_sessions|]. intros ?. destruct session; [apply keeps_close_stream|apply keeps_ret].
Qed.
Lemma keeps_close_all : keeps close_all.
Proof.
  unfold close_all. apply keeps_bind; [apply keeps_gets|]. intros ss.
  apply keeps_bind; [apply (keeps_sessions (λ _, ∅))|]. intros ?. apply keeps_each. intros [k sid].
  apply keeps_close_stream.
Qed.

Context (Hcalls : ∀ ev, match ev with
  | EvAttach _ | EvStart _ | EvSend _ _ | EvKill _ | EvRemove _ => allowed ev | _ => True end).
Lemma keeps_Attach id : keeps (Attach id).
Proof.
  intros w Hw. unfold Attach. pose proof (Hpush w (EvAttach id) (Hcalls (EvAttach id)) Hw).
  by destruct (re_attach _ _).
Qed.
Lemma keeps_launch m p values :
  allowed (EvCreate (p_service p) (LaunchLabels m (p_service p))) → keeps (launch m p values).
Proof.
  intros Hcreate.
  assert (Hc : ∀ ev f, match ev with
    | EvAttach _ | EvStart _ | EvSend _ _ | EvKill _ | EvRemove _ => True | _ => False end →
    keeps (call_error ev f)).
  { intros ev f Hev. apply (keeps_call_error allowed _ Hpush). generalize (Hcalls ev). by destruct ev. }
  assert (Hr : ∀ id, keeps (ignore (Remove id))) by (intros id; apply keeps_ignore; by apply Hc).
  assert (Hf : ∀ id (e : rt_error), keeps (run! ignore (Remove id); throw (A := unit) e))
    by (intros; apply keeps_bind; [apply Hr|]; intros ?; apply keeps_throw).
  unfold launch. apply keeps_bind; [by apply (keeps_call allowed _ Hpush)|]. intros c. cbn beta.
  apply keeps_bind; [apply keeps_attempt, keeps_Attach|]. intros [stream|e]; cbn beta; [|apply Hf].
  apply keeps_bind; [apply keeps_attempt; by apply Hc|]. intros [?|e]; cbn beta.
  2: { apply keeps_bind; [apply keeps_close_stream|]. intros ?. apply Hf. }
  apply keeps_bind; [apply keeps_attempt; by apply Hc|]. intros [?|e]; cbn beta; [apply keeps_trackSession|].
  apply keeps_bind; [apply keeps_ignore; by apply Hc|]. intros ?.
  apply keeps_bind; [apply keeps_close_stream|]. intros ?. apply Hf.
Qed.
End trace_only.
