(* ===== verification/LaunchSupervisorProps.v ===== *)
(** What one reconciliation may do to containers: which it removes, that none it created
is left behind, that no container is touched before every secret was fetched, and
that on success every service runs. *)

From S2P Require Import Prelude GoStrings Provider Digest Json LaunchError LaunchTypes LaunchManifest LaunchProps LaunchSession LaunchFixture LaunchRuntime LaunchRuntimeProps LaunchOrder Effects LaunchProvider LaunchSupervisor.
#[local] Open Scope go_scope.

Section props.
Context {UC : UnicodeCase} {MR : MapRange} {SH : SHA256} {RE : RuntimeEnv}.

(** Calls that change nothing. *)
Definition reading (ev : event) : Prop :=
  match ev with EvRender | EvList _ | EvInspect _ | EvFetch _ _ => True | _ => False end.
Definition no_fetch (ev : event) : Prop := match ev with EvFetch _ _ => False | _ => True end.

(** The runtime answered an earlier creation with this container. *)
Definition created (tr : trace) (id : string) : Prop :=
  ∃ pre s l post c, tr = pre ++ EvCreate s l :: post ∧ re_create pre s l = Ok c ∧ c_ID c = id.
Lemma created_app tr id post : created tr id → created (tr ++ post) id.
Proof.
  intros (pre & s & l & post' & c & -> & Hc). exists pre, s, l, (post' ++ post), c.
  by rewrite <-app_assoc.
Qed.

(** The runtime listed these containers for the launch's runtime and role. *)
Context (m : Manifest).
Definition listed (cs : list Container) (tr : trace) : Prop :=
  ∃ pre post, tr = pre ++ EvList (OwnershipScopeLabels m) :: post ∧
    re_list pre (OwnershipScopeLabels m) = Ok cs.
Lemma listed_app cs tr post : listed cs tr → listed cs (tr ++ post).
Proof. intros (pre & post' & -> & H). exists pre, (post' ++ post). by rewrite <-app_assoc. Qed.
(** A listed container with the labels of this runtime and role, of which [D] holds. *)
Definition owned_in (D : Container → Prop) (tr : trace) (id : string) : Prop :=
  ∃ cs c, listed cs tr ∧ c ∈ cs ∧ c_ID c = id ∧
    ContainsLabels (c_Labels c) (OwnershipScopeLabels m) = true ∧ D c.
Definition owned : trace → string → Prop := owned_in (λ _, True).
(** What may be removed at worst: an owned container or one that was created. *)
Definition loose (tr : trace) (id : string) : Prop := owned tr id ∨ created tr id.
Lemma owned_in_loose D tr id : owned_in D tr id → loose tr id.
Proof. intros (cs & c & H1 & H2 & H3 & H4 & _). left. exists cs, c. exact (conj H1 (conj H2 (conj H3 (conj H4 I)))). Qed.

(** ** Reading *)

Abbreviation sup_triple := (triple (E := rt_error)).

(** Any predicate that reading calls keep. *)
Definition kept_by_reading (P : world → Prop) : Prop := ∀ ev w, reading ev → P w → P (push ev w).

Section reading.
Context (P : world → Prop) (HP : kept_by_reading P).

Lemma triple_read {A} ev (ans : trace → result rt_error A) :
  reading ev → sup_triple P (call ev ans) (λ _, P) P.
Proof.
  intros He w Hw. unfold call. assert (P (push ev w)) by (by apply HP).
  by destruct (ans (w_trace w)).
Qed.
Lemma triple_reusable s existing : sup_triple P (reusable m s existing) (λ _, P) P.
Proof.
  unfold reusable. destruct existing as [|c [|? ?]]; [by apply triple_ret| |by apply triple_ret].
  eapply triple_bind; [by apply (triple_gets _ _ (λ _, P))|]. intros b. cbn beta.
  destruct (c_Running c && b); [|by apply triple_ret].
  eapply triple_bind; [eapply triple_attempt with (Q := λ _, P); [by apply triple_read|done]|].
  intros r. by apply triple_ret.
Qed.

(** The plan covers every service once, and pending ones keep their containers. *)
Definition plan_of (matches : string → list Container) (services : list ServiceSpec)
    (r : list pending * list string) : Prop :=
  Forall (λ p, p_old p = matches (sp_Name (p_service p))) r.1 ∧
  ((λ p, sp_Name (p_service p)) <$> r.1) ++ r.2 ≡ₚ names services.
Lemma triple_plan matches authorities services :
  sup_triple P (plan_loop m matches authorities services)
    (λ r w, P w ∧ plan_of matches services r) P.
Proof.
  induction services as [|s services IH]; cbn [plan_loop].
  { apply triple_ret. intros w Hw. split; [done|]. split; [constructor|done]. }
  eapply triple_bind; [apply triple_reusable|]. intros [|]; cbn beta.
  - eapply triple_bind; [apply IH|]. intros r. apply triple_ret. intros w [Hw [Hold Hperm]].
    split; [done|]. split; [done|]. cbn. rewrite <-Permutation_middle. by constructor.
  - destruct (authorities !! sp_Name s); [|by apply triple_throw].
    eapply triple_bind; [apply IH|]. intros r. apply triple_ret. intros w [Hw [Hold Hperm]].
    split; [done|]. split; [by constructor|]. cbn. by constructor.
Qed.
Lemma triple_fetch_keys keys items : sup_triple P (fetch_loop Fetch keys items) (λ _, P) P.
Proof.
  revert items. induction keys as [|k keys IH]; intros items; cbn [fetch_loop]; [by apply triple_ret|].
  destruct (_ || _); [by apply triple_throw|]. case_bool_decide; [by apply triple_throw|].
  eapply triple_bind; [by apply triple_read|]. intros [v|]; cbn beta; [|by apply triple_throw].
  destruct (_ <? _)%Z; [by apply triple_throw|]. apply IH.
Qed.
Lemma triple_fetch_all l :
  sup_triple P (fetch_all l) (λ r w, P w ∧ r.*1 = l) P.
Proof.
  induction l as [|p l IH]; cbn [fetch_all]; [by apply triple_ret|].
  eapply triple_bind with (Q := λ _, P).
  - unfold FetchSecrets. destruct (_ =? _); [by apply triple_throw|apply triple_fetch_keys].
  - intros v. eapply triple_bind; [apply IH|]. intros r. apply triple_ret.
    intros w [Hw <-]. done.
Qed.
End reading.

Section removals.
(** The removals that are allowed, by the trace before the call. *)
Context (J : trace → string → Prop).
Definition justified (base t : trace) : Prop :=
  ∀ pre id post, t = pre ++ EvRemove id :: post → J (base ++ pre) id.
(** Created containers are removed later or have a session, but for some. *)
Definition settled (base : trace) (exc : gset string) (t : trace) (sessions : gmap string nat) : Prop :=
  ∀ pre s l post c, t = pre ++ EvCreate s l :: post → re_create (base ++ pre) s l = Ok c →
    EvRemove (c_ID c) ∈ post ∨ is_Some (sessions !! c_ID c) ∨ c_ID c ∈ exc.

(** The first phase only reads; the second fetches no secret. *)
Record phase1 (base : trace) (w : world) : Prop := {
  p1_trace : ∃ t, w_trace w = base ++ t ∧ Forall reading t }.
Record phase2 (base : trace) (exc : gset string) (w : world) : Prop := {
  p2_trace : ∃ t1 t2, w_trace w = base ++ t1 ++ t2 ∧ Forall reading t1 ∧ Forall no_fetch t2 ∧
    justified base (t1 ++ t2) ∧ settled base exc (t1 ++ t2) (w_sessions w) }.

Lemma app_snoc_split {A} (t : list A) x pre y post :
  t ++ [x] = pre ++ y :: post →
  (post = [] ∧ t = pre ∧ x = y) ∨ ∃ post', post = post' ++ [x] ∧ t = pre ++ y :: post'.
Proof.
  destruct post as [|z post _] using rev_ind; intros E.
  - apply app_inj_tail in E as [-> ->]. by left.
  - right. rewrite app_comm_cons, app_assoc in E. apply app_inj_tail in E as [-> ->]. by exists post.
Qed.

Lemma phase1_start w : phase1 (w_trace w) w.
Proof. split. exists []. by rewrite app_nil_r. Qed.
Lemma phase1_push base ev w : reading ev → phase1 base w → phase1 base (push ev w).
Proof.
  intros He [(t & E & Ht)]. split. exists (t ++ [ev]). cbn. rewrite E, app_assoc. split; [done|].
  apply Forall_app. by rewrite Forall_singleton.
Qed.
Lemma phase1_2 base w : phase1 base w → phase2 base ∅ w.
Proof.
  intros [(t & E & Ht)]. split. exists t, []. rewrite app_nil_r. repeat (split; [done|]).
  assert (Hno : ∀ ev, ev ∈ t → reading ev) by (by apply Forall_forall).
  split.
  - intros pre id post ->. exfalso. apply (Hno (EvRemove id)). set_solver.
  - intros pre s l post c ->. exfalso. apply (Hno (EvCreate s l)). set_solver.
Qed.

(** One more call in the second phase. *)
Lemma phase2_step base exc exc' ev w sessions closed :
  phase2 base exc w → no_fetch ev →
  (∀ id, ev = EvRemove id → J (w_trace w) id) →
  (∀ s l c, ev = EvCreate s l → re_create (w_trace w) s l = Ok c →
    is_Some (sessions !! c_ID c) ∨ c_ID c ∈ exc') →
  (∀ id, is_Some (w_sessions w !! id) ∨ id ∈ exc →
    ev = EvRemove id ∨ is_Some (sessions !! id) ∨ id ∈ exc') →
  phase2 base exc' (mkWorld sessions closed (w_trace w ++ [ev])).
Proof.
  intros [(t1 & t2 & E & H1 & H2 & Hj & Hs)] He Hrem Hcre Hses. split.
  exists t1, (t2 ++ [ev]). cbn. rewrite E, !app_assoc. split; [done|]. split; [done|].
  split; [apply Forall_app; by rewrite Forall_singleton|]. split.
  - intros pre id post Ep. apply app_snoc_split in Ep as [(-> & <- & Ev)|(post' & -> & Ep)].
    + rewrite <-E. by apply Hrem.
    + by eapply Hj.
  - intros pre s l post c Ep Hc. apply app_snoc_split in Ep as [(-> & <- & Ev)|(post' & -> & Ep)].
    + right. rewrite <-E in Hc. by eapply Hcre.
    + specialize (Hs _ _ _ _ _ Ep Hc). destruct Hs as [Hs|Hs]; [left; set_solver|].
      destruct (Hses _ Hs) as [->|Hs']; [left; set_solver|by right].
Qed.
(** A change of the sessions without a call. *)
Lemma phase2_sessions base exc exc' w sessions closed :
  phase2 base exc w →
  (∀ id, is_Some (w_sessions w !! id) ∨ id ∈ exc → is_Some (sessions !! id) ∨ id ∈ exc') →
  phase2 base exc' (mkWorld sessions closed (w_trace w)).
Proof.
  intros [(t1 & t2 & E & H1 & H2 & Hj & Hs)] Hses. split. exists t1, t2.
  repeat (split; [done|]). intros pre s l post c Ep Hc.
  destruct (Hs _ _ _ _ _ Ep Hc) as [?|H]; [by left|right; auto].
Qed.
Lemma phase2_mono base exc exc' w : phase2 base exc w → exc ⊆ exc' → phase2 base exc' w.
Proof.
  intros Hw Hsub. destruct w as [ss cl tr]. apply (phase2_sessions _ exc _ (mkWorld ss cl tr)); [done|].
  cbn. set_solver.
Qed.

(** ** Changing *)

Definition working (base : trace) (cs : list Container) (exc : gset string) (w : world) : Prop :=
  phase2 base exc w ∧ listed cs (w_trace w).
Definition quiet (ev : event) : Prop :=
  match ev with EvFetch _ _ | EvCreate _ _ | EvRemove _ => False | _ => True end.

Lemma working_quiet base cs exc ev w closed :
  quiet ev → working base cs exc w → working base cs exc (mkWorld (w_sessions w) closed (w_trace w ++ [ev])).
Proof.
  intros He [Hw Hl]. split; [|by apply listed_app].
  eapply phase2_step; [exact Hw|by destruct ev|by intros ? ->|by intros ??? ->|]. intros id H. by right.
Qed.
Lemma triple_quiet {A} base cs exc ev (ans : trace → result rt_error A) :
  quiet ev → sup_triple (working base cs exc) (call ev ans) (λ _, working base cs exc) (working base cs exc).
Proof.
  intros He w Hw. unfold call, push.
  assert (working base cs exc (mkWorld (w_sessions w) (w_closed w) (w_trace w ++ [ev])))
    by (by apply working_quiet). by destruct (ans (w_trace w)).
Qed.
Lemma triple_close_stream base cs exc sid R :
  sup_triple (working base cs exc) (close_stream sid) (λ _, working base cs exc) R.
Proof. intros w Hw. unfold close_stream. case_bool_decide; [done|]. by apply working_quiet. Qed.
Lemma triple_ignore {A} base cs exc exc' (act : sup A) R :
  sup_triple (working base cs exc) act (λ _, working base cs exc') (working base cs exc') →
  sup_triple (working base cs exc) (ignore act) (λ _, working base cs exc') R.
Proof.
  intros H. eapply triple_bind with (Q := λ _, working base cs exc').
  - by eapply triple_attempt.
  - intros r. by apply triple_ret.
Qed.

Lemma in_rest (id id' : string) (exc : gset string) : id' ≠ id → id' ∈ exc → id' ∈ exc ∖ {[id]}.
Proof. intros Hne Hid. apply elem_of_difference. split; [done|]. by intros ?%elem_of_singleton. Qed.

Lemma triple_closeSession base cs exc id R :
  sup_triple (working base cs exc) (closeSession id) (λ _, working base cs ({[id]} ∪ exc)) R.
Proof.
  unfold closeSession.
  eapply triple_bind; [by apply (triple_gets _ _ (λ _, working base cs exc))|]. intros session.
  eapply triple_bind with (Q := λ _, working base cs ({[id]} ∪ exc)).
  - apply triple_modify. intros w [Hw Hl]. split; [|done]. eapply phase2_sessions; [exact Hw|].
    intros id' Hid. destruct (decide (id' = id)) as [->|Hne]; [right; apply elem_of_union_l, elem_of_singleton; done|].
    rewrite lookup_delete_ne by done. destruct Hid; [by left|right; by apply elem_of_union_r].
  - intros ?. destruct session; [apply triple_close_stream|by apply triple_ret].
Qed.
Lemma triple_trackSession base cs exc id sid R :
  sup_triple (working base cs exc) (trackSession id sid) (λ _, working base cs (exc ∖ {[id]})) R.
Proof.
  unfold trackSession.
  eapply triple_bind; [by apply (triple_gets _ _ (λ _, working base cs exc))|]. intros previous.
  eapply triple_bind with (Q := λ _, working base cs (exc ∖ {[id]})).
  - apply triple_modify. intros w [Hw Hl]. split; [|done]. eapply phase2_sessions; [exact Hw|].
    intros id' Hid. destruct (decide (id' = id)) as [->|Hne]; [left; rewrite lookup_insert_eq; by eexists|].
    rewrite lookup_insert_ne by done. destruct Hid; [by left|right; by apply in_rest].
  - intros ?. destruct previous; [apply triple_close_stream|by apply triple_ret].
Qed.
Lemma triple_Remove base cs exc id :
  sup_triple (λ w, working base cs exc w ∧ J (w_trace w) id)
    (Remove id) (λ _, working base cs (exc ∖ {[id]})) (working base cs (exc ∖ {[id]})).
Proof.
  intros w [[Hw Hl] Hj]. unfold Remove, call_error, call.
  assert (H : working base cs (exc ∖ {[id]}) (push (EvRemove id) w)).
  { split; [|by apply listed_app]. eapply phase2_step; [exact Hw|done|by intros ? [= <-]|by intros ??? [=]|].
    intros id' Hid. destruct (decide (id' = id)) as [->|Hne]; [by left|]. right.
    destruct Hid; [by left|right; by apply in_rest]. }
  by destruct (re_remove (w_trace w) id).
Qed.

(** Removing listed containers; the report keeps its services. *)
Definition same_services (res res' : ReconcileResult) : Prop :=
  rr_Created res' = rr_Created res ∧ rr_Reused res' = rr_Reused res.
Lemma triple_remove_container base cs c :
  (∀ tr, listed cs tr → J tr (c_ID c)) →
  sup_triple (working base cs ∅) (remove_container c) (λ _, working base cs ∅) (working base cs ∅).
Proof.
  intros Hc. unfold remove_container. eapply triple_bind; [apply triple_closeSession|]. intros ?.
  assert (Hexc : ∀ w, working base cs (({[c_ID c]} ∪ ∅) ∖ {[c_ID c]}) w → working base cs ∅ w).
  { intros w [Hw Hl]. split; [|done]. eapply phase2_mono; [exact Hw|]. clear. set_solver. }
  eapply triple_conseq; [apply triple_Remove| |intros ? w; apply Hexc|apply Hexc].
  intros w Hw. split; [done|]. apply Hc, Hw.
Qed.
Lemma triple_remove_all base cs l res :
  (∀ c tr, c ∈ l → listed cs tr → J tr (c_ID c)) →
  sup_triple (working base cs ∅) (remove_all l res)
    (λ res' w, working base cs ∅ w ∧ same_services res res') (working base cs ∅).
Proof.
  revert res. induction l as [|c l IH]; intros res Hl; cbn [remove_all]; [by apply triple_ret|].
  eapply triple_bind; [apply triple_remove_container; intros tr; apply Hl; by left|]. intros ?.
  eapply triple_conseq; [apply (IH (removed_one res)); intros c' tr ?; apply Hl; by right|done|done|done].
Qed.

Lemma triple_dependency_loop base cs dependency expected l :
  sup_triple (working base cs ∅) (dependency_loop m dependency expected l)
    (λ _, working base cs ∅) (working base cs ∅).
Proof.
  induction l as [|c l IH]; cbn [dependency_loop]; [by apply triple_ret|].
  destruct (_ || _); [apply IH|].
  eapply triple_bind; [eapply triple_attempt with (Q := λ _, working base cs ∅); [by apply triple_quiet|done]|].
  intros [st|e]; cbn beta; [|by apply triple_throw]. destruct (_ || _); [by apply triple_throw|].
  eapply triple_bind; [apply IH|]. intros b. by apply triple_ret.
Qed.
Lemma triple_checkDependencies base cs s all :
  sup_triple (working base cs ∅) (checkDependencies s all m) (λ _, working base cs ∅) (working base cs ∅).
Proof.
  apply triple_each_inv. intros d _. destruct (all !! d) as [expected|]; [|by apply triple_throw].
  eapply triple_bind; [by apply triple_quiet|]. intros l.
  eapply triple_bind; [apply triple_dependency_loop|]. intros [|]; [by apply triple_ret|by apply triple_throw].
Qed.

(** Removing a container that was just created. *)
Lemma triple_undo base cs id (R : world → Prop) :
  (∀ tr, created tr id → J tr id) →
  sup_triple (λ w, working base cs {[id]} w ∧ created (w_trace w) id) (ignore (Remove id))
    (λ _, working base cs ∅) R.
Proof.
  intros HJ.
  eapply triple_bind with (Q := λ _, working base cs ∅); [|intros r; by apply triple_ret].
  assert (Hexc : ∀ w, working base cs ({[id]} ∖ {[id]}) w → working base cs ∅ w).
  { intros w [Hw Hl]. split; [|done]. eapply phase2_mono; [exact Hw|]. clear. set_solver. }
  eapply triple_attempt with (S := working base cs ∅); [|done].
  eapply triple_conseq; [apply triple_Remove| |intros ? w; apply Hexc|apply Hexc].
  intros w [Hw Hc]. split; [done|by apply HJ].
Qed.

(** In [launch], after the creation: the new container is the only unsettled one. *)
Definition fresh (base : trace) (cs : list Container) (id : string) (w : world) : Prop :=
  working base cs {[id]} w ∧ created (w_trace w) id.
Lemma triple_fresh {A} base cs id ev (ans : trace → result rt_error A) :
  quiet ev → sup_triple (fresh base cs id) (call ev ans) (λ _, fresh base cs id) (fresh base cs id).
Proof.
  intros He w [Hw Hc]. unfold call, push.
  assert (fresh base cs id (mkWorld (w_sessions w) (w_closed w) (w_trace w ++ [ev]))).
  { split; [by apply working_quiet|by apply created_app]. }
  by destruct (ans (w_trace w)).
Qed.
Lemma triple_fresh_close base cs id sid R :
  sup_triple (fresh base cs id) (close_stream sid) (λ _, fresh base cs id) R.
Proof.
  intros w [Hw Hc]. unfold close_stream. case_bool_decide; [done|].
  split; [by apply working_quiet|by apply created_app].
Qed.
Lemma triple_fresh_attach base cs id :
  sup_triple (fresh base cs id) (Attach id) (λ _, fresh base cs id) (fresh base cs id).
Proof.
  intros w [Hw Hc]. unfold Attach, push.
  assert (fresh base cs id (mkWorld (w_sessions w) (w_closed w) (w_trace w ++ [EvAttach id]))).
  { split; [by apply working_quiet|by apply created_app]. }
  by destruct (re_attach (w_trace w) id).
Qed.
Lemma triple_fail {A} base cs id (e : rt_error) :
  (∀ tr, created tr id → J tr id) →
  sup_triple (fresh base cs id) (bind (ignore (Remove id)) (λ _, throw e))
    (λ _ : A, working base cs ∅) (working base cs ∅).
Proof. intros HJ. eapply triple_bind; [by apply triple_undo|]. intros ?. by apply triple_throw. Qed.

Lemma triple_Create base cs s l :
  sup_triple (working base cs ∅) (Create s l) (λ c, fresh base cs (c_ID c)) (working base cs ∅).
Proof.
  intros w [Hw Hl]. unfold Create, call, push. destruct (re_create (w_trace w) s l) as [c|e] eqn:E.
  - split.
    + split; [|by apply listed_app]. eapply phase2_step; [exact Hw|done|by intros ? [=]| |].
      * intros ??? [= <- <-] Hc. rewrite E in Hc. injection Hc as <-. right. by apply elem_of_singleton.
      * intros id [Hid|Hid]; [right; by left|by apply elem_of_empty in Hid].
    + exists (w_trace w), s, l, [], c. done.
  - split; [|by apply listed_app]. eapply phase2_step; [exact Hw|done|by intros ? [=]| |].
    + intros ??? [= <- <-] Hc. by rewrite E in Hc.
    + intros id Hid. by right.
Qed.

End removals.

Lemma phase2_weaken (J J' : trace → string → Prop) base exc w :
  (∀ tr id, J tr id → J' tr id) → phase2 J base exc w → phase2 J' base exc w.
Proof.
  intros HJ [(t1 & t2 & E & H1 & H2 & Hj & Hs)]. split. exists t1, t2. repeat (split; [done|]).
  split; [|done]. intros pre id post Ep. by eapply HJ, Hj.
Qed.
Lemma working_weaken (J J' : trace → string → Prop) base cs exc w :
  (∀ tr id, J tr id → J' tr id) → working J base cs exc w → working J' base cs exc w.
Proof. intros HJ [Hw Hl]. split; [by eapply phase2_weaken|done]. Qed.

(** ** Starting a service: only a failure removes what was created *)

Section starting.
Context (D : Container → Prop).
Abbreviation J := (owned_in D).
Abbreviation R base cs := (working loose base cs ∅).
Lemma loosen base cs exc w : working J base cs exc w → working loose base cs exc w.
Proof. apply working_weaken. intros tr id. apply owned_in_loose. Qed.
Lemma fresh_loosen base cs id w : fresh J base cs id w → fresh loose base cs id w.
Proof. intros [Hw Hc]. split; [by apply loosen|done]. Qed.
Lemma created_loose tr id : created tr id → loose tr id.
Proof. by right. Qed.

Lemma triple_launch base cs p values :
  sup_triple (working J base cs ∅) (launch m p values) (λ _, working J base cs ∅) (R base cs).
Proof.
  unfold launch. eapply triple_bind.
  { eapply triple_conseq; [apply triple_Create|done|done|apply loosen]. }
  intros c. cbn beta. set (id := c_ID c).
  assert (Hany : ∀ A (act : sup A),
    sup_triple (fresh J base cs id) act (λ _, fresh J base cs id) (fresh J base cs id) →
    sup_triple (fresh J base cs id) (attempt act) (λ _, fresh J base cs id) (R base cs)).
  { intros A act H. by eapply triple_attempt with (Q := λ _, fresh J base cs id). }
  assert (Hfail : ∀ e, sup_triple (fresh loose base cs id) (run! ignore (Remove id); throw (A := unit) e)
    (λ _, working J base cs ∅) (R base cs)).
  { intros e. eapply triple_bind; [apply (triple_undo loose); intros tr; apply created_loose|]. intros ?. by apply triple_throw. }
  eapply triple_bind; [apply Hany, triple_fresh_attach|]. intros [stream|e]; cbn beta.
  2: { eapply triple_pre; [apply Hfail|apply fresh_loosen]. }
  eapply triple_bind; [apply Hany, triple_fresh; done|]. intros [[]|e]; cbn beta.
  2: { eapply triple_pre; [|apply fresh_loosen]. eapply triple_bind; [apply triple_fresh_close|]. intros ?. apply Hfail. }
  eapply triple_bind; [apply Hany, triple_fresh; done|]. intros [[]|e]; cbn beta.
  - eapply triple_conseq; [apply triple_trackSession|by intros w [Hw _]| |done].
    intros ? w [Hw Hl]. split; [|exact Hl]. eapply phase2_mono; [exact Hw|]. clear. set_solver.
  - eapply triple_pre; [|apply fresh_loosen]. eapply triple_bind with (Q := λ _, fresh loose base cs id).
    { eapply triple_bind; [by eapply (triple_attempt _ _ (λ _, fresh loose base cs id)); [apply triple_fresh|]|].
      intros r. by apply triple_ret. }
    intros ?. eapply triple_bind; [apply triple_fresh_close|]. intros ?. apply Hfail.
Qed.

(** The containers a list of pending services replaces may go. *)
Definition replaceable (cs : list Container) (p : pending) : Prop :=
  ∀ c, c ∈ p_old p → c ∈ cs ∧ ContainsLabels (c_Labels c) (OwnershipScopeLabels m) = true ∧ D c.
Lemma triple_start_pending base cs all pv res :
  replaceable cs pv.1 →
  sup_triple (working J base cs ∅) (start_pending all m pv res)
    (λ res' w, working J base cs ∅ w ∧ rr_Created res' = rr_Created res ++ [sp_Name (p_service pv.1)] ∧
       rr_Reused res' = rr_Reused res) (R base cs).
Proof.
  intros Hold. unfold start_pending. eapply triple_bind.
  { eapply triple_conseq; [apply (triple_remove_all J)|done|done|apply loosen].
    intros c tr Hc Hl. destruct (Hold c Hc) as (H1 & H2 & H3).
    exists cs, c. exact (conj Hl (conj H1 (conj eq_refl (conj H2 H3)))). }
  intros res1. apply triple_pure. intros [E1 E2].
  eapply triple_bind; [eapply triple_conseq; [apply triple_checkDependencies|done|done|apply loosen]|]. intros ?.
  eapply triple_bind; [apply triple_launch|]. intros ?. apply triple_ret. intros w Hw.
  split; [done|]. cbn. by rewrite E1.
Qed.
Lemma triple_start_all base cs all work res :
  (∀ pv, pv ∈ work → replaceable cs pv.1) →
  sup_triple (working J base cs ∅) (start_all all m work res)
    (λ res' w, working J base cs ∅ w ∧
       rr_Created res' = rr_Created res ++ ((λ pv, sp_Name (p_service pv.1)) <$> work) ∧
       rr_Reused res' = rr_Reused res) (R base cs).
Proof.
  revert res. induction work as [|pv work IH]; intros res Hold; cbn [start_all].
  { apply triple_ret. intros w Hw. by rewrite app_nil_r. }
  eapply triple_bind; [apply triple_start_pending, Hold; by left|]. intros res1.
  apply triple_pure. intros [E1 E2].
  eapply triple_conseq; [apply (IH res1); intros ? ?; apply Hold; by right|done| |done].
  intros res2 w (Hw & E3 & E4). split; [done|]. rewrite E3, E1, <-app_assoc. split; [done|congruence].
Qed.
End starting.

(** ** Ownership *)

Lemma ContainsLabels_spec labels required :
  ContainsLabels labels required = true ↔ ∀ k v, required !! k = Some v → label_get labels k = v.
Proof.
  unfold ContainsLabels. rewrite forallb_forall. split.
  - intros H k v Hk. apply elem_of_map_to_list, list_elem_of_In, H in Hk. by apply bool_decide_eq_true in Hk.
  - intros H [k v] Hk. apply list_elem_of_In, elem_of_map_to_list in Hk. apply bool_decide_eq_true. auto.
Qed.
Lemma scope_in_ownership name :
  Validate m = None → OwnershipScopeLabels m ⊆ <[label "service" := name]> (OwnershipLabels m).
Proof.
  intros Hv. apply map_subseteq_spec. intros k v. unfold OwnershipScopeLabels, OwnershipLabels.
  rewrite (AuthorityDigest_valid m Hv).
  intros Hk%elem_of_list_to_map_2. rewrite lookup_insert_ne.
  - apply elem_of_list_to_map_1; [cbn [fmap list_fmap fst]; by_decide|]. set_solver.
  - intros <-. repeat (apply elem_of_cons in Hk as [Hk|Hk]; [by injection Hk|]). by apply elem_of_nil in Hk.
Qed.
Lemma current_in_scope labels name :
  Validate m = None → currentOwnedGeneration labels m name = true →
  ContainsLabels labels (OwnershipScopeLabels m) = true.
Proof.
  unfold currentOwnedGeneration. intros Hv. case_bool_decide; [done|].
  intros [_ HH]%andb_true_iff. apply ContainsLabels_spec. intros k v Hk.
  apply (proj1 (ContainsLabels_spec _ _) HH). by eapply lookup_weaken, scope_in_ownership.
Qed.
Lemma owned_in_scope labels scope n : ownedGenerationInScope labels scope n = true → ContainsLabels labels scope = true.
Proof. unfold ownedGenerationInScope. by destruct (ContainsLabels labels scope). Qed.
Lemma older_in_scope labels scope s n : olderOwnedGeneration labels scope s n = true → ContainsLabels labels scope = true.
Proof.
  unfold olderOwnedGeneration. destruct (bool_decide (sp_Name s = "")); [done|].
  destruct (ownedGenerationInScope labels scope n) eqn:E; [|done]. intros _. by eapply owned_in_scope.
Qed.
Lemma matches_in_scope by_name c :
  Validate m = None → matches_service m (OwnershipScopeLabels m) by_name c = true →
  ContainsLabels (c_Labels c) (OwnershipScopeLabels m) = true.
Proof.
  unfold matches_service. intros Hv. destruct (by_name !! c_Name c) as [s|]; [|done].
  intros [_ [H|H]%orb_true_iff]%andb_true_iff; [by eapply current_in_scope|by eapply older_in_scope].
Qed.
Lemma stale_in_scope by_name c :
  stale_owned m (OwnershipScopeLabels m) by_name c = true →
  ContainsLabels (c_Labels c) (OwnershipScopeLabels m) = true.
Proof. unfold stale_owned. intros [[H _]%andb_true_iff _]%andb_true_iff. by eapply owned_in_scope. Qed.

(** A model that agrees with the manifest is its projection. *)
Lemma ValidateManifestModel_services model :
  ValidateManifestModel m model = None →
  elems (rm_Services model) = serviceSpecFromAuthority <$> elems (m_Services m).
Proof. by intros (_ & _ & _ & _ & ?)%ValidateManifestModel_spec. Qed.

(** The services of the manifest by name, and the containers that stand for them. *)
Definition services_of : gmap string ServiceSpec :=
  specs_by_name (serviceSpecFromAuthority <$> elems (m_Services m)).
Definition stands_for (c : Container) (name : string) : Prop :=
  c_Name c = name ∧ matches_service m (OwnershipScopeLabels m) services_of c = true.
(** A container that stands for no service the reconciliation kept. *)
Definition spares (reused : list string) (c : Container) : Prop :=
  ∀ name, stands_for c name → name ∉ reused.

Lemma specs_by_name_lookup l n s : specs_by_name l !! n = Some s → sp_Name s = n ∧ s ∈ l.
Proof.
  unfold specs_by_name. assert (H : ∀ acc : gmap string ServiceSpec, foldl (λ m s, <[sp_Name s := s]> m) acc l !! n = Some s →
    (sp_Name s = n ∧ s ∈ l) ∨ acc !! n = Some s).
  { induction l as [|x l IH]; intros acc; cbn [foldl]; [by right|]. intros [[? ?]|Hx]%IH; [left; set_solver|].
    rewrite lookup_insert in Hx. destruct (decide (sp_Name x = n)) as [<-|]; [|by right].
    injection Hx as ->. left. set_solver. }
  intros [?|Hn]%H; [done|]. by rewrite lookup_empty in Hn.
Qed.
Lemma authorities_by_name_lookup l n a : authorities_by_name l !! n = Some a → sa_Name a = n ∧ a ∈ l.
Proof.
  unfold authorities_by_name. assert (H : ∀ acc : gmap string ServiceAuthority, foldl (λ m s, <[sa_Name s := s]> m) acc l !! n = Some a →
    (sa_Name a = n ∧ a ∈ l) ∨ acc !! n = Some a).
  { induction l as [|x l IH]; intros acc; cbn [foldl]; [by right|]. intros [[? ?]|Hx]%IH; [left; set_solver|].
    rewrite lookup_insert in Hx. destruct (decide (sa_Name x = n)) as [<-|]; [|by right].
    injection Hx as ->. left. set_solver. }
  intros [?|Hn]%H; [done|]. by rewrite lookup_empty in Hn.
Qed.
(** A stale container stands for no service at all. *)
Lemma stale_stands c : stale_owned m (OwnershipScopeLabels m) services_of c = true →
  matches_service m (OwnershipScopeLabels m) services_of c = false.
Proof.
  unfold stale_owned, matches_service. intros [[_ Hne]%andb_true_iff Hw]%andb_true_iff.
  destruct (services_of !! c_Name c) as [s|] eqn:Es; [|done].
  apply specs_by_name_lookup in Es as Hs. destruct Hs as [Hs _].
  apply negb_true_iff in Hne. rewrite Hne, orb_false_r.
  destruct (bool_decide (_ = sp_Name s)) eqn:E; [|done]. apply bool_decide_eq_true in E.
  exfalso. rewrite E, Hs, Es in Hw.
  apply negb_true_iff, bool_decide_eq_false_1 in Hw. by apply Hw.
Qed.

(** ** One reconciliation *)

(** What a success reports. *)
Definition result_ok (r : ReconcileResult) : Prop :=
  rr_Created r ++ rr_Reused r ≡ₚ sa_Name <$> elems (m_Services m).

Lemma names_projection l : names (serviceSpecFromAuthority <$> l) = sa_Name <$> l.
Proof. unfold names. rewrite <-list_fmap_compose. done. Qed.

(** From the listing on: plan, fetch, remove, start. *)
Definition after_listing (base : trace) (cs : list Container) (w : world) : Prop :=
  phase1 base w ∧ listed cs (w_trace w).
Lemma after_listing_kept base cs : kept_by_reading (after_listing base cs).
Proof. intros ev w He [Hp Hl]. split; [by apply phase1_push|by apply listed_app]. Qed.
Lemma after_listing_working J base cs w : after_listing base cs w → working J base cs ∅ w.
Proof. intros [Hp Hl]. split; [by apply phase1_2|done]. Qed.

Lemma planned_spares cs (r : list pending * list string) services :
  Validate m = None → NoDup (names services) →
  plan_of (λ name, filter (λ c, c_Name c = name ∧
    matches_service m (OwnershipScopeLabels m) services_of c = true) cs) services r →
  ∀ p, p ∈ r.1 → replaceable (spares r.2) cs p.
Proof.
  intros Hv Hnd [Hold Hperm] p Hp c Hc. rewrite Forall_forall in Hold. rewrite (Hold _ Hp) in Hc.
  apply list_elem_of_filter in Hc as [[Hname Hmatch] Hin]. split; [done|]. split; [by eapply matches_in_scope|].
  intros name [<- _] Hre. rewrite <-Hperm in Hnd. apply NoDup_app in Hnd as (_ & Hd & _).
  apply (Hd (c_Name c)); [|done]. rewrite Hname. by apply (list_elem_of_fmap_2 (λ p, sp_Name (p_service p))).
Qed.

Definition safe_end (base : trace) (r : ReconcileResult) (w : world) : Prop :=
  phase2 (owned_in (spares (rr_Reused r))) base ∅ w ∧ result_ok r.

Lemma triple_execute base cs authorities ordered fetched :
  Validate m = None → NoDup (names ordered) → names ordered ≡ₚ sa_Name <$> elems (m_Services m) →
  let scope := OwnershipScopeLabels m in
  let matches name := filter (λ c, c_Name c = name ∧ matches_service m scope services_of c = true) cs in
  let stale := filter (λ c, stale_owned m scope services_of c = true) cs in
  sup_triple (after_listing base cs)
    (do! plan := plan_loop m matches authorities ordered in
     do! work := fetch_all plan.1 in
     do! res := remove_all stale (mkReconcile [] 0 plan.2 (fetched work)) in
     start_all services_of m work res)
    (safe_end base) (phase2 loose base ∅).
Proof.
  intros Hv Hnd Hnames scope matches stale. pose proof (after_listing_kept base cs) as HP.
  assert (Hend2 : ∀ w, working loose base cs ∅ w → phase2 loose base ∅ w) by (by intros w [? _]).
  assert (Hend : ∀ w, after_listing base cs w → phase2 loose base ∅ w)
    by (intros w Hw; by apply Hend2, after_listing_working).
  eapply triple_bind; [by eapply triple_conseq; [apply (triple_plan _ HP)| | |exact Hend]|].
  intros plan. apply triple_pure. intros Hplan. set (D := spares plan.2).
  eapply triple_bind.
  { eapply triple_conseq; [by apply (triple_fetch_all _ HP)|done| |exact Hend].
    intros a w [Hw Ha]. exact (conj (after_listing_working (owned_in D) _ _ _ Hw) Ha). }
  intros work. apply triple_pure. intros Hwork.
  eapply triple_bind.
  { eapply triple_conseq; [apply (triple_remove_all (owned_in D))|done|intros ?? H; exact H|].
    - intros c tr [Hs Hc]%list_elem_of_filter Hl. exists cs, c.
      refine (conj Hl (conj Hc (conj eq_refl (conj (stale_in_scope _ _ Hs) _)))).
      intros name [_ Hm]. by rewrite (stale_stands c Hs) in Hm.
    - intros w Hw. by apply Hend2, (loosen D). }
  intros res. apply triple_pure. intros [Ec Er]. cbn in Ec, Er.
  eapply triple_conseq; [apply (triple_start_all D)|done| |exact Hend2].
  { intros pv Hpv. apply (planned_spares cs plan ordered Hv Hnd Hplan).
    rewrite <-Hwork. by apply list_elem_of_fmap_2. }
  intros res' w ([Hw _] & E1 & E2). split; [by rewrite E2, Er|].
  unfold result_ok. destruct Hplan as [_ Hperm]. rewrite E1, Ec, E2, Er, <-Hnames, <-Hperm, <-Hwork.
  by rewrite <-list_fmap_compose.
Qed.

(** The refusals before the listing. *)
Lemma triple_Reconcile base model :
  sup_triple (phase1 base) (Reconcile model m) (safe_end base) (phase2 loose base ∅).
Proof.
  assert (H1 : kept_by_reading (phase1 base)) by (by intros ev w He; apply phase1_push).
  pose proof (phase1_2 loose base) as Hend. unfold Reconcile.
  eapply triple_bind; [by apply (triple_gets _ _ (λ _, phase1 base))|]. intros now.
  eapply triple_bind.
  { apply (triple_guard _ _ (λ _ w, phase1 base w ∧ Validate m = None)); [|exact Hend].
    intros w Hva Hw. split; [done|]. destruct (ValidateAt m now) eqn:E; [done|]. by apply ValidateAt_inv in E as [? _]. }
  intros ?. apply triple_pure. intros Hv.
  eapply triple_bind; [apply (triple_guard _ _ (λ _, phase1 base)); [done|exact Hend]|]. intros ?.
  eapply triple_bind; [eapply triple_conseq; [by apply (triple_read _ H1)|done| |exact Hend]; done|].
  intros rendered. cbn beta.
  eapply triple_bind.
  { apply (triple_guard _ _ (λ _ w, phase1 base w ∧ ValidateManifestModel m rendered = None)); [|exact Hend].
    intros w Hva Hw. split; [done|]. by destruct (ValidateManifestModel m rendered). }
  intros ?. apply triple_pure. intros Hmodel. apply ValidateManifestModel_services in Hmodel.
  eapply triple_bind; [apply (triple_guard _ _ (λ _, phase1 base)); [done|exact Hend]|]. intros ?.
  eapply triple_bind with (Q := after_listing base).
  { intros w Hw. unfold List_, call. assert (Hp : phase1 base (push (EvList (OwnershipScopeLabels m)) w)) by (by apply H1).
    destruct (re_list (w_trace w) _) as [cs|e] eqn:E; [|by apply Hend].
    split; [done|]. by exists (w_trace w), []. }
  intros cs. eapply triple_bind.
  { apply (triple_lift _ _ (λ ordered w, after_listing base cs w ∧
      NoDup (names ordered) ∧ names ordered ≡ₚ sa_Name <$> elems (m_Services m))).
    - intros ordered w Ho Hw. split; [done|].
      destruct (OrderServices (elems (rm_Services rendered))) as [o|e] eqn:E; [|done]. injection Ho as ->.
      apply OrderServices_Ok in E as (Hnd & E & _). rewrite Hmodel in *.
      assert (Hp : names ordered ≡ₚ names (serviceSpecFromAuthority <$> elems (m_Services m))) by by apply fmap_Permutation.
      split; [by rewrite Hp|by rewrite Hp, names_projection].
    - intros w [Hw _]. by apply Hend. }
  intros ordered. apply triple_pure. intros [Hnd Hnames]. rewrite Hmodel.
  eapply triple_bind; [apply (triple_guard _ _ (λ _, after_listing base cs)); [done|]|].
  { intros w [Hw _]. by apply Hend. }
  intros ?. by eapply triple_execute.
Qed.

(** ** What a success found and did *)

(** The provider's answer for a key and version. *)
Definition provided (key version value : string) : Prop := ∃ tr, re_fetch tr key version = Some value.
(** Every step of starting [name] was taken and answered without an error: its container
was created with the labels of this launch, attached and started, and it was sent the
provider's values of exactly its keys, over the stream that was attached to it. *)
Definition launched (base t : trace) (name : string) : Prop :=
  ∃ pre s a values c post,
    let create := EvCreate s (LaunchLabels m s) in
    let attach := EvAttach (c_ID c) in
    let start := EvStart (c_ID c) in
    t = pre ++ create :: attach :: start :: EvSend (c_ID c) (sa_Name a) :: post ∧
    re_create (base ++ pre) s (LaunchLabels m s) = Ok c ∧
    re_attach (base ++ pre ++ [create]) (c_ID c) = None ∧
    re_start (base ++ pre ++ [create; attach]) (c_ID c) = None ∧
    re_send (base ++ pre ++ [create; attach; start]) (length (base ++ pre ++ [create])) m a values = None ∧
    sp_Name s = name ∧ s ∈ serviceSpecFromAuthority <$> elems (m_Services m) ∧
    sa_Name a = name ∧ a ∈ elems (m_Services m) ∧
    set_for (served provided) (elems (sa_Keys a)) values.
(** [name] was found running: the one container listed for it was inspected as running,
healthy and of this launch. *)
Definition found_running (base t : trace) (name : string) : Prop :=
  ∃ pre cs c st post, t = pre ++ EvInspect (c_ID c) :: post ∧
    listed cs (base ++ pre) ∧ c ∈ cs ∧ stands_for c name ∧ c_Running c = true ∧
    re_inspect (base ++ pre) (c_ID c) = Ok st ∧
    c_Running (cs_Container st) = true ∧ c_Healthy (cs_Container st) = true ∧
    currentOwnedGeneration (c_Labels (cs_Container st)) m name = true.

Lemma launched_app base t t' n : launched base t n → launched base (t ++ t') n.
Proof.
  intros (pre & s & a & values & c & post & -> & H). exists pre, s, a, values, c, (post ++ t').
  split; [by rewrite <-app_assoc|exact H].
Qed.
Lemma found_running_app base t t' n : found_running base t n → found_running base (t ++ t') n.
Proof.
  intros (pre & cs & c & st & post & -> & H). exists pre, cs, c, st, (post ++ t').
  split; [by rewrite <-app_assoc|exact H].
Qed.

Section report.
Context (base : trace).
(** What has been reported holds of the trace since [base]. *)
Definition reported (created reused : list string) (w : world) : Prop :=
  ∃ t, w_trace w = base ++ t ∧ (∀ n, n ∈ created → launched base t n) ∧
    (∀ n, n ∈ reused → found_running base t n).
Lemma reported_push l1 l2 w ev : True → reported l1 l2 w → reported l1 l2 (push ev w).
Proof.
  intros _ (t & E & H1 & H2). exists (t ++ [ev]). cbn. rewrite E, <-app_assoc. split; [done|].
  split; intros n Hn; [by apply launched_app, H1|by apply found_running_app, H2].
Qed.
Lemma reported_sessions l1 l2 w ss cl : reported l1 l2 w → reported l1 l2 (mkWorld ss cl (w_trace w)).
Proof. done. Qed.
Definition reports (res : ReconcileResult) : world → Prop := reported (rr_Created res) (rr_Reused res).
Lemma reports_push res w ev : True → reports res w → reports res (push ev w).
Proof. apply reported_push. Qed.
Lemma reports_sessions res w ss cl : reports res w → reports res (mkWorld ss cl (w_trace w)).
Proof. done. Qed.

Definition found (cs : list Container) (reused : list string) (w : world) : Prop :=
  reported [] reused w ∧ listed cs (w_trace w).
Lemma found_push cs l w ev : True → found cs l w → found cs l (push ev w).
Proof. intros _ [H1 H2]. split; [by apply reported_push|by apply listed_app]. Qed.

Lemma triple_reusable_found cs s l :
  sup_triple (found cs l)
    (reusable m s (filter (λ c, c_Name c = sp_Name s ∧
       matches_service m (OwnershipScopeLabels m) services_of c = true) cs))
    (λ b, found cs (if b then l ++ [sp_Name s] else l)) (λ _, True).
Proof.
  destruct (filter _ cs) as [|c [|? ?]] eqn:Ef; cbn [reusable]; [by apply triple_ret| |by apply triple_ret].
  assert (Hc : c ∈ [c]) by by left. rewrite <-Ef in Hc. apply list_elem_of_filter in Hc as [Hst Hin].
  intros w Hw. unfold bind at 1, gets. destruct (c_Running c) eqn:Hrun; [|done]. cbn [andb].
  destruct (hasSession _ w); [|done]. unfold bind, attempt, Inspect, call.
  destruct (re_inspect (w_trace w) (c_ID c)) as [st|e] eqn:Ei; cbn [ret]; [|by apply found_push].
  destruct (_ && _) eqn:Hb; [|by apply found_push]. split_bools.
  destruct Hw as [(t & E & Hno & Hfound) Hl]. split; [|by apply listed_app].
  exists (t ++ [EvInspect (c_ID c)]). cbn. rewrite E, <-app_assoc. split; [done|].
  split; [intros n Hn; by apply elem_of_nil in Hn|].
  intros n [Hn| ->%list_elem_of_singleton]%elem_of_app; [by apply found_running_app, Hfound|].
  exists t, cs, c, st, []. rewrite E in *. done.
Qed.
(** The authorities the plan pairs with its services. *)
Definition paired (services : list ServiceSpec) (p : pending) : Prop :=
  p_service p ∈ services ∧ sa_Name (p_authority p) = sp_Name (p_service p) ∧
  p_authority p ∈ elems (m_Services m).
Lemma triple_plan_found cs services l :
  sup_triple (found cs l)
    (plan_loop m (λ name, filter (λ c, c_Name c = name ∧
       matches_service m (OwnershipScopeLabels m) services_of c = true) cs)
       (authorities_by_name (elems (m_Services m))) services)
    (λ r w, found cs (l ++ r.2) w ∧ Forall (paired services) r.1) (λ _, True).
Proof.
  assert (Hmono : ∀ s rest p, paired rest p → paired (s :: rest) p)
    by (intros s rest p (H1 & H2 & H3); split; [by right|done]).
  revert l. induction services as [|s services IH]; intros l; cbn [plan_loop].
  { apply triple_ret. intros w Hw. by rewrite app_nil_r. }
  eapply triple_bind; [apply triple_reusable_found|]. intros [|]; cbn beta iota.
  - eapply triple_bind; [apply IH|]. intros r. apply triple_ret. intros w [Hw Hp].
    rewrite <-app_assoc in Hw. split; [done|]. eapply Forall_impl; [exact Hp|apply Hmono].
  - destruct (authorities_by_name _ !! _) as [a|] eqn:Ea; [|by apply triple_throw].
    apply authorities_by_name_lookup in Ea as [Ea Hin].
    eapply triple_bind; [apply IH|]. intros r. apply triple_ret. intros w [Hw Hp].
    split; [done|]. constructor; [split; [by left|done]|]. eapply Forall_impl; [exact Hp|apply Hmono].
Qed.
Lemma triple_fetch_found cs l pending :
  sup_triple (found cs l) (fetch_all pending)
    (λ r w, found cs l w ∧ (r.*1 = pending ∧
       Forall (λ pv, set_for (served provided) (elems (sa_Keys (p_authority pv.1))) pv.2) r)) (λ _, True).
Proof.
  induction pending as [|p pending IH]; cbn [fetch_all]; [by apply triple_ret|].
  eapply triple_bind.
  { apply (triple_FetchSecrets Fetch (found cs l) (λ _, True) provided); [|done].
    intros k v w Hw. unfold Fetch, call. split; [by apply found_push|]. intros x Hx. by exists (w_trace w). }
  intros v. apply triple_pure. intros Hv. eapply triple_bind; [apply IH|]. intros r.
  apply triple_ret. intros w (Hw & <- & Hr). split; [done|]. split; [done|]. by constructor.
Qed.

(** A launch that returns went through every step. *)
Lemma triple_launch_reports res p values :
  p_service p ∈ serviceSpecFromAuthority <$> elems (m_Services m) →
  sa_Name (p_authority p) = sp_Name (p_service p) → p_authority p ∈ elems (m_Services m) →
  set_for (served provided) (elems (sa_Keys (p_authority p))) values →
  sup_triple (reports res) (launch m p values) (λ _, reports (created_one (sp_Name (p_service p)) res)) (λ _, True).
Proof.
  intros Hs Hn Ha Hv w (t & E & H1 & H2).
  assert (Hfail : ∀ id e, fails (run! ignore (Remove id); throw (A := unit) e))
    by (intros; by apply fails_bind).
  unfold launch, bind at 1, Create, call, push. rewrite E.
  destruct (re_create _ _ _) as [c|e] eqn:Ec; [|done].
  unfold bind at 1, attempt at 1, Attach, push. cbn [w_trace w_sessions w_closed].
  destruct (re_attach _ _) as [e|] eqn:Eat; [apply fails_match, Hfail|].
  unfold bind at 1, attempt at 1, Start, call_error at 1, call at 1, push. cbn [w_trace w_sessions w_closed].
  destruct (re_start _ _) as [e|] eqn:Est; [apply fails_match, fails_bind; auto|].
  unfold bind at 1, attempt at 1, Send, call_error at 1, call at 1, push. cbn [w_trace w_sessions w_closed].
  destruct (re_send _ _ _ _ _) as [e|] eqn:Ese.
  { apply fails_match, fails_bind. intros ?. by apply fails_bind. }
  set (res' := created_one (sp_Name (p_service p)) res).
  assert (Hkeep : ∀ sid, sup_triple (reports res') (trackSession (c_ID c) sid) (λ _, reports res') (λ _, True)).
  { intros sid. eapply triple_conseq; [apply (keeps_trackSession (λ _, True) _ (reports_push res'))|done|done|done].
    - apply reports_sessions.
    - done. }
  apply Hkeep. clear Hkeep.
  rewrite <-!app_assoc in *. cbn [app] in *.
  eexists. split; [cbn [w_trace]; reflexivity|]. split.
  - cbn [rr_Created created_one]. intros n [Hin| ->%list_elem_of_singleton]%elem_of_app; [by apply launched_app, H1|].
    exists t, (p_service p), (p_authority p), values, c, []. by repeat (split; [done|]).
  - intros n Hin. by apply found_running_app, H2.
Qed.
Lemma triple_remove_all_reports l res : sup_triple (reports res) (remove_all l res) reports (λ _, True).
Proof.
  revert res. induction l as [|c l IH]; intros res; cbn [remove_all]; [by apply triple_ret|].
  eapply triple_bind; [|intros ?; apply (IH (removed_one res))].
  eapply triple_conseq; [apply (keeps_remove_container (λ _, True) _ (reports_push res))|done|done|done].
  - by intros [].
  - apply (keeps_closeSession (λ _, True) _ (reports_push res)); [apply reports_sessions|done].
Qed.
Lemma triple_start_all_reports work res :
  (∀ pv, pv ∈ work → paired (serviceSpecFromAuthority <$> elems (m_Services m)) pv.1 ∧
     set_for (served provided) (elems (sa_Keys (p_authority pv.1))) pv.2) →
  sup_triple (reports res) (start_all services_of m work res) reports (λ _, True).
Proof.
  revert res. induction work as [|pv work IH]; intros res Hwork; cbn [start_all]; [by apply triple_ret|].
  eapply triple_bind; [|intros res1; apply IH; intros ? ?; apply Hwork; by right].
  destruct (Hwork pv) as [(Hs & Hn & Ha) Hv]; [by left|]. unfold start_pending.
  eapply triple_bind; [apply triple_remove_all_reports|].
  intros res1. eapply triple_bind.
  { eapply triple_conseq; [apply (keeps_checkDependencies (λ _, True) _ (reports_push res1))|done|done|done].
    by intros []. }
  intros ?. eapply triple_bind; [by apply triple_launch_reports|]. intros ?. by apply triple_ret.
Qed.

Lemma triple_Reconcile_reports model :
  sup_triple (λ w, w_trace w = base) (Reconcile model m) reports (λ _, True).
Proof.
  unfold Reconcile. set (P := reported [] []).
  assert (Hkeep : ∀ A ev (answer : trace → result rt_error A), sup_triple P (call ev answer) (λ _, P) (λ _, True)).
  { intros A ev answer. eapply triple_conseq; [by apply (keeps_call (λ _, True) P (reported_push [] []))|done..]. }
  assert (Hguard : ∀ e, sup_triple P (guard e) (λ _, P) (λ _, True)) by (intros e; by apply triple_guard).
  eapply triple_bind with (Q := λ _, P).
  { apply triple_gets. intros w <-. exists []. rewrite app_nil_r.
    by split_and!; [|intros n Hn%elem_of_nil..]. }
  intros now. eapply triple_bind; [apply Hguard|]. intros ?. eapply triple_bind; [apply Hguard|]. intros ?.
  eapply triple_bind; [apply Hkeep|]. intros rendered. cbn beta.
  eapply triple_bind.
  { apply (triple_guard _ _ (λ _ w, P w ∧ ValidateManifestModel m rendered = None)); [|done].
    intros w Hva Hw. split; [done|]. by destruct (ValidateManifestModel m rendered). }
  intros ?. apply triple_pure. intros Hmodel. apply ValidateManifestModel_services in Hmodel.
  eapply triple_bind; [apply Hguard|]. intros ?.
  eapply triple_bind with (Q := λ cs, found cs []).
  { intros w Hw. unfold List_, call. destruct (re_list (w_trace w) _) as [cs|e] eqn:E; [|done].
    split; [by apply reported_push|]. by exists (w_trace w), []. }
  intros cs. eapply triple_bind.
  { apply (triple_lift _ _ (λ ordered w, found cs [] w ∧ ordered ≡ₚ elems (rm_Services rendered))); [|done].
    intros ordered w Ho Hw. split; [done|].
    destruct (OrderServices (elems (rm_Services rendered))) as [o|e] eqn:E; [|done]. injection Ho as ->.
    by apply OrderServices_Ok in E as (_ & ? & _). }
  intros ordered. apply triple_pure. rewrite Hmodel. intros Hord.
  eapply triple_bind; [by apply (triple_guard _ _ (λ _, found cs []))|]. intros ?.
  eapply triple_bind; [apply triple_plan_found|]. intros plan. apply triple_pure. intros Hpaired.
  eapply triple_bind; [apply triple_fetch_found|]. intros work. apply triple_pure. intros [Hwork Hvals].
  eapply triple_bind; [eapply triple_pre; [apply triple_remove_all_reports|by intros w [Hw _]]|].
  intros res. apply triple_start_all_reports. intros pv Hpv. rewrite Forall_forall in Hpaired.
  rewrite Forall_forall in Hvals. split; [|by apply Hvals].
  destruct (Hpaired pv.1) as (H1 & H2); [rewrite <-Hwork; by apply list_elem_of_fmap_2|].
  split; [by rewrite <-Hord|done].
Qed.
End report.

(** C19: one reconciliation, on success and on every failure: it removes only containers
that the runtime listed with this launch's runtime and role labels, or that it created
itself; every container it created is removed again or holds an open session; and until
the last secret is fetched it only reads, so a missing secret leaves the running
services as they were.  It succeeds only when it took each service of the manifest
once: those it reports as created were created with the labels of this launch, attached,
started and sent their own secrets, each call answered without an error; those it
reports as reused had one container, inspected as running, healthy and of this launch;
and it removed neither a container it started nor one that stands for a reused service. *)
Theorem reconcile_safe model w w' r (HR : Reconcile model m w = (w', r)) :
  ∃ t1 t2, w_trace w' = w_trace w ++ t1 ++ t2 ∧ Forall reading t1 ∧ Forall no_fetch t2 ∧
    (∀ pre id post, t1 ++ t2 = pre ++ EvRemove id :: post →
      owned (w_trace w ++ pre) id ∨ created (w_trace w ++ pre) id) ∧
    (∀ pre s l post c, t1 ++ t2 = pre ++ EvCreate s l :: post →
      re_create (w_trace w ++ pre) s l = Ok c →
      EvRemove (c_ID c) ∈ post ∨ is_Some (w_sessions w' !! c_ID c)) ∧
    (∀ res, r = Ok res →
      rr_Created res ++ rr_Reused res ≡ₚ sa_Name <$> elems (m_Services m) ∧
      (∀ name, name ∈ rr_Created res → launched (w_trace w) (t1 ++ t2) name) ∧
      (∀ name, name ∈ rr_Reused res → found_running (w_trace w) (t1 ++ t2) name) ∧
      (∀ pre id post, t1 ++ t2 = pre ++ EvRemove id :: post →
        owned_in (spares (rr_Reused res)) (w_trace w ++ pre) id)).
Proof.
  pose proof (triple_Reconcile (w_trace w) model w (phase1_start w)) as H.
  pose proof (triple_Reconcile_reports (w_trace w) model w eq_refl) as Hrep. rewrite HR in H, Hrep.
  assert (Hp : phase2 loose (w_trace w) ∅ w').
  { destruct r; [|done]. destruct H as [H _]. eapply phase2_weaken; [intros tr id; apply owned_in_loose|exact H]. }
  destruct Hp as [(t1 & t2 & E & Hread & Hno & Hj & Hs)]. exists t1, t2.
  repeat (split; [done|]). split.
  - intros pre s l post c Ep Hc. destruct (Hs _ _ _ _ _ Ep Hc) as [?|[?|Hn]]; [by left|by right|].
    by apply elem_of_empty in Hn.
  - intros res ->. destruct H as [[(u1 & u2 & E' & _ & _ & Hj' & _)] Hok].
    destruct Hrep as (t & Et & H1 & H2). rewrite E in Et, E'.
    apply app_inv_head in Et as <-. apply app_inv_head in E'. rewrite <-E' in Hj'. done.
Qed.
End props.
(** * A first start of the fixture on an idle runtime *)

Definition running_container : Container := mkContainer "old" "other"
  (<[label "service" := "other"]> (OwnershipLabels fixture_launch)) true false.
#[export] Instance idle_runtime : RuntimeEnv := {|
  re_render _ m := Ok m; re_list _ _ := Ok [running_container];
  re_inspect _ _ := Err None;
  re_create _ s l := Ok (mkContainer "new" (sp_Name s) l false false);
  re_attach _ _ := None; re_start _ _ := None; re_kill _ _ := None; re_remove _ _ := None;
  re_fetch _ _ _ := Some "value"; re_send _ _ _ _ _ := None; re_closed _ _ := false;
  re_now _ := fixture_now; re_cancelled _ := false; re_wait := None; re_reload := None;
  re_done _ := true |}.
Definition idle_world : world := mkWorld ∅ ∅ [].

Lemma idle_run :
  match Reconcile fixture_model fixture_launch idle_world with
  | (w', Ok res) => rr_Created res = ["api"] ∧ rr_Removed res = 1 ∧
    take 4 (w_trace w') = [EvRender; EvList (OwnershipScopeLabels fixture_launch);
      EvFetch "APP_TOKEN" "1"; EvRemove "old"]
  | (_, Err _) => False
  end.
Proof. vm_compute. repeat split. Qed.
Lemma reconcile_safe_witness :
  ∃ w' res, Reconcile fixture_model fixture_launch idle_world = (w', Ok res) ∧
    rr_Created res = ["api"] ∧ rr_Removed res = 1 ∧
    owned fixture_launch (take 3 (w_trace w')) "old" ∧
    rr_Created res ++ rr_Reused res ≡ₚ ["api"] ∧ launched fixture_launch [] (w_trace w') "api".
Proof.
  pose proof idle_run as H.
  destruct (Reconcile fixture_model fixture_launch idle_world) as [w' [res|e]] eqn:E; [|by destruct H].
  destruct H as (H1 & H2 & Ht). pose proof (take_drop 4 (w_trace w')) as Htd. rewrite Ht in Htd.
  set (post := drop 4 (w_trace w')) in Htd. symmetry in Htd. clear Ht. rename Htd into Ht.
  destruct (reconcile_safe fixture_launch fixture_model idle_world w' (Ok res) E)
    as (t1 & t2 & Ew & _ & _ & Hrem & _ & Hres).
  destruct (Hres res eq_refl) as (Hperm & Hlaunched & _). cbn [w_trace idle_world app] in Ew, Hlaunched.
  exists w', res. do 2 (split; [done|]). split; [done|]. split; [|split].
  2: exact Hperm.
  2: { rewrite Ew. apply Hlaunched. rewrite H1. by left. }
  rewrite Ht. cbn [take app]. rewrite Ew in Ht.
  destruct (Hrem [EvRender; EvList (OwnershipScopeLabels fixture_launch); EvFetch "APP_TOKEN" "1"] "old" post Ht) as [H|(pre & s & l & post' & c & Ec & _)]; [exact H|].
  exfalso. assert (Hr : Forall reading (pre ++ EvCreate s l :: post'))
    by (rewrite <-Ec; repeat constructor).
  apply Forall_app in Hr as [_ Hr]. by apply Forall_cons in Hr as [[] _].
Defined.
