(* ===== verification/LaunchRecovery.v ===== *)
(** The loop around reconciliation (supervisor.go): it waits for the daemon between any
two attempts, and over all its renewals it creates containers of one launch only. *)

From S2P Require Import Prelude GoStrings Provider Digest Json LaunchError LaunchTypes LaunchManifest LaunchProps LaunchFixture LaunchSession LaunchRuntime LaunchRuntimeProps LaunchOrder Effects LaunchProvider LaunchSupervisor LaunchSupervisorProps.
#[local] Open Scope go_scope.

(** * Waiting for the daemon *)

Section recovery.
Context {UC : UnicodeCase} {MR : MapRange} {SH : SHA256} {RE : RuntimeEnv}.

Definition waits (t : trace) : nat :=
  length (List.filter (λ ev, match ev with EvWait => true | _ => false end) t).
Lemma waits_app t1 t2 : waits (t1 ++ t2) = waits t1 + waits t2.
Proof. unfold waits. by rewrite List.filter_app, length_app. Qed.

Context (base : trace).
Definition waited (n : nat) (w : world) : Prop := ∃ t, w_trace w = base ++ t ∧ n ≤ waits t.
Lemma waited_push n ev w : waited n w → waited (n + waits [ev]) (push ev w).
Proof.
  intros (t & E & Hn). exists (t ++ [ev]). cbn. rewrite E, app_assoc, waits_app. split; [done|]. cbn. lia.
Qed.
Lemma waited_mono n n' w : waited n' w → n ≤ n' → waited n w.
Proof. intros (t & E & Hn) H. exists t. split; [done|]. lia. Qed.
Lemma waited_any n w ev : True → waited n w → waited n (push ev w).
Proof. intros _ H%(waited_push n ev). eapply waited_mono; [exact H|lia]. Qed.
Lemma waited_sessions n w ss cl : waited n w → waited n (mkWorld ss cl (w_trace w)).
Proof. done. Qed.
Lemma waited_closeSession n id : triple (E := rt_error) (waited n) (closeSession id) (λ _, waited n) (waited n).
Proof. apply (keeps_closeSession (λ _, True) _ (waited_any n)); [apply waited_sessions|done]. Qed.
Lemma waited_launch n m p values :
  triple (E := rt_error) (waited n) (launch m p values) (λ _, waited n) (waited n).
Proof.
  apply (keeps_launch (λ _, True) _ (waited_any n)); [apply waited_sessions|done|by intros []|done].
Qed.
Lemma any_allowed (ev : event) :
  match ev with EvRender | EvList _ | EvInspect _ | EvFetch _ _ | EvRemove _ => True | _ => True end.
Proof. by destruct ev. Qed.

Lemma triple_recover n e : triple (waited n) (recover e) (λ _, waited (S n)) (waited n).
Proof.
  unfold recover. destruct re_wait as [wait|]; [|by apply triple_throw].
  destruct (negb _); [by apply triple_throw|].
  eapply triple_bind with (Q := λ r, match r with Ok _ => waited (S n) | Err _ => waited n end).
  - apply (triple_attempt _ _ _ _ (waited n)); [|done]. intros w Hw. unfold call_error, call.
    apply (waited_push n EvWait) in Hw. cbn in Hw. rewrite Nat.add_1_r in Hw.
    destruct (wait (w_trace w)); [|done]. eapply waited_mono; [exact Hw|lia].
  - intros [u|e']; [by apply triple_ret|].
    eapply triple_bind; [by apply (triple_gets _ _ (λ _, waited n))|]. intros c. by apply triple_throw.
Qed.
Lemma triple_turn n model m :
  triple (waited n) (recovery_turn model m) (λ b, if b then waited n else waited (S n)) (waited n).
Proof.
  unfold recovery_turn. eapply triple_bind; [by apply (triple_gets _ _ (λ _, waited n))|].
  intros [|]; cbn beta iota; [by apply triple_throw|].
  assert (Hrec : ∀ e, triple (waited n) (run! recover e; ret false) (λ b, if b then waited n else waited (S n)) (waited n)).
  { intros e. eapply triple_bind; [apply triple_recover|]. intros ?. by apply triple_ret. }
  eapply triple_bind.
  { exact (keeps_attempt _ _ (keeps_scavenge (λ _, True) _ (waited_any n) any_allowed (waited_closeSession n) _)). }
  intros [r|e]; cbn beta iota; [|apply Hrec].
  eapply triple_bind.
  { exact (keeps_attempt _ _ (keeps_Reconcile (λ _, True) _ (waited_any n) any_allowed (waited_closeSession n)
      m (waited_launch n m) model)). }
  intros [r'|e]; cbn beta iota; [by apply triple_ret|apply Hrec].
Qed.
Lemma triple_recovery n fuel model m :
  triple (waited n) (reconcileWithRecovery fuel model m)
    (λ b, if b then waited n else waited (n + fuel)) (waited n).
Proof.
  revert n. induction fuel as [|fuel IH]; intros n; cbn [reconcileWithRecovery].
  { apply triple_ret. intros w Hw. by rewrite Nat.add_0_r. }
  eapply triple_bind; [apply triple_turn|]. intros [|]; cbn beta iota; [by apply triple_ret|].
  eapply triple_conseq; [apply (IH (S n))|done| |].
  - intros [|] w Hw; [eapply waited_mono; [exact Hw|lia]|]. by rewrite Nat.add_succ_r.
  - intros w Hw. eapply waited_mono; [exact Hw|lia].
Qed.
End recovery.

(** * No stream is lost *)

Section streams.
Context {UC : UnicodeCase} {MR : MapRange} {SH : SHA256} {RE : RuntimeEnv} (w0 : world).
Abbreviation base := (w_trace w0).

(** A stream that was attached after [base], and one that a session holds. *)
Definition attached (tr : trace) (sid : nat) : Prop :=
  ∃ pre id post, tr = base ++ pre ++ EvAttach id :: post ∧
    re_attach (base ++ pre) id = None ∧ sid = length (base ++ pre).
Definition held (w : world) (sid : nat) : Prop := ∃ id, w_sessions w !! id = Some sid.
(** Every stream attached in this run, and every one it began with, is closed or held by a
session, but for some; and a stream counts as closed only when it was closed. *)
Record streams (exc : gset nat) (w : world) : Prop := {
  st_all : ∀ sid, attached (w_trace w) sid ∨ held w0 sid → sid ∈ w_closed w ∨ held w sid ∨ sid ∈ exc;
  st_closed : ∀ sid, sid ∈ w_closed w → sid ∈ w_closed w0 ∨ EvClose sid ∈ w_trace w;
}.

Lemma attached_snoc tr ev sid :
  attached (tr ++ [ev]) sid →
  attached tr sid ∨ ∃ id, ev = EvAttach id ∧ re_attach tr id = None ∧ sid = length tr.
Proof.
  intros (pre & id & post & E & Ha & ->). rewrite app_assoc in E.
  apply app_snoc_split in E as [(-> & -> & ->)|(post' & -> & ->)]; [right; by exists id|].
  left. exists pre, id, post'. by rewrite <-app_assoc.
Qed.
Lemma streams_start : streams ∅ w0.
Proof.
  split; [|by left]. intros sid [(pre & id & post & E & _)|H]; [|by right; left].
  apply (f_equal length) in E. rewrite !length_app in E. cbn in E. lia.
Qed.
Lemma streams_mono exc exc' w : exc ⊆ exc' → streams exc w → streams exc' w.
Proof. intros Hsub [H1 H2]. split; [|done]. intros sid Hs. destruct (H1 sid Hs) as [?|[?|?]]; auto. Qed.
Definition no_attach (ev : event) : Prop := match ev with EvAttach _ => False | _ => True end.
Lemma streams_push exc w ev : no_attach ev → streams exc w → streams exc (push ev w).
Proof.
  intros He [H1 H2]. split.
  - intros sid [[H|(id & -> & _)]%attached_snoc|H]; [apply H1; by left|done|apply H1; by right].
  - intros sid Hs. destruct (H2 sid Hs); [by left|right]. apply elem_of_app. by left.
Qed.
Lemma streams_held exc exc' w ss :
  (∀ sid, held w sid ∨ sid ∈ exc → held (mkWorld ss (w_closed w) (w_trace w)) sid ∨ sid ∈ exc') →
  streams exc w → streams exc' (mkWorld ss (w_closed w) (w_trace w)).
Proof. intros Hh [H1 H2]. split; [|done]. intros sid Hs. destruct (H1 sid Hs) as [?|?]; auto. Qed.

Abbreviation sup_triple := (triple (E := rt_error)).

Lemma triple_close_stream_streams exc sid R :
  sup_triple (streams ({[sid]} ∪ exc)) (close_stream sid) (λ _, streams exc) R.
Proof.
  intros w Hw. unfold close_stream. case_bool_decide as Hin.
  { destruct Hw as [H1 H2]. split; [|done]. intros sid' Hs.
    destruct (H1 sid' Hs) as [?|[?|[->%elem_of_singleton|?]%elem_of_union]]; auto. }
  apply (streams_push _ _ (EvClose sid)) in Hw; [|done]. destruct Hw as [H1 H2]. split.
  - intros sid' Hs. destruct (H1 sid' Hs) as [?|[?|[->%elem_of_singleton|?]%elem_of_union]]; auto;
      left; cbn; set_solver.
  - cbn in *. intros sid' [->%elem_of_singleton|Hs]%elem_of_union; [right; set_solver|auto].
Qed.
(** Closing the stream that a session held before the map changed, if any. *)
Lemma close_previous exc (previous : option nat) w R :
  streams (option_to_set previous ∪ exc) w →
  match (match previous with Some sid => close_stream sid | None => ret () end) w with
  | (w', Ok _) => streams exc w' | (w', Err _) => R w' end.
Proof.
  destruct previous as [sid|]; cbn [option_to_set]; [apply triple_close_stream_streams|].
  cbn. apply streams_mono. set_solver.
Qed.
Lemma triple_closeSession_streams exc id R :
  sup_triple (streams exc) (closeSession id) (λ _, streams exc) R.
Proof.
  intros w Hw. apply close_previous. eapply streams_held; [|exact Hw].
  intros sid [[id' Hh]|Hx]; [|right; set_solver].
  destruct (decide (id' = id)) as [->|Hne]; [right; rewrite Hh; set_solver|].
  left. exists id'. cbn. by rewrite lookup_delete_ne.
Qed.
Lemma triple_trackSession_streams exc id sid R :
  sup_triple (streams ({[sid]} ∪ exc)) (trackSession id sid) (λ _, streams exc) R.
Proof.
  intros w Hw. apply close_previous. eapply streams_held; [|exact Hw].
  intros sid' [[id' Hh]|[->%elem_of_singleton|Hx]%elem_of_union]; [| |right; set_solver].
  - destruct (decide (id' = id)) as [->|Hne]; [right; rewrite Hh; set_solver|].
    left. exists id'. cbn. by rewrite lookup_insert_ne.
  - left. exists id. cbn. by rewrite lookup_insert_eq.
Qed.
Lemma triple_Attach_streams id :
  sup_triple (streams ∅) (Attach id) (λ sid, streams ({[sid]} ∪ ∅)) (streams ∅).
Proof.
  intros w [H1 H2]. unfold Attach, push.
  assert (H2' : ∀ sid, sid ∈ w_closed w → sid ∈ w_closed w0 ∨ EvClose sid ∈ w_trace w ++ [EvAttach id])
    by (intros sid Hs; destruct (H2 sid Hs); [by left|right; set_solver]).
  destruct (re_attach _ _) as [e|] eqn:Ea; (split; [|exact H2']); cbn;
    intros sid [[H|(id' & [= <-] & Hn & ->)]%attached_snoc|H].
  - apply H1. by left.
  - congruence.
  - apply H1. by right.
  - destruct (H1 sid) as [?|[?|?]]; [by left|by left|by right; left|set_solver].
  - right. right. set_solver.
  - destruct (H1 sid) as [?|[?|?]]; [by right|by left|by right; left|set_solver].
Qed.
Lemma triple_call_streams {A} exc ev (answer : trace → result rt_error A) :
  no_attach ev → sup_triple (streams exc) (call ev answer) (λ _, streams exc) (streams exc).
Proof. apply (keeps_call no_attach _ (streams_push exc)). Qed.

Lemma triple_launch_streams m p values :
  sup_triple (streams ∅) (launch m p values) (λ _, streams ∅) (streams ∅).
Proof.
  unfold launch. eapply triple_bind; [by apply triple_call_streams|]. intros c. cbn beta.
  assert (Hany : ∀ exc ev f, no_attach ev →
    sup_triple (streams exc) (attempt (call_error ev f)) (λ _, streams exc) (streams ∅)).
  { intros exc ev f Hev. by eapply triple_attempt with (Q := λ _, streams exc); [apply triple_call_streams|]. }
  assert (Hign : ∀ exc ev f, no_attach ev →
    sup_triple (streams exc) (ignore (call_error ev f)) (λ _, streams exc) (streams ∅)).
  { intros exc ev f Hev. eapply triple_bind; [by apply Hany|]. intros r. by apply triple_ret. }
  assert (Hfail : ∀ e, sup_triple (streams ∅) (run! ignore (Remove (c_ID c)); throw (A := unit) e)
    (λ _, streams ∅) (streams ∅)).
  { intros e. eapply triple_bind; [by apply Hign|]. intros ?. by apply triple_throw. }
  eapply triple_bind with (Q := λ r, match r with Ok sid => streams ({[sid]} ∪ ∅) | Err _ => streams ∅ end).
  { by eapply triple_attempt; [apply triple_Attach_streams|]. }
  intros [sid|e]; cbn beta iota; [|apply Hfail].
  eapply triple_bind; [by apply Hany|]. intros [?|e]; cbn beta iota.
  2: { eapply triple_bind; [apply triple_close_stream_streams|]. intros ?. apply Hfail. }
  eapply triple_bind; [by apply Hany|]. intros [?|e]; cbn beta iota; [apply triple_trackSession_streams|].
  eapply triple_bind; [by apply Hign|]. intros ?.
  eapply triple_bind; [apply triple_close_stream_streams|]. intros ?. apply Hfail.
Qed.

(** [Close] closes the stream of every session. *)
Lemma triple_close_all_streams R :
  sup_triple (streams ∅) close_all (λ _ w, streams ∅ w ∧ w_sessions w = ∅) R.
Proof.
  intros w Hw. unfold close_all, bind, gets, modify. cbn [w_sessions w_closed w_trace].
  set (l := range_map 3 (w_sessions w)). set (w1 := mkWorld ∅ (w_closed w) (w_trace w)).
  assert (H1 : streams (list_to_set l.*2 ∪ ∅) w1).
  { eapply streams_held; [|exact Hw]. intros sid [[id Hh]|Hx]; [|set_solver]. right.
    apply elem_of_union_l, elem_of_list_to_set. apply (list_elem_of_fmap_2 snd l (id, sid)).
    by apply elem_of_range_map. }
  assert (Hes : w_sessions w1 = ∅) by done. clearbody w1 l. clear Hw. revert w1 H1 Hes.
  induction l as [|[id sid] l IH]; intros w1 H1 Hes.
  { split; [|done]. eapply streams_mono; [|exact H1]. set_solver. }
  cbn [each]. unfold bind at 1. pose proof (triple_close_stream_streams (list_to_set l.*2 ∪ ∅) sid R w1) as Hc.
  assert (Hss : w_sessions (close_stream sid w1).1 = ∅) by (unfold close_stream; by case_bool_decide).
  destruct (close_stream sid w1) as [w2 [?|?]]; [|by apply Hc; eapply streams_mono; [|exact H1]; set_solver].
  apply IH; [|done]. apply Hc. eapply streams_mono; [|exact H1]. set_solver.
Qed.
End streams.

(** * One launch for the whole run *)

Section run.
Context {UC : UnicodeCase} {MR : MapRange} {SH : SHA256} {RE : RuntimeEnv}.
Context (m0 : Manifest) (w0 : world).

(** The same launch: the manifest itself or a valid one that differs in the window. *)
Definition same_launch (m : Manifest) : Prop :=
  m = m0 ∨ (Validate m0 = None ∧ Validate m = None ∧ ∃ i e, m = with_window i e m0).
Lemma same_launch_labels m s : same_launch m → LaunchLabels m s = LaunchLabels m0 s.
Proof.
  intros [->|(H0 & Hm & i & e & ->)]; [done|]. unfold LaunchLabels, OwnershipLabels.
  by rewrite !AuthorityDigest_valid.
Qed.
Lemma same_launch_renewal m candidate now :
  wf m → wf candidate → authorities_distinguished m0 candidate →
  same_launch m → AcceptRenewal m candidate now = None → same_launch candidate.
Proof.
  intros Hm Hc Hd0 Hsame Ha.
  assert (Hd : authorities_distinguished m candidate) by (by destruct Hsame as [->|(_ & _ & i & e & ->)]).
  destruct (AcceptRenewal_window _ _ _ Hm Hc Hd Ha) as ((Hcv & _)%ValidateAt_inv & Hmv & E & _). right.
  destruct Hsame as [->|(Hv0 & _ & i & e & ->)]; (split; [done|]; split; [done|]; eexists _, _; exact E).
Qed.

(** Only containers of this launch are created, and no stream is lost. *)
Abbreviation base := (w_trace w0).
Definition of_launch (ev : event) : Prop :=
  match ev with EvCreate s l => l = LaunchLabels m0 s | _ => True end.
Definition launching (w : world) : Prop := ∃ t, w_trace w = base ++ t ∧ Forall of_launch t.
Lemma launching_push w ev : of_launch ev → launching w → launching (push ev w).
Proof.
  intros He (t & E & Ht). exists (t ++ [ev]). cbn. rewrite E, app_assoc. split; [done|].
  apply Forall_app. by rewrite Forall_singleton.
Qed.
Lemma launching_sessions w ss cl : launching w → launching (mkWorld ss cl (w_trace w)).
Proof. done. Qed.
Definition serving (w : world) : Prop := launching w ∧ streams w0 ∅ w.
Definition plain (ev : event) : Prop :=
  match ev with EvCreate _ _ | EvAttach _ => False | _ => True end.
Lemma serving_push w ev : plain ev → serving w → serving (push ev w).
Proof. intros He [H1 H2]. split; [by apply launching_push; destruct ev|by apply streams_push; destruct ev]. Qed.
Lemma plain_other ev :
  match ev with EvRender | EvList _ | EvInspect _ | EvFetch _ _ | EvRemove _ => plain ev | _ => True end.
Proof. by destruct ev. Qed.

Abbreviation keeps m := (triple (E := rt_error) serving m (λ _, serving) serving).

Lemma serving_closeSession id : keeps (closeSession id).
Proof.
  eapply triple_conj; [|apply triple_closeSession_streams].
  by apply (keeps_closeSession of_launch _ launching_push launching_sessions).
Qed.
Lemma serving_launch m p values : same_launch m → keeps (launch m p values).
Proof.
  intros Hsame. eapply triple_conj; [|apply triple_launch_streams].
  apply (keeps_launch of_launch _ launching_push launching_sessions); [done|by intros []|].
  cbn. by apply same_launch_labels.
Qed.

Lemma keeps_recover e : keeps (recover e).
Proof.
  unfold recover. destruct re_wait as [wait|]; [|apply keeps_throw]. destruct (negb _); [apply keeps_throw|].
  apply keeps_bind; [by apply keeps_attempt, (keeps_call_error plain _ serving_push)|].
  intros [u|e']; [apply keeps_ret|]. apply keeps_bind; [apply keeps_gets|]. intros c. apply keeps_throw.
Qed.
Lemma keeps_recovery fuel model m : same_launch m → keeps (reconcileWithRecovery fuel model m).
Proof.
  intros Hsame. induction fuel as [|fuel IH]; cbn [reconcileWithRecovery]; [apply keeps_ret|].
  apply keeps_bind; [|intros [|]; [apply keeps_ret|apply IH]].
  unfold recovery_turn. apply keeps_bind; [apply keeps_gets|]. intros [|]; [apply keeps_throw|].
  assert (Hrec : ∀ e, keeps (run! recover e; ret false))
    by (intros e; apply keeps_bind; [apply keeps_recover|]; intros; apply keeps_ret).
  apply keeps_bind; [exact (keeps_attempt _ _ (keeps_scavenge plain _ serving_push plain_other serving_closeSession _))|].
  intros [r|e]; [|apply Hrec].
  apply keeps_bind; [|intros [r'|e]; [apply keeps_ret|apply Hrec]].
  apply keeps_attempt, (keeps_Reconcile plain _ serving_push plain_other serving_closeSession).
  intros p values. by apply serving_launch.
Qed.

(** The source delivers well-formed manifests, and SHA-256 tells their authority from that
of the run. *)
Context (Hwf : wf m0).
Context (Hreload : ∀ reload tr c, re_reload = Some reload → reload tr = Ok c →
  wf c ∧ authorities_distinguished m0 c).

Lemma triple_refresh m :
  same_launch m → wf m →
  triple serving (refreshManifest m) (λ m', λ w, serving w ∧ (same_launch m' ∧ wf m')) serving.
Proof.
  intros Hsame Hm. unfold refreshManifest.
  assert (Hcur : triple (E := rt_error) serving (ret m) (λ m' w, serving w ∧ (same_launch m' ∧ wf m')) serving)
    by (by apply triple_ret).
  assert (Hrep : ∀ e, triple (E := rt_error) serving (run! call_error (EvReloadError e) (λ _, None); ret m)
    (λ m' w, serving w ∧ (same_launch m' ∧ wf m')) serving).
  { intros e. eapply triple_bind; [by apply (keeps_call_error plain _ serving_push)|]. by intros ?. }
  destruct re_reload as [reload|] eqn:Er; [|done].
  eapply triple_bind with (Q := λ r w, serving w ∧ (∀ c, r = Ok c → wf c ∧ authorities_distinguished m0 c)).
  { intros w Hw. unfold attempt, call. assert (Hl : serving (push EvReload w)) by (by apply serving_push).
    split; [done|]. intros c Hc. by apply (Hreload _ _ _ eq_refl Hc). }
  intros r. apply triple_pure. intros Hc. destruct r as [c|e]; [|apply Hrep].
  destruct (Hc c eq_refl) as [Hc1 Hc2].
  eapply triple_bind; [by apply (triple_gets _ _ (λ _, serving))|]. intros now. cbn beta.
  destruct (AcceptRenewal m c now) as [e|] eqn:Ha; [apply Hrep|]. apply triple_ret. intros w Hw.
  split; [done|]. split; [by eapply (same_launch_renewal m)|done].
Qed.
Lemma keeps_run_loop ticks fuel model m : same_launch m → wf m → keeps (run_loop ticks fuel model m).
Proof.
  revert m. induction ticks as [|ticks IH]; intros m Hsame Hm; cbn [run_loop];
    (apply keeps_bind; [by apply keeps_attempt, keeps_recovery|]);
    (intros [[|]|e]; [|apply keeps_ret|apply keeps_bind; [apply keeps_gets|intros [|]; [apply keeps_ret|apply keeps_throw]]]);
    (apply keeps_bind; [apply keeps_gets|]); intros [|]; try apply keeps_ret.
  eapply triple_bind; [by apply triple_refresh|]. intros m'. apply triple_pure. intros [Hs' Hw']. by apply IH.
Qed.
Lemma triple_close_all_serving :
  triple (E := rt_error) serving close_all
    (λ _ w, serving w ∧ w_sessions w = ∅) (λ _, False).
Proof.
  assert (Hl : triple (E := rt_error) launching close_all (λ _, launching) launching)
    by (by apply (keeps_close_all of_launch _ launching_push launching_sessions)).
  intros w [Hw1 Hw2]. specialize (Hl w Hw1). pose proof (triple_close_all_streams w0 (λ _, False) w Hw2) as Hs.
  destruct (close_all w) as [w' [?|?]]; [|done]. destruct Hs. done.
Qed.

(** C21: A run serves one launch.  However often the manifest is reloaded, every container
created carries the ownership labels of the manifest the run began with, so a renewed
manifest finds its containers again and none of another launch is ever started; and
when the run ends, for whatever reason, no session is left and every stream is closed:
those attached during the run and those of the sessions it began with. *)
Theorem run_serves_one_launch ticks fuel model w' r
    (Hrun : Run ticks fuel model m0 w0 = (w', r)) :
  w_sessions w' = ∅ ∧
  (∀ sid, attached w0 (w_trace w') sid ∨ held w0 sid → sid ∈ w_closed w0 ∨ EvClose sid ∈ w_trace w') ∧
  ∃ t, w_trace w' = base ++ t ∧ ∀ s l, EvCreate s l ∈ t → l = LaunchLabels m0 s.
Proof.
  assert (Hstart : serving w0).
  { split; [exists []; by rewrite app_nil_r|apply streams_start]. }
  pose proof (keeps_run_loop ticks fuel model m0 (or_introl eq_refl) Hwf w0 Hstart) as Hloop.
  unfold Run, bind, attempt in Hrun. destruct (run_loop ticks fuel model m0 w0) as [w1 r1].
  assert (H1 : serving w1) by (by destruct r1). clear Hloop.
  pose proof (triple_close_all_serving w1 H1) as Hclose.
  destruct (close_all w1) as [w2 [[]|e]]; [|done]. cbn in Hrun. injection Hrun as <- _.
  destruct Hclose as [[(t & E & Ht) [Hall Hlog]] Hempty]. split; [done|]. split.
  - intros sid Hs. apply Hlog. destruct (Hall sid Hs) as [?|[[id Hh]|Hn]]; [done| |by apply elem_of_empty in Hn].
    by rewrite Hempty, lookup_empty in Hh.
  - exists t. split; [done|]. intros s l Hin. rewrite Forall_forall in Ht. by apply (Ht _ Hin).
Qed.
End run.

(** * A run of the fixture with one renewal *)

Definition fixture_launch_renewed : Manifest :=
  with_window (fixture_unix + 300) (fixture_unix + 1200) fixture_launch.
#[local] Instance renewing_runtime : RuntimeEnv := {|
  re_render _ m := Ok m; re_list _ _ := Ok []; re_inspect _ _ := Err None;
  re_create _ s l := Ok (mkContainer "new" (sp_Name s) l false false);
  re_attach _ _ := None; re_start _ _ := None; re_kill _ _ := None; re_remove _ _ := None;
  re_fetch _ _ _ := Some "value"; re_send _ _ _ _ _ := None; re_closed _ _ := false;
  re_now tr := if 10 <? length tr then (fixture_now + 300 * second)%Z else fixture_now;
  re_cancelled _ := false; re_wait := None;
  re_reload := Some (λ _, Ok fixture_launch_renewed); re_done tr := 10 <? length tr |}.
Lemma fixture_launch_wf : wf fixture_launch.
Proof. by_wf. Qed.
Lemma fixture_launch_renewed_wf : wf fixture_launch_renewed.
Proof. by_wf. Qed.
Lemma renewing_reload reload (tr : trace) c :
  re_reload = Some reload → reload tr = Ok c →
  wf c ∧ authorities_distinguished (SH := toy_sha) fixture_launch c.
Proof.
  intros E1 E2. apply (inj Some) in E1. subst reload. apply Ok_inj in E2. rewrite <-E2. clear E2 c.
  split; [exact fixture_launch_renewed_wf|intros _; apply (f_equal encode); reflexivity].
Qed.
(** The containers of both rounds. *)
Lemma renewing_run :
  match Run 1 1 fixture_model fixture_launch idle_world with
  | (w', Ok true) => existsb (λ ev, match ev with EvReload => true | _ => false end) (w_trace w') = true ∧
    length (List.filter (λ ev, match ev with EvCreate _ _ => true | _ => false end) (w_trace w')) = 2
  | _ => False
  end.
Proof. vm_compute. split; reflexivity. Qed.
Lemma run_serves_one_launch_witness :
  ∃ w', Run 1 1 fixture_model fixture_launch idle_world = (w', Ok true) ∧ w_sessions w' = ∅ ∧
    (∀ sid, attached idle_world (w_trace w') sid → EvClose sid ∈ w_trace w') ∧
    (∀ s l, EvCreate s l ∈ w_trace w' → l = LaunchLabels fixture_launch s).
Proof.
  pose proof renewing_run as H.
  destruct (Run 1 1 fixture_model fixture_launch idle_world) as [w' r] eqn:E.
  destruct r as [[|]|e]; [|by destruct H|by destruct H]. exists w'. split; [reflexivity|].
  destruct (run_serves_one_launch fixture_launch idle_world fixture_launch_wf renewing_reload 1 1 fixture_model
    w' (Ok true) E) as (Hs & Hc & t & Et & Hall).
  split; [exact Hs|]. split.
  - intros sid Ha. destruct (Hc sid (or_introl Ha)) as [Hn|Hin]; [|exact Hin].
    destruct (not_elem_of_empty (C := gset nat) sid Hn).
  - rewrite Et. exact Hall.
Defined.
