(* ===== verification/LaunchHelper.v ===== *)
(** The helper inside the container (src/internal/secretlaunch/helper.go) and the sender
it talks to ([SendEnvelope], supervisor.go): the verified start, the collection of the
service's secrets from the channel, and the watch over the child.

The stream the helper reads is the bytes still to come; the clock is a function of the
number of times it was read.  The goroutines of [monitor] deliver events, and a run of
it is the sequence in which its select takes them.  Only the clearing of buffers is
not represented. *)

From S2P Require Import Prelude GoStrings Provider Digest Json LaunchError JsonScan LaunchTypes LaunchManifest LaunchSession Effects LaunchProvider.
#[local] Open Scope go_scope.

Definition millisecond : Z := 1000000.

(** [readWireFrame]: a frame and the bytes after it; [None] for every failure. *)
Definition readWireFrame (input : string) : option (string * string) :=
  if String.length input <? frameHeaderSize then None
  else
    let header := str_take frameHeaderSize input in
    if negb (bool_decide (str_take 4 header = frameMagic)) then None
    else
      let keyLength := get_be (sub_str 25 2 header) in
      let versionLength := get_be (sub_str 27 2 header) in
      let ciphertextLength := get_be (sub_str 29 4 header) in
      let total := (Z.of_nat frameHeaderSize + keyLength + versionLength + ciphertextLength)%Z in
      let maxKey := Z.of_nat MaxKeyLength in
      if (maxKey <? keyLength)%Z || (maxKey <? versionLength)%Z || (ciphertextLength <? 16)%Z ||
         (MaxFrameLength <? total)%Z then None
      else if (len input <? total)%Z then None
      else Some (str_take (Z.to_nat total) input, str_drop (Z.to_nat total) input).

Definition resolveHeartbeatTimeout (h : HealthSpec) (configured : Z) : result LaunchError Z :=
  try! validHealth h;
  Ok (if (0 <? configured)%Z then configured else (hs_HeartbeatTimeoutMS h * millisecond)%Z).

Record Helper := mkHelper {
  h_Manifest : Manifest; h_Service : ServiceAuthority; h_Canonical : string;
  h_HeartbeatTimeout : Z; h_binding : LaunchBinding }.

Definition no_binding : LaunchBinding := {|
  lb_RuntimeID := ""; lb_Role := ""; lb_Service := ""; lb_Generation := 0; lb_ExpiresAt := 0; lb_Nonce := "" |}.
Definition no_service : ServiceAuthority := {|
  sa_Name := ""; sa_Image := ""; sa_User := ""; sa_Argv := None; sa_Environment := None;
  sa_Labels := None; sa_Networks := None; sa_Restart := ""; sa_OpenStdin := false;
  sa_Health := {| hs_Command := None; hs_IntervalMS := 0; hs_TimeoutMS := 0; hs_Retries := 0;
                  hs_HeartbeatIntervalMS := 0; hs_HeartbeatTimeoutMS := 0 |};
  sa_Dependencies := None; sa_Keys := None; sa_WrapperDigest := "";
  sa_Child := {| ch_Argv := None; ch_User := ""; ch_Environment := None |} |}.

Section helper.
Context {UC : UnicodeCase} {MR : MapRange} {SH : SHA256} {ED : Ed25519} {HM : HMAC256} {X : X25519} {AE : AEAD}.
Context {JL : JsonLib} {JDm : JsonDecode Manifest} {JDs : JsonDecode SignedManifest}.

(** ** Binding *)

Definition NewHelperAt (signed : string) (p : TrustPolicy) (starter : bool) (now : time)
    : result LaunchError Helper :=
  if bool_decide (signed = "") || negb starter then Err (fail ErrInvalidInput)
  else
    let! m := VerifySignedManifest signed p now in
    let! canonical := AuthorityBytes m in
    Ok {| h_Manifest := m; h_Service := no_service; h_Canonical := canonical;
          h_HeartbeatTimeout := 0; h_binding := no_binding |}.

Definition Bind (h : Helper) (b : LaunchBinding) : result LaunchError Helper :=
  try! MatchBinding (h_Manifest h) b;
  match Service (h_Manifest h) (lb_Service b) with
  | None => Err (fail ErrBinding)
  | Some s => Ok {| h_Manifest := h_Manifest h; h_Service := s; h_Canonical := h_Canonical h;
                    h_HeartbeatTimeout := h_HeartbeatTimeout h; h_binding := b |}
  end.

(** ** Collecting *)

(** What the loop holds: the session, the bytes to come, the values and the keys still
required, the last heartbeat, and how often the clock was read. *)
Record collecting := mkCollect {
  co_session : Session; co_input : string; co_values : SecretSet; co_required : gset string;
  co_last : time; co_clock : nat }.

Context (clock : nat → time) (interrupted : string → bool).

(** [readWireFrameContext]: cancelled during the read, on a stream that can be closed. *)
Definition readWireFrameContext (input : string) : option (string * string) :=
  match readWireFrame input with
  | Some (wire, rest) => if interrupted rest then None else Some (wire, rest)
  | None => None
  end.

(** One turn of the loop. *)
Definition collect_turn (byKey : gmap string ManifestKey) (st : collecting) : result LaunchError collecting :=
  match readWireFrameContext (co_input st) with
  | None => Err (fail ErrLifecycle)
  | Some (wire, rest) =>
    let '(opened, session) := Open (co_session st) wire in
    let! f := opened in
    if (f_Kind f =? messageHeartbeat)%Z then
      Ok {| co_session := session; co_input := rest; co_values := co_values st;
            co_required := co_required st; co_last := clock (co_clock st); co_clock := S (co_clock st) |}
    else
      match byKey !! f_Key f with
      | None => Err (failKey ErrKey (f_Key f))
      | Some d =>
        if negb (bool_decide (mk_Version d = f_Version f)) then Err (failKey ErrKey (f_Key f))
        else if bool_decide (is_Some (co_values st !! f_Key f)) then Err (failKey ErrReplay (f_Key f))
        else
          Ok {| co_session := session; co_input := rest;
                co_values := <[f_Key f := mkBuffer (mk_Name d) (mk_Version d) (mk_Env d) (f_Value f)]> (co_values st);
                co_required := co_required st ∖ {[f_Key f]};
                co_last := co_last st; co_clock := co_clock st |}
      end
  end.
(** [for len(required) > 0]: [None] when the fuel is spent; a turn consumes bytes, so
their number suffices. *)
Fixpoint collect (fuel : nat) (byKey : gmap string ManifestKey) (st : collecting)
    : option (result LaunchError collecting) :=
  if bool_decide (co_required st = ∅) then Some (Ok st)
  else
    match fuel with
    | O => None
    | S fuel =>
      match collect_turn byKey st with
      | Err e => Some (Err e)
      | Ok st => collect fuel byKey st
      end
    end.

Definition keys_by_name (l : list ManifestKey) : gmap string ManifestKey :=
  foldl (λ m k, <[mk_Name k := k]> m) ∅ l.
Definition start_collecting (keys : list ManifestKey) (session : Session) (input : string) (n : nat) : collecting := {|
  co_session := session; co_input := input; co_values := ∅;
  co_required := list_to_set (mk_Name <$> keys); co_last := clock n; co_clock := S n |}.

(** What [Run] does before [monitor]: it returns a failure, or hands the child and its
values to the starter. *)
Record started := mkStarted { sr_child : ChildSpec; sr_values : SecretSet; sr_state : collecting; sr_timeout : Z }.
Definition run_until_start (h : Helper) (input : string) (session : Session)
    : option (result LaunchError started) :=
  if bool_decide (lb_RuntimeID (h_binding h) = "") || bool_decide (lb_Service (h_binding h) = "")
  then Some (Err (fail ErrLifecycle))
  else
    match ValidateAt (h_Manifest h) (clock 0) with
    | Some e => Some (Err e)
    | None =>
      match resolveHeartbeatTimeout (sa_Health (h_Service h)) (h_HeartbeatTimeout h) with
      | Err e => Some (Err e)
      | Ok timeout =>
        let keys := elems (sa_Keys (h_Service h)) in
        match collect (S (String.length input)) (keys_by_name keys) (start_collecting keys session input 1) with
        | None => None
        | Some (Err e) => Some (Err e)
        | Some (Ok st) =>
          match ValidateAt (h_Manifest h) (clock (co_clock st)) with
          | Some e => Some (Err e)
          | None => Some (Ok (mkStarted (sa_Child (h_Service h)) (co_values st) st timeout))
          end
        end
      end
    end.

(** ** Watching the child *)

Inductive mon_event :=
| MWait (failed : bool) (code : Z)                  (* the child ended *)
| MFrame (wire : option string) (now : time)        (* the reader delivered a frame, or failed *)
| MSignal (delivered : bool)                        (* a signal, and whether the child took it *)
| MTick (now : time)
| MDone.
(** How [monitor] returns: the exit code, the error, and whether the child was killed. *)
Record mon_exit := mkExit { mx_code : Z; mx_err : option LaunchError; mx_kill : option bool }.
Record monitoring := mkMon { mo_session : Session; mo_last : time }.

(** [waitAfterKill]: [reap] is what the child's end delivers within the reap timeout,
[kill_failed] whether [KillTree] returned an error. *)
Definition waitAfterKill (reap : option (bool * Z)) (kill_failed : bool) : Z * option LaunchError :=
  match reap with
  | Some (failed, code) =>
    if kill_failed then (1%Z, Some (fail ErrChild))
    else if failed || (code <? 0)%Z then (1%Z, Some (fail ErrChild))
    else (code, Some (fail ErrLifecycle))
  | None =>
    if kill_failed then (1%Z, Some (fail ErrChild))
    else (1%Z, Some (fail ErrLifecycle))
  end.

Section monitor.
Context (timeout : Z) (reap : option (bool * Z)) (kill_failed : bool).

Definition mon_step (st : monitoring) (ev : mon_event) : mon_exit + monitoring :=
  let kill := inl (let '(code, err) := waitAfterKill reap kill_failed in mkExit code err (Some (negb kill_failed))) in
  match ev with
  | MWait failed code =>
    inl (if (0 <=? code)%Z then mkExit code None None else mkExit 1 (Some (fail ErrChild)) None)
  | MFrame None _ => kill
  | MFrame (Some wire) now =>
    match Open (mo_session st) wire with
    | (Err _, _) => kill
    | (Ok f, session) =>
      if (f_Kind f =? messageHeartbeat)%Z then inr (mkMon session now) else kill
    end
  | MSignal delivered => if delivered then inr st else kill
  | MTick now => if (timeout <? time_sub now (mo_last st))%Z then kill else inr st
  | MDone => kill
  end.
(** The loop over the events so far: the return, or the state in which it waits. *)
Fixpoint monitor (st : monitoring) (events : list mon_event) : mon_exit + monitoring :=
  match events with
  | [] => inr st
  | ev :: events =>
    match mon_step st ev with inl r => inl r | inr st => monitor st events end
  end.
(** The period of the ticker. *)
Definition monitor_tick : Z := let t := (timeout / 4)%Z in if (t <? millisecond)%Z then millisecond else t.
End monitor.

(** [Run]: the failure to start is one of the child; [start] is what the starter answers,
[Some] child being a non-nil one. *)
Definition helper_Run (h : Helper) (input : string) (session : Session)
    (start : ChildSpec → SecretSet → bool) (reap : option (bool * Z)) (kill_failed : bool)
    (events : list mon_event) : option (result LaunchError (mon_exit + monitoring)) :=
  match run_until_start h input session with
  | None => None
  | Some (Err e) => Some (Err e)
  | Some (Ok s) =>
    if start (sr_child s) (sr_values s) then
      Some (Ok (monitor (sr_timeout s) reap kill_failed (mkMon (co_session (sr_state s)) (co_last (sr_state s))) events))
    else Some (Err (fail ErrChild))
  end.

(** [RunHandshake] up to [Run]: what it writes, and the session and the bytes that [Run]
continues with. *)
Definition handshake_message (key : option string) : result LaunchError string :=
  let! hs := NewHandshake key in EncodeHandshake (PublicKey (Some hs)).
Definition RunHandshake (h : Helper) (key : option string) (written : bool) (input : string)
    : result LaunchError (Session * string) :=
  if bool_decide (lb_RuntimeID (h_binding h) = "") || bool_decide (lb_Service (h_binding h) = "")
  then Err (fail ErrLifecycle)
  else
    let! hs := NewHandshake key in
    let! _ := EncodeHandshake (PublicKey (Some hs)) in
    if negb written then Err (fail ErrCrypto)
    else
      let read := ReadHandshake (Some input) in
      if interrupted (match read with Ok (_, rest) => rest | Err _ => "" end) then Err (fail ErrLifecycle)
      else
        let! read := read in
        let! shared := Derive (Some hs) read.1 (h_Canonical h) in
        let! session := NewSession shared (h_Canonical h) in
        Ok (session, read.2).
End helper.

(** * The sender *)

Record stream := mkStream { st_out : list string; st_closed : bool }.
(** The random sources and the writes of the stream: [None] writes everything, [Some n]
the first [n] bytes before an error. *)
Record sender := mkSender {
  se_key : option string; se_nonce : Z → option string; se_write : list string → option nat }.

Section send.
Context {UC : UnicodeCase} {MR : MapRange} {SH : SHA256} {ED : Ed25519} {HM : HMAC256} {X : X25519} {AE : AEAD}.
Context (env : sender).
Abbreviation send := (act stream LaunchError).

Definition write (bytes : string) : send unit := λ w,
  match se_write env (st_out w) with
  | None => (mkStream (st_out w ++ [bytes]) (st_closed w), Ok ())
  | Some n => (mkStream (st_out w ++ [str_take n bytes]) (st_closed w), Err (fail ErrCrypto))
  end.
Definition close : send unit := modify (λ w, mkStream (st_out w) true).
(** The random source is read with the number of frames sent. *)
Definition nonce_of (s : Session) : option string := se_nonce env (s_send s).

Fixpoint send_keys (keys : list ManifestKey) (values : SecretSet) (s : Session) : send Session :=
  match keys with
  | [] => ret s
  | d :: keys =>
    match values !! mk_Name d with
    | None => throw (failKey ErrKey (mk_Name d))
    | Some item =>
      if negb (bool_decide (sb_Version item = mk_Version d)) || negb (bool_decide (sb_Env item = mk_Env d))
      then throw (failKey ErrKey (mk_Name d))
      else
        let '(r, s) := Seal s (mkFrame messageSecret 0 (sb_Key item) (sb_Version item) (sb_Bytes item)) (nonce_of s) in
        do! wire := lift r in
        run! write wire;
        send_keys keys values s
    end
  end.
Definition sendHeartbeat (s : Session) : send Session :=
  match SealHeartbeat s (nonce_of s) with
  | (Err e, _) => run! close; throw e
  | (Ok wire, s) =>
    do! r := attempt (write wire) in
    match r with
    | Ok _ => ret s
    | Err e => run! close; throw e
    end
  end.

Definition SendEnvelope (input : string) (m : Manifest) (service : ServiceAuthority) (values : SecretSet)
    : send Session :=
  let keys := elems (sa_Keys service) in
  if negb (size values =? length keys) then throw (fail ErrCrypto)
  else if negb (bool_decide (Service m (sa_Name service) = Some service)) then throw (fail ErrBinding)
  else
    do! canonical := lift (AuthorityBytes m) in
    do! peer := lift (fst <$> ReadHandshake (Some input)) in
    do! hs := lift (NewHandshake (se_key env)) in
    do! message := lift (EncodeHandshake (PublicKey (Some hs))) in
    run! write message;
    do! key := lift (Derive (Some hs) peer canonical) in
    do! s := lift (NewSession key canonical) in
    do! s := send_keys keys values s in
    run! guard (validHealth (sa_Health service));
    sendHeartbeat s.

(** The goroutine it leaves: a heartbeat at every tick, until one fails or the context
ends. *)
Fixpoint heartbeats (ticks : list bool) (s : Session) : send Session :=
  match ticks with
  | [] => ret s
  | true :: ticks => do! s := sendHeartbeat s in heartbeats ticks s
  | false :: _ => run! close; ret s
  end.
End send.
