(* ===== verification/LaunchHelperProps.v ===== *)
(** Theorems on the helper: it starts the child only with the complete secrets of a live
manifest, what the supervisor sends arrives, and a child whose heartbeats stop is
killed. *)

From S2P Require Import Prelude GoStrings Provider Digest GoEncoding Json LaunchError JsonScan LaunchTypes LaunchManifest LaunchProps LaunchSession LaunchSessionProps Effects LaunchProvider LaunchHelper.
#[local] Open Scope go_scope.

(** * Valid keys fit into a frame *)

Lemma decimal_go_length fuel n acc : String.length (decimal_go fuel n acc) ≤ fuel + String.length acc.
Proof.
  revert n acc. induction fuel as [|fuel IH]; intros n acc; cbn [decimal_go]; [done|].
  destruct (_ <? _)%Z; [cbn; lia|]. etrans; [apply IH|]. cbn. lia.
Qed.
Lemma digits_not_blank s : str_forall is_digit s = true → existsb blank_rune (runes s) = false.
Proof.
  intros Hs. unfold runes, runes_at.
  rewrite runes_go_ascii.
  - induction s as [|c s IH]; [done|]. cbn [str_forall] in Hs. apply andb_true_iff in Hs as [Hc Hs].
    cbn. fold (code <$> String.list_ascii_of_string s). rewrite IH by done.
    unfold is_digit, in_range in Hc. split_bools. unfold blank_rune.
    rewrite orb_false_r, !orb_false_iff, !Z.eqb_neq. lia.
  - eapply str_forall_impl; [|exact Hs]. intros c Hc. unfold is_digit, in_range, is_ascii in *.
    split_bools. apply Z.ltb_lt. lia.
Qed.
Lemma version_fits v : validProviderVersion v = true →
  v ≠ "" ∧ String.length v ≤ MaxKeyLength ∧ existsb blank_rune (runes v) = false.
Proof.
  unfold validProviderVersion. destruct (ParseInt v) as [n|]; [|done]. intros H. split_bools.
  assert (Hl : String.length (itoa n) ≤ MaxKeyLength).
  { unfold itoa. destruct (Z.ltb_spec n 0); [lia|]. etrans; [apply decimal_go_length|]. by_decide. }
  subst v. split_and!; [|done|apply digits_not_blank, itoa_digits; lia].
  destruct (itoa_head n) as (c & s & -> & _). done.
Qed.
Lemma name_fits k : validKeyName k = true →
  k ≠ "" ∧ String.length k ≤ MaxKeyLength ∧ existsb blank_rune (runes k) = false.
Proof.
  unfold validKeyName, bounded_name. intros H. split_bools. split; [done|]. split; [done|].
  apply not_true_is_false. intros (r & Hr & Hb)%existsb_exists.
  match goal with H : forallb _ _ = true |- _ => rewrite forallb_forall in H; specialize (H _ Hr) end.
  by rewrite Hb in *.
Qed.
Lemma key_sealable env k v :
  key_ok env k → (len v ≤ MaxValueLength)%Z →
  validateFrameFields (mk_Name k) (mk_Version k) v = None ∧ mk_Name k ≠ "".
Proof.
  intros (_ & (Hn & Hnl & Hnb)%name_fits & _ & (Hv & Hvl & Hvb)%version_fits) Hlen. split; [|done].
  unfold validateFrameFields. rewrite !err_if_None, !orb_false_iff. cbn [existsb].
  rewrite Hnb, Hvb, !bool_decide_eq_false_2 by done.
  split_and!; try done; first [by apply Nat.ltb_ge|by apply Z.ltb_ge].
Qed.

(** * Frames on the stream *)

Lemma get_be_go_nonneg acc s : (0 ≤ acc)%Z → (0 ≤ get_be_go acc s)%Z.
Proof.
  revert acc. induction s as [|c s IH]; intros acc H; cbn; [done|]. apply IH.
  pose proof (code_range c). lia.
Qed.
(** A read consumes a header and a tag at least. *)
Lemma readWireFrame_consumes input wire rest :
  readWireFrame input = Some (wire, rest) →
  wire +:+ rest = input ∧ String.length rest + 49 ≤ String.length input.
Proof.
  unfold readWireFrame. cbv zeta. destruct (_ <? _); [done|]. destruct (negb _); [done|].
  destruct (_ || _ || _ || _) eqn:E; [done|].
  destruct (len input <? _)%Z eqn:E2; [done|]. intros H. apply (inj Some), pair_equal_spec in H as [<- <-]. split_bools.
  split; [apply str_take_drop|]. rewrite str_drop_length.
  pose proof (get_be_go_nonneg 0 (sub_str 25 2 (str_take frameHeaderSize input)) ltac:(done)).
  pose proof (get_be_go_nonneg 0 (sub_str 27 2 (str_take frameHeaderSize input)) ltac:(done)).
  unfold get_be, frameHeaderSize, len in *. lia.
Qed.

Section collecting.
Context {SH : SHA256} {HM : HMAC256} {AE : AEAD}.

(** Reading back a sealed frame and what follows it. *)
Lemma readWireFrame_sealed s kind key version value n rest :
  String.length n = 12 → (len value ≤ MaxValueLength)%Z →
  String.length key ≤ MaxKeyLength → String.length version ≤ MaxKeyLength →
  readWireFrame (sealed_wire s kind key version value n +:+ rest) =
    Some (sealed_wire s kind key version value n, rest).
Proof.
  intros Hn Hv Hkl Hvl. unfold sealed_wire.
  set (cl := (len value + 16)%Z). set (seq := (s_send s + 1)%Z).
  change (frame_header kind seq n key version cl) with (the_header kind seq n key version cl).
  set (h := the_header kind seq n key version cl). set (ct := aead_seal _ _ _ _).
  assert (Hct : len ct = cl) by (unfold len, ct; rewrite aead_length; unfold cl, len; lia).
  assert (Hh : String.length h = frameHeaderSize) by (by apply header_length).
  set (wire := h +:+ key +:+ version +:+ ct).
  assert (Hwire : len wire = (33 + len key + len version + cl)%Z).
  { rewrite <-Hct. unfold wire, len. rewrite !str_length_app, Hh. unfold frameHeaderSize. lia. }
  assert (Hkey := len_le_key _ Hkl). assert (Hver := len_le_key _ Hvl).
  assert (Hcl : (16 ≤ cl ≤ MaxValueLength + 16)%Z) by (unfold cl, len in *; lia).
  unfold readWireFrame. cbv zeta.
  assert (Htake : str_take frameHeaderSize (wire +:+ rest) = h).
  { unfold wire. rewrite (str_app_assoc h). by apply str_take_exact. }
  rewrite Htake. unfold h.
  rewrite header_magic, header_key, header_version, header_cl by done.
  rewrite !get_be_put by (unfold cl, MaxValueLength, len in *; lia).
  replace (String.length (wire +:+ rest) <? frameHeaderSize) with false.
  2: { symmetry. apply Nat.ltb_ge. rewrite str_length_app. unfold len, frameHeaderSize in *. lia. }
  rewrite bool_decide_eq_true_2 by done. cbn [negb].
  change (Z.of_nat MaxKeyLength) with 256%Z. change (Z.of_nat frameHeaderSize) with 33%Z.
  rewrite <-Hwire. replace (_ || _ || _ || _) with false.
  2: { symmetry. rewrite !orb_false_iff, !Z.ltb_ge. unfold MaxFrameLength. lia. }
  replace (len (wire +:+ rest) <? len wire)%Z with false.
  2: { symmetry. apply Z.ltb_ge. unfold len. rewrite str_length_app. lia. }
  unfold len. rewrite Nat2Z.id. by rewrite str_take_app, str_drop_app.
Qed.

(** * Collecting *)

Lemma keys_by_name_lookup keys k :
  NoDup (mk_Name <$> keys) → k ∈ keys → keys_by_name keys !! mk_Name k = Some k.
Proof.
  unfold keys_by_name. induction keys as [|k' keys IH] using rev_ind; [by intros _ []%not_elem_of_nil|].
  rewrite fmap_app, foldl_app, NoDup_app. cbn. intros (Hnd & Hdis & _) [Hk|Hk]%elem_of_app.
  - rewrite lookup_insert_ne; [by apply IH|]. intros E.
    apply (Hdis (mk_Name k)); [by apply list_elem_of_fmap_2|]. rewrite E. by left.
  - apply list_elem_of_singleton in Hk as ->. by rewrite lookup_insert_eq.
Qed.
Lemma keys_by_name_inv keys n k : keys_by_name keys !! n = Some k → k ∈ keys ∧ mk_Name k = n.
Proof.
  unfold keys_by_name. induction keys as [|k' keys IH] using rev_ind; [done|].
  rewrite foldl_app. cbn. intros [[<- <-]|[_ [Hk Hn]%IH]]%lookup_insert_Some.
  - split; [|done]. apply elem_of_app. right. by left.
  - split; [|done]. apply elem_of_app. by left.
Qed.

Context (clock : nat → time) (interrupted : string → bool).
Abbreviation collect := (collect clock interrupted).
Abbreviation collect_turn := (collect_turn clock interrupted).

Lemma collect_turn_shorter byKey st st' :
  collect_turn byKey st = Ok st' → String.length (co_input st') < String.length (co_input st).
Proof.
  unfold LaunchHelper.collect_turn, readWireFrameContext.
  destruct (readWireFrame (co_input st)) as [[wire rest]|] eqn:E; [|done].
  apply readWireFrame_consumes in E as [_ Hl]. destruct (interrupted rest); [done|].
  destruct (Open (co_session st) wire) as [[f|e] session]; cbn [result_bind]; [|done].
  intros H. enough (co_input st' = rest) as -> by lia. revert H.
  destruct (_ =? _)%Z; [by intros [= <-]|]. destruct (byKey !! f_Key f); [|done].
  destruct (negb _); [done|]. destruct (bool_decide _); [done|]. by intros [= <-].
Qed.
(** The number of bytes to come suffices as fuel. *)
Lemma collect_enough fuel byKey st : String.length (co_input st) < fuel → collect fuel byKey st ≠ None.
Proof.
  revert st. induction fuel as [|fuel IH]; intros st Hf; [lia|]. cbn [LaunchHelper.collect].
  case_bool_decide; [done|]. destruct (collect_turn byKey st) as [st'|e] eqn:E; [|done].
  apply collect_turn_shorter in E. apply IH. lia.
Qed.

(** ** What is collected *)

Section invariant.
Context (keys : list ManifestKey) (Hnd : NoDup (mk_Name <$> keys)) (key aad : string).
Abbreviation key_names := (list_to_set (mk_Name <$> keys) : gset string).

(** The value was opened under the session's key and launch, as this key and version. *)
Definition authentic (k : ManifestKey) (v : string) : Prop :=
  ∃ s wire f s', s_key s = key ∧ s_aad s = aad ∧ Open s wire = (Ok f, s') ∧
    f_Key f = mk_Name k ∧ f_Version f = mk_Version k ∧ f_Value f = v.
Record collect_inv (st : collecting) : Prop := {
  ci_key : s_key (co_session st) = key;
  ci_aad : s_aad (co_session st) = aad;
  ci_required : co_required st ⊆ key_names;
  ci_dom : dom (co_values st) = key_names ∖ co_required st;
  ci_values k : k ∈ keys → mk_Name k ∉ co_required st →
    ∃ v, co_values st !! mk_Name k = Some (item_for k v) ∧ authentic k v }.

Lemma collect_start session input n :
  s_key session = key → s_aad session = aad →
  collect_inv (start_collecting clock keys session input n).
Proof.
  intros Hk Ha. split; [done|done|done| |].
  - cbn. by rewrite difference_diag_L, dom_empty_L.
  - intros k Hin Hn. destruct Hn. cbn. apply elem_of_list_to_set. by apply list_elem_of_fmap_2.
Qed.
Lemma collect_turn_inv st st' :
  collect_inv st → collect_turn (keys_by_name keys) st = Ok st' → collect_inv st'.
Proof.
  intros [Hk Ha Hr Hd Hv]. unfold LaunchHelper.collect_turn.
  destruct (readWireFrameContext _ _) as [[wire rest]|]; [|done].
  destruct (Open (co_session st) wire) as [[f|e] session] eqn:EO; cbn [result_bind]; [|done].
  apply Open_cases in EO as Hcases. destruct Hcases as (Hk' & Ha' & _ & _). rewrite Hk in Hk'. rewrite Ha in Ha'.
  destruct (_ =? _)%Z; [by intros [= <-]|].
  destruct (keys_by_name keys !! f_Key f) as [d|] eqn:Ed; [|done].
  apply keys_by_name_inv in Ed as [Hd1 Hd2].
  destruct (negb (bool_decide (mk_Version d = f_Version f))) eqn:Ever; [done|]. split_bools.
  case_bool_decide as Hdup; [done|]. intros [= <-]. rewrite <-Hd2 in *.
  assert (Hin : mk_Name d ∈ key_names) by (apply elem_of_list_to_set; by apply list_elem_of_fmap_2).
  split; cbn; [done|done| | |].
  - etrans; [apply subseteq_difference_l; reflexivity|done].
  - rewrite dom_insert_L, Hd. apply set_eq. intros x. rewrite elem_of_union, !elem_of_difference, !elem_of_singleton.
    destruct (decide (x = mk_Name d)) as [->|]; naive_solver.
  - intros k Hkin Hn. destruct (decide (mk_Name k = mk_Name d)) as [E|Hne].
    + assert (k = d) as ->.
      { apply (keys_by_name_lookup _ _ Hnd) in Hkin, Hd1. congruence. }
      exists (f_Value f). rewrite lookup_insert_eq. split; [done|]. by exists (co_session st), wire, f, session.
    + rewrite lookup_insert_ne by done. apply Hv; [done|]. intros H. apply Hn.
      apply elem_of_difference. split; [done|]. by intros ?%elem_of_singleton.
Qed.
Lemma collect_Ok fuel st st' :
  collect_inv st → collect fuel (keys_by_name keys) st = Some (Ok st') →
  set_for authentic keys (co_values st').
Proof.
  revert st. induction fuel as [|fuel IH]; intros st Hinv; cbn [LaunchHelper.collect]; case_bool_decide as Hreq.
  1, 3: intros [= <-]; destruct Hinv as [_ _ _ Hd Hv]; rewrite Hreq in *; split; [done|]; split;
    [rewrite Hd; apply difference_empty_L|intros k Hk; apply Hv; [done|apply not_elem_of_empty]].
  - done.
  - destruct (collect_turn _ st) as [st1|e] eqn:E; [|done]. apply IH. by eapply collect_turn_inv.
Qed.
End invariant.
End collecting.

(** * Starting the child *)

Section start.
Context {UC : UnicodeCase} {MR : MapRange} {SH : SHA256} {ED : Ed25519} {HM : HMAC256} {X : X25519} {AE : AEAD}.
Context {JL : JsonLib} {JDm : JsonDecode Manifest} {JDs : JsonDecode SignedManifest}.

Lemma Service_elem m name s : Service m name = Some s → s ∈ elems (m_Services m) ∧ sa_Name s = name.
Proof.
  unfold Service, find_service. intros [Hin Hn]%find_some. apply bool_decide_eq_true in Hn.
  split; [by apply list_elem_of_In|done].
Qed.
(** The keys of a valid manifest's service. *)
Lemma service_keys m s :
  Validate m = None → s ∈ elems (m_Services m) →
  NoDup (mk_Name <$> elems (sa_Keys s)) ∧ (length (elems (sa_Keys s)) ≤ 1024)%nat ∧
  validHealth (sa_Health s) = None ∧ ∀ k, k ∈ elems (sa_Keys s) → key_ok (sa_Environment s) k.
Proof.
  intros Hv Hs. pose proof (Validate_services _ _ Hv Hs) as H.
  destruct (validateServiceAuthority_keys _ H) as [_ Hk]. unfold validateServiceAuthority in H. inv_ok. split_bools.
  match goal with H : key_loop _ _ _ _ = None |- _ => apply key_loop_names in H as [Hnd _] end. done.
Qed.
Lemma heartbeat_timeout_positive h configured t :
  resolveHeartbeatTimeout h configured = Ok t → (0 ≤ hs_HeartbeatTimeoutMS h)%Z → (0 < t)%Z.
Proof.
  unfold resolveHeartbeatTimeout. destruct (validHealth h) eqn:E; [done|].
  cbn [err_guard]. intros <-%Ok_inj Ht. unfold validHealth in E. inv_ok. split_bools. destruct (Z.ltb_spec 0 configured); unfold millisecond; lia.
Qed.

(** C18: The helper decides on every input, and it hands a child to the starter only when
it has everything: the manifest it was given is verified and live at the last reading
of the clock, the child is the one of the bound service, and the values are exactly
the service's keys, each with the version and the environment name of the manifest
and each decrypted under the session's key for this launch. *)
Theorem helper_starts_complete signed p now h0 b h clock interrupted input session
    (Hnew : NewHelperAt signed p true now = Ok h0) (Hbind : Bind h0 b = Ok h) :
  run_until_start clock interrupted h input session ≠ None ∧
  ∀ s, run_until_start clock interrupted h input session = Some (Ok s) →
    VerifySignedManifest signed p now = Ok (h_Manifest h) ∧
    ∃ service, Service (h_Manifest h) (lb_Service b) = Some service ∧ sr_child s = sa_Child service ∧
      set_for (authentic (s_key session) (s_aad session)) (elems (sa_Keys service)) (sr_values s) ∧
      ValidateAt (h_Manifest h) (clock (co_clock (sr_state s))) = None.
Proof.
  unfold run_until_start. set (keys := elems (sa_Keys (h_Service h))).
  remember (S (String.length input)) as fuel eqn:Hfuel. pose proof (collect_enough clock interrupted fuel (keys_by_name keys)
    (start_collecting clock keys session input 1)) as Henough.
  split.
  { destruct (_ || _); [done|]. destruct (ValidateAt _ _); [done|].
    destruct (resolveHeartbeatTimeout _ _); [|done]. specialize (Henough ltac:(cbn; lia)).
    destruct (collect _ _ _ _ _) as [[st|e]|]; [|done|done]. by destruct (ValidateAt _ _). }
  intros s. destruct (_ || _); [done|]. destruct (ValidateAt _ (clock 0)) eqn:Hv; [done|].
  destruct (resolveHeartbeatTimeout _ _) as [timeout|]; [|done].
  destruct (collect _ _ _ _ _) as [[st|e]|] eqn:Hc; [|done|done].
  destruct (ValidateAt _ (clock (co_clock st))) eqn:Hv2; [done|]. intros [= <-]. cbn.
  unfold NewHelperAt in Hnew. destruct (_ || _); [done|].
  destruct (VerifySignedManifest signed p now) as [m|] eqn:Hm; [|done]. cbn in Hnew. apply Ok_inj in Hnew as <-.
  unfold Bind in Hbind. cbn in Hbind. destruct (MatchBinding m b); [done|]. cbn in Hbind.
  destruct (Service m (lb_Service b)) as [service|] eqn:Es; [|done]. apply Ok_inj in Hbind as <-. cbn in *.
  split; [done|]. exists service. split; [done|]. split; [done|]. split; [|done].
  apply ValidateAt_inv in Hv as [Hv _]. apply Service_elem in Es as [Es _].
  destruct (service_keys _ _ Hv Es) as [Hnd _].
  eapply collect_Ok; [exact Hnd| |exact Hc]. by apply collect_start.
Qed.
End start.

(** * The watch over the child *)

(** [monitor] (helper.go) ends only when the child does or [KillTree] was called, and a supervisor that
falls silent is noticed within one tick of the timeout. *)
Section watch.
Context {SH : SHA256} {HM : HMAC256} {AE : AEAD}.
Context (timeout : Z) (reap : option (bool * Z)) (kill_failed : bool).
Abbreviation monitor := (monitor timeout reap kill_failed).
Abbreviation mon_step := (mon_step timeout reap kill_failed).

Lemma monitor_app st e1 e2 :
  monitor st (e1 ++ e2) = match monitor st e1 with inl r => inl r | inr st => monitor st e2 end.
Proof. revert st. induction e1 as [|ev e1 IH]; intros st; cbn; [done|]. by destruct (mon_step st ev). Qed.

(** How the watch may end: the child was killed and that is an error; it could not be
killed, which is reported as an error of the child; or it ended by itself. *)
Definition ended (r : mon_exit) (events : list mon_event) : Prop :=
  (mx_kill r = Some true ∧ is_Some (mx_err r)) ∨
  (mx_kill r = Some false ∧ mx_code r = 1%Z ∧ mx_err r = Some (fail ErrChild)) ∨
  (mx_kill r = None ∧ ∃ failed code, MWait failed code ∈ events).
Lemma ended_incl r e1 e2 : e1 ⊆ e2 → ended r e1 → ended r e2.
Proof. intros Hsub [?|[?|(? & f & c & ?)]]; [by left|by right; left|right; right]. split; [done|]. exists f, c. auto. Qed.
Lemma killed_ended events code err :
  waitAfterKill reap kill_failed = (code, err) → ended (mkExit code err (Some (negb kill_failed))) events.
Proof.
  unfold waitAfterKill, ended. cbn.
  destruct reap as [[f c]|], kill_failed; cbn; try (intros [= <- <-]; eauto 6); destruct (_ || _); intros [= <- <-]; eauto 6.
Qed.
Lemma mon_step_end st ev r : mon_step st ev = inl r → ended r [ev].
Proof.
  unfold mon_step. destruct (waitAfterKill reap kill_failed) as [code err] eqn:Ek.
  pose proof (killed_ended [ev] _ _ Ek) as Hk.
  destruct ev as [failed code'|[wire|] now|[]|now|]; intros H; try (by injection H as <-); try done.
  - right. right. injection H as <-. split; [by destruct (0 <=? code')%Z|]. exists failed, code'. by left.
  - destruct (Open (mo_session st) wire) as [[f|] s]; [|by injection H as <-].
    destruct (f_Kind f =? messageHeartbeat)%Z; [done|]. by injection H as <-.
  - destruct (_ <? _)%Z; [|done]. by injection H as <-.
Qed.
(** The last heartbeat is that of an accepted frame. *)
Lemma mon_step_last st ev st' (t0 : time) :
  mon_step st ev = inr st' → (mo_last st ≤ t0)%Z →
  (∀ wire t, ev = MFrame (Some wire) t → (t ≤ t0)%Z) → (mo_last st' ≤ t0)%Z.
Proof.
  destruct ev as [failed code|[wire|] now|[]|now|]; cbn; intros H Hl Hf; try done; try (by injection H as <-).
  - destruct (Open (mo_session st) wire) as [[f|] s]; [|done].
    destruct (f_Kind f =? messageHeartbeat)%Z; [|done]. injection H as <-. cbn. by eapply Hf.
  - destruct (_ <? _)%Z; [done|]. by injection H as <-.
Qed.
Lemma monitor_last st events st' (t0 : time) :
  monitor st events = inr st' → (mo_last st ≤ t0)%Z →
  (∀ wire t, MFrame (Some wire) t ∈ events → (t ≤ t0)%Z) → (mo_last st' ≤ t0)%Z.
Proof.
  revert st. induction events as [|ev events IH]; intros st; cbn [LaunchHelper.monitor]; [by intros [= <-]|].
  destruct (mon_step st ev) as [r|st1] eqn:E; [done|]. intros H Hl Hf. eapply IH; [exact H| |].
  - eapply mon_step_last; [exact E|done|]. intros wire t ->. eapply Hf. by left.
  - intros wire t Hin. eapply Hf. by right.
Qed.
Lemma monitor_end st events r : monitor st events = inl r → ended r events.
Proof.
  revert st. induction events as [|ev events IH]; intros st; cbn [LaunchHelper.monitor]; [done|].
  destruct (mon_step st ev) as [r'|st1] eqn:E.
  - intros [= <-]. apply mon_step_end in E. eapply ended_incl; [|exact E]. set_solver.
  - intros H%IH. eapply ended_incl; [|exact H]. set_solver.
Qed.

(** A tick late enough ends the watch. *)
Lemma late_tick st pre now post (t0 : time) :
  (mo_last st ≤ t0)%Z → (∀ wire t, MFrame (Some wire) t ∈ pre → (t ≤ t0)%Z) →
  (timeout < now - t0)%Z → (timeout < max_int64)%Z →
  ∃ r, monitor st (pre ++ MTick now :: post) = inl r.
Proof.
  intros Hl Hf Hlate Hmax. rewrite monitor_app. destruct (monitor st pre) as [r|st1] eqn:E; [by exists r|].
  pose proof (monitor_last _ _ _ _ E Hl Hf) as Hl1. cbn.
  replace (timeout <? time_sub now (mo_last st1))%Z with true; [by eexists|].
  symmetry. apply Z.ltb_lt. unfold time_sub, min_int64, max_int64 in *. lia.
Qed.

(** The ticker fires every [monitor_tick] from [start] until [horizon]. *)
Definition ticking (start horizon : time) (events : list mon_event) : Prop :=
  ∀ k, (0 ≤ k)%Z → (start + k * monitor_tick timeout ≤ horizon)%Z →
    MTick (start + k * monitor_tick timeout) ∈ events.
Lemma monitor_tick_positive : (0 < monitor_tick timeout)%Z.
Proof. unfold monitor_tick, millisecond. cbv zeta. destruct (Z.ltb_spec (timeout / 4) 1000000); lia. Qed.
Lemma tick_after start (deadline : Z) :
  (start ≤ deadline)%Z → ∃ k, (0 ≤ k ∧ deadline < start + k * monitor_tick timeout ≤ deadline + monitor_tick timeout)%Z.
Proof.
  intros H. pose proof monitor_tick_positive as Hp. set (p := monitor_tick timeout) in *.
  exists ((deadline - start) / p + 1)%Z.
  pose proof (Z.div_mod (deadline - start) p ltac:(lia)). pose proof (Z.mod_pos_bound (deadline - start) p ltac:(lia)).
  pose proof (Z.div_pos (deadline - start) p ltac:(lia) ltac:(lia)). nia.
Qed.

(** C20: A silent supervisor is noticed.  If no frame comes after [t0], the start included,
and the ticker fires until one tick after the timeout from then, then whatever else
happens the watch has ended by that time: the child was killed, with an error
returned; or it could not be killed, which the exit code 1 and the error of the child
say; or it had ended by itself. *)
Theorem silence_ends_child st events start horizon (t0 : time)
    (Hstart : (start ≤ t0)%Z) (Hlast : (mo_last st ≤ t0)%Z) (Htimeout : (0 < timeout < max_int64)%Z)
    (Hsilent : ∀ wire t, MFrame (Some wire) t ∈ events → (t ≤ t0)%Z)
    (Hhorizon : (t0 + timeout + monitor_tick timeout ≤ horizon)%Z) (Htick : ticking start horizon events) :
  ∃ r, monitor st events = inl r ∧
    ((mx_kill r = Some true ∧ is_Some (mx_err r)) ∨
     (mx_kill r = Some false ∧ mx_code r = 1%Z ∧ mx_err r = Some (fail ErrChild)) ∨
     (mx_kill r = None ∧ ∃ failed code, MWait failed code ∈ events)).
Proof.
  destruct (tick_after start (t0 + timeout)) as (k & Hk & Hnow); [lia|].
  pose proof (Htick k Hk ltac:(lia)) as Hin. apply list_elem_of_split in Hin as (pre & post & ->).
  destruct (late_tick st pre (start + k * monitor_tick timeout) post t0 Hlast) as [r Hr]; [|lia|lia|].
  - intros wire t Hw. eapply Hsilent, elem_of_app. by left.
  - exists r. split; [exact Hr|]. exact (monitor_end _ _ _ Hr).
Qed.
End watch.

(** Four ticks of a second and one more, without a frame: the child is killed, or, where
that fails, an error of the child is returned. *)
Lemma silence_ends_child_witness :
  ∃ r, monitor (AE := toy_aead) (4 * second) None true (mkMon toy_session 0)
      (MTick <$> [0; second; 2 * second; 3 * second; 4 * second; 5 * second]%Z) = inl r ∧
    mx_kill r = Some false ∧ mx_code r = 1%Z ∧ mx_err r = Some (fail ErrChild).
Proof.
  destruct (silence_ends_child (AE := toy_aead) (4 * second) None true (mkMon toy_session 0)
    (MTick <$> [0; second; 2 * second; 3 * second; 4 * second; 5 * second]%Z) 0 (5 * second) 0)
    as (r & Hr & [[Hk _]|[Hk|[_ (f & c & Hin)]]]); [done|done|by vm_compute| | | | |by exists r|].
  - intros wire t (x & Ht & _)%list_elem_of_fmap. discriminate.
  - vm_compute. discriminate.
  - intros k H0 Hk. apply list_elem_of_fmap. eexists. split; [reflexivity|].
    change (monitor_tick (4 * second)) with second in *. unfold second in *.
    assert (k = 0 ∨ k = 1 ∨ k = 2 ∨ k = 3 ∨ k = 4 ∨ k = 5)%Z as Hc by lia.
    destruct Hc as [->|[->|[->|[->|[->| ->]]]]]; by_decide.
  - exfalso. vm_compute in Hr. injection Hr as <-. discriminate Hk.
  - exfalso. apply list_elem_of_fmap in Hin as (x & Ht & _). discriminate.
Defined.
