(* ===== verification/LaunchDelivery.v ===== *)
(** From the supervisor to the child: what [SendEnvelope] writes for a service, the
helper of the same launch reads, and starts the child with exactly those values; and
the watch that follows. *)

From S2P Require Import Prelude GoStrings Provider Digest Json LaunchError JsonScan LaunchTypes LaunchManifest LaunchProps LaunchSession LaunchSessionProps Effects LaunchProvider LaunchHelper LaunchHelperProps.
#[local] Open Scope go_scope.

Section delivery.
Context {UC : UnicodeCase} {MR : MapRange} {SH : SHA256} {ED : Ed25519} {HM : HMAC256} {X : X25519} {AE : AEAD}.

(** The bytes of what was written. *)
Definition bytes_of (l : list string) : string := foldr (λ x s, x +:+ s) "" l.

(** * The frames of a set *)

(** Two ends in step: one key, one launch, and everything sent was received. *)
Definition in_step (r s : Session) : Prop :=
  s_key r = s_key s ∧ s_aad r = s_aad s ∧ s_received r = s_send s.
Definition ready (count : nat) (s : Session) : Prop :=
  String.length (s_key s) = 32 ∧ (0 ≤ s_send s)%Z ∧ (s_send s + Z.of_nat count < uint64_max)%Z.
Definition value_of (values : SecretSet) (k : ManifestKey) : string :=
  match values !! mk_Name k with Some b => sb_Bytes b | None => "" end.

Context (nonce : Z → string) (Hnonce : ∀ n, String.length (nonce n) = 12).

(** The frame of a key, and those of a list of keys with the session afterwards. *)
Definition key_wire (values : SecretSet) (s : Session) (k : ManifestKey) : string :=
  sealed_wire s messageSecret (mk_Name k) (mk_Version k) (value_of values k) (nonce (s_send s)).
Fixpoint key_wires (values : SecretSet) (keys : list ManifestKey) (s : Session) : list string * Session :=
  match keys with
  | [] => ([], s)
  | k :: keys =>
    let '(ws, s') := key_wires values keys (sent s) in (key_wire values s k :: ws, s')
  end.
Definition beat_wire (s : Session) : string := sealed_wire s messageHeartbeat "" "" "" (nonce (s_send s)).

Lemma ready_sent n s : ready (S n) s → ready n (sent s).
Proof. unfold ready. cbn. lia. Qed.
Lemma key_wires_session values keys s :
  let s' := (key_wires values keys s).2 in
  s_key s' = s_key s ∧ s_aad s' = s_aad s ∧ s_send s' = (s_send s + Z.of_nat (length keys))%Z.
Proof.
  revert s. induction keys as [|k keys IH]; intros s; cbn [key_wires].
  { cbn. split_and!; [done|done|]. lia. }
  specialize (IH (sent s)). destruct (key_wires values keys (sent s)) as [ws s']. cbn in *. destruct IH as (-> & -> & ->). split_and!; [done|done|]. lia.
Qed.

(** What the keys and their values must satisfy. *)
Definition key_good (env : string_map) (values : SecretSet) (k : ManifestKey) : Prop :=
  key_ok env k ∧ ∃ v, values !! mk_Name k = Some (item_for k v) ∧ fits k v.
Lemma value_of_item values k v : values !! mk_Name k = Some (item_for k v) → value_of values k = v.
Proof. unfold value_of. by intros ->. Qed.
Lemma key_good_sealable env values k :
  key_good env values k →
  sealable messageSecret (mk_Name k) (mk_Version k) (value_of values k) ∧
  (len (value_of values k) ≤ MaxValueLength)%Z ∧
  String.length (mk_Name k) ≤ MaxKeyLength ∧ String.length (mk_Version k) ≤ MaxKeyLength.
Proof.
  intros [Hok (v & Hv & Hfit)]. rewrite (value_of_item _ _ _ Hv).
  destruct (key_sealable _ _ _ Hok Hfit) as [Hfr Hne]. split; [by left|]. split; [done|].
  destruct Hok as (_ & (_ & ? & _)%name_fits & _ & (_ & ? & _)%version_fits). done.
Qed.

(** * Sending *)

Context (se_key_ : string).
#[local] Definition env : sender := mkSender (Some se_key_) (λ n, Some (nonce n)) (λ _, None).

Lemma write_all bytes w : write env bytes w = (mkStream (st_out w ++ [bytes]) (st_closed w), Ok ()).
Proof. done. Qed.
Lemma nonce_of_env s : nonce_of env s = Some (nonce (s_send s)).
Proof. done. Qed.

Lemma seal_ready s kind key version value :
  ready 1 s → sealable kind key version value → (len value ≤ MaxValueLength)%Z →
  String.length key ≤ MaxKeyLength → String.length version ≤ MaxKeyLength →
  seal s kind key version value (Some (nonce (s_send s))) =
    (Ok (sealed_wire s kind key version value (nonce (s_send s))), sent s).
Proof.
  intros (H32 & H0 & Hmax) Hs Hv Hk Hver. unfold seal. cbv zeta. rewrite H32. cbn [Nat.eqb negb].
  destruct (sealable_checks _ _ _ _ Hs) as (-> & _ & _ & _).
  replace (s_send s =? uint64_max)%Z with false by (symmetry; apply Z.eqb_neq; lia).
  replace (MaxValueLength + 16 <? len value + 16)%Z with false by (symmetry; apply Z.ltb_ge; lia).
  replace ((MaxKeyLength <? String.length key) || (MaxKeyLength <? String.length version)) with false
    by (symmetry; rewrite orb_false_iff, !Nat.ltb_ge; done).
  destruct Hs as [(-> & Hne & Hf)|(-> & -> & -> & ->)]; [|done]. cbn.
  by rewrite Hf, !bool_decide_eq_false_2 by (by intros ?).
Qed.

Lemma send_keys_ok senv values keys s w :
  (∀ k, k ∈ keys → key_good senv values k) → ready (length keys) s →
  send_keys env keys values s w =
    (mkStream (st_out w ++ (key_wires values keys s).1) (st_closed w), Ok (key_wires values keys s).2).
Proof.
  revert s w. induction keys as [|k keys IH]; intros s w Hg Hr; cbn [send_keys key_wires].
  { cbn. by rewrite app_nil_r; destruct w. }
  assert (Hk : key_good senv values k) by (apply Hg; by left).
  destruct (key_good_sealable _ _ _ Hk) as (Hs & Hv & Hkl & Hvl).
  destruct Hk as [_ (v & Hval & Hfit)]. rewrite Hval. cbn [item_for sb_Version sb_Env sb_Key sb_Bytes].
  rewrite (value_of_item _ _ _ Hval) in Hs, Hv.
  rewrite !bool_decide_eq_true_2 by done. cbn [negb orb].
  unfold Seal. cbn [f_Kind f_Key f_Version f_Value].
  destruct Hs as [(_ & Hne & Hf)|[? _]]; [|done]. rewrite Hf, (bool_decide_eq_false_2 _ Hne). cbn [negb orb Z.eqb].
  rewrite nonce_of_env. change (negb (messageSecret =? messageSecret)%Z) with false. cbn [orb].
  rewrite (seal_ready s messageSecret (mk_Name k) (mk_Version k) v); try done; [|unfold ready in *; cbn [length] in *; lia|by left].
  unfold bind, lift. cbn beta iota. rewrite write_all. cbn [st_out st_closed].
  rewrite IH; [|by intros k' Hk'; apply Hg; right|by apply ready_sent].
  destruct (key_wires values keys (sent s)) as [ws s']. cbn. unfold key_wire.
  rewrite (value_of_item _ _ _ Hval), <-app_assoc. done.
Qed.

(** * Receiving *)

Context (clock : nat → time).
Abbreviation collect := (collect clock (λ _, false)).

Lemma Open_in_step r s kind key version value :
  in_step r s → ready 1 s → sealable kind key version value → (len value ≤ MaxValueLength)%Z →
  String.length key ≤ MaxKeyLength → String.length version ≤ MaxKeyLength →
  ∃ r', Open r (sealed_wire s kind key version value (nonce (s_send s))) =
    (Ok (mkFrame kind (s_send s + 1) key version value), r') ∧ in_step r' (sent s).
Proof.
  intros (Hk & Ha & Hr) (H32 & H0 & Hmax) Hs Hv Hkl Hvl. unfold Open.
  rewrite open_sealed by (done || lia). eexists. split; [reflexivity|]. done.
Qed.

Lemma collect_key senv values byKey st s k rest :
  key_good senv values k → byKey !! mk_Name k = Some k → co_values st !! mk_Name k = None →
  in_step (co_session st) s → ready 1 s → co_input st = key_wire values s k +:+ rest →
  ∃ session, collect_turn clock (λ _, false) byKey st =
    Ok {| co_session := session; co_input := rest;
          co_values := <[mk_Name k := item_for k (value_of values k)]> (co_values st);
          co_required := co_required st ∖ {[mk_Name k]};
          co_last := co_last st; co_clock := co_clock st |} ∧ in_step session (sent s).
Proof.
  intros Hk Hby Hnew Hin Hready Hinput. destruct (key_good_sealable _ _ _ Hk) as (Hs & Hv & Hkl & Hvl).
  unfold collect_turn, readWireFrameContext. rewrite Hinput. unfold key_wire.
  rewrite readWireFrame_sealed by done.
  destruct (Open_in_step _ _ _ _ _ _ Hin Hready Hs Hv Hkl Hvl) as (r' & -> & Hin').
  exists r'. split; [|done]. cbn [result_bind f_Kind f_Key f_Version f_Value messageSecret messageHeartbeat Z.eqb Pos.eqb].
  rewrite Hby, (bool_decide_eq_true_2 _ eq_refl), Hnew. cbn [negb].
  by rewrite bool_decide_eq_false_2 by (by intros [? ?]).
Qed.

(** The values as the helper accumulates them. *)
Definition delivered (values : SecretSet) (keys : list ManifestKey) (acc : SecretSet) : SecretSet :=
  foldl (λ acc k, <[mk_Name k := item_for k (value_of values k)]> acc) acc keys.

Lemma collect_wires senv values byKey keys : ∀ fuel st s rest,
  (∀ k, k ∈ keys → key_good senv values k ∧ byKey !! mk_Name k = Some k ∧ co_values st !! mk_Name k = None) →
  NoDup (mk_Name <$> keys) → co_required st = list_to_set (mk_Name <$> keys) →
  in_step (co_session st) s → ready (length keys) s → length keys ≤ fuel →
  co_input st = bytes_of (key_wires values keys s).1 +:+ rest →
  ∃ session, collect fuel byKey st =
    Some (Ok {| co_session := session; co_input := rest; co_values := delivered values keys (co_values st);
                co_required := ∅; co_last := co_last st; co_clock := co_clock st |}) ∧
    in_step session (key_wires values keys s).2.
Proof.
  induction keys as [|k keys IH]; intros fuel st s rest Hg Hnd Hreq Hin Hready Hfuel Hinput.
  { exists (co_session st). split; [|done]. destruct fuel; cbn [LaunchHelper.collect]; rewrite Hreq;
      (rewrite bool_decide_eq_true_2 by done); destruct st; cbn in *; by subst. }
  destruct fuel as [|fuel]; [cbn in Hfuel; lia|].
  destruct (Hg k ltac:(by left)) as (Hk & Hby & Hnew).
  cbn [fmap list_fmap] in Hnd. apply NoDup_cons in Hnd as [Hout Hnd].
  cbn [key_wires] in *. destruct (key_wires values keys (sent s)) as [ws s'] eqn:Ew. cbn [fst bytes_of foldr] in Hinput.
  rewrite str_app_assoc in Hinput.
  destruct (collect_key _ _ _ _ _ _ _ Hk Hby Hnew Hin ltac:(unfold ready in *; cbn [length] in *; lia) Hinput)
    as (session & Hturn & Hin').
  cbn [LaunchHelper.collect]. rewrite bool_decide_eq_false_2, Hturn.
  2: { rewrite Hreq. cbn. clear. set_solver. }
  match type of Hturn with _ = Ok ?x => set (st1 := x) in * end.
  destruct (IH fuel st1 (sent s) rest) as (session' & E & Hin2); [ |done| |done|by apply ready_sent| | |].
  - intros k' Hk'. destruct (Hg k' ltac:(by right)) as (? & ? & Hn'). split; [done|]. split; [done|].
    cbn. rewrite lookup_insert_ne; [done|]. intros Ek. apply Hout. rewrite Ek. by apply list_elem_of_fmap_2.
  - cbn. rewrite Hreq. cbn. apply set_eq. intros x. rewrite elem_of_difference, elem_of_union, !elem_of_singleton.
    rewrite elem_of_list_to_set. split; [naive_solver|]. intros Hx. split; [by right|]. by intros ->.
  - cbn [length] in Hfuel. lia.
  - by rewrite Ew.
  - exists session'. rewrite E, Ew in *. split; [done|]. exact Hin2.
Qed.
Lemma delivered_all senv values keys :
  (∀ k, k ∈ keys → key_good senv values k) → dom values = list_to_set (mk_Name <$> keys) →
  NoDup (mk_Name <$> keys) → delivered values keys ∅ = values.
Proof.
  intros Hg Hdom Hnd. assert (H : ∀ acc n, delivered values keys acc !! n =
    if bool_decide (n ∈ mk_Name <$> keys) then values !! n else acc !! n).
  { clear Hdom. unfold delivered. induction keys as [|k keys IH] using rev_ind; intros acc n; [done|].
    rewrite foldl_app, fmap_app. cbn. rewrite fmap_app in Hnd. apply NoDup_app in Hnd as (Hnd & _ & _).
    assert (Hk : key_good senv values k) by (apply Hg, elem_of_app; right; by left).
    destruct Hk as [_ (v & Hv & _)]. rewrite (value_of_item _ _ _ Hv).
    destruct (decide (n = mk_Name k)) as [->|Hne].
    - rewrite lookup_insert_eq, bool_decide_eq_true_2; [done|]. apply elem_of_app. right. by left.
    - rewrite lookup_insert_ne, IH by (done || intros k' Hk'; apply Hg, elem_of_app; by left).
      erewrite (bool_decide_ext (n ∈ mk_Name <$> keys)); [reflexivity|]. rewrite elem_of_app, list_elem_of_singleton. naive_solver. }
  apply map_eq. intros n. rewrite H. case_bool_decide as Hn; [done|].
  rewrite lookup_empty. symmetry. apply not_elem_of_dom. rewrite Hdom. by rewrite elem_of_list_to_set.
Qed.

(** * Both ends *)

Section ends.
Context (skb canonical key : string).
Context (Hcanonical : canonical ≠ "") (Hderive : Derive (Some {| h_private := Some se_key_; h_public := x_public se_key_ |})
  (x_public skb) canonical = Ok key).

(** Both derive one key, and so start from one session. *)
Lemma same_key :
  Derive (Some {| h_private := Some skb; h_public := x_public skb |}) (x_public se_key_) canonical = Ok key.
Proof. revert Hderive. cbn [Derive]. rewrite !x_public_length. by rewrite (x_commutes se_key_ skb). Qed.
Lemma key_length : String.length key = 32.
Proof.
  revert Hderive. cbn [Derive]. destruct (_ || _); [done|]. destruct (x_shared _ _); [|done].
  intros [= <-]. apply hkdf_length.
Qed.
Definition first_session : Session := {|
  s_key := hkdfSHA256 key (sha256 canonical) channel_info 32; s_aad := sha256 canonical;
  s_send := 0; s_received := 0 |}.
Lemma NewSession_first : NewSession key canonical = Ok first_session.
Proof. unfold NewSession. rewrite key_length, bool_decide_eq_false_2 by done. done. Qed.
Lemma first_ready n : (Z.of_nat n < uint64_max)%Z → ready n first_session.
Proof. intros H. split; [apply hkdf_length|]. cbn. lia. Qed.

Definition hello (sk : string) : string := handshakeMagic +:+ x_public sk.
Lemma handshake_message_hello sk : handshake_message (Some sk) = Ok (hello sk).
Proof. unfold handshake_message. cbn. unfold EncodeHandshake. by rewrite x_public_length. Qed.
Lemma ReadHandshake_hello sk rest : ReadHandshake (Some (hello sk +:+ rest)) = Ok (x_public sk, rest).
Proof.
  unfold ReadHandshake, hello.
  assert (Hw : String.length (handshakeMagic +:+ x_public sk) = handshakeSize)
    by (by rewrite str_length_app, x_public_length).
  rewrite str_length_app, Hw, (str_take_exact handshakeSize), (str_drop_exact handshakeSize) by done.
  replace (handshakeSize + String.length rest <? handshakeSize) with false by (symmetry; apply Nat.ltb_ge; lia).
  by rewrite (str_take_exact 4), (str_drop_exact 4) by done.
Qed.

Lemma SendEnvelope_ok m service values :
  Validate m = None → Service m (sa_Name service) = Some service → AuthorityBytes m = Ok canonical →
  set_for fits (elems (sa_Keys service)) values →
  let '(ws, s) := key_wires values (elems (sa_Keys service)) first_session in
  SendEnvelope env (hello skb) m service values (mkStream [] false) =
    (mkStream (hello se_key_ :: ws ++ [beat_wire s]) false, Ok (sent s)) ∧
  (∀ k, k ∈ elems (sa_Keys service) → key_good (sa_Environment service) values k).
Proof.
  intros Hv Hs Hcan Hset. apply Service_elem in Hs as Hin. destruct Hin as [Hin _].
  destruct (service_keys _ _ Hv Hin) as (Hnd & Hlen & Hhealth & Hkeys).
  pose proof (set_for_size _ _ _ Hset) as Hsize. destruct Hset as (_ & Hdom & Hvals).
  assert (Hgood : ∀ k, k ∈ elems (sa_Keys service) → key_good (sa_Environment service) values k)
    by (intros k Hk; split; [by apply Hkeys|by apply Hvals]).
  assert (Hready : ready (S (length (elems (sa_Keys service)))) first_session)
    by (apply first_ready; unfold uint64_max; lia).
  pose proof (key_wires_session values (elems (sa_Keys service)) first_session) as Hsess.
  destruct (key_wires values (elems (sa_Keys service)) first_session) as [ws s] eqn:Ew.
  cbn [snd] in Hsess. destruct Hsess as (Hsk & _ & Hsend).
  assert (Hlast : ready 1 s) by (revert Hready; unfold ready; rewrite Hsk, Hsend; lia). split; [|done].
  unfold SendEnvelope. rewrite Hsize, Nat.eqb_refl, bool_decide_eq_true_2 by done. cbn [negb].
  erewrite run_bind by (by apply run_lift).
  erewrite run_bind by (apply run_lift; by rewrite <-(str_app_nil_r (hello skb)), ReadHandshake_hello).
  erewrite run_bind by (by apply run_lift).
  erewrite run_bind.
  2: { apply run_lift. unfold EncodeHandshake. cbn [PublicKey h_public]. by rewrite x_public_length. }
  erewrite run_bind by apply write_all.
  erewrite run_bind by (apply run_lift; exact Hderive).
  erewrite run_bind by (apply run_lift; exact NewSession_first).
  erewrite run_bind by (apply (send_keys_ok (sa_Environment service)); [done|unfold ready in *; lia]).
  rewrite Ew. erewrite run_bind by (unfold guard; by rewrite Hhealth). cbn [fst snd st_out st_closed].
  unfold sendHeartbeat, SealHeartbeat. rewrite nonce_of_env, seal_ready; [|done|by right|done|apply Nat.le_0_l..].
  erewrite run_bind by (unfold attempt; by rewrite write_all). done.
Qed.

(** The frames are long enough to serve as fuel. *)
Lemma bytes_of_app l l' : bytes_of (l ++ l') = bytes_of l +:+ bytes_of l'.
Proof. unfold bytes_of. induction l as [|x l IH]; [done|]. cbn. by rewrite IH, str_app_assoc. Qed.
Lemma wires_long values keys s : length keys ≤ String.length (bytes_of (key_wires values keys s).1).
Proof.
  revert s. induction keys as [|k keys IH]; intros s; [apply Nat.le_0_l|]. cbn [key_wires].
  specialize (IH (sent s)). destruct (key_wires values keys (sent s)) as [ws s']. cbn in *.
  rewrite str_length_app. unfold key_wire, sealed_wire, frame_header. rewrite !str_length_app. cbn. lia.
Qed.

Lemma RunHandshake_ok (h : Helper) rest :
  lb_RuntimeID (h_binding h) ≠ "" → lb_Service (h_binding h) ≠ "" → h_Canonical h = canonical →
  RunHandshake (λ _, false) h (Some skb) true (hello se_key_ +:+ rest) = Ok (first_session, rest).
Proof.
  intros Hb1 Hb2 Hc. unfold RunHandshake. rewrite !bool_decide_eq_false_2 by done. cbn [orb NewHandshake result_bind].
  unfold EncodeHandshake. cbn [PublicKey h_public]. rewrite x_public_length. cbn [Nat.eqb x25519PublicKeySize negb result_bind].
  rewrite ReadHandshake_hello. cbn [result_bind fst snd]. rewrite Hc, same_key. cbn [result_bind].
  by rewrite NewSession_first.
Qed.

Lemma run_until_start_ok (h : Helper) values :
  Validate (h_Manifest h) = None → h_Service h ∈ elems (m_Services (h_Manifest h)) →
  lb_RuntimeID (h_binding h) ≠ "" → lb_Service (h_binding h) ≠ "" →
  (∀ n, ValidateAt (h_Manifest h) (clock n) = None) →
  set_for fits (elems (sa_Keys (h_Service h))) values →
  let '(ws, s) := key_wires values (elems (sa_Keys (h_Service h))) first_session in
  ∃ r, run_until_start clock (λ _, false) h (bytes_of ws +:+ beat_wire s) first_session = Some (Ok r) ∧
    sr_child r = sa_Child (h_Service h) ∧ sr_values r = values ∧
    co_input (sr_state r) = beat_wire s ∧ in_step (co_session (sr_state r)) s.
Proof.
  intros Hv Hin Hb1 Hb2 Hlive (Hnd & Hdom & Hvals).
  destruct (service_keys _ _ Hv Hin) as (_ & Hlen & Hhealth & Hkeys).
  set (keys := elems (sa_Keys (h_Service h))) in *.
  assert (Hgood : ∀ k, k ∈ keys → key_good (sa_Environment (h_Service h)) values k)
    by (intros k Hk; split; [by apply Hkeys|by apply Hvals]).
  pose proof (wires_long values keys first_session) as Hlong.
  destruct (key_wires values keys first_session) as [ws s] eqn:Ew. cbn [fst] in Hlong.
  destruct (collect_wires (sa_Environment (h_Service h)) values (keys_by_name keys) keys
    (S (String.length (bytes_of ws +:+ beat_wire s)))
    (start_collecting clock keys first_session (bytes_of ws +:+ beat_wire s) 1) first_session (beat_wire s))
    as (session & Hc & Hstep); [|done|done|done|by apply first_ready; unfold uint64_max; lia
    |rewrite str_length_app; lia|by rewrite Ew|].
  { intros k Hk. split; [by apply Hgood|]. split; [by apply keys_by_name_lookup|done]. }
  unfold run_until_start. rewrite !bool_decide_eq_false_2 by done. cbn [orb]. rewrite Hlive.
  unfold resolveHeartbeatTimeout. rewrite Hhealth. cbn [err_guard]. fold keys. rewrite Hc, Hlive.
  eexists. split; [reflexivity|]. cbn. split; [done|]. rewrite Ew in Hstep. split; [|done].
  by apply (delivered_all (sa_Environment (h_Service h))).
Qed.
End ends.
End delivery.

Section whole.
Context {UC : UnicodeCase} {MR : MapRange} {SH : SHA256} {ED : Ed25519} {HM : HMAC256} {X : X25519} {AE : AEAD}.

(** C17: What the supervisor sends is what the child gets.  For a valid manifest and one of
its services, with the fetched set of its keys: if the streams work, the random source
delivers and the manifest is live whenever the helper looks, then [SendEnvelope]
succeeds; the helper of the same launch authority, reading the bytes it wrote, ends
the handshake in the same session, reads every frame and starts the service's child
with exactly that set; and the bytes then left are the first heartbeat, which it opens
as such, in step with the sender. *)
Theorem secrets_delivered m service values h ska skb nonce clock
    (Hv : Validate m = None) (Hs : Service m (sa_Name service) = Some service)
    (Hset : set_for fits (elems (sa_Keys service)) values)
    (Hauthority : AuthorityBytes m = Ok (h_Canonical h)) (Hcanonical : h_Canonical h ≠ "")
    (Hservice : h_Service h = service) (Hhv : Service (h_Manifest h) (sa_Name service) = Some service)
    (Hb1 : lb_RuntimeID (h_binding h) ≠ "") (Hb2 : lb_Service (h_binding h) ≠ "")
    (Hshared : x_shared ska (x_public skb) ≠ None) (Hnonce : ∀ n, String.length (nonce n) = 12)
    (Hlive : ∀ n, ValidateAt (h_Manifest h) (clock n) = None) :
  ∃ out s session rest r beat session',
    SendEnvelope (mkSender (Some ska) (λ n, Some (nonce n)) (λ _, None)) (hello skb) m service values
      (mkStream [] false) = (mkStream out false, Ok s) ∧
    RunHandshake (λ _, false) h (Some skb) true (bytes_of out) = Ok (session, rest) ∧
    run_until_start clock (λ _, false) h rest session = Some (Ok r) ∧
    sr_child r = sa_Child service ∧ sr_values r = values ∧
    readWireFrame (co_input (sr_state r)) = Some (beat, "") ∧
    Open (co_session (sr_state r)) beat =
      (Ok (mkFrame messageHeartbeat (s_send s) "" "" ""), session') ∧ in_step session' s.
Proof.
  destruct (Derive (Some {| h_private := Some ska; h_public := x_public ska |}) (x_public skb) (h_Canonical h))
    as [key|e] eqn:Hderive.
  2: { exfalso. revert Hderive. cbn [Derive]. rewrite x_public_length, bool_decide_eq_false_2 by done.
       change (negb (32 =? x25519PublicKeySize) || false) with false. cbn iota.
       destruct (x_shared ska (x_public skb)); [discriminate|by intros _]. }
  pose proof (SendEnvelope_ok nonce ska skb (h_Canonical h) key Hcanonical Hderive m service values Hv Hs Hauthority Hset) as Hsend.
  subst service. apply Service_elem in Hhv as [Hin _].
  assert (Hv2 : Validate (h_Manifest h) = None) by (by apply (ValidateAt_inv _ (clock 0))).
  pose proof (run_until_start_ok nonce Hnonce clock (h_Canonical h) key h values Hv2 Hin Hb1 Hb2 Hlive Hset) as Hrun.
  pose proof (key_wires_session nonce values (elems (sa_Keys (h_Service h))) (first_session (h_Canonical h) key)) as Hsess.
  destruct (service_keys _ _ Hv2 Hin) as (_ & Hlen & _ & _).
  pose proof (first_ready (h_Canonical h) key (S (length (elems (sa_Keys (h_Service h)))))
    ltac:(unfold uint64_max; lia)) as Hready.
  destruct (key_wires nonce values _ _) as [ws s] eqn:Ew. destruct Hsend as [Hsend _].
  destruct Hrun as (r & Hrun & Hchild & Hvals & Hinput & Hstep). cbn [snd] in Hsess.
  assert (Hlast : ready 1 s) by (destruct Hsess as (Hk & _ & Hn); revert Hready; unfold ready; rewrite Hk, Hn; lia).
  edestruct (Open_in_step nonce Hnonce _ _ messageHeartbeat "" "" "" Hstep Hlast) as (session' & Hopen & Hstep');
    [by right|done|apply Nat.le_0_l..|].
  exists (hello ska :: ws ++ [beat_wire nonce s]), (sent s), (first_session (h_Canonical h) key),
    (bytes_of ws +:+ beat_wire nonce s), r, (beat_wire nonce s), session'.
  split; [exact Hsend|]. split.
  { cbn [bytes_of foldr]. fold (bytes_of (ws ++ [beat_wire nonce s])). rewrite bytes_of_app. cbn.
    rewrite str_app_nil_r. by apply RunHandshake_ok. }
  split; [exact Hrun|]. split; [done|]. split; [done|]. rewrite Hinput. split; [|by split].
  rewrite <-(str_app_nil_r (beat_wire nonce s)) at 1. by apply readWireFrame_sealed; try apply Nat.le_0_l.
Qed.
End whole.
