(* ===== verification/LaunchProcess.v ===== *)
(** Starting the child (src/internal/secretlaunch/process.go, process_unix.go): the
environment it gets, the user it runs as and the order of the checks.

The environment of the parent, the account database and the calls of the operating
system are arguments. *)

From S2P Require Import Prelude GoStrings Provider Json LaunchError LaunchTypes LaunchManifest LaunchProps LaunchSession LaunchRuntime Effects LaunchProvider.
#[local] Open Scope go_scope.

(** The name a secret is delivered under. *)
Definition env_of (b : SecretBuffer) : string :=
  if bool_decide (sb_Env b = "") then sb_Key b else sb_Env b.

Definition allowedParentVars : list string :=
  ["HOME"; "HOSTNAME"; "LANG"; "LC_ALL"; "LC_CTYPE"; "PATH"; "SSL_CERT_DIR"; "SSL_CERT_FILE"; "TZ"].

(** The loop over the parent's entries. *)
Definition parent_vars (parent : list string) : gmap string string :=
  foldl (λ m e,
    match cut_byte "=" e with
    | Some (name, value) => if bool_decide (name ∈ allowedParentVars) then <[name := value]> m else m
    | None => m
    end) ∅ parent.

Record command := mkCommand {
  cm_argv : list string; cm_env : list string; cm_setpgid : bool; cm_credential : option (Z * Z) }.

Section process.
Context {MR : MapRange}.

Definition validateSecretEnvironment (values : SecretSet) : option LaunchError :=
  err_each (λ '(_, item),
    err_if (negb (validEnvName (env_of item))) (failKey ErrKey (sb_Key item)) None) (range_map 4 values).

Definition environment_of (parent : list string) (declared : gmap string string) (values : SecretSet)
    : gmap string string :=
  let m := parent_vars parent in
  let m := foldl (λ m '(name, value), <[name := value]> m) m (range_map 5 declared) in
  foldl (λ m '(_, item), <[env_of item := sb_Bytes item]> m) m (range_map 6 values).
Definition filteredEnvironment (parent : list string) (declared : gmap string string) (values : SecretSet)
    : list string :=
  let environment := environment_of parent declared values in
  (λ name, name +:+ "=" +:+ default "" (environment !! name)) <$> sorted_keys environment.

(** [strconv.ParseUint] in base 10 with 32 bits. *)
Definition ParseUint32 (s : string) : option Z :=
  n ← parse_digits s; if (n <=? uint32_max)%Z then Some n else None.
(** [lookup] is the account database: the ids of a user name. *)
Definition resolveUser (lookup : string → option (string * string)) (value : string)
    : result LaunchError (Z * Z) :=
  let '(uidStr, gidStr, found) :=
    match cut_byte ":" value with Some (u, g) => (u, g, true) | None => (value, "", false) end in
  let refuse := Err (fail ErrChild) in
  if found && has_byte ":" gidStr then refuse
  else if bool_decide (value = "") then refuse
  else
    match ParseUint32 uidStr with
    | Some uid =>
      if (found : bool) then
        match ParseUint32 gidStr with Some gid => Ok (uid, gid) | None => refuse end
      else Ok (uid, uid)
    | None =>
      match lookup uidStr with
      | None => refuse
      | Some (account_uid, account_gid) =>
        match ParseUint32 account_uid with
        | None => refuse
        | Some uid =>
          match ParseUint32 (if (found : bool) then gidStr else account_gid) with
          | Some gid => Ok (uid, gid)
          | None => refuse
          end
        end
      end
    end.
Definition applyChildUser (lookup : string → option (string * string)) (c : command) (value : string)
    : result LaunchError command :=
  if bool_decide (value = "") || bool_decide (value = "current") then Ok c
  else
    match resolveUser lookup value with
    | Err _ => Err (fail ErrChild)
    | Ok ids => Ok {| cm_argv := cm_argv c; cm_env := cm_env c; cm_setpgid := true; cm_credential := Some ids |}
    end.
(** [configureProcessGroup] *)
Definition configureProcessGroup (c : command) : command :=
  {| cm_argv := cm_argv c; cm_env := cm_env c; cm_setpgid := true; cm_credential := cm_credential c |}.

(** [ExecStarter.Start]: [dumps] is the error of [disableDumps], [run] whether the command
starts. *)
Definition Start (lookup : string → option (string * string)) (dumps : option LaunchError)
    (parent : list string) (run : command → bool) (spec : ChildSpec) (values : SecretSet)
    : result LaunchError command :=
  if bool_decide (elems (ch_Argv spec) = []) then Err (fail ErrChild)
  else
    try! dumps;
    try! validateSecretEnvironment values;
    let env := filteredEnvironment parent (default ∅ (ch_Environment spec)) values in
    let c := configureProcessGroup (mkCommand (elems (ch_Argv spec)) env false None) in
    let! c := applyChildUser lookup c (ch_User spec) in
    if run c then Ok c else Err (fail ErrChild).

(** * The environment of the child *)

Lemma lookup_last_parent parent n :
  is_Some (parent_vars parent !! n) → n ∈ allowedParentVars.
Proof.
  unfold parent_vars. induction parent as [|e parent IH] using rev_ind; [by intros [? ?]|].
  rewrite foldl_app. cbn. destruct (cut_byte "=" e) as [[name value]|]; [|done].
  case_bool_decide as Hn; [|done]. intros [<-|H]%lookup_insert_is_Some'; [done|by apply IH].
Qed.
Lemma declared_lookup (declared m : gmap string string) site :
  foldl (λ m '(name, value), <[name := value]> m) m (range_map site declared) = declared ∪ m.
Proof.
  assert (H : ∀ l (m : gmap string string), NoDup l.*1 →
    foldl (λ m '(name, value), <[name := value]> m) m l = list_to_map l ∪ m).
  { clear. induction l as [|[k v] l IH]; intros m Hnd; [by rewrite left_id_L by apply _|].
    cbn in Hnd. apply NoDup_cons in Hnd as [Hk Hnd]. cbn [foldl]. rewrite IH by done. cbn.
    rewrite <-insert_union_r, <-insert_union_l; [done|]. by apply not_elem_of_list_to_map_1. }
  rewrite H by apply NoDup_range_map. by rewrite range_map_list_to_map.
Qed.
Lemma secrets_lookup l (m : gmap string string) n :
  NoDup (env_of ∘ snd <$> l) →
  foldl (λ m '((_, item) : string * SecretBuffer), <[env_of item := sb_Bytes item]> m) m l !! n =
    match List.find (λ '(_, item), bool_decide (env_of item = n)) l with
    | Some (_, item) => Some (sb_Bytes item)
    | None => m !! n
    end.
Proof.
  revert m. induction l as [|[k b] l IH]; intros m Hnd; [done|].
  cbn [fmap list_fmap] in Hnd. apply NoDup_cons in Hnd as [Hn Hnd]. cbn [foldl List.find]. rewrite IH by done.
  case_bool_decide as E.
  - destruct (List.find _ l) as [[k' b']|] eqn:F; [|by rewrite E, lookup_insert_eq].
    exfalso. apply find_some in F as [Hin F]. apply bool_decide_eq_true in F. apply Hn.
    apply list_elem_of_fmap. exists (k', b'). split; [cbn; congruence|by apply list_elem_of_In].
  - destruct (List.find _ l) as [[k' b']|]; [done|]. by rewrite lookup_insert_ne.
Qed.

(** Secrets that share no environment name: their order does not matter. *)
Definition env_distinct (values : SecretSet) : Prop :=
  ∀ k1 k2 b1 b2, values !! k1 = Some b1 → values !! k2 = Some b2 → env_of b1 = env_of b2 → k1 = k2.
Lemma env_distinct_NoDup site values :
  env_distinct values → NoDup (env_of ∘ snd <$> range_map site values).
Proof.
  intros Hd. apply NoDup_fmap_2_strong.
  - intros [k1 b1] [k2 b2] H1%elem_of_range_map H2%elem_of_range_map E. cbn in E.
    pose proof (Hd _ _ _ _ H1 H2 E) as ->. congruence.
  - apply (NoDup_fmap_1 fst), NoDup_range_map.
Qed.
(** The secret delivered under a name. *)
Definition secret_under (values : SecretSet) (n v : string) : Prop :=
  ∃ k b, values !! k = Some b ∧ env_of b = n ∧ sb_Bytes b = v.
Lemma environment_lookup parent declared values n v :
  env_distinct values →
  environment_of parent declared values !! n = Some v ↔
  secret_under values n v ∨
  (¬ (∃ w, secret_under values n w)) ∧ (declared ∪ parent_vars parent) !! n = Some v.
Proof.
  intros Hd. unfold environment_of. rewrite declared_lookup, secrets_lookup by (by apply env_distinct_NoDup).
  destruct (List.find _ _) as [[k b]|] eqn:F.
  - apply find_some in F as [Hin F]. apply bool_decide_eq_true in F as <-.
    apply list_elem_of_In, elem_of_range_map in Hin. split.
    + intros [= <-]. left. by exists k, b.
    + intros [(k' & b' & Hb & E & <-)|[Hno _]]; [|destruct Hno; by exists (sb_Bytes b), k, b].
      pose proof (Hd _ _ _ _ Hb Hin E) as ->. congruence.
  - assert (Hno : ¬ ∃ w, secret_under values n w).
    { intros (w & k & b & Hb & E & _). pose proof (find_none _ _ F (k, b)) as Hf. cbn in Hf.
      rewrite bool_decide_eq_true_2 in Hf by done.
      discriminate Hf. by apply list_elem_of_In, elem_of_range_map. }
    split; [by right|]. intros [H|[_ H]]; [destruct Hno; by exists v|done].
Qed.

(** The set of some keys, by environment name. *)
Lemma set_for_secret Q keys values n v :
  set_for Q keys values → (∀ k, k ∈ keys → mk_Env k ≠ "") →
  secret_under values n v ↔
  ∃ k, k ∈ keys ∧ mk_Env k = n ∧ values !! mk_Name k = Some (item_for k v).
Proof.
  intros (_ & Hdom & Hv) Hne. split.
  - intros (name & b & Hb & E & <-).
    assert (Hin : name ∈ mk_Name <$> keys).
    { rewrite <-(elem_of_list_to_set (C := gset string)), <-Hdom. by eapply elem_of_dom_2. }
    apply list_elem_of_fmap in Hin as (k & -> & Hk). exists k. destruct (Hv k Hk) as (v & Hkv & _).
    rewrite Hb in Hkv. injection Hkv as ->. split; [done|]. split; [|done].
    rewrite <-E. unfold env_of. cbn. by rewrite bool_decide_eq_false_2 by (by apply Hne).
  - intros (k & Hk & <- & Hkv). exists (mk_Name k), (item_for k v). split; [done|]. split; [|done].
    unfold env_of. cbn. by rewrite bool_decide_eq_false_2 by (by apply Hne).
Qed.
Lemma set_for_distinct Q keys values :
  set_for Q keys values → NoDup (mk_Env <$> keys) → (∀ k, k ∈ keys → mk_Env k ≠ "") → env_distinct values.
Proof.
  intros Hset Hnd Hne n1 n2 b1 b2 H1 H2 E.
  assert (H : ∀ n b, values !! n = Some b → ∃ k, k ∈ keys ∧ mk_Name k = n ∧ mk_Env k = env_of b).
  { intros n b Hb. destruct Hset as (_ & Hdom & Hv).
    assert (Hin : n ∈ mk_Name <$> keys).
    { rewrite <-(elem_of_list_to_set (C := gset string)), <-Hdom. by eapply elem_of_dom_2. }
    apply list_elem_of_fmap in Hin as (k & -> & Hk). exists k. split; [done|]. split; [done|].
    destruct (Hv k Hk) as (v & Hkv & _). rewrite Hb in Hkv. injection Hkv as ->.
    unfold env_of. cbn. by rewrite bool_decide_eq_false_2 by (by apply Hne). }
  destruct (H _ _ H1) as (k1 & Hk1 & <- & E1), (H _ _ H2) as (k2 & Hk2 & <- & E2). f_equal.
  apply list_elem_of_lookup in Hk1 as [i Hi], Hk2 as [j Hj].
  assert (i = j) as ->; [|congruence].
  eapply NoDup_lookup; [exact Hnd|rewrite list_lookup_fmap, Hi; reflexivity|].
  rewrite list_lookup_fmap, Hj. cbn. congruence.
Qed.

(** C23: The child's environment is determined by the launch alone.  When the helper starts a
child with the set for some keys, the environment lists each of its names once, in
order, and a name has the value of the secret delivered under it, else the declared
value, else that of the parent, whose names count only when they are on the list of
allowed ones: no order of iteration and no other variable of the helper matters. *)
Theorem child_environment_exact lookup dumps parent run spec values Q keys c
    (Hset : set_for Q keys values) (Hdistinct : NoDup (mk_Env <$> keys))
    (Hnamed : ∀ k, k ∈ keys → mk_Env k ≠ "")
    (Hstart : Start lookup dumps parent run spec values = Ok c) :
  cm_argv c = elems (ch_Argv spec) ∧
  ∃ environment : gmap string string,
    cm_env c = (λ n, n +:+ "=" +:+ default "" (environment !! n)) <$> sorted_keys environment ∧
    (∀ n v, environment !! n = Some v ↔
       (∃ k, k ∈ keys ∧ mk_Env k = n ∧ values !! mk_Name k = Some (item_for k v)) ∨
       (∀ k, k ∈ keys → mk_Env k ≠ n) ∧
       (default ∅ (ch_Environment spec) ∪ parent_vars parent) !! n = Some v) ∧
    (∀ n, is_Some (parent_vars parent !! n) → n ∈ allowedParentVars).
Proof.
  unfold Start in Hstart. case_bool_decide; [done|]. destruct dumps; [done|].
  destruct (validateSecretEnvironment values) eqn:Hvalid; [done|]. cbn [err_guard] in Hstart.
  destruct (applyChildUser _ _ _) as [c'|] eqn:Ec; [|done]. cbn [result_bind] in Hstart.
  destruct (run c'); [|done]. apply Ok_inj in Hstart as <-.
  assert (Hc : cm_argv c' = elems (ch_Argv spec) ∧
    cm_env c' = filteredEnvironment parent (default ∅ (ch_Environment spec)) values).
  { unfold applyChildUser in Ec. destruct (_ || _); [by apply Ok_inj in Ec as <-|].
    destruct (resolveUser _ _); [|done]. by apply Ok_inj in Ec as <-. }
  destruct Hc as [-> ->]. split; [done|].
  exists (environment_of parent (default ∅ (ch_Environment spec)) values). split; [done|].
  split; [|apply lookup_last_parent]. intros n v.
  rewrite environment_lookup by (by eapply set_for_distinct).
  rewrite (set_for_secret _ _ _ _ _ Hset Hnamed). apply or_iff_compat_l, and_iff_compat_r.
  setoid_rewrite (set_for_secret _ _ _ _ _ Hset Hnamed). split.
  - intros Hno k Hk E. apply Hno. destruct Hset as (_ & _ & Hv). destruct (Hv k Hk) as (w & Hw & _).
    by exists w, k.
  - intros Hno (w & k & Hk & E & _). by apply (Hno k).
Qed.
End process.

Lemma child_environment_exact_witness :
  let k := mkKey "DB/PASSWORD" "3" "DB_PASSWORD" in
  let spec := mkChild (Some ["/bin/app"]) "1000:100" (Some {["LOG" := "info"]}) in
  let values : SecretSet := {["DB/PASSWORD" := item_for k "hunter2"]} in
  ∃ c, Start (λ _, None) None ["PATH=/bin"; "AWS_KEY=x"; "LOG=debug"] (λ _, true) spec values = Ok c ∧
    cm_env c = ["DB_PASSWORD=hunter2"; "LOG=info"; "PATH=/bin"] ∧ cm_argv c = ["/bin/app"].
Proof.
  intros k spec values.
  destruct (Start (λ _, None) None ["PATH=/bin"; "AWS_KEY=x"; "LOG=debug"] (λ _, true) spec values) as [c|e] eqn:E.
  2: { vm_compute in E. discriminate. }
  exists c. split; [done|]. split.
  - revert E. vm_compute. by intros [= <-].
  - refine (proj1 (child_environment_exact _ _ _ _ _ _ (λ _ _, True) [k] c _ _ _ E)).
    + apply (set_for_insert (λ _ _, True) [] ∅ k "hunter2"); [apply set_for_nil|done|done].
    + apply NoDup_singleton.
    + by intros ? ->%list_elem_of_singleton.
Defined.
