(* ===== verification/LaunchChannelFixture.v ===== *)
(** The fixture's launch through the channel: the witnesses of the theorems on the helper
and on delivery. *)

From S2P Require Import Prelude GoStrings Provider Digest GoEncoding Json LaunchError JsonScan LaunchTypes LaunchManifest LaunchProps LaunchFixture LaunchSession LaunchSessionProps Effects LaunchProvider LaunchHelper LaunchHelperProps LaunchDelivery.
#[local] Open Scope go_scope.

Definition fixture_binding : LaunchBinding := mkBinding "docker-prod" "api" "" 0 0 "".
Definition fixture_unbound : Helper := {|
  h_Manifest := fixture_manifest; h_Service := no_service;
  h_Canonical := encode (with_window 0 0 fixture_manifest); h_HeartbeatTimeout := 0; h_binding := no_binding |}.
Definition fixture_helper : Helper := {|
  h_Manifest := fixture_manifest; h_Service := fixture_service;
  h_Canonical := encode (with_window 0 0 fixture_manifest); h_HeartbeatTimeout := 0; h_binding := fixture_binding |}.

Lemma fixture_new : NewHelperAt fixture_data fixture_policy true fixture_now = Ok fixture_unbound.
Proof. vm_compute. reflexivity. Qed.
Lemma fixture_bound : Bind fixture_unbound fixture_binding = Ok fixture_helper.
Proof. vm_compute. reflexivity. Qed.
Lemma fixture_live n : ValidateAt fixture_manifest ((λ _ : nat, fixture_now) n) = None.
Proof. vm_compute. reflexivity. Qed.

Definition fixture_key : ManifestKey := mkKey "APP_TOKEN" "1" "APP_TOKEN".
Definition fixture_values : SecretSet := {["APP_TOKEN" := item_for fixture_key "value"]}.
Lemma fixture_set : set_for fits (elems (sa_Keys fixture_service)) fixture_values.
Proof. apply (set_for_insert fits [] ∅ fixture_key "value"); [apply set_for_nil|done|vm_compute; discriminate]. Qed.

Lemma fixture_canonical : h_Canonical fixture_helper ≠ "".
Proof. vm_compute. discriminate. Qed.
Lemma fixture_authority : AuthorityBytes fixture_manifest = Ok (h_Canonical fixture_helper).
Proof. reflexivity. Qed.
Lemma fixture_service_found : Service fixture_manifest (sa_Name fixture_service) = Some fixture_service.
Proof. vm_compute. reflexivity. Qed.
Lemma fixture_bound_names : lb_RuntimeID (h_binding fixture_helper) ≠ "" ∧ lb_Service (h_binding fixture_helper) ≠ "".
Proof. split; vm_compute; discriminate. Qed.
Lemma fixture_shared : x_shared "a" (x_public "b") ≠ None.
Proof. done. Qed.

Lemma secrets_delivered_witness :
  ∃ out s session rest r,
    SendEnvelope (mkSender (Some "a") (λ _, Some (zeros 12)) (λ _, None)) (hello "b") fixture_manifest fixture_service
      fixture_values (mkStream [] false) = (mkStream out false, Ok s) ∧
    RunHandshake (λ _, false) fixture_helper (Some "b") true (bytes_of out) = Ok (session, rest) ∧
    run_until_start (λ _, fixture_now) (λ _, false) fixture_helper rest session = Some (Ok r) ∧
    sr_values r = fixture_values.
Proof.
  destruct (secrets_delivered fixture_manifest fixture_service fixture_values fixture_helper "a" "b"
    (λ _, zeros 12) (λ _, fixture_now) fixture_valid fixture_service_found fixture_set fixture_authority
    fixture_canonical eq_refl fixture_service_found (proj1 fixture_bound_names) (proj2 fixture_bound_names)
    fixture_shared (λ _, eq_refl) fixture_live) as (out & s & session & rest & r & beat & session' & H1 & H2 & H3 & _ & H5 & _).
  exists out, s, session, rest, r. split; [exact H1|]. split; [exact H2|]. split; [exact H3|exact H5].
Defined.

Definition fixture_session : Session :=
  {| s_key := zeros 32; s_aad := zeros 32; s_send := 0; s_received := 0 |}.
Definition fixture_input : string :=
  bytes_of (key_wires (λ _, zeros 12) fixture_values (elems (sa_Keys fixture_service)) fixture_session).1.
Lemma fixture_run :
  match run_until_start (λ _, fixture_now) (λ _, false) fixture_helper fixture_input fixture_session with
  | Some (Ok r) => sr_child r = sa_Child fixture_service ∧ sr_values r = fixture_values
  | _ => False
  end.
Proof. vm_compute. split; reflexivity. Qed.
Lemma helper_starts_complete_witness :
  ∃ r, run_until_start (λ _, fixture_now) (λ _, false) fixture_helper fixture_input fixture_session = Some (Ok r) ∧
    sr_values r = fixture_values ∧
    set_for (authentic (s_key fixture_session) (s_aad fixture_session)) (elems (sa_Keys fixture_service)) (sr_values r).
Proof.
  pose proof fixture_run as Hrun.
  destruct (run_until_start _ _ _ _ _) as [[r|e]|] eqn:E; [|by destruct Hrun|by destruct Hrun].
  exists r. split; [reflexivity|]. split; [apply Hrun|].
  destruct (helper_starts_complete _ _ _ _ _ _ (λ _, fixture_now) (λ _, false) fixture_input fixture_session
    fixture_new fixture_bound) as [_ H].
  destruct (H r E) as (_ & service & Hs & _ & Hset & _).
  change (Service fixture_manifest (sa_Name fixture_service) = Some service) in Hs.
  rewrite fixture_service_found in Hs. injection Hs as <-. exact Hset.
Defined.
