(* ===== verification/TimeParse.v ===== *)
(** [time.Parse(time.RFC3339, s)] of the standard library, and that it reads back what
[Format] writes. *)

From S2P Require Import Prelude GoStrings Provider GoEncoding GoTime Json.
#[local] Open Scope Z_scope.

(** [getnum]: one or two digits, two when [fixed]. *)
Definition getnum (fixed : bool) (s : string) : option (Z * string) :=
  match s with
  | String a (String b rest) =>
    if negb (is_digit a) then None
    else if is_digit b then Some (10 * (code a - 48) + (code b - 48), rest)
    else if fixed then None else Some (code a - 48, String b rest)
  | String a "" => if is_digit a && negb fixed then Some (code a - 48, "") else None
  | "" => None
  end.
Definition year4 (s : string) : option (Z * string) :=
  let y := str_take 4 s in
  if (String.length y =? 4)%nat && str_forall is_digit y then Some (digits_value 0 y, str_drop 4 s) else None.
Definition literal_byte (c : ascii) (s : string) : option string :=
  match s with String d s => if Ascii.eqb c d then Some s else None | "" => None end.

(** The digits at the head, and [10 ^ (9 - n)] for [n] of them. *)
Fixpoint take_digits (s : string) : string * string :=
  match s with
  | String c r => if is_digit c then let '(d, t) := take_digits r in (String c d, t) else ("", s)
  | "" => ("", "")
  end.
Definition nanoseconds (s : string) : Z * string :=
  match s with
  | String p (String d _ as r) =>
    if ((p =c ".") || (p =c ",")) && is_digit d then
      let '(ds, rest) := take_digits r in
      let ds := str_take 9 ds in
      (digits_value 0 ds * 10 ^ (9 - Z.of_nat (String.length ds)), rest)
    else (0, s)
  | _ => (0, s)
  end.
(** The offset in seconds. *)
Definition zone (s : string) : option (Z * string) :=
  match s with
  | String z r =>
    if z =c "Z" then Some (0, r)
    else
      match r with
      | String h1 (String h2 (String c (String m1 (String m2 rest)))) =>
        if negb (c =c ":") then None
        else
          match getnum true (String h1 (str1 h2)), getnum true (String m1 (str1 m2)) with
          | Some (hr, _), Some (mm, _) =>
            if (24 <? hr) || (60 <? mm) then None
            else if z =c "+" then Some ((hr * 60 + mm) * 60, rest)
            else if z =c "-" then Some (- ((hr * 60 + mm) * 60), rest)
            else None
          | _, _ => None
          end
      | _ => None
      end
  | "" => None
  end.

Definition is_leap (y : Z) : bool := (y mod 4 =? 0) && (negb (y mod 100 =? 0) || (y mod 400 =? 0)).
Definition days_in (m y : Z) : Z :=
  if m =? 2 then (if is_leap y then 29 else 28)
  else if (m =? 4) || (m =? 6) || (m =? 9) || (m =? 11) then 30 else 31.

Definition parse_rfc3339 (s : string) : option time :=
  '(y, s) ← year4 s; s ← literal_byte "-" s;
  '(mo, s) ← getnum true s; s ← (if (mo <=? 0) || (12 <? mo) then None else literal_byte "-" s);
  '(d, s) ← getnum true s; s ← literal_byte "T" s;
  '(h, s) ← getnum false s; s ← (if 24 <=? h then None else literal_byte ":" s);
  '(mi, s) ← getnum true s; s ← (if 60 <=? mi then None else literal_byte ":" s);
  '(sec, s) ← getnum true s;
  let '(nsec, s) := nanoseconds s in
  if 60 <=? sec then None
  else
    '(offset, s) ← zone s;
    if negb (bool_decide (s = "")) then None
    else if (d <? 1) || (days_in mo y <? d) then None
    else Some ((((of_civil y mo d - 306) * 86400 + h * 3600 + mi * 60 + sec) - offset) * second + nsec).

(** [t.UTC().Format(time.RFC3339)]: the whole seconds. *)
Definition rfc3339 (t : time) : string := rfc3339nano (t / second * second).

Example parse_zulu : parse_rfc3339 "1970-01-01T00:00:00Z" = Some (62135596800 * second).
Proof. vm_compute. reflexivity. Qed.
Example parse_offset : parse_rfc3339 "2024-02-29T12:34:56.12+02:00" =
  parse_rfc3339 "2024-02-29T10:34:56.120Z".
Proof. vm_compute. reflexivity. Qed.
Example parse_no_such_day : parse_rfc3339 "2023-02-29T12:34:56Z" = None.
Proof. vm_compute. reflexivity. Qed.

(** * Reading back *)

Lemma digit_byte n : is_digit (byte_of (48 + n mod 10)) = true.
Proof.
  unfold is_digit, in_range. rewrite digit_code. pose proof (Z.mod_pos_bound n 10 ltac:(lia)).
  apply andb_true_iff. split; apply Z.leb_le; lia.
Qed.
Lemma getnum_digits fixed n s : 0 ≤ n < 100 → getnum fixed (digits 2 n +:+ s) = Some (n, s).
Proof.
  intros Hn. cbn [digits]. change (10 ^ Z.of_nat 1) with 10. change (10 ^ Z.of_nat 0) with 1.
  rewrite Z.div_1_r. rewrite !str_cons_app. cbn [getnum]. rewrite !digit_byte. cbn [negb].
  rewrite !digit_code. rewrite (Z.mod_small (n / 10)) by (split; [apply Z.div_pos|apply Z.div_lt_upper_bound]; lia).
  f_equal. f_equal. pose proof (Z.div_mod n 10). lia.
Qed.
Lemma literal_here c s : literal_byte c (String c "" +:+ s) = Some s.
Proof. rewrite str_cons_app. cbn [literal_byte]. by rewrite Ascii.eqb_refl. Qed.
Lemma digits_digits w n : str_forall is_digit (digits w n) = true.
Proof. induction w as [|w IH]; [done|]. cbn [digits str_forall]. by rewrite digit_byte, IH. Qed.
Lemma digits_value_app acc w n : 0 ≤ n < 10 ^ Z.of_nat w →
  digits_value acc (digits w n) = acc * 10 ^ Z.of_nat w + n.
Proof.
  revert acc n. induction w as [|w IH]; intros acc n Hn; [cbn in *; lia|].
  rewrite Nat2Z.inj_succ, Z.pow_succ_r in * by lia. cbn [digits digits_value]. rewrite digit_code.
  assert (Hp : 0 < 10 ^ Z.of_nat w) by (apply Z.pow_pos_nonneg; lia).
  rewrite (Z.mod_small (n / _)) by (split; [apply Z.div_pos|apply Z.div_lt_upper_bound]; lia).
  assert (Hd : digits w n = digits w (n mod 10 ^ Z.of_nat w)).
  { clear IH acc. assert (H : ∀ v, (v ≤ w)%nat → digits v n = digits v (n mod 10 ^ Z.of_nat w)).
    { induction v as [|v IHv]; intros Hv; [done|]. cbn [digits]. rewrite <-IHv by lia. do 2 f_equal. f_equal.
      replace (Z.of_nat w) with (Z.of_nat v + Z.of_nat (w - v)) by lia.
      rewrite Z.pow_add_r by lia. assert (0 < 10 ^ Z.of_nat v) by (apply Z.pow_pos_nonneg; lia).
      assert (Hq : 0 < 10 ^ Z.of_nat (w - v)) by (apply Z.pow_pos_nonneg; lia).
      rewrite Z.rem_mul_r by lia. rewrite (Z.mul_comm (10 ^ Z.of_nat v)), Z.div_add by lia.
      rewrite (Z.div_small (n mod _)) by (apply Z.mod_pos_bound; lia). rewrite Z.add_0_l.
      replace (Z.of_nat (w - v)) with (Z.succ (Z.of_nat (w - v) - 1)) by lia.
      rewrite Z.pow_succ_r by lia. rewrite Z.rem_mul_r by (try lia; apply Z.pow_pos_nonneg; lia).
      rewrite (Z.mul_comm 10), Z.mod_add by lia. by rewrite Z.mod_mod by lia. }
    by apply H. }
  rewrite Hd, IH by (apply Z.mod_pos_bound; lia). pose proof (Z.div_mod n (10 ^ Z.of_nat w)). lia.
Qed.
Lemma year4_digits n s : 0 ≤ n < 10000 → year4 (digits 4 n +:+ s) = Some (n, s).
Proof.
  intros Hn. unfold year4.
  assert (Ht : str_take 4 (digits 4 n +:+ s) = digits 4 n)
    by (rewrite <-(digits_length 4 n) at 1; apply str_take_app).
  assert (Hd : str_drop 4 (digits 4 n +:+ s) = s)
    by (rewrite <-(digits_length 4 n) at 1; apply str_drop_app).
  rewrite Ht, Hd, digits_length, digits_digits, digits_value_app by done. done.
Qed.

(** Every day of an era is one its month has. *)
Definition day_fits (doe : Z) : bool := let '(y, m, d) := civil doe in (1 <=? d) && (d <=? days_in m y).
Fixpoint all_fit (n : nat) (z : Z) : bool :=
  match n with O => true | S n => day_fits z && all_fit n (z + 1) end.
Lemma all_fit_spec n z : all_fit n z = true → ∀ x, z ≤ x < z + Z.of_nat n → day_fits x = true.
Proof.
  revert z. induction n as [|n IH]; intros z; [lia|]. cbn [all_fit].
  intros [Hz Hn]%andb_true_iff x Hx. destruct (decide (x = z)) as [->|]; [done|].
  apply (IH (z + 1)); [done|lia].
Qed.
Lemma era_all_fit : all_fit (Z.to_nat 146097) 0 = true.
Proof. vm_compute. reflexivity. Qed.
Lemma civil_era days : civil days =
  let '(y, m, d) := civil (days mod 146097) in (y + days / 146097 * 400, m, d).
Proof.
  unfold civil. pose proof (Z.mod_pos_bound days 146097 ltac:(lia)).
  rewrite (Z.mod_small (days mod 146097) 146097), (Z.div_small (days mod 146097) 146097) by lia. cbv zeta.
  match goal with |- context [?m <=? 2] => destruct (m <=? 2) end; (apply f_equal2; [apply f_equal2; [ring|reflexivity]|reflexivity]).
Qed.
Lemma days_in_era m y k : days_in m (y + k * 400) = days_in m y.
Proof.
  unfold days_in, is_leap.
  assert (H4 : (y + k * 400) mod 4 = y mod 4) by (replace (k * 400) with (k * 100 * 4) by lia; by apply Z.mod_add).
  assert (H100 : (y + k * 400) mod 100 = y mod 100) by (replace (k * 400) with (k * 4 * 100) by lia; by apply Z.mod_add).
  by rewrite H4, H100, Z.mod_add by lia.
Qed.
Lemma civil_fits days : let '(y, m, d) := civil days in 1 ≤ d ≤ days_in m y.
Proof.
  rewrite civil_era. pose proof (all_fit_spec _ _ era_all_fit (days mod 146097)) as H.
  pose proof (Z.mod_pos_bound days 146097 ltac:(lia)). rewrite Z2Nat.id in H by lia.
  specialize (H ltac:(lia)). unfold day_fits in H. destruct (civil (days mod 146097)) as [[y m] d].
  rewrite days_in_era. split_bools. lia.
Qed.

(** What [Format] prints [Parse] reads, to the second. *)
Lemma parse_rfc3339_format t :
  json_time_ok t = true → parse_rfc3339 (rfc3339 t) = Some (t / second * second).
Proof.
  unfold json_time_ok. intros H. split_bools. unfold rfc3339.
  rewrite rfc3339nano_date_clock. unfold second.
  rewrite Z.div_mul, Z.mod_mul by lia. set (secs := t / 1000000000).
  assert (Hsecs : -31622400 ≤ secs < 315537897600) by (unfold secs; Z.to_euclidean_division_equations; lia).
  set (sod := secs mod 86400). assert (Hsod : 0 ≤ sod < 86400) by (apply Z.mod_pos_bound; lia).
  destruct (clock_range sod Hsod) as (Hh & Hi & Hj).
  assert (Hh2 : sod / 3600 < 24) by (Z.to_euclidean_division_equations; lia).
  assert (Hi2 : sod / 60 mod 60 < 60) by (apply Z.mod_pos_bound; lia).
  assert (Hj2 : sod mod 60 < 60) by (apply Z.mod_pos_bound; lia).
  unfold date_clock.
  pose proof (year_range (secs / 86400 + 306) ltac:(Z.to_euclidean_division_equations; lia)) as Hy.
  pose proof (of_civil_civil (secs / 86400 + 306)) as Hc.
  pose proof (civil_fits (secs / 86400 + 306)) as Hfit.
  destruct (civil (secs / 86400 + 306)) as [[y m] d]. destruct Hc as (Hof & Hm & Hd & _).
  unfold parse_rfc3339. rewrite year4_digits by done. cbn [mbind option_bind].
  rewrite literal_here. cbn [mbind option_bind].
  rewrite (getnum_digits true m) by lia. cbn [mbind option_bind].
  rewrite (proj2 (Z.leb_gt m 0)), (proj2 (Z.ltb_ge 12 m)) by lia. cbn [orb]. rewrite literal_here. cbn [mbind option_bind].
  rewrite (getnum_digits true d) by lia. cbn [mbind option_bind]. rewrite literal_here. cbn [mbind option_bind].
  rewrite (getnum_digits false) by lia. cbn [mbind option_bind].
  rewrite (proj2 (Z.leb_gt 24 (sod / 3600))) by lia. rewrite literal_here. cbn [mbind option_bind].
  rewrite (getnum_digits true (sod / 60 mod 60)) by lia. cbn [mbind option_bind].
  rewrite (proj2 (Z.leb_gt 60 (sod / 60 mod 60))) by lia. rewrite literal_here. cbn [mbind option_bind].
  rewrite (getnum_digits true (sod mod 60)) by lia. cbn [mbind option_bind].
  change (nanoseconds (fraction 0 +:+ "Z")) with (0, "Z"). cbv iota beta.
  rewrite (proj2 (Z.leb_gt 60 (sod mod 60))) by lia. change (zone "Z") with (Some (0, "")). cbn [mbind option_bind].
  change (bool_decide ("" = "")) with true. cbn [negb].
  rewrite (proj2 (Z.ltb_ge d 1)), (proj2 (Z.ltb_ge (days_in m y) d)) by lia. cbn [orb].
  rewrite Hof. f_equal. unfold second, sod. Z.to_euclidean_division_equations; lia.
Qed.
