(* ===== verification/Keystore.v ===== *)
(** At-rest encryption of the local secrets file (src/internal/keystore: keystore.go,
legacy.go, resolve.go, errors.go): where key material comes from, the age envelope and
the legacy per-value envelope.

The age library, argon2id, XChaCha20-Poly1305 and the YAML codec are interfaces with
their documented laws; where one of them panics on a bad argument the model has the
panic.  The entropy estimate of [StatusOf] (floating point) is not modelled. *)

From S2P Require Import Prelude GoStrings Provider GoEncoding Base64.
#[local] Open Scope go_scope.

(** * Errors *)

(** [keystore.Error] by exit code and remediation; a panic of a library. *)
Inductive ks_error := KErr (code : Z) (hint : string) | KPanic.
Definition CodeGenericError : Z := 1.
Definition CodeConfigError : Z := 2.
Definition CodeAuthError : Z := 4.
Definition CodeValidationError : Z := 8.
Definition newError (code : Z) : ks_error := KErr code "".
Definition withRemediation (e : ks_error) (hint : string) : ks_error :=
  match e with
  | KErr code h => if bool_decide (hint = "") then KErr code h else KErr code hint
  | KPanic => KPanic
  end.
Definition errNoKeyMaterialHint : string :=
  "export SKRET_AGE_KEY=<key-material>  # or run: skret keys init".
Definition noKeyMaterial : ks_error := KErr CodeAuthError errNoKeyMaterialHint.
Definition wrong_key_hint : string :=
  "verify SKRET_AGE_KEY matches the key created by `skret keys init` (AGE-SECRET-KEY-1...)".
Definition wrong_legacy_key_hint : string :=
  "verify SKRET_AGE_KEY/SKRET_LOCAL_KEY matches the key this file was encrypted with, then run `skret keys init --encrypt-existing` to migrate it to the age format".
Definition identity_hint : string :=
  "export SKRET_AGE_KEY=<AGE-SECRET-KEY-1...>  # generate one with: age-keygen  (or run: skret keys init)".

(** * Data *)

Abbreviation strmap := (gmap string string).
(** The plaintext file, and the payload of an age envelope, which has its shape. *)
Record payload := mkPayload { pl_Version : string; pl_Secrets : strmap; pl_Meta : strmap }.
Record kdfParams := mkKdf {
  kd_Algorithm : string; kd_Salt : string; kd_Time : Z; kd_MemoryKiB : Z; kd_Parallelism : Z }.
Record legacyEnvelope := mkLegacy {
  le_Version : string; le_Format : string; le_KDF : kdfParams; le_Secrets : strmap; le_Meta : strmap }.

Definition Format : string := "age-encryption.org/v1".
Definition FormatLegacy : string := "skret-encrypted-v1".
Definition EnvKeyPrimary : string := "SKRET_AGE_KEY".
Definition EnvKeyFallback : string := "SKRET_LOCAL_KEY".
Definition KeyringService : string := "skret".
Definition KeyringUser : string := "local-enc-key".

(** * Libraries *)

Inductive Recipient := RX25519 (public : string) | RScrypt (passphrase : string).
Inductive Identity := IX25519 (secret : string) | IScrypt (passphrase : string).
(** age: an X25519 identity parses to its public key; opening undoes sealing; every
envelope starts with the magic line; scrypt needs a passphrase. *)
Class AgeLib : Type := {
  age_public : string → option string;
  age_is_recipient : string → bool;
  age_encrypt : Recipient → string → option string;
  age_decrypt : Identity → string → option string;
  age_opens_identity s p t c : age_public s = Some p → age_encrypt (RX25519 p) t = Some c →
    age_decrypt (IX25519 s) c = Some t;
  age_opens_passphrase pw t c : age_encrypt (RScrypt pw) t = Some c → age_decrypt (IScrypt pw) c = Some t;
  age_magic r t c : age_encrypt r t = Some c → has_prefix c Format = true;
}.
(** argon2id and XChaCha20-Poly1305. *)
Class LegacyLib : Type := {
  argon2_IDKey : string → string → Z → Z → Z → string;
  xchacha_seal : string → string → string → string → string;
  xchacha_open : string → string → string → string → option string;
  xchacha_correct k n p a : xchacha_open k n (xchacha_seal k n p a) a = Some p;
  xchacha_tag k n p a : xchacha_seal k n p a ≠ "";
}.
(** YAML of the two documents: reading a document undoes writing it, and [probe] finds
the format field. *)
Class KeystoreYaml : Type := {
  yaml_payload : payload → option string;
  yaml_read_payload : string → option payload;
  yaml_envelope : legacyEnvelope → option string;
  yaml_read_envelope : string → option legacyEnvelope;
  yaml_probe : string → option string;
  yaml_payload_correct p s : yaml_payload p = Some s → yaml_read_payload s = Some p;
  yaml_envelope_correct e s : yaml_envelope e = Some s → yaml_read_envelope s = Some e;
  yaml_envelope_probe e s : yaml_envelope e = Some s → yaml_probe s = Some (le_Format e);
  yaml_envelope_no_magic e s : yaml_envelope e = Some s → has_prefix s Format = false;
}.

Definition Detect (raw : string) : bool := has_prefix raw Format.
Definition DetectLegacy `{KeystoreYaml} (raw : string) : bool :=
  match yaml_probe raw with Some f => bool_decide (f = FormatLegacy) | None => false end.

(** * The age envelope *)

Section age.
Context {AG : AgeLib} {KY : KeystoreYaml}.

Definition ParseIdentity (s : string) : result ks_error string :=
  match age_public s with Some p => Ok p | None => Err (newError CodeValidationError) end.
Definition recipientFor (material : string) : result ks_error Recipient :=
  match age_public material with
  | Some p => Ok (RX25519 p)
  | None =>
    if age_is_recipient material then Ok (RX25519 material)
    else if bool_decide (material = "") then Err (newError CodeValidationError)
    else Ok (RScrypt material)
  end.
Definition identityFor (material : string) : result ks_error Identity :=
  match age_public material with
  | Some _ => Ok (IX25519 material)
  | None =>
    if bool_decide (material = "") then Err (newError CodeValidationError) else Ok (IScrypt material)
  end.

Definition SealWithMeta (secrets meta : strmap) (keyMaterial : string) : result ks_error string :=
  if bool_decide (keyMaterial = "") then Err (newError CodeValidationError)
  else
    let! rec := recipientFor keyMaterial in
    match yaml_payload (mkPayload "1" secrets meta) with
    | None => Err (newError CodeGenericError)
    | Some plaintext =>
      match age_encrypt rec plaintext with
      | None => Err (newError CodeGenericError)
      | Some raw => Ok raw
      end
    end.
Definition Seal (secrets : strmap) (keyMaterial : string) : result ks_error string :=
  SealWithMeta secrets ∅ keyMaterial.

Definition OpenWithMeta (raw keyMaterial : string) : result ks_error (strmap * strmap) :=
  if bool_decide (keyMaterial = "") then Err (newError CodeValidationError)
  else
    let! id := identityFor keyMaterial in
    match age_decrypt id raw with
    | None => Err (withRemediation (newError CodeAuthError) wrong_key_hint)
    | Some plaintext =>
      match yaml_read_payload plaintext with
      | None => Err (newError CodeConfigError)
      | Some p => Ok (pl_Secrets p, pl_Meta p)
      end
    end.
Definition keystore_Open (raw keyMaterial : string) : result ks_error strmap :=
  fst <$> OpenWithMeta raw keyMaterial.

(** [StanzaKind]: from the header, up to the first line that starts with ["--- "]. *)
Definition StanzaKind (raw : string) : string :=
  let nl s := String LF s in
  let header := match index raw (nl "--- ") with Some i => str_take i raw | None => raw end in
  if contains header (nl "-> scrypt ") then "scrypt"
  else if contains header (nl "-> X25519 ") then "X25519"
  else "unknown".
Definition RecipientKind (material : string) : string :=
  match age_public material with
  | Some _ => "X25519"
  | None => if age_is_recipient material then "X25519" else "scrypt"
  end.
End age.

(** * The legacy envelope *)

Section legacy.
Context {LL : LegacyLib} {KY : KeystoreYaml} {MR : MapRange}.

Definition defaultKDFParams : kdfParams := mkKdf "argon2id" "" 3 65536 4.
(** argon2 panics without a round or a lane. *)
Definition legacyAeadFor (keyMaterial : string) (p : kdfParams) : result ks_error string :=
  if negb (bool_decide (kd_Algorithm p = "argon2id")) && negb (bool_decide (kd_Algorithm p = ""))
  then Err (newError CodeConfigError)
  else
    match StdDecode (kd_Salt p) with
    | None => Err (newError CodeConfigError)
    | Some salt =>
      if String.length salt <? 8 then Err (newError CodeConfigError)
      else if (kd_Time p <? 1)%Z || (kd_Parallelism p <? 1)%Z then Err KPanic
      else Ok (argon2_IDKey keyMaterial salt (kd_Time p) (kd_MemoryKiB p) (kd_Parallelism p))
    end.

Definition nonceSizeX : nat := 24.
(** A sealed value: the random source gives each key its nonce. *)
Definition legacy_blob (aead : string) (k v nonce : string) : string :=
  "v1:" +:+ StdEncoding nonce +:+ ":" +:+ StdEncoding (xchacha_seal aead nonce v k).
Fixpoint seal_values (nonces : string → option string) (aead : string) (l : list (string * string))
    (acc : strmap) : result ks_error strmap :=
  match l with
  | [] => Ok acc
  | (k, v) :: l =>
    match nonces k with
    | None => Err (newError CodeGenericError)
    | Some nonce => seal_values nonces aead l (<[k := legacy_blob aead k v nonce]> acc)
    end
  end.
Definition SealLegacyWithMeta (salt : option string) (nonces : string → option string)
    (secrets meta : strmap) (keyMaterial : string) (params : option kdfParams) : result ks_error string :=
  if bool_decide (keyMaterial = "") then Err (newError CodeValidationError)
  else
    let p := default defaultKDFParams params in
    let! p :=
      if bool_decide (kd_Salt p = "") then
        match salt with
        | None => Err (newError CodeGenericError)
        | Some s => Ok (mkKdf (kd_Algorithm p) (StdEncoding s) (kd_Time p) (kd_MemoryKiB p) (kd_Parallelism p))
        end
      else Ok p in
    let! aead := legacyAeadFor keyMaterial p in
    let! encoded := seal_values nonces aead (range_map 0 secrets) ∅ in
    match yaml_envelope (mkLegacy "1" FormatLegacy p encoded meta) with
    | None => Err (newError CodeGenericError)
    | Some raw => Ok raw
    end.

(** One value; XChaCha20 panics on a nonce of another size. *)
Definition open_value (aead k blob : string) : result ks_error string :=
  let malformed := Err (newError CodeConfigError) in
  match cut_byte ":" blob with
  | None => malformed
  | Some (version, rest) =>
    if negb (bool_decide (version = "v1")) then malformed
    else
      match cut_byte ":" rest with
      | None => malformed
      | Some (nonceStr, ctStr) =>
        if bool_decide (ctStr = "") then malformed
        else
          match StdDecode nonceStr, StdDecode ctStr with
          | Some nonce, Some ct =>
            if negb (String.length nonce =? nonceSizeX) then Err KPanic
            else
              match xchacha_open aead nonce ct k with
              | None => Err (withRemediation (newError CodeAuthError) wrong_legacy_key_hint)
              | Some v => Ok v
              end
          | _, _ => malformed
          end
      end
  end.
Fixpoint open_values (aead : string) (l : list (string * string)) (acc : strmap) : result ks_error strmap :=
  match l with
  | [] => Ok acc
  | (k, blob) :: l =>
    let! v := open_value aead k blob in
    open_values aead l (<[k := v]> acc)
  end.
Definition OpenLegacyWithMeta (raw keyMaterial : string) : result ks_error (strmap * strmap) :=
  match yaml_read_envelope raw with
  | None => Err (newError CodeConfigError)
  | Some env =>
    if negb (bool_decide (le_Format env = FormatLegacy)) then Err (newError CodeConfigError)
    else
      let! aead := legacyAeadFor keyMaterial (le_KDF env) in
      let! secrets := open_values aead (range_map 1 (le_Secrets env)) ∅ in
      Ok (secrets, le_Meta env)
  end.
End legacy.

(** * Key material *)

(** The environment, the keyring and the prompts of one resolution. *)
Record key_sources := mkSources {
  ks_env : string → string;
  ks_keyring : string → string → option string;
  ks_prompt : nat → option string }.
Record Result := mkResult { Material : string; Source : string }.
Definition SourceEnv : string := "env".
Definition SourceKeyring : string := "keyring".
Definition SourcePassphr : string := "passphrase".

Definition promptPassphraseConfirm (s : key_sources) : result ks_error string :=
  match ks_prompt s 0 with
  | None => Err (newError CodeAuthError)
  | Some a =>
    if bool_decide (a = "") then Err (newError CodeValidationError)
    else
      match ks_prompt s 1 with
      | None => Err (newError CodeAuthError)
      | Some b => if negb (bool_decide (a = b)) then Err (newError CodeValidationError) else Ok a
      end
  end.
Fixpoint first_env (s : key_sources) (names : list string) : option Result :=
  match names with
  | [] => None
  | n :: names =>
    if negb (bool_decide (ks_env s n = "")) then Some (mkResult (ks_env s n) (SourceEnv +:+ ":" +:+ n))
    else first_env s names
  end.
Definition KeyringMaterial (s : key_sources) : option string :=
  match ks_keyring s KeyringService KeyringUser with
  | Some v => if bool_decide (v = "") then None else Some v
  | None => None
  end.
Definition ResolveKeyMaterial (s : key_sources) (interactive : bool) : result ks_error Result :=
  match first_env s [EnvKeyPrimary; EnvKeyFallback] with
  | Some r => Ok r
  | None =>
    match KeyringMaterial s with
    | Some v => Ok (mkResult v SourceKeyring)
    | None =>
      if negb interactive then Err noKeyMaterial
      else let! pw := promptPassphraseConfirm s in Ok (mkResult pw SourcePassphr)
    end
  end.
Definition ResolveIdentity (s : key_sources) (interactive : bool) : result ks_error Result :=
  match ResolveKeyMaterial s interactive with
  | Ok r => Ok r
  | Err (KErr code hint) =>
    if (code =? CodeAuthError)%Z then Err (KErr CodeAuthError identity_hint) else Err (KErr code hint)
  | Err KPanic => Err KPanic
  end.
(** [StoreKeyring]: [set] and the read back. *)
Definition StoreKeyring (set : bool) (s : key_sources) (material : string) : option ks_error :=
  if negb set then Some (newError CodeAuthError)
  else
    match ks_keyring s KeyringService KeyringUser with
    | Some got => if bool_decide (got = material) then None else Some (newError CodeAuthError)
    | None => Some (newError CodeAuthError)
    end.
(** [resolveForFormat] *)
Definition resolveForFormat (format : string) : key_sources → bool → result ks_error Result :=
  if bool_decide (format = FormatLegacy) then ResolveKeyMaterial else ResolveIdentity.

(** * What is sealed is opened *)

Section roundtrip.
Context {AG : AgeLib} {LL : LegacyLib} {KY : KeystoreYaml} {MR : MapRange}.

Lemma open_seal secrets meta m raw :
  age_is_recipient m = false → SealWithMeta secrets meta m = Ok raw →
  OpenWithMeta raw m = Ok (secrets, meta) ∧ Detect raw = true.
Proof.
  unfold SealWithMeta, OpenWithMeta, recipientFor, identityFor. intros Hrec.
  case_bool_decide as Hm; [done|]. destruct (age_public m) as [p|] eqn:Ep; cbn [result_bind].
  - destruct (yaml_payload _) as [t|] eqn:Ey; [|done]. destruct (age_encrypt _ t) as [c|] eqn:Ec; [|done].
    intros [= <-]. rewrite (age_opens_identity _ _ _ _ Ep Ec), (yaml_payload_correct _ _ Ey).
    split; [done|]. by apply (age_magic _ _ _ Ec).
  - rewrite Hrec. cbn [result_bind].
    destruct (yaml_payload _) as [t|] eqn:Ey; [|done]. destruct (age_encrypt _ t) as [c|] eqn:Ec; [|done].
    intros [= <-]. rewrite (age_opens_passphrase _ _ _ Ec), (yaml_payload_correct _ _ Ey).
    split; [done|]. by apply (age_magic _ _ _ Ec).
Qed.

(** The text of a sealed value falls apart at its two colons. *)
Lemma b64_no_colon s : has_byte ":" (StdEncoding s) = false.
Proof.
  apply str_exists_false, base64_forall; [|done]. intros z Hz. apply negb_true_iff, ascii_eqb_false.
  intros E. apply (f_equal code) in E. rewrite b64_code in E by done. change (code ":") with 58%Z in E.
  destruct (Z.ltb_spec z 26), (Z.ltb_spec z 52), (Z.ltb_spec z 62), (Z.eqb_spec z 62); cbn in E; lia.
Qed.
Lemma StdEncoding_ne s : s ≠ "" → StdEncoding s ≠ "".
Proof. by destruct s as [|a [|b [|c s]]]. Qed.
Lemma open_value_blob aead k v nonce :
  String.length nonce = nonceSizeX → open_value aead k (legacy_blob aead k v nonce) = Ok v.
Proof.
  intros Hn. unfold open_value, legacy_blob.
  change ("v1:" +:+ ?s) with ("v1" +:+ String ":" s). rewrite cut_byte_app by done.
  rewrite bool_decide_true by done. cbn [negb].
  change (":" +:+ ?s) with (String ":" s). rewrite cut_byte_app by apply b64_no_colon.
  rewrite bool_decide_false by apply StdEncoding_ne, xchacha_tag. rewrite !StdDecode_encode.
  rewrite Hn, Nat.eqb_refl. cbn [negb]. by rewrite xchacha_correct.
Qed.
(** The stored values are the sealed ones, whatever the order of the map. *)
Lemma seal_values_spec nonces aead l acc m :
  NoDup l.*1 → seal_values nonces aead l acc = Ok m →
  ∀ k, m !! k = match (list_to_map l : strmap) !! k with
       | Some v => nonce ← nonces k; Some (legacy_blob aead k v nonce)
       | None => acc !! k end.
Proof.
  revert acc. induction l as [|[k v] l IH]; intros acc Hl; cbn; [by intros [= <-]|].
  destruct (nonces k) as [n|] eqn:En; [|done]. cbn in Hl. apply NoDup_cons in Hl as [Hk Hl].
  intros Hm k'. rewrite (IH _ Hl Hm k'). destruct (decide (k = k')) as [->|Hne].
  - rewrite lookup_insert_eq, not_elem_of_list_to_map_1 by done. by rewrite lookup_insert_eq, En.
  - by rewrite !lookup_insert_ne.
Qed.
Lemma seal_values_nonces nonces aead l acc m k v :
  seal_values nonces aead l acc = Ok m → (k, v) ∈ l → is_Some (nonces k).
Proof.
  revert acc. induction l as [|[k' v'] l IH]; intros acc; cbn; [by intros _ ?%not_elem_of_nil|].
  destruct (nonces k') as [n|] eqn:En; [|done].
  intros Hm [[= -> ->]|Hin]%elem_of_cons; [by rewrite En|by eapply IH].
Qed.
Lemma open_values_spec aead (f : string → string) l acc :
  (∀ k b, (k, b) ∈ l → open_value aead k b = Ok (f k)) → NoDup l.*1 →
  ∃ m, open_values aead l acc = Ok m ∧
    ∀ k, m !! k = if bool_decide (k ∈ l.*1) then Some (f k) else acc !! k.
Proof.
  revert acc. induction l as [|[k b] l IH]; intros acc Ho Hl; cbn; [by exists acc|].
  rewrite (Ho k b) by apply list_elem_of_here. cbn in Hl. apply NoDup_cons in Hl as [Hk Hl].
  destruct (IH (<[k := f k]> acc)) as (m & Hm & Hlk); [|done|].
  { intros k' b' Hin. apply Ho. by apply list_elem_of_further. }
  exists m. split; [done|]. intros k'. rewrite Hlk. destruct (decide (k' = k)) as [->|Hne].
  - rewrite bool_decide_false by done. rewrite lookup_insert_eq. by rewrite bool_decide_true by apply list_elem_of_here.
  - rewrite lookup_insert_ne by done.
    assert (Hin : k' ∈ k :: l.*1 ↔ k' ∈ l.*1) by (rewrite elem_of_cons; naive_solver).
    by rewrite (bool_decide_ext _ _ Hin).
Qed.

(** A legacy file written with some key material opens with it to what was written; the
random source fills the nonce and the salt it is asked for. *)
Lemma open_seal_legacy salt nonces secrets meta m params raw :
  (∀ k n, nonces k = Some n → String.length n = nonceSizeX) →
  SealLegacyWithMeta salt nonces secrets meta m params = Ok raw →
  OpenLegacyWithMeta raw m = Ok (secrets, meta) ∧ DetectLegacy raw = true ∧ Detect raw = false.
Proof.
  intros Hn. unfold SealLegacyWithMeta, OpenLegacyWithMeta, DetectLegacy, Detect.
  case_bool_decide; [done|]. intros Hs. apply result_bind_Ok in Hs as (p & _ & Hs).
  apply result_bind_Ok in Hs as (aead & Ha & Hs). apply result_bind_Ok in Hs as (enc & He & Hs).
  destruct (yaml_envelope _) as [r|] eqn:Ey; [|done]. injection Hs as <-.
  rewrite (yaml_envelope_correct _ _ Ey), (yaml_envelope_probe _ _ Ey). cbn [le_Format le_KDF le_Secrets le_Meta].
  split_and!; [|by apply bool_decide_eq_true_2|by apply (yaml_envelope_no_magic _ _ Ey)].
  rewrite bool_decide_true by done. cbn [negb]. rewrite Ha. cbn [result_bind].
  pose proof (seal_values_spec _ _ _ _ _ (NoDup_range_map 0 secrets) He) as Hl.
  rewrite range_map_list_to_map in Hl.
  destruct (open_values_spec aead (λ k, default "" (secrets !! k)) (range_map 1 enc) ∅) as (v & -> & Hv).
  - intros k b Hb%elem_of_range_map. rewrite Hl in Hb.
    destruct (secrets !! k) as [x|]; [|by rewrite lookup_empty in Hb]. cbn.
    destruct (nonces k) as [n|] eqn:En; [|done]. cbn in Hb. injection Hb as <-.
    apply open_value_blob. by apply (Hn k).
  - apply NoDup_range_map.
  - cbn [result_bind]. do 2 f_equal. apply map_eq. intros k. rewrite Hv, lookup_empty.
    specialize (Hl k). destruct (secrets !! k) as [x|] eqn:Ex.
    + assert (Hi : is_Some (nonces k))
        by (apply (seal_values_nonces _ _ _ _ _ k x He); by apply elem_of_range_map).
      destruct Hi as [n En]. rewrite En in Hl. cbn in Hl.
      by rewrite bool_decide_true by (apply range_map_keys; by rewrite Hl).
    + rewrite lookup_empty in Hl. rewrite bool_decide_false; [done|].
      rewrite range_map_keys, Hl. by intros [??].
Qed.
End roundtrip.
