(* ===== verification/Local.v ===== *)
(** The local provider (src/internal/provider/local/local.go): secrets in a YAML file
that is plain, an age envelope or a legacy envelope, and the audit trail beside it
(audit.go).

The world of a call is the provider's state and the file system; what the operating
system, the random source and the clock answer is an argument of the call. *)

From S2P Require Import Prelude GoStrings GoEncoding Digest Provider Config Paths Effects Json TimeParse LaunchTypes LaunchManifest Keystore.
#[local] Open Scope go_scope.

(** * Data *)

Record localFile := mkLocal { lf_Version : string; lf_Secrets : strmap; lf_Meta : strmap }.
Definition emptyLocal : localFile := mkLocal "1" ∅ ∅.
Definition expiryFor (f : localFile) (key : string) : option time :=
  raw ← lf_Meta f !! key; parse_rfc3339 raw.

Record LocalProvider := mkLP {
  filePath : string; data : localFile;
  encCfg : bool; encDisk : bool; encLegacy : bool;
  keyMat : string; keySrc : string; keyLegacy : bool;
  auditPath : string; envName : string }.

(** YAML of the file.  Decoding goes into the value at hand: a map that is there keeps
the keys the text does not mention; a failed decoding may have changed some of it. *)
Class LocalYaml : Type := {
  ly_keystore :: KeystoreYaml;
  yaml_local : localFile → option string;
  yaml_into : string → localFile → localFile * bool;
  yaml_local_correct f s old : yaml_local f = Some s →
    yaml_into s old = (mkLocal (lf_Version f) (lf_Secrets f ∪ lf_Secrets old) (lf_Meta f ∪ lf_Meta old), true);
  yaml_local_plain f s : yaml_local f = Some s → has_prefix s Format = false;
  yaml_local_probe f s : yaml_local f = Some s → yaml_probe s = Some "";
}.

(** * What a call gets from outside *)

(** The steps of the atomic write: the name of the temporary file, how many bytes a
failing write left, and which of the later steps fail. *)
Record save_io := mkSaveIO {
  sv_temp : option string; sv_short : option nat;
  sv_chmod : bool; sv_close : bool; sv_rename : bool; sv_remove : bool }.
Record audit_io := mkAuditIO {
  au_stat : bool; au_rename : bool; au_mkdir : bool; au_open : bool;
  au_short : option nat; au_close : bool }.
Record call_env := mkEnv {
  e_readable : bool; e_interactive : bool; e_keys : key_sources;
  e_salt : option string; e_nonces : string → option string;
  e_save : save_io; e_audit : audit_io;
  e_now : time; e_user : option string }.

Inductive save_step := SCreate | SWrite | SChmod | SClose | SRename.
Inductive audit_step := ARotate | AMkdir | AOpen | AAppend | AClose.
Inductive local_error :=
  LAbs | LRead | LKey (e : ks_error) | LYaml | LMarshal | LSave (s : save_step)
| LNotFound (key : string) | LUnsupported | LAudit (s : audit_step).

Abbreviation fileSystem := (gmap string string).
Record local_world := mkLW { lw_p : LocalProvider; lw_fs : fileSystem }.
Definition call (A : Type) : Type := act local_world local_error A.

Definition upd_p (f : LocalProvider → LocalProvider) : call unit :=
  modify (λ w, mkLW (f (lw_p w)) (lw_fs w)).
Definition upd_fs (f : fileSystem → fileSystem) : call unit :=
  modify (λ w, mkLW (lw_p w) (f (lw_fs w))).
Definition set_data (d : localFile) (p : LocalProvider) : LocalProvider :=
  mkLP (filePath p) d (encCfg p) (encDisk p) (encLegacy p) (keyMat p) (keySrc p) (keyLegacy p)
    (auditPath p) (envName p).
Definition set_disk (enc legacy : bool) (p : LocalProvider) : LocalProvider :=
  mkLP (filePath p) (data p) (encCfg p) enc legacy (keyMat p) (keySrc p) (keyLegacy p)
    (auditPath p) (envName p).
Definition set_key (material src : string) (legacy : bool) (p : LocalProvider) : LocalProvider :=
  mkLP (filePath p) (data p) (encCfg p) (encDisk p) (encLegacy p) material src legacy
    (auditPath p) (envName p).

(** * The audit trail *)

Definition AuditOpSet : string := "set".
Definition AuditOpRotate : string := "rotate".
Definition AuditOpDelete : string := "delete".
Definition AuditOpMCPRead : string := "mcp_read".
Definition AuditFileName : string := ".skret-audit.log".
Definition AuditRotateBytes : Z := Z.shiftl 1 20.

(** The operation stamped on the context, if any. *)
Definition auditOpFromCtx (stamp : option string) : string :=
  match stamp with Some op => if bool_decide (op = "") then AuditOpSet else op | None => AuditOpSet end.

Record AuditEntry := mkEntry {
  ae_Timestamp : string; ae_Op : string; ae_KeyNames : slice string; ae_Env : string; ae_Actor : string }.

Definition trimCR (s : string) : string :=
  match last_byte s with Some c => if c =c CR then drop_last s else s | None => s end.
Definition splitLines (s : string) : list string := trimCR <$> split_byte LF s.


Definition sanitizeActor (s : string) : string :=
  let s := match last_index_byte s BSL with Some i => str_drop (S i) s | None => s end in
  match strings_Fields s with [] => "unknown" | fields => join "-" fields end.
Definition AuditActor (getenv : string → string) (user : option string) : string :=
  let declared := getenv "SKRET_ACTOR" in
  if negb (bool_decide (declared = "")) then sanitizeActor declared
  else
    match user with
    | Some u =>
      if negb (bool_decide (u = "")) then sanitizeActor u
      else
        match List.find (λ k, negb (bool_decide (getenv k = ""))) ["USER"; "USERNAME"] with
        | Some k => sanitizeActor (getenv k)
        | None => "unknown"
        end
    | None =>
      match List.find (λ k, negb (bool_decide (getenv k = ""))) ["USER"; "USERNAME"] with
      | Some k => sanitizeActor (getenv k)
      | None => "unknown"
      end
    end.

Definition AuditLogPathFor (cfg : ResolvedConfig) : string :=
  if negb (bool_decide (rc_AuditLog cfg = "")) then rc_AuditLog cfg
  else Join (Dir (rc_File cfg)) AuditFileName.
Definition auditLogPath (p : LocalProvider) : string :=
  if negb (bool_decide (auditPath p = "")) then auditPath p
  else Join (Dir (filePath p)) AuditFileName.

Definition json_entry (e : AuditEntry) : string :=
  "{" +:+ field "timestamp" (ae_Timestamp e) ("," +:+ field "op" (ae_Op e) ("," +:+
  field "key_names" (ae_KeyNames e) ("," +:+ field "env" (ae_Env e) ("," +:+
  field "actor" (ae_Actor e) "}")))).
#[export] Program Instance json_of_entry : Json AuditEntry := {|
  encode := json_entry;
  wf e := wf (ae_Timestamp e) ∧ wf (ae_Op e) ∧ wf (ae_KeyNames e) ∧ wf (ae_Env e) ∧ wf (ae_Actor e) |}.
Next Obligation. intros e _. unfold json_entry. by eexists _, _. Qed.
Next Obligation. record_cut json_entry. Qed.

(** [json.Unmarshal] of a line: what [json.Marshal] wrote is read back. *)
Class EntryJson : Type := {
  unmarshal_entry : string → option AuditEntry;
  unmarshal_marshal e : wf e → unmarshal_entry (encode e) = Some e;
}.

Section audit.
Context {DE : EntryJson}.

Fixpoint read_lines (lines : list string) : list AuditEntry * nat :=
  match lines with
  | [] => ([], 0)
  | line :: lines =>
    let '(entries, skipped) := read_lines lines in
    if bool_decide (line = "") then (entries, skipped)
    else
      match unmarshal_entry line with
      | Some e => if bool_decide (ae_Op e = "") then (entries, S skipped) else (e :: entries, skipped)
      | None => (entries, S skipped)
      end
  end.
(** [None]: the file cannot be read. *)
Definition ReadAuditLog (fs : fileSystem) (readable : bool) (path : string) : option (list AuditEntry * nat) :=
  if readable then raw ← fs !! path; Some (read_lines (splitLines raw)) else None.
End audit.

Definition rotateAuditLog (io : audit_io) (path : string) : call unit :=
  do! fs := gets lw_fs in
  if negb (au_stat io) then throw (LAudit ARotate)
  else
    match fs !! path with
    | None => ret ()
    | Some content =>
      if (Z.of_nat (String.length content) <? AuditRotateBytes)%Z then ret ()
      else if au_rename io then upd_fs (λ fs, <[path +:+ ".1" := content]> (delete path fs))
      else throw (LAudit ARotate)
    end.
Definition append_to (path text : string) (fs : fileSystem) : fileSystem :=
  <[path := default "" (fs !! path) +:+ text]> fs.
(** Encoding an entry cannot fail: it has strings only. *)
Definition AppendAuditEntry (io : audit_io) (path : string) (entry : AuditEntry) : call unit :=
  run! rotateAuditLog io path;
  run! when (negb (bool_decide (Dir path = "")) && negb (au_mkdir io)) (throw (LAudit AMkdir));
  let line := encode entry +:+ str1 LF in
  if negb (au_open io) then throw (LAudit AOpen)
  else
    match au_short io with
    | Some n => run! upd_fs (append_to path (str_take n line)); throw (LAudit AAppend)
    | None =>
      run! upd_fs (append_to path line);
      if au_close io then ret () else throw (LAudit AClose)
    end.

(** * Loading and saving *)

Section provider.
Context {AG : AgeLib} {LL : LegacyLib} {LY : LocalYaml} {MR : MapRange} {SH : SHA256} {SO : SortSlice}.

Definition ensureKey (e : call_env) (legacy : bool) : call unit :=
  do! p := gets lw_p in
  if negb (bool_decide (keyMat p = "")) && Bool.eqb (keyLegacy p) legacy then ret ()
  else
    let resolve := if legacy then ResolveKeyMaterial else ResolveIdentity in
    do! res := lift_err LKey (resolve (e_keys e) (e_interactive e)) in
    upd_p (set_key (Material res) (Source res) legacy).

Definition load (e : call_env) : call unit :=
  do! w := gets id in
  if negb (e_readable e) then throw LRead
  else
    match lw_fs w !! filePath (lw_p w) with
    | None => upd_p (set_data emptyLocal)
    | Some raw =>
      if Detect raw then
        run! upd_p (set_disk true false);
        run! ensureKey e false;
        do! p := gets lw_p in
        do! sm := lift_err LKey (OpenWithMeta raw (keyMat p)) in
        upd_p (set_data (mkLocal "1" sm.1 sm.2))
      else if DetectLegacy raw then
        run! upd_p (set_disk true true);
        run! ensureKey e true;
        do! p := gets lw_p in
        do! sm := lift_err LKey (OpenLegacyWithMeta raw (keyMat p)) in
        upd_p (set_data (mkLocal "1" sm.1 sm.2))
      else
        run! upd_p (set_disk false false);
        do! p := gets lw_p in
        let '(d, ok) := yaml_into raw (data p) in
        run! upd_p (set_data d);
        if ok then ret () else throw LYaml
    end.

(** The bytes to write. *)
Definition sealed (e : call_env) : call string :=
  do! p := gets lw_p in
  if encCfg p || encDisk p then
    let legacyWrite := encLegacy p in
    run! ensureKey e legacyWrite;
    do! q := gets lw_p in
    lift_err LKey (
      if legacyWrite then
        SealLegacyWithMeta (e_salt e) (e_nonces e) (lf_Secrets (data q)) (lf_Meta (data q)) (keyMat q) None
      else SealWithMeta (lf_Secrets (data q)) (lf_Meta (data q)) (keyMat q))
  else
    match yaml_local (data p) with None => throw LMarshal | Some raw => ret raw end.
(** Temporary file and rename; a failure removes the file, if it can. *)
Definition discard_temp (io : save_io) (tmp : string) (s : save_step) : call unit :=
  run! upd_fs (λ fs, if sv_remove io then delete tmp fs else fs); throw (LSave s).
Definition atomic_write (io : save_io) (path raw : string) : call unit :=
  match sv_temp io with
  | None => throw (LSave SCreate)
  | Some tmp =>
    match sv_short io with
    | Some n => run! upd_fs <[tmp := str_take n raw]>; discard_temp io tmp SWrite
    | None =>
      run! upd_fs <[tmp := raw]>;
      if negb (sv_chmod io) then discard_temp io tmp SChmod
      else if negb (sv_close io) then discard_temp io tmp SClose
      else if negb (sv_rename io) then discard_temp io tmp SRename
      else upd_fs (λ fs, <[path := raw]> (delete tmp fs))
    end
  end.
Definition save (e : call_env) : call unit :=
  do! raw := sealed e in
  do! p := gets lw_p in
  atomic_write (e_save e) (filePath p) raw.

(** [New]: [abs] is [filepath.Abs] in the working directory of the process. *)
Definition New (e : call_env) (abs : string → option string) (cfg : ResolvedConfig) (fs : fileSystem)
    : local_world * result local_error unit :=
  let blank file audit := mkLP file (mkLocal "" ∅ ∅) (rc_Encrypted cfg) false false "" "" false audit (rc_EnvName cfg) in
  match abs (rc_File cfg) with
  | None => (mkLW (blank "" "") fs, Err LAbs)
  | Some file =>
    if negb (bool_decide (rc_AuditLog cfg = "")) then
      match abs (rc_AuditLog cfg) with
      | None => (mkLW (blank file "") fs, Err LAbs)
      | Some audit => load e (mkLW (blank file audit) fs)
      end
    else load e (mkLW (blank file "") fs)
  end.

Definition appendAudit (e : call_env) (op : string) (keyNames : list string) : call unit :=
  do! p := gets lw_p in
  AppendAuditEntry (e_audit e) (auditLogPath p)
    (mkEntry (rfc3339nano (e_now e)) op (Some keyNames) (envName p) (AuditActor (ks_env (e_keys e)) (e_user e))).

(** * Operations *)

Definition local_Name : string := "local".
Definition local_Capabilities : Capabilities := mkCapabilities true false false false false 1024.

Definition secret_of (d : localFile) (key val : string) : Secret :=
  let exp := default 0%Z (expiryFor d key) in
  Build_Secret key val 0 (Build_SecretMeta "" ∅ 0 0 "" exp).
Definition Get (p : LocalProvider) (key : string) : result local_error Secret :=
  match lf_Secrets (data p) !! key with
  | None => Err (LNotFound key)
  | Some val => Ok (secret_of (data p) key val)
  end.
Definition GetBatch (p : LocalProvider) (keys : list string) : list Secret :=
  omap (λ key, secret_of (data p) key <$> lf_Secrets (data p) !! key) keys.
Definition local_List (p : LocalProvider) : list Secret :=
  sort_slice (λ s t, str_lt (Key s) (Key t))
    ((λ kv, secret_of (data p) kv.1 kv.2) <$> range_map 2 (lf_Secrets (data p))).
Definition ListNames (p : LocalProvider) : list string := sort_strings (range_map 3 (lf_Secrets (data p))).*1.

Definition hashLines (lines : list string) : string := sha256_hex (join (str1 LF) (sort_strings lines)).
Definition Fingerprint (e : call_env) : call string :=
  run! load e;
  do! p := gets lw_p in
  ret (hashLines ((λ kv, kv.1 +:+ "=" +:+ kv.2) <$> range_map 4 (lf_Secrets (data p)))).

Definition set_key_value (key value : string) (expires : time) (d : localFile) : localFile :=
  mkLocal (lf_Version d) (<[key := value]> (lf_Secrets d))
    (if is_zero expires then lf_Meta d else <[key := rfc3339 expires]> (lf_Meta d)).
Definition local_Set (e : call_env) (stamp : option string) (key value : string) (meta : SecretMeta) : call unit :=
  run! upd_p (λ p, set_data (set_key_value key value (ExpiresAt meta) (data p)) p);
  run! save e;
  appendAudit e (auditOpFromCtx stamp) [key].
Definition remove_key (key : string) (d : localFile) : localFile :=
  mkLocal (lf_Version d) (delete key (lf_Secrets d)) (lf_Meta d).
Definition Delete (e : call_env) (key : string) : call unit :=
  do! p := gets lw_p in
  if negb (bool_decide (is_Some (lf_Secrets (data p) !! key))) then throw (LNotFound key)
  else
    run! upd_p (set_data (remove_key key (data p)));
    run! save e;
    appendAudit e AuditOpDelete [key].
Definition GetHistory : result local_error (list Secret) := Err LUnsupported.
Definition Rollback : option local_error := Some LUnsupported.
End provider.
