(* ===== verification/LocalProps.v ===== *)
(** The local provider as a store: a file written by any sequence of successful calls
loads to what those calls say, encryption is never lost, a failed write leaves the file
as it was, and every change leaves one line in the trail. *)

From S2P Require Import Prelude GoStrings GoEncoding Digest Provider Config Paths Effects Json TimeParse LaunchTypes LaunchManifest Keystore Local.
#[local] Open Scope go_scope.

(** * Running *)

Section runs.
Context {W E : Type}.
Lemma bind_Ok {A B} (m : act W E A) (f : A → act W E B) w w' b :
  bind m f w = (w', Ok b) → ∃ a w1, m w = (w1, Ok a) ∧ f a w1 = (w', Ok b).
Proof. unfold bind. destruct (m w) as [w1 [a|e]] eqn:Em; [|done]. eauto. Qed.
Lemma gets_Ok {A} (f : W → A) w w' a : gets (E := E) f w = (w', Ok a) → w' = w ∧ a = f w.
Proof. by intros [= <- <-]. Qed.
Lemma modify_Ok (f : W → W) w w' a : modify (E := E) f w = (w', Ok a) → w' = f w.
Proof. by intros [= <- _]. Qed.
Lemma lift_err_Ok {F A} (f : F → E) (r : result F A) (w w' : W) a :
  lift_err f r w = (w', Ok a) → w' = w ∧ r = Ok a.
Proof. destruct r; [|done]. by intros [= <- <-]. Qed.
Lemma when_Ok b (e : E) (w w' : W) a : when b (throw e) w = (w', Ok a) → w' = w ∧ b = false.
Proof. destruct b; [done|]. by intros [= <- _]. Qed.
End runs.
Ltac inv_run := repeat match goal with
  | H : bind _ _ _ = (_, Ok _) |- _ =>
      let H1 := fresh "Hr" in apply bind_Ok in H as (? & ? & H1 & H)
  | H : gets _ _ = (_, Ok _) |- _ => apply gets_Ok in H as [-> ->]
  | H : upd_p _ _ = (_, Ok _) |- _ => apply modify_Ok in H as ->
  | H : upd_fs _ _ = (_, Ok _) |- _ => apply modify_Ok in H as ->
  | H : lift_err _ _ _ = (_, Ok _) |- _ => apply lift_err_Ok in H as [-> H]
  | H : when _ (throw _) _ = (_, Ok _) |- _ => apply when_Ok in H as [-> H]
  | H : ret _ _ = (_, Ok _) |- _ => injection H as <-
  | H : throw _ _ = (_, Ok _) |- _ => discriminate H
  end.

Section store.
Context {AG : AgeLib} {LL : LegacyLib} {LY : LocalYaml} {MR : MapRange} {SH : SHA256}.

(** * Key material *)

Lemma first_env_ne s names r : first_env s names = Some r → Material r ≠ "".
Proof.
  induction names as [|n names IH]; [done|]. cbn. case_bool_decide; [done|]. cbn. by intros [= <-].
Qed.
Lemma material_ne s i r : ResolveKeyMaterial s i = Ok r → Material r ≠ "".
Proof.
  unfold ResolveKeyMaterial, KeyringMaterial. destruct (first_env _ _) as [r1|] eqn:E.
  { intros [= <-]. by apply first_env_ne in E. }
  assert (Hp : promptPassphraseConfirm s = Ok "" → False).
  { unfold promptPassphraseConfirm. destruct (ks_prompt s 0) as [a|]; [|done]. case_bool_decide; [done|].
    destruct (ks_prompt s 1) as [b|]; [|done]. case_bool_decide; [|done]. by intros [= ->]. }
  destruct (ks_keyring _ _ _) as [v|]; [case_bool_decide; [|by intros [= <-]]|];
    (destruct i; [|done]); cbn; destruct (promptPassphraseConfirm s) as [pw|]; try done;
    intros [= <-]; cbn; intros ->; by apply Hp.
Qed.
Lemma ResolveIdentity_Ok s i r : ResolveIdentity s i = Ok r ↔ ResolveKeyMaterial s i = Ok r.
Proof. unfold ResolveIdentity. destruct (ResolveKeyMaterial s i) as [|[c h|]]; [done|by case_match|done]. Qed.

(** The cached material is what resolving gives. *)
Definition key_cached (e : call_env) (p : LocalProvider) : Prop :=
  keyMat p ≠ "" → ∃ r, ResolveKeyMaterial (e_keys e) (e_interactive e) = Ok r ∧ Material r = keyMat p.
Definition same_keys (e e' : call_env) : Prop := e_keys e' = e_keys e ∧ e_interactive e' = e_interactive e.

Definition only_key (p q : LocalProvider) : Prop := ∃ m s l, q = set_key m s l p.
Lemma only_key_fields p q : only_key p q →
  filePath q = filePath p ∧ data q = data p ∧ encCfg q = encCfg p ∧ encDisk q = encDisk p ∧
  encLegacy q = encLegacy p ∧ auditPath q = auditPath p ∧ envName q = envName p.
Proof. by intros (m & s & l & ->). Qed.

Lemma ensureKey_Ok e e0 legacy w w' u :
  same_keys e0 e → key_cached e0 (lw_p w) → ensureKey e legacy w = (w', Ok u) →
  lw_fs w' = lw_fs w ∧ only_key (lw_p w) (lw_p w') ∧
  ∃ r, ResolveKeyMaterial (e_keys e0) (e_interactive e0) = Ok r ∧ Material r = keyMat (lw_p w').
Proof.
  intros [Hk Hi] Hc Hr. unfold ensureKey in Hr. inv_run.
  destruct (_ && _) eqn:Eb; inv_run.
  - split_bools. split_and!; [done| |by apply Hc].
    exists (keyMat (lw_p w)), (keySrc (lw_p w)), (keyLegacy (lw_p w)). by destruct w as [[] ?].
  - split_and!; [done|by eexists _, _, _|]. rewrite Hk, Hi in Hr0. eexists; split; [|done].
    destruct legacy; [done|]. by apply ResolveIdentity_Ok.
Qed.

(** * What a file holds *)

Definition blank : localFile := mkLocal "" ∅ ∅.
Definition holds (e : call_env) (raw : string) (secrets meta : strmap) : Prop :=
  if Detect raw then ∃ r, ResolveKeyMaterial (e_keys e) (e_interactive e) = Ok r ∧
    OpenWithMeta raw (Material r) = Ok (secrets, meta)
  else if DetectLegacy raw then ∃ r, ResolveKeyMaterial (e_keys e) (e_interactive e) = Ok r ∧
    OpenLegacyWithMeta raw (Material r) = Ok (secrets, meta)
  else ∃ v, yaml_into raw blank = (mkLocal v secrets meta, true).

(** Loading reads a file that holds something, whatever was in memory but for a plain
file, which needs an empty provider. *)
Lemma load_Ok e e0 w w' u raw :
  same_keys e0 e → key_cached e0 (lw_p w) → data (lw_p w) = blank → lw_fs w !! filePath (lw_p w) = Some raw →
  load e w = (w', Ok u) →
  lw_fs w' = lw_fs w ∧ key_cached e0 (lw_p w') ∧ filePath (lw_p w') = filePath (lw_p w) ∧
  auditPath (lw_p w') = auditPath (lw_p w) ∧ encCfg (lw_p w') = encCfg (lw_p w) ∧
  holds e0 raw (lf_Secrets (data (lw_p w'))) (lf_Meta (data (lw_p w'))).
Proof.
  intros Hk Hc Hb Hf Hr. unfold load in Hr. inv_run. cbn [id] in Hr. destruct (negb _); [done|].
  rewrite Hf in Hr. unfold holds. destruct (Detect raw); [|destruct (DetectLegacy raw)]; inv_run.
  - match goal with H : ensureKey _ _ _ = _ |- _ => rename H into Hek end.
    eapply ensureKey_Ok in Hek as (Hfs & Ho & r & Hres & Hm); [|done|done].
    apply only_key_fields in Ho as (Hp & _ & ? & _ & _ & Ha & _). cbn in *.
    split_and!; try done; [intros _; by exists r|]. exists r. split; [done|]. rewrite Hm. by rewrite <-surjective_pairing.
  - match goal with H : ensureKey _ _ _ = _ |- _ => rename H into Hek end.
    eapply ensureKey_Ok in Hek as (Hfs & Ho & r & Hres & Hm); [|done|done].
    apply only_key_fields in Ho as (Hp & _ & ? & _ & _ & Ha & _). cbn in *.
    split_and!; try done; [intros _; by exists r|]. exists r. split; [done|]. rewrite Hm. by rewrite <-surjective_pairing.
  - cbn in Hr. rewrite Hb in Hr. destruct (yaml_into raw blank) as [d ok] eqn:Ey. inv_run.
    destruct ok; inv_run. split_and!; try done. cbn. exists (lf_Version d). by destruct d.
Qed.
Lemma ensureKey_paths e legacy w w' r :
  ensureKey e legacy w = (w', r) →
  filePath (lw_p w') = filePath (lw_p w) ∧ auditPath (lw_p w') = auditPath (lw_p w).
Proof.
  unfold ensureKey, bind, gets. destruct (_ && _); [by intros [= <- _]|].
  destruct ((if legacy then _ else _) _ _) as [m|err]; cbn; by intros [= <- _].
Qed.
Lemma load_paths e w w' u :
  load e w = (w', Ok u) → filePath (lw_p w') = filePath (lw_p w) ∧ auditPath (lw_p w') = auditPath (lw_p w).
Proof.
  unfold load. intros Hr. inv_run. cbn [id] in Hr. destruct (negb _); [done|].
  destruct (lw_fs w !! _) as [raw|]; [|by inv_run].
  destruct (Detect raw); [|destruct (DetectLegacy raw)]; inv_run.
  - match goal with H : ensureKey _ _ _ = _ |- _ => apply ensureKey_paths in H as [??] end. done.
  - match goal with H : ensureKey _ _ _ = _ |- _ => apply ensureKey_paths in H as [??] end. done.
  - destruct (yaml_into _ _) as [d []]; by inv_run.
Qed.
Lemma ensureKey_run e legacy w r :
  key_cached e (lw_p w) → ResolveKeyMaterial (e_keys e) (e_interactive e) = Ok r →
  ∃ src l, ensureKey e legacy w = (mkLW (set_key (Material r) src l (lw_p w)) (lw_fs w), Ok ()).
Proof.
  intros Hc Hr. unfold ensureKey. erewrite run_bind by done. destruct (_ && _) eqn:Eb.
  - split_bools. destruct (Hc H) as (r' & Hr' & Hm). rewrite Hr in Hr'. injection Hr' as <-.
    exists (keySrc (lw_p w)), (keyLegacy (lw_p w)). rewrite Hm. by destruct w as [[] ?].
  - exists (Source r), legacy.
    assert (Hres : (if legacy then ResolveKeyMaterial else ResolveIdentity) (e_keys e) (e_interactive e) = Ok r)
      by (destruct legacy; [done|by apply ResolveIdentity_Ok]).
    rewrite Hres. done.
Qed.
Lemma load_run e w raw secrets meta :
  e_readable e = true → key_cached e (lw_p w) → data (lw_p w) = blank →
  lw_fs w !! filePath (lw_p w) = Some raw → holds e raw secrets meta →
  ∃ w', load e w = (w', Ok ()) ∧ lf_Secrets (data (lw_p w')) = secrets ∧ lf_Meta (data (lw_p w')) = meta.
Proof.
  intros He Hc Hb Hf Hh. unfold load. erewrite run_bind by done. cbn [id]. rewrite He. cbn [negb]. rewrite Hf.
  unfold holds in Hh. destruct (Detect raw); [|destruct (DetectLegacy raw)].
  - destruct Hh as (r & Hr & Ho). erewrite run_bind by done.
    edestruct (ensureKey_run e false) as (src & l & Hrun); [|exact Hr|erewrite run_bind by exact Hrun]; [done|].
    erewrite run_bind by done. erewrite run_bind by (unfold lift_err; cbn [lw_p keyMat set_key]; by rewrite Ho).
    by eexists.
  - destruct Hh as (r & Hr & Ho). erewrite run_bind by done.
    edestruct (ensureKey_run e true) as (src & l & Hrun); [|exact Hr|erewrite run_bind by exact Hrun]; [done|].
    erewrite run_bind by done. erewrite run_bind by (unfold lift_err; cbn [lw_p keyMat set_key]; by rewrite Ho).
    by eexists.
  - destruct Hh as (v & Hy). erewrite run_bind by done. erewrite run_bind by done. cbn [lw_p data set_disk upd_p].
    rewrite Hb, Hy. by eexists.
Qed.

(** * Saving *)

(** What the environment must give for the file to open again: the material is not a
bare public key, and nonces have their size. *)
Definition reopenable (e : call_env) : Prop :=
  ∀ r, ResolveKeyMaterial (e_keys e) (e_interactive e) = Ok r → age_is_recipient (Material r) = false.
Definition nonces_ok (e : call_env) : Prop := ∀ k n, e_nonces e k = Some n → String.length n = nonceSizeX.
Definition envelope (raw : string) : bool := Detect raw || DetectLegacy raw.

Lemma only_key_refl p : only_key p p.
Proof. exists (keyMat p), (keySrc p), (keyLegacy p). by destruct p. Qed.
Lemma yaml_local_not_legacy d s : yaml_local d = Some s → DetectLegacy s = false.
Proof.
  intros Hy. unfold DetectLegacy. rewrite (yaml_local_probe _ _ Hy). by apply bool_decide_eq_false.
Qed.
Lemma holds_plain e d s : yaml_local d = Some s → holds e s (lf_Secrets d) (lf_Meta d).
Proof.
  intros Hy. unfold holds, Detect. rewrite (yaml_local_plain _ _ Hy), (yaml_local_not_legacy _ _ Hy).
  exists (lf_Version d). rewrite (yaml_local_correct _ _ blank Hy). cbn. by rewrite !map_union_empty.
Qed.
Lemma sealed_Ok e e0 w w' raw :
  same_keys e0 e → key_cached e0 (lw_p w) → reopenable e0 → nonces_ok e → sealed e w = (w', Ok raw) →
  lw_fs w' = lw_fs w ∧ only_key (lw_p w) (lw_p w') ∧ key_cached e0 (lw_p w') ∧
  holds e0 raw (lf_Secrets (data (lw_p w))) (lf_Meta (data (lw_p w))) ∧
  (encCfg (lw_p w) || encDisk (lw_p w) = true → envelope raw = true).
Proof.
  intros Hk Hc Hre Hn Hr. unfold sealed in Hr. inv_run. destruct (_ || _); inv_run.
  - eapply ensureKey_Ok in Hr0 as (Hfs & Ho & r & Hres & Hm); [|done|done].
    pose proof (only_key_fields _ _ Ho) as (_ & Hd & _).
    match goal with H : Material r = keyMat (lw_p ?v) |- _ => rename v into w2 end.
    assert (Hc' : key_cached e0 (lw_p w2)) by (intros _; eauto).
    rewrite Hd in Hr. unfold holds, envelope. destruct (encLegacy (lw_p w)).
    + apply open_seal_legacy in Hr as (Ho1 & -> & ->); [|done]. split_and!; try done. rewrite <-Hm in Ho1. eauto.
    + apply open_seal in Hr as (Ho1 & ->); [|rewrite <-Hm; by apply Hre]. split_and!; try done.
      rewrite <-Hm in Ho1. eauto.
  - destruct (yaml_local _) as [s|] eqn:Ey; [|done]. injection Hr as <- <-.
    split_and!; try done; [apply only_key_refl|by apply holds_plain].
Qed.
Lemma atomic_write_Ok io path raw w w' u :
  atomic_write io path raw w = (w', Ok u) → lw_p w' = lw_p w ∧ lw_fs w' !! path = Some raw.
Proof.
  unfold atomic_write, discard_temp. intros Hr. destruct (sv_temp io) as [tmp|]; [|done].
  destruct (sv_short io); inv_run. destruct (sv_chmod io); cbn [negb] in Hr; [|by inv_run].
  destruct (sv_close io); cbn [negb] in Hr; [|by inv_run]. destruct (sv_rename io); cbn [negb] in Hr; [|by inv_run].
  inv_run. split; [done|]. apply lookup_insert_eq.
Qed.
Lemma atomic_write_frame io path raw w w' u q :
  atomic_write io path raw w = (w', Ok u) → q ≠ path → sv_temp io ≠ Some q → lw_fs w' !! q = lw_fs w !! q.
Proof.
  unfold atomic_write, discard_temp. intros Hr Hq Ht. destruct (sv_temp io) as [tmp|]; [|done].
  assert (Hne : tmp ≠ q) by congruence.
  destruct (sv_short io); inv_run. destruct (sv_chmod io); cbn [negb] in Hr; [|by inv_run].
  destruct (sv_close io); cbn [negb] in Hr; [|by inv_run]. destruct (sv_rename io); cbn [negb] in Hr; [|by inv_run].
  inv_run. cbn [lw_fs]. by rewrite lookup_insert_ne, lookup_delete_ne, lookup_insert_ne.
Qed.
(** A write that fails leaves every file but the temporary one. *)
Lemma atomic_write_Err io path raw w w' e q :
  atomic_write io path raw w = (w', Err e) → sv_temp io ≠ Some q →
  lw_p w' = lw_p w ∧ lw_fs w' !! q = lw_fs w !! q.
Proof.
  unfold atomic_write, discard_temp. intros Hr Hq. destruct (sv_temp io) as [tmp|]; [|by injection Hr as <- _].
  assert (Hne : tmp ≠ q) by congruence.
  assert (H : ∀ x s, (run! upd_fs <[tmp := x]>; run! upd_fs (λ fs, if sv_remove io then delete tmp fs else fs);
      (throw (LSave s) : call unit)) w = (w', Err e) → lw_p w' = lw_p w ∧ lw_fs w' !! q = lw_fs w !! q).
  { intros x s E. assert (Hw : w' = mkLW (lw_p w) ((λ fs : fileSystem, if sv_remove io then delete tmp fs else fs)
      (<[tmp := x]> (lw_fs w)))) by (by injection E as <- _).
    rewrite Hw. split; [done|]. cbn [lw_fs]. cbv beta. destruct (sv_remove io); [rewrite lookup_delete_ne by done|]; by rewrite lookup_insert_ne. }
  destruct (sv_short io) as [n|]; [exact (H _ _ Hr)|].
  destruct (sv_chmod io), (sv_close io), (sv_rename io); cbn [negb] in Hr; try exact (H _ _ Hr); done.
Qed.
(** Whatever the outcome, sealing touches the cached key only, and what it seals for an
encrypted provider is an envelope. *)
Lemma ensureKey_any e legacy w w' r :
  ensureKey e legacy w = (w', r) → lw_fs w' = lw_fs w ∧ only_key (lw_p w) (lw_p w').
Proof.
  unfold ensureKey, bind, gets. destruct (_ && _); [intros [= <- _]; split; [done|apply only_key_refl]|].
  destruct ((if legacy then _ else _) _ _) as [m|err]; cbn; intros [= <- _]; split; try done.
  - by eexists _, _, _.
  - apply only_key_refl.
Qed.
Lemma SealWithMeta_envelope s m k raw : SealWithMeta s m k = Ok raw → Detect raw = true.
Proof.
  unfold SealWithMeta. case_bool_decide; [done|]. destruct (recipientFor k) as [rec|]; [|done]. cbn.
  destruct (yaml_payload _) as [t|]; [|done]. destruct (age_encrypt rec t) as [c|] eqn:Ec; [|done].
  intros [= <-]. by apply (age_magic _ _ _ Ec).
Qed.
Lemma sealed_any e w w' r :
  nonces_ok e → sealed e w = (w', r) →
  lw_fs w' = lw_fs w ∧ only_key (lw_p w) (lw_p w') ∧
  (encCfg (lw_p w) || encDisk (lw_p w) = true → ∀ raw, r = Ok raw → envelope raw = true).
Proof.
  intros Hn. unfold sealed. erewrite run_bind by done. destruct (_ || _).
  - unfold bind at 1. destruct (ensureKey _ _ _) as [w1 [[]|err]] eqn:Ee; apply ensureKey_any in Ee as [Hf Ho].
    + erewrite run_bind by done. unfold lift_err. unfold envelope.
      match goal with |- (match ?x with _ => _ end) _ = _ → _ => destruct x as [raw|err] eqn:Es end; unfold ret, throw; intros [= <- <-];
        (split_and!; [done|done|]); intros _ raw' [= <-].
      destruct (encLegacy (lw_p w)).
      * apply open_seal_legacy in Es as (_ & -> & _); [|done]. apply orb_true_r.
      * by rewrite (SealWithMeta_envelope _ _ _ _ Es).
    + intros [= <- <-]. by split_and!.
  - destruct (yaml_local _); intros [= <- <-]; (split_and!; [done|apply only_key_refl|done]).
Qed.
(** Any save: the file is as it was, or, if the provider is encrypted, an envelope. *)
Lemma save_any e w w' r :
  nonces_ok e → sv_temp (e_save e) ≠ Some (filePath (lw_p w)) → encCfg (lw_p w) || encDisk (lw_p w) = true →
  save e w = (w', r) →
  only_key (lw_p w) (lw_p w') ∧
  (lw_fs w' !! filePath (lw_p w) = lw_fs w !! filePath (lw_p w) ∨
   ∃ raw, lw_fs w' !! filePath (lw_p w) = Some raw ∧ envelope raw = true).
Proof.
  intros Hn Ht Henc. unfold save, bind at 1. destruct (sealed e w) as [w1 [raw|err]] eqn:Es;
    apply sealed_any in Es as (Hf & Ho & He); try done.
  - pose proof (only_key_fields _ _ Ho) as (Hp & _). erewrite run_bind by done.
    rewrite <-Hp in Ht |- *. destruct (atomic_write _ _ _ _) as [w2 [[]|err]] eqn:Ew; intros [= <- <-].
    + apply atomic_write_Ok in Ew as [-> Hw]. split; [done|]. right. exists raw. split; [done|]. by apply He.
    + apply (atomic_write_Err _ _ _ _ _ _ (filePath (lw_p w1))) in Ew as [-> Hw]; [|done].
      split; [done|]. left. by rewrite Hw, Hf.
  - intros [= <- <-]. split; [done|]. left. by rewrite Hf.
Qed.
Lemma save_Ok e e0 w w' u :
  same_keys e0 e → key_cached e0 (lw_p w) → reopenable e0 → nonces_ok e → save e w = (w', Ok u) →
  only_key (lw_p w) (lw_p w') ∧ key_cached e0 (lw_p w') ∧
  ∃ raw, lw_fs w' !! filePath (lw_p w) = Some raw ∧
    holds e0 raw (lf_Secrets (data (lw_p w))) (lf_Meta (data (lw_p w))) ∧
    (encCfg (lw_p w) || encDisk (lw_p w) = true → envelope raw = true).
Proof.
  intros Hk Hc Hre Hn Hr. unfold save in Hr. inv_run.
  match goal with H : sealed _ _ = _ |- _ => eapply sealed_Ok in H as (Hfs & Ho & Hc' & Hh & He); [|done..] end.
  apply atomic_write_Ok in Hr as [-> Hw]. split_and!; [done|done|].
  apply only_key_fields in Ho as (Hp & _). rewrite Hp in Hw. eauto.
Qed.

(** * The trail *)

Definition trail_paths (p : LocalProvider) : list string := [auditLogPath p; auditLogPath p +:+ ".1"].
Lemma AppendAuditEntry_frame io path entry w w' r q :
  AppendAuditEntry io path entry w = (w', r) → q ≠ path → q ≠ path +:+ ".1" →
  lw_p w' = lw_p w ∧ lw_fs w' !! q = lw_fs w !! q.
Proof.
  intros Hr Hq1 Hq2.
  assert (Hrot : ∀ w1 r1, rotateAuditLog io path w = (w1, r1) → lw_p w1 = lw_p w ∧ lw_fs w1 !! q = lw_fs w !! q).
  { intros w1 r1. unfold rotateAuditLog, bind, gets. destruct (negb _); [by intros [= <- _]|].
    destruct (lw_fs w !! path) as [c|]; [|by intros [= <- _]]. destruct (_ <? _)%Z; [by intros [= <- _]|].
    destruct (au_rename io); [|by intros [= <- _]]. cbn. intros [= <- _]. split; [done|]. cbn.
    by rewrite lookup_insert_ne, lookup_delete_ne. }
  assert (Happ : ∀ s w1, lw_p w1 = lw_p w ∧ lw_fs w1 !! q = lw_fs w !! q →
    lw_p w1 = lw_p w ∧ append_to path s (lw_fs w1) !! q = lw_fs w !! q).
  { intros s w1 [H1 H2]. split; [done|]. unfold append_to. by rewrite lookup_insert_ne. }
  unfold AppendAuditEntry, bind, when, throw in Hr. destruct (rotateAuditLog io path w) as [w1 [[]|err]] eqn:Er;
    specialize (Hrot _ _ eq_refl); [|by injection Hr as <- _].
  destruct (_ && _); cbn in Hr; [by injection Hr as <- _|]. destruct (au_open io); cbn in Hr; [|by injection Hr as <- _].
  destruct (au_short io); [injection Hr as <- _; exact (Happ _ _ Hrot)|].
  destruct (au_close io); injection Hr as <- _; exact (Happ _ _ Hrot).
Qed.
Lemma appendAudit_frame e op ks w w' r q :
  appendAudit e op ks w = (w', r) → q ∉ trail_paths (lw_p w) →
  lw_p w' = lw_p w ∧ lw_fs w' !! q = lw_fs w !! q.
Proof.
  unfold appendAudit. intros Hr Hq. erewrite run_bind in Hr by done.
  eapply AppendAuditEntry_frame; [exact Hr|..]; intros ->; apply Hq; [left|right; left].
Qed.
Lemma appendAudit_error e op ks w w' err :
  appendAudit e op ks w = (w', Err err) → ∃ s, err = LAudit s.
Proof.
  unfold appendAudit. intros Hr. erewrite run_bind in Hr by done.
  unfold AppendAuditEntry, rotateAuditLog, bind, gets, when, throw, ret in Hr.
  repeat match type of Hr with
  | context [if ?b then _ else _] => destruct b
  | context [match lw_fs ?w !! ?p with _ => _ end] => destruct (lw_fs w !! p)
  | context [match au_short ?x with _ => _ end] => destruct (au_short x)
  end; cbn in Hr; simplify_eq; eauto.
Qed.
End store.

(** * The trail reads back *)

(** * A JSON value has no line feed *)

Definition printable (c : ascii) : bool := (32 <=? code c)%Z.
Lemma json_byte_printable c : str_forall printable (json_byte c) = true.
Proof. by destruct c as [[] [] [] [] [] [] [] []]. Qed.
Lemma json_go_printable k s : str_forall printable (json_go k s) = true.
Proof.
  revert k. induction s as [|c s IH]; intros k; [done|]. cbn [json_go]. destruct k as [|k]; [|apply IH].
  destruct (Z.ltb_spec (code c) 128) as [Hc|Hc]; [by rewrite str_forall_app, json_byte_printable, IH|].
  destruct (decode_rune (String c s)) as [r n] eqn:E.
  destruct (_ && _); [by rewrite str_forall_app, IH|]. destruct (_ || _) eqn:Er.
  { rewrite str_forall_app, IH. apply orb_true_iff in Er as [->%Z.eqb_eq| ->%Z.eqb_eq]; done. }
  rewrite str_forall_app, IH, andb_true_r. destruct (decide (n = 1)) as [->|Hn].
  - cbn. rewrite andb_true_r. apply Z.leb_le. lia.
  - destruct (decode_rune_multi c s r n Hc E Hn) as (_ & _ & _ & Hf).
    eapply str_forall_impl; [|exact Hf]. intros d Hd%Z.leb_le. apply Z.leb_le. lia.
Qed.
Lemma json_string_printable s : str_forall printable (json_string s) = true.
Proof. unfold json_string. cbn [str_forall]. by rewrite str_forall_app, json_go_printable. Qed.
Lemma join_printable l : Forall (λ s, str_forall printable s = true) l → str_forall printable (join "," l) = true.
Proof.
  induction 1 as [|s l Hs Hl IH]; [done|]. destruct l as [|t l]; [done|].
  rewrite join_cons by done. by rewrite !str_forall_app, Hs, IH.
Qed.
Lemma encode_string_printable (s : string) : str_forall printable (encode s) = true.
Proof. apply json_string_printable. Qed.
Lemma json_entry_printable e : str_forall printable (encode e) = true.
Proof.
  assert (Hk : str_forall printable (encode (ae_KeyNames e)) = true).
  { change (encode (ae_KeyNames e)) with (json_slice (ae_KeyNames e)). unfold json_slice.
    destruct (ae_KeyNames e) as [l|]; [|done].
    rewrite !str_forall_app, join_printable; [done|]. apply Forall_fmap, Forall_true. apply json_string_printable. }
  change (encode e) with (json_entry e). unfold json_entry, field.
  by rewrite !str_forall_app, !encode_string_printable, Hk.
Qed.
Lemma printable_no_LF s : str_forall printable s = true → has_byte LF s = false.
Proof.
  intros H. apply str_exists_false. eapply str_forall_impl; [|exact H]. intros c Hc%Z.leb_le.
  apply negb_true_iff, ascii_eqb_false. intros <-. by cbn in Hc.
Qed.
Lemma printable_trimCR s : str_forall printable s = true → trimCR s = s.
Proof.
  intros H. unfold trimCR. destruct (last_byte s) as [c|] eqn:E; [|done]. destruct (c =c CR) eqn:Ec; [|done].
  apply ascii_eqb_true in Ec as ->. exfalso. revert H E. induction s as [|d s IH]; [done|].
  cbn [str_forall]. intros [Hd Hs]%andb_true_iff. cbn. destruct s as [|d' s]; [|by apply IH].
  intros [= ->]. by vm_compute in Hd.
Qed.

(** * Lines *)

Lemma splitLines_cat s t : splitLines (s +:+ String LF t) = splitLines s ++ splitLines t.
Proof. unfold splitLines. by rewrite split_byte_mid, fmap_app. Qed.

Section trail.
Context {DE : EntryJson}.

Lemma read_lines_app l1 l2 :
  read_lines (l1 ++ l2) = ((read_lines l1).1 ++ (read_lines l2).1, (read_lines l1).2 + (read_lines l2).2).
Proof.
  induction l1 as [|s l1 IH]; [cbn [app]; cbn; by rewrite <-surjective_pairing|]. cbn [app read_lines]. rewrite IH.
  destruct (read_lines l1) as [es n]. cbn [fst snd]. case_bool_decide; [done|].
  destruct (unmarshal_entry s); [|done]. by case_bool_decide.
Qed.
(** What the trail says: [None] for a file that is not there is the empty trail. *)
Definition trail (fs : fileSystem) (path : string) : list AuditEntry * nat :=
  read_lines (splitLines (default "" (fs !! path))).
(** Complete lines only. *)
Definition whole_lines (s : string) : Prop := s = "" ∨ ∃ t, s = t +:+ str1 LF.

Lemma read_entry e : wf e → ae_Op e ≠ "" → read_lines [encode e] = ([e], 0).
Proof.
  intros Hw Ho. cbn [read_lines]. destruct (encode_head e Hw) as (c & s & He & _).
  rewrite bool_decide_false by (by rewrite He). rewrite unmarshal_marshal by done. by rewrite bool_decide_false.
Qed.
Lemma read_appended s e :
  whole_lines s → wf e → ae_Op e ≠ "" →
  read_lines (splitLines (s +:+ (encode e +:+ str1 LF))) =
  ((read_lines (splitLines s)).1 ++ [e], (read_lines (splitLines s)).2).
Proof.
  intros Hs Hw Ho. pose proof (json_entry_printable e) as Hp.
  assert (He : splitLines (encode e) = [encode e]).
  { unfold splitLines. rewrite split_byte_no by (by apply printable_no_LF). cbn. by rewrite printable_trimCR. }
  destruct Hs as [->|[t ->]].
  - rewrite str_nil_app. unfold str1. rewrite splitLines_cat, He, read_lines_app, read_entry by done. done.
  - rewrite str_app_assoc. unfold str1. rewrite str_cons_app, str_nil_app.
    rewrite splitLines_cat, splitLines_cat, splitLines_cat, He, !read_lines_app, read_entry by done.
    cbn. by rewrite !app_nil_r, !Nat.add_0_r.
Qed.

(** * Appending *)

(** What an append does to the trail, rotation included. *)
Definition appended (path : string) (entry : AuditEntry) (fs fs' : fileSystem) : Prop :=
  let old := default "" (fs !! path) in
  whole_lines (default "" (fs' !! path)) ∧
  if (Z.of_nat (String.length old) <? AuditRotateBytes)%Z
  then trail fs' path = ((trail fs path).1 ++ [entry], (trail fs path).2)
  else trail fs' path = ([entry], 0) ∧ fs' !! (path +:+ ".1") = Some old.

Lemma backup_ne path : path +:+ ".1" ≠ path.
Proof.
  intros E. apply (f_equal String.length) in E. rewrite str_length_app in E. cbn in E. lia.
Qed.
Lemma rotate_Ok io path w w' u :
  rotateAuditLog io path w = (w', Ok u) →
  let old := default "" (lw_fs w !! path) in
  if (Z.of_nat (String.length old) <? AuditRotateBytes)%Z then lw_fs w' = lw_fs w
  else lw_fs w' !! path = None ∧ lw_fs w' !! (path +:+ ".1") = Some old.
Proof.
  unfold rotateAuditLog. intros Hr. inv_run. destruct (au_stat io); cbn [negb] in Hr; [|done].
  destruct (lw_fs w !! path) as [c|] eqn:Ep; cbn [default id]; [|by inv_run].
  destruct (_ <? _)%Z; [by inv_run|]. destruct (au_rename io); inv_run. cbn [lw_fs]. split.
  - rewrite lookup_insert_ne by apply backup_ne. apply lookup_delete_eq.
  - apply lookup_insert_eq.
Qed.
Lemma append_Ok io path entry w w' u :
  wf entry → ae_Op entry ≠ "" → whole_lines (default "" (lw_fs w !! path)) →
  AppendAuditEntry io path entry w = (w', Ok u) → appended path entry (lw_fs w) (lw_fs w').
Proof.
  intros Hw Ho Hl Hr. unfold AppendAuditEntry in Hr. inv_run.
  match goal with H : rotateAuditLog _ _ _ = _ |- _ => apply rotate_Ok in H as Hrot end.
  match goal with H : rotateAuditLog _ _ _ = (?v, _) |- _ => rename v into w1 end.
  destruct (au_open io); cbn [negb] in Hr; [|done]. destruct (au_short io); inv_run.
  destruct (au_close io); inv_run. cbn [lw_fs]. unfold appended, append_to, trail. cbv zeta in *.
  rewrite lookup_insert_eq. cbn [default id]. split.
  { right. exists (default "" (lw_fs w1 !! path) +:+ encode entry). by rewrite str_app_assoc. }
  destruct (_ <? _)%Z.
  - rewrite Hrot. by apply read_appended.
  - destruct Hrot as [Hn Hb]. rewrite Hn. cbn [default].
    rewrite read_appended by (done || by left). split; [done|].
    by rewrite lookup_insert_ne by (symmetry; apply backup_ne).
Qed.
End trail.
