(* ===== verification/LocalFixture.v ===== *)
(** Concrete libraries for the local provider: a transparent age, a transparent AEAD and a
YAML of a few documents.  The witnesses run on them. *)

From S2P Require Import Prelude GoStrings GoEncoding Digest Provider Config Paths Effects Json LaunchTypes Keystore Local.
#[local] Open Scope go_scope.

(** * Libraries *)

Definition toy_public (s : string) : option string :=
  if has_prefix s "AGE-SECRET-KEY-1" then Some ("age1" +:+ s) else None.
Definition toy_header (r : Recipient) : string :=
  Format +:+ match r with RX25519 p => "X" +:+ p | RScrypt w => "S" +:+ w end +:+ str1 LF.
Definition toy_unseal (r : Recipient) (c : string) : option string :=
  if has_prefix c (toy_header r) then Some (str_drop (String.length (toy_header r)) c) else None.
Definition toy_decrypt (i : Identity) (c : string) : option string :=
  match i with
  | IX25519 s => p ← toy_public s; toy_unseal (RX25519 p) c
  | IScrypt w => toy_unseal (RScrypt w) c
  end.
Lemma toy_unseal_seal r t : toy_unseal r (toy_header r +:+ t) = Some t.
Proof. unfold toy_unseal. by rewrite has_prefix_app, str_drop_app. Qed.
#[export] Program Instance toy_age : AgeLib := {|
  age_public := toy_public;
  age_is_recipient s := has_prefix s "age1";
  age_encrypt r t := Some (toy_header r +:+ t);
  age_decrypt := toy_decrypt |}.
Next Obligation. intros s p t c Hp [= <-]. unfold toy_decrypt. rewrite Hp. apply toy_unseal_seal. Qed.
Next Obligation. intros w t c [= <-]. apply toy_unseal_seal. Qed.
Next Obligation.
  intros r t c [= <-]. unfold toy_header. rewrite str_app_assoc. apply has_prefix_app.
Qed.
Definition toy_xopen (c : string) : option string := match c with String _ p => Some p | "" => None end.
#[export] Program Instance toy_legacy : LegacyLib := {|
  argon2_IDKey m _ _ _ _ := m;
  xchacha_seal k n p a := String "t" p;
  xchacha_open k n c a := toy_xopen c |}.
Next Obligation. done. Qed.
Next Obligation. done. Qed.

(** * Documents *)

Definition doc (l m : list (string * string)) : localFile := mkLocal "1" (list_to_map l) (list_to_map m).
#[export] Instance localFile_eq : EqDecision localFile. Proof. solve_decision. Defined.
#[export] Instance payload_eq : EqDecision payload. Proof. solve_decision. Defined.
#[export] Instance kdf_eq : EqDecision kdfParams. Proof. solve_decision. Defined.
#[export] Instance envelope_eq : EqDecision legacyEnvelope. Proof. solve_decision. Defined.
#[export] Instance entry_eq : EqDecision AuditEntry. Proof. solve_decision. Defined.
(** The text of a document and back, in a table. *)
Definition text_at `{EqDecision A} (l : list (A * string)) (x : A) : option string :=
  snd <$> List.find (λ p, bool_decide (p.1 = x)) l.
Definition doc_at {A} (l : list (A * string)) (s : string) : option A :=
  fst <$> List.find (λ p, bool_decide (p.2 = s)) l.
Lemma doc_text `{EqDecision A} (l : list (A * string)) x s :
  Forall (λ p, doc_at l p.2 = Some p.1) l → text_at l x = Some s → doc_at l s = Some x.
Proof.
  intros Hl. unfold text_at. destruct (List.find _ l) as [p|] eqn:E; [|done]. intros [= <-].
  apply List.find_some in E as [Hin Hx%bool_decide_eq_true]. subst x.
  rewrite Forall_forall in Hl. apply Hl. by apply list_elem_of_In.
Qed.
Lemma text_in `{EqDecision A} (l : list (A * string)) x s : text_at l x = Some s → (x, s) ∈ l.
Proof.
  unfold text_at. destruct (List.find _ l) as [p|] eqn:E; [|done]. intros [= <-].
  apply List.find_some in E as [Hin Hx%bool_decide_eq_true]. subst x. destruct p. by apply list_elem_of_In.
Qed.

Definition stamp_2030 : string := "2030-01-01T00:00:00Z".
Definition local_docs : list (localFile * string) :=
  [(doc [("A", "1")] [("A", stamp_2030)], "y1"); (doc [("A", "1"); ("B", "2")] [("A", stamp_2030)], "y2");
   (doc [("B", "2")] [("A", stamp_2030)], "y3"); (doc [("A", "1"); ("B", "2")] [], "y4"); (doc [("A", "1")] [], "y5");
   (doc [("B", "0000")] [("A", stamp_2030)], "y6"); (doc [("A", "new"); ("B", "2")] [("A", stamp_2030)], "y7");
   (doc [("A", "new"); ("B", "new")] [("A", stamp_2030)], "y8")].
Definition payload_docs : list (payload * string) :=
  (λ p, (mkPayload (lf_Version p.1) (lf_Secrets p.1) (lf_Meta p.1), p.2)) <$> local_docs.
Definition legacy_docs : list (legacyEnvelope * string) := [(mkLegacy "1" FormatLegacy defaultKDFParams ∅ ∅, "z")].
#[export] Program Instance toy_keystore_yaml : KeystoreYaml := {|
  yaml_payload := text_at payload_docs;
  yaml_read_payload := doc_at payload_docs;
  yaml_envelope := text_at legacy_docs;
  yaml_read_envelope := doc_at legacy_docs;
  yaml_probe s := if bool_decide (s = "z") then Some FormatLegacy else Some "" |}.
Next Obligation. intros p s. apply doc_text. by_decide. Qed.
Next Obligation. intros p s. apply doc_text. by_decide. Qed.
Next Obligation. intros e s H. apply text_in, list_elem_of_singleton in H. by injection H as -> ->. Qed.
Next Obligation. intros e s H. apply text_in, list_elem_of_singleton in H. by injection H as -> ->. Qed.
#[export] Program Instance toy_local_yaml : LocalYaml := {|
  yaml_local := text_at local_docs;
  yaml_into s old :=
    match doc_at local_docs s with
    | Some f => (mkLocal (lf_Version f) (lf_Secrets f ∪ lf_Secrets old) (lf_Meta f ∪ lf_Meta old), true)
    | None => (old, false)
    end |}.
Next Obligation. intros f s old H. cbv beta. apply doc_text in H as ->; [done|by_decide]. Qed.
Next Obligation.
  intros f s H%text_in. assert (Hs : s ∈ local_docs.*2) by (apply list_elem_of_fmap; by exists (f, s)).
  clear H. revert s Hs. apply Forall_forall. by_decide.
Qed.
Next Obligation.
  intros f s H%text_in. assert (Hs : s ∈ local_docs.*2) by (apply list_elem_of_fmap; by exists (f, s)).
  clear H. revert s Hs. apply Forall_forall. by_decide.
Qed.

(** * Reading an entry of the trail *)

Definition read_string (s : string) : option (string * string) :=
  match s with
  | String q s => if q =c DQ then '(body, rest) ← json_cut s; Some (unjson body, rest) else None
  | "" => None
  end.
Definition expect (lit s : string) : option string :=
  if has_prefix s lit then Some (str_drop (String.length lit) s) else None.
Fixpoint read_items (fuel : nat) (s : string) : option (list string * string) :=
  match fuel with
  | O => None
  | S fuel =>
    '(x, r) ← read_string s;
    match r with
    | String c r =>
      if c =c "," then '(xs, r) ← read_items fuel r; Some (x :: xs, r)
      else if c =c "]" then Some ([x], r) else None
    | "" => None
    end
  end.
Definition read_names (s : string) : option (slice string * string) :=
  match expect "null" s with
  | Some r => Some (None, r)
  | None =>
    r ← expect "[" s;
    match expect "]" r with
    | Some r => Some (Some [], r)
    | None => '(l, r) ← read_items (S (String.length r)) r; Some (Some l, r)
    end
  end.
Definition read_field (first : bool) (name s : string) : option string :=
  expect ((if first then "{" else ",") +:+ json_string name +:+ ":") s.
Definition read_json_entry (s : string) : option AuditEntry :=
  s ← read_field true "timestamp" s; '(ts, s) ← read_string s;
  s ← read_field false "op" s; '(op, s) ← read_string s;
  s ← read_field false "key_names" s; '(names, s) ← read_names s;
  s ← read_field false "env" s; '(env, s) ← read_string s;
  s ← read_field false "actor" s; '(actor, s) ← read_string s;
  if bool_decide (s = "}") then Some (mkEntry ts op names env actor) else None.

Lemma expect_app lit s : expect lit (lit +:+ s) = Some s.
Proof. unfold expect. by rewrite has_prefix_app, str_drop_app. Qed.
Lemma read_string_app (s : string) t : wf s → read_string (encode s +:+ t) = Some (s, t).
Proof.
  intros Hs. change (encode s) with (json_string s). unfold json_string. rewrite str_cons_app, str_app_assoc.
  cbn [read_string]. rewrite ascii_eqb_refl, json_cut_json by done.
  change (json_cut (str1 DQ +:+ t)) with (Some ("", t)). cbn. rewrite str_app_nil_r.
  pose proof (unjson_json s Hs "") as Hu. change (unjson "") with "" in Hu. rewrite !str_app_nil_r in Hu. by rewrite Hu.
Qed.
Lemma read_items_app l fuel t :
  l ≠ [] → Forall wf l → length l ≤ fuel →
  read_items fuel (join "," (encode <$> l) +:+ String "]" t) = Some (l, t).
Proof.
  intros Hne Hl. revert fuel. induction Hl as [|x l Hx Hl IH]; intros fuel Hf; [done|].
  destruct fuel as [|fuel]; [cbn in Hf; lia|]. cbn [fmap list_fmap]. destruct l as [|y l].
  - cbn [join fmap list_fmap read_items]. by rewrite read_string_app.
  - rewrite join_cons by done. rewrite !str_app_assoc. cbn [read_items]. rewrite read_string_app by done.
    cbn [mbind option_bind]. change ("," +:+ ?s) with (String "," s). cbv iota beta.
    rewrite ascii_eqb_refl, IH by (done || (cbn in *; lia)). done.
Qed.
Lemma join_length (l : list string) : length l ≤ S (String.length (join "," (encode <$> l))).
Proof.
  induction l as [|x l IH]; [cbn; lia|]. cbn [fmap list_fmap]. destruct l as [|y l]; [cbn; lia|].
  rewrite join_cons by done. rewrite !str_length_app. cbn [length] in *. cbn in IH |- *. lia.
Qed.
Lemma read_names_app (l : slice string) t : wf l → read_names (encode l +:+ t) = Some (l, t).
Proof.
  intros Hl. change (encode l) with (json_slice l). unfold json_slice, read_names.
  destruct l as [l|]; [|by rewrite expect_app]. rewrite !str_app_assoc.
  change (expect "null" ("[" +:+ ?s)) with (@None string). cbv iota. rewrite expect_app. cbn [mbind option_bind].
  destruct l as [|x l].
  - cbn [fmap list_fmap join]. by rewrite str_nil_app, expect_app.
  - assert (He : expect "]" (join "," (encode <$> x :: l) +:+ ("]" +:+ t)) = None).
    { cbn [fmap list_fmap]. destruct l; [done|]. by rewrite join_cons. }
    rewrite He. change ("]" +:+ t) with (String "]" t). rewrite read_items_app; [done|done|exact Hl|].
    rewrite str_length_app. pose proof (join_length (x :: l)). cbn [String.length]. lia.
Qed.
Lemma read_field_app first name s :
  read_field first name ((if first then "{" else ",") +:+ json_string name +:+ ":" +:+ s) = Some s.
Proof.
  unfold read_field.
  assert (E : ∀ a, a +:+ json_string name +:+ ":" +:+ s = (a +:+ json_string name +:+ ":") +:+ s)
    by (intros a; by rewrite !str_app_assoc).
  rewrite E. apply expect_app.
Qed.
Lemma read_json_entry_app e : wf e → read_json_entry (encode e) = Some e.
Proof.
  intros (H1 & H2 & H3 & H4 & H5). change (encode e) with (json_entry e). unfold json_entry, field, read_json_entry.
  rewrite (read_field_app true "timestamp"). cbn [mbind option_bind].
  rewrite read_string_app by done. cbn [mbind option_bind]. rewrite (read_field_app false "op"). cbn [mbind option_bind].
  rewrite read_string_app by done. cbn [mbind option_bind]. rewrite (read_field_app false "key_names"). cbn [mbind option_bind].
  rewrite read_names_app by done. cbn [mbind option_bind]. rewrite (read_field_app false "env"). cbn [mbind option_bind].
  rewrite read_string_app by done. cbn [mbind option_bind]. rewrite (read_field_app false "actor"). cbn [mbind option_bind].
  rewrite read_string_app by done. cbn [mbind option_bind]. by destruct e.
Qed.
#[export] Program Instance toy_entry_json : EntryJson := {| unmarshal_entry := read_json_entry |}.
Next Obligation. apply read_json_entry_app. Qed.
