(* ===== verification/LocalStore.v ===== *)
(** What the local provider promises: an abstract store that its calls refine, the
encryption that no call undoes, the file a failed call does not touch, and the trail. *)

From S2P Require Import Prelude GoStrings GoEncoding Digest Provider Config Paths Effects Json TimeParse LaunchTypes LaunchManifest Keystore Local LocalProps LocalFixture.
#[local] Open Scope go_scope.

(** * The abstract store *)

(** Values, and when each is to be rotated.  Removing a key leaves its expiry. *)
Record store := mkStore { st_values : strmap; st_expiry : gmap string time }.
Inductive mutation :=
| MSet (stamp : option string) (key value : string) (meta : SecretMeta)
| MDelete (key : string).
Definition spec_step (s : store) (m : mutation) : store :=
  match m with
  | MSet _ k v meta =>
    mkStore (<[k := v]> (st_values s))
      (if is_zero (ExpiresAt meta) then st_expiry s
       else <[k := (ExpiresAt meta / second * second)%Z]> (st_expiry s))
  | MDelete k => mkStore (delete k (st_values s)) (st_expiry s)
  end.
Definition spec_get (s : store) (k : string) : result local_error Secret :=
  match st_values s !! k with
  | None => Err (LNotFound k)
  | Some v => Ok (Build_Secret k v 0 (Build_SecretMeta "" ∅ 0 0 "" (default 0%Z (st_expiry s !! k))))
  end.
(** What the file's text says. *)
Definition store_of (d : localFile) : store := mkStore (lf_Secrets d) (omap parse_rfc3339 (lf_Meta d)).

Section store.
Context {AG : AgeLib} {LL : LegacyLib} {LY : LocalYaml} {MR : MapRange} {SH : SHA256}.

Definition run_mutation (c : call_env * mutation) : call unit :=
  match c with
  | (e, MSet stamp k v meta) => local_Set e stamp k v meta
  | (e, MDelete k) => Delete e k
  end.
Definition change (m : mutation) (d : localFile) : localFile :=
  match m with
  | MSet _ k v meta => set_key_value k v (ExpiresAt meta) d
  | MDelete k => remove_key k d
  end.
Definition audit_op (m : mutation) : string :=
  match m with MSet stamp _ _ _ => auditOpFromCtx stamp | MDelete _ => AuditOpDelete end.
Definition mut_key (m : mutation) : string := match m with MSet _ k _ _ | MDelete k => k end.

Lemma Get_spec p k : Get p k = spec_get (store_of (data p)) k.
Proof.
  unfold Get, spec_get, store_of, secret_of, expiryFor. cbn [st_values st_expiry].
  destruct (lf_Secrets (data p) !! k); [|done]. by rewrite lookup_omap.
Qed.
(** A time of the mutation can be written in four digits. *)
Definition time_ok (m : mutation) : Prop :=
  match m with MSet _ _ _ meta => json_time_ok (ExpiresAt meta) = true | _ => True end.
Lemma change_spec m d : time_ok m → store_of (change m d) = spec_step (store_of d) m.
Proof.
  destruct m as [stamp k v meta|k]; [|done]. intros Ht. unfold store_of, change, set_key_value, spec_step. cbn.
  destruct (is_zero (ExpiresAt meta)); [done|]. f_equal. by apply omap_insert_Some, parse_rfc3339_format.
Qed.

(** * One call *)

(** A mutation is a change of the data, a save, and a line in the trail. *)
Lemma run_mutation_eq e m w :
  run_mutation (e, m) w =
  match m with
  | MDelete k => if bool_decide (is_Some (lf_Secrets (data (lw_p w)) !! k)) then
      (run! save e; appendAudit e (audit_op m) [k]) (mkLW (set_data (change m (data (lw_p w))) (lw_p w)) (lw_fs w))
      else (w, Err (LNotFound k))
  | _ => (run! save e; appendAudit e (audit_op m) [mut_key m])
      (mkLW (set_data (change m (data (lw_p w))) (lw_p w)) (lw_fs w))
  end.
Proof.
  destruct m as [stamp k v meta|k]; cbn [run_mutation]; [done|].
  unfold Delete. erewrite run_bind by done. by case_bool_decide.
Qed.
Lemma run_mutation_Ok e m w w' u :
  run_mutation (e, m) w = (w', Ok u) →
  ∃ w1, save e (mkLW (set_data (change m (data (lw_p w))) (lw_p w)) (lw_fs w)) = (w1, Ok ()) ∧
    appendAudit e (audit_op m) [mut_key m] w1 = (w', Ok u).
Proof.
  rewrite run_mutation_eq. intros H.
  assert (Hr : (run! save e; appendAudit e (audit_op m) [mut_key m])
    (mkLW (set_data (change m (data (lw_p w))) (lw_p w)) (lw_fs w)) = (w', Ok u)).
  { destruct m; [done|]. by case_bool_decide. }
  apply bind_Ok in Hr as ([] & w1 & ? & ?). eauto.
Qed.

(** What holds between calls: the cached key is what resolution gives, the trail is
another file, and the file on disk holds what is in memory. *)
Definition settled (e0 : call_env) (w : local_world) : Prop :=
  key_cached e0 (lw_p w) ∧ filePath (lw_p w) ∉ trail_paths (lw_p w) ∧
  match lw_fs w !! filePath (lw_p w) with
  | Some raw => holds e0 raw (lf_Secrets (data (lw_p w))) (lf_Meta (data (lw_p w)))
  | None => lf_Secrets (data (lw_p w)) = ∅ ∧ lf_Meta (data (lw_p w)) = ∅
  end.
Definition call_ok (e0 e : call_env) (m : mutation) : Prop := same_keys e0 e ∧ nonces_ok e ∧ time_ok m.

Lemma mutation_settled e0 e m w w' u :
  reopenable e0 → call_ok e0 e m → settled e0 w → run_mutation (e, m) w = (w', Ok u) →
  settled e0 w' ∧ filePath (lw_p w') = filePath (lw_p w) ∧
  store_of (data (lw_p w')) = spec_step (store_of (data (lw_p w))) m.
Proof.
  intros Hre (Hk & Hn & Ht) (Hc & Hap & _) Hr. apply run_mutation_Ok in Hr as (w1 & Hs & Ha).
  eapply save_Ok in Hs as (Ho & Hc' & raw & Hraw & Hh & _); [|done|done|done|done].
  apply only_key_fields in Ho as (Hp & Hd & _ & _ & _ & Hau & _). cbn [lw_p set_data filePath auditPath data] in *.
  assert (Htp : trail_paths (lw_p w1) = trail_paths (lw_p w)) by (unfold trail_paths, auditLogPath; by rewrite Hau, Hp).
  eapply appendAudit_frame in Ha as [HP HF]; [|rewrite Htp; exact Hap].
  rewrite HP. split_and!; [|done|rewrite Hd; by apply change_spec].
  unfold settled. rewrite HP, Hp, HF, Hraw, Htp, Hd. split_and!; [done|done|]. exact Hh.
Qed.
Lemma mutations_settled e0 l w w' u :
  reopenable e0 → Forall (λ c, call_ok e0 c.1 c.2) l → settled e0 w → each run_mutation l w = (w', Ok u) →
  settled e0 w' ∧ filePath (lw_p w') = filePath (lw_p w) ∧
  store_of (data (lw_p w')) = foldl spec_step (store_of (data (lw_p w))) l.*2.
Proof.
  intros Hre Hl. revert w. induction Hl as [|[e m] l Hc _ IH]; intros w Hw Hr; cbn [each] in Hr.
  { by injection Hr as <- _. }
  apply bind_Ok in Hr as ([] & w1 & H1 & Hr).
  destruct (mutation_settled _ _ _ _ _ _ Hre Hc Hw H1) as (Hw1 & Hp1 & Hs1).
  destruct (IH _ Hw1 Hr) as (Hw2 & Hp2 & Hs2). rewrite Hp2, Hp1, Hs2, Hs1. done.
Qed.

(** * Opening *)

Definition fresh (cfg : ResolvedConfig) (file audit : string) : LocalProvider :=
  mkLP file blank (rc_Encrypted cfg) false false "" "" false audit (rc_EnvName cfg).
Lemma New_load e abs cfg fs w u :
  New e abs cfg fs = (w, Ok u) →
  ∃ file audit, ∀ e' fs', New e' abs cfg fs' = load e' (mkLW (fresh cfg file audit) fs').
Proof.
  unfold New. destruct (abs (rc_File cfg)) as [file|]; [|done]. case_bool_decide; [by eexists _, _|].
  cbn. destruct (abs (rc_AuditLog cfg)) as [a|]; [by eexists _, _|done].
Qed.
Lemma fresh_cached e cfg file audit : key_cached e (fresh cfg file audit).
Proof. by intros []. Qed.
Lemma load_settled e0 e cfg file audit fs w u :
  same_keys e0 e → file ∉ trail_paths (fresh cfg file audit) →
  load e (mkLW (fresh cfg file audit) fs) = (w, Ok u) → settled e0 w ∧ filePath (lw_p w) = file.
Proof.
  intros Hk Hap Hl. destruct (fs !! file) as [raw|] eqn:Ef.
  - eapply load_Ok in Hl as (Hfs & Hc & Hp & Ha & _ & Hh); [|exact Hk|apply fresh_cached|done|exact Ef].
    cbn [lw_p lw_fs fresh filePath auditPath] in *. split; [|done]. unfold settled. rewrite Hp, Hfs, Ef.
    split_and!; [done| |exact Hh]. unfold trail_paths, auditLogPath in *. by rewrite Ha, Hp.
  - unfold load in Hl. inv_run. cbn [id] in Hl. destruct (negb _); [done|]. cbn [lw_p lw_fs fresh filePath] in Hl.
    rewrite Ef in Hl. inv_run. split; [|done]. unfold settled. cbn. rewrite Ef. split_and!; [by intros []|done|done|done].
Qed.
Lemma reload e0 e w cfg audit :
  same_keys e0 e → e_readable e = true → settled e0 w →
  ∃ w', load e (mkLW (fresh cfg (filePath (lw_p w)) audit) (lw_fs w)) = (w', Ok ()) ∧
    store_of (data (lw_p w')) = store_of (data (lw_p w)).
Proof.
  intros Hk He (_ & _ & Hd). destruct (lw_fs w !! filePath (lw_p w)) as [raw|] eqn:Ef.
  - assert (Hh : holds e raw (lf_Secrets (data (lw_p w))) (lf_Meta (data (lw_p w))))
      by (destruct Hk as [Hk1 Hk2]; unfold holds in *; by rewrite Hk1, Hk2).
    edestruct (load_run e (mkLW (fresh cfg (filePath (lw_p w)) audit) (lw_fs w))) as (w' & Hl & Hs & Hm);
      [done|apply fresh_cached|done|exact Ef|exact Hh|].
    exists w'. split; [done|]. unfold store_of. by rewrite Hs, Hm.
  - destruct Hd as [Hs Hm]. eexists. split.
    + unfold load. erewrite run_bind by done. cbn [id]. rewrite He. cbn [negb lw_fs lw_p fresh filePath].
      rewrite Ef. reflexivity.
    + unfold store_of. rewrite Hs, Hm. cbn. done.
Qed.
End store.

(** * The promises *)

Section promises.
Context {AG : AgeLib} {LL : LegacyLib} {LY : LocalYaml} {MR : MapRange} {SH : SHA256}.

(** C24: The local provider refines the abstract store, across processes.  Open a provider
on any file it accepts (plain, age or legacy) and make any sequence of Set and Delete
calls that succeed: a provider opened afterwards on the file that is left answers every
Get as the abstract store does after the same sequence, with expiries to the second.
The key material is the same throughout and not a bare public key, the trail is another
file, nonces are 24 bytes and expiries have four-digit years. *)
Theorem local_store_refines e0 abs cfg fs0 w0 calls w1 e1 :
  New e0 abs cfg fs0 = (w0, Ok ()) → reopenable e0 →
  filePath (lw_p w0) ∉ trail_paths (lw_p w0) →
  Forall (λ c, call_ok e0 c.1 c.2) calls → each run_mutation calls w0 = (w1, Ok ()) →
  same_keys e0 e1 → e_readable e1 = true →
  ∃ w2, New e1 abs cfg (lw_fs w1) = (w2, Ok ()) ∧
    ∀ k, Get (lw_p w2) k = spec_get (foldl spec_step (store_of (data (lw_p w0))) calls.*2) k.
Proof.
  intros Hnew Hre Hap Hc Hr Hk He. destruct (New_load _ _ _ _ _ _ Hnew) as (file & audit & Hl).
  rewrite Hl in Hnew. assert (Hp : filePath (lw_p w0) = file ∧ auditPath (lw_p w0) = audit).
  { revert Hnew. apply load_paths. }
  destruct Hp as [Hp Ha].
  assert (Hap' : file ∉ trail_paths (fresh cfg file audit)).
  { unfold trail_paths, auditLogPath in *. rewrite Ha, Hp in Hap. exact Hap. }
  destruct (load_settled e0 e0 _ _ _ _ _ _ (conj eq_refl eq_refl) Hap' Hnew) as [Hw0 _].
  destruct (mutations_settled _ _ _ _ _ Hre Hc Hw0 Hr) as (Hw1 & Hp1 & Hs1).
  destruct (reload e0 e1 w1 cfg audit Hk He Hw1) as (w2 & Hl2 & Hs2).
  exists w2. rewrite Hl. rewrite <-Hp, <-Hp1. split; [done|]. intros k. by rewrite Get_spec, Hs2, Hs1.
Qed.

(** Any calls, whatever becomes of each. *)
Definition run_any (calls : list (call_env * mutation)) : call unit :=
  each (λ c, run! attempt (run_mutation c); ret ()) calls.

(** An encrypted provider and a file with nothing readable in it. *)
Definition encrypted (w : local_world) : Prop :=
  encCfg (lw_p w) || encDisk (lw_p w) = true ∧ filePath (lw_p w) ∉ trail_paths (lw_p w) ∧
  ∀ raw, lw_fs w !! filePath (lw_p w) = Some raw → envelope raw = true.
Definition temp_apart (path : string) (c : call_env * mutation) : Prop :=
  nonces_ok c.1 ∧ sv_temp (e_save c.1) ≠ Some path.

Lemma only_key_settings p q : only_key p q →
  filePath q = filePath p ∧ encCfg q || encDisk q = encCfg p || encDisk p ∧ trail_paths q = trail_paths p.
Proof.
  intros Ho. apply only_key_fields in Ho as (Hp & _ & He & Hd & _ & Ha & _).
  unfold trail_paths, auditLogPath. by rewrite Hp, He, Hd, Ha.
Qed.
Lemma save_audit_encrypted e op ks w w' r :
  temp_apart (filePath (lw_p w)) (e, op) → encrypted w → (run! save e; appendAudit e (audit_op op) ks) w = (w', r) →
  encrypted w' ∧ filePath (lw_p w') = filePath (lw_p w).
Proof.
  intros [Hn Ht] (He & Hap & Hraw). unfold bind. destruct (save e w) as [w1 r1] eqn:Es.
  apply save_any in Es as [Ho Hf]; [|done..]. apply only_key_settings in Ho as (Hp & He1 & Htp).
  assert (H1 : encrypted w1).
  { unfold encrypted. rewrite He1, Hp, Htp. split_and!; [done..|]. intros raw Hr.
    destruct Hf as [Hf|(raw' & Hf & Hv)]; rewrite Hf in Hr; [by apply Hraw|by injection Hr as <-]. }
  destruct r1 as [[]|err]; [|by intros [= <- <-]]. intros Ha.
  destruct H1 as (He2 & Hap2 & Hraw2).
  destruct (appendAudit_frame _ _ _ _ _ _ _ Ha Hap2) as [HP HF]. unfold encrypted. rewrite HP, HF. done.
Qed.
Lemma mutation_encrypted c w w' r :
  temp_apart (filePath (lw_p w)) c → encrypted w → run_mutation c w = (w', r) →
  encrypted w' ∧ filePath (lw_p w') = filePath (lw_p w).
Proof.
  destruct c as [e m]. intros Ht Hw. rewrite run_mutation_eq.
  assert (Hs : encrypted (mkLW (set_data (change m (data (lw_p w))) (lw_p w)) (lw_fs w))) by exact Hw.
  destruct m; [|case_bool_decide; [|by intros [= <- _]]]; intros Hr;
    (eapply save_audit_encrypted in Hr as [? ?]; [|exact Ht|exact Hs]); done.
Qed.

(** C25: No call writes secrets in the clear over an encrypted file, or with encryption
configured: from a provider that is encrypted (by configuration or because its file is),
whatever a sequence of Set and Delete calls meets, failures at any step included, the
file is missing, as it was, or an age or legacy envelope after each of them. *)
Theorem encryption_kept calls w w' r :
  encrypted w → Forall (temp_apart (filePath (lw_p w))) calls → run_any calls w = (w', r) →
  ∀ raw, lw_fs w' !! filePath (lw_p w) = Some raw → envelope raw = true.
Proof.
  intros Hw Hc Hr. cut (encrypted w' ∧ filePath (lw_p w') = filePath (lw_p w)).
  { intros ((_ & _ & H) & <-). exact H. }
  revert w Hw Hc Hr. induction calls as [|c calls IH]; intros w Hw Hc Hr; [by injection Hr as <- _|].
  apply Forall_cons in Hc as [Hc Hcs]. unfold run_any in Hr. cbn [each] in Hr. unfold bind, attempt in Hr.
  destruct (run_mutation c w) as [w1 r1] eqn:E1. cbn [ret] in Hr.
  destruct (mutation_encrypted _ _ _ _ Hc Hw E1) as [Hw1 Hp1].
  destruct (IH w1 Hw1) as [? Hp2]; [by rewrite Hp1|exact Hr|]. by rewrite Hp2.
Qed.

(** C26: A Set or Delete that fails leaves the secrets on disk as they were: every file but
the temporary one, unless the failure is that of the trail, which comes after the write.
(In memory the change stays.) *)
Theorem failed_call_keeps_files e m w w' err q :
  run_mutation (e, m) w = (w', Err err) → (∀ s, err ≠ LAudit s) → nonces_ok e → sv_temp (e_save e) ≠ Some q →
  lw_fs w' !! q = lw_fs w !! q.
Proof.
  intros Hr Hna Hn Hq. rewrite run_mutation_eq in Hr.
  assert (H : ∀ ks w0, (run! save e; appendAudit e (audit_op m) ks) w0 = (w', Err err) → lw_fs w' !! q = lw_fs w0 !! q).
  { intros ks w0. unfold bind. destruct (save e w0) as [w1 [[]|err1]] eqn:Es.
    - intros Ha. apply appendAudit_error in Ha as [s Hs]. by destruct (Hna s).
    - intros [= <- <-]. unfold save, bind in Es. destruct (sealed e w0) as [w2 [raw|err2]] eqn:Ese;
        apply sealed_any in Ese as (Hf & _); try done; [|by injection Es as <- _; rewrite Hf].
      cbn in Es. apply (atomic_write_Err _ _ _ _ _ _ q) in Es as [_ Hw]; [|done]. by rewrite Hw, Hf. }
  destruct m; [by apply H in Hr|]. case_bool_decide; [by apply H in Hr|by injection Hr as <- _].
Qed.

(** Every change leaves its line.  After a Set or Delete that succeeds, the trail reads
as before with one entry more, last: the operation, the name of the key, the environment,
the actor and the time, and no value; a trail that had reached its size is kept whole
beside the new one.  (The trail's lines are complete, names are UTF-8, and the temporary
file is not the trail.) *)
Theorem trail_records {DE : EntryJson} e m w w' u :
  let path := auditLogPath (lw_p w) in
  let entry := mkEntry (rfc3339nano (e_now e)) (audit_op m) (Some [mut_key m]) (envName (lw_p w))
    (AuditActor (ks_env (e_keys e)) (e_user e)) in
  run_mutation (e, m) w = (w', Ok u) → wf entry → nonces_ok e →
  filePath (lw_p w) ∉ trail_paths (lw_p w) → (∀ q, sv_temp (e_save e) = Some q → q ∉ trail_paths (lw_p w)) →
  whole_lines (default "" (lw_fs w !! path)) →
  appended path entry (lw_fs w) (lw_fs w').
Proof.
  intros path entry Hr Hw Hn Hap Ht Hl. apply run_mutation_Ok in Hr as (w1 & Hs & Ha).
  assert (H1 : auditLogPath (lw_p w1) = path ∧ envName (lw_p w1) = envName (lw_p w) ∧
    lw_fs w1 !! path = lw_fs w !! path).
  { unfold save in Hs. apply bind_Ok in Hs as (raw & w2 & Hse & Hs). apply bind_Ok in Hs as (p2 & w3 & Hg & Hs).
    apply gets_Ok in Hg as [-> ->]. apply sealed_any in Hse as (Hf & Ho & _); [|done].
    apply only_key_fields in Ho as (Hp & _ & _ & _ & _ & Hau & Hen). cbn [lw_p lw_fs set_data filePath auditPath envName] in *.
    pose proof (atomic_write_Ok _ _ _ _ _ _ Hs) as [HP _]. rewrite HP.
    split_and!; [unfold path, auditLogPath; by rewrite Hau, Hp|done|].
    erewrite atomic_write_frame; [by rewrite Hf|exact Hs| |].
    - rewrite Hp. intros E. apply Hap. rewrite <-E. by left.
    - intros E. apply Ht in E. apply E. by left. }
  destruct H1 as (Hpa & Hen & Hfs). unfold appendAudit in Ha. erewrite run_bind in Ha by done.
  rewrite Hpa, Hen in Ha.
  assert (Hop : audit_op m ≠ "").
  { destruct m as [[op|] ? ? ?|]; cbn; [by case_bool_decide|done|done]. }
  eapply append_Ok in Ha; [|exact Hw|exact Hop|by rewrite Hfs].
  unfold appended, trail in *. by rewrite Hfs in Ha.
Qed.
End promises.

(** * What the calls do not promise *)

Section quirks.
Context {AG : AgeLib} {LL : LegacyLib} {LY : LocalYaml} {MR : MapRange} {SH : SHA256}.

(** A Set that failed to write is written by the next call that succeeds. *)
Theorem failed_set_applied_later e1 e2 stamp k v meta m s w w1 w2 u :
  run_mutation (e1, MSet stamp k v meta) w = (w1, Err (LSave s)) → nonces_ok e1 → mut_key m ≠ k →
  run_mutation (e2, m) w1 = (w2, Ok u) → lf_Secrets (change m (data (lw_p w1))) !! k = Some v.
Proof.
  intros Hr Hn Hk _. rewrite run_mutation_eq in Hr.
  set (w0 := mkLW _ _) in Hr. assert (Hd : data (lw_p w1) = data (lw_p w0)).
  { unfold bind in Hr. destruct (save e1 w0) as [w3 [[]|err]] eqn:Es.
    - by apply appendAudit_error in Hr as [? ?].
    - injection Hr as <- _. unfold save, bind in Es. destruct (sealed e1 w0) as [w4 [raw|err4]] eqn:Ese;
        apply sealed_any in Ese as (_ & Ho & _); try done; apply only_key_fields in Ho as (_ & Hd & _).
      + cbn in Es. destruct (sv_temp (e_save e1)) as [tmp|] eqn:Et.
        * apply (atomic_write_Err _ _ _ _ _ _ (tmp +:+ ".1")) in Es as [-> _]; [done|].
          rewrite Et. intros [= E]. by apply (backup_ne tmp).
        * unfold atomic_write in Es. rewrite Et in Es. by injection Es as <- _.
      + by injection Es as <- _. }
  rewrite Hd. unfold w0. cbn [lw_p data set_data change]. destruct m as [? k2 v2 ?|k2]; cbn in *.
  - by rewrite lookup_insert_ne, lookup_insert_eq.
  - by rewrite lookup_delete_ne, lookup_insert_eq.
Qed.

(** Reading a plain file again, as [Fingerprint] does, adds to what is in memory: a key that
was removed from the file is still there, in the fingerprint, in every Get and in the
next save. *)
Theorem reload_keeps_removed_keys e w w' u f raw :
  e_readable e = true → lw_fs w !! filePath (lw_p w) = Some raw → yaml_local f = Some raw →
  load e w = (w', Ok u) → lf_Secrets (data (lw_p w')) = lf_Secrets f ∪ lf_Secrets (data (lw_p w)).
Proof.
  intros He Hf Hy Hr. unfold load in Hr. inv_run. cbn [id] in Hr. rewrite He in Hr. cbn [negb] in Hr. rewrite Hf in Hr.
  unfold Detect in Hr. rewrite (yaml_local_plain _ _ Hy), (yaml_local_not_legacy _ _ Hy) in Hr. inv_run.
  cbn [lw_p data set_disk] in Hr. rewrite (yaml_local_correct _ _ _ Hy) in Hr. by inv_run.
Qed.

(** Two different files have one fingerprint: a line feed in a value looks like a new key. *)
Theorem fingerprint_collides v w :
  hashLines ["A=" +:+ v +:+ str1 LF +:+ "B=" +:+ w] = hashLines ["A=" +:+ v; "B=" +:+ w].
Proof. reflexivity. Qed.

(** A line cut short by a crash takes the next entry with it. *)
Theorem torn_line_takes_entry torn e :
  has_byte LF torn = false →
  splitLines (torn +:+ (encode e +:+ str1 LF)) = [trimCR (torn +:+ encode e); ""].
Proof.
  intros Ht. unfold str1. rewrite <-str_app_assoc, splitLines_cat. unfold splitLines.
  by rewrite split_byte_no by (rewrite has_byte_app, Ht, printable_no_LF; [done|apply json_entry_printable]).
Qed.
End quirks.

(** * On concrete files *)

#[local] Existing Instance toy_sha.

Definition fx_keys : key_sources :=
  mkSources (λ n, if bool_decide (n = "SKRET_AGE_KEY") then "AGE-SECRET-KEY-1X" else "")
    (λ _ _, None) (λ _, None).
Definition fx_save (rename : bool) : save_io := mkSaveIO (Some "/w/.skret-local-1.yaml") None true true rename true.
Definition fx_audit : audit_io := mkAuditIO true true true true None true.
Definition fx_env (rename : bool) : call_env :=
  mkEnv true false fx_keys None (λ _, None) (fx_save rename) fx_audit 0 (Some "ci").
Definition fx_cfg (enc : bool) : ResolvedConfig :=
  mkResolvedConfig "prod" "local" "" false "" "" "" "s.yaml" "" enc "" "" "" "" "" "" [] [] None.
Definition fx_abs (f : string) : option string := Some ("/w/" +:+ f).
Definition fx_meta : SecretMeta :=
  Build_SecretMeta "" ∅ 0 0 "" ((62135596800 + 1893456000) * second)%Z.
Definition fx_calls : list (call_env * mutation) :=
  [(fx_env true, MSet None "A" "1" fx_meta); (fx_env true, MSet (Some "rotate") "B" "2" no_meta);
   (fx_env true, MDelete "A")].
Definition fx_w0 : local_world := (New (fx_env true) fx_abs (fx_cfg true) ∅).1.
Definition fx_w1 : local_world := (each run_mutation fx_calls fx_w0).1.

Lemma fx_reopenable : reopenable (fx_env true).
Proof. intros r Hr. vm_compute in Hr. injection Hr as <-. reflexivity. Qed.
Lemma fx_apart : filePath (lw_p fx_w0) ∉ trail_paths (lw_p fx_w0).
Proof. by_decide. Qed.
Lemma fx_calls_ok : Forall (λ c, call_ok (fx_env true) c.1 c.2) fx_calls.
Proof. repeat constructor; try done; by vm_compute. Qed.

Lemma local_store_refines_witness :
  ∃ w2, New (fx_env true) fx_abs (fx_cfg true) (lw_fs fx_w1) = (w2, Ok ()) ∧
    (∀ k, Get (lw_p w2) k = spec_get (foldl spec_step (store_of (data (lw_p fx_w0))) fx_calls.*2) k) ∧
    Get (lw_p w2) "A" = Err (LNotFound "A").
Proof.
  destruct (local_store_refines (fx_env true) fx_abs (fx_cfg true) ∅ fx_w0 fx_calls fx_w1 (fx_env true))
    as (w2 & Hw & Hg).
  - vm_compute. reflexivity.
  - apply fx_reopenable.
  - apply fx_apart.
  - apply fx_calls_ok.
  - vm_compute. reflexivity.
  - done.
  - done.
  - exists w2. split; [exact Hw|]. split; [exact Hg|]. rewrite Hg. vm_compute. reflexivity.
Defined.

Lemma encryption_kept_witness :
  ∃ raw, lw_fs (run_any [(fx_env false, MSet None "A" "1" fx_meta); (fx_env true, MSet None "A" "1" fx_meta)] fx_w0).1
    !! "/w/s.yaml" = Some raw ∧ envelope raw = true.
Proof.
  eexists. split; [vm_compute; reflexivity|].
  destruct (run_any [(fx_env false, MSet None "A" "1" fx_meta); (fx_env true, MSet None "A" "1" fx_meta)] fx_w0) as [w' r] eqn:E.
  assert (Hf : lw_fs w' !! "/w/s.yaml" = lw_fs (run_any [(fx_env false, MSet None "A" "1" fx_meta);
    (fx_env true, MSet None "A" "1" fx_meta)] fx_w0).1 !! "/w/s.yaml") by (by rewrite E).
  apply (encryption_kept _ _ _ _) with (3 := E).
  - split; [done|]. split; [apply fx_apart|]. intros raw Hr. vm_compute in Hr. discriminate Hr.
  - repeat constructor; by vm_compute.
  - etrans; [exact Hf|]. vm_compute. reflexivity.
Defined.

Lemma failed_call_keeps_files_witness :
  lw_fs (run_mutation (fx_env false, MSet None "A" "1" fx_meta) fx_w0).1 !! "/w/s.yaml" = lw_fs fx_w0 !! "/w/s.yaml".
Proof.
  destruct (run_mutation (fx_env false, MSet None "A" "1" fx_meta) fx_w0) as [w' r] eqn:E.
  assert (Hr : r = Err (LSave SRename)) by (apply (f_equal snd) in E; vm_compute in E; congruence).
  subst r. apply (failed_call_keeps_files _ _ _ _ _ _ E); done.
Defined.

Lemma trail_records_witness :
  let w' := (run_mutation (fx_env true, MSet None "A" "1" fx_meta) fx_w0).1 in
  appended "/w/.skret-audit.log" (mkEntry (rfc3339nano 0) "set" (Some ["A"]) "prod" "ci") (lw_fs fx_w0) (lw_fs w').
Proof.
  destruct (run_mutation (fx_env true, MSet None "A" "1" fx_meta) fx_w0) as [w' r] eqn:E.
  assert (Hr : r = Ok ()) by (apply (f_equal snd) in E; vm_compute in E; congruence). subst r.
  apply (trail_records _ _ _ _ _ E).
  - repeat constructor.
  - done.
  - apply fx_apart.
  - intros q [= <-]. by_decide.
  - by left.
Defined.
