(* ===== verification/StateManifest.v ===== *)
(** The signed inventory of a state root (src/internal/syncer/migration_manifest.go and the
portable scanner, migration_manifest_scan_other.go).

The file system is a map from clean absolute paths to nodes.  [filepath.Abs],
[filepath.EvalSymlinks], the faults of single calls and changes during a scan are the
answers of an environment. *)

From S2P Require Import Prelude GoStrings Digest GoEncoding Provider Paths Json.
#[local] Open Scope go_scope.

(** * Files *)

(** What [Lstat] shows: a directory, a regular file, a symbolic link or an irregular file,
and anything else. *)
Inductive node := NDir | NFile (bytes : string) | NUnsafe | NOther.
Abbreviation tree := (gmap string node).
#[export] Instance node_eq : EqDecision node. Proof. solve_decision. Defined.

Record scan_env := mkScan {
  sc_abs : string → option string;
  sc_links : string → option string;
  sc_faulty : string → bool;
  sc_changed : bool }.

(** * Data *)

Definition StateManifestVersion : Z := 1.
Definition MaxStateManifestTTL : Z := (15 * 60 * second)%Z.

Record StateManifestFile := mkRow { smf_Path : string; smf_Size : Z; smf_SHA256 : string }.
Record StateManifest := mkStateManifest {
  sm_Version : Z; sm_Role : string; sm_Audience : string; sm_SourceRoot : string;
  sm_Files : list StateManifestFile; sm_Nonce : string; sm_ExpiresAt : time; sm_Sig : string }.
#[export] Instance row_eq : EqDecision StateManifestFile. Proof. solve_decision. Defined.

(** [stateManifestError]: the message. *)
Definition manifest_error : Type := string.

(** * Validation *)

Definition validateStateManifestRequired (value name : string) : option manifest_error :=
  err_if (bool_decide (trim_space value = "")) (name +:+ " is required") (
  err_if (negb (valid_utf8 value) || has_byte NUL value) ("invalid " +:+ name) None).
Definition validateStateManifestRootField (root : string) : option manifest_error :=
  err_seq (validateStateManifestRequired root "source root") (
  err_if (negb (IsAbs root) || negb (bool_decide (Clean root = root))) "source root is not canonical" None).
Definition validateStateManifestTimestamp (expiresAt : time) : option manifest_error :=
  err_if (is_zero expiresAt) "expiry is required" (
  err_if (negb (json_time_ok expiresAt)) "invalid expiry" None).
Definition validateStateManifestExpiry (expiresAt now : time) : option manifest_error :=
  err_seq (validateStateManifestTimestamp expiresAt) (
  err_if (negb (after expiresAt now)) "expiry is not in the future" (
  err_if (MaxStateManifestTTL <? time_sub expiresAt now)%Z "expiry exceeds maximum TTL" None)).
Definition validStateManifestPath (value : string) : bool :=
  if bool_decide (value = "") || bool_decide (value = ".") || negb (valid_utf8 value) || has_byte NUL value then false
  else if has_byte BSL value || has_byte ":" value || IsAbs value then false
  else if negb (bool_decide (Clean value = value)) then false
  else
    forallb (λ part, negb (bool_decide (part = "") || bool_decide (part = ".") || bool_decide (part = "..")))
      (split_byte "/" value) && negb (IsAbs value).
Definition validStateManifestSHA256 (value : string) : bool := is_sha256_hex value.
Definition validateStateManifestFile (f : StateManifestFile) : option manifest_error :=
  err_if (negb (validStateManifestPath (smf_Path f))) "invalid file path" (
  err_if (smf_Size f <? 0)%Z "invalid file size" (
  err_if (negb (validStateManifestSHA256 (smf_SHA256 f))) "invalid file digest" None)).
(** The rows in turn: each valid and after the one before. *)
Fixpoint rows_ok (previous : option string) (l : list StateManifestFile) : option manifest_error :=
  match l with
  | [] => None
  | f :: l =>
    err_seq (validateStateManifestFile f) (
    err_if (match previous with Some p => str_le (smf_Path f) p | None => false end)
      "file rows are not strictly sorted"
      (rows_ok (Some (smf_Path f)) l))
  end.
Definition validateStateManifestFields (m : StateManifest) : option manifest_error :=
  err_if (negb (sm_Version m =? StateManifestVersion)%Z) "unsupported version" (
  err_seq (validateStateManifestRequired (sm_Role m) "role") (
  err_seq (validateStateManifestRequired (sm_Audience m) "audience") (
  err_seq (validateStateManifestRequired (sm_Nonce m) "nonce") (
  err_seq (validateStateManifestRootField (sm_SourceRoot m)) (
  err_seq (validateStateManifestTimestamp (sm_ExpiresAt m)) (
  err_if (bool_decide (sm_Files m = [])) "file set is empty" (
  rows_ok None (sm_Files m)))))))).

(** * Canonical bytes *)

Definition json_row (f : StateManifestFile) : string :=
  "{" +:+ field "path" (smf_Path f) ("," +:+ field "size" (smf_Size f) ("," +:+
  field "sha256" (smf_SHA256 f) "}")).
#[export] Program Instance json_of_row : Json StateManifestFile := {|
  encode := json_row;
  wf f := wf (smf_Path f) ∧ wf (smf_Size f) ∧ wf (smf_SHA256 f) |}.
Next Obligation. intros f _. by eexists _, _. Qed.
Next Obligation.
  intros [] [] s t Hx Hy _ _ E; destruct_and?; unfold json_row in E; json_peel E; simplify_eq/=; done.
Qed.
Definition stateManifestSigningDocument (m : StateManifest) : string :=
  "{" +:+ field "version" (sm_Version m) ("," +:+ field "role" (sm_Role m) ("," +:+
  field "audience" (sm_Audience m) ("," +:+ field "source_root" (sm_SourceRoot m) ("," +:+
  field "files" (Some (sm_Files m)) ("," +:+ field "nonce" (sm_Nonce m) ("," +:+
  field "expires_at" (rfc3339nano (sm_ExpiresAt m)) "}")))))).
Definition manifest_signing_bytes (m : option StateManifest) : result manifest_error string :=
  match m with
  | None => Err "missing manifest"
  | Some m => try! validateStateManifestFields m; Ok (stateManifestSigningDocument m)
  end.

(** * Roots *)

Definition unsafeStateManifestMode (n : node) : bool := match n with NUnsafe => true | _ => false end.
(** From a path up to the root; the length of a path bounds the number of its ancestors. *)
Fixpoint walk_up (fuel : nat) (bad : string → option manifest_error) (current : string) : option manifest_error :=
  match fuel with
  | O => None
  | S fuel =>
    err_seq (bad current) (
    if bool_decide (Dir current = current) then None else walk_up fuel bad (Dir current))
  end.
Definition rejectStateManifestUnsafeAncestors (fs : tree) (root : string) : option manifest_error :=
  walk_up (S (String.length root)) (λ p,
    match fs !! p with
    | None => Some "invalid source root"
    | Some n => err_if (unsafeStateManifestMode n) "unsafe source roots are not allowed" None
    end) root.
Definition canonicalizeStateManifestRoot (e : scan_env) (fs : tree) (raw : string) : result manifest_error string :=
  let invalid := "invalid source root" in
  if bool_decide (trim_space raw = "") || negb (valid_utf8 raw) || has_byte NUL raw then Err invalid
  else
    match sc_abs e raw with
    | None => Err invalid
    | Some absolute =>
      match Clean <$> sc_links e (Clean absolute) with
      | None => Err invalid
      | Some canonical =>
        if negb (IsAbs canonical) then Err invalid
        else
          try! rejectStateManifestUnsafeAncestors fs canonical;
          match fs !! canonical with
          | Some NDir => Ok canonical
          | _ => Err invalid
          end
      end
    end.

(** * Scanning *)

Definition reservedStateManifestNames : list string := ["state-manifest.json"; "state-public-key"].
Definition isReservedStateManifestName (normalizedPath : string) : bool :=
  bool_decide (normalizedPath ∈ reservedStateManifestNames).

(** The path of an entry below [root], relative to it. *)
Definition below (root path : string) : option string :=
  let prefix := if bool_decide (root = "/") then "/" else root +:+ "/" in
  if has_prefix path prefix then
    let rel := str_drop (String.length prefix) path in
    if bool_decide (rel = "") then None else Some rel
  else None.
(** [filepath.WalkDir]: a directory's entries in order of name, each followed by what is
below it, that is, the paths in the order of their components. *)
Fixpoint components_le (a b : list string) : bool :=
  match a, b with
  | [], _ => true
  | _, [] => false
  | x :: a, y :: b => if bool_decide (x = y) then components_le a b else str_le x y
  end.
Definition walk_le (x y : string * node) : Prop := components_le (split_byte "/" x.1) (split_byte "/" y.1) = true.
#[export] Instance walk_le_dec x y : Decision (walk_le x y).
Proof. unfold walk_le. apply _. Defined.
Definition entries_below (fs : tree) (root : string) : list (string * node) :=
  merge_sort walk_le (omap (λ pn, (., pn.2) <$> below root pn.1) (map_to_list fs)).

Section scan.
Context {SH : SHA256} {SO : SortSlice}.

Definition hashStateManifestFile (e : scan_env) (path : string) (n : node) : result manifest_error (Z * string) :=
  match n with
  | NFile bytes =>
    if sc_faulty e path then Err "file read failed" else Ok (Z.of_nat (String.length bytes), sha256_hex bytes)
  | _ => Err "file changed during scan"
  end.
Fixpoint scan_entries (e : scan_env) (l : list (string * node)) : result manifest_error (list StateManifestFile) :=
  match l with
  | [] => Ok []
  | (rel, n) :: l =>
    match n with
    | NUnsafe => Err "unsafe source entries are not allowed"
    | NDir => scan_entries e l
    | NOther => Err "non-regular entries are not allowed"
    | NFile bytes =>
      if negb (validStateManifestPath rel) then Err "invalid file path"
      else if isReservedStateManifestName rel then scan_entries e l
      else
        let! row := hashStateManifestFile e rel n in
        let! rest := scan_entries e l in
        Ok (mkRow rel row.1 row.2 :: rest)
    end
  end.
Definition revalidateStateManifestDirectories (e : scan_env) : option manifest_error :=
  err_if (sc_changed e) "source directories changed during scan" None.
Definition scanStateManifestRoot (e : scan_env) (fs : tree) (root : string)
    : result manifest_error (list StateManifestFile) :=
  let! files := scan_entries e (entries_below fs root) in
  try! revalidateStateManifestDirectories e;
  if bool_decide (files = []) then Err "source root is empty"
  else Ok (sort_slice (λ a b, str_lt (smf_Path a) (smf_Path b)) files).

(** * Building and verifying *)

Context {ED : Ed25519}.

Definition with_signature (m : StateManifest) (sig : string) : StateManifest :=
  mkStateManifest (sm_Version m) (sm_Role m) (sm_Audience m) (sm_SourceRoot m) (sm_Files m) (sm_Nonce m)
    (sm_ExpiresAt m) sig.
Definition BuildStateManifest (e : scan_env) (fs : tree) (root role audience nonce : string) (expiresAt : time)
    (signer : string) (now : time) : result manifest_error StateManifest :=
  try! validateStateManifestRequired role "role";
  try! validateStateManifestRequired audience "audience";
  try! validateStateManifestRequired nonce "nonce";
  if negb (String.length signer =? PrivateKeySize) then Err "invalid signer"
  else
    try! validateStateManifestExpiry expiresAt now;
    let! canonicalRoot := canonicalizeStateManifestRoot e fs root in
    let! files := scanStateManifestRoot e fs canonicalRoot in
    let m := mkStateManifest StateManifestVersion role audience canonicalRoot files nonce expiresAt "" in
    let! canonical := manifest_signing_bytes (Some m) in
    Ok (with_signature m (ed_sign signer canonical)).

Definition sameStateManifestFiles (expected actual : list StateManifestFile) : bool :=
  bool_decide (expected = actual).
Definition VerifyStateManifest (e : scan_env) (fs : tree) (m : option StateManifest)
    (root role audience publicKey : string) (now : time) : option manifest_error :=
  match m with
  | None => Some "missing manifest"
  | Some m =>
    err_seq (validateStateManifestFields m) (
    err_seq (validateStateManifestRequired role "role") (
    err_seq (validateStateManifestRequired audience "audience") (
    err_seq (validateStateManifestExpiry (sm_ExpiresAt m) now) (
    err_if (negb (String.length publicKey =? PublicKeySize)) "invalid verifier key" (
    match canonicalizeStateManifestRoot e fs root with
    | Err err => Some err
    | Ok canonicalRoot =>
      err_if (negb (bool_decide (sm_SourceRoot m = canonicalRoot))) "source root mismatch" (
      err_if (negb (bool_decide (sm_Role m = role))) "role mismatch" (
      err_if (negb (bool_decide (sm_Audience m = audience))) "audience mismatch" (
      err_if (negb (String.length (sm_Sig m) =? SignatureSize)) "invalid signature" (
      match manifest_signing_bytes (Some m) with
      | Err err => Some err
      | Ok canonical =>
        err_if (negb (ed_verify publicKey canonical (sm_Sig m))) "invalid signature" (
        match scanStateManifestRoot e fs canonicalRoot with
        | Err err => Some err
        | Ok actual => err_if (negb (sameStateManifestFiles (sm_Files m) actual)) "source files do not match manifest" None
        end)
      end))))
    end)))))
  end.
End scan.
