(* ===== verification/StateManifestProps.v ===== *)
(** A state manifest that verifies says exactly what is in the root, and its signature binds
every field of it. *)

From S2P Require Import Prelude GoStrings Digest GoEncoding GoTime Provider Paths Json StateManifest.
#[local] Open Scope go_scope.

(** * What a scan finds *)

Definition child (root rel : string) : string := if bool_decide (root = "/") then "/" +:+ rel else root +:+ "/" +:+ rel.
Lemma below_spec root path rel : below root path = Some rel ↔ path = child root rel ∧ rel ≠ "".
Proof.
  unfold below, child. set (prefix := if bool_decide (root = "/") then "/" else root +:+ "/").
  assert (Hc : (if bool_decide (root = "/") then "/" +:+ rel else root +:+ "/" +:+ rel) = prefix +:+ rel).
  { unfold prefix. case_bool_decide; [done|]. by rewrite str_app_assoc. }
  rewrite Hc. clear Hc. clearbody prefix. destruct (has_prefix path prefix) eqn:Ep.
  - apply has_prefix_spec in Ep as [t ->]. rewrite str_drop_app. case_bool_decide as Ht; split.
    + done.
    + intros [E Hne]. apply (f_equal (str_drop (String.length prefix))) in E. rewrite !str_drop_app in E. congruence.
    + by intros [= <-].
    + intros [E Hne]. apply (f_equal (str_drop (String.length prefix))) in E. rewrite !str_drop_app in E. by subst.
  - split; [done|]. intros [-> _]. by rewrite has_prefix_app in Ep.
Qed.
Lemma elem_of_entries_below fs root rel n :
  (rel, n) ∈ entries_below fs root ↔ rel ≠ "" ∧ fs !! child root rel = Some n.
Proof.
  unfold entries_below. rewrite merge_sort_Permutation, list_elem_of_omap. split.
  - intros ([path n'] & Hin & E). cbn in E. apply elem_of_map_to_list in Hin.
    destruct (below root path) as [r|] eqn:Eb; [|done]. cbn in E. injection E as -> ->.
    apply below_spec in Eb as [-> ?]. done.
  - intros [Hne Hf]. exists (child root rel, n). split; [by apply elem_of_map_to_list|]. cbn.
    by rewrite (proj2 (below_spec root (child root rel) rel)).
Qed.

Section scan.
Context {SH : SHA256} {SO : SortSlice}.

Definition row_of (rel bytes : string) : StateManifestFile :=
  mkRow rel (Z.of_nat (String.length bytes)) (sha256_hex bytes).
Definition regular (n : node) : Prop := match n with NFile _ | NDir => True | _ => False end.
Lemma scan_entries_Ok e l files :
  scan_entries e l = Ok files →
  (∀ x, x ∈ l → regular x.2) ∧
  ∀ r, r ∈ files ↔ ∃ rel bytes, (rel, NFile bytes) ∈ l ∧ isReservedStateManifestName rel = false ∧ r = row_of rel bytes.
Proof.
  revert files. induction l as [|[rel n] l IH]; intros files; cbn [scan_entries].
  { intros [= <-]. split; [by intros x ?%not_elem_of_nil|]. intros r. split; [by intros ?%not_elem_of_nil|].
    by intros (? & ? & ?%not_elem_of_nil & _). }
  assert (Hskip : ∀ fl, scan_entries e l = Ok fl → regular n →
    (∀ bytes, n = NFile bytes → isReservedStateManifestName rel = true) →
    (∀ x, x ∈ (rel, n) :: l → regular x.2) ∧
    ∀ r, r ∈ fl ↔ ∃ rel' bytes, (rel', NFile bytes) ∈ (rel, n) :: l ∧ isReservedStateManifestName rel' = false ∧ r = row_of rel' bytes).
  { intros fl Hfl Hn Hres. destruct (IH fl Hfl) as [Hr Hs]. split; [intros x [->|Hx]%elem_of_cons; auto|].
    intros r. rewrite Hs. split; intros (rel' & b & Hin & Hre & ->); exists rel', b.
    - split_and!; [by right|done|done].
    - apply elem_of_cons in Hin as [[= -> <-]|Hin]; [by rewrite (Hres b) in Hre|done]. }
  destruct n as [|bytes| |]; try done; [by intros Hfl; apply Hskip|].
  destruct (negb _); [done|]. destruct (isReservedStateManifestName rel) eqn:Er; [by intros Hfl; apply Hskip|].
  intros Hfl. apply result_bind_Ok in Hfl as (row & Hrow & Hfl). apply result_bind_Ok in Hfl as (rest & Hrest & Hfl).
  cbn in Hrow. destruct (sc_faulty e rel); [done|]. injection Hrow as <-. injection Hfl as <-.
  destruct (IH rest Hrest) as [Hr Hs]. split; [intros x [->|Hx]%elem_of_cons; [done|auto]|].
  intros r. rewrite elem_of_cons, Hs. split.
  - intros [->|(rel' & b & Hin & Hre & ->)]; [exists rel, bytes|exists rel', b].
    + split_and!; [left|done|done].
    + split_and!; [by right|done|done].
  - intros (rel' & b & Hin & Hre & ->). apply elem_of_cons in Hin as [[= -> ->]|Hin]; [by left|right]. eauto.
Qed.
(** A scan lists exactly the files of the root, and there is nothing else but directories. *)
Lemma scan_root_Ok e fs root files :
  scanStateManifestRoot e fs root = Ok files →
  (∀ rel n, rel ≠ "" → fs !! child root rel = Some n → regular n) ∧
  ∀ r, r ∈ files ↔ ∃ rel bytes, rel ≠ "" ∧ fs !! child root rel = Some (NFile bytes) ∧
    isReservedStateManifestName rel = false ∧ r = row_of rel bytes.
Proof.
  unfold scanStateManifestRoot. intros H. apply result_bind_Ok in H as (fl & Hfl & H).
  apply err_guard_Ok in H as [_ H]. case_bool_decide; [done|]. injection H as <-.
  apply scan_entries_Ok in Hfl as [Hr Hs]. split.
  - intros rel n Hne Hf. apply (Hr (rel, n)). by apply elem_of_entries_below.
  - intros r. rewrite sort_slice_perm, Hs. split; intros (rel & b & H); exists rel, b.
    + rewrite elem_of_entries_below in H. destruct H as ([? ?] & ? & ?). done.
    + rewrite elem_of_entries_below. destruct H as (? & ? & ? & ?). done.
Qed.

Context {ED : Ed25519}.

Lemma verify_None e fs m root role audience pk now :
  VerifyStateManifest e fs (Some m) root role audience pk now = None →
  validateStateManifestFields m = None ∧
  validateStateManifestExpiry (sm_ExpiresAt m) now = None ∧
  canonicalizeStateManifestRoot e fs root = Ok (sm_SourceRoot m) ∧
  sm_Role m = role ∧ sm_Audience m = audience ∧
  ed_verify pk (stateManifestSigningDocument m) (sm_Sig m) = true ∧
  scanStateManifestRoot e fs (sm_SourceRoot m) = Ok (sm_Files m).
Proof.
  unfold VerifyStateManifest. rewrite !err_seq_None, err_if_None. intros (Hf & _ & _ & Hx & _ & H).
  destruct (canonicalizeStateManifestRoot e fs root) as [c|]; [|done].
  rewrite !err_if_None in H. destruct H as (H1 & H2 & H3 & _ & H). split_bools. subst.
  unfold manifest_signing_bytes in H. rewrite Hf in H. cbn [err_guard] in H. rewrite err_if_None in H.
  destruct H as [Hv H]. split_bools. destruct (scanStateManifestRoot e fs _) as [a|]; [|done].
  rewrite err_if_None in H. destruct H as [H _]. apply negb_false_iff, bool_decide_eq_true in H. by subst.
Qed.

(** C30: A state manifest that verifies is the inventory of its root: its rows are exactly the
regular files below the root (the manifest itself and the public key aside), each with its
size and SHA-256, there is no link or special file below the root, the manifest is for this
root, role and audience, still valid, and signed under the key over all of it. *)
Theorem verified_manifest_exact e fs m root role audience pk now :
  VerifyStateManifest e fs (Some m) root role audience pk now = None →
  (∀ r, r ∈ sm_Files m ↔ ∃ rel bytes, rel ≠ "" ∧ fs !! child (sm_SourceRoot m) rel = Some (NFile bytes) ∧
    rel ∉ reservedStateManifestNames ∧ r = row_of rel bytes) ∧
  (∀ rel n, rel ≠ "" → fs !! child (sm_SourceRoot m) rel = Some n → regular n) ∧
  canonicalizeStateManifestRoot e fs root = Ok (sm_SourceRoot m) ∧ sm_Role m = role ∧ sm_Audience m = audience ∧
  (now < sm_ExpiresAt m)%Z ∧ ed_verify pk (stateManifestSigningDocument m) (sm_Sig m) = true.
Proof.
  intros H. apply verify_None in H as (_ & Hx & Hc & Hr & Ha & Hv & Hs). apply scan_root_Ok in Hs as [Hreg Hs].
  split_and!; try done.
  - intros r. rewrite Hs. unfold isReservedStateManifestName. split; intros (rel & b & ? & ? & H & ?); exists rel, b.
    + by apply bool_decide_eq_false in H.
    + split_and!; try done. by apply bool_decide_eq_false_2.
  - unfold validateStateManifestExpiry in Hx. rewrite err_seq_None, err_if_None in Hx. destruct Hx as (_ & Hx & _).
    unfold after in Hx. split_bools. lia.
Qed.

(** What is built verifies: a manifest of a root verifies, for the same root, role,
audience and the signer's public key, as long as nothing in the root changes and it has not
expired (and the clock has not gone back). *)
Theorem built_manifest_verifies e fs root role audience nonce expiresAt signer now m now' :
  BuildStateManifest e fs root role audience nonce expiresAt signer now = Ok m →
  key_pair signer → (now ≤ now' < expiresAt)%Z →
  VerifyStateManifest e fs (Some m) root role audience (ed_public signer) now' = None.
Proof.
  intros H Hpair Hn. unfold BuildStateManifest in H.
  apply err_guard_Ok in H as [Hr H]. apply err_guard_Ok in H as [Ha H]. apply err_guard_Ok in H as [_ H].
  destruct (negb _) eqn:Hl; [done|]. split_bools. apply err_guard_Ok in H as [Hx H].
  apply result_bind_Ok in H as (c & Hc & H). apply result_bind_Ok in H as (files & Hs & H).
  apply result_bind_Ok in H as (canonical & Hcan & H). injection H as <-.
  unfold manifest_signing_bytes in Hcan. apply err_guard_Ok in Hcan as [Hf Hcan]. injection Hcan as <-.
  unfold VerifyStateManifest. change (validateStateManifestFields (with_signature _ _)) with (validateStateManifestFields
    (mkStateManifest StateManifestVersion role audience c files nonce expiresAt "")).
  rewrite Hf, Hr, Ha. cbn [err_seq with_signature sm_ExpiresAt sm_SourceRoot sm_Role sm_Audience sm_Sig sm_Files].
  assert (Hx' : validateStateManifestExpiry expiresAt now' = None).
  { unfold validateStateManifestExpiry in *. rewrite err_seq_None, !err_if_None in Hx |- *.
    destruct Hx as (Ht & Haf & Httl & _). unfold after in *. split_bools. split_and!; [done| | |done].
    - apply negb_false_iff, Z.ltb_lt. lia.
    - apply Z.ltb_ge. unfold time_sub, max_int64, min_int64 in *. lia. }
  rewrite Hx'. cbn [err_seq]. rewrite ed_public_size. cbn [err_if negb Nat.eqb PublicKeySize].
  rewrite Hc. unfold err_if at 1 2 3. rewrite !bool_decide_true by done. cbn [negb].
  rewrite ed_sign_size. cbn [negb Nat.eqb SignatureSize err_if].
  unfold manifest_signing_bytes. change (validateStateManifestFields (with_signature _ _)) with (validateStateManifestFields
    (mkStateManifest StateManifestVersion role audience c files nonce expiresAt "")).
  rewrite Hf. cbn [err_guard].
  change (stateManifestSigningDocument (with_signature ?a _)) with (stateManifestSigningDocument a).
  rewrite ed_correct by done. cbn [negb err_if]. rewrite Hs. cbn [err_if]. unfold sameStateManifestFiles.
  by rewrite bool_decide_true.
Qed.
End scan.

(** * A concrete root *)

#[local] Existing Instance toy_sha.

Definition sx_fs : tree :=
  list_to_map [("/", NDir); ("/s", NDir); ("/s/sub", NDir); ("/s/a.json", NFile "one"); ("/s/sub/b.json", NFile "two");
    ("/s/state-manifest.json", NFile "m")].
Definition sx_env : scan_env := mkScan Some Some (λ _, false) false.
Definition sx_now : time := (62135596800 * second)%Z.
Definition sx_built : result manifest_error StateManifest :=
  BuildStateManifest sx_env sx_fs "/s" "owner" "migrate" "n-1" (sx_now + 60 * second) (zeros 64) sx_now.
Definition sx_manifest : StateManifest :=
  match sx_built with Ok m => m | Err _ => mkStateManifest 0 "" "" "" [] "" 0 "" end.
Lemma sx_built_Ok : sx_built = Ok sx_manifest.
Proof. vm_compute. reflexivity. Qed.

Lemma built_manifest_verifies_witness :
  smf_Path <$> sm_Files sx_manifest = ["a.json"; "sub/b.json"] ∧
  VerifyStateManifest sx_env sx_fs (Some sx_manifest) "/s" "owner" "migrate" (ed_public (zeros 64)) sx_now = None.
Proof.
  split; [vm_compute; reflexivity|].
  apply (built_manifest_verifies _ _ _ _ _ "n-1" (sx_now + 60 * second) _ sx_now); [apply sx_built_Ok|exists (zeros 32); split; vm_compute; reflexivity|].
  unfold second. lia.
Defined.
Lemma verified_manifest_exact_witness :
  ¬ ∃ r, r ∈ sm_Files sx_manifest ∧ smf_Path r = "state-manifest.json".
Proof.
  assert (H : VerifyStateManifest sx_env sx_fs (Some sx_manifest) "/s" "owner" "migrate" (ed_public (zeros 64)) sx_now = None)
    by (vm_compute; reflexivity).
  destruct (verified_manifest_exact _ _ _ _ _ _ _ _ H) as (Hr & _). intros (r & Hin & Hp).
  apply Hr in Hin as (rel & b & _ & _ & Hres & ->). cbn in Hp. subst rel. apply Hres. by_decide.
Defined.
