(* ===== verification/StateMigration.v ===== *)
(** Upgrading one state file from v1 to v2 (src/internal/syncer/state_migration.go): the
journaled migration and its recovery.

Every system call is one step, at which it succeeds, fails, or the process is killed; a
killed process runs no deferred function.  The [Lstat] calls of one check of ancestors are
one step.  What a completed call did to the file system stays (losing power is not
modelled), nobody else writes the files meanwhile, and the test hooks are not set. *)

From S2P Require Import Prelude GoStrings Digest GoEncoding Provider Paths Effects StateManifest.
#[local] Open Scope go_scope.

(** * Data *)

Definition StateMigrationJournalVersion : Z := 1.
Definition StateMigrationPhase : Type := string.
Definition StateMigrationPhasePrepared : StateMigrationPhase := "prepared".
Definition StateMigrationPhaseBackupRenamed : StateMigrationPhase := "backup_renamed".
Definition StateMigrationPhaseCommitted : StateMigrationPhase := "committed".
Definition StateMigrationPhaseNeedsReconciliation : StateMigrationPhase := "needs_reconciliation".

Record StateMigrationJournal := mkSMJ {
  mj_Version : Z; mj_OperationID : string; mj_ManifestDigest : string;
  mj_SourcePath : string; mj_BackupPath : string; mj_TempPath : string; mj_JournalPath : string;
  mj_SourceHash : string; mj_SourceSize : Z; mj_DesiredHash : string; mj_DesiredSize : Z;
  mj_Phase : StateMigrationPhase; mj_CreatedAt : time; mj_UpdatedAt : time }.
Definition with_migration_phase (phase : StateMigrationPhase) (now : time) (j : StateMigrationJournal) : StateMigrationJournal :=
  mkSMJ (mj_Version j) (mj_OperationID j) (mj_ManifestDigest j) (mj_SourcePath j) (mj_BackupPath j) (mj_TempPath j)
    (mj_JournalPath j) (mj_SourceHash j) (mj_SourceSize j) (mj_DesiredHash j) (mj_DesiredSize j) phase (mj_CreatedAt j) now.

Inductive migration_error :=
  MMsg (message : string) | MManifest (e : manifest_error)
| ErrStateMigrationNeedsReconciliation | ErrStateMigrationInvalidJournal
| MKilled.

(** JSON of the journal and of a state object: its raw members, and whether nothing follows. *)
Definition journal_utf8 (j : StateMigrationJournal) : bool :=
  forallb valid_utf8 [mj_OperationID j; mj_ManifestDigest j; mj_SourcePath j; mj_BackupPath j; mj_TempPath j;
    mj_JournalPath j; mj_SourceHash j; mj_DesiredHash j; mj_Phase j].
Class MigrationJson : Type := {
  marshal_journal : StateMigrationJournal → option string;
  decode_journal : string → option StateMigrationJournal;
  decode_first : string → option (option (gmap string string) * bool);
  unmarshal_int : string → option Z;
  marshal_object : gmap string string → option string;
  decode_marshal_journal j b : marshal_journal j = Some b → journal_utf8 j = true → decode_journal b = Some j;
}.

(** * System calls *)

Inductive outcome := Fine | Fails | Killed.
Record mig_env := mkMigEnv {
  me_outcome : nat → outcome;
  me_temp : nat → string → string → string;
  me_short : nat → nat;
  me_scan : scan_env }.
Record mig_world := mkMW { mw_fs : tree; mw_step : nat }.
Definition run (A : Type) : Type := act mig_world migration_error A.

Definition sys {A} (e : mig_env) (msg : string) (f : tree → option (tree * A)) : run A := λ w,
  match me_outcome e (mw_step w) with
  | Fine =>
    match f (mw_fs w) with
    | Some (fs, a) => (mkMW fs (S (mw_step w)), Ok a)
    | None => (mkMW (mw_fs w) (S (mw_step w)), Err (MMsg msg))
    end
  | Fails => (mkMW (mw_fs w) (S (mw_step w)), Err (MMsg msg))
  | Killed => (mkMW (mw_fs w) (S (mw_step w)), Err MKilled)
  end.
Definition nop (e : mig_env) (msg : string) : run unit := sys e msg (λ fs, Some (fs, ())).
Definition lstat (e : mig_env) (msg path : string) : run (option node) := sys e msg (λ fs, Some (fs, fs !! path)).
Definition read_file (e : mig_env) (msg path : string) : run string :=
  sys e msg (λ fs, match fs !! path with Some (NFile b) => Some (fs, b) | _ => None end).
Definition create_temp (e : mig_env) (msg dir prefix : string) : run string := λ w,
  let p := me_temp e (mw_step w) dir prefix in
  sys e msg (λ fs, match fs !! p with None => Some (<[p := NFile ""]> fs, p) | Some _ => None end) w.
Definition write_temp (e : mig_env) (msg path data : string) : run unit := λ w,
  match me_outcome e (mw_step w) with
  | Fine => (mkMW (<[path := NFile data]> (mw_fs w)) (S (mw_step w)), Ok ())
  | Fails => (mkMW (<[path := NFile (str_take (me_short e (mw_step w)) data)]> (mw_fs w)) (S (mw_step w)), Err (MMsg msg))
  | Killed => (mkMW (<[path := NFile (str_take (me_short e (mw_step w)) data)]> (mw_fs w)) (S (mw_step w)), Err MKilled)
  end.
Definition chmod (e : mig_env) (msg path : string) : run unit :=
  sys e msg (λ fs, match fs !! path with Some _ => Some (fs, ()) | None => None end).
Definition rename (e : mig_env) (msg from to : string) : run unit :=
  sys e msg (λ fs, match fs !! from, fs !! to with
    | Some n, Some NDir => None
    | Some n, _ => Some (<[to := n]> (delete from fs), ())
    | None, _ => None end).
(** [os.Link]: refuses an existing name. *)
Definition link (e : mig_env) (msg from to : string) : run unit :=
  sys e msg (λ fs, match fs !! from, fs !! to with
    | Some (NFile b), None => Some (<[to := NFile b]> fs, ())
    | _, _ => None end).
(** [os.Remove], of what has been seen to be a regular file. *)
Definition remove (e : mig_env) (msg path : string) : run unit :=
  sys e msg (λ fs, match fs !! path with Some (NFile _) => Some (delete path fs, ()) | _ => None end).
Definition ignore_error (m : run unit) : run unit := λ w,
  match m w with (w', Err MKilled) => (w', Err MKilled) | (w', _) => (w', Ok ()) end.
(** A deferred clean-up that runs when the body failed, not when the process was killed. *)
Definition on_failure {A} (m : run A) (clean : run unit) : run A := λ w,
  match m w with
  | (w', Err MKilled) => (w', Err MKilled)
  | (w', Err err) =>
    match clean w' with (w'', Err MKilled) => (w'', Err MKilled) | (w'', _) => (w'', Err err) end
  | (w', Ok a) => (w', Ok a)
  end.

(** * Checks *)

Definition operation_rune (r : Z) : bool :=
  ((97 <=? r) && (r <=? 122) || (65 <=? r) && (r <=? 90) || (48 <=? r) && (r <=? 57)
   || (r =? 45) || (r =? 95) || (r =? 46))%Z.
Definition validateStateMigrationOperationID (operationID : string) : option migration_error :=
  let invalid := MMsg "invalid operation id" in
  err_if (bool_decide (operationID = "") || bool_decide (operationID = ".") || bool_decide (operationID = "..") ||
      (128 <? String.length operationID) || negb (bool_decide (trim_space operationID = operationID))) invalid (
  err_if (negb (forallb operation_rune (runes operationID))) invalid None).
Definition path_parts (path : string) : list string :=
  split_byte "/" (str_map (λ c, if c =c BSL then "/"%char else c) path).
Definition validateMigrationPath (path : string) : option migration_error :=
  err_if (bool_decide (path = "") || has_byte NUL path || negb (IsAbs path) || negb (bool_decide (Clean path = path)))
    (MMsg "invalid path") (
  err_if (existsb (λ part, bool_decide (part = ".") || bool_decide (part = "..")) (path_parts path))
    (MMsg "path traversal rejected") None).
(** Every directory above every path is a real one.  (The code skips those it has seen.) *)
Definition ancestors_safe (fs : tree) (paths : list string) : bool :=
  forallb (λ path, bool_decide (walk_up (S (String.length (Dir path)))
    (λ p, match fs !! p with Some NDir => None | _ => Some "unsafe" end) (Dir path) = None)) paths.
Definition validateMigrationMutationAncestors (e : mig_env) (paths : list string) : run unit :=
  sys e "unsafe path ancestor" (λ fs, if ancestors_safe fs paths then Some (fs, ()) else None).
Definition validateMigrationPaths (sourcePath backupPath tempPath journalPath : string) : option migration_error :=
  err_seq (err_each validateMigrationPath [sourcePath; backupPath; journalPath]) (
  err_if (negb (bool_decide (backupPath = sourcePath +:+ ".v1"))) (MMsg "invalid backup path") (
  err_seq (
    if bool_decide (tempPath = "") then None
    else
      err_seq (validateMigrationPath tempPath) (
      err_if (negb (bool_decide (Dir tempPath = Dir sourcePath))) (MMsg "temporary path escapes source directory") (
      err_if (bool_decide (tempPath = sourcePath) || bool_decide (tempPath = backupPath))
        (MMsg "temporary path aliases state path") None))) (
  err_if (bool_decide (journalPath = sourcePath) || bool_decide (journalPath = backupPath) || bool_decide (journalPath = tempPath))
    (MMsg "journal path aliases state path") None))).
Definition validateMigrationRequestPaths (statePath journalPath : string) : option migration_error :=
  err_seq (validateMigrationPath statePath) (
  err_seq (validateMigrationPath journalPath) (
  validateMigrationPaths statePath (statePath +:+ ".v1") "" journalPath)).
Definition validStateMigrationHash (value : string) : bool := is_sha256_hex value.
Definition validStateMigrationDigest (value : string) : bool :=
  has_prefix value "sha256:" && validStateMigrationHash (trim_prefix value "sha256:").
Definition validateMigrationJournal (journal : option StateMigrationJournal) (expectedPath : string) : option migration_error :=
  let invalid := ErrStateMigrationInvalidJournal in
  match journal with
  | None => Some invalid
  | Some j =>
    err_if (negb (mj_Version j =? StateMigrationJournalVersion)%Z || bool_decide (mj_OperationID j = "") ||
        bool_decide (mj_ManifestDigest j = "")) invalid (
    err_if (bool_decide (is_Some (validateStateMigrationOperationID (mj_OperationID j)))) invalid (
    err_if (negb (validStateMigrationDigest (mj_ManifestDigest j)) || negb (validStateMigrationHash (mj_SourceHash j)) ||
        negb (validStateMigrationHash (mj_DesiredHash j))) invalid (
    err_if ((mj_SourceSize j <? 0)%Z || (mj_DesiredSize j <? 0)%Z || is_zero (mj_CreatedAt j) || is_zero (mj_UpdatedAt j))
      invalid (
    err_if (negb (bool_decide (mj_Phase j ∈ [StateMigrationPhasePrepared; StateMigrationPhaseBackupRenamed;
        StateMigrationPhaseCommitted; StateMigrationPhaseNeedsReconciliation]))) invalid (
    err_if (bool_decide (is_Some (validateMigrationPaths (mj_SourcePath j) (mj_BackupPath j) (mj_TempPath j) (mj_JournalPath j))))
      invalid (
    err_if (negb (bool_decide (expectedPath = "")) && negb (bool_decide (mj_JournalPath j = expectedPath))) invalid None))))))
  end.

Section migration.
Context {SH : SHA256} {SO : SortSlice} {ED : Ed25519} {MJ : MigrationJson}.

(** * Digests and documents *)

Definition manifestSourceRoot (m : option StateManifest) : string :=
  match m with Some m => sm_SourceRoot m | None => "" end.
Definition migrationManifestDigest (m : option StateManifest) : result manifest_error string :=
  let! canonical := manifest_signing_bytes m in Ok ("sha256:" +:+ sha256_hex canonical).
Definition migrationHash (data : string) : string := sha256_hex data.
Definition stateManifestRowForPath (e : mig_env) (m : StateManifest) (statePath : string) : run StateManifestFile :=
  do! fs := gets mw_fs in
  match canonicalizeStateManifestRoot (me_scan e) fs (sm_SourceRoot m) with
  | Err err => throw (MManifest err)
  | Ok root =>
    if negb (bool_decide (Clean statePath = statePath)) then throw (MMsg "invalid source path")
    else
      match below root statePath with
      | None => throw (MMsg "source path escapes manifest root")
      | Some rel =>
        match List.find (λ row, bool_decide (smf_Path row = rel)) (sm_Files m) with
        | Some row => ret row
        | None => throw (MMsg "source file is not in manifest")
        end
      end
  end.
Definition decodeV1StateObject (data : string) : result migration_error (gmap string string) :=
  match decode_first data with
  | None => Err (MMsg "source is not valid v1 JSON object")
  | Some (None, _) => Err (MMsg "source is not a v1 JSON object")
  | Some (Some object, ends) =>
    if negb ends then Err (MMsg "source contains trailing data")
    else
      match object !! "schema_version" with
      | Some schema =>
        if bool_decide (unmarshal_int schema = Some 1%Z) then Ok object else Err (MMsg "source is not v1")
      | None => Ok object
      end
  end.
Definition desired_of (object : gmap string string) (manifestDigest : string) : option string :=
  marshal_object (<["manifest_digest" := json_string manifestDigest]> (<["schema_version" := "2"]> object)).

(** * Files *)

Definition secureMigrationFile (e : mig_env) (path : string) : run unit := chmod e "secure recovery file" path.
Definition migrationPathExists (e : mig_env) (path : string) : run bool :=
  do! n := lstat e "inspect path" path in
  match n with
  | None => ret false
  | Some (NFile _) => ret true
  | Some _ => throw (MMsg "path is not a regular file")
  end.
Definition readRegularMigrationFile (e : mig_env) (path : string) : run string :=
  do! n := lstat e "read source" path in
  match n with
  | Some (NFile _) => read_file e "read source" path
  | _ => throw (MMsg "source is not a regular file")
  end.
Record migrationFileInfo := mkInfo { mi_exists : bool; mi_size : Z; mi_hash : string }.
Definition inspectMigrationFile (e : mig_env) (path : string) : run migrationFileInfo :=
  do! n := lstat e "inspect file" path in
  match n with
  | None => ret (mkInfo false 0 "")
  | Some (NFile _) =>
    do! data := read_file e "read recovery file" path in
    ret (mkInfo true (Z.of_nat (String.length data)) (migrationHash data))
  | Some _ => throw (MMsg "recovery path is not a regular file")
  end.
Definition matches (info : migrationFileInfo) (hash : string) (size : Z) : bool :=
  mi_exists info && (mi_size info =? size)%Z && bool_decide (mi_hash info = hash).
Definition linkMigrationExclusively (e : mig_env) (sourcePath destinationPath : string) : run unit :=
  run! validateMigrationMutationAncestors e [sourcePath; destinationPath];
  link e "exclusive link" sourcePath destinationPath.
Definition commitMigrationTempExclusively (e : mig_env) (tempPath sourcePath : string) : run unit :=
  run! linkMigrationExclusively e tempPath sourcePath;
  remove e "remove committed temporary file" tempPath.
Definition removeMigrationFileIfExact (e : mig_env) (path expectedHash : string) (expectedSize : Z) : run unit :=
  run! validateMigrationMutationAncestors e [path];
  do! info := inspectMigrationFile e path in
  if negb (matches info expectedHash expectedSize) then throw (MMsg "temporary file changed during recovery")
  else remove e "remove temporary file" path.
(** A temporary file with [data], removed again if a step of [body] fails. *)
Definition with_temp {A} (e : mig_env) (dir prefix data : string) (body : string → run A) : run A :=
  do! tempPath := create_temp e "create temporary file" dir prefix in
  on_failure (
    run! chmod e "chmod temporary file" tempPath;
    run! write_temp e "write temporary file" tempPath data;
    run! nop e "sync temporary file";
    run! nop e "close temporary file";
    run! secureMigrationFile e tempPath;
    body tempPath)
    (ignore_error (remove e "" tempPath)).
(** The last component. *)
Definition Base (path : string) : string :=
  match last_index_byte path "/" with Some i => str_drop (S i) path | None => path end.

(** * The journal *)

Definition persistMigrationJournal (e : mig_env) (j : StateMigrationJournal) : run unit :=
  run! guard (validateMigrationJournal (Some j) (mj_JournalPath j));
  match marshal_journal j with
  | None => throw (MMsg "encode journal")
  | Some data =>
    with_temp e (Dir (mj_JournalPath j)) ("." +:+ Base (mj_JournalPath j) +:+ ".tmp-") data (λ tempPath,
      rename e "commit journal" tempPath (mj_JournalPath j))
  end.
Definition loadMigrationJournal (e : mig_env) (path : string) : run StateMigrationJournal :=
  do! n := lstat e "read journal" path in
  match n with
  | None => throw (MMsg "read journal")
  | Some (NFile _) =>
    do! data := read_file e "read journal" path in
    match decode_journal data with
    | Some j => ret j
    | None => throw ErrStateMigrationInvalidJournal
    end
  | Some _ => throw ErrStateMigrationInvalidJournal
  end.
Definition loadMigrationJournalIfPresent (e : mig_env) (path : string) : run (option StateMigrationJournal) :=
  do! n := lstat e "inspect journal" path in
  match n with
  | None => ret None
  | Some _ => do! j := loadMigrationJournal e path in ret (Some j)
  end.
Definition markMigrationNeedsReconciliation (e : mig_env) (j : StateMigrationJournal) (now : time) : run unit :=
  run! persistMigrationJournal e (with_migration_phase StateMigrationPhaseNeedsReconciliation now j);
  throw ErrStateMigrationNeedsReconciliation.

(** The three files, looked at one after the other. *)
Definition inspect_all (e : mig_env) (j : StateMigrationJournal)
    : run (migrationFileInfo * migrationFileInfo * migrationFileInfo) :=
  do! source := inspectMigrationFile e (mj_SourcePath j) in
  do! backup := inspectMigrationFile e (mj_BackupPath j) in
  do! temp := inspectMigrationFile e (mj_TempPath j) in
  ret (source, backup, temp).
Definition is_source (j : StateMigrationJournal) (i : migrationFileInfo) : bool := matches i (mj_SourceHash j) (mj_SourceSize j).
Definition is_desired (j : StateMigrationJournal) (i : migrationFileInfo) : bool := matches i (mj_DesiredHash j) (mj_DesiredSize j).
Definition state_paths (j : StateMigrationJournal) : list string := [mj_SourcePath j; mj_BackupPath j; mj_TempPath j].
Definition checked (e : mig_env) (j : StateMigrationJournal)
    (ok : migrationFileInfo → migrationFileInfo → migrationFileInfo → bool) : run bool :=
  run! validateMigrationMutationAncestors e (state_paths j);
  do! i := inspect_all e j in
  let '(source, backup, temp) := i in ret (ok source backup temp).
Definition migrationCommittedInputsMatch (e : mig_env) (j : StateMigrationJournal) : run bool :=
  checked e j (λ s b t, is_desired j s && is_source j b && is_desired j t).
Definition migrationRecoveryCommitInputsMatch (e : mig_env) (j : StateMigrationJournal) : run bool :=
  checked e j (λ s b t, negb (mi_exists s) && is_source j b && is_desired j t).
Definition migrationRollbackInputsMatch (e : mig_env) (j : StateMigrationJournal) : run bool :=
  checked e j (λ s b t, is_source j s && negb (mi_exists b) && is_desired j t).
Definition migrationCommittedStateMatches (e : mig_env) (j : StateMigrationJournal) : run bool :=
  checked e j (λ s b t, is_desired j s && is_source j b && negb (mi_exists t)).
Definition committedMigrationMatchesJournal (e : mig_env) (j : StateMigrationJournal) : run bool :=
  if negb (bool_decide (mj_Phase j = StateMigrationPhaseCommitted)) then ret false
  else
    do! i := inspect_all e j in
    let '(s, b, t) := i in ret (is_desired j s && is_source j b && negb (mi_exists t)).
Definition committedMigrationMatches (e : mig_env) (path statePath operationID manifestDigest : string) : run bool :=
  do! journal := loadMigrationJournalIfPresent e path in
  match journal with
  | None => ret false
  | Some j =>
    run! guard (validateMigrationJournal (Some j) path);
    if negb (bool_decide (mj_OperationID j = operationID)) || negb (bool_decide (mj_ManifestDigest j = manifestDigest)) ||
       negb (bool_decide (mj_SourcePath j = statePath)) || negb (bool_decide (mj_Phase j = StateMigrationPhaseCommitted))
    then ret false
    else committedMigrationMatchesJournal e j
  end.
Definition validateCommittedMigrationFiles (e : mig_env) (j : StateMigrationJournal) : run unit :=
  run! validateMigrationMutationAncestors e (state_paths j);
  do! source := inspectMigrationFile e (mj_SourcePath j) in
  if negb (is_desired j source) then throw (MMsg "committed source changed")
  else
    do! backup := inspectMigrationFile e (mj_BackupPath j) in
    if negb (is_source j backup) then throw (MMsg "preserved v1 changed")
    else
      do! temp := inspectMigrationFile e (mj_TempPath j) in
      if mi_exists temp then throw (MMsg "committed temporary file remains") else ret ().

(** * The steps of a migration *)

Definition source_unchanged (e : mig_env) (j : StateMigrationJournal) (msg : string) : run unit :=
  do! source := inspectMigrationFile e (mj_SourcePath j) in
  if negb (is_source j source) then throw (MMsg msg) else ret ().
Definition preserveMigrationSourceExclusively (e : mig_env) (j : StateMigrationJournal) : run unit :=
  run! validateMigrationMutationAncestors e [mj_SourcePath j; mj_BackupPath j];
  run! source_unchanged e j "source changed before preservation";
  do! exists_ := migrationPathExists e (mj_BackupPath j) in
  if exists_ then throw (MMsg "v1 backup already exists")
  else
    run! linkMigrationExclusively e (mj_SourcePath j) (mj_BackupPath j);
    run! source_unchanged e j "source changed during preservation";
    run! validateMigrationMutationAncestors e [mj_SourcePath j];
    run! source_unchanged e j "source changed before removal";
    remove e "remove preserved source" (mj_SourcePath j).
Definition validateMigrationBackupAfterRename (e : mig_env) (j : StateMigrationJournal) : run unit :=
  run! validateMigrationMutationAncestors e (state_paths j);
  do! backup := inspectMigrationFile e (mj_BackupPath j) in
  if is_source j backup then ret ()
  else
    do! exists_ := migrationPathExists e (mj_SourcePath j) in
    if exists_ then throw (MMsg "source or backup changed during migration")
    else
      run! linkMigrationExclusively e (mj_BackupPath j) (mj_SourcePath j);
      throw (MMsg "source or backup changed during migration").
Definition restoreMigrationSourceFromBackup (e : mig_env) (j : StateMigrationJournal) : run unit :=
  do! exists_ := migrationPathExists e (mj_SourcePath j) in
  if exists_ then throw (MMsg "source appeared during recovery")
  else
    run! secureMigrationFile e (mj_BackupPath j);
    do! backup := readRegularMigrationFile e (mj_BackupPath j) in
    if negb (Z.of_nat (String.length backup) =? mj_SourceSize j)%Z || negb (bool_decide (migrationHash backup = mj_SourceHash j))
    then throw (MMsg "preserved v1 hash or size mismatch")
    else
      with_temp e (Dir (mj_SourcePath j)) ("." +:+ Base (mj_SourcePath j) +:+ ".restore-") backup (λ tempPath,
        commitMigrationTempExclusively e tempPath (mj_SourcePath j)).

(** An existing journal: a finished migration of the same request is a success. *)
Definition existing_journal (e : mig_env) (j : StateMigrationJournal) (statePath journalPath operationID manifestDigest : string)
    : run unit :=
  run! guard (validateMigrationJournal (Some j) journalPath);
  if negb (bool_decide (mj_OperationID j = operationID)) then throw (MMsg "journal operation mismatch")
  else if negb (bool_decide (mj_ManifestDigest j = manifestDigest)) then throw (MMsg "journal manifest mismatch")
  else if negb (bool_decide (mj_SourcePath j = statePath)) || negb (bool_decide (mj_BackupPath j = statePath +:+ ".v1"))
  then throw (MMsg "journal path mismatch")
  else
    do! matched := committedMigrationMatchesJournal e j in
    if bool_decide (mj_Phase j = StateMigrationPhaseCommitted) && matched then ret ()
    else throw (MMsg "existing journal requires recovery").
Definition finish (e : mig_env) (j : StateMigrationJournal) (now : time) : run unit :=
  persistMigrationJournal e (with_migration_phase StateMigrationPhaseCommitted now j).
(** From the journal on: the deferred removal of the temporary file is over. *)
Definition switch_files (e : mig_env) (j : StateMigrationJournal) (now : time) : run unit :=
  run! preserveMigrationSourceExclusively e j;
  run! secureMigrationFile e (mj_BackupPath j);
  let j := with_migration_phase StateMigrationPhaseBackupRenamed now j in
  run! persistMigrationJournal e j;
  run! validateMigrationBackupAfterRename e j;
  run! commitMigrationTempExclusively e (mj_TempPath j) (mj_SourcePath j);
  run! validateCommittedMigrationFiles e j;
  finish e j now.
Definition new_journal (statePath journalPath tempPath operationID manifestDigest raw desired : string) (now : time)
    : StateMigrationJournal :=
  mkSMJ StateMigrationJournalVersion operationID manifestDigest statePath (statePath +:+ ".v1") tempPath journalPath
    (migrationHash raw) (Z.of_nat (String.length raw)) (migrationHash desired) (Z.of_nat (String.length desired))
    StateMigrationPhasePrepared now now.
Definition migrate_files (e : mig_env) (statePath journalPath operationID manifestDigest raw desired : string) (now : time) : run unit :=
  do! existing := loadMigrationJournalIfPresent e journalPath in
  match existing with
  | Some j => existing_journal e j statePath journalPath operationID manifestDigest
  | None =>
    do! exists_ := migrationPathExists e (statePath +:+ ".v1") in
    if exists_ then throw (MMsg "v1 backup already exists")
    else
      do! j := with_temp e (Dir statePath) ("." +:+ Base statePath +:+ ".v2-") desired (λ tempPath,
        let j := new_journal statePath journalPath tempPath operationID manifestDigest raw desired now in
        run! persistMigrationJournal e j;
        run! secureMigrationFile e statePath;
        ret j) in
      switch_files e j now
  end.
Definition try_committed (e : mig_env) (m : run bool) (err : migration_error) : run unit := λ w,
  match m w with
  | (w', Ok true) => (w', Ok ())
  | (w', Err MKilled) => (w', Err MKilled)
  | (w', _) => (w', Err err)
  end.
Definition MigrateStateFileV1ToV2 (e : mig_env) (statePath journalPath : string) (manifest : option StateManifest)
    (publicKey expectedRole expectedAudience operationID : string) (now : time) : run unit :=
  do! fs := gets mw_fs in
  let digest := migrationManifestDigest manifest in
  match VerifyStateManifest (me_scan e) fs manifest (manifestSourceRoot manifest) expectedRole expectedAudience publicKey now with
  | Some manifestErr =>
    match digest with
    | Ok manifestDigest =>
      try_committed e (committedMigrationMatches e journalPath statePath operationID manifestDigest) (MManifest manifestErr)
    | Err _ => throw (MManifest manifestErr)
    end
  | None =>
    do! manifestDigest := lift_err MManifest digest in
    match manifest with
    | None => throw (MManifest "missing manifest")
    | Some m =>
      run! guard (validateMigrationRequestPaths statePath journalPath);
      run! guard (validateStateMigrationOperationID operationID);
      run! validateMigrationMutationAncestors e [statePath; statePath +:+ ".v1"; journalPath];
      do! raw := readRegularMigrationFile e statePath in
      do! row := stateManifestRowForPath e m statePath in
      if negb (Z.of_nat (String.length raw) =? smf_Size row)%Z || negb (bool_decide (migrationHash raw = smf_SHA256 row))
      then throw (MMsg "source hash or size does not match manifest")
      else
        do! object := lift (decodeV1StateObject raw) in
        match desired_of object manifestDigest with
        | None => throw (MMsg "encode v2 state")
        | Some desired =>
          run! guard (validateMigrationPaths statePath (statePath +:+ ".v1") "" journalPath);
          migrate_files e statePath journalPath operationID manifestDigest raw desired now
        end
    end
  end.

(** * Recovery *)

(** A check before a step of the recovery: if it no longer holds, the journal is marked. *)
Definition if_current (e : mig_env) (check : run bool) (j : StateMigrationJournal) (now : time) (m : run unit) : run unit :=
  do! current := check in
  if current then m else markMigrationNeedsReconciliation e j now.
Definition recover_committed (e : mig_env) (j : StateMigrationJournal) (now : time) (last : run unit) : run unit :=
  if_current e (migrationCommittedStateMatches e j) j now (
    run! secureMigrationFile e (mj_SourcePath j);
    run! secureMigrationFile e (mj_BackupPath j);
    run! validateCommittedMigrationFiles e j;
    last).
Definition remove_temp (e : mig_env) (j : StateMigrationJournal) : run unit :=
  removeMigrationFileIfExact e (mj_TempPath j) (mj_DesiredHash j) (mj_DesiredSize j).
Definition recover_prepared (e : mig_env) (j : StateMigrationJournal) (now : time)
    (source backup temp : migrationFileInfo) : run unit :=
  let mark := markMigrationNeedsReconciliation e j now in
  if is_desired j source && is_source j backup && negb (mi_exists temp) then
    recover_committed e j now (finish e j now)
  else if is_source j source && negb (mi_exists backup) && is_desired j temp then
    if_current e (migrationRollbackInputsMatch e j) j now (
      run! secureMigrationFile e (mj_SourcePath j);
      run! remove_temp e j;
      mark)
  else if negb (mi_exists source) && is_source j backup && is_desired j temp then
    if_current e (migrationRecoveryCommitInputsMatch e j) j now (
      run! restoreMigrationSourceFromBackup e j;
      run! remove_temp e j;
      mark)
  else mark.
Definition recover_renamed (e : mig_env) (j : StateMigrationJournal) (now : time)
    (source backup temp : migrationFileInfo) : run unit :=
  if is_desired j source && is_source j backup && negb (mi_exists temp) then
    recover_committed e j now (finish e j now)
  else if is_desired j source && is_source j backup && is_desired j temp then
    if_current e (migrationCommittedInputsMatch e j) j now (
      run! secureMigrationFile e (mj_SourcePath j);
      run! secureMigrationFile e (mj_BackupPath j);
      run! remove_temp e j;
      run! validateCommittedMigrationFiles e j;
      finish e j now)
  else if negb (mi_exists source) && is_source j backup && is_desired j temp then
    if_current e (migrationRecoveryCommitInputsMatch e j) j now (
      run! secureMigrationFile e (mj_BackupPath j);
      run! commitMigrationTempExclusively e (mj_TempPath j) (mj_SourcePath j);
      run! validateCommittedMigrationFiles e j;
      finish e j now)
  else markMigrationNeedsReconciliation e j now.
Definition RecoverStateMigration (e : mig_env) (journalPath : string) (now : time) : run unit :=
  run! guard (validateMigrationPath journalPath);
  do! j := loadMigrationJournal e journalPath in
  run! guard (validateMigrationJournal (Some j) journalPath);
  run! validateMigrationMutationAncestors e (state_paths j ++ [mj_JournalPath j]);
  if bool_decide (mj_Phase j = StateMigrationPhaseNeedsReconciliation) then throw ErrStateMigrationNeedsReconciliation
  else
    do! i := inspect_all e j in
    let '(source, backup, temp) := i in
    if bool_decide (mj_Phase j = StateMigrationPhasePrepared) then recover_prepared e j now source backup temp
    else if bool_decide (mj_Phase j = StateMigrationPhaseBackupRenamed) then recover_renamed e j now source backup temp
    else if bool_decide (mj_Phase j = StateMigrationPhaseCommitted) &&
            (is_desired j source && is_source j backup && negb (mi_exists temp)) then
      recover_committed e j now (ret ())
    else markMigrationNeedsReconciliation e j now.
End migration.
