(* ===== verification/StateMigrationSteps.v ===== *)
(** Reasoning about a migration: what each system call and each step leaves on disk when it
succeeds, when it fails and when the process is killed in it. *)

From S2P Require Import Prelude GoStrings Digest GoEncoding Provider Paths Effects StateManifest StateMigration.
#[local] Open Scope go_scope.

(** * Triples over the file system *)

Section triples.
Definition tri {A} (P : tree → Prop) (m : run A) (Q : A → tree → Prop) (R : tree → Prop) : Prop :=
  triple (λ w, P (mw_fs w)) m (λ a w, Q a (mw_fs w)) (λ w, R (mw_fs w)).

Lemma tri_bind {A B} P (m : run A) Q (f : A → run B) Q' R :
  tri P m Q R → (∀ a, tri (Q a) (f a) Q' R) → tri P (bind m f) Q' R.
Proof. apply triple_bind. Qed.
Lemma tri_ret {A} P (a : A) (Q : A → tree → Prop) R : (∀ fs, P fs → Q a fs) → tri P (ret a) Q R.
Proof. intros H. apply triple_ret. intros w. apply H. Qed.
Lemma tri_throw {A} P err (Q : A → tree → Prop) (R : tree → Prop) : (∀ fs, P fs → R fs) → tri P (throw err) Q R.
Proof. intros H. apply triple_throw. intros w. apply H. Qed.
Lemma tri_conseq {A} P P' (m : run A) (Q Q' : A → tree → Prop) (R R' : tree → Prop) :
  tri P' m Q' R' → (∀ fs, P fs → P' fs) → (∀ a fs, Q' a fs → Q a fs) → (∀ fs, R' fs → R fs) → tri P m Q R.
Proof. intros Hm HP HQ HR. eapply triple_conseq; [exact Hm|intros w; apply HP|intros a w; apply HQ|intros w; apply HR]. Qed.
Lemma tri_pre {A} P P' (m : run A) (Q : A → tree → Prop) R : tri P' m Q R → (∀ fs, P fs → P' fs) → tri P m Q R.
Proof. intros Hm HP. by eapply tri_conseq. Qed.
Lemma tri_pure {A} (φ : Prop) P (m : run A) (Q : A → tree → Prop) R :
  (φ → tri P m Q R) → tri (λ fs, P fs ∧ φ) m Q R.
Proof. intros H w [Hw Hφ]. by apply H. Qed.
Lemma tri_guard P err (Q : unit → tree → Prop) (R : tree → Prop) :
  (∀ fs, err = None → P fs → Q () fs) → (∀ fs, P fs → R fs) → tri P (guard err) Q R.
Proof. intros HQ HR. apply triple_guard; [intros w; apply HQ|intros w; apply HR]. Qed.
Lemma tri_lift {A} P (r : result migration_error A) (Q : A → tree → Prop) (R : tree → Prop) :
  (∀ a fs, r = Ok a → P fs → Q a fs) → (∀ fs, P fs → R fs) → tri P (lift r) Q R.
Proof. intros HQ HR. apply triple_lift; [intros a w; apply HQ|intros w; apply HR]. Qed.
Lemma tri_exists {A B} (P : B → tree → Prop) (m : run A) (Q : A → tree → Prop) R :
  (∀ b, tri (P b) m Q R) → tri (λ fs, ∃ b, P b fs) m Q R.
Proof. intros H w [b Hb]. by apply (H b). Qed.
Lemma tri_or {A} (P P' : tree → Prop) (m : run A) (Q : A → tree → Prop) R :
  tri P m Q R → tri P' m Q R → tri (λ fs, P fs ∨ P' fs) m Q R.
Proof. intros H H' w [Hw|Hw]; [by apply H|by apply H']. Qed.

Lemma tri_sys {A} e msg (f : tree → option (tree * A)) (P : tree → Prop) (Q : A → tree → Prop) (R : tree → Prop) :
  (∀ fs fs' a, P fs → f fs = Some (fs', a) → Q a fs') → (∀ fs, P fs → R fs) → tri P (sys e msg f) Q R.
Proof.
  intros HQ HR w Hw. unfold sys. destruct (me_outcome e (mw_step w)); cbn; [|by apply HR..].
  destruct (f (mw_fs w)) as [[fs a]|] eqn:Ef; cbn; [by eapply HQ|by apply HR].
Qed.

(** A step that only looks. *)
Definition looks {A} (m : run A) (v : tree → A → Prop) : Prop :=
  ∀ w, mw_fs (m w).1 = mw_fs w ∧ ∀ a, (m w).2 = Ok a → v (mw_fs w) a.
Lemma tri_looks {A} (m : run A) v (P R : tree → Prop) (Q : A → tree → Prop) :
  looks m v → (∀ a fs, P fs → v fs a → Q a fs) → (∀ fs, P fs → R fs) → tri P m Q R.
Proof.
  intros Hm HQ HR w Hw. destruct (Hm w) as [Hf Hv]. destruct (m w) as [w' [a|err]]; cbn in *; rewrite Hf.
  - apply HQ; auto.
  - by apply HR.
Qed.
Lemma looks_bind {A B} (m : run A) v (f : A → run B) v' :
  looks m v → (∀ a, looks (f a) (v' a)) → looks (bind m f) (λ fs b, ∃ a, v fs a ∧ v' a fs b).
Proof.
  intros Hm Hf w. unfold bind. destruct (Hm w) as [H1 H2]. destruct (m w) as [w1 [a|err]]; cbn in *; [|done].
  destruct (Hf a w1) as [H3 H4]. rewrite H3, H1. split; [done|]. intros b Hb. exists a.
  split; [by apply H2|]. rewrite <-H1. by apply H4.
Qed.
Lemma looks_weaken {A} (m : run A) (v v' : tree → A → Prop) : looks m v → (∀ fs a, v fs a → v' fs a) → looks m v'.
Proof. intros Hm Hv w. destruct (Hm w) as [H1 H2]. split; [done|]. auto. Qed.
Lemma looks_seq {A B} (m : run A) v (f : A → run B) (V : tree → B → Prop) :
  looks m v → (∀ a, looks (f a) (λ fs b, v fs a → V fs b)) → looks (bind m f) V.
Proof.
  intros Hm Hf. eapply looks_weaken; [exact (looks_bind _ _ _ _ Hm Hf)|]. intros fs b (a & Ha & Hb). by apply Hb.
Qed.
Lemma looks_ret {A} (a : A) : looks (ret a) (λ _ b, b = a).
Proof. intros w. split; [done|]. by intros b [= <-]. Qed.
Lemma looks_throw {A} err (v : tree → A → Prop) : looks (throw err) v.
Proof. intros w. by split. Qed.
Lemma looks_sys {A} e msg (f : tree → option A) :
  looks (sys e msg (λ fs, (λ a, (fs, a)) <$> f fs)) (λ fs a, f fs = Some a).
Proof.
  intros w. unfold sys. destruct (me_outcome e (mw_step w)); cbn; [|by split..].
  destruct (f (mw_fs w)) as [x|] eqn:E; cbn; [|by split]. split; [done|]. by intros a [= <-].
Qed.
Lemma looks_lstat e msg p : looks (lstat e msg p) (λ fs n, n = fs !! p).
Proof.
  eapply looks_weaken; [apply (looks_sys e msg (λ fs, Some (fs !! p)))|]. by intros fs a [= <-].
Qed.
Lemma looks_read e msg p : looks (read_file e msg p) (λ fs b, fs !! p = Some (NFile b)).
Proof.
  intros w. unfold read_file, sys. destruct (me_outcome e (mw_step w)); cbn; [|by split..].
  destruct (mw_fs w !! p) as [[]|]; cbn; try (by split). split; [done|]. by intros a [= <-].
Qed.
Lemma looks_nop e msg : looks (nop e msg) (λ _ _, True).
Proof. intros w. unfold nop, sys. by destruct (me_outcome e (mw_step w)). Qed.
Lemma looks_chmod e msg p : looks (chmod e msg p) (λ _ _, True).
Proof. intros w. unfold chmod, sys. destruct (me_outcome e (mw_step w)); cbn; [|by split..]. by destruct (mw_fs w !! p). Qed.
Lemma looks_ancestors e ps : looks (validateMigrationMutationAncestors e ps) (λ _ _, True).
Proof.
  intros w. unfold validateMigrationMutationAncestors, sys. destruct (me_outcome e (mw_step w)); cbn; [|by split..].
  by destruct (ancestors_safe _ _).
Qed.
Lemma looks_guard err : looks (guard err) (λ _ _, err = None).
Proof. intros w. unfold guard. destruct err; by split. Qed.
End triples.

(** * What the checks see *)

Section looks.
Context {SH : SHA256} {MJ : MigrationJson}.

Definition info_of (n : option node) : migrationFileInfo :=
  match n with
  | Some (NFile b) => mkInfo true (Z.of_nat (String.length b)) (migrationHash b)
  | _ => mkInfo false 0 ""
  end.
(** The content, for a file or nothing at all. *)
Definition plain (n : option node) : Prop := match n with None | Some (NFile _) => True | _ => False end.
Lemma looks_inspect e p : looks (inspectMigrationFile e p) (λ fs i, i = info_of (fs !! p) ∧ plain (fs !! p)).
Proof.
  unfold inspectMigrationFile. eapply looks_seq; [apply looks_lstat|intros [[|b| |]|]]; try apply looks_throw.
  - eapply looks_seq; [apply looks_read|intros d]. eapply looks_weaken; [apply looks_ret|].
    intros fs a -> Hd Hb. by rewrite Hd.
  - eapply looks_weaken; [apply looks_ret|]. by intros fs a -> <-.
Qed.
Lemma looks_exists e p : looks (migrationPathExists e p) (λ fs b, b = bool_decide (is_Some (fs !! p))).
Proof.
  unfold migrationPathExists. eapply looks_seq; [apply looks_lstat|intros [[|b| |]|]]; try apply looks_throw.
  - eapply looks_weaken; [apply looks_ret|]. by intros fs a -> <-.
  - eapply looks_weaken; [apply looks_ret|]. by intros fs a -> <-.
Qed.
Lemma looks_inspect_all e j :
  looks (inspect_all e j) (λ fs i, i = (info_of (fs !! mj_SourcePath j), info_of (fs !! mj_BackupPath j), info_of (fs !! mj_TempPath j))).
Proof.
  unfold inspect_all. eapply looks_weaken.
  - apply looks_bind; [apply looks_inspect|intros s]. apply looks_bind; [apply looks_inspect|intros b].
    apply looks_bind; [apply looks_inspect|intros t]. apply looks_ret.
  - cbv beta. intros fs i (s & [-> _] & b & [-> _] & t & [-> _] & ->). done.
Qed.
Lemma looks_checked e j ok :
  looks (checked e j ok) (λ fs r, r = ok (info_of (fs !! mj_SourcePath j)) (info_of (fs !! mj_BackupPath j)) (info_of (fs !! mj_TempPath j))).
Proof.
  unfold checked. eapply looks_weaken.
  - apply looks_bind; [apply looks_ancestors|intros ?].
    eapply (looks_bind _ _ _ (λ i _ r, r = ok i.1.1 i.1.2 i.2)); [apply looks_inspect_all|].
    intros [[s b] t]. apply looks_ret.
  - cbv beta. intros fs r (_ & _ & i & -> & ->). done.
Qed.
Lemma looks_unchanged e j msg :
  looks (source_unchanged e j msg) (λ fs _, is_source j (info_of (fs !! mj_SourcePath j)) = true).
Proof.
  unfold source_unchanged. eapply looks_seq; [apply looks_inspect|intros i].
  destruct (is_source j i) eqn:Ei; [|apply looks_throw].
  eapply looks_weaken; [apply looks_ret|]. by intros fs u _ [-> _].
Qed.
Lemma looks_committed_files e j :
  looks (validateCommittedMigrationFiles e j) (λ fs _,
    is_desired j (info_of (fs !! mj_SourcePath j)) = true ∧ is_source j (info_of (fs !! mj_BackupPath j)) = true ∧
    mi_exists (info_of (fs !! mj_TempPath j)) = false).
Proof.
  unfold validateCommittedMigrationFiles. eapply looks_seq; [apply looks_ancestors|intros ?].
  eapply looks_seq; [apply looks_inspect|intros s]. destruct (is_desired j s) eqn:Es; [|apply looks_throw].
  eapply looks_seq; [apply looks_inspect|intros b]. destruct (is_source j b) eqn:Eb; [|apply looks_throw].
  eapply looks_seq; [apply looks_inspect|intros t]. destruct (mi_exists t) eqn:Et; [apply looks_throw|].
  eapply looks_weaken; [apply looks_ret|]. by intros fs u _ [-> _] [-> _] [-> _] _.
Qed.
Lemma looks_load_journal e p :
  looks (loadMigrationJournal e p) (λ fs j, ∃ b, fs !! p = Some (NFile b) ∧ decode_journal b = Some j).
Proof.
  unfold loadMigrationJournal. eapply looks_seq; [apply looks_lstat|intros [[|b| |]|]]; try apply looks_throw.
  eapply looks_seq; [apply looks_read|intros d]. destruct (decode_journal d) as [j|] eqn:Ej; [|apply looks_throw].
  eapply looks_weaken; [apply looks_ret|]. intros fs a -> Hd _. by exists d.
Qed.
Lemma looks_journal_present e p :
  looks (loadMigrationJournalIfPresent e p) (λ fs o, match o with
    | Some j => ∃ b, fs !! p = Some (NFile b) ∧ decode_journal b = Some j
    | None => fs !! p = None end).
Proof.
  unfold loadMigrationJournalIfPresent. eapply looks_seq; [apply looks_lstat|intros [n|]].
  - eapply looks_seq; [apply looks_load_journal|intros j].
    eapply looks_weaken; [apply looks_ret|]. by intros fs a -> Hj _.
  - eapply looks_weaken; [apply looks_ret|]. by intros fs a -> ->.
Qed.
Lemma looks_committed_journal e j :
  looks (committedMigrationMatchesJournal e j) (λ fs r, r = true →
    is_desired j (info_of (fs !! mj_SourcePath j)) = true ∧ is_source j (info_of (fs !! mj_BackupPath j)) = true ∧
    mi_exists (info_of (fs !! mj_TempPath j)) = false).
Proof.
  unfold committedMigrationMatchesJournal. destruct (negb _).
  - eapply looks_weaken; [apply looks_ret|]. by intros fs r -> [=].
  - eapply looks_seq; [apply looks_inspect_all|]. intros [[s b] t].
    eapply looks_weaken; [apply looks_ret|]. intros fs r -> [= -> -> ->] H.
    apply andb_true_iff in H as [[Hs Hb]%andb_true_iff Ht%negb_true_iff]. done.
Qed.
Lemma looks_committed_matches e p s o d :
  looks (committedMigrationMatches e p s o d) (λ fs r, r = true → is_Some (fs !! p)).
Proof.
  unfold committedMigrationMatches. eapply looks_seq; [apply looks_journal_present|]. intros [j|].
  - eapply looks_seq; [apply looks_guard|intros ?]. destruct (_ || _).
    + eapply looks_weaken; [apply looks_ret|]. by intros fs r -> _ _.
    + eapply looks_weaken; [apply looks_committed_journal|]. by intros fs r _ _ (b & -> & _) _.
  - eapply looks_weaken; [apply looks_ret|]. by intros fs r -> _.
Qed.
Lemma looks_existing e j sp jp o d :
  looks (existing_journal e j sp jp o d) (λ fs _, validateMigrationJournal (Some j) jp = None ∧
    mj_Phase j = StateMigrationPhaseCommitted ∧ mj_SourcePath j = sp ∧
    is_desired j (info_of (fs !! mj_SourcePath j)) = true ∧ is_source j (info_of (fs !! mj_BackupPath j)) = true ∧
    mi_exists (info_of (fs !! mj_TempPath j)) = false).
Proof.
  unfold existing_journal. eapply looks_seq; [apply looks_guard|intros ?].
  destruct (negb _); [apply looks_throw|]. destruct (negb _); [apply looks_throw|].
  destruct (negb _ || _) eqn:Ep; [apply looks_throw|]. apply orb_false_iff in Ep as [Ep _].
  apply negb_false_iff, bool_decide_eq_true in Ep.
  eapply looks_seq; [apply looks_committed_journal|intros m]. destruct (_ && m) eqn:Em; [|apply looks_throw].
  apply andb_true_iff in Em as [Em1%bool_decide_eq_true Em2].
  eapply looks_weaken; [apply looks_ret|]. intros fs u _ Hm Hv. destruct (Hm Em2) as (? & ? & ?). tauto.
Qed.
Lemma looks_regular e p : looks (readRegularMigrationFile e p) (λ fs b, fs !! p = Some (NFile b)).
Proof.
  unfold readRegularMigrationFile. eapply looks_seq; [apply looks_lstat|intros n].
  destruct n as [[]|]; try apply looks_throw. by eapply looks_weaken; [apply looks_read|].
Qed.
End looks.

(** * Steps that write *)

Section writes.
Context {SH : SHA256} {MJ : MigrationJson}.

(** A fact about the files at [ps]. *)
Definition about (ps : list string) (I : tree → Prop) : Prop :=
  ∀ fs fs', (∀ p, p ∈ ps → fs' !! p = fs !! p) → I fs → I fs'.
Definition avoids (e : mig_env) (dir prefix : string) (ps : list string) : Prop := ∀ n, me_temp e n dir prefix ∉ ps.

Lemma about_insert ps I q n fs : about ps I → q ∉ ps → I fs → I (<[q := n]> fs).
Proof. intros HI Hq. apply HI. intros p Hp. apply lookup_insert_ne. by intros ->. Qed.
Lemma about_delete ps I q fs : about ps I → q ∉ ps → I fs → I (delete q fs).
Proof. intros HI Hq. apply HI. intros p Hp. apply lookup_delete_ne. by intros ->. Qed.
Lemma about_weaken ps ps' I : about ps I → ps ⊆ ps' → about ps' I.
Proof. intros HI Hs fs fs' H. apply HI. auto. Qed.
Lemma about_and ps I J : about ps I → about ps J → about ps (λ fs, I fs ∧ J fs).
Proof. intros HI HJ fs fs' H [? ?]. split; [by eapply HI|by eapply HJ]. Qed.
Lemma about_or ps I J : about ps I → about ps J → about ps (λ fs, I fs ∨ J fs).
Proof. intros HI HJ fs fs' H [?|?]; [left; by eapply HI|right; by eapply HJ]. Qed.
Lemma about_lookup ps p (X : option node → Prop) : p ∈ ps → about ps (λ fs, X (fs !! p)).
Proof. intros Hp fs fs' H. by rewrite H. Qed.

Lemma tri_on_failure {A} P (m : run A) Q R' R e msg q :
  tri P m Q R' → (∀ fs, R' fs → R fs ∧ R (delete q fs)) →
  tri P (on_failure m (ignore_error (remove e msg q))) Q R.
Proof.
  intros Hm HR w Hw. specialize (Hm w Hw). unfold on_failure. destruct (m w) as [w1 [a|err]]; [done|].
  destruct (HR _ Hm) as [H1 H2].
  assert (Hc : ∀ w2 r, ignore_error (remove e msg q) w1 = (w2, r) → R (mw_fs w2)).
  { intros w2 r. unfold ignore_error, remove, sys. destruct (me_outcome e (mw_step w1)); cbn; try by intros [= <- _].
    destruct (mw_fs w1 !! q) as [[]|]; cbn; by intros [= <- _]. }
  destruct (ignore_error (remove e msg q) w1) as [w2 r] eqn:Ec. specialize (Hc _ _ eq_refl).
  destruct err; try done; destruct r as [|[]]; done.
Qed.
Lemma tri_with_temp {A} e dir prefix data (body : string → run A) ps I Q R' R :
  about ps I → avoids e dir prefix ps →
  (∀ n q, q = me_temp e n dir prefix → q ∉ ps → tri (λ fs, I fs ∧ fs !! q = Some (NFile data)) (body q) Q (R' q)) →
  (∀ q fs, q ∉ ps → I fs → R' q fs) →
  (∀ q fs, q ∉ ps → R' q fs → R fs ∧ R (delete q fs)) →
  (∀ fs, I fs → R fs) →
  tri I (with_temp e dir prefix data body) Q R.
Proof.
  intros HI Hav Hb H1 H2 H3. unfold with_temp.
  apply (tri_bind _ _ (λ q fs, I fs ∧ (∃ n, q = me_temp e n dir prefix) ∧ q ∉ ps)).
  { intros w Hw. unfold create_temp. set (p := me_temp e (mw_step w) dir prefix). assert (Hp : p ∉ ps) by apply Hav.
    assert (Ht : tri I (sys e "create temporary file" (λ fs, match fs !! p with None => Some (<[p := NFile ""]> fs, p) | Some _ => None end))
      (λ q fs, I fs ∧ (∃ n, q = me_temp e n dir prefix) ∧ q ∉ ps) R); [|exact (Ht w Hw)].
    apply tri_sys; [|done]. intros fs fs' q Hfs. destruct (fs !! p); [done|]. intros [= <- <-].
    split_and!; [by eapply about_insert|by eexists|done]. }
  intros q. apply tri_pure. intros [[k Hk] Hq]. eapply tri_on_failure; [|intros fs; apply (H2 q fs Hq)].
  assert (Hlook : ∀ B (m : run B), looks m (λ _ _, True) → tri I m (λ _, I) (R' q)).
  { intros B m Hm. eapply tri_looks; [exact Hm|done|]. intros fs. by apply H1. }
  eapply tri_bind; [by apply Hlook, looks_chmod|intros ?].
  apply (tri_bind _ _ (λ _ fs, I fs ∧ fs !! q = Some (NFile data))).
  { intros w Hw. unfold write_temp.
    assert (Hin : ∀ n, I (<[q := n]> (mw_fs w))) by (intros n; by eapply about_insert).
    destruct (me_outcome e (mw_step w)); cbn; [split; [apply Hin|apply lookup_insert_eq]|by apply H1..]. }
  intros _. assert (Hlook2 : ∀ B (m : run B), looks m (λ _ _, True) →
    tri (λ fs, I fs ∧ fs !! q = Some (NFile data)) m (λ _ fs, I fs ∧ fs !! q = Some (NFile data)) (R' q)).
  { intros B m Hm. eapply tri_looks; [exact Hm|done|]. intros fs [? _]. by apply H1. }
  eapply tri_bind; [by apply Hlook2, looks_nop|intros ?].
  eapply tri_bind; [by apply Hlook2, looks_nop|intros ?].
  eapply tri_bind; [by apply Hlook2, looks_chmod|intros ?]. by eapply Hb.
Qed.

(** The journal is replaced in one step. *)
Definition journal_is (jp : string) (j : StateMigrationJournal) (fs : tree) : Prop :=
  ∃ b, fs !! jp = Some (NFile b) ∧ decode_journal b = Some j ∧ validateMigrationJournal (Some j) jp = None.
Lemma tri_persist e j jp ps (F J : tree → Prop) :
  mj_JournalPath j = jp → journal_utf8 j = true →
  about ps F → jp ∉ ps → about [jp] J →
  avoids e (Dir jp) ("." +:+ Base jp +:+ ".tmp-") (jp :: ps) →
  tri (λ fs, F fs ∧ J fs) (persistMigrationJournal e j) (λ _ fs, F fs ∧ journal_is jp j fs) (λ fs, F fs ∧ J fs).
Proof.
  intros Hjp Hu HF Hps HJ Hav. unfold persistMigrationJournal. rewrite Hjp.
  set (I := λ fs, F fs ∧ J fs).
  assert (HI : about (jp :: ps) I).
  { apply about_and; [by eapply about_weaken; [exact HF|set_solver]|by eapply about_weaken; [exact HJ|set_solver]]. }
  apply (tri_bind _ _ (λ _ fs, I fs ∧ validateMigrationJournal (Some j) jp = None)); [by apply tri_guard|].
  intros _. apply tri_pure. intros Hv. destruct (marshal_journal j) as [data|] eqn:Ed; [|by apply tri_throw].
  apply (tri_with_temp e _ _ data _ (jp :: ps) I _ (λ _, I) I HI Hav); try done.
  - intros n q _ Hq. apply tri_sys; [|by intros fs [? _]]. intros fs fs' [] [Hfs Hd]. rewrite Hd.
    assert (Hgoal : F (<[jp := NFile data]> (delete q fs)) ∧ journal_is jp j (<[jp := NFile data]> (delete q fs))).
    { split; [eapply about_insert; [exact HF|done|]; eapply about_delete; [exact HF|set_solver|apply Hfs]|].
      exists data. rewrite lookup_insert_eq. split; [done|]. split; [|done]. by eapply decode_marshal_journal. }
    destruct (fs !! jp) as [[]|]; intros [= <-]; exact Hgoal.
  - intros q fs Hq HR. split; [done|]. by eapply about_delete.
Qed.
End writes.
