(* ===== verification/StateMigrationProps.v ===== *)
(** A migration of a state file never loses the v1 document: wherever a call fails or the
process is killed, the disk is in one of a few known stages, and recovery, itself
interruptible, stays in them. *)

From S2P Require Import Prelude GoStrings Digest GoEncoding Provider Paths Effects StateManifest StateMigration StateMigrationSteps.
#[local] Open Scope go_scope.

(** * Text *)

Lemma hex_byte_ascii c : hex_byte c = true → is_ascii c = true.
Proof.
  unfold hex_byte, is_digit, in_range, is_ascii.
  intros [[_ H%Z.leb_le]%andb_true_iff|[_ H%Z.leb_le]%andb_true_iff]%orb_true_iff; apply Z.ltb_lt; lia.
Qed.
Lemma hex_valid_utf8 s : str_forall hex_byte s = true → valid_utf8 s = true.
Proof. intros H. apply ascii_valid_utf8. revert H. apply str_forall_impl, hex_byte_ascii. Qed.

(** * Stages *)

Definition v2_temp (e : mig_env) (src : string) (n : nat) : string := me_temp e n (Dir src) ("." +:+ Base src +:+ ".v2-").
Definition journal_temp (e : mig_env) (jp : string) (n : nat) : string := me_temp e n (Dir jp) ("." +:+ Base jp +:+ ".tmp-").
Definition restore_temp (e : mig_env) (src : string) (n : nat) : string := me_temp e n (Dir src) ("." +:+ Base src +:+ ".restore-").
(** The temporary names for the journal and for a restored source avoid [ps]. *)
Definition clean_names (e : mig_env) (src jp : string) (ps : list string) : Prop := ∀ n,
  journal_temp e jp n ∉ ps ∧ restore_temp e src n ∉ ps.

Section stages.
Context {SH : SHA256} {SO : SortSlice} {ED : Ed25519} {MJ : MigrationJson}.
Context (src jp tmp operationID digest raw desired : string) (created : time).

Definition bak : string := src +:+ ".v1".
Definition v1 : option node := Some (NFile raw).
Definition v2 : option node := Some (NFile desired).
Definition the_journal : StateMigrationJournal := new_journal src jp tmp operationID digest raw desired created.

(** What can be found at the source, the backup and the temporary file in each phase. *)
Inductive stage : StateMigrationPhase → option node → option node → option node → Prop :=
| prepared_source b t : b ∈ [None; v1] → t ∈ [None; v2] → stage StateMigrationPhasePrepared v1 b t
| prepared_moved : stage StateMigrationPhasePrepared None v1 v2
| renamed_moved : stage StateMigrationPhaseBackupRenamed None v1 v2
| renamed_linked : stage StateMigrationPhaseBackupRenamed v2 v1 v2
| renamed_placed : stage StateMigrationPhaseBackupRenamed v2 v1 None
| committed_files : stage StateMigrationPhaseCommitted v2 v1 None
| marked_source b t : b ∈ [None; v1] → t ∈ [None; v2] → stage StateMigrationPhaseNeedsReconciliation v1 b t.

Definition phase_on (phase : StateMigrationPhase) (fs : tree) : Prop :=
  ∃ n, journal_is jp (with_migration_phase phase n the_journal) fs.
Definition holds (phase : StateMigrationPhase) (s b t : option node) (fs : tree) : Prop :=
  phase_on phase fs ∧ fs !! src = s ∧ fs !! bak = b ∧ fs !! tmp = t.
Definition at_stage (fs : tree) : Prop := ∃ phase s b t, stage phase s b t ∧ holds phase s b t fs.

Lemma at_stage_holds phase s b t fs : stage phase s b t → holds phase s b t fs → at_stage fs.
Proof. intros Hs Hh. by exists phase, s, b, t. Qed.
(** In every stage the v1 document is at the source or in the backup. *)
Lemma at_stage_v1 fs : at_stage fs → fs !! src = v1 ∨ fs !! bak = v1.
Proof. intros (ph & s & b & t & Hs & _ & <- & <- & _). inversion Hs; auto. Qed.

Context (e : mig_env).
Hypothesis Hpaths : NoDup [src; bak; tmp; jp].
Hypothesis Hutf8 : journal_utf8 the_journal = true.
Hypothesis Hnames : clean_names e src jp [src; bak; tmp; jp].

Lemma paths_ne : src ≠ bak ∧ src ≠ tmp ∧ src ≠ jp ∧ bak ≠ tmp ∧ bak ≠ jp ∧ tmp ≠ jp.
Proof.
  clear -Hpaths. pose proof Hpaths as H. apply NoDup_cons in H as [H1 H]. apply NoDup_cons in H as [H2 H].
  apply NoDup_cons in H as [H3 _]. split_and!; set_solver.
Qed.
Ltac other := let H := fresh in pose proof paths_ne as H; destruct_and! H; congruence.

Lemma phase_on_about phase : about [jp] (phase_on phase).
Proof. intros fs fs' H (n & b & Hb & Hd). exists n, b. rewrite H; [done|]. clear. set_solver. Qed.
Lemma phase_utf8 phase n :
  phase ∈ [StateMigrationPhasePrepared; StateMigrationPhaseBackupRenamed; StateMigrationPhaseCommitted;
    StateMigrationPhaseNeedsReconciliation] → journal_utf8 (with_migration_phase phase n the_journal) = true.
Proof.
  intros Hp. revert Hutf8. unfold journal_utf8. cbn [forallb]. intros H.
  repeat (apply andb_true_iff in H as [? H]). repeat (apply andb_true_iff; split); try done.
  set_unfold. naive_solver.
Qed.

(** The journal moves to another phase, or stays. *)
Lemma tri_phase phase phase' n s b t :
  phase' ∈ [StateMigrationPhasePrepared; StateMigrationPhaseBackupRenamed; StateMigrationPhaseCommitted;
    StateMigrationPhaseNeedsReconciliation] →
  tri (holds phase s b t) (persistMigrationJournal e (with_migration_phase phase' n the_journal))
    (λ _, holds phase' s b t) (holds phase s b t).
Proof.
  intros Hp. eapply tri_conseq.
  - apply (tri_persist e (with_migration_phase phase' n the_journal) jp [src; bak; tmp]
      (λ fs, fs !! src = s ∧ fs !! bak = b ∧ fs !! tmp = t) (phase_on phase)); [done|by apply phase_utf8| | |apply phase_on_about|].
    + apply about_and; [|apply about_and]; apply (about_lookup _ _ (λ x, x = _)); set_solver.
    + pose proof paths_ne. set_solver.
    + intros k Hk. apply (proj1 (Hnames k)). set_solver.
  - unfold holds. tauto.
  - intros _ fs [H Hj]. split; [by exists n|done].
  - unfold holds. tauto.
Qed.
Lemma tri_mark {A} b t phase n now (Q : unit → tree → Prop) :
  b ∈ [None; v1] → t ∈ [None; v2] → stage phase v1 b t →
  tri (holds phase v1 b t) (markMigrationNeedsReconciliation e (with_migration_phase A n the_journal) now) Q at_stage.
Proof.
  intros Hb Ht Hs. unfold markMigrationNeedsReconciliation. eapply tri_bind.
  - eapply tri_conseq; [apply (tri_phase phase StateMigrationPhaseNeedsReconciliation now v1 b t); set_solver|done|done|].
    intros fs. by apply at_stage_holds.
  - intros u. apply tri_throw. intros fs. by apply at_stage_holds; constructor.
Qed.
(** Looking first. *)
Lemma tri_look {A B} (m : run A) v (P R : tree → Prop) (f : A → run B) (Q : B → tree → Prop) :
  looks m v → (∀ fs, P fs → R fs) → (∀ a, tri (λ fs, P fs ∧ v fs a) (f a) Q R) → tri P (bind m f) Q R.
Proof. intros Hm HR Hf. eapply tri_bind; [|exact Hf]. eapply tri_looks; [exact Hm|done|done]. Qed.
Lemma tri_look_at {A B} (m : run A) (g : option node → option node → option node → A) phase s b t (f : A → run B) (Q : B → tree → Prop) R :
  looks m (λ fs a, a = g (fs !! src) (fs !! bak) (fs !! tmp)) → (∀ fs, holds phase s b t fs → R fs) →
  tri (holds phase s b t) (f (g s b t)) Q R → tri (holds phase s b t) (bind m f) Q R.
Proof.
  intros Hm HR Hf. eapply tri_look; [exact Hm|done|]. intros a w [Hw Ha]. pose proof Hw as (_ & E1 & E2 & E3).
  rewrite E1, E2, E3 in Ha. subst a. by apply Hf.
Qed.
Lemma tri_skip {A B} (m : run A) phase s b t (f : A → run B) (Q : B → tree → Prop) R :
  looks m (λ _ _, True) → (∀ fs, holds phase s b t fs → R fs) →
  (∀ a, tri (holds phase s b t) (f a) Q R) → tri (holds phase s b t) (bind m f) Q R.
Proof. intros Hm HR Hf. eapply tri_look; [exact Hm|done|]. intros a w [Hw _]. by apply Hf. Qed.

(** * Steps that change one file *)

Lemma holds_update phase s b t fs fs' s' b' t' :
  holds phase s b t fs → fs' !! jp = fs !! jp → fs' !! src = s' → fs' !! bak = b' → fs' !! tmp = t' → holds phase s' b' t' fs'.
Proof. intros [Hp _] Hj Hs Hb Ht. split; [|done]. eapply phase_on_about; [|exact Hp]. clear -Hj. set_solver. Qed.
Ltac update :=
  let H := fresh in pose proof paths_ne as H; destruct_and! H;
  eapply holds_update; [eassumption|..]; unfold holds in *; destruct_and?;
  rewrite ?lookup_insert_eq, ?lookup_delete_eq, ?lookup_insert_ne, ?lookup_delete_ne by congruence; try first [congruence|done].

Lemma holds_no_temp phase s b t fs : holds phase s b t fs → holds phase s b None (delete tmp fs).
Proof. clear -Hpaths. intros H. update. Qed.
Lemma tri_link P from to (Q R : tree → Prop) :
  (∀ fs b, P fs → fs !! from = Some (NFile b) → fs !! to = None → Q (<[to := NFile b]> fs)) → (∀ fs, P fs → R fs) →
  tri P (linkMigrationExclusively e from to) (λ _, Q) R.
Proof.
  intros HQ HR. unfold linkMigrationExclusively. eapply tri_look; [apply looks_ancestors|done|]. intros u.
  apply tri_sys; [|by intros fs [? _]; apply HR]. intros fs fs' [] [Hfs _].
  destruct (fs !! from) as [[]|] eqn:Ef; try done. destruct (fs !! to) eqn:Et; [done|]. intros [= <-]. by apply HQ.
Qed.
Lemma tri_remove P msg p (Q R : tree → Prop) :
  (∀ fs b, P fs → fs !! p = Some (NFile b) → Q (delete p fs)) → (∀ fs, P fs → R fs) →
  tri P (remove e msg p) (λ _, Q) R.
Proof.
  intros HQ HR. apply tri_sys; [|done]. intros fs fs' [] Hfs.
  destruct (fs !! p) as [[]|] eqn:Ef; try done. intros [= <-]. by eapply HQ.
Qed.

(** The v1 source is preserved: linked to the backup, then removed. *)
Lemma tri_preserve n :
  tri (holds StateMigrationPhasePrepared v1 None v2)
    (preserveMigrationSourceExclusively e (with_migration_phase StateMigrationPhasePrepared n the_journal))
    (λ _, holds StateMigrationPhasePrepared None v1 v2) at_stage.
Proof.
  assert (H1 : ∀ fs, holds StateMigrationPhasePrepared v1 None v2 fs → at_stage fs)
    by (intros fs; apply at_stage_holds; constructor; set_solver).
  assert (H2 : ∀ fs, holds StateMigrationPhasePrepared v1 v1 v2 fs → at_stage fs)
    by (intros fs; apply at_stage_holds; constructor; set_solver).
  unfold preserveMigrationSourceExclusively. apply tri_skip; [apply looks_ancestors|done|intros u0].
  apply tri_skip; [by eapply looks_weaken; [apply looks_unchanged|]|done|intros u1].
  eapply tri_look; [apply looks_exists|done|intros ex]. destruct ex; [by apply tri_throw; intros fs [? _]; apply H1|].
  eapply (tri_bind _ _ (λ _, holds StateMigrationPhasePrepared v1 v1 v2)).
  { change (linkMigrationExclusively e _ _) with (linkMigrationExclusively e src bak).
    apply tri_link; [|by intros fs [? _]; apply H1]. intros fs b [Hfs _] Ef Et.
    assert (Some (NFile b) = v1) as Eb by (unfold holds in Hfs; destruct_and! Hfs; congruence). update. }
  intros u2. apply tri_skip; [by eapply looks_weaken; [apply looks_unchanged|]|done|intros u3].
  apply tri_skip; [apply looks_ancestors|done|intros u4].
  apply tri_skip; [by eapply looks_weaken; [apply looks_unchanged|]|done|intros u5].
  change (mj_SourcePath _) with src. apply tri_remove; [|done]. intros fs b Hfs Ef. update.
Qed.

(** The v2 document is placed: linked to the source, then its temporary name removed. *)
Lemma tri_place (R : tree → Prop) :
  (∀ fs, holds StateMigrationPhaseBackupRenamed None v1 v2 fs → R fs) →
  (∀ fs, holds StateMigrationPhaseBackupRenamed v2 v1 v2 fs → R fs) →
  tri (holds StateMigrationPhaseBackupRenamed None v1 v2) (commitMigrationTempExclusively e tmp src)
    (λ _, holds StateMigrationPhaseBackupRenamed v2 v1 None) R.
Proof.
  intros H1 H2. unfold commitMigrationTempExclusively. eapply (tri_bind _ _ (λ _, holds StateMigrationPhaseBackupRenamed v2 v1 v2)).
  - apply tri_link; [|done]. intros fs b Hfs Ef Et.
    assert (Some (NFile b) = v2) as Eb by (unfold holds in Hfs; destruct_and! Hfs; congruence). update.
  - intros u. apply tri_remove; [|done]. intros fs b Hfs Ef. update.
Qed.
Lemma tri_remove_temp phase n s b (R : tree → Prop) :
  (∀ fs, holds phase s b v2 fs → R fs) →
  tri (holds phase s b v2) (remove_temp e (with_migration_phase phase n the_journal)) (λ _, holds phase s b None) R.
Proof.
  intros HR. unfold remove_temp, removeMigrationFileIfExact. change (mj_TempPath _) with tmp.
  apply tri_skip; [apply looks_ancestors|done|intros u].
  apply tri_skip; [by eapply looks_weaken; [apply looks_inspect|]|done|intros i].
  destruct (negb _); [by apply tri_throw|]. apply tri_remove; [|done]. intros fs d Hfs Ef. update.
Qed.
(** The v1 document is put back at the source from the backup. *)
Lemma tri_restore n :
  tri (holds StateMigrationPhasePrepared None v1 v2)
    (restoreMigrationSourceFromBackup e (with_migration_phase StateMigrationPhasePrepared n the_journal))
    (λ _, holds StateMigrationPhasePrepared v1 v1 v2) at_stage.
Proof.
  assert (H1 : ∀ fs, holds StateMigrationPhasePrepared None v1 v2 fs → at_stage fs)
    by (intros fs; apply at_stage_holds; constructor).
  assert (H2 : ∀ fs, holds StateMigrationPhasePrepared v1 v1 v2 fs → at_stage fs)
    by (intros fs; apply at_stage_holds; constructor; set_solver).
  unfold restoreMigrationSourceFromBackup. change (mj_SourcePath _) with src. change (mj_BackupPath _) with bak.
  apply tri_skip; [by eapply looks_weaken; [apply looks_exists|]|done|intros [|]]; [by apply tri_throw|].
  apply tri_skip; [apply looks_chmod|done|intros u].
  eapply tri_look; [apply looks_regular|done|intros data]. cbv beta.
  apply (tri_pre _ (λ fs, holds StateMigrationPhasePrepared None v1 v2 fs ∧ data = raw)).
  2:{ intros fs [Hfs Hd]. split; [done|]. unfold holds, v1 in Hfs. destruct_and! Hfs. congruence. }
  apply tri_pure. intros ->. destruct (_ || _); [by apply tri_throw|].
  assert (Habout : ∀ s b t, about [src; bak; tmp; jp] (holds StateMigrationPhasePrepared s b t)).
  { intros s b t fs fs' H Hh. pose proof Hh as (_ & <- & <- & <-).
    eapply holds_update; [exact Hh|apply H; set_solver..]. }
  eapply (tri_with_temp e _ _ raw _ [src; bak; tmp; jp] (holds StateMigrationPhasePrepared None v1 v2) _
    (λ _ fs, holds StateMigrationPhasePrepared None v1 v2 fs ∨ holds StateMigrationPhasePrepared v1 v1 v2 fs)).
  - apply Habout.
  - intros k. apply (Hnames k).
  - intros k q _ Hq. unfold commitMigrationTempExclusively.
    eapply (tri_bind _ _ (λ _, holds StateMigrationPhasePrepared v1 v1 v2)).
    + apply tri_link; [|by intros fs [? _]; left]. intros fs b [Hfs Hd] Ef Et. rewrite Hd in Ef. injection Ef as <-. update.
    + intros u'. apply tri_remove; [|by right]. intros fs b Hfs _. by eapply about_delete; [apply Habout| |].
  - by left.
  - intros q fs Hq [Hfs|Hfs].
    + split; [by apply H1|]. apply H1. by eapply about_delete; [apply Habout| |].
    + split; [by apply H2|]. apply H2. by eapply about_delete; [apply Habout| |].
  - done.
Qed.

Lemma tri_finish n now :
  tri (holds StateMigrationPhaseBackupRenamed v2 v1 None)
    (run! validateCommittedMigrationFiles e (with_migration_phase StateMigrationPhaseBackupRenamed n the_journal);
     finish e (with_migration_phase StateMigrationPhaseBackupRenamed n the_journal) now)
    (λ _, holds StateMigrationPhaseCommitted v2 v1 None) at_stage.
Proof.
  assert (H1 : ∀ fs, holds StateMigrationPhaseBackupRenamed v2 v1 None fs → at_stage fs)
    by (intros fs; apply at_stage_holds; constructor).
  apply tri_skip; [by eapply looks_weaken; [apply looks_committed_files|]|done|intros u].
  eapply tri_conseq; [apply (tri_phase StateMigrationPhaseBackupRenamed StateMigrationPhaseCommitted now); set_solver|done|done|done].
Qed.

Lemma is_source_v1 ph n : is_source (with_migration_phase ph n the_journal) (info_of v1) = true.
Proof. unfold is_source, matches. cbn. by rewrite Z.eqb_refl, bool_decide_true. Qed.

(** * What the checks say in a stage: the documents have different digests *)

Hypothesis Hne : migrationHash raw ≠ migrationHash desired.
Lemma is_desired_v2 ph n : is_desired (with_migration_phase ph n the_journal) (info_of v2) = true.
Proof. unfold is_desired, matches. cbn. by rewrite Z.eqb_refl, bool_decide_true. Qed.
Lemma is_desired_v1 ph n : is_desired (with_migration_phase ph n the_journal) (info_of v1) = false.
Proof. unfold is_desired, matches. cbn. rewrite (bool_decide_false (migrationHash raw = _)) by done. apply andb_false_r. Qed.
Lemma is_source_v2 ph n : is_source (with_migration_phase ph n the_journal) (info_of v2) = false.
Proof. unfold is_source, matches. cbn. rewrite (bool_decide_false (migrationHash desired = _)) by congruence. apply andb_false_r. Qed.
Ltac infos := rewrite ?is_source_v1, ?is_desired_v2, ?is_desired_v1, ?is_source_v2; cbn [info_of mi_exists negb andb].

(** * Recovery *)

Lemma tri_checked {B} phase s b t ph n ok (f : bool → run B) (Q : B → tree → Prop) R :
  (∀ fs, holds phase s b t fs → R fs) →
  tri (holds phase s b t) (f (ok (info_of s) (info_of b) (info_of t))) Q R →
  tri (holds phase s b t) (bind (checked e (with_migration_phase ph n the_journal) ok) f) Q R.
Proof.
  intros HR Hf. apply (tri_look_at _ (λ s b t, ok (info_of s) (info_of b) (info_of t))); [|done|done].
  apply looks_checked.
Qed.
Lemma tri_committed n now :
  tri (holds StateMigrationPhaseCommitted v2 v1 None)
    (recover_committed e (with_migration_phase StateMigrationPhaseCommitted n the_journal) now (ret ()))
    (λ _, holds StateMigrationPhaseCommitted v2 v1 None) at_stage.
Proof.
  assert (H1 : ∀ fs, holds StateMigrationPhaseCommitted v2 v1 None fs → at_stage fs)
    by (intros fs; apply at_stage_holds; constructor).
  unfold recover_committed, if_current, migrationCommittedStateMatches. apply tri_checked; [done|]. infos.
  apply tri_skip; [apply looks_chmod|done|intros u1]. apply tri_skip; [apply looks_chmod|done|intros u2].
  apply tri_skip; [by eapply looks_weaken; [apply looks_committed_files|]|done|intros u3]. by apply tri_ret.
Qed.
Lemma tri_recover_prepared s b t n now :
  stage StateMigrationPhasePrepared s b t →
  tri (holds StateMigrationPhasePrepared s b t)
    (recover_prepared e (with_migration_phase StateMigrationPhasePrepared n the_journal) now (info_of s) (info_of b) (info_of t))
    (λ _, holds StateMigrationPhaseCommitted v2 v1 None) at_stage.
Proof.
  intros Hs. assert (HR : ∀ fs, holds StateMigrationPhasePrepared s b t fs → at_stage fs) by (intros fs; by apply at_stage_holds).
  unfold recover_prepared. inversion Hs as [b' t' Hb Ht| | | | | |]; subst; infos.
  - assert (b = None ∨ b = v1) as [-> | ->] by set_solver; assert (t = None ∨ t = v2) as [-> | ->] by set_solver;
      infos; try (apply tri_mark; set_solver).
    unfold if_current, migrationRollbackInputsMatch. apply tri_checked; [done|]. infos.
    apply tri_skip; [apply looks_chmod|done|intros u].
    eapply tri_bind; [by apply tri_remove_temp|intros u']. apply tri_mark; [set_solver..|]. constructor; set_solver.
  - unfold if_current, migrationRecoveryCommitInputsMatch. apply tri_checked; [done|]. infos.
    eapply tri_bind; [by apply tri_restore|intros u]. eapply tri_bind; [apply tri_remove_temp|intros u'].
    + intros fs. apply at_stage_holds. constructor; set_solver.
    + apply tri_mark; [set_solver..|]. constructor; set_solver.
Qed.
Lemma tri_recover_renamed s b t n now :
  stage StateMigrationPhaseBackupRenamed s b t →
  tri (holds StateMigrationPhaseBackupRenamed s b t)
    (recover_renamed e (with_migration_phase StateMigrationPhaseBackupRenamed n the_journal) now (info_of s) (info_of b) (info_of t))
    (λ _, holds StateMigrationPhaseCommitted v2 v1 None) at_stage.
Proof.
  intros Hs. assert (HR : ∀ fs, holds StateMigrationPhaseBackupRenamed s b t fs → at_stage fs) by (intros fs; by apply at_stage_holds).
  unfold recover_renamed. inversion Hs; subst; infos.
  - unfold if_current, migrationRecoveryCommitInputsMatch. apply tri_checked; [done|]. infos.
    apply tri_skip; [apply looks_chmod|done|intros u].
    eapply tri_bind; [apply tri_place; intros fs; apply at_stage_holds; constructor|intros u']. apply tri_finish.
  - unfold if_current, migrationCommittedInputsMatch. apply tri_checked; [done|]. infos.
    apply tri_skip; [apply looks_chmod|done|intros u]. apply tri_skip; [apply looks_chmod|done|intros u'].
    eapply tri_bind; [by apply tri_remove_temp|intros u'']. apply tri_finish.
  - unfold recover_committed, if_current, migrationCommittedStateMatches. apply tri_checked; [done|]. infos.
    apply tri_skip; [apply looks_chmod|done|intros u]. apply tri_skip; [apply looks_chmod|done|intros u'].
    apply tri_finish.
Qed.

(** The journal read back is the one the stage says. *)
Lemma holds_journal phase s b t fs j d :
  holds phase s b t fs → fs !! jp = Some (NFile d) → decode_journal d = Some j →
  ∃ n, j = with_migration_phase phase n the_journal.
Proof. intros ((n & d' & Hd' & Hj & _) & _) Hd Hjd. exists n. congruence. Qed.

Lemma tri_recover now :
  tri at_stage (RecoverStateMigration e jp now) (λ _, holds StateMigrationPhaseCommitted v2 v1 None) at_stage.
Proof.
  apply tri_exists; intros phase. apply tri_exists; intros s. apply tri_exists; intros b. apply tri_exists; intros t.
  intros w [Hs Hw]. revert w Hw.
  assert (HR : ∀ fs, holds phase s b t fs → at_stage fs) by (intros fs; by apply at_stage_holds).
  change (tri (holds phase s b t) (RecoverStateMigration e jp now) (λ _, holds StateMigrationPhaseCommitted v2 v1 None) at_stage).
  unfold RecoverStateMigration. apply tri_skip; [by eapply looks_weaken; [apply looks_guard|]|done|intros u1].
  eapply tri_look; [apply looks_load_journal|done|intros j]. cbv beta.
  apply (tri_pre _ (λ fs, holds phase s b t fs ∧ ∃ n, j = with_migration_phase phase n the_journal)).
  2:{ intros fs (Hh & d & Hd & Hj). split; [done|]. by eapply holds_journal. }
  apply tri_pure. intros (n & ->). apply tri_skip; [by eapply looks_weaken; [apply looks_guard|]|done|intros u2].
  apply tri_skip; [apply looks_ancestors|done|intros u3].
  change (mj_Phase (with_migration_phase phase n the_journal)) with phase.
  case_bool_decide as Hnr; [by apply tri_throw|].
  apply (tri_look_at _ (λ s b t, (info_of s, info_of b, info_of t))); [apply looks_inspect_all|done|].
  inversion Hs; subst; cbn [bool_decide]; try done.
  - apply tri_recover_prepared. by constructor.
  - apply tri_recover_prepared. by constructor.
  - apply tri_recover_renamed. by constructor.
  - apply tri_recover_renamed. by constructor.
  - apply tri_recover_renamed. by constructor.
  - infos. apply tri_committed.
Qed.
End stages.

(** * The migration, from a v1 file *)

Section migrate.
Context {SH : SHA256} {SO : SortSlice} {ED : Ed25519} {MJ : MigrationJson}.
Context (e : mig_env) (src jp operationID raw : string) (created : time).

(** No journal, no backup: the source is as before. *)
Definition untouched (fs : tree) : Prop := fs !! src = Some (NFile raw) ∧ fs !! bak src = None ∧ fs !! jp = None.
Definition texts_ok : Prop := Forall (λ s, valid_utf8 s = true) [src; bak src; jp; operationID].
(** [os.CreateTemp] makes up names: none is one of the state's files or, for the journal and a
restored source, a name for the v2 document. *)
Definition names_ok : Prop := ∀ m,
  valid_utf8 (v2_temp e src m) = true ∧ v2_temp e src m ∉ [src; bak src; jp] ∧
  clean_names e src jp [src; bak src; v2_temp e src m; jp].
(** The migration was cut short: what recovery finds. *)
Definition interrupted (digest desired : string) (fs : tree) : Prop :=
  ∃ m, at_stage src jp (v2_temp e src m) operationID digest raw desired created fs.

Hypothesis Htexts : texts_ok.
Hypothesis Hnames : names_ok.

Lemma src_ne_bak : src ≠ bak src.
Proof. intros H. apply (f_equal String.length) in H. unfold bak in H. rewrite str_length_app in H. simpl in H. lia. Qed.
Lemma journal_texts tmp digest desired :
  valid_utf8 tmp = true → valid_utf8 digest = true →
  journal_utf8 (the_journal src jp tmp operationID digest raw desired created) = true.
Proof.
  intros Ht Hd. pose proof Htexts as H. unfold texts_ok in H. rewrite !Forall_cons in H. destruct_and! H.
  assert (Hh : ∀ x, valid_utf8 (migrationHash x) = true).
  { intros x. apply hex_valid_utf8. apply hex_encode_hex. }
  unfold journal_utf8. cbn. unfold bak in *. repeat (apply andb_true_iff; split); done || apply Hh.
Qed.
Lemma digest_text m digest : migrationManifestDigest m = Ok digest → valid_utf8 digest = true.
Proof.
  unfold migrationManifestDigest. intros H. apply result_bind_Ok in H as (c & _ & [= <-]).
  apply ascii_valid_utf8. rewrite str_forall_app. apply andb_true_iff. split; [done|].
  eapply str_forall_impl; [apply hex_byte_ascii|apply hex_encode_hex].
Qed.

Section files.
Context (digest desired : string).
Hypothesis Hjp : jp ≠ src ∧ jp ≠ bak src.
Hypothesis Hdigest : valid_utf8 digest = true.

Definition outcome_of (fs : tree) : Prop := untouched fs ∨ interrupted digest desired fs.
Definition finished (fs : tree) : Prop :=
  ∃ m, holds src jp (v2_temp e src m) operationID digest raw desired created StateMigrationPhaseCommitted
    (v2 desired) (v1 raw) None fs.
Lemma paths_of m : NoDup [src; bak src; v2_temp e src m; jp].
Proof.
  destruct (Hnames m) as (_ & Hm & _). pose proof src_ne_bak. destruct Hjp. repeat constructor; set_solver.
Qed.
Lemma tri_switch m :
  let j := the_journal src jp (v2_temp e src m) operationID digest raw desired created in
  tri (holds src jp (v2_temp e src m) operationID digest raw desired created StateMigrationPhasePrepared (v1 raw) None (v2 desired))
    (switch_files e j created) (λ _, finished) outcome_of.
Proof.
  intros j. destruct (Hnames m) as (Hu & _ & Hc). pose proof (paths_of m) as Hp.
  pose proof (journal_texts _ digest desired Hu Hdigest) as Ht. set (tmp := v2_temp e src m) in *.
  set (at_ := at_stage src jp tmp operationID digest raw desired created).
  assert (Hat : ∀ fs, at_ fs → outcome_of fs) by (intros fs H; right; by exists m).
  apply (tri_conseq _ (holds src jp tmp operationID digest raw desired created StateMigrationPhasePrepared (v1 raw) None (v2 desired))
    _ _ (λ _, holds src jp tmp operationID digest raw desired created StateMigrationPhaseCommitted (v2 desired) (v1 raw) None) _ at_);
    [|done|by intros _ fs H; exists m|done].
  unfold switch_files, j. eapply tri_bind; [by eapply (tri_preserve src jp tmp operationID digest raw desired created e) with (n := created)|intros u1].
  assert (H1 : ∀ fs, holds src jp tmp operationID digest raw desired created StateMigrationPhasePrepared None (v1 raw) (v2 desired) fs → at_ fs)
    by (intros fs; apply at_stage_holds; constructor).
  apply tri_skip; [apply looks_chmod|done|intros u2]. cbv zeta.
  eapply tri_bind.
  { eapply tri_conseq; [apply (tri_phase src jp tmp operationID digest raw desired created e Hp Ht Hc
      StateMigrationPhasePrepared StateMigrationPhaseBackupRenamed created); set_solver|done|done|done]. }
  intros u3.
  assert (H2 : ∀ fs, holds src jp tmp operationID digest raw desired created StateMigrationPhaseBackupRenamed None (v1 raw) (v2 desired) fs → at_ fs)
    by (intros fs; apply at_stage_holds; constructor).
  eapply (tri_bind _ _ (λ _, holds src jp tmp operationID digest raw desired created StateMigrationPhaseBackupRenamed None (v1 raw) (v2 desired))).
  { unfold validateMigrationBackupAfterRename. apply tri_skip; [apply looks_ancestors|done|intros u].
    apply (tri_look_at _ _ _ _ _ _ _ _ _ (λ _ b _, info_of b)); [by eapply looks_weaken; [apply looks_inspect|by intros fs i [-> _]]|done|].
    rewrite is_source_v1. by apply tri_ret. }
  intros u4. eapply tri_bind; [eapply (tri_place src jp tmp operationID digest raw desired created e); try done|intros u5].
  - intros fs. apply at_stage_holds. constructor.
  - by eapply (tri_finish src jp tmp operationID digest raw desired created e).
Qed.

(** From the look at the journal on. *)
Lemma untouched_about : about [src; bak src; jp] untouched.
Proof. intros fs fs' H (H1 & H2 & H3). unfold untouched. rewrite !H by set_solver. done. Qed.
Lemma tri_first_journal m :
  let tmp := v2_temp e src m in
  tri (λ fs, untouched fs ∧ fs !! tmp = Some (NFile desired))
    (persistMigrationJournal e (new_journal src jp tmp operationID digest raw desired created))
    (λ _, holds src jp tmp operationID digest raw desired created StateMigrationPhasePrepared (v1 raw) None (v2 desired)) untouched.
Proof.
  intros tmp. destruct (Hnames m) as (Hu & Hm & Hc).
  pose proof (journal_texts _ digest desired Hu Hdigest) as Ht.
  eapply tri_conseq.
  - apply (tri_persist e (the_journal src jp tmp operationID digest raw desired created) jp [src; bak src; tmp]
      (λ fs, fs !! src = v1 raw ∧ fs !! bak src = None ∧ fs !! tmp = v2 desired) (λ fs, fs !! jp = None)); [done|done| | | |].
    + apply about_and; [|apply about_and]; apply (about_lookup _ _ (λ x, x = _)); set_solver.
    + destruct Hjp. set_solver.
    + apply (about_lookup _ _ (λ x, x = None)). set_solver.
    + intros k Hk. apply (proj1 (Hc k)). fold tmp. set_solver.
  - unfold untouched. intros fs [(? & ? & ?) ?]. done.
  - intros _ fs [H Hj]. split; [by exists created|done].
  - unfold untouched. intros fs [(? & ? & ?) ?]. done.
Qed.
Lemma tri_migrate_files :
  tri untouched (migrate_files e src jp operationID digest raw desired created) (λ _, finished) outcome_of.
Proof.
  assert (H0 : ∀ fs, untouched fs → outcome_of fs) by (intros fs; by left).
  unfold migrate_files. eapply tri_look; [apply looks_journal_present|done|intros [j|]].
  { intros w [(_ & _ & Hn) (d & Hd & _)]. congruence. }
  eapply (tri_look _ _ _ _ _ _ (looks_exists e _)); [by intros fs [? _]; apply H0|intros [|]].
  { apply tri_throw. intros fs [[? _] _]. by apply H0. }
  apply (tri_pre _ untouched); [|by intros fs [[? _] _]].
  eapply (tri_bind _ _ (λ j fs, ∃ m, (let tmp := v2_temp e src m in
    holds src jp tmp operationID digest raw desired created StateMigrationPhasePrepared (v1 raw) None (v2 desired) fs) ∧
    j = the_journal src jp (v2_temp e src m) operationID digest raw desired created)).
  2:{ intros j. apply tri_exists; intros m. apply tri_pure. intros ->. apply tri_switch. }
  eapply (tri_with_temp e _ _ desired _ [src; bak src; jp] untouched _
    (λ q fs, untouched fs ∨ ∃ m, q = v2_temp e src m ∧
      holds src jp q operationID digest raw desired created StateMigrationPhasePrepared (v1 raw) None (v2 desired) fs)).
  - apply untouched_about.
  - intros m. apply (Hnames m).
  - intros m q Hq Hqs. change (q = v2_temp e src m) in Hq. subst q. cbv zeta. eapply tri_bind.
    { eapply tri_conseq; [apply tri_first_journal|done|done|]. intros fs. by left. }
    intros u. apply tri_skip; [apply looks_chmod|intros fs H; right; by exists m|intros u']. apply tri_ret. intros fs H. by exists m.
  - intros q fs _ H. by left.
  - intros q fs Hq [H|(m & -> & H)].
    + split; apply H0; [done|]. by eapply about_delete; [apply untouched_about| |].
    + split; right; exists m; [eapply at_stage_holds; [|exact H]; constructor; set_solver|].
      eapply (at_stage_holds _ _ _ _ _ _ _ _ _ _ _ None); [apply (prepared_source _ _ None None); set_solver|].
      eapply holds_no_temp; [apply paths_of|exact H].
  - done.
Qed.
End files.

Lemma looks_row m : looks (stateManifestRowForPath e m src) (λ _ _, True).
Proof.
  intros w. unfold stateManifestRowForPath, bind, gets. destruct (canonicalizeStateManifestRoot _ _ _); [|done].
  destruct (negb _); [done|]. destruct (below _ _); [|done]. by destruct (List.find _ _).
Qed.
Lemma looks_try_committed m err v : looks m v → looks (try_committed e m err) (λ fs _, v fs true).
Proof.
  intros Hm w. unfold try_committed. destruct (Hm w) as [H1 H2].
  destruct (m w) as [w' [[]|[]]]; cbn in *; (split; [done|]); intros a Ha; try done. by apply H2.
Qed.
Lemma request_paths_ne journalPath :
  validateMigrationRequestPaths src journalPath = None → journalPath ≠ src ∧ journalPath ≠ bak src.
Proof.
  unfold validateMigrationRequestPaths, validateMigrationPaths. rewrite !err_seq_None, !err_if_None.
  intros (_ & _ & _ & _ & H). rewrite err_seq_None, err_if_None in H. destruct H as (_ & H & _). by split_bools.
Qed.

(** The v2 document of the v1 one. *)
Definition upgrade_of (manifest : option StateManifest) (digest desired : string) : Prop :=
  migrationManifestDigest manifest = Ok digest ∧ ∃ object,
  decodeV1StateObject raw = Ok object ∧ desired_of object digest = Some desired.
Definition migrated (manifest : option StateManifest) (fs : tree) : Prop :=
  ∃ digest desired, upgrade_of manifest digest desired ∧ finished digest desired fs.
Definition safe (manifest : option StateManifest) (fs : tree) : Prop :=
  untouched fs ∨ ∃ digest desired, upgrade_of manifest digest desired ∧ interrupted digest desired fs.
Lemma tri_migrate manifest pk role audience :
  tri untouched (MigrateStateFileV1ToV2 e src jp manifest pk role audience operationID created) (λ _, migrated manifest) (safe manifest).
Proof.
  assert (H0 : ∀ fs, untouched fs → safe manifest fs) by (intros fs; by left).
  assert (Hskip : ∀ A B (m : run A) v (f : A → run B) Q, looks m v → (∀ a, (∃ fs, v fs a) → tri untouched (f a) Q (safe manifest)) →
    tri untouched (bind m f) Q (safe manifest)).
  { intros A B m v f Q Hm Hf. eapply tri_look; [exact Hm|done|]. intros a w [Hw Hv]. apply Hf; eauto. }
  unfold MigrateStateFileV1ToV2. apply (tri_bind _ _ (λ _, untouched)); [by intros w Hw|intros fs0].
  destruct (VerifyStateManifest _ _ _ _ _ _ _ _) as [err|].
  { destruct (migrationManifestDigest manifest) as [digest|]; [|by apply tri_throw].
    eapply tri_looks; [eapply looks_try_committed, looks_committed_matches|cbv beta|done].
    intros _ fs (_ & _ & Hn) Hs. rewrite Hn in Hs. by destruct (Hs eq_refl). }
  destruct (migrationManifestDigest manifest) as [digest|] eqn:Ed; [|by apply tri_throw].
  apply (tri_bind _ _ (λ d fs, untouched fs ∧ d = digest)); [by apply tri_ret|]. intros d. apply tri_pure. intros ->.
  destruct manifest as [m|]; [|by apply tri_throw].
  eapply Hskip; [apply looks_guard|intros _ [_ Hp]]. eapply Hskip; [apply looks_guard|intros _ _].
  eapply Hskip; [apply looks_ancestors|intros _ _].
  eapply tri_look; [apply looks_regular|done|intros data]. apply (tri_pre _ (λ fs, untouched fs ∧ data = raw)).
  2:{ intros fs [Hu Hd]. split; [done|]. destruct Hu as [Hs _]. congruence. }
  apply tri_pure. intros ->. eapply Hskip; [apply looks_row|intros row _]. destruct (_ || _); [by apply tri_throw|].
  apply (tri_bind _ _ (λ o fs, untouched fs ∧ decodeV1StateObject raw = Ok o)); [by apply tri_lift; auto|].
  intros object. apply tri_pure. intros Eo.
  destruct (desired_of object digest) as [desired|] eqn:Eds; [|by apply tri_throw].
  eapply Hskip; [apply looks_guard|intros _ _].
  eapply tri_conseq; [apply (tri_migrate_files digest desired); [by apply request_paths_ne|by eapply digest_text]|done| |].
  - intros u fs H. exists digest, desired. split; [split; [done|by exists object]|done].
  - intros fs [H|H]; [by left|right]. exists digest, desired. split; [split; [done|by exists object]|done].
Qed.

(** C27: A migration of a v1 file is safe at every step: started with no journal and no backup,
whatever call fails and wherever the process is killed, it ends either with success, and then
the v2 document (the same members, the new schema and the manifest's digest) is at the source,
the v1 bytes are in the backup, the temporary file is gone and a committed journal says so;
or with an error, and then either source, backup and journal are as before, or the journal and
the files are in one of the known stages, each of which has the v1 bytes at the source or in
the backup. *)
Theorem migration_crash_safe manifest pk role audience w w' r :
  untouched (mw_fs w) →
  MigrateStateFileV1ToV2 e src jp manifest pk role audience operationID created w = (w', r) →
  match r with
  | Ok _ => migrated manifest (mw_fs w')
  | Err _ => safe manifest (mw_fs w')
  end.
Proof. intros Hw E. pose proof (tri_migrate manifest pk role audience w Hw) as H. rewrite E in H. by destruct r. Qed.
End migrate.
