(* ===== verification/StateMigrationRecovery.v ===== *)
(** Recovery without faults comes to an end: from every stage a migration can be left in, it
either completes the migration or puts the v1 document back and says so. *)

From S2P Require Import Prelude GoStrings Digest GoEncoding Provider Paths Effects StateManifest StateMigration StateMigrationSteps StateMigrationProps.
#[local] Open Scope go_scope.

(** * Running without faults *)

Section does.
Context {SH : SHA256} {MJ : MigrationJson}.
Context (e : mig_env).
Hypothesis Hfine : ∀ n, me_outcome e n = Fine.

Definition does {A} (fs : tree) (m : run A) (r : result migration_error A) (Q : tree → Prop) : Prop :=
  ∀ k, (m (mkMW fs k)).2 = r ∧ Q (mw_fs (m (mkMW fs k)).1).
Lemma does_bind {A B} fs (m : run A) a Q (f : A → run B) r Q' :
  does fs m (Ok a) Q → (∀ fs', Q fs' → does fs' (f a) r Q') → does fs (bind m f) r Q'.
Proof.
  intros Hm Hf k. destruct (Hm k) as [H1 H2]. unfold bind. destruct (m (mkMW fs k)) as [[fs' k'] x]. cbn in *. subst x.
  by apply Hf.
Qed.
Lemma does_same {A B} fs (m : run A) a (f : A → run B) r Q :
  does fs m (Ok a) (λ fs', fs' = fs) → does fs (f a) r Q → does fs (bind m f) r Q.
Proof. intros Hm Hf. eapply does_bind; [exact Hm|]. by intros fs' ->. Qed.
Lemma does_weaken {A} fs (m : run A) r (Q Q' : tree → Prop) : does fs m r Q → (∀ fs', Q fs' → Q' fs') → does fs m r Q'.
Proof. intros Hm HQ k. destruct (Hm k). auto. Qed.
Lemma does_ret {A} fs (a : A) (Q : tree → Prop) : Q fs → does fs (ret a) (Ok a) Q.
Proof. by intros H k. Qed.
Lemma does_throw {A} fs err (Q : tree → Prop) : Q fs → does fs (throw err : run A) (Err err) Q.
Proof. by intros H k. Qed.
Lemma does_sys {A} fs msg (f : tree → option (tree * A)) fs' a (Q : tree → Prop) :
  f fs = Some (fs', a) → Q fs' → does fs (sys e msg f) (Ok a) Q.
Proof. intros Hf HQ k. unfold sys. rewrite Hfine. cbn. by rewrite Hf. Qed.
Lemma does_guard fs (Q : tree → Prop) : Q fs → does fs (guard None : run unit) (Ok ()) Q.
Proof. by intros H k. Qed.
Lemma does_chmod fs msg p : is_Some (fs !! p) → does fs (chmod e msg p) (Ok ()) (λ fs', fs' = fs).
Proof. intros [n Hn]. eapply does_sys; [by rewrite Hn|done]. Qed.
Lemma does_ancestors fs ps : ancestors_safe fs ps = true → does fs (validateMigrationMutationAncestors e ps) (Ok ()) (λ fs', fs' = fs).
Proof. intros H. eapply does_sys; [by rewrite H|done]. Qed.
Lemma does_inspect fs p : plain (fs !! p) → does fs (inspectMigrationFile e p) (Ok (info_of (fs !! p))) (λ fs', fs' = fs).
Proof.
  intros Hp. unfold inspectMigrationFile. eapply does_same; [by eapply does_sys|].
  destruct (fs !! p) as [[|d| |]|] eqn:E; try done; try by apply does_ret.
  eapply does_same; [eapply does_sys; [by rewrite E|done]|]. by apply does_ret.
Qed.
Lemma does_exists fs p : plain (fs !! p) → does fs (migrationPathExists e p) (Ok (mi_exists (info_of (fs !! p)))) (λ fs', fs' = fs).
Proof.
  intros Hp. unfold migrationPathExists. eapply does_same; [by eapply does_sys|].
  destruct (fs !! p) as [[|d| |]|]; try done; try by apply does_ret.
Qed.
Lemma does_read fs p d : fs !! p = Some (NFile d) → does fs (readRegularMigrationFile e p) (Ok d) (λ fs', fs' = fs).
Proof.
  intros Hp. unfold readRegularMigrationFile. eapply does_same; [by eapply does_sys|]. rewrite Hp.
  eapply does_sys; [by rewrite Hp|done].
Qed.
Lemma does_link fs from to d :
  ancestors_safe fs [from; to] = true → fs !! from = Some (NFile d) → fs !! to = None →
  does fs (linkMigrationExclusively e from to) (Ok ()) (λ fs', fs' = <[to := NFile d]> fs).
Proof.
  intros Ha Hf Ht. unfold linkMigrationExclusively. eapply does_same; [by apply does_ancestors|].
  eapply does_sys; [by rewrite Hf, Ht|done].
Qed.
Lemma does_remove fs msg p d : fs !! p = Some (NFile d) → does fs (remove e msg p) (Ok ()) (λ fs', fs' = delete p fs).
Proof. intros Hp. eapply does_sys; [by rewrite Hp|done]. Qed.
Lemma does_on_failure {A} fs (m : run A) clean a Q : does fs m (Ok a) Q → does fs (on_failure m clean) (Ok a) Q.
Proof. intros Hm k. destruct (Hm k) as [H1 H2]. unfold on_failure. destruct (m (mkMW fs k)) as [w' r]. cbn in *. by subst r. Qed.
Lemma does_with_temp {A} fs dir prefix data (body : string → run A) a (Q : tree → Prop) :
  (∀ n, fs !! me_temp e n dir prefix = None) →
  (∀ n, let q := me_temp e n dir prefix in does (<[q := NFile data]> fs) (body q) (Ok a) Q) →
  does fs (with_temp e dir prefix data body) (Ok a) Q.
Proof.
  intros Hn Hb k. set (q := me_temp e k dir prefix).
  assert (Hc : create_temp e "create temporary file" dir prefix (mkMW fs k) = (mkMW (<[q := NFile ""]> fs) (S k), Ok q)).
  { unfold create_temp, sys. cbn [mw_step mw_fs]. by rewrite Hfine, Hn. }
  assert (E : ∀ F : string → run A, bind (create_temp e "create temporary file" dir prefix) F (mkMW fs k)
    = F q (mkMW (<[q := NFile ""]> fs) (S k))) by (intros F; unfold bind; by rewrite Hc).
  unfold with_temp. rewrite E.
  assert (H : does (<[q := NFile ""]> fs) (
    run! chmod e "chmod temporary file" q; run! write_temp e "write temporary file" q data;
    run! nop e "sync temporary file"; run! nop e "close temporary file"; run! secureMigrationFile e q; body q) (Ok a) Q).
  { eapply does_same; [apply does_chmod; by rewrite lookup_insert_eq|].
    eapply (does_bind _ _ () (λ fs', fs' = <[q := NFile data]> fs)).
    { intros k'. unfold write_temp. cbn [mw_step mw_fs]. rewrite Hfine. cbn. by rewrite insert_insert_eq. }
    intros fs' ->. eapply does_same; [by eapply does_sys|]. eapply does_same; [by eapply does_sys|].
    eapply does_same; [apply does_chmod; by rewrite lookup_insert_eq|]. apply Hb. }
  exact (does_on_failure _ _ _ _ _ H (S k)).
Qed.
Lemma does_load fs p d j :
  fs !! p = Some (NFile d) → decode_journal d = Some j → does fs (loadMigrationJournal e p) (Ok j) (λ fs', fs' = fs).
Proof.
  intros Hp Hj. unfold loadMigrationJournal. eapply does_same; [by eapply does_sys|]. rewrite Hp.
  eapply does_same; [eapply does_sys; [by rewrite Hp|done]|]. rewrite Hj. by apply does_ret.
Qed.
End does.

(** * Directories stay where they are *)

Lemma walk_up_mono fuel bad bad' p :
  (∀ q, bad q = None → bad' q = None) → walk_up fuel bad p = None → walk_up fuel bad' p = None.
Proof.
  intros Hb. revert p. induction fuel as [|fuel IH]; intros p; [done|]. cbn [walk_up]. rewrite !err_seq_None.
  intros [H1 H2]. split; [by apply Hb|]. case_bool_decide; [done|]. by apply IH.
Qed.
Lemma ancestors_mono fs fs' ps :
  (∀ d, fs !! d = Some NDir → fs' !! d = Some NDir) → ancestors_safe fs ps = true → ancestors_safe fs' ps = true.
Proof.
  intros Hd. unfold ancestors_safe. rewrite !forallb_forall. intros H p Hp. specialize (H p Hp).
  apply bool_decide_eq_true in H. apply bool_decide_eq_true. revert H. apply walk_up_mono. intros q.
  destruct (fs !! q) as [[]|] eqn:E; try done. by rewrite (Hd q E).
Qed.
Lemma ancestors_sub fs ps ps' : ps' ⊆ ps → ancestors_safe fs ps = true → ancestors_safe fs ps' = true.
Proof.
  intros Hs. unfold ancestors_safe. rewrite !forallb_forall. intros H p Hp. apply H.
  apply list_elem_of_In, Hs. by apply list_elem_of_In.
Qed.

(** * Stages without faults *)

Section recovery.
Context {SH : SHA256} {MJ : MigrationJson}.
Context (src jp tmp operationID digest raw desired : string) (created : time) (e : mig_env) (now : time).
Local Abbreviation jn := (the_journal src jp tmp operationID digest raw desired created).
Local Abbreviation hold := (holds src jp tmp operationID digest raw desired created).
Local Abbreviation B := (bak src).
Local Abbreviation V1 := (v1 raw).
Local Abbreviation V2 := (v2 desired).

Definition phases : list StateMigrationPhase :=
  [StateMigrationPhasePrepared; StateMigrationPhaseBackupRenamed; StateMigrationPhaseCommitted;
   StateMigrationPhaseNeedsReconciliation].

Hypothesis Hfine : ∀ n, me_outcome e n = Fine.
Hypothesis Hpaths : NoDup [src; B; tmp; jp].
Hypothesis Hutf8 : journal_utf8 jn = true.
Hypothesis Hnames : clean_names e src jp [src; B; tmp; jp].
Hypothesis Hne : migrationHash raw ≠ migrationHash desired.
Hypothesis Hnow : is_zero now = false.
Hypothesis Hdir : ∀ n, Dir (restore_temp e src n) = Dir src.
Hypothesis Hmarshal : ∀ phase, phase ∈ phases → is_Some (marshal_journal (with_migration_phase phase now jn)).

(** The temporary names to come are free. *)
Definition unused (fs : tree) : Prop := ∀ n, fs !! journal_temp e jp n = None ∧ fs !! restore_temp e src n = None.
Definition ready (phase : StateMigrationPhase) (s b t : option node) (fs : tree) : Prop :=
  hold phase s b t fs ∧ ancestors_safe fs [src; B; tmp; jp] = true ∧ unused fs.

Lemma ready_move phase s b t phase' fs fs' s' b' t' :
  ready phase s b t fs → plain s → plain b → plain t →
  (∀ p, p ∉ [src; B; tmp; jp] → fs' !! p = fs !! p) →
  phase_on src jp tmp operationID digest raw desired created phase' fs' →
  fs' !! src = s' → fs' !! B = b' → fs' !! tmp = t' → ready phase' s' b' t' fs'.
Proof.
  intros (Hh & Ha & Hu) Hs Hb Ht Hout Hp Es Eb Et. split; [done|].
  destruct Hh as ((n & d & Hd & _) & Hs' & Hb' & Ht').
  assert (Hkeep : ∀ p, fs !! p = Some NDir → fs' !! p = Some NDir).
  { intros p E. rewrite Hout; [done|]. rewrite !not_elem_of_cons. split_and!; try by intros ->; simplify_eq/=.
    - intros ->. by rewrite E in Hs'; subst s.
    - intros ->. by rewrite E in Hb'; subst b.
    - intros ->. by rewrite E in Ht'; subst t.
    - apply not_elem_of_nil. }
  split; [by eapply ancestors_mono|]. intros k. destruct (Hnames k) as [H1 H2]. destruct (Hu k) as [H3 H4].
  unfold journal_temp, restore_temp in *. by rewrite !Hout.
Qed.

Lemma journal_valid phase phase' n :
  phase' ∈ phases →
  validateMigrationJournal (Some (with_migration_phase phase n jn)) jp = None →
  validateMigrationJournal (Some (with_migration_phase phase' now jn)) jp = None.
Proof.
  intros Hp. unfold validateMigrationJournal. rewrite !err_if_None. cbn [with_migration_phase mj_Version mj_OperationID
    mj_ManifestDigest mj_SourceHash mj_DesiredHash mj_SourceSize mj_DesiredSize mj_CreatedAt mj_UpdatedAt mj_Phase
    mj_SourcePath mj_BackupPath mj_TempPath mj_JournalPath].
  intros (H1 & H2 & H3 & H4 & _ & H6 & H7 & _). split_and!; try done.
  - apply orb_false_iff in H4 as [H4 _]. by rewrite H4, Hnow.
  - by rewrite bool_decide_true.
Qed.
Lemma does_checked phase s b t ph n ok fs :
  ready phase s b t fs → plain s → plain b → plain t →
  does fs (checked e (with_migration_phase ph n jn) ok) (Ok (ok (info_of s) (info_of b) (info_of t))) (λ fs', fs' = fs).
Proof.
  intros (Hh & Ha & _) Hs Hb Ht. pose proof Hh as (_ & E1 & E2 & E3). unfold checked.
  eapply does_same; [apply does_ancestors; [done|]|].
  { eapply ancestors_sub; [|exact Ha]. unfold state_paths. cbn. set_solver. }
  eapply (does_same _ _ (info_of s, info_of b, info_of t)); [|by apply does_ret]. unfold inspect_all.
  change (mj_SourcePath _) with src. change (mj_BackupPath _) with B. change (mj_TempPath _) with tmp.
  eapply does_same; [apply does_inspect; [done|by rewrite E1]|]. eapply does_same; [apply does_inspect; [done|by rewrite E2]|].
  eapply does_same; [apply does_inspect; [done|by rewrite E3]|]. rewrite E1, E2, E3. by apply does_ret.
Qed.
Lemma does_phase phase phase' s b t fs :
  phase' ∈ phases →
  ready phase s b t fs → plain s → plain b → plain t →
  does fs (persistMigrationJournal e (with_migration_phase phase' now jn)) (Ok ()) (ready phase' s b t).
Proof.
  intros Hp Hr Hs Hb Ht. pose proof Hr as (((n & d & Hd & _ & Hv) & Es & Eb & Et) & _ & Hu).
  pose proof (journal_valid _ _ _ Hp Hv) as Hv'. pose proof (paths_ne _ _ _ Hpaths) as Hneq. destruct_and! Hneq.
  unfold persistMigrationJournal. change (mj_JournalPath _) with jp. rewrite Hv'.
  eapply does_same; [by apply does_guard|]. destruct (Hmarshal phase' Hp) as [data Hm]. rewrite Hm.
  apply does_with_temp; [done|intros k; apply (Hu k)|]. intros k q. destruct (Hnames k) as [Hq _]. fold q in Hq.
  rewrite !not_elem_of_cons in Hq. destruct Hq as (H6 & H7 & H8 & H9 & _).
  eapply does_sys; [done| |].
  { cbv beta. rewrite lookup_insert_eq, lookup_insert_ne, Hd by done. done. }
  eapply ready_move; [exact Hr|done..| | | | |]; rewrite ?lookup_insert_ne by congruence.
  - intros p. rewrite !not_elem_of_cons. intros (? & ? & ? & ? & _). rewrite lookup_insert_ne by done.
    destruct (decide (p = q)) as [->|Hpq]; [rewrite lookup_delete_eq; symmetry; apply (Hu k)|].
    by rewrite lookup_delete_ne, lookup_insert_ne by done.
  - exists now, data. rewrite lookup_insert_eq. split; [done|]. split; [|done].
    eapply decode_marshal_journal; [exact Hm|]. by eapply phase_utf8.
  - by rewrite lookup_delete_ne, lookup_insert_ne by done.
  - by rewrite lookup_delete_ne, lookup_insert_ne by done.
  - by rewrite lookup_delete_ne, lookup_insert_ne by done.
Qed.
Lemma does_mark phase s b t ph n fs :
  ready phase s b t fs → plain s → plain b → plain t →
  does fs (markMigrationNeedsReconciliation e (with_migration_phase ph n jn) now) (Err ErrStateMigrationNeedsReconciliation)
    (ready StateMigrationPhaseNeedsReconciliation s b t).
Proof.
  intros Hr Hs Hb Ht. unfold markMigrationNeedsReconciliation.
  eapply does_bind; [eapply (does_phase phase StateMigrationPhaseNeedsReconciliation); try done; set_solver|].
  intros fs' H. by apply does_throw.
Qed.

Lemma does_committed_files phase n fs :
  ready phase V2 V1 None fs →
  does fs (validateCommittedMigrationFiles e (with_migration_phase phase n jn)) (Ok ()) (λ fs', fs' = fs).
Proof.
  intros (Hh & Ha & _). pose proof Hh as (_ & E1 & E2 & E3). unfold validateCommittedMigrationFiles.
  eapply does_same; [apply does_ancestors; [done|]|].
  { eapply ancestors_sub; [|exact Ha]. unfold state_paths. cbn. set_solver. }
  change (mj_SourcePath _) with src. change (mj_BackupPath _) with B. change (mj_TempPath _) with tmp.
  eapply does_same; [apply does_inspect; [done|by rewrite E1]|]. rewrite E1, is_desired_v2. cbn [negb].
  eapply does_same; [apply does_inspect; [done|by rewrite E2]|]. rewrite E2, is_source_v1. cbn [negb].
  eapply does_same; [apply does_inspect; [done|by rewrite E3]|]. rewrite E3. by apply does_ret.
Qed.
(** A change of one of the three files. *)
Lemma ready_set phase s b t p x s' b' t' fs fs' :
  ready phase s b t fs → plain s → plain b → plain t → p ∈ [src; B; tmp] →
  fs' !! p = x → (∀ q, q ≠ p → fs' !! q = fs !! q) →
  (if decide (p = src) then s' = x else s' = s) → (if decide (p = B) then b' = x else b' = b) →
  (if decide (p = tmp) then t' = x else t' = t) → ready phase s' b' t' fs'.
Proof.
  intros Hr Hs Hb Ht Hp Hx Hq H1 H2 H3. pose proof Hr as ((Hph & E1 & E2 & E3) & _).
  pose proof (paths_ne _ _ _ Hpaths) as Hneq. destruct_and! Hneq.
  eapply ready_move; [exact Hr|done..| | | | |].
  - intros q Hnot. apply Hq. intros ->. set_solver.
  - eapply phase_on_about; [|exact Hph]. intros q ->%list_elem_of_singleton. apply Hq. intros ->. set_solver.
  - destruct (decide (p = src)) as [->|]; [by rewrite H1|by rewrite Hq, H1].
  - destruct (decide (p = B)) as [->|]; [by rewrite H2|by rewrite Hq, H2].
  - destruct (decide (p = tmp)) as [->|]; [by rewrite H3|by rewrite Hq, H3].
Qed.
Ltac moved H p x :=
  eapply (ready_set _ _ _ _ p x); [exact H|done..| | | | | |]; rewrite ?decide_False, ?decide_True by done; try done;
  [set_solver|by rewrite ?lookup_insert_eq, ?lookup_delete_eq|intros q Hq; by rewrite ?lookup_insert_ne, ?lookup_delete_ne by done].
Lemma does_remove_temp phase n s b fs :
  ready phase s b V2 fs → plain s → plain b →
  does fs (remove_temp e (with_migration_phase phase n jn)) (Ok ()) (ready phase s b None).
Proof.
  intros Hr Hs Hb. pose proof Hr as (Hh & Ha & _). pose proof Hh as (_ & _ & _ & E3).
  pose proof (paths_ne _ _ _ Hpaths) as Hneq. destruct_and! Hneq.
  unfold remove_temp, removeMigrationFileIfExact. change (mj_TempPath _) with tmp.
  eapply does_same; [apply does_ancestors; [done|]|]; [eapply ancestors_sub; [|exact Ha]; set_solver|].
  eapply does_same; [apply does_inspect; [done|by rewrite E3]|]. rewrite E3.
  pose proof (is_desired_v2 src jp tmp operationID digest raw desired created phase n) as Hd. unfold is_desired in Hd. rewrite Hd. cbn [negb].
  eapply does_weaken; [by eapply does_remove|]. intros fs' ->.
  moved Hr tmp (@None node).
Qed.
Lemma does_place fs :
  ready StateMigrationPhaseBackupRenamed None V1 V2 fs →
  does fs (commitMigrationTempExclusively e tmp src) (Ok ()) (ready StateMigrationPhaseBackupRenamed V2 V1 None).
Proof.
  intros Hr. pose proof Hr as (Hh & Ha & _). pose proof Hh as (_ & E1 & _ & E3).
  pose proof (paths_ne _ _ _ Hpaths) as Hneq. destruct_and! Hneq. unfold commitMigrationTempExclusively.
  eapply (does_bind _ _ () (ready StateMigrationPhaseBackupRenamed V2 V1 V2)).
  - eapply does_weaken; [eapply does_link; [done| |exact E3|exact E1]; eapply ancestors_sub; [|exact Ha]; set_solver|].
    intros fs' ->. moved Hr src (v2 desired).
  - intros fs1 Hr1. pose proof Hr1 as ((_ & _ & _ & E3') & _).
    eapply does_weaken; [by eapply does_remove|]. intros fs' ->.
    moved Hr1 tmp (@None node).
Qed.

Lemma does_restore n fs :
  ready StateMigrationPhasePrepared None V1 V2 fs →
  does fs (restoreMigrationSourceFromBackup e (with_migration_phase StateMigrationPhasePrepared n jn)) (Ok ())
    (ready StateMigrationPhasePrepared V1 V1 V2).
Proof.
  intros Hr. pose proof Hr as ((_ & E1 & E2 & E3) & Ha & Hu).
  pose proof (paths_ne _ _ _ Hpaths) as Hneq. destruct_and! Hneq.
  unfold restoreMigrationSourceFromBackup. change (mj_SourcePath _) with src. change (mj_BackupPath _) with B.
  eapply does_same; [apply does_exists; [done|by rewrite E1]|]. rewrite E1. cbn [info_of mi_exists].
  eapply does_same; [apply does_chmod; [done|by rewrite E2]|]. eapply does_same; [by apply does_read|].
  cbn [with_migration_phase mj_SourceSize mj_SourceHash new_journal the_journal]. rewrite Z.eqb_refl, bool_decide_true by done.
  cbn [negb orb]. apply does_with_temp; [done|intros k; apply (Hu k)|]. intros k q.
  change q with (restore_temp e src k). clear q. destruct (Hnames k) as [_ Hq].
  rewrite !not_elem_of_cons in Hq. destruct Hq as (H6 & H7 & H8 & H9 & _). set (q := restore_temp e src k) in *.
  unfold commitMigrationTempExclusively. eapply does_bind.
  - eapply does_link; [done| |apply lookup_insert_eq|by rewrite lookup_insert_ne].
    eapply (ancestors_mono fs).
    + intros d Hd. rewrite lookup_insert_ne; [done|]. intros Eq. destruct (Hu k) as [_ Hk].
      change (fs !! q = None) in Hk. congruence.
    + unfold ancestors_safe. cbn [forallb]. unfold q. rewrite Hdir. revert Ha. unfold ancestors_safe. cbn [forallb].
      by intros [-> _]%andb_true_iff.
  - intros fs' ->. eapply does_weaken; [eapply does_remove; [done|]|].
    + by rewrite lookup_insert_ne, lookup_insert_eq by done.
    + intros fs' ->. eapply (ready_set _ _ _ _ src V1); [exact Hr|done..| | | | | |]; rewrite ?decide_False, ?decide_True by done; try done.
      * set_solver.
      * by rewrite lookup_delete_ne, lookup_insert_eq by done.
      * intros p Hp. destruct (decide (p = q)) as [->|Hpq].
        { rewrite lookup_delete_eq. symmetry. apply (Hu k). }
        by rewrite lookup_delete_ne, !lookup_insert_ne by done.
Qed.

(** * Recovery settles *)

(** The migration is complete, or the v1 document is at the source again and recovery says so. *)
Definition settled (r : result migration_error ()) (fs : tree) : Prop :=
  r = Ok () ∧ hold StateMigrationPhaseCommitted V2 V1 None fs ∨
  r = Err ErrStateMigrationNeedsReconciliation ∧ ∃ b t, hold StateMigrationPhaseNeedsReconciliation V1 b t fs.
Definition settles (fs : tree) (m : run unit) : Prop := ∃ r, does fs m r (settled r).
Lemma settles_bind fs {A} (m : run A) a Q (f : A → run unit) :
  does fs m (Ok a) Q → (∃ r, ∀ fs', Q fs' → does fs' (f a) r (settled r)) → settles fs (bind m f).
Proof. intros Hm [r Hf]. exists r. by eapply does_bind. Qed.
Lemma settles_same fs {A} (m : run A) a (f : A → run unit) :
  does fs m (Ok a) (λ fs', fs' = fs) → settles fs (f a) → settles fs (bind m f).
Proof. intros Hm [r Hf]. exists r. by eapply does_same. Qed.
Lemma settled_mark phase b t ph n fs :
  ready phase V1 b t fs → plain b → plain t →
  does fs (markMigrationNeedsReconciliation e (with_migration_phase ph n jn) now) (Err ErrStateMigrationNeedsReconciliation)
    (settled (Err ErrStateMigrationNeedsReconciliation)).
Proof.
  intros Hr Hb Ht. eapply does_weaken; [by eapply does_mark|]. intros fs' [H _]. right. split; [done|]. by exists b, t.
Qed.
Lemma settled_finish n fs :
  ready StateMigrationPhaseBackupRenamed V2 V1 None fs →
  does fs (run! validateCommittedMigrationFiles e (with_migration_phase StateMigrationPhaseBackupRenamed n jn);
           finish e (with_migration_phase StateMigrationPhaseBackupRenamed n jn) now) (Ok ()) (settled (Ok ())).
Proof.
  intros Hr. eapply does_same; [by apply does_committed_files|]. unfold finish.
  eapply does_weaken; [eapply (does_phase _ StateMigrationPhaseCommitted); [set_solver|exact Hr|done..]|].
  intros fs' [H _]. by left.
Qed.
Ltac infos := rewrite ?is_source_v1, ?is_desired_v2, ?(is_desired_v1 src jp tmp operationID digest raw desired created Hne),
  ?(is_source_v2 src jp tmp operationID digest raw desired created Hne); cbn [info_of mi_exists negb andb].
Ltac checked Hr := eapply settles_same; [eapply does_checked; [exact Hr|done..]|]; cbv beta; infos.
Ltac secured E := eapply settles_same; [apply does_chmod; [done|]; first [by rewrite E|by eexists]|].

Lemma settles_prepared s b t n fs :
  stage raw desired StateMigrationPhasePrepared s b t → ready StateMigrationPhasePrepared s b t fs →
  settles fs (recover_prepared e (with_migration_phase StateMigrationPhasePrepared n jn) now (info_of s) (info_of b) (info_of t)).
Proof.
  intros Hs Hr.
  assert (Hmark : ∀ b t fs ph, ready ph V1 b t fs → plain b → plain t →
    settles fs (markMigrationNeedsReconciliation e (with_migration_phase StateMigrationPhasePrepared n jn) now)).
  { intros b' t' fs' ph H1 H2 H3. eexists. by eapply settled_mark. }
  unfold recover_prepared. inversion Hs as [b' t' Hb Ht| | | | | |]; subst; infos.
  - assert (b = None ∨ b = V1) as [-> | ->] by set_solver; assert (t = None ∨ t = V2) as [-> | ->] by set_solver;
      infos; try by eapply Hmark.
    pose proof Hr as ((_ & E1 & _ & _) & _).
    unfold if_current, migrationRollbackInputsMatch. checked Hr. secured E1.
    eapply settles_bind; [by eapply does_remove_temp|]. eexists. intros fs' Hr'. by eapply settled_mark.
  - unfold if_current, migrationRecoveryCommitInputsMatch. checked Hr.
    eapply settles_bind; [by eapply does_restore|]. eexists. intros fs' Hr'.
    eapply does_bind; [by eapply does_remove_temp|]. intros fs2 Hr2. by eapply settled_mark.
Qed.
Lemma settles_renamed s b t n fs :
  stage raw desired StateMigrationPhaseBackupRenamed s b t → ready StateMigrationPhaseBackupRenamed s b t fs →
  settles fs (recover_renamed e (with_migration_phase StateMigrationPhaseBackupRenamed n jn) now (info_of s) (info_of b) (info_of t)).
Proof.
  intros Hs Hr. unfold recover_renamed. inversion Hs; subst; infos; pose proof Hr as ((_ & E1 & E2 & _) & _).
  - unfold if_current, migrationRecoveryCommitInputsMatch. checked Hr. secured E2.
    eapply settles_bind; [by eapply does_place|]. eexists. intros fs' Hr'. by apply settled_finish.
  - unfold if_current, migrationCommittedInputsMatch. checked Hr. secured E1. secured E2.
    eapply settles_bind; [by eapply does_remove_temp|]. eexists. intros fs' Hr'. by apply settled_finish.
  - unfold recover_committed, if_current, migrationCommittedStateMatches. checked Hr. secured E1. secured E2.
    eexists. by apply settled_finish.
Qed.

Lemma valid_journal_path phase n :
  validateMigrationJournal (Some (with_migration_phase phase n jn)) jp = None → validateMigrationPath jp = None.
Proof.
  unfold validateMigrationJournal. rewrite !err_if_None. intros (_ & _ & _ & _ & _ & H & _).
  apply bool_decide_eq_false, eq_None_not_Some in H. unfold validateMigrationPaths in H. rewrite err_seq_None in H.
  destruct H as [H _]. cbn [err_each] in H. rewrite !err_seq_None in H. by destruct H as (_ & _ & H & _).
Qed.
Lemma stage_plain phase s b t : stage raw desired phase s b t → plain s ∧ plain b ∧ plain t.
Proof.
  intros Hs. destruct Hs as [b t Hb Ht| | | | | |b t Hb Ht]; split_and!; try done;
    revert Hb Ht; rewrite !elem_of_cons, !elem_of_nil; naive_solver.
Qed.
Lemma settles_recover fs :
  at_stage src jp tmp operationID digest raw desired created fs → ancestors_safe fs [src; B; tmp; jp] = true → unused fs →
  settles fs (RecoverStateMigration e jp now).
Proof.
  intros (phase & s & b & t & Hs & Hh) Ha Hu. assert (Hr : ready phase s b t fs) by done.
  pose proof Hh as ((n & d & Hd & Hj & Hv) & E1 & E2 & E3). unfold RecoverStateMigration.
  rewrite (valid_journal_path _ _ Hv). eapply settles_same; [by apply does_guard|].
  eapply settles_same; [by eapply does_load|]. rewrite Hv. eapply settles_same; [by apply does_guard|].
  eapply settles_same; [by apply does_ancestors|].
  change (mj_Phase (with_migration_phase phase n jn)) with phase. case_bool_decide as Hnr.
  - clear E1 E2 E3. inversion Hs; subst; try done. eexists. apply does_throw. right. split; [done|]. eexists _, _. exact Hh.
  - eapply (settles_same _ _ (info_of s, info_of b, info_of t)).
    { unfold inspect_all. change (mj_SourcePath _) with src. change (mj_BackupPath _) with B. change (mj_TempPath _) with tmp.
      destruct (stage_plain _ _ _ _ Hs) as (P1 & P2 & P3).
      eapply does_same; [apply does_inspect; [done|by rewrite E1]|]. eapply does_same; [apply does_inspect; [done|by rewrite E2]|].
      eapply does_same; [apply does_inspect; [done|by rewrite E3]|]. rewrite E1, E2, E3. by apply does_ret. }
    destruct (bool_decide_reflect (phase = StateMigrationPhasePrepared)) as [->|]; [by apply settles_prepared|].
    destruct (bool_decide_reflect (phase = StateMigrationPhaseBackupRenamed)) as [->|]; [by apply settles_renamed|].
    clear E1 E2 E3. inversion Hs; subst phase s b t; try done. pose proof Hr as ((_ & E1 & E2 & _) & _).
    rewrite bool_decide_true by done.
    infos. unfold recover_committed, if_current, migrationCommittedStateMatches. checked Hr. secured E1. secured E2.
    eapply settles_same; [by apply does_committed_files|]. eexists. apply does_ret. by left.
Qed.
End recovery.

(** * A migration and its recoveries *)

Section story.
Context {SH : SHA256} {SO : SortSlice} {ED : Ed25519} {MJ : MigrationJson}.
Context (e : mig_env) (src jp operationID raw : string) (created : time) (manifest : option StateManifest).

(** Recovery attempts one after the other, each with its own faults. *)
Inductive recoveries : tree → tree → Prop :=
| recoveries_none fs : recoveries fs fs
| recoveries_again e' now fs k fs' :
    (∀ m, clean_names e' src jp [src; bak src; v2_temp e src m; jp]) →
    recoveries (mw_fs (RecoverStateMigration e' jp now (mkMW fs k)).1) fs' → recoveries fs fs'.

Hypothesis Htexts : texts_ok src jp operationID.
Hypothesis Hnames : names_ok e src jp.
Hypothesis Hjp : jp ≠ src ∧ jp ≠ bak src.
Hypothesis Hdigests : ∀ digest desired, upgrade_of raw manifest digest desired →
  migrationHash raw ≠ migrationHash desired.

Lemma tri_recover_untouched e' now :
  tri (untouched src jp raw) (RecoverStateMigration e' jp now) (λ _ _, False) (untouched src jp raw).
Proof.
  unfold RecoverStateMigration. eapply tri_look; [apply looks_guard|done|intros u].
  eapply tri_look; [apply looks_load_journal|by intros fs [? _]|]. intros j w [[(_ & _ & H) _] (d & Hd & _)]. congruence.
Qed.
Lemma recoveries_safe fs fs' : recoveries fs fs' → safe e src jp operationID raw created manifest fs → safe e src jp operationID raw created manifest fs'.
Proof.
  induction 1 as [fs|e' now fs k fs' He Hrec IH]; [done|]. intros Hs. apply IH.
  destruct Hs as [Hu|(digest & desired & Hup & m & Hat)].
  - left. pose proof (tri_recover_untouched e' now (mkMW fs k) Hu) as H.
    destruct (RecoverStateMigration e' jp now (mkMW fs k)) as [w' [u|err]]; done.
  - right. exists digest, desired. split; [done|]. exists m.
    pose proof (Hdigests _ _ Hup) as Hne. pose proof (digest_text _ _ (proj1 Hup)) as Hd. destruct (Hnames m) as (Ht & _ & _).
    set (at_ := at_stage src jp (v2_temp e src m) operationID digest raw desired created) in *.
    assert (H : tri at_ (RecoverStateMigration e' jp now) (λ _, holds src jp (v2_temp e src m) operationID digest raw desired created
      StateMigrationPhaseCommitted (v2 desired) (v1 raw) None) at_).
    { apply tri_recover; [by eapply (paths_of e src jp operationID)|by apply journal_texts|apply He|done]. }
    specialize (H (mkMW fs k) Hat).
    destruct (RecoverStateMigration e' jp now (mkMW fs k)) as [w' [u|err]]; [|exact H].
    eapply at_stage_holds; [|exact H]. constructor.
Qed.

(** C28: The v1 document survives: after a migration of a v1 file that failed or was killed
anywhere, and after any number of recovery attempts that may fail or be killed anywhere too,
the v1 bytes are at the source or in the backup. *)
Theorem recoveries_keep_v1 pk role audience w w' r fs :
  untouched src jp raw (mw_fs w) →
  MigrateStateFileV1ToV2 e src jp manifest pk role audience operationID created w = (w', r) →
  recoveries (mw_fs w') fs →
  fs !! src = Some (NFile raw) ∨ fs !! bak src = Some (NFile raw).
Proof.
  intros Hw E Hrec. pose proof (tri_migrate e src jp operationID raw created Htexts Hnames manifest pk role audience w Hw) as H.
  rewrite E in H. assert (Hs : safe e src jp operationID raw created manifest (mw_fs w')).
  { destruct r as [u|err]; [|exact H]. destruct H as (digest & desired & Hup & m & Hm).
    right. exists digest, desired. split; [done|]. exists m. eapply at_stage_holds; [|exact Hm]. constructor. }
  destruct (recoveries_safe _ _ Hrec Hs) as [(Hu & _)|(digest & desired & _ & m & Hat)]; [by left|].
  by apply at_stage_v1 in Hat.
Qed.
End story.

Section settle.
Context {SH : SHA256} {MJ : MigrationJson}.

(** C29: Recovery without faults always settles: from any stage a migration can be left in, with
a clock that runs, the directories in place and fresh temporary names, it returns; and it
returns success with the migration complete (v2 at the source, v1 in the backup, a committed
journal), or the error that asks for a reconciliation, with the v1 document at the source and
the journal saying so.  No other outcome exists. *)
Theorem recovery_settles src jp tmp operationID digest raw desired created e now fs k w r :
  (∀ n, me_outcome e n = Fine) → NoDup [src; bak src; tmp; jp] →
  journal_utf8 (the_journal src jp tmp operationID digest raw desired created) = true →
  clean_names e src jp [src; bak src; tmp; jp] → (∀ n, Dir (restore_temp e src n) = Dir src) → unused src jp e fs →
  migrationHash raw ≠ migrationHash desired → is_zero now = false →
  (∀ phase, phase ∈ phases →
    is_Some (marshal_journal (with_migration_phase phase now (the_journal src jp tmp operationID digest raw desired created)))) →
  at_stage src jp tmp operationID digest raw desired created fs → ancestors_safe fs [src; bak src; tmp; jp] = true →
  RecoverStateMigration e jp now (mkMW fs k) = (w, r) →
  settled src jp tmp operationID digest raw desired created r (mw_fs w).
Proof.
  intros Hf Hp Hu Hc Hd Hun Hne Hn Hm Hat Ha E.
  destruct (settles_recover src jp tmp operationID digest raw desired created e now Hf Hp Hu Hc Hne Hn Hd Hm fs Hat Ha Hun) as [r' H].
  destruct (H k) as [H1 H2]. rewrite E in H1, H2. cbn in *. by subst r'.
Qed.
End settle.
