(* ===== verification/StateMigrationFixture.v ===== *)
(** A concrete migration: one state file under one root, with temporary names in a row. *)

From S2P Require Import Prelude GoStrings Digest GoEncoding GoTime Provider Paths Effects Json StateManifest StateManifestProps StateMigration StateMigrationSteps StateMigrationProps StateMigrationRecovery.
#[local] Open Scope go_scope.
#[local] Existing Instance toy_sha.

#[export] Instance journal_eq_dec : EqDecision StateMigrationJournal.
Proof. solve_decision. Defined.

Definition mx_src : string := "/s/a.json".
Definition mx_jp : string := "/j/a.journal".
Definition mx_raw : string := "{}".
Definition mx_fs : tree :=
  list_to_map [("/", NDir); ("/s", NDir); ("/j", NDir); (mx_src, NFile mx_raw)].
Fixpoint xs (n : nat) : string := match n with O => "" | S n => String "x" (xs n) end.
Definition mx_env (outcomes : nat → outcome) : mig_env :=
  mkMigEnv outcomes (λ n dir prefix, dir +:+ "/" +:+ prefix +:+ xs n) (λ n, n) sx_env.
Definition mx_now : time := sx_now.
Definition mx_built : result manifest_error StateManifest :=
  BuildStateManifest sx_env mx_fs "/s" "owner" "migrate" "n-1" (mx_now + 60 * second) (zeros 64) mx_now.
Definition mx_manifest : StateManifest :=
  match mx_built with Ok m => m | Err _ => mkStateManifest 0 "" "" "" [] "" 0 "" end.
Definition mx_digest : string := match migrationManifestDigest (Some mx_manifest) with Ok d => d | Err _ => "" end.
Definition mx_object (object : gmap string string) : option string :=
  Some ("{" +:+ join "," ((λ '(k, v), json_string k +:+ ":" +:+ v) <$> map_to_list object) +:+ "}").
Definition mx_desired : string :=
  match mx_object (<["manifest_digest" := json_string mx_digest]> (<["schema_version" := "2"]> ∅)) with Some d => d | None => "" end.
Definition mx_tmp (n : nat) : string := "/s/.a.json.v2-" +:+ xs n.
(** The journals of the migration whose temporary file is the [n]th. *)
Definition mx_journal (n : nat) (phase : StateMigrationPhase) : StateMigrationJournal :=
  with_migration_phase phase mx_now (the_journal mx_src mx_jp (mx_tmp n) "op-1" mx_digest mx_raw mx_desired mx_now).
Definition mx_names : list (string * StateMigrationPhase) :=
  [("p", StateMigrationPhasePrepared); ("b", StateMigrationPhaseBackupRenamed); ("c", StateMigrationPhaseCommitted);
   ("n", StateMigrationPhaseNeedsReconciliation)].
Definition mx_marshal (n : nat) (j : StateMigrationJournal) : option string :=
  fst <$> List.find (λ x, bool_decide (mx_journal n x.2 = j)) mx_names.
Definition mx_decode (n : nat) (b : string) : option StateMigrationJournal :=
  (λ x, mx_journal n x.2) <$> List.find (λ x, bool_decide (x.1 = b)) mx_names.
Lemma mx_decode_marshal n j b : mx_marshal n j = Some b → mx_decode n b = Some j.
Proof.
  unfold mx_marshal, mx_decode, mx_names. cbn [List.find].
  repeat (case_bool_decide as E; [cbn; intros [= <-]; cbn; by rewrite <-E|clear E]). done.
Qed.
#[local] Instance mx_json (n : nat) : MigrationJson := {
  marshal_journal := mx_marshal n;
  decode_journal := mx_decode n;
  decode_first b := if bool_decide (b = mx_raw) then Some (Some ∅, true) else None;
  unmarshal_int b := if bool_decide (b = "1") then Some 1%Z else None;
  marshal_object := mx_object;
  decode_marshal_journal j b H _ := mx_decode_marshal n j b H;
}.
Definition mx_run (n : nat) (outcomes : nat → outcome) : mig_world * result migration_error () :=
  MigrateStateFileV1ToV2 (MJ := mx_json n) (mx_env outcomes) mx_src mx_jp (Some mx_manifest) (ed_public (zeros 64)) "owner" "migrate" "op-1" mx_now
    (mkMW mx_fs 0).
Definition mx_done : mig_world * result migration_error () := mx_run 5 (λ _, Fine).
(** Killed right after the source has been removed. *)
Definition mx_killed : mig_world * result migration_error () := mx_run 5 (λ n, if n =? 35 then Killed else Fine).

Lemma xs_ascii n : str_forall is_ascii (xs n) = true.
Proof. induction n as [|n IH]; [done|exact IH]. Qed.
Lemma mx_names_ok outcomes : names_ok (mx_env outcomes) mx_src mx_jp.
Proof.
  intros m. split_and!.
  - apply ascii_valid_utf8. exact (xs_ascii m).
  - rewrite !not_elem_of_cons. split_and!; [by intros [=]..|apply not_elem_of_nil].
  - intros k. split; rewrite !not_elem_of_cons; split_and!; try (by intros [=]); apply not_elem_of_nil.
Qed.
Lemma mx_texts_ok : texts_ok mx_src mx_jp "op-1".
Proof. repeat constructor. Qed.
Lemma mx_untouched : untouched mx_src mx_jp mx_raw mx_fs.
Proof. vm_compute. done. Qed.
Lemma mx_upgrade digest desired :
  upgrade_of (MJ := mx_json 5) mx_raw (Some mx_manifest) digest desired → digest = mx_digest ∧ desired = mx_desired.
Proof.
  intros [Hd (object & Ho & Hdes)]. assert (digest = mx_digest) as ->.
  { assert (E : migrationManifestDigest (Some mx_manifest) = Ok mx_digest) by (vm_compute; reflexivity). congruence. }
  split; [done|]. assert (object = ∅) as ->.
  { assert (E : decodeV1StateObject (MJ := mx_json 5) mx_raw = Ok ∅) by (vm_compute; reflexivity). congruence. }
  assert (E : desired_of (MJ := mx_json 5) ∅ mx_digest = Some mx_desired) by (vm_compute; reflexivity). congruence.
Qed.

Lemma migration_crash_safe_witness :
  mx_done.2 = Ok () ∧ migrated (MJ := mx_json 5) (mx_env (λ _, Fine)) mx_src mx_jp "op-1" mx_raw mx_now (Some mx_manifest) (mw_fs mx_done.1) ∧
  mx_killed.2 = Err MKilled ∧
  safe (MJ := mx_json 5) (mx_env (λ n, if n =? 35 then Killed else Fine)) mx_src mx_jp "op-1" mx_raw mx_now (Some mx_manifest) (mw_fs mx_killed.1).
Proof.
  assert (E1 : mx_done.2 = Ok ()) by (vm_compute; reflexivity).
  assert (E2 : mx_killed.2 = Err MKilled) by (vm_compute; reflexivity).
  pose proof (migration_crash_safe (MJ := mx_json 5) (mx_env (λ _, Fine)) mx_src mx_jp "op-1" mx_raw mx_now mx_texts_ok (mx_names_ok _)
    (Some mx_manifest) (ed_public (zeros 64)) "owner" "migrate" (mkMW mx_fs 0) mx_done.1 mx_done.2 mx_untouched (surjective_pairing _)) as H1.
  pose proof (migration_crash_safe (MJ := mx_json 5) (mx_env (λ n, if n =? 35 then Killed else Fine)) mx_src mx_jp "op-1" mx_raw mx_now
    mx_texts_ok (mx_names_ok _)
    (Some mx_manifest) (ed_public (zeros 64)) "owner" "migrate" (mkMW mx_fs 0) mx_killed.1 mx_killed.2 mx_untouched (surjective_pairing _)) as H2.
  rewrite E1 in H1. rewrite E2 in H2. exact (conj E1 (conj H1 (conj E2 H2))).
Defined.

(** The recovery after that, cut short once. *)
Definition mx_after : tree :=
  let recover outcomes k fs := mw_fs (RecoverStateMigration (MJ := mx_json 5) (mx_env outcomes) mx_jp mx_now (mkMW fs k)).1 in
  recover (λ _, Fine) 100 (recover (λ n, if n =? 20 then Killed else Fine) 0 (mw_fs mx_killed.1)).
Lemma mx_after_files : mx_after !! mx_src = Some (NFile mx_raw) ∧ mx_after !! mx_jp = Some (NFile "n").
Proof. vm_compute. done. Qed.
Lemma recoveries_keep_v1_witness :
  mx_after !! mx_src = Some (NFile mx_raw) ∨ mx_after !! bak mx_src = Some (NFile mx_raw).
Proof.
  apply (recoveries_keep_v1 (MJ := mx_json 5) (mx_env (λ n, if n =? 35 then Killed else Fine)) mx_src mx_jp "op-1" mx_raw mx_now
    (Some mx_manifest) mx_texts_ok (mx_names_ok _)) with (pk := ed_public (zeros 64)) (role := "owner") (audience := "migrate")
    (w := mkMW mx_fs 0) (w' := mx_killed.1) (r := mx_killed.2).
  - by_decide.
  - intros digest desired Hu. destruct (mx_upgrade _ _ Hu) as [-> ->]. by_decide.
  - apply mx_untouched.
  - apply surjective_pairing.
  - eapply recoveries_again; [intros m; by apply (mx_names_ok (λ n, if n =? 20 then Killed else Fine))|].
    eapply recoveries_again; [intros m; by apply (mx_names_ok (λ _, Fine))|]. apply recoveries_none.
Defined.

(** Recovery without faults of what the killed migration left, in another process: the v1
document is back. *)
Definition mx_later : mig_env := mkMigEnv (λ _, Fine) (λ n dir prefix, dir +:+ "/" +:+ prefix +:+ "r" +:+ xs n) (λ n, n) sx_env.
Definition mx_settled : mig_world * result migration_error () :=
  RecoverStateMigration (MJ := mx_json 5) mx_later mx_jp mx_now (mkMW (mw_fs mx_killed.1) 0).
Lemma mx_killed_stage :
  at_stage (MJ := mx_json 5) mx_src mx_jp (mx_tmp 5) "op-1" mx_digest mx_raw mx_desired mx_now (mw_fs mx_killed.1).
Proof.
  apply (at_stage_holds (MJ := mx_json 5) _ _ _ _ _ _ _ _ StateMigrationPhasePrepared None (v1 mx_raw) (v2 mx_desired)); [constructor|].
  split; [|vm_compute; done]. exists mx_now, "p". vm_compute. done.
Qed.
Lemma mx_unused : unused mx_src mx_jp mx_later (mw_fs mx_killed.1).
Proof.
  intros n. assert (H : ∀ p, p ∉ (map_to_list (mw_fs mx_killed.1)).*1 → mw_fs mx_killed.1 !! p = None).
  { intros p Hp. destruct (_ !! p) as [x|] eqn:E; [|done]. exfalso. apply Hp. apply elem_of_map_to_list in E.
    apply list_elem_of_fmap. by exists (p, x). }
  assert (E : (map_to_list (mw_fs mx_killed.1)).*1 =
    ["/s/a.json.v1"; mx_tmp 5; "/s"; "/j/a.journal"; "/j/.a.journal.tmp-xxxxxxxxxxxxxxxxxxxxxxxxxxxxxxxx"; "/j"; "/"])
    by (vm_compute; reflexivity).
  split; apply H; rewrite E, !not_elem_of_cons; (split_and!; [by intros [=]..|apply not_elem_of_nil]).
Qed.
Lemma mx_later_names : clean_names mx_later mx_src mx_jp [mx_src; bak mx_src; mx_tmp 5; mx_jp].
Proof.
  intros k. split; rewrite !not_elem_of_cons; split_and!; try (by intros [=]); apply not_elem_of_nil.
Qed.
Lemma last_index_byte_none_app s t c : last_index_byte t c = None → last_index_byte (s +:+ t) c = last_index_byte s c.
Proof. intros H. induction s as [|d s IH]; [done|]. rewrite str_cons_app. cbn [last_index_byte]. by rewrite IH. Qed.
Lemma mx_later_dir n : Dir (restore_temp mx_later mx_src n) = Dir mx_src.
Proof.
  assert (H : last_index_byte (xs n) "/" = None) by (induction n as [|n IH]; [done|]; cbn; by rewrite IH).
  change (restore_temp mx_later mx_src n) with ("/s/.a.json.restore-r" +:+ xs n).
  unfold Dir. rewrite last_index_byte_none_app by done. reflexivity.
Qed.
Lemma recovery_settles_witness :
  mx_settled.2 = Err ErrStateMigrationNeedsReconciliation ∧ mw_fs mx_settled.1 !! mx_src = Some (NFile mx_raw).
Proof.
  assert (E : mx_settled.2 = Err ErrStateMigrationNeedsReconciliation) by (vm_compute; reflexivity).
  split; [exact E|].
  pose proof (recovery_settles (MJ := mx_json 5) mx_src mx_jp (mx_tmp 5) "op-1" mx_digest mx_raw mx_desired mx_now mx_later mx_now
    (mw_fs mx_killed.1) 0 mx_settled.1 mx_settled.2) as H.
  destruct H as [[H _]|[_ (b & t & _ & H & _)]]; [by intros n|by_decide|vm_compute; reflexivity|exact mx_later_names|exact mx_later_dir
    |exact mx_unused|by_decide|vm_compute; reflexivity| |exact mx_killed_stage|vm_compute; reflexivity|apply surjective_pairing|congruence|exact H].
  intros phase Hp. unfold phases in Hp. rewrite !elem_of_cons, elem_of_nil in Hp.
  destruct Hp as [->|[->|[->|[->|[]]]]]; by eexists; vm_compute.
Defined.
