(* ===== verification/ComposeGen.v ===== *)
(** The offline generator of launch artifacts (src/cmd/skret-compose-gen/main.go): from a
resolved compose file to the signed manifest, the trust document and the rendered model.

The YAML parser, [time.ParseDuration], [strconv.ParseFloat] times a second and the decoding of a
JSON array of strings are the operations of an interface.  The flags are parsed: [options] holds their values. *)

From S2P Require Import Prelude GoStrings Provider Paths Digest GoEncoding Base64 Json Effects LaunchError JsonScan LaunchTypes LaunchManifest LaunchSession LaunchRuntime.
#[local] Open Scope go_scope.
#[local] Set Warnings "-register-all".

(** * Data *)

(** [yaml.Node]; kind 0 is an absent node. *)
Inductive yaml_kind := KAbsent | KScalar | KSequence | KMapping | KOther.
#[export] Instance yaml_kind_eq : EqDecision yaml_kind. Proof. solve_decision. Defined.
Inductive yaml_node := YNode (kind : yaml_kind) (tag value : string) (content : list yaml_node).
Definition y_kind (n : yaml_node) := let '(YNode k _ _ _) := n in k.
Definition y_tag (n : yaml_node) := let '(YNode _ t _ _) := n in t.
Definition y_value (n : yaml_node) := let '(YNode _ _ v _) := n in v.
Definition y_content (n : yaml_node) := let '(YNode _ _ _ c) := n in c.

Record composeHealth := mkComposeHealth {
  hc_Test : yaml_node; hc_Interval : string; hc_Timeout : string; hc_Retries : Z; hc_Disable : bool }.
Record composeService := mkComposeService {
  cs_Image : string; cs_User : string; cs_Command : yaml_node; cs_Entrypoint : yaml_node;
  cs_Environment : yaml_node; cs_Labels : yaml_node; cs_Networks : yaml_node; cs_DependsOn : yaml_node;
  cs_Restart : string; cs_Healthcheck : option composeHealth }.
Abbreviation composeFile := (gmap string composeService).

Record options := mkOptions {
  o_composePath : string; o_services : string; o_runtimeID : string; o_outDir : string;
  o_manifestRole : string; o_signKeyID : string; o_generation : Z; o_ttl : Z; o_now : Z; o_nonce : string;
  o_helperDigest : string; o_superDigest : string; o_defaultUser : string; o_helperPath : string;
  o_manifestPath : string; o_trustPath : string; o_secretVersion : string;
  o_healthCmd : string; o_healthInt : Z; o_healthTO : Z; o_healthRetries : Z; o_hbInterval : Z; o_hbTimeout : Z;
  o_keys : list string; o_pubkeys : list string; o_roles : list string; o_runtimeIDs : list string;
  o_wrapperDigests : list string; o_images : list string; o_secrets : list string;
  o_childArgv : list string; o_childUser : list string; o_healthCmds : list string; o_keyVersions : list string }.

Class GenLib : Type := {
  unmarshal_compose : string → option composeFile;
  unmarshal_strings : string → option (list string);
  parse_duration : string → option Z;
  parse_float_seconds : string → option Z;
}.

(** An error message: its format and what it names. *)
Inductive gen_error :=
| GenMsg (format : string) (args : list string)
| GenIn (context : list string) (e : gen_error)
| GenLaunch (e : LaunchError)
| GenOS (call : string).
Definition context {A} (c : list string) (m : result gen_error A) : result gen_error A :=
  match m with Ok a => Ok a | Err e => Err (GenIn c e) end.
Definition launch {A} (m : result LaunchError A) : result gen_error A :=
  match m with Ok a => Ok a | Err e => Err (GenLaunch e) end.
Fixpoint fold_result {E A B} (f : B → A → result E B) (l : list A) (b : B) : result E B :=
  match l with [] => Ok b | x :: l => let! b := f b x in fold_result f l b end.

(** * Small syntax *)

Definition validDigest (value : string) : bool :=
  if negb (String.length value =? 7 + 64) || negb (has_prefix value "sha256:") then false
  else forallb (λ r, negb (((r <? 48)%Z || (57 <? r)%Z) && ((r <? 97)%Z || (102 <? r)%Z))) (runes (str_drop 7 value)).
Section case.
Context {UC : UnicodeCase}.
Definition secretLike (value : string) : bool :=
  existsb (contains (to_upper value)) ["SECRET"; "PASSWORD"; "TOKEN"; "CREDENTIAL"; "PRIVATE_KEY"; "API_KEY"].
End case.
Definition sortedKeys (set : gmap string bool) : list string := sort_strings (map_to_list set).*1.
(** A number of milliseconds as a [uint32]: the conversion drops the high bits. *)
Definition millisecond : Z := 1000000.
Definition u32 (z : Z) : Z := (z mod 4294967296)%Z.
Definition millis (d : Z) : Z := u32 (Z.quot d millisecond).
Definition cut (s : string) : option (string * string) := cut_byte "=" s.

(** * Compose parsing *)

Definition absent (n : yaml_node) : bool := bool_decide (y_kind n = KAbsent) || bool_decide (y_tag n = "!!null").
Fixpoint scalars (content : list yaml_node) : option (list string) :=
  match content with
  | [] => Some []
  | item :: rest => if bool_decide (y_kind item = KScalar) then cons (y_value item) <$> scalars rest else None
  end.
Definition stringOrList (node : yaml_node) : result gen_error strings :=
  if absent node then Ok None
  else
    match y_kind node with
    | KScalar => Ok (Some [y_value node])
    | KSequence =>
      match scalars (y_content node) with
      | Some out => Ok (Some out)
      | None => Err (GenMsg "expected scalar list item" [])
      end
    | _ => Err (GenMsg "expected scalar or list" [])
    end.
Definition commandOrList (node : yaml_node) : result gen_error strings :=
  if absent node then Ok None
  else if bool_decide (y_kind node = KScalar) then Ok (Some ["/bin/sh"; "-c"; y_value node])
  else stringOrList node.
Fixpoint mapping_entries (bareOK : bool) (content : list yaml_node) (out : gmap string string) : result gen_error (gmap string string) :=
  match content with
  | key :: value :: rest =>
    if bool_decide (y_tag value = "!!null") then
      if bareOK then mapping_entries bareOK rest (<[y_value key := ""]> out)
      else Err (GenMsg "%s has no value" [y_value key])
    else mapping_entries bareOK rest (<[y_value key := y_value value]> out)
  | _ => Ok out
  end.
Fixpoint sequence_entries (bareOK : bool) (content : list yaml_node) (out : gmap string string) : result gen_error (gmap string string) :=
  match content with
  | [] => Ok out
  | item :: rest =>
    if negb (bool_decide (y_kind item = KScalar)) then Err (GenMsg "expected KEY=VALUE scalar" [])
    else
      match cut (y_value item) with
      | Some (key, value) => sequence_entries bareOK rest (<[key := value]> out)
      | None =>
        if bareOK then sequence_entries bareOK rest (<[y_value item := ""]> out)
        else Err (GenMsg "%s has no value" [y_value item])
      end
  end.
Definition mapOrList (node : yaml_node) (bareOK : bool) : result gen_error string_map :=
  if absent node then Ok None
  else
    match y_kind node with
    | KMapping => let! out := mapping_entries bareOK (y_content node) ∅ in Ok (Some out)
    | KSequence => let! out := sequence_entries bareOK (y_content node) ∅ in Ok (Some out)
    | _ => Err (GenMsg "expected mapping or KEY=VALUE list" [])
    end.
Fixpoint mapping_keys (content : list yaml_node) : list string :=
  match content with key :: _ :: rest => y_value key :: mapping_keys rest | _ => [] end.
(** A slice that [append] made: nil as long as nothing was appended. *)
Definition appended {A} (l : list A) : slice A := match l with [] => None | _ => Some l end.
Definition listOrMapKeys (node : yaml_node) : result gen_error strings :=
  if absent node then Ok None
  else
    match y_kind node with
    | KSequence =>
      match scalars (y_content node) with
      | Some out => Ok (appended (sort_strings out))
      | None => Err (GenMsg "expected scalar list item" [])
      end
    | KMapping => Ok (appended (sort_strings (mapping_keys (y_content node))))
    | _ => Err (GenMsg "expected list or mapping" [])
    end.

(** * Service conversion *)

Record serviceOverrides := mkOverrides {
  ov_image : string; ov_wrapper : string; ov_childArgv : strings; ov_childUser : string;
  ov_healthCmd : strings; ov_secrets : list ManifestKey }.
Definition no_overrides : serviceOverrides := mkOverrides "" "" None "" None [].
Definition overrides : Type := gmap string serviceOverrides.
(** [get(name)] and a write to it. *)
Definition override (f : serviceOverrides → serviceOverrides) (name : string) (out : overrides) : overrides :=
  <[name := f (default no_overrides (out !! name))]> out.

(** The allowed versions of each key. *)
Abbreviation key_versions := (gmap string (gmap string bool)).

Section gen.
Context {UC : UnicodeCase} {MR : MapRange} {SS : SortSlice} {SH : SHA256} {ED : Ed25519} {GL : GenLib}
  {JL : JsonLib} {DM : JsonDecode Manifest} {DS : JsonDecode SignedManifest}
  {DT : JsonDecode TrustDocument} {DR : JsonDecode RenderedModel}.

Definition parseDurationMS (value : string) : result gen_error Z :=
  if bool_decide (value = "") then Ok 0%Z
  else
    let! d := match parse_duration value with
      | Some d => Ok d
      | None =>
        match parse_float_seconds value with
        | Some d => Ok d
        | None => Err (GenMsg "duration %q" [value])
        end
      end in
    if (d <=? 0)%Z || (uint32_max * millisecond <? d)%Z then Err (GenMsg "duration %q out of range" [value])
    else Ok (millis d).

(** One flag [service=...]. *)
Definition named (flag : string) (entry : string) (f : string → string → result gen_error overrides) : result gen_error overrides :=
  match cut entry with
  | Some (name, rest) => f name rest
  | None => Err (GenMsg flag [entry])
  end.
Definition wrapper_entry (acc : overrides * string) (entry : string) : result gen_error (overrides * string) :=
  let '(out, globalWrapper) := acc in
  match cut entry with
  | Some (name, digest) =>
    if has_prefix digest "sha256:"
    then Ok (override (λ o, mkOverrides (ov_image o) digest (ov_childArgv o) (ov_childUser o) (ov_healthCmd o) (ov_secrets o)) name out, globalWrapper)
    else if has_prefix entry "sha256:" then Ok (out, entry)
    else Err (GenMsg "--wrapper-digest %q" [entry])
  | None => if has_prefix entry "sha256:" then Ok (out, entry) else Err (GenMsg "--wrapper-digest %q" [entry])
  end.
Definition image_entry (out : overrides) (entry : string) : result gen_error overrides :=
  named "--image %q" entry (λ name image,
    Ok (override (λ o, mkOverrides image (ov_wrapper o) (ov_childArgv o) (ov_childUser o) (ov_healthCmd o) (ov_secrets o)) name out)).
Definition argv_entry (out : overrides) (entry : string) : result gen_error overrides :=
  named "--child-argv %q" entry (λ name raw,
    match unmarshal_strings raw with
    | Some ((_ :: _) as argv) =>
      Ok (override (λ o, mkOverrides (ov_image o) (ov_wrapper o) (Some argv) (ov_childUser o) (ov_healthCmd o) (ov_secrets o)) name out)
    | _ => Err (GenMsg "--child-argv %q: invalid json array" [entry])
    end).
Definition user_entry (out : overrides) (entry : string) : result gen_error overrides :=
  named "--child-user %q" entry (λ name user,
    if bool_decide (user = "") then Err (GenMsg "--child-user %q" [entry])
    else Ok (override (λ o, mkOverrides (ov_image o) (ov_wrapper o) (ov_childArgv o) user (ov_healthCmd o) (ov_secrets o)) name out)).
Definition health_entry (out : overrides) (entry : string) : result gen_error overrides :=
  named "--health-cmd %q" entry (λ name raw,
    match unmarshal_strings raw with
    | Some ((_ :: _) as cmd) =>
      Ok (override (λ o, mkOverrides (ov_image o) (ov_wrapper o) (ov_childArgv o) (ov_childUser o) (Some cmd) (ov_secrets o)) name out)
    | _ => Err (GenMsg "--health-cmd %q: invalid json array" [entry])
    end).
Definition secret_entry (secretVersion : string) (out : overrides) (entry : string) : result gen_error overrides :=
  named "--secret %q" entry (λ name rest,
    match cut rest with
    | Some (env, keyName) =>
      if bool_decide (env = "") || bool_decide (keyName = "") then Err (GenMsg "--secret %q" [entry])
      else
        let key := match cut_byte ":" keyName with
          | Some (keyName, version) => mkKey keyName version env
          | None => mkKey keyName secretVersion env
          end in
        Ok (override (λ o, mkOverrides (ov_image o) (ov_wrapper o) (ov_childArgv o) (ov_childUser o) (ov_healthCmd o) (ov_secrets o ++ [key])) name out)
    | None => Err (GenMsg "--secret %q" [entry])
    end).
Definition parseServiceOverrides (opt : options) : result gen_error (overrides * string) :=
  let! acc := fold_result wrapper_entry (o_wrapperDigests opt) (∅, "") in
  let '(out, globalWrapper) := acc in
  let! out := fold_result image_entry (o_images opt) out in
  let! out := fold_result argv_entry (o_childArgv opt) out in
  let! out := fold_result user_entry (o_childUser opt) out in
  let! out := fold_result health_entry (o_healthCmds opt) out in
  let! out := fold_result (secret_entry (o_secretVersion opt)) (o_secrets opt) out in
  Ok (out, globalWrapper).

(** The command of a compose health check. *)
Definition health_command (healthCmd : string) (test : list string) : list string :=
  match test with
  | [] => [healthCmd]
  | first :: rest =>
    let command :=
      if bool_decide (first = "CMD") then rest
      else if bool_decide (first = "CMD-SHELL") then ["/bin/sh"; "-c"; join " " rest]
      else if bool_decide (first = "NONE") then [healthCmd]
      else test in
    match command with [] => [healthCmd] | _ => command end
  end.
Definition or_default (ms default_ : Z) : Z := if (0 <? ms)%Z then ms else default_.
Definition buildHealth (hc : option composeHealth) (opt : options) (ov : serviceOverrides) : result gen_error HealthSpec :=
  let health0 := mkHealth (Some [o_healthCmd opt]) (millis (o_healthInt opt)) (millis (o_healthTO opt)) (u32 (o_healthRetries opt))
    (millis (o_hbInterval opt)) (millis (o_hbTimeout opt)) in
  let! health :=
    match hc with
    | Some hc =>
      if hc_Disable hc then Ok health0
      else
        let! test := context ["healthcheck.test"] (stringOrList (hc_Test hc)) in
        let! interval := context ["healthcheck.interval"] (parseDurationMS (hc_Interval hc)) in
        let! timeout := context ["healthcheck.timeout"] (parseDurationMS (hc_Timeout hc)) in
        Ok (mkHealth (Some (health_command (o_healthCmd opt) (elems test)))
          (or_default interval (hs_IntervalMS health0)) (or_default timeout (hs_TimeoutMS health0))
          (or_default (hc_Retries hc) (hs_Retries health0))
          (hs_HeartbeatIntervalMS health0) (hs_HeartbeatTimeoutMS health0))
    | None => Ok health0
    end in
  let health := mkHealth (match ov_healthCmd ov with Some c => Some c | None => hs_Command health end)
    (hs_IntervalMS health) (hs_TimeoutMS health) (hs_Retries health) (hs_HeartbeatIntervalMS health) (hs_HeartbeatTimeoutMS health) in
  if ((hs_IntervalMS health =? 0) || (hs_TimeoutMS health =? 0) || (hs_Retries health =? 0))%Z
  then Err (GenMsg "health interval, timeout, and retries must be non-zero" [])
  else if ((hs_HeartbeatIntervalMS health =? 0) ||
      (hs_HeartbeatTimeoutMS health <? u32_mul (hs_HeartbeatIntervalMS health) HeartbeatSafetyFactor))%Z
  then Err (GenMsg "heartbeat timeout must be >= %dx heartbeat interval" [])
  else Ok health.

(** The loop over the environment: secret-like variables become keys. *)
Fixpoint env_loop (secretVersion : string) (l : list (string * string)) (keys : list ManifestKey) (env : gmap string string)
    : result gen_error (list ManifestKey * gmap string string) :=
  match l with
  | [] => Ok (keys, env)
  | (key, value) :: l =>
    if contains value "${" then Err (GenMsg "environment %s still contains interpolation" [key])
    else if has_byte NUL value then Err (GenMsg "environment %s contains NUL" [key])
    else if secretLike key then env_loop secretVersion l (keys ++ [mkKey key secretVersion key]) (delete key env)
    else env_loop secretVersion l keys env
  end.
Fixpoint label_loop (l : list (string * string)) (labels : gmap string string) : result gen_error (gmap string string) :=
  match l with
  | [] => Ok labels
  | (key, value) :: l =>
    if has_prefix key "com.skret.secret-launch" then label_loop l (delete key labels)
    else if secretLike key || secretLike value then Err (GenMsg "label %q looks secret-like" [key])
    else label_loop l labels
  end.
Definition key_less (x y : ManifestKey) : bool := negb (str_le (mk_Name y) (mk_Name x)).
(** The environment and the sorted keys of a service. *)
Definition split_environment (opt : options) (ov : serviceOverrides) (env : string_map)
    : result gen_error (list ManifestKey * string_map) :=
  let! r := env_loop (o_secretVersion opt) (range_map 10 (default ∅ env)) (ov_secrets ov) (default ∅ env) in
  let '(keys, rest) := r in
  let rest := foldr (λ k m, delete (mk_Env k) m) rest keys in
  let keys := sort_slice key_less keys in
  if bool_decide (keys = []) then Err (GenMsg "no secret keys" [])
  else Ok (keys, match env with None => None | Some _ => Some rest end).
Definition child_argv (svc : composeService) (ov : serviceOverrides) : result gen_error strings :=
  match ov_childArgv ov with
  | Some argv => Ok (Some argv)
  | None =>
    let! entrypoint := context ["entrypoint"] (commandOrList (cs_Entrypoint svc)) in
    let! command := context ["command"] (commandOrList (cs_Command svc)) in
    Ok (appended (elems entrypoint ++ elems command))
  end.
Definition helper_argv (name : string) (opt : options) : list string :=
  [o_helperPath opt; "--manifest"; o_manifestPath opt; "--trust"; o_trustPath opt;
   "--runtime"; o_runtimeID opt; "--service"; name].
Definition buildAuthority (name : string) (svc : composeService) (opt : options) (ov : serviceOverrides)
    (globalWrapper : string) (selected : list string) : result gen_error ServiceAuthority :=
  let wrapper := if bool_decide (ov_wrapper ov = "") then globalWrapper else ov_wrapper ov in
  let image := if bool_decide (ov_image ov = "") then cs_Image svc else ov_image ov in
  if negb (match cut_byte "@" image with
    | Some (prefix, digest) => negb (bool_decide (prefix = "")) && validDigest digest
    | None => false end)
  then Err (GenMsg "image %q is not digest-pinned" [image])
  else
    let user := if bool_decide (cs_User svc = "") then o_defaultUser opt else cs_User svc in
    if bool_decide (user = "") then Err (GenMsg "no user; set compose user or --default-user" [])
    else
      let! env := context ["environment"] (mapOrList (cs_Environment svc) false) in
      let! ke := split_environment opt ov env in
      let '(keys, env) := ke in
      let! labels := context ["labels"] (mapOrList (cs_Labels svc) true) in
      let! kept := label_loop (range_map 11 (default ∅ labels)) (default ∅ labels) in
      let labels := match labels with None => None | Some _ => Some kept end in
      let! networks := context ["networks"] (listOrMapKeys (cs_Networks svc)) in
      let! dependencies := context ["depends_on"] (listOrMapKeys (cs_DependsOn svc)) in
      let dependencies := List.filter (λ dep, bool_decide (dep ∈ selected)) <$> dependencies in
      let! health := buildHealth (cs_Healthcheck svc) opt ov in
      let! childArgv := child_argv svc ov in
      if length (elems childArgv) =? 0 then Err (GenMsg "no child argv" [])
      else if negb (validDigest wrapper) then Err (GenMsg "no valid wrapper digest" [])
      else Ok {|
        sa_Name := name; sa_Image := image; sa_User := user; sa_Argv := Some (helper_argv name opt);
        sa_Environment := env; sa_Labels := labels; sa_Networks := networks; sa_Restart := "no"; sa_OpenStdin := true;
        sa_Health := health; sa_Dependencies := dependencies; sa_Keys := Some keys; sa_WrapperDigest := wrapper;
        sa_Child := mkChild childArgv (if bool_decide (ov_childUser ov = "") then user else ov_childUser ov) env |}.
Definition specFromAuthority (authority : ServiceAuthority) : ServiceSpec := {|
  sp_Name := sa_Name authority; sp_Image := sa_Image authority; sp_User := sa_User authority; sp_Argv := sa_Argv authority;
  sp_Environment := sa_Environment authority; sp_Labels := sa_Labels authority; sp_Networks := sa_Networks authority;
  sp_Restart := sa_Restart authority; sp_OpenStdin := sa_OpenStdin authority; sp_Health := sa_Health authority;
  sp_Dependencies := sa_Dependencies authority; sp_SecretKeys := Some (mk_Name <$> elems (sa_Keys authority));
  sp_WrapperDigest := sa_WrapperDigest authority; sp_Child := sa_Child authority |}.

(** * Keys and trust *)

(** What the program sees of the machine: regular files and their contents, the clock, the
random nonce, and how each write ends ([Some n]: it fails after [n] bytes). *)
Record gen_env := mkGenEnv {
  ge_regular : string → bool; ge_read : string → option string;
  ge_now : time; ge_nonce : string;
  ge_mkdir : bool; ge_write : string → option nat; ge_reread : string → bool }.

Definition parsePrivateKey (e : gen_env) (source : string) : result gen_error string :=
  let! raw := if ge_regular e source
    then match ge_read e source with Some data => Ok data | None => Err (GenOS "read") end
    else Ok (trim_space source) in
  let text := trim_space raw in
  let raw := match hex_decode text with
    | Some decoded => decoded
    | None => match StdDecode text with Some decoded => decoded | None => raw end
    end in
  if String.length raw =? PrivateKeySize then Ok raw
  else if String.length raw =? SeedSize then Ok (ed_from_seed raw)
  else Err (GenMsg "want %d-byte private key or %d-byte seed" []).
(** The key ID and the source of a [--key] entry. *)
Definition key_entry (e : gen_env) (entry : string) : option string * string :=
  match cut entry with
  | Some (head, tail) =>
    if bool_decide (head = "") then (None, entry)
    else if is_ok (parsePrivateKey e tail) then (Some head, tail)
    else if ge_regular e tail then (Some head, tail)
    else (None, entry)
  | None => (None, entry)
  end.
Record loaded_keys := mkLoaded { lk_signing : gmap string string; lk_order : list string; lk_trust : gmap string string }.
Definition load_key (e : gen_env) (acc : loaded_keys) (entry : string) : result gen_error loaded_keys :=
  let '(named_, source) := key_entry e entry in
  let! private := context ["--key %q"; entry] (parsePrivateKey e source) in
  let keyID := match named_ with
    | Some id => id
    | None => "ed25519-" +:+ hex_encode (str_take 4 (sha256 (ed_public private)))
    end in
  if bool_decide (is_Some (lk_signing acc !! keyID)) then Err (GenMsg "--key %q: duplicate key ID %q" [entry; keyID])
  else Ok (mkLoaded (<[keyID := private]> (lk_signing acc)) (lk_order acc ++ [keyID])
             (<[keyID := StdEncoding (ed_public private)]> (lk_trust acc))).
Definition load_pubkey (trust : gmap string string) (entry : string) : result gen_error (gmap string string) :=
  match cut entry with
  | Some (keyID, encoded) =>
    if bool_decide (keyID = "") then Err (GenMsg "--pubkey %q" [entry])
    else if match StdDecode encoded with Some raw => String.length raw =? PublicKeySize | None => false end
    then Ok (<[keyID := encoded]> trust)
    else Err (GenMsg "--pubkey %q: invalid base64 ed25519 public key" [entry])
  | None => Err (GenMsg "--pubkey %q" [entry])
  end.
Definition loadKeys (e : gen_env) (entries pubkeys : list string) : result gen_error loaded_keys :=
  let! keys := fold_result (load_key e) entries (mkLoaded ∅ [] ∅) in
  let! trust := fold_result load_pubkey pubkeys (lk_trust keys) in
  Ok (mkLoaded (lk_signing keys) (lk_order keys) trust).

Definition allow (name version : string) (kv : key_versions) : key_versions :=
  <[name := <[version := true]> (default ∅ (kv !! name))]> kv.
Definition authority_versions (authorities : list ServiceAuthority) : key_versions :=
  foldl (λ kv a, foldl (λ kv k, allow (mk_Name k) (mk_Version k) kv) kv (elems (sa_Keys a))) ∅ authorities.
Definition version_entry (kv : key_versions) (entry : string) : result gen_error key_versions :=
  match cut entry with
  | Some (name, version) =>
    if bool_decide (name = "") || bool_decide (version = "") then Err (GenMsg "--key-version %q" [entry])
    else Ok (allow name version kv)
  | None => Err (GenMsg "--key-version %q" [entry])
  end.
Definition set_of (l : list string) : gmap string bool := list_to_map ((λ x, (x, true)) <$> l).
Definition buildTrust (opt : options) (keys : gmap string string) (authorities : list ServiceAuthority) : result gen_error TrustDocument :=
  let runtimeIDs := set_of (o_runtimeID opt :: o_runtimeIDs opt) in
  let roles := set_of ((if bool_decide (o_manifestRole opt = "") then [] else [o_manifestRole opt]) ++ o_roles opt) in
  let! keyVersions := fold_result version_entry (o_keyVersions opt) (authority_versions authorities) in
  Ok (mkTrust (Some keys) (Some [ManifestVersion]) (Some (sortedKeys runtimeIDs)) (Some (sortedKeys roles))
    (Some (Some <$> keyVersions))).

(** * Generation *)

Definition selectServices (compose : composeFile) (csv : string) : result gen_error (list string) :=
  let names := List.filter (λ name, negb (bool_decide (name = ""))) (trim_space <$> split_byte "," csv) in
  match List.find (λ name, bool_decide (compose !! name = None)) names with
  | Some name => Err (GenMsg "service %q not present in compose file" [name])
  | None => if bool_decide (names = []) then Err (GenMsg "--services selected nothing" []) else Ok (sort_strings names)
  end.
Definition loadCompose (e : gen_env) (path : string) : result gen_error composeFile :=
  match ge_read e path with
  | None => Err (GenOS "read")
  | Some data =>
    match unmarshal_compose data with
    | None => Err (GenMsg "compose parse" [])
    | Some compose => if bool_decide (compose = ∅) then Err (GenMsg "compose file declares no services" []) else Ok compose
    end
  end.
Definition require (b : bool) (message : string) : option gen_error := err_if (negb b) (GenMsg message []) None.
Definition check_options (opt : options) : option gen_error :=
  err_seq (require (negb (bool_decide (o_composePath opt = "")) && negb (bool_decide (o_services opt = "")) &&
      negb (bool_decide (o_runtimeID opt = "")) && negb (bool_decide (o_outDir opt = "")))
    "--compose, --services, --runtime, and --out are required") (
  err_seq (require (validDigest (o_helperDigest opt) && validDigest (o_superDigest opt))
    "--helper-digest and --supervisor-digest must be sha256:<64 lowercase hex>") (
  err_seq (require (negb (bool_decide (o_keys opt = []))) "at least one --key signing key is required") (
  err_seq (require (negb (bool_decide (o_roles opt = []) && bool_decide (o_manifestRole opt = "")))
    "at least one --role (or --manifest-role) is required")
  (require ((0 <? o_ttl opt)%Z && (o_ttl opt <=? MaxManifestTTL)%Z) "--ttl must be in (0, %s]")))).
Definition with_paths (opt : options) : options :=
  let default_path p suffix := if bool_decide (p = "") then "/etc/skret/secret-launch/" +:+ o_runtimeID opt +:+ suffix else p in
  mkOptions (o_composePath opt) (o_services opt) (o_runtimeID opt) (o_outDir opt) (o_manifestRole opt) (o_signKeyID opt)
    (o_generation opt) (o_ttl opt) (o_now opt) (o_nonce opt) (o_helperDigest opt) (o_superDigest opt) (o_defaultUser opt)
    (o_helperPath opt) (default_path (o_manifestPath opt) ".manifest.json") (default_path (o_trustPath opt) ".trust.json")
    (o_secretVersion opt) (o_healthCmd opt) (o_healthInt opt) (o_healthTO opt) (o_healthRetries opt) (o_hbInterval opt)
    (o_hbTimeout opt) (o_keys opt) (o_pubkeys opt) (o_roles opt) (o_runtimeIDs opt) (o_wrapperDigests opt) (o_images opt)
    (o_secrets opt) (o_childArgv opt) (o_childUser opt) (o_healthCmds opt) (o_keyVersions opt).
Definition issue_time (e : gen_env) (opt : options) : time :=
  if (o_now opt =? 0)%Z then ge_now e else time_of_unix (o_now opt).
(** The authorities of the selected services, in order. *)
Fixpoint authorities_of (compose : composeFile) (opt : options) (svcOpts : overrides) (globalWrapper : string)
    (selected names : list string) : result gen_error (list ServiceAuthority) :=
  match names with
  | [] => Ok []
  | name :: names =>
    match compose !! name with
    | None => Err (GenMsg "service %q not present in compose file" [name])
    | Some svc =>
      let! a := context ["service"; name]
        (buildAuthority name svc opt (default no_overrides (svcOpts !! name)) globalWrapper selected) in
      let! rest := authorities_of compose opt svcOpts globalWrapper selected names in
      Ok (a :: rest)
    end
  end.
Definition model_of (opt : options) (authorities : list ServiceAuthority) (digest : string) : RenderedModel :=
  mkModel (o_runtimeID opt) digest (Some (specFromAuthority <$> authorities)).
Definition manifest_of (e : gen_env) (opt : options) (authorities : list ServiceAuthority) (digest : string) : Manifest :=
  let now := issue_time e opt in {|
    m_Version := ManifestVersion; m_RuntimeID := o_runtimeID opt;
    m_Role := if bool_decide (o_manifestRole opt = "") then default "" (head (o_roles opt)) else o_manifestRole opt;
    m_Generation := if (o_generation opt =? 0)%Z then (unix now mod 2 ^ 64)%Z else o_generation opt;
    m_IssuedAt := unix now; m_ExpiresAt := unix (now + o_ttl opt)%Z;
    m_Nonce := if bool_decide (o_nonce opt = "") then ge_nonce e else o_nonce opt;
    m_Services := Some authorities;
    m_Digests := mkDigests (o_helperDigest opt) (o_superDigest opt) digest |}.

(** The three artifacts, before anything is written. *)
Record artifacts := mkArtifacts { ar_signed : string; ar_trust : TrustDocument; ar_model : RenderedModel; ar_manifest : Manifest }.
Definition sign_key (opt : options) (keys : loaded_keys) : string :=
  if bool_decide (o_signKeyID opt = "") then default "" (head (lk_order keys)) else o_signKeyID opt.
Definition build (e : gen_env) (opt : options) : result gen_error artifacts :=
  try! check_options opt;
  let opt := with_paths opt in
  let! compose := loadCompose e (o_composePath opt) in
  let! selected := selectServices compose (o_services opt) in
  let! keys := loadKeys e (o_keys opt) (o_pubkeys opt) in
  let signKeyID := sign_key opt keys in
  match lk_signing keys !! signKeyID with
  | None => Err (GenMsg "sign key %q is not among --key entries" [signKeyID])
  | Some private =>
    let! ov := parseServiceOverrides opt in
    let! authorities := authorities_of compose opt ov.1 ov.2 selected selected in
    let! digest := context ["model digest"] (launch (ModelDigest (model_of opt authorities ""))) in
    let manifest := manifest_of e opt authorities digest in
    let! signed := context ["sign manifest"] (launch (SignManifest manifest signKeyID private (issue_time e opt))) in
    let! trust := buildTrust opt (lk_trust keys) authorities in
    Ok (mkArtifacts signed trust (model_of opt authorities digest) manifest)
  end.

(** The files of the output directory. *)
Definition gen (A : Type) : Type := act (gmap string string) gen_error A.
Definition write_file (e : gen_env) (path data : string) : gen unit := λ w,
  match ge_write e path with
  | None => (<[path := data]> w, Ok ())
  | Some n => (<[path := str_take n data]> w, Err (GenOS "write"))
  end.
Definition read_back (e : gen_env) (path : string) : gen string := λ w,
  match w !! path with
  | Some data => if ge_reread e path then (w, Ok data) else (w, Err (GenOS "read"))
  | None => (w, Err (GenOS "read"))
  end.
Definition selfCheck (e : gen_env) (dir : string) (now : time) : gen unit :=
  do! trustBytes := read_back e (Join dir "trust.json") in
  do! policy := lift (launch (LoadTrustDocument trustBytes)) in
  do! signed := read_back e (Join dir "manifest.json") in
  do! manifest := lift (launch (VerifySignedManifest signed policy now)) in
  do! modelBytes := read_back e (Join dir "model.json") in
  do! model := lift (launch (ParseRenderedModel modelBytes)) in
  guard (GenLaunch <$> ValidateManifestModel manifest model).
Fixpoint write_all (e : gen_env) (dir : string) (outputs : list (string * string)) : gen unit :=
  match outputs with
  | [] => ret ()
  | (name, data) :: outputs => run! write_file e (Join dir name) data; write_all e dir outputs
  end.
Definition outputs_of (a : artifacts) : gmap string string :=
  list_to_map [("manifest.json", ar_signed a); ("trust.json", encode (ar_trust a)); ("model.json", encode (ar_model a))].
Definition generate (e : gen_env) (opt : options) : gen (list string) :=
  do! a := lift (build e opt) in
  run! guard (err_if (negb (ge_mkdir e)) (GenOS "mkdir") None);
  run! write_all e (o_outDir opt) (range_map 12 (outputs_of a));
  run! map_err (GenIn ["self-check"]) (selfCheck e (o_outDir opt) (issue_time e opt));
  ret ["wrote manifest.json, trust.json, model.json to " +:+ o_outDir opt;
       "compose_digest=" +:+ rm_ComposeDigest (ar_model a);
       "self-check: signed manifest verifies against trust document; model binds to manifest"].
(** The exit status: 2 when the flags do not parse, 1 when generation fails. *)
Definition run (e : gen_env) (parsed : option options) (w : gmap string string) : gmap string string * Z :=
  match parsed with
  | None => (w, 2%Z)
  | Some opt => match generate e opt w with (w', Ok _) => (w', 0%Z) | (w', Err _) => (w', 1%Z) end
  end.
End gen.
