(* ===== verification/ComposeGenProps.v ===== *)
(** What the generator writes does not depend on the values of secrets nor on the order in
which Go visits its maps. *)

From S2P Require Import Prelude GoStrings Provider Paths Digest GoEncoding Base64 Json Effects LaunchError JsonScan LaunchTypes LaunchManifest LaunchProps LaunchSession LaunchRuntime ComposeGen.
#[local] Open Scope go_scope.

(** * Results *)

Lemma context_Ok {A} c (m : result gen_error A) a : context c m = Ok a ↔ m = Ok a.
Proof. destruct m; cbn; naive_solver. Qed.
Lemma launch_Ok {A} (m : result LaunchError A) a : launch m = Ok a ↔ m = Ok a.
Proof. destruct m; cbn; naive_solver. Qed.
Lemma if_Err_Ok {E A} (b : bool) (e : E) (m : result E A) a : (if b then Err e else m) = Ok a ↔ b = false ∧ m = Ok a.
Proof. destruct b; naive_solver. Qed.

Lemma decide_ext_bool {A} (P Q : Prop) `{Decision P, Decision Q} (x y : A) :
  (P ↔ Q) → (if bool_decide P then x else y) = (if bool_decide Q then x else y).
Proof. intros E. by rewrite (bool_decide_ext P Q). Qed.

(** * Keys *)

Lemma StronglySorted_weaken {A} (R R' : A → A → Prop) l :
  (∀ x y, R' x y → R x y) → StronglySorted R' l → StronglySorted R l.
Proof. intros H. induction 1 as [|x l _ IH Hx]; constructor; [done|]. eapply Forall_impl; [exact Hx|]. auto. Qed.
Section sorted.
Context {SS : SortSlice}.
Lemma key_less_sorted (l : list ManifestKey) : StronglySorted (λ x y, str_le (mk_Name x) (mk_Name y)) (sort_slice key_less l).
Proof.
  eapply (StronglySorted_weaken _ (λ x y, key_less y x = false)); [|apply sort_slice_sorted].
  - intros x y Hxy. unfold key_less in Hxy. by apply Is_true_true, negb_false_iff.
  - intros x y. unfold key_less. rewrite negb_true_iff, negb_false_iff. intros Hxy.
    apply str_le_true. apply not_true_iff_false in Hxy. rewrite str_le_true in Hxy. by destruct (total String.le (mk_Name x) (mk_Name y)).
  - intros x y z. unfold key_less. rewrite !negb_false_iff, !str_le_true. intros ??. by transitivity (mk_Name y).
Qed.
End sorted.
Lemma sorted_keys_unique (S1 S2 : SortSlice) (l1 l2 : list ManifestKey) :
  l1 ≡ₚ l2 → NoDup (mk_Name <$> sort_slice (SortSlice := S1) key_less l1) →
  sort_slice (SortSlice := S1) key_less l1 = sort_slice (SortSlice := S2) key_less l2.
Proof.
  intros Hp Hnd.
  assert (Hps : sort_slice (SortSlice := S1) key_less l1 ≡ₚ sort_slice (SortSlice := S2) key_less l2).
  { by rewrite !sort_slice_perm. }
  eapply (StronglySorted_unique_strong (λ x y, str_le (mk_Name x) (mk_Name y)));
    [|apply (key_less_sorted (SS := S1))|apply (key_less_sorted (SS := S2))|done].
  intros x y Hx Hy Hxy Hyx.
  assert (E : mk_Name x = mk_Name y).
  { apply Is_true_true, str_le_true in Hxy. apply Is_true_true, str_le_true in Hyx. by apply (anti_symm String.le). }
  rewrite <-Hps in Hy. clear -Hnd Hx Hy E.
  induction (sort_slice (SortSlice := S1) key_less l1) as [|k l IH]; [set_solver|].
  cbn in Hnd. apply NoDup_cons in Hnd as [Hk Hnd]. apply elem_of_cons in Hx, Hy.
  destruct Hx as [->|Hx], Hy as [->|Hy]; [done| | |by apply IH].
  - destruct Hk. rewrite E. by apply list_elem_of_fmap_2.
  - destruct Hk. rewrite <-E. by apply list_elem_of_fmap_2.
Qed.

(** * Splitting an environment *)

Section environment.
Context {UC : UnicodeCase}.

Definition secret_names (l : list (string * string)) : list string := List.filter secretLike l.*1.
Definition key_of (version name : string) : ManifestKey := mkKey name version name.
Lemma env_loop_Ok v l keys env keys' env' :
  env_loop v l keys env = Ok (keys', env') →
  keys' = keys ++ (key_of v <$> secret_names l) ∧
  ∀ k, env' !! k = if bool_decide (k ∈ secret_names l) then None else env !! k.
Proof.
  revert keys env. induction l as [|[key value] l IH]; intros keys env; cbn [env_loop].
  { intros [= <- <-]. by rewrite app_nil_r. }
  rewrite !if_Err_Ok. intros (_ & _ & H). unfold secret_names in *. cbn [fmap list_fmap map fst List.filter].
  destruct (secretLike key) eqn:Es.
  - apply IH in H as [-> H]. split; [by rewrite <-app_assoc|]. intros k. rewrite H.
    destruct (decide (k = key)) as [->|Hne].
    + rewrite lookup_delete_eq. rewrite (bool_decide_true (key ∈ key :: _)) by (by left). by case_bool_decide.
    + rewrite lookup_delete_ne by congruence. apply decide_ext_bool. rewrite elem_of_cons. naive_solver.
  - by apply IH in H.
Qed.
Lemma delete_keys_lookup (keys : list ManifestKey) (m : gmap string string) k :
  foldr (λ key m, delete (mk_Env key) m) m keys !! k = if bool_decide (k ∈ mk_Env <$> keys) then None else m !! k.
Proof.
  induction keys as [|key keys IH]; [done|]. cbn [foldr]. destruct (decide (k = mk_Env key)) as [->|Hne].
  - rewrite lookup_delete_eq, bool_decide_true; [done|]. by left.
  - rewrite lookup_delete_ne, IH by congruence. cbn [fmap list_fmap map].
    apply decide_ext_bool. rewrite elem_of_cons. naive_solver.
Qed.

(** What never shows: the names that look secret and those mapped by a flag. *)
Definition hidden (ov : serviceOverrides) (k : string) : Prop := secretLike k = true ∨ k ∈ mk_Env <$> ov_secrets ov.
#[global] Instance hidden_dec ov k : Decision (hidden ov k).
Proof. unfold hidden. apply _. Defined.
Lemma split_environment_Ok {MR : MapRange} {SS : SortSlice} opt ov env keys env' :
  split_environment opt ov env = Ok (keys, env') →
  keys = sort_slice key_less (ov_secrets ov ++ (key_of (o_secretVersion opt) <$> secret_names (range_map 10 (default ∅ env)))) ∧
  env' = (λ m, filter (λ x, ¬ hidden ov x.1) m) <$> env.
Proof.
  unfold split_environment. intros H. apply result_bind_Ok in H as ([keys0 rest] & Hl & H).
  apply env_loop_Ok in Hl as [-> Hrest]. apply if_Err_Ok in H as [_ [= <- <-]]. split; [done|].
  destruct env as [m|]; [|done]. cbn [fmap option_fmap option_map default]. f_equal. apply map_eq. intros k.
  rewrite delete_keys_lookup, Hrest. cbn [default].
  rewrite fmap_app, map_lookup_filter. destruct (m !! k) as [x|] eqn:Ek; cbn.
  - assert (Hs : k ∈ secret_names (range_map 10 m) ↔ secretLike k = true).
    { unfold secret_names. rewrite list_elem_of_In, filter_In, <-list_elem_of_In, range_map_keys, Ek. naive_solver. }
    destruct (decide (hidden ov k)) as [Hh|Hh].
    + rewrite option_guard_False by tauto. case_bool_decide as H1; [done|]. rewrite bool_decide_true; [done|].
      apply Hs. destruct Hh as [?|Hh]; [done|]. destruct H1. rewrite elem_of_app. by left.
    + rewrite option_guard_True by done. rewrite !bool_decide_false; [done| |].
      * rewrite Hs. intros H. apply Hh. by left.
      * rewrite elem_of_app. intros [H|H]; [apply Hh; by right|]. apply Hh. left. apply Hs.
        rewrite <-list_fmap_compose in H. by rewrite list_fmap_id in H.
  - by repeat case_bool_decide.
Qed.
End environment.

(** * Determinism *)

Section labels.
Context {UC : UnicodeCase}.
Definition launch_label (k : string) : bool := has_prefix k "com.skret.secret-launch".
Lemma label_loop_Ok l labels kept :
  label_loop l labels = Ok kept →
  ∀ k, kept !! k = if bool_decide (k ∈ l.*1 ∧ launch_label k = true) then None else labels !! k.
Proof.
  revert labels. induction l as [|[key value] l IH]; intros labels; cbn [label_loop].
  { intros [= <-] k. rewrite bool_decide_false; [done|]. by intros [?%elem_of_nil _]. }
  intros H k. change (((key, value) :: l).*1) with (key :: l.*1).
  destruct (has_prefix key _) eqn:Ep; [|apply if_Err_Ok in H as [_ H]]; rewrite (IH _ H k).
  - destruct (decide (k = key)) as [->|Hne].
    + rewrite lookup_delete_eq, (bool_decide_true (key ∈ key :: _ ∧ _)) by (split; [by left|done]). by case_bool_decide.
    + rewrite lookup_delete_ne by congruence. apply decide_ext_bool. rewrite elem_of_cons. naive_solver.
  - apply decide_ext_bool. rewrite elem_of_cons. split; [naive_solver|]. intros [[->|?] ?]; [|done].
    unfold launch_label in *. congruence.
Qed.
End labels.

Section determinism.
Context {UC : UnicodeCase} {GL : GenLib} (M1 M2 : MapRange) (S1 S2 : SortSlice).

(** Two environments with the same names, and the same values but for the hidden ones. *)
Definition env_like (ov : serviceOverrides) (e1 e2 : string_map) : Prop :=
  match e1, e2 with
  | None, None => True
  | Some m1, Some m2 => dom m1 = dom m2 ∧ ∀ k, ¬ hidden ov k → m1 !! k = m2 !! k
  | _, _ => False
  end.
(** Two services that differ in hidden values at most. *)
Definition service_like (ov : serviceOverrides) (s1 s2 : composeService) : Prop :=
  (∀ e1 e2, mapOrList (cs_Environment s1) false = Ok e1 → mapOrList (cs_Environment s2) false = Ok e2 → env_like ov e1 e2) ∧
  s2 = mkComposeService (cs_Image s1) (cs_User s1) (cs_Command s1) (cs_Entrypoint s1) (cs_Environment s2) (cs_Labels s1)
    (cs_Networks s1) (cs_DependsOn s1) (cs_Restart s1) (cs_Healthcheck s1).

Lemma range_names_perm (m1 m2 : gmap string string) :
  dom m1 = dom m2 → (range_map (MapRange := M1) 10 m1).*1 ≡ₚ (range_map (MapRange := M2) 10 m2).*1.
Proof.
  intros Hd. apply NoDup_Permutation; [apply NoDup_range_map..|]. intros k.
  rewrite (range_map_keys (MR := M1)), (range_map_keys (MR := M2)), <-!elem_of_dom. by rewrite Hd.
Qed.
Lemma split_environment_like opt ov env1 env2 keys1 keys2 r1 r2 :
  env_like ov env1 env2 →
  split_environment (MR := M1) (SS := S1) opt ov env1 = Ok (keys1, r1) →
  split_environment (MR := M2) (SS := S2) opt ov env2 = Ok (keys2, r2) →
  NoDup (mk_Name <$> keys1) → keys1 = keys2 ∧ r1 = r2.
Proof.
  intros Hl [-> ->]%split_environment_Ok [-> ->]%split_environment_Ok Hnd. split.
  - apply sorted_keys_unique; [|done]. f_equiv. f_equiv.
    assert (Hp : (range_map (MapRange := M1) 10 (default ∅ env1)).*1 ≡ₚ (range_map (MapRange := M2) 10 (default ∅ env2)).*1).
    { destruct env1, env2; try done; apply range_names_perm; [apply Hl|done]. }
    unfold secret_names. clear -Hp. induction Hp as [|x l l' _ IH|x y l|l l' l'' _ IH _ IH']; cbn [List.filter].
    + done.
    + destruct (secretLike x); by rewrite IH.
    + destruct (secretLike x), (secretLike y); try done. apply Permutation_swap.
    + by etrans.
  - destruct env1 as [m1|], env2 as [m2|]; try done. destruct Hl as [Hd Hk]. cbn. f_equal. apply map_eq. intros k.
    rewrite !map_lookup_filter. destruct (decide (hidden ov k)) as [Hh|Hh].
    + destruct (m1 !! k), (m2 !! k); cbn; rewrite ?option_guard_False by tauto; done.
    + by rewrite (Hk k Hh).
Qed.
Lemma labels_like (labels : string_map) k1 k2 :
  label_loop (range_map (MapRange := M1) 11 (default ∅ labels)) (default ∅ labels) = Ok k1 →
  label_loop (range_map (MapRange := M2) 11 (default ∅ labels)) (default ∅ labels) = Ok k2 → k1 = k2.
Proof.
  intros H1 H2. apply map_eq. intros k. rewrite (label_loop_Ok _ _ _ H1), (label_loop_Ok _ _ _ H2).
  apply decide_ext_bool. by rewrite (range_map_keys (MR := M1)), (range_map_keys (MR := M2)).
Qed.
Lemma buildAuthority_like name s1 s2 opt ov wrapper selected a1 a2 :
  service_like ov s1 s2 →
  buildAuthority (MR := M1) (SS := S1) name s1 opt ov wrapper selected = Ok a1 →
  buildAuthority (MR := M2) (SS := S2) name s2 opt ov wrapper selected = Ok a2 →
  NoDup (mk_Name <$> elems (sa_Keys a1)) → a1 = a2.
Proof.
  intros [Henv Hs2]. unfold buildAuthority. rewrite Hs2.
  cbn [cs_Image cs_User cs_Command cs_Entrypoint cs_Environment cs_Labels cs_Networks cs_DependsOn cs_Healthcheck].
  rewrite !if_Err_Ok. intros (_ & _ & H1) (_ & _ & H2).
  apply result_bind_Ok in H1 as (e1 & He1%context_Ok & H1), H2 as (e2 & He2%context_Ok & H2).
  apply result_bind_Ok in H1 as ([keys1 r1] & Hsp1 & H1), H2 as ([keys2 r2] & Hsp2 & H2).
  apply result_bind_Ok in H1 as (l1 & Hl1 & H1), H2 as (l2 & Hl2 & H2). assert (l2 = l1) as -> by congruence. clear Hl1 Hl2.
  apply result_bind_Ok in H1 as (kept1 & Hk1 & H1), H2 as (kept2 & Hk2 & H2).
  pose proof (labels_like _ _ _ Hk1 Hk2) as ->. clear Hk1 Hk2.
  apply result_bind_Ok in H1 as (n1 & Hn1 & H1), H2 as (n2 & Hn2 & H2). assert (n2 = n1) as -> by congruence. clear Hn1 Hn2.
  apply result_bind_Ok in H1 as (d1 & Hd1 & H1), H2 as (d2 & Hd2 & H2). assert (d2 = d1) as -> by congruence. clear Hd1 Hd2.
  apply result_bind_Ok in H1 as (h1 & Hh1 & H1), H2 as (h2 & Hh2 & H2). assert (h2 = h1) as -> by congruence. clear Hh1 Hh2.
  apply result_bind_Ok in H1 as (c1 & Hc1 & H1), H2 as (c2 & Hc2 & H2).
  assert (c2 = c1) as -> by (unfold child_argv in *; cbn in *; congruence). clear Hc1 Hc2.
  rewrite !if_Err_Ok in H1, H2. destruct H1 as (_ & _ & [= <-]), H2 as (_ & _ & [= <-]). cbn [sa_Keys elems default]. intros Hnd.
  destruct (split_environment_like _ _ _ _ _ _ _ _ (Henv _ _ He1 He2) Hsp1 Hsp2 Hnd) as [-> ->]. done.
Qed.

Lemma authorities_like c1 c2 opt (ov : overrides) wrapper selected names l1 l2 :
  (∀ name, name ∈ names → ∀ s1 s2, c1 !! name = Some s1 → c2 !! name = Some s2 → service_like (default no_overrides (ov !! name)) s1 s2) →
  authorities_of (MR := M1) (SS := S1) c1 opt ov wrapper selected names = Ok l1 →
  authorities_of (MR := M2) (SS := S2) c2 opt ov wrapper selected names = Ok l2 →
  (∀ a, a ∈ l1 → NoDup (mk_Name <$> elems (sa_Keys a))) → l1 = l2.
Proof.
  intros Hs. revert l1 l2. induction names as [|name names IH]; intros l1 l2; cbn [authorities_of]; [by intros [= <-] [= <-]|].
  destruct (c1 !! name) as [s1|] eqn:E1; [|done]. destruct (c2 !! name) as [s2|] eqn:E2; [|done]. intros H1 H2 Hnd.
  apply result_bind_Ok in H1 as (a1 & Ha1%context_Ok & H1), H2 as (a2 & Ha2%context_Ok & H2).
  apply result_bind_Ok in H1 as (t1 & Ht1 & [= <-]), H2 as (t2 & Ht2 & [= <-]). f_equal.
  - eapply (buildAuthority_like name s1 s2); [apply (Hs name); [by left|done..]|done|done|apply Hnd; by left].
  - apply IH; [intros n Hn; apply Hs; by right|done|done|intros a Ha; apply Hnd; by right].
Qed.

Context {SH : SHA256} {ED : Ed25519}.

Lemma signed_keys (MR : MapRange) m keyID private now data a :
  SignManifest (MR := MR) m keyID private now = Ok data → a ∈ elems (m_Services m) → NoDup (mk_Name <$> elems (sa_Keys a)).
Proof.
  unfold SignManifest. intros H Ha. apply err_guard_Ok in H as [_ H]. apply err_guard_Ok in H as [H _].
  apply ValidateAt_inv in H as [Hv _]. apply Validate_services with (s := a) in Hv; [|done].
  unfold validateServiceAuthority in Hv. inv_ok.
  match goal with H : key_loop _ _ _ _ = None |- _ => by apply key_loop_names in H as [? _] end.
Qed.

(** The keys, the clock and the random numbers are the same. *)
Definition same_machine (opt : options) (e1 e2 : gen_env) : Prop :=
  loadKeys e1 (o_keys opt) (o_pubkeys opt) = loadKeys e2 (o_keys opt) (o_pubkeys opt) ∧
  ge_now e1 = ge_now e2 ∧ ge_nonce e1 = ge_nonce e2.
Definition compose_like (ov : overrides) (c1 c2 : composeFile) : Prop :=
  (∀ name, c1 !! name = None ↔ c2 !! name = None) ∧
  ∀ name s1 s2, c1 !! name = Some s1 → c2 !! name = Some s2 → service_like (default no_overrides (ov !! name)) s1 s2.

Lemma select_like ov c1 c2 csv : compose_like ov c1 c2 → selectServices c1 csv = selectServices c2 csv.
Proof.
  intros [Hn _]. unfold selectServices.
  assert (E : ∀ l, List.find (λ name, bool_decide (c1 !! name = None)) l = List.find (λ name, bool_decide (c2 !! name = None)) l).
  { induction l as [|x l IH]; [done|]. cbn. by rewrite (bool_decide_ext _ _ (Hn x)), IH. }
  by rewrite E.
Qed.

(** The artifacts are a function of what may show in them.  Take two runs with the same
options, keys and clock, on compose files that differ at most in the values of variables whose
names look secret or are mapped by a flag, each run visiting its maps in an order of its own
and breaking ties in its sorts as it likes: if both build artifacts, they are the same, byte
for byte.  So no such value reaches the manifest, the model or the trust document, and two
runs on one input cannot disagree. *)
Theorem artifacts_determined opt e1 e2 c1 c2 ov wrapper a1 a2 :
  same_machine opt e1 e2 → parseServiceOverrides opt = Ok (ov, wrapper) →
  loadCompose e1 (o_composePath opt) = Ok c1 → loadCompose e2 (o_composePath opt) = Ok c2 → compose_like ov c1 c2 →
  build (MR := M1) (SS := S1) e1 opt = Ok a1 → build (MR := M2) (SS := S2) e2 opt = Ok a2 → a1 = a2.
Proof.
  intros (Hkeys & Hnow & Hnonce) Hov Hc1 Hc2 Hlike. unfold build. intros [_ H1]%err_guard_Ok [_ H2]%err_guard_Ok.
  cbn [with_paths o_composePath o_services o_keys o_pubkeys o_signKeyID] in H1, H2.
  rewrite Hc1 in H1. rewrite Hc2 in H2. cbn [result_bind] in H1, H2. rewrite <-(select_like _ _ _ _ Hlike) in H2.
  apply result_bind_Ok in H1 as (sel & Hsel & H1), H2 as (sel2 & Hsel2 & H2). assert (sel2 = sel) as -> by congruence.
  apply result_bind_Ok in H1 as (keys & Hk1 & H1), H2 as (keys2 & Hk2 & H2). assert (keys2 = keys) as -> by congruence.
  destruct (lk_signing keys !! _) as [private|]; [|done].
  change (parseServiceOverrides (with_paths opt)) with (parseServiceOverrides opt) in H1, H2. rewrite Hov in H1, H2.
  cbn [result_bind fst snd] in H1, H2.
  apply result_bind_Ok in H1 as (l1 & Hl1 & H1), H2 as (l2 & Hl2 & H2).
  apply result_bind_Ok in H1 as (dg1 & Hd1%context_Ok%launch_Ok & H1), H2 as (dg2 & Hd2%context_Ok%launch_Ok & H2).
  apply result_bind_Ok in H1 as (sg1 & Hs1%context_Ok%launch_Ok & H1), H2 as (sg2 & Hs2%context_Ok%launch_Ok & H2).
  assert (l1 = l2) as <-.
  { eapply authorities_like; [|exact Hl1|exact Hl2|].
    - intros name _ s1 s2. apply Hlike.
    - intros a Ha. by eapply (signed_keys M1); [exact Hs1|]. }
  apply result_bind_Ok in H1 as (t1 & Ht1 & [= <-]), H2 as (t2 & Ht2 & [= <-]).
  assert (dg2 = dg1) as ->.
  { unfold ModelDigest in Hd1, Hd2. apply err_guard_Ok in Hd1 as [_ [= <-]], Hd2 as [_ [= <-]]. done. }
  assert (Em : manifest_of e2 (with_paths opt) l1 dg1 = manifest_of e1 (with_paths opt) l1 dg1).
  { unfold manifest_of, issue_time. by rewrite Hnow, Hnonce. }
  rewrite Em in *. f_equal.
  - unfold SignManifest in Hs1, Hs2. apply err_guard_Ok in Hs1 as [_ Hs1], Hs2 as [_ Hs2].
    apply err_guard_Ok in Hs1 as [_ Hs1], Hs2 as [_ Hs2]. congruence.
  - congruence.
Qed.
End determinism.
