(* ===== verification/ComposeGenAccept.v ===== *)
(** What the generator builds the supervisor accepts: its self-check cannot fail once the
manifest is signed, on a disk that works. *)

From S2P Require Import Prelude GoStrings Provider Paths Digest GoEncoding Base64 Json Effects LaunchError JsonScan LaunchTypes LaunchManifest LaunchProps LaunchSession LaunchRuntime LaunchRuntimeProps ComposeGen ComposeGenProps.
#[local] Open Scope go_scope.

#[export] Instance text_of_spec `{JsonLib} : JsonText ServiceSpec.
Proof.
  intros x H0. hnf in H0. destruct_and!. change (encode x) with (json_spec x). unfold json_spec. eapply record_text.
  - repeat (eapply field_more; [reflexivity|done|]). eapply field_last; [reflexivity|done].
  - by_decide.
Qed.
#[export] Instance text_of_model `{JsonLib} : JsonText RenderedModel.
Proof.
  intros x H0. hnf in H0. destruct_and!. change (encode x) with (json_model x). unfold json_model. eapply record_text.
  - repeat (eapply field_more; [reflexivity|done|]). eapply field_last; [reflexivity|done].
  - by_decide.
Qed.

(** * Trust *)

Lemma boolSet_loop_lookup last acc l k :
  StronglySorted (λ x y, str_le y x = false) (last :: l) → Forall (λ x, x ≠ "") l →
  boolSet_loop last acc l !! k = if bool_decide (k ∈ l) then Some true else acc !! k.
Proof.
  revert last acc. induction l as [|v l IH]; intros last acc Hs Hne; cbn [boolSet_loop]; [done|].
  apply StronglySorted_inv in Hs as [Hs Hlast]. apply Forall_cons in Hlast as [Hv _], Hne as [Hv' Hne].
  rewrite bool_decide_false, Hv by done. cbn [orb]. rewrite IH by done.
  destruct (decide (k = v)) as [->|Hkv].
  - rewrite lookup_insert_eq, (bool_decide_true (v ∈ v :: l)) by (by left). by case_bool_decide.
  - rewrite lookup_insert_ne by done. apply decide_ext_bool. rewrite elem_of_cons. naive_solver.
Qed.
Lemma str_lt_of x y : str_le x y = true → x ≠ y → str_le y x = false.
Proof.
  intros Hxy Hne. apply not_true_iff_false. intros Hyx. apply str_le_true in Hxy, Hyx. apply Hne. by apply (anti_symm String.le).
Qed.
Lemma boolSet_sortedKeys (set : gmap string bool) k :
  set !! "" = None → boolSet (Some (sortedKeys set)) !! k = if bool_decide (is_Some (set !! k)) then Some true else None.
Proof.
  intros Hne. unfold boolSet. cbn [elems default]. set (l := sortedKeys set).
  assert (Hl : ∀ x, x ∈ l ↔ is_Some (set !! x)).
  { intros x. unfold l, sortedKeys. rewrite elem_of_sort_strings, list_elem_of_fmap. split.
    - intros ([y v] & -> & Hin). apply elem_of_map_to_list in Hin. by eexists.
    - intros [v Hv]. exists (x, v). split; [done|]. by apply elem_of_map_to_list. }
  assert (Hemp : ∀ x, x ∈ l → x ≠ "").
  { intros x Hx ->. apply Hl in Hx as [v Hv]. congruence. }
  rewrite boolSet_loop_lookup.
  - apply decide_ext_bool. apply Hl.
  - assert (Hnd : NoDup l).
    { unfold l, sortedKeys. rewrite sort_strings_perm. apply NoDup_fst_map_to_list. }
    pose proof (sort_strings_sorted (map_to_list set).*1) as Hs. fold l in Hs. unfold sortedKeys in *.
    change (sort_strings (map_to_list set).*1) with l in Hs. constructor.
    + clear Hl Hemp. induction Hs as [|x l' Hs IH Hx]; constructor.
      * apply IH. by apply NoDup_cons in Hnd as [_ ?].
      * apply NoDup_cons in Hnd as [Hnin _]. rewrite Forall_forall in Hx |- *. intros y Hy. apply str_lt_of.
        { apply str_le_true. by apply Hx. }
        { by intros ->. }
    + apply Forall_forall. intros x Hx%Hemp. apply str_lt_of; [|done]. apply str_le_true. by destruct x.
  - apply Forall_forall. auto.
Qed.

Lemma decode_keys_Ok l :
  NoDup l.*1 → (∀ id encoded, (id, encoded) ∈ l → ∃ key, StdDecode encoded = Some key ∧ String.length key = PublicKeySize) →
  ∃ m, decode_keys l = Ok m ∧ ∀ id, m !! id = (list_to_map l : gmap string string) !! id ≫= StdDecode.
Proof.
  induction l as [|[id encoded] l IH]; intros Hnd Hl; cbn [decode_keys].
  { exists ∅. split; [done|]. intros id. by rewrite lookup_empty. }
  destruct (Hl id encoded) as (key & Hk & Hlen); [by left|]. rewrite Hk, Hlen. cbn [Nat.eqb PublicKeySize].
  apply NoDup_cons in Hnd as [_ Hnd]. destruct IH as (m & Hm & Hlook); [done|intros i x Hin; apply (Hl i x); by right|].
  rewrite Hm. cbn. eexists; split; [done|]. intros i. cbn [list_to_map]. destruct (decide (i = id)) as [->|Hne].
  - by rewrite !lookup_insert_eq.
  - by rewrite !lookup_insert_ne by congruence.
Qed.

(** * Signing keys *)

Section accept.
Context {UC : UnicodeCase} {MR : MapRange} {SS : SortSlice} {SH : SHA256} {ED : Ed25519} {GL : GenLib}.

Lemma fold_result_inv {E A B} (f : B → A → result E B) (I : B → Prop) l b b' :
  (∀ b x b', x ∈ l → I b → f b x = Ok b' → I b') → I b → fold_result f l b = Ok b' → I b'.
Proof.
  revert b. induction l as [|x l IH]; intros b Hf Hb; cbn [fold_result]; [by intros [= <-]|].
  intros (b1 & H1 & H2)%result_bind_Ok. eapply IH; [|by eapply (Hf b x); [left| |]|exact H2].
  intros b2 y b3 Hy. apply Hf. by right.
Qed.

Definition trust_ok (trust : gmap string string) : Prop := ∀ id encoded, trust !! id = Some encoded →
  id ≠ "" ∧ ∃ key, StdDecode encoded = Some key ∧ String.length key = PublicKeySize.
Definition keys_ok (k : loaded_keys) : Prop :=
  trust_ok (lk_trust k) ∧
  ∀ id private, lk_signing k !! id = Some private →
    id ≠ "" ∧ String.length private = PrivateKeySize ∧ lk_trust k !! id = Some (StdEncoding (ed_public private)).
Lemma parsePrivateKey_size e source private :
  parsePrivateKey e source = Ok private → String.length private = PrivateKeySize.
Proof.
  unfold parsePrivateKey. intros (raw & _ & H)%result_bind_Ok.
  set (raw' := match hex_decode _ with Some d => d | None => _ end) in H. clearbody raw'.
  destruct (Nat.eqb_spec (String.length raw') PrivateKeySize) as [Hl|_]; [by injection H as <-|].
  destruct (String.length raw' =? SeedSize); [|done]. injection H as <-. apply ed_from_seed_size.
Qed.
Lemma load_key_ok e k entry k' : keys_ok k → load_key e k entry = Ok k' → keys_ok k'.
Proof.
  intros [Ht Hs]. unfold load_key. destruct (key_entry e entry) as [named_ source] eqn:Ee.
  intros (private & Hp%context_Ok & H)%result_bind_Ok. apply parsePrivateKey_size in Hp.
  set (keyID := match named_ with Some id => id | None => _ end) in H.
  assert (Hid : keyID ≠ "").
  { unfold keyID. clear keyID H. revert Ee. unfold key_entry. destruct (cut entry) as [[head tail]|]; [|by intros [= <- _]].
    case_bool_decide; [by intros [= <- _]|].
    destruct (is_ok _); [by intros [= <- _]|]. destruct (ge_regular e tail); by intros [= <- _]. }
  clearbody keyID. case_bool_decide; [done|]. injection H as <-. split.
  - intros id encoded. cbn. destruct (decide (id = keyID)) as [->|Hne].
    + rewrite lookup_insert_eq. intros [= <-]. split; [done|]. exists (ed_public private).
      split; [apply StdDecode_encode|apply ed_public_size].
    + rewrite lookup_insert_ne by congruence. apply Ht.
  - intros id p. cbn. destruct (decide (id = keyID)) as [->|Hne].
    + rewrite !lookup_insert_eq. intros [= <-]. done.
    + rewrite !lookup_insert_ne by congruence. apply Hs.
Qed.
Lemma load_pubkey_ok trust entry trust' : trust_ok trust → load_pubkey trust entry = Ok trust' → trust_ok trust'.
Proof.
  intros Ht. unfold load_pubkey. destruct (cut entry) as [[keyID encoded]|]; [|done]. case_bool_decide; [done|].
  destruct (StdDecode encoded) as [raw|] eqn:Ed; [|done]. destruct (Nat.eqb_spec (String.length raw) PublicKeySize); [|done].
  intros [= <-] id enc. destruct (decide (id = keyID)) as [->|Hne].
  - rewrite lookup_insert_eq. intros [= <-]. eauto.
  - rewrite lookup_insert_ne by congruence. apply Ht.
Qed.
Lemma loadKeys_ok e entries pubkeys k id private :
  loadKeys e entries pubkeys = Ok k → lk_signing k !! id = Some private →
  (∀ entry encoded, entry ∈ pubkeys → cut entry ≠ Some (id, encoded)) →
  trust_ok (lk_trust k) ∧ id ≠ "" ∧ String.length private = PrivateKeySize ∧
  lk_trust k !! id = Some (StdEncoding (ed_public private)).
Proof.
  intros (k0 & H0 & H1)%result_bind_Ok Hid Hpub. apply result_bind_Ok in H1 as (trust & H1 & [= <-]). cbn in *.
  assert (Hk : keys_ok k0).
  { refine (fold_result_inv _ keys_ok _ _ _ _ _ H0).
    - intros b x b' _. apply load_key_ok.
    - split; intros ? ? H; cbn in H; by rewrite lookup_empty in H. }
  destruct Hk as [Ht Hs]. destruct (Hs _ _ Hid) as (Hne & Hlen & Htr).
  assert (Hinv : trust_ok trust ∧ trust !! id = Some (StdEncoding (ed_public private))).
  { eapply (fold_result_inv _ (λ t, trust_ok t ∧ t !! id = Some (StdEncoding (ed_public private)))); [|by split|exact H1].
    intros t x t' Hx [Hto Hti] Hl. split; [by eapply load_pubkey_ok|]. revert Hl. unfold load_pubkey.
    destruct (cut x) as [[keyID encoded]|] eqn:Ex; [|done]. case_bool_decide; [done|]. destruct (StdDecode encoded); [|done].
    destruct (_ =? _); [|done]. intros [= <-]. rewrite lookup_insert_ne; [done|]. intros ->. by apply (Hpub x encoded Hx). }
  tauto.
Qed.

(** * Versions *)

Definition allows (kv : key_versions) (name version : string) : Prop :=
  ∃ vs, kv !! name = Some vs ∧ vs !! version = Some true.
Lemma allow_this name version kv : allows (allow name version kv) name version.
Proof. unfold allow. eexists. split; [apply lookup_insert_eq|apply lookup_insert_eq]. Qed.
Lemma allow_mono n v name version kv : allows kv name version → allows (allow n v kv) name version.
Proof.
  intros (vs & Hn & Hv). unfold allow, allows. destruct (decide (name = n)) as [->|Hne].
  - exists (<[v := true]> vs). split; [rewrite lookup_insert_eq, Hn; done|].
    destruct (decide (version = v)) as [->|Hv'].
    + by rewrite lookup_insert_eq.
    + by rewrite lookup_insert_ne by congruence.
  - exists vs. by rewrite lookup_insert_ne by congruence.
Qed.
Lemma authority_versions_allows l a k :
  a ∈ l → k ∈ elems (sa_Keys a) → allows (authority_versions l) (mk_Name k) (mk_Version k).
Proof.
  intros Ha Hk. unfold authority_versions.
  assert (Hin : ∀ (keys : list ManifestKey) kv n v, allows kv n v → allows (foldl (λ kv k, allow (mk_Name k) (mk_Version k) kv) kv keys) n v).
  { induction keys as [|x keys IH]; intros kv n v H; [done|]. by apply IH, allow_mono. }
  assert (Hin' : ∀ (keys : list ManifestKey) kv k, k ∈ keys →
    allows (foldl (λ kv k, allow (mk_Name k) (mk_Version k) kv) kv keys) (mk_Name k) (mk_Version k)).
  { induction keys as [|x keys IH]; intros kv k' Hk'; [set_solver|]. apply elem_of_cons in Hk' as [->|Hk']; cbn.
    - apply Hin, allow_this.
    - by apply IH. }
  assert (Hout : ∀ l kv n v, allows kv n v →
    allows (foldl (λ kv a, foldl (λ kv k, allow (mk_Name k) (mk_Version k) kv) kv (elems (sa_Keys a))) kv l) n v).
  { clear -Hin. induction l as [|x l IH]; intros kv n v H; [done|]. cbn. by apply IH, Hin. }
  generalize (∅ : key_versions) as kv. induction l as [|x l IH]; intros kv; [set_solver|].
  apply elem_of_cons in Ha as [->|Ha]; cbn; [by apply Hout, Hin'|by apply IH].
Qed.
Lemma set_of_lookup l k : is_Some (set_of l !! k) ↔ k ∈ l.
Proof.
  unfold set_of. rewrite <-elem_of_dom, dom_list_to_map_L, elem_of_list_to_set, <-list_fmap_compose.
  by rewrite (list_fmap_id l : (fst ∘ (λ x, (x, true))) <$> l = l).
Qed.

Context {JL : JsonLib} {DM : JsonDecode Manifest} {DS : JsonDecode SignedManifest}
  {DT : JsonDecode TrustDocument} {DR : JsonDecode RenderedModel}.

Lemma allowed_sorted l k : "" ∉ l → allowed (boolSet (Some (sortedKeys (set_of l)))) k = bool_decide (k ∈ l).
Proof.
  intros Hne. unfold allowed. rewrite boolSet_sortedKeys.
  - rewrite (bool_decide_ext _ (k ∈ l)) by apply set_of_lookup. by case_bool_decide.
  - apply eq_None_not_Some. by rewrite set_of_lookup.
Qed.
(** The trust document loads to a policy that trusts what it was built for. *)
Lemma built_trust_loads opt keys authorities trust id key :
  buildTrust opt keys authorities = Ok trust → wf trust → reads_back trust → trust_ok keys →
  keys !! id = Some (StdEncoding key) → o_runtimeID opt ≠ "" → "" ∉ o_runtimeIDs opt → "" ∉ o_roles opt →
  (o_manifestRole opt ≠ "" ∨ o_roles opt ≠ []) → authorities ≠ [] → (∀ a, a ∈ authorities → elems (sa_Keys a) ≠ []) →
  ∃ policy, LoadTrustDocument (encode trust) = Ok policy ∧ ValidateTrustPolicy policy = None ∧
    AllowedSigningKeys policy !! id = Some key ∧
    (∀ m : Manifest, m_Version m = ManifestVersion → m_RuntimeID m = o_runtimeID opt →
      (if bool_decide (o_manifestRole opt = "") then m_Role m ∈ o_roles opt else m_Role m = o_manifestRole opt) →
      elems (m_Services m) = authorities → trusted policy m).
Proof.
  intros Hb Hwf Hr Htrust Hid Hrt Hrts Hroles Hrole Hauth Hkeys.
  unfold buildTrust in Hb. apply result_bind_Ok in Hb as (kv & Hkv & Hb). apply Ok_inj in Hb.
  assert (Hallows : ∀ a k, a ∈ authorities → k ∈ elems (sa_Keys a) → allows kv (mk_Name k) (mk_Version k)).
  { intros a k Ha Hk. refine (fold_result_inv version_entry (λ kv, allows kv (mk_Name k) (mk_Version k)) _ _ _ _ _ Hkv).
    - intros b x b' _ Hb' Hx. unfold version_entry in Hx. destruct (cut x) as [[n v]|]; [|done].
      destruct (_ || _); [done|]. injection Hx as <-. by apply allow_mono.
    - by eapply authority_versions_allows. }
  set (rts := o_runtimeID opt :: o_runtimeIDs opt) in *.
  set (roles := (if bool_decide (o_manifestRole opt = "") then [] else [o_manifestRole opt]) ++ o_roles opt) in *.
  assert (Hrts' : "" ∉ rts) by (unfold rts; set_solver).
  assert (Hroles' : "" ∉ roles).
  { unfold roles. rewrite elem_of_app. intros [H|H]; [|done]. case_bool_decide; set_solver. }
  unfold LoadTrustDocument. rewrite (reads_back_scanned trust _ Hwf Hr eq_refl). destruct Hr as [_ Hr]. rewrite Hr.
  cbn [err_guard]. rewrite bool_decide_true by done. cbn [negb err_if err_guard].
  destruct (decode_keys_Ok (range_map 2 keys)) as (ks & Hks & Hlook).
  { apply NoDup_range_map. }
  { intros i x Hx. apply elem_of_range_map in Hx. by apply (Htrust i x Hx). }
  rewrite range_map_list_to_map in Hlook. subst trust. cbn [td_Keys]. change (default ∅ (Some keys)) with keys. rewrite Hks. cbn [result_bind].
  cbn [td_Versions td_RuntimeIDs td_Roles td_KeyVersions].
  assert (Hkvs : default ∅ <$> default ∅ (Some (Some <$> kv)) = kv).
  { change (default ∅ (Some (Some <$> kv))) with (Some <$> kv). rewrite <-map_fmap_compose. etrans; [|apply map_fmap_id]. by apply map_fmap_ext. }
  rewrite Hkvs.
  set (policy := mkPolicy ks (boolSet (Some [ManifestVersion])) (boolSet (Some (sortedKeys (set_of rts))))
    (boolSet (Some (sortedKeys (set_of roles)))) kv).
  assert (Hksid : ks !! id = Some key) by (rewrite Hlook, Hid; cbn; apply StdDecode_encode).
  assert (Hrole_in : ∃ r, r ∈ roles).
  { unfold roles. case_bool_decide as E; [|eexists; by left]. destruct Hrole as [?|Hrole]; [done|].
    destruct (o_roles opt) as [|r l]; [done|]. exists r. by left. }
  assert (Hvalid : ValidateTrustPolicy policy = None).
  { unfold ValidateTrustPolicy. rewrite !err_if_None. split_and!; [| |done].
    - rewrite !orb_false_iff, !bool_decide_eq_false. cbn [AllowedSigningKeys AllowedVersions AllowedRuntimeIDs AllowedRoles KeyVersions policy].
      split_and!.
      + intros E. rewrite E in Hksid. by rewrite lookup_empty in Hksid.
      + done.
      + intros E. pose proof (allowed_sorted rts (o_runtimeID opt) Hrts') as H. unfold allowed in H. rewrite E in H.
        rewrite bool_decide_true in H by (by left). done.
      + intros E. destruct Hrole_in as [r Hin]. pose proof (allowed_sorted roles r Hroles') as H. unfold allowed in H. rewrite E in H.
        by rewrite bool_decide_true in H.
      + intros E. destruct authorities as [|a l]; [done|]. specialize (Hkeys a). destruct (elems (sa_Keys a)) as [|k kl] eqn:Ek.
        { by destruct Hkeys; [left|]. }
        destruct (Hallows a k) as (vs & Hvs & _); [by left|rewrite Ek; by left|]. rewrite E in Hvs. by rewrite lookup_empty in Hvs.
    - apply not_true_iff_false. rewrite existsb_exists. intros ([i x] & Hin & Hbad). apply list_elem_of_In, elem_of_map_to_list in Hin.
      cbn [AllowedSigningKeys policy] in Hin. rewrite Hlook in Hin. destruct (keys !! i) as [enc|] eqn:Ei; [|done].
      destruct (Htrust _ _ Ei) as (Hne & k & Hk & Hlen). cbn in Hin. rewrite Hk in Hin. injection Hin as <-.
      apply orb_true_iff in Hbad as [Hbad|Hbad]; [by apply bool_decide_eq_true in Hbad|]. by rewrite Hlen in Hbad. }
  exists policy. rewrite Hvalid. split_and!; [done|done|done|].
  intros m Hv Hid' Hrole' Hs. split_and!.
  - by rewrite Hv.
  - cbn [AllowedRuntimeIDs policy]. rewrite Hid', allowed_sorted by done. apply bool_decide_true. by left.
  - cbn [AllowedRoles policy]. rewrite allowed_sorted by done. apply bool_decide_true. unfold roles.
    case_bool_decide; [done|]. rewrite Hrole'. by left.
  - intros a k Ha Hk. rewrite Hs in Ha. destruct (Hallows a k Ha Hk) as (vs & Hvs & Hvk). exists vs. split; [done|].
    unfold allowed. by rewrite Hvk.
Qed.

(** * The output directory *)

(** Every call of the run succeeds. *)
Definition disk_works (e : gen_env) : Prop :=
  ge_mkdir e = true ∧ (∀ path, ge_write e path = None) ∧ ∀ path, ge_reread e path = true.
Lemma write_all_spec e dir l w :
  disk_works e → dir ≠ "" → NoDup l.*1 → Forall (λ n, good_component n = true) l.*1 →
  ∃ w', write_all e dir l w = (w', Ok ()) ∧ (∀ n d, (n, d) ∈ l → w' !! Join dir n = Some d) ∧
    ∀ path, (∀ n, n ∈ l.*1 → path ≠ Join dir n) → w' !! path = w !! path.
Proof.
  intros (_ & Hw & _) Hdir. revert w. induction l as [|[name data] l IH]; intros w Hnd Hgood; cbn [write_all].
  { exists w. split; [done|]. split; [set_solver|done]. }
  cbn [fmap list_fmap map fst] in Hnd, Hgood. apply NoDup_cons in Hnd as [Hn Hnd]. apply Forall_cons in Hgood as [Hg Hgood].
  rewrite (run_bind _ _ w (<[Join dir name := data]> w) ()) by (unfold write_file; by rewrite Hw).
  destruct (IH (<[Join dir name := data]> w)) as (w' & Hrun & Hin & Hout); [done..|].
  exists w'. split; [exact Hrun|]. split.
  - intros n d [[= -> ->]|H]%elem_of_cons; [|by apply Hin]. rewrite Hout; [apply lookup_insert_eq|].
    intros m Hm E. apply Join_inj in E; [congruence|done..|]. rewrite Forall_forall in Hgood. by apply Hgood.
  - intros path Hp. rewrite Hout by (intros n Hin'; apply Hp; by right). apply lookup_insert_ne.
    intros E. apply (Hp name); [by left|done].
Qed.
Lemma run_read_back e w path data : disk_works e → w !! path = Some data → read_back e path w = (w, Ok data).
Proof. intros (_ & _ & Hr) Hw. unfold read_back. by rewrite Hw, Hr. Qed.

(** * The artifacts *)

Lemma build_checked e opt a : build e opt = Ok a →
  o_runtimeID opt ≠ "" ∧ o_outDir opt ≠ "" ∧ (o_manifestRole opt ≠ "" ∨ o_roles opt ≠ []).
Proof.
  unfold build, check_options, require. intros [H _]%err_guard_Ok. rewrite !err_seq_None, !err_if_None in H.
  destruct H as ([H0 _] & _ & _ & [H1 _] & _). split_bools. split_and!; [done..|].
  apply andb_false_iff in H1 as [H1|H1]; apply bool_decide_eq_false in H1; auto.
Qed.
Lemma build_inv e opt a : build e opt = Ok a → ∃ keys private authorities digest, let keyID := sign_key opt keys in
  loadKeys e (o_keys opt) (o_pubkeys opt) = Ok keys ∧ lk_signing keys !! keyID = Some private ∧
  ModelDigest (model_of opt authorities "") = Ok digest ∧
  ar_model a = model_of opt authorities digest ∧ ar_manifest a = manifest_of e opt authorities digest ∧
  ValidateAt (ar_manifest a) (issue_time e opt) = None ∧ keyID ≠ "" ∧ String.length private = PrivateKeySize ∧
  ar_signed a = encode (signed_by private keyID (ar_manifest a)) ∧
  buildTrust opt (lk_trust keys) authorities = Ok (ar_trust a).
Proof.
  unfold build. intros [_ H]%err_guard_Ok. cbn [with_paths o_composePath o_services o_keys o_pubkeys o_signKeyID] in H.
  apply result_bind_Ok in H as (compose & _ & H). apply result_bind_Ok in H as (sel & _ & H).
  apply result_bind_Ok in H as (keys & Hk & H). change (sign_key (with_paths opt) keys) with (sign_key opt keys) in H. set (keyID := sign_key opt keys) in H.
  destruct (lk_signing keys !! keyID) as [private|] eqn:Ep; [|done].
  apply result_bind_Ok in H as (ov & _ & H). apply result_bind_Ok in H as (l & _ & H).
  apply result_bind_Ok in H as (dg & Hd%context_Ok%launch_Ok & H).
  apply result_bind_Ok in H as (sg & Hs%context_Ok%launch_Ok & H).
  apply result_bind_Ok in H as (t & Ht & [= <-]). cbn [ar_model ar_manifest ar_signed ar_trust].
  exists keys, private, l, dg. fold keyID. unfold SignManifest in Hs. apply err_guard_Ok in Hs as [Hsz Hs].
  apply err_guard_Ok in Hs as [Hv Hs]. cbn in Hs. apply Ok_inj in Hs.
  rewrite err_if_None in Hsz. destruct Hsz as [Hsz _]. split_bools. split_and!; try done.
Qed.

Lemma validated_keys m a : Validate m = None → a ∈ elems (m_Services m) → elems (sa_Keys a) ≠ [].
Proof.
  intros Hv Ha. apply Validate_services with (s := a) in Hv; [|done].
  unfold validateServiceAuthority in Hv. inv_ok. split_bools. by intros E; rewrite E in *.
Qed.
Lemma outputs_of_inv a n d : outputs_of a !! n = Some d →
  n = "manifest.json" ∧ d = ar_signed a ∨ n = "trust.json" ∧ d = encode (ar_trust a) ∨ n = "model.json" ∧ d = encode (ar_model a).
Proof.
  unfold outputs_of. intros H%elem_of_list_to_map_2. rewrite !elem_of_cons, elem_of_nil in H. naive_solver.
Qed.
Lemma selfCheck_ok e dir now a policy w :
  disk_works e → (∀ n d, outputs_of a !! n = Some d → w !! Join dir n = Some d) →
  LoadTrustDocument (encode (ar_trust a)) = Ok policy → VerifySignedManifest (ar_signed a) policy now = Ok (ar_manifest a) →
  ParseRenderedModel (encode (ar_model a)) = Ok (ar_model a) → ValidateManifestModel (ar_manifest a) (ar_model a) = None →
  selfCheck e dir now w = (w, Ok ()).
Proof.
  intros Hd Hw Ht Hv Hm Hb. unfold selfCheck.
  rewrite (run_bind _ _ w w (encode (ar_trust a))) by (apply run_read_back; [done|by apply Hw]).
  rewrite (run_bind _ _ w w policy) by (by rewrite Ht).
  rewrite (run_bind _ _ w w (ar_signed a)) by (apply run_read_back; [done|by apply Hw]).
  rewrite (run_bind _ _ w w (ar_manifest a)) by (by rewrite Hv).
  rewrite (run_bind _ _ w w (encode (ar_model a))) by (apply run_read_back; [done|by apply Hw]).
  rewrite (run_bind _ _ w w (ar_model a)) by (by rewrite Hm).
  by rewrite Hb.
Qed.

(** The files on a working disk, before the self-check. *)
Lemma written_files e opt a w :
  disk_works e → o_outDir opt ≠ "" →
  let file name := Join (o_outDir opt) name in
  ∃ w', write_all e (o_outDir opt) (range_map 12 (outputs_of a)) w = (w', Ok ()) ∧
    (∀ n d, outputs_of a !! n = Some d → w' !! file n = Some d) ∧
    ∀ path, path ∉ [file "manifest.json"; file "trust.json"; file "model.json"] → w' !! path = w !! path.
Proof.
  intros Hdisk Hdir file.
  destruct (write_all_spec e (o_outDir opt) (range_map 12 (outputs_of a)) w) as (w' & Hrun & Hin & Hout); [done|done| | |].
  { apply NoDup_range_map. }
  { apply Forall_forall. intros n ([n' d] & -> & Hn)%list_elem_of_fmap. apply elem_of_range_map in Hn. by apply outputs_of_inv in Hn as [[-> _]|[[-> _]|[-> _]]]. }
  exists w'. split; [exact Hrun|]. split; [intros n d Hn; apply Hin; by apply elem_of_range_map|].
  intros path Hp. apply Hout. intros n Hn ->. apply Hp.
  apply list_elem_of_fmap in Hn as ([n' d] & -> & Hn). apply elem_of_range_map in Hn.
  apply outputs_of_inv in Hn as [[-> _]|[[-> _]|[-> _]]]; unfold file; cbn; set_solver.
Qed.
(** On a working disk the run of accepted artifacts ends well, with the three files. *)
Lemma generate_writes e opt a policy w :
  build e opt = Ok a → disk_works e → o_outDir opt ≠ "" →
  LoadTrustDocument (encode (ar_trust a)) = Ok policy →
  VerifySignedManifest (ar_signed a) policy (issue_time e opt) = Ok (ar_manifest a) →
  ParseRenderedModel (encode (ar_model a)) = Ok (ar_model a) → ValidateManifestModel (ar_manifest a) (ar_model a) = None →
  let file name := Join (o_outDir opt) name in
  ∃ w' lines, generate e opt w = (w', Ok lines) ∧ w' !! file "manifest.json" = Some (ar_signed a) ∧
     w' !! file "trust.json" = Some (encode (ar_trust a)) ∧ w' !! file "model.json" = Some (encode (ar_model a)) ∧
     ∀ path, path ∉ [file "manifest.json"; file "trust.json"; file "model.json"] → w' !! path = w !! path.
Proof.
  intros Hb Hdisk Hdir Hload Hver Hparse Hbind file.
  destruct (written_files e opt a w Hdisk Hdir) as (w' & Hrun & Hfile & Hout).
  exists w'. eexists. split.
  - unfold generate. rewrite (run_bind _ _ w w a) by (by rewrite Hb).
    destruct Hdisk as (Hmk & Hdisk). rewrite Hmk. cbn [negb err_if]. rewrite (run_bind _ _ w w ()) by done.
    rewrite (run_bind _ _ _ _ _ Hrun). rewrite (run_bind _ _ w' w' ()); [done|].
    unfold map_err. by rewrite (selfCheck_ok _ _ _ _ _ _ (conj Hmk Hdisk) Hfile Hload Hver Hparse Hbind).
  - split_and!; [by apply Hfile..|exact Hout].
Qed.

(** What the artifacts need so that [encoding/json] writes and reads them as they are. *)
Definition document {A} `{JsonDecode A} (x : A) : Prop := wf x ∧ reads_back x.

(** The policy of the trust document that is built trusts the manifest that is built. *)
Lemma built_policy e opt a keys private :
  build e opt = Ok a → loadKeys e (o_keys opt) (o_pubkeys opt) = Ok keys →
  lk_signing keys !! sign_key opt keys = Some private → document (ar_trust a) →
  "" ∉ o_runtimeIDs opt → "" ∉ o_roles opt →
  (∀ entry encoded, entry ∈ o_pubkeys opt → cut entry ≠ Some (sign_key opt keys, encoded)) →
  o_outDir opt ≠ "" ∧ sign_key opt keys ≠ "" ∧ ValidateAt (ar_manifest a) (issue_time e opt) = None ∧
  ar_signed a = encode (signed_by private (sign_key opt keys) (ar_manifest a)) ∧
  ∃ policy, LoadTrustDocument (encode (ar_trust a)) = Ok policy ∧ ValidateTrustPolicy policy = None ∧
    AllowedSigningKeys policy !! sign_key opt keys = Some (ed_public private) ∧ trusted policy (ar_manifest a).
Proof.
  intros Hb Hkeys Hpriv [Hwt Hrt] Hrts Hroles Hpubs.
  destruct (build_checked _ _ _ Hb) as (Hid & Hdir & Hrole).
  destruct (build_inv _ _ _ Hb) as (keys' & private' & l & digest & Hk & Hp & Hdig & Emodel & Eman & Hval & Hne & Hlen & Esig & Htrust).
  assert (keys' = keys) as -> by congruence. assert (private' = private) as -> by congruence. clear Hk Hp.
  destruct (loadKeys_ok _ _ _ _ _ _ Hkeys Hpriv Hpubs) as (Htok & _ & _ & Htkey).
  apply ValidateAt_inv in Hval as Hv. destruct Hv as [Hv _]. apply err_guard_Ok in Hdig as [Hstr _].
  assert (Hl : l ≠ []).
  { intros E. unfold validateModelStructure in Hstr. rewrite err_if_None in Hstr. destruct Hstr as [Hstr _]. split_bools.
    rewrite E in *. done. }
  assert (Hlk : ∀ x, x ∈ l → elems (sa_Keys x) ≠ []).
  { intros x Hx. apply (validated_keys (ar_manifest a)); [done|]. by rewrite Eman. }
  destruct (built_trust_loads _ _ _ _ _ _ Htrust Hwt Hrt Htok Htkey Hid Hrts Hroles Hrole Hl Hlk)
    as (policy & Hload & Hpol & Hpk & Htr).
  split_and!; [done..|]. exists policy. split_and!; [done..|].
  apply Htr; rewrite Eman; try done. cbn [manifest_of m_Role]. case_bool_decide; [|done].
  destruct Hrole as [?|Hrole]; [done|]. destruct (o_roles opt) as [|r rs]; [done|]. by left.
Qed.
(** The model that is built parses to itself and binds to the manifest. *)
Lemma built_model_binds e opt a :
  build e opt = Ok a → document (ar_model a) →
  ParseRenderedModel (encode (ar_model a)) = Ok (ar_model a) ∧ ValidateManifestModel (ar_manifest a) (ar_model a) = None.
Proof.
  intros Hb [Hwr Hrr].
  destruct (build_inv _ _ _ Hb) as (_ & _ & l & digest & _ & _ & Hdig & Emodel & Eman & Hval & _).
  apply ValidateAt_inv in Hval as [Hv _]. apply err_guard_Ok in Hdig as [Hstr Hdig%Ok_inj].
  assert (Hmodel : ValidateRenderedModel (ar_model a) = None).
  { unfold ValidateRenderedModel, ModelDigest. rewrite Emodel.
    change (validateModelStructure (model_of opt l digest)) with (validateModelStructure (model_of opt l "")). rewrite Hstr.
    cbn [err_guard model_of rm_ComposeDigest rm_RuntimeID rm_Services]. rewrite <-Hdig. by rewrite bool_decide_true. }
  split.
  - unfold ParseRenderedModel. rewrite (reads_back_scanned _ _ Hwr Hrr eq_refl). rewrite bool_decide_false by (by intros H; apply H).
    destruct Hrr as [_ Hrr]. rewrite Hrr. cbn [err_if err_guard]. rewrite bool_decide_true by done. cbn [negb err_if err_guard].
    by rewrite Hmodel.
  - apply ValidateManifestModel_spec. split_and!; [done|done|..]; by rewrite Emodel, Eman.
Qed.

(** C31: What the generator builds, the supervisor accepts.  Once the artifacts are built on
valid options (no empty runtime ID or role among the extra ones, no [--pubkey] that replaces
the public key of the signing key, and a signing key whose halves belong together, as
every key given by its seed), a disk on which every call succeeds gets exactly the three
files and the run ends well: the self-check cannot fail.  And beyond the self-check,
for the whole validity window and not only at the moment of issue: the trust document loads,
the signed manifest verifies against it to the manifest that was built, the model parses to
the model that was built, and the two bind. *)
Theorem generated_accepted e opt a keys private w :
  build e opt = Ok a → loadKeys e (o_keys opt) (o_pubkeys opt) = Ok keys →
  lk_signing keys !! sign_key opt keys = Some private →
  document (signed_by private (sign_key opt keys) (ar_manifest a)) →
  document (ar_manifest a) → document (ar_trust a) → document (ar_model a) →
  "" ∉ o_runtimeIDs opt → "" ∉ o_roles opt →
  (∀ entry encoded, entry ∈ o_pubkeys opt → cut entry ≠ Some (sign_key opt keys, encoded)) →
  key_pair private → disk_works e →
  let file name := Join (o_outDir opt) name in
  (∃ w' lines, generate e opt w = (w', Ok lines) ∧ w' !! file "manifest.json" = Some (ar_signed a) ∧
     w' !! file "trust.json" = Some (encode (ar_trust a)) ∧ w' !! file "model.json" = Some (encode (ar_model a)) ∧
     ∀ path, path ∉ [file "manifest.json"; file "trust.json"; file "model.json"] → w' !! path = w !! path) ∧
  ∃ policy, LoadTrustDocument (encode (ar_trust a)) = Ok policy ∧
    (∀ now, (m_IssuedAt (ar_manifest a) ≤ unix now < m_ExpiresAt (ar_manifest a))%Z →
       VerifySignedManifest (ar_signed a) policy now = Ok (ar_manifest a)) ∧
    ParseRenderedModel (encode (ar_model a)) = Ok (ar_model a) ∧
    ValidateManifestModel (ar_manifest a) (ar_model a) = None.
Proof.
  intros Hb Hkeys Hpriv [(_ & Hutf & _) Hrs] [Hwm Hrm] Htrust Hmodel Hrts Hroles Hpubs Hpair Hdisk file.
  destruct (built_policy _ _ _ _ _ Hb Hkeys Hpriv Htrust Hrts Hroles Hpubs)
    as (Hdir & Hne & [Hv Hw]%ValidateAt_inv & Esig & policy & Hload & Hpol & Hpk & Htr).
  destruct (built_model_binds _ _ _ Hb Hmodel) as [Hparse Hbind].
  assert (Hver : ∀ now, (m_IssuedAt (ar_manifest a) ≤ unix now < m_ExpiresAt (ar_manifest a))%Z →
    VerifySignedManifest (ar_signed a) policy now = Ok (ar_manifest a)).
  { intros now Hnow. rewrite Esig. by apply signed_accepted. }
  split; [|by exists policy].
  eapply generate_writes; try done. by apply Hver.
Qed.

(** What the self-check is too late for: a 64-byte key whose halves do not belong together
is accepted as a signing key, so its signatures do not verify under the public key that
goes into the trust document.  All three files are written before that is noticed, and
the run fails with them in place. *)
Theorem mismatched_key_fails_late e opt a keys private w :
  build e opt = Ok a → loadKeys e (o_keys opt) (o_pubkeys opt) = Ok keys →
  lk_signing keys !! sign_key opt keys = Some private →
  ed_verify (ed_public private) (encode (ar_manifest a)) (ed_sign private (encode (ar_manifest a))) = false →
  document (signed_by private (sign_key opt keys) (ar_manifest a)) →
  document (ar_manifest a) → document (ar_trust a) →
  "" ∉ o_runtimeIDs opt → "" ∉ o_roles opt →
  (∀ entry encoded, entry ∈ o_pubkeys opt → cut entry ≠ Some (sign_key opt keys, encoded)) →
  disk_works e →
  let file name := Join (o_outDir opt) name in
  ∃ w' err, generate e opt w = (w', Err err) ∧ w' !! file "manifest.json" = Some (ar_signed a) ∧
     w' !! file "trust.json" = Some (encode (ar_trust a)) ∧ w' !! file "model.json" = Some (encode (ar_model a)).
Proof.
  intros Hb Hkeys Hpriv Hbad [(_ & Hutf & _) Hrs] [Hwm Hrm] Htrust Hrts Hroles Hpubs Hdisk file.
  destruct (built_policy _ _ _ _ _ Hb Hkeys Hpriv Htrust Hrts Hroles Hpubs)
    as (Hdir & Hne & [Hv Hw]%ValidateAt_inv & Esig & policy & Hload & Hpol & Hpk & Htr).
  destruct (signed_refused (ar_manifest a) (sign_key opt keys) private policy (issue_time e opt)) as [err Hver]; [done..|].
  destruct (written_files e opt a w Hdisk Hdir) as (w' & Hrun & Hfile & _).
  exists w'. eexists. split; [|split_and!; by apply Hfile].
  unfold generate. rewrite (run_bind _ _ w w a) by (by rewrite Hb).
  destruct Hdisk as (Hmk & Hdisk). rewrite Hmk. cbn [negb err_if]. rewrite (run_bind _ _ w w ()) by done.
  rewrite (run_bind _ _ _ _ _ Hrun). unfold bind at 1, map_err, selfCheck.
  rewrite (run_bind _ _ w' w' (encode (ar_trust a))) by (apply run_read_back; [done|by apply Hfile]).
  rewrite (run_bind _ _ w' w' policy) by (by rewrite Hload).
  rewrite (run_bind _ _ w' w' (ar_signed a)) by (apply run_read_back; [done|by apply Hfile]).
  unfold bind at 1. rewrite Esig, Hver. cbn. reflexivity.
Qed.
End accept.
