(* ===== verification/ComposeGenFixture.v ===== *)
(** A run of the generator on one service, and the witnesses of its theorems. *)

From S2P Require Import Prelude GoStrings Provider Paths Digest GoEncoding Base64 Json Effects LaunchError JsonScan LaunchTypes LaunchManifest LaunchProps LaunchFixture LaunchSession LaunchRuntime ComposeGen ComposeGenProps ComposeGenAccept.
#[local] Open Scope go_scope.

Definition scalar (v : string) : yaml_node := YNode KScalar "!!str" v [].
Definition nothing : yaml_node := YNode KAbsent "" "" [].
(** [environment: {APP_TOKEN: <token>, LOG_LEVEL: info}] *)
Definition fixture_compose (token : string) : composeFile := {["api" := {|
  cs_Image := "registry.example/api@" +:+ digestFixture "1"; cs_User := "1000:1000";
  cs_Command := YNode KSequence "!!seq" "" [scalar "ready"]; cs_Entrypoint := YNode KSequence "!!seq" "" [scalar "/bin/echo"];
  cs_Environment := YNode KMapping "!!map" "" [scalar "APP_TOKEN"; scalar token; scalar "LOG_LEVEL"; scalar "info"];
  cs_Labels := YNode KSequence "!!seq" "" [scalar "com.example.component=api"; scalar "com.skret.secret-launch.old=1"];
  cs_Networks := YNode KSequence "!!seq" "" [scalar "backend"]; cs_DependsOn := YNode KMapping "!!map" "" [scalar "db"; nothing];
  cs_Restart := "always"; cs_Healthcheck := Some (mkComposeHealth (scalar "/bin/true") "10s" "" 0 false) |}]}.

#[local] Instance fixture_gen_lib : GenLib := {|
  unmarshal_compose data := Some (fixture_compose data);
  unmarshal_strings _ := None;
  parse_duration v := if bool_decide (v = "10s") then Some (10 * second)%Z else None;
  parse_float_seconds _ := None |}.
(** Another order of iteration, and another machine. *)
#[local] Program Definition backward_range : MapRange := {| range_map A site m := reverse (map_to_list m) |}.
Next Obligation. intros. apply reverse_Permutation. Qed.

Definition fixture_options : options := {|
  o_composePath := "compose.yml"; o_services := "api"; o_runtimeID := "docker-prod"; o_outDir := "/out";
  o_manifestRole := ""; o_signKeyID := ""; o_generation := 0; o_ttl := 600 * second; o_now := fixture_unix; o_nonce := "";
  o_helperDigest := digestFixture "a"; o_superDigest := digestFixture "b"; o_defaultUser := "root";
  o_helperPath := "/usr/local/bin/skret-secret-helper"; o_manifestPath := ""; o_trustPath := ""; o_secretVersion := "1";
  o_healthCmd := "/bin/true"; o_healthInt := 30 * second; o_healthTO := 5 * second; o_healthRetries := 3;
  o_hbInterval := second; o_hbTimeout := 5 * second;
  o_keys := ["prod=" +:+ repeat_str 128 "0"]; o_pubkeys := ["next=" +:+ StdEncoding (zeros 32)];
  o_roles := ["prod-api"; "prod-ops"]; o_runtimeIDs := ["docker-standby"];
  o_wrapperDigests := [digestFixture "c"; "api=" +:+ digestFixture "c"]; o_images := []; o_secrets := ["api=DB_URL=db-url:4"];
  o_childArgv := []; o_childUser := []; o_healthCmds := []; o_keyVersions := ["APP_TOKEN=2"] |}.
Definition fixture_env (token : string) : gen_env := {|
  ge_regular _ := false; ge_read p := if bool_decide (p = "compose.yml") then Some token else None;
  ge_now := 0; ge_nonce := "nonce-1234567890"; ge_mkdir := true; ge_write _ := None; ge_reread _ := true |}.

Definition no_artifacts : artifacts := mkArtifacts "" (mkTrust None None None None None) (mkModel "" "" None) fixture_manifest.
Definition built : artifacts := Eval vm_compute in
  match build (fixture_env "s3cret") fixture_options with Ok a => a | Err _ => no_artifacts end.
Example fixture_builds : build (fixture_env "s3cret") fixture_options = Ok built.
Proof. vm_compute. reflexivity. Qed.

Lemma fixture_like ov a b : compose_like ov (fixture_compose a) (fixture_compose b).
Proof.
  split.
  - intros name. unfold fixture_compose. by rewrite !lookup_singleton_None.
  - intros name s1 s2. unfold fixture_compose. intros [<- <-]%lookup_singleton_Some [_ <-]%lookup_singleton_Some. split; [|reflexivity].
    intros e1 e2 [= <-] [= <-]. split.
    + rewrite !dom_insert_L. set_solver.
    + intros k Hk. destruct (decide (k = "LOG_LEVEL")) as [->|H1]; [by rewrite !lookup_insert_eq|].
      rewrite !(lookup_insert_ne _ "LOG_LEVEL") by done. destruct (decide (k = "APP_TOKEN")) as [->|H2].
      * destruct Hk. by left.
      * by rewrite !lookup_insert_ne.
Qed.
Lemma artifacts_determined_witness :
  build (MR := backward_range) (fixture_env "other") fixture_options = Ok built ∧ built = built.
Proof.
  assert (H : build (MR := backward_range) (fixture_env "other") fixture_options = Ok built) by (vm_compute; reflexivity).
  split; [exact H|].
  destruct (parseServiceOverrides fixture_options) as [[ov wrapper]|] eqn:Eo; [|vm_compute in Eo; discriminate].
  exact (artifacts_determined sorted_range backward_range insertion_sort_slice insertion_sort_slice fixture_options
    (fixture_env "s3cret") (fixture_env "other") (fixture_compose "s3cret") (fixture_compose "other") ov wrapper built built
    (conj eq_refl (conj eq_refl eq_refl)) Eo eq_refl eq_refl (fixture_like ov _ _) fixture_builds H).
Defined.

(** The decoders know the four documents. *)
Definition built_signed : SignedManifest := signed_by (zeros 64) "prod" (ar_manifest built).
Lemma built_manifests_wf : Forall wf [ar_manifest built].
Proof. constructor; [by_wf|constructor]. Qed.
Lemma built_signed_wf : Forall wf [built_signed].
Proof. constructor; [by_wf|constructor]. Qed.
Lemma built_trust_wf : Forall wf [ar_trust built].
Proof. constructor; [by_wf|constructor]. Qed.
Lemma built_model_wf : Forall wf [ar_model built].
Proof. constructor; [by_wf|constructor]. Qed.
#[local] Instance built_manifest_decoder : JsonDecode Manifest := decoder_of _ built_manifests_wf.
#[local] Instance built_signed_decoder : JsonDecode SignedManifest := decoder_of _ built_signed_wf.
#[local] Instance built_trust_decoder : JsonDecode TrustDocument := decoder_of _ built_trust_wf.
#[local] Instance built_model_decoder : JsonDecode RenderedModel := decoder_of _ built_model_wf.
Ltac by_document H := split; [exact (Forall_inv H)|split; vm_compute; reflexivity].

Lemma generated_accepted_witness :
  ∃ w' lines, generate (fixture_env "s3cret") fixture_options ∅ = (w', Ok lines) ∧
    w' !! "/out/trust.json" = Some (encode (ar_trust built)).
Proof.
  assert (Hk : ∃ k, loadKeys (fixture_env "s3cret") (o_keys fixture_options) (o_pubkeys fixture_options) = Ok k ∧
    sign_key fixture_options k = "prod" ∧ lk_signing k !! "prod" = Some (zeros 64)).
  { eexists. split; [vm_compute; reflexivity|]. split; vm_compute; reflexivity. }
  destruct Hk as (k & Hk & Hs & Hp). rewrite <-Hs in Hp.
  destruct (generated_accepted _ _ _ k (zeros 64) ∅ fixture_builds Hk Hp) as [(w' & lines & Hg & _ & Ht & _) _].
  - rewrite Hs. by_document built_signed_wf.
  - by_document built_manifests_wf.
  - by_document built_trust_wf.
  - by_document built_model_wf.
  - apply (bool_decide_unpack _). vm_compute. exact I.
  - apply (bool_decide_unpack _). vm_compute. exact I.
  - intros entry encoded He. apply list_elem_of_singleton in He as ->. rewrite Hs. vm_compute. discriminate.
  - exists (zeros 32). split; vm_compute; reflexivity.
  - repeat split.
  - exists w', lines. split; [exact Hg|exact Ht].
Defined.

(** A key of two halves that do not belong together is taken, and its signatures fail. *)
Example mismatched_key_taken :
  match parsePrivateKey (fixture_env "") (repeat_str 64 "0" +:+ repeat_str 64 "1") with
  | Ok private => ed_verify (ed_public private) "m" (ed_sign private "m") = false
  | Err _ => False
  end.
Proof. vm_compute. reflexivity. Qed.
