(* ===== verification/SyncStateCmd.v ===== *)
(** The command [sync-state migrate] (src/internal/cli/sync_state.go): it verifies a signed
state manifest and, when asked to, migrates one file of it or submits the request to the hub.

The world is the one of the migration (every system call a step that may fail or be the last)
with the requests handed to the envelope client and the text written.  [encoding/json] is an
interface: the tokens of a document, its members, and typed decoding. *)

From S2P Require Import Prelude GoStrings Digest GoEncoding Base64 Provider Paths Effects Envelope StateManifest StateMigration.
#[local] Open Scope go_scope.

(** * Data *)

Record syncStateMigrateOptions := mkMigrateOptions {
  mo_to : string; mo_stateManifest : string; mo_journal : string; mo_state : string; mo_publicKey : string;
  mo_role : string; mo_audience : string; mo_operationID : string; mo_execute : bool; mo_remoteExecute : bool;
  mo_executorURL : string; mo_operatorSession : string; mo_signingKey : string; mo_format : string }.
Record syncStateMigrateResult := mkMigrateResult {
  mr_Target : string; mr_Phase : string; mr_StatePath : string; mr_BackupPath : string; mr_JournalPath : string;
  mr_ManifestDigest : string; mr_SourceHash : string; mr_SourceSize : Z; mr_DesiredHash : string; mr_DesiredSize : Z;
  mr_ResponseHash : string; mr_ResponseSize : Z }.
Record cliStateMigrationRequest := mkMigrationRequest {
  cr_OperationID : string; cr_StatePath : string; cr_JournalPath : string; cr_ManifestDigest : string;
  cr_Target : string; cr_SourceHash : string; cr_SourceSize : Z; cr_StateManifest : string }.

(** What [Decoder.Token] returns: a delimiter, a string, or another scalar. *)
Inductive json_token := TDelim (c : ascii) | TString (s : string) | TScalar.
Class StateCmdJson : Type := {
  (** The tokens of a document, and whether they end with the input and not in an error. *)
  tokens : string → list json_token * bool;
  (** [json.Unmarshal] into a map of raw members, and into a list of raw elements. *)
  unmarshal_members : string → option (gmap string string);
  unmarshal_elements : string → option (list string);
  (** The first value, with unknown fields refused, and whether nothing follows it. *)
  decode_state_manifest : string → option (StateManifest * bool);
  decode_signature : string → option (option string);
  unmarshal_journal : string → option StateMigrationJournal;
  marshal_request : cliStateMigrationRequest → option string;
  marshal_result : syncStateMigrateResult → option string;
}.

Inductive state_cause :=
| SMsg (message : string) | SMigration (e : migration_error) | SManifest (e : manifest_error) | SEnvelope (e : envelope_err).
(** [syncStateMigrateValidationError], [syncStateMigrateError], a failed write to the output. *)
Inductive state_error := SValidation (message : string) | SGeneric (operation : string) (cause : state_cause) | SOutput.

(** * Tokens *)

(** [detectJSONDuplicateKeys]: one frame per open object or array. *)
Record frame := mkFrame { fr_isObject : bool; fr_expectingKey : bool; fr_keys : gset string }.
Definition object_frame : frame := mkFrame true true ∅.
Definition array_frame : frame := mkFrame false false ∅.
Definition invalid_json : string := "invalid state manifest JSON".
(** The frame below a value that ended expects a key again. *)
Definition value_ended (stack : list frame) : list frame :=
  match stack with
  | top :: below => (if fr_isObject top then mkFrame true true (fr_keys top) else top) :: below
  | [] => []
  end.
(** A value opens: the object it is in expects a key after it, and must not expect one now. *)
Definition open_value (f top : frame) (below : list frame) : result string (list frame) :=
  if fr_isObject top then
    if fr_expectingKey top then Err invalid_json else Ok (f :: mkFrame true true (fr_keys top) :: below)
  else Ok (f :: top :: below).
Definition token_step (stack : list frame) (tok : json_token) : result string (list frame) :=
  match stack with
  | [] =>
    match tok with
    | TDelim c => if c =c "{" then Ok [object_frame] else if c =c "[" then Ok [array_frame] else Err invalid_json
    | _ => Ok []
    end
  | top :: below =>
    match tok with
    | TDelim c =>
      if c =c "{" then open_value object_frame top below
      else if c =c "[" then open_value array_frame top below
      else if c =c "}" then
        if negb (fr_isObject top) || negb (fr_expectingKey top) then Err invalid_json else Ok (value_ended below)
      else if c =c "]" then
        if fr_isObject top then Err invalid_json else Ok (value_ended below)
      else Ok stack
    | _ =>
      if fr_isObject top then
        if fr_expectingKey top then
          match tok with
          | TString key =>
            if bool_decide (key ∈ fr_keys top) then Err "state manifest contains duplicate JSON keys"
            else Ok (mkFrame true false ({[key]} ∪ fr_keys top) :: below)
          | _ => Err invalid_json
          end
        else Ok (mkFrame true true (fr_keys top) :: below)
      else Ok stack
    end
  end.
Fixpoint token_loop (stack : list frame) (toks : list json_token) : result string (list frame) :=
  match toks with
  | [] => Ok stack
  | tok :: toks => let! stack := token_step stack tok in token_loop stack toks
  end.
Definition detect_tokens (toks : list json_token) (ended : bool) : option string :=
  match token_loop [] toks with
  | Err e => Some e
  | Ok stack => err_if (negb ended) invalid_json (err_if (negb (bool_decide (length stack = 0))) invalid_json None)
  end.

Section command.
Context {UC : UnicodeCase} {SH : SHA256} {SO : SortSlice} {ED : Ed25519} {MJ : MigrationJson} {SJ : StateCmdJson}.

Definition detectJSONDuplicateKeys (data : string) : option string :=
  let '(toks, ended) := tokens data in detect_tokens toks ended.

(** * The manifest *)

Definition root_keys : list string :=
  ["version"; "role"; "audience"; "source_root"; "files"; "nonce"; "expires_at"; "signature"].
Definition file_keys : list string := ["path"; "size"; "sha256"].
Definition validateCLIStateManifestWireObject (object : gmap string string) (file : bool) : option string :=
  let message := "state manifest contains invalid JSON object keys" in
  err_if (negb (size object =? (if file then 3 else 8))) message (
  err_if (negb (forallb (λ key, bool_decide (key ∈ if file then file_keys else root_keys)) (map_to_list object).*1)) message None).
Definition validateCLIStateManifestWireKeys (data : string) : option string :=
  match unmarshal_members data with
  | None => Some invalid_json
  | Some root =>
    err_seq (validateCLIStateManifestWireObject root false) (
    match root !! "files" ≫= unmarshal_elements with
    | None => Some invalid_json
    | Some files =>
      err_each (λ rawFile,
        match unmarshal_members rawFile with
        | None => Some invalid_json
        | Some file => validateCLIStateManifestWireObject file true
        end) files
    end)
  end.
Definition base64_char (c : ascii) : bool :=
  in_range 65 90 c || in_range 97 122 c || in_range 48 57 c || (c =c "+") || (c =c "/").
Definition validateCLIStateManifestSignature (data : string) : option string :=
  let canonical := "state manifest signature is not canonical standard base64" in
  match decode_signature data with
  | Some (Some sig) =>
    err_if (negb (String.length sig =? 88) || negb (bool_decide (str_drop (String.length sig - 2) sig = "=="))) canonical (
    err_if (negb (str_forall base64_char (str_take 86 sig))) canonical (
    match StdDecode sig with
    | Some decoded =>
      err_if (negb (String.length decoded =? SignatureSize)) "state manifest signature is invalid" (
      err_if (negb (bool_decide (StdEncoding decoded = sig))) canonical None)
    | None => Some "state manifest signature is invalid"
    end))
  | _ => Some invalid_json
  end.
Definition parse_state_manifest (data : string) : result string StateManifest :=
  try! detectJSONDuplicateKeys data;
  try! validateCLIStateManifestWireKeys data;
  match decode_state_manifest data with
  | None => Err invalid_json
  | Some (manifest, ends) =>
    if negb ends then Err "state manifest contains trailing data"
    else try! validateCLIStateManifestSignature data; Ok manifest
  end.

(** * Paths *)

(** [filepath.Rel] of two clean absolute paths. *)
Fixpoint strip_common (base target : list string) : list string * list string :=
  match base, target with
  | x :: base', y :: target' => if bool_decide (x = y) then strip_common base' target' else (base, target)
  | _, _ => (base, target)
  end.
Definition Rel (base target : string) : string :=
  let '(b, t) := strip_common (clean_components base) (clean_components target) in
  match (replicate (length b) ".." ++ t)%list with [] => "." | l => join "/" l end.
Definition requested_row (root : string) (manifest : StateManifest) (requested : string) : result string string :=
  let escapes := "state path escapes manifest root" in
  if bool_decide (trim_space requested = "") then
    match sm_Files manifest with
    | [row] => Ok (smf_Path row)
    | _ => Err "--state is required unless manifest contains exactly one file"
    end
  else if has_byte NUL requested || negb (bool_decide (Clean requested = requested))
  then Err "state path contains traversal or non-canonical components"
  else if IsAbs requested then
    let rel := Rel root requested in
    if bool_decide (rel = ".") || bool_decide (rel = "..") || has_prefix rel "../" then Err escapes else Ok rel
  else if bool_decide (requested = ".") || has_prefix requested "../" then Err escapes
  else Ok requested.
Definition resolveCLIStateMigrationPath (manifest : StateManifest) (requested : string)
    : result string (string * StateManifestFile) :=
  let root := Clean (sm_SourceRoot manifest) in
  if bool_decide (root = ".") || negb (IsAbs root) then Err "manifest source root is not absolute"
  else
    let! rowPath := requested_row root manifest requested in
    match List.filter (λ row, bool_decide (smf_Path row = rowPath)) (sm_Files manifest) with
    | [matched] =>
      let statePath := Join root (smf_Path matched) in
      if negb (bool_decide (Clean statePath = statePath)) then Err "manifest state row escapes source root"
      else Ok (statePath, matched)
    | [] => Err "state path is not an exact manifest file row"
    | _ => Err "state path matches ambiguous manifest rows"
    end.
Definition normalizeCLIStateMigrationPath (e : scan_env) (path : string) : result string string :=
  if has_byte NUL path then Err "path contains NUL"
  else
    match sc_abs e path with
    | None => Err "path is not resolvable"
    | Some absolute => if negb (bool_decide (Clean absolute = absolute)) then Err "path is not canonical" else Ok absolute
    end.

(** * The world *)

Record state_env := mkStateEnv {
  se_mig : mig_env; se_getenv : string → string; se_now : time; se_random : option string;
  se_parse : string → option parsed_url; se_print : parsed_url → string;
  se_marshal : ExecutorEnvelope → string; se_post : string → string → http_reply;
  se_print_ok : nat → bool }.
(** A call of [EnvelopeClient.Submit]. *)
Record submission := mkSubmission {
  su_digest : string; su_role : string; su_audience : string; su_nonce : string; su_expires : time; su_body : string }.
Record state_world := mkStateWorld { sw_mig : mig_world; sw_sent : list submission; sw_out : list string }.
Definition cmd (A : Type) : Type := act state_world state_error A.
(** A step of the migration's world; its error under the name of the operation. *)
Definition on_files {A} (wrap : migration_error → state_error) (m : run A) : cmd A := λ w,
  match m (sw_mig w) with
  | (w', Ok a) => (mkStateWorld w' (sw_sent w) (sw_out w), Ok a)
  | (w', Err e) => (mkStateWorld w' (sw_sent w) (sw_out w), Err (wrap e))
  end.
Definition generic (operation : string) (e : migration_error) : state_error := SGeneric operation (SMigration e).
Definition op_result {A} (operation : string) (r : result string A) : cmd A :=
  lift_err (λ m, SGeneric operation (SMsg m)) r.
Definition os_lstat (e : state_env) (path : string) : run (option node) :=
  match sc_abs (me_scan (se_mig e)) path with
  | Some p => lstat (se_mig e) "lstat" (Clean p)
  | None => throw (MMsg "lstat")
  end.
(** [os.ReadFile] follows links. *)
Definition os_read (e : state_env) (path : string) : run string :=
  match sc_abs (me_scan (se_mig e)) path ≫= sc_links (me_scan (se_mig e)) ∘ Clean with
  | Some p => read_file (se_mig e) "read" (Clean p)
  | None => throw (MMsg "read")
  end.

(** * Keys *)

Definition decodeCLIStateMigrationPublicKeyHex (value : string) : option string :=
  if negb (String.length value =? PublicKeySize * 2) then None
  else
    match hex_decode value with
    | Some decoded => if String.length decoded =? PublicKeySize then Some decoded else None
    | None => None
    end.
Definition read_regular (e : state_env) (path missing irregular failed : string) : run string :=
  do! n := map_err (λ err, match err with MKilled => MKilled | _ => MMsg missing end) (os_lstat e path) in
  match n with
  | None => throw (MMsg missing)
  | Some (NFile _) => map_err (λ err, match err with MKilled => MKilled | _ => MMsg failed end) (os_read e path)
  | Some _ => throw (MMsg irregular)
  end.
Definition readCLIStateMigrationPublicKey (e : state_env) (value : string) : run string :=
  let candidate := trim_space value in
  match decodeCLIStateMigrationPublicKeyHex candidate with
  | Some key => ret key
  | None =>
    do! data := read_regular e candidate "public key must be Ed25519 hex or a regular file path"
      "public key path is not a regular file" "read public key file failed" in
    if String.length data =? PublicKeySize then ret data
    else
      match decodeCLIStateMigrationPublicKeyHex (trim_space data) with
      | Some key => ret key
      | None => throw (MMsg "public key must contain a raw or hex Ed25519 public key")
      end
  end.
Definition readCLIStateMigrationPrivateKey (e : state_env) (path : string) : run string :=
  let candidate := trim_space path in
  if bool_decide (candidate = "") then throw (MMsg "signing key path is required")
  else
    do! data := read_regular e candidate "signing key must be a regular file path"
      "signing key path is not a regular file" "read signing key file failed" in
    if String.length data =? PrivateKeySize then ret data
    else
      match hex_decode (trim_space data) with
      | Some decoded =>
        if String.length decoded =? PrivateKeySize then ret decoded
        else throw (MMsg "signing key must contain a raw or hex Ed25519 private key")
      | None => throw (MMsg "signing key must contain a raw or hex Ed25519 private key")
      end.
Definition readCLIStateManifestWithBytes (e : state_env) (path : string) : run (StateManifest * string) :=
  do! data := os_read e path in
  do! manifest := lift_err MMsg (parse_state_manifest data) in
  ret (manifest, data).
Definition readCLIStateMigrationSource (e : state_env) (path : string) : run string :=
  do! n := os_lstat e path in
  match n with
  | None => throw (MMsg "lstat")
  | Some (NFile _) => os_read e path
  | Some _ => throw (MMsg "state path is not a regular file")
  end.
Definition readCLIStateMigrationJournal (e : state_env) (path : string) : run StateMigrationJournal :=
  do! data := os_read e path in
  match unmarshal_journal data with Some j => ret j | None => throw (MMsg "invalid migration journal JSON") end.
Definition cliStateMigrationHash (data : string) : string := sha256_hex data.
Definition cliStateMigrationManifestDigest (manifest : StateManifest) : result manifest_error string :=
  let! canonical := manifest_signing_bytes (Some manifest) in Ok ("sha256:" +:+ cliStateMigrationHash canonical).
Definition validateCLIStateMigrationOperationID (value : string) : option state_error :=
  let invalid := SValidation "invalid --operation-id" in
  err_if (bool_decide (value = "") || bool_decide (value = ".") || bool_decide (value = "..") ||
      (128 <? String.length value) || negb (bool_decide (trim_space value = value))) invalid (
  err_if (negb (forallb operation_rune (runes value))) invalid None).

(** * The command *)

Definition blank (s : string) : bool := bool_decide (trim_space s = "").
Definition need (s message : string) (rest : option state_error) : option state_error :=
  err_if (blank s) (SValidation message) rest.
Definition session_variable : string := "SKRET_OPERATOR_SESSION_COOKIE".
Definition check_options (e : state_env) (o : syncStateMigrateOptions) : option state_error :=
  err_if (negb (bool_decide (mo_to o = "v2"))) (SValidation "unsupported migration target; only v2 is supported") (
  err_if (negb (bool_decide (mo_format o = "table")) && negb (bool_decide (mo_format o = "json")))
    (SValidation "invalid format %q; expected table or json") (
  need (mo_stateManifest o) "--state-manifest is required" (
  need (mo_journal o) "--journal is required" (
  need (mo_publicKey o) "--public-key is required" (
  err_seq (
    if mo_remoteExecute o then
      err_if (mo_execute o) (SValidation "--execute and --remote-execute are mutually exclusive") (
      need (mo_role o) "--role is required with --remote-execute" (
      need (mo_audience o) "--audience is required with --remote-execute" (
      err_seq (validateCLIStateMigrationOperationID (mo_operationID o)) (
      need (mo_executorURL o) "--executor-url is required with --remote-execute" (
      err_if (blank (mo_operatorSession o) && blank (se_getenv e session_variable))
        (SValidation "--operator-session or SKRET_OPERATOR_SESSION_COOKIE is required with --remote-execute") (
      need (mo_signingKey o) "--signing-key is required with --remote-execute" None))))))
    else None) (
  if mo_execute o then
    need (mo_role o) "--role is required with --execute" (
    need (mo_audience o) "--audience is required with --execute" (
    validateCLIStateMigrationOperationID (mo_operationID o)))
  else None)))))).

(** One write to the output. *)
Definition print (e : state_env) (text : string) : cmd unit := λ w,
  if se_print_ok e (length (sw_out w)) then (mkStateWorld (sw_mig w) (sw_sent w) (sw_out w ++ [text])%list, Ok ())
  else (w, Err SOutput).
Definition row_line (name value : string) : string := name +:+ ": " +:+ value +:+ str1 LF.
Definition writeCLIStateMigrationResult (e : state_env) (result : syncStateMigrateResult) (format : string) : cmd unit :=
  if bool_decide (format = "json") then
    match marshal_result result with
    | None => throw (SGeneric "encode result" (SMsg "json"))
    | Some encoded => print e (encoded +:+ str1 LF)
    end
  else
    run! print e (row_line "target" (mr_Target result) +:+ row_line "phase" (mr_Phase result) +:+
      row_line "state_path" (mr_StatePath result));
    run! when (negb (bool_decide (mr_BackupPath result = ""))) (print e (row_line "backup_path" (mr_BackupPath result)));
    run! print e (row_line "journal_path" (mr_JournalPath result) +:+ row_line "manifest_digest" (mr_ManifestDigest result) +:+
      row_line "source_hash" (mr_SourceHash result) +:+ row_line "source_size" (itoa (mr_SourceSize result)));
    run! when (negb (bool_decide (mr_DesiredHash result = "")))
      (print e (row_line "desired_hash" (mr_DesiredHash result) +:+ row_line "desired_size" (itoa (mr_DesiredSize result))));
    when (negb (bool_decide (mr_ResponseHash result = "")))
      (print e (row_line "response_hash" (mr_ResponseHash result) +:+ row_line "response_size" (itoa (mr_ResponseSize result)))).

Definition submitCLIStateMigrationRequest (e : state_env) (executorURL operatorSession signingKey role audience : string)
    (request : cliStateMigrationRequest) : cmd string :=
  let fails m := SGeneric "submit remote executor request" m in
  match se_random e with
  | None => throw (fails (SMsg "generate executor request nonce failed"))
  | Some nonceBytes =>
    match marshal_request request with
    | None => throw (fails (SMsg "encode executor migration request failed"))
    | Some body =>
      let now := se_now e in
      let s := mkSubmission (cr_ManifestDigest request) role audience (hex_encode nonceBytes) (now + 5 * 60 * second)%Z body in
      run! modify (λ w, mkStateWorld (sw_mig w) (sw_sent w ++ [s])%list (sw_out w));
      lift_err (λ err, fails (SEnvelope err))
        (Submit (se_parse e) (se_print e) (se_marshal e) (se_post e) (Some (mkClient executorURL signingKey operatorSession)) now
          (su_digest s) role audience (su_nonce s) (su_expires s) body)
    end
  end.

(** The [--execute] path. *)
Definition run_execute (e : state_env) (o : syncStateMigrateOptions) (manifest : StateManifest)
    (publicKey role audience statePath journalPath : string) : cmd unit :=
  run! on_files (generic "execute state migration")
    (MigrateStateFileV1ToV2 (se_mig e) statePath journalPath (Some manifest) publicKey role audience (mo_operationID o) (se_now e));
  do! journal := on_files (generic "read committed migration journal") (readCLIStateMigrationJournal e journalPath) in
  if negb (bool_decide (mj_Phase journal = StateMigrationPhaseCommitted))
  then throw (SValidation "migration did not reach committed phase")
  else
    writeCLIStateMigrationResult e {|
      mr_Target := mo_to o; mr_Phase := mj_Phase journal; mr_StatePath := mj_SourcePath journal;
      mr_BackupPath := mj_BackupPath journal; mr_JournalPath := mj_JournalPath journal;
      mr_ManifestDigest := mj_ManifestDigest journal; mr_SourceHash := mj_SourceHash journal;
      mr_SourceSize := mj_SourceSize journal; mr_DesiredHash := mj_DesiredHash journal;
      mr_DesiredSize := mj_DesiredSize journal; mr_ResponseHash := ""; mr_ResponseSize := 0 |} (mo_format o).
(** Verification, and the submission to the hub. *)
Definition run_verify (e : state_env) (o : syncStateMigrateOptions) (manifest : StateManifest)
    (stateManifestBytes signingKey operatorSession publicKey role audience statePath : string) (row : StateManifestFile)
    (journalPath : string) : cmd unit :=
  do! fs := gets (λ w, mw_fs (sw_mig w)) in
  run! guard (SGeneric "verify state manifest" ∘ SManifest <$>
    VerifyStateManifest (me_scan (se_mig e)) fs (Some manifest) (sm_SourceRoot manifest) role audience publicKey (se_now e));
  do! source := on_files (generic "read source state") (readCLIStateMigrationSource e statePath) in
  let sourceHash := cliStateMigrationHash source in
  let sourceSize := Z.of_nat (String.length source) in
  if negb (sourceSize =? smf_Size row)%Z || negb (bool_decide (sourceHash = smf_SHA256 row))
  then throw (SValidation "source hash or size does not match manifest")
  else
    do! manifestDigest := lift_err (λ err, SGeneric "digest state manifest" (SManifest err)) (cliStateMigrationManifestDigest manifest) in
    let result phase responseHash responseSize := {|
      mr_Target := mo_to o; mr_Phase := phase; mr_StatePath := statePath; mr_BackupPath := ""; mr_JournalPath := journalPath;
      mr_ManifestDigest := manifestDigest; mr_SourceHash := sourceHash; mr_SourceSize := sourceSize;
      mr_DesiredHash := ""; mr_DesiredSize := 0; mr_ResponseHash := responseHash; mr_ResponseSize := responseSize |} in
    if mo_remoteExecute o then
      do! response := submitCLIStateMigrationRequest e (mo_executorURL o) operatorSession signingKey role audience
        (mkMigrationRequest (mo_operationID o) statePath journalPath manifestDigest (mo_to o) sourceHash sourceSize stateManifestBytes) in
      writeCLIStateMigrationResult e
        (result "submitted" (cliStateMigrationHash response) (Z.of_nat (String.length response))) (mo_format o)
    else writeCLIStateMigrationResult e (result "verified" "" 0%Z) (mo_format o).
Definition or_field (flag field : string) : string := if blank flag then field else trim_space flag.
Definition migrate_run (e : state_env) (o : syncStateMigrateOptions) : cmd unit :=
  run! guard (check_options e o);
  do! signingKey := if mo_remoteExecute o
    then on_files (generic "read signing key") (readCLIStateMigrationPrivateKey e (mo_signingKey o)) else ret "" in
  let operatorSession := if mo_remoteExecute o
    then (if bool_decide (mo_operatorSession o = "") then se_getenv e session_variable else mo_operatorSession o) else "" in
  do! mb := on_files (generic "read state manifest") (readCLIStateManifestWithBytes e (mo_stateManifest o)) in
  let '(manifest, stateManifestBytes) := mb in
  do! publicKey := on_files (generic "read public key") (readCLIStateMigrationPublicKey e (mo_publicKey o)) in
  let role := or_field (mo_role o) (sm_Role manifest) in
  let audience := or_field (mo_audience o) (sm_Audience manifest) in
  do! pr := op_result "resolve state path" (resolveCLIStateMigrationPath manifest (mo_state o)) in
  let '(statePath, row) := pr in
  do! journalPath := op_result "resolve journal path" (normalizeCLIStateMigrationPath (me_scan (se_mig e)) (mo_journal o)) in
  if mo_execute o then run_execute e o manifest publicKey role audience statePath journalPath
  else run_verify e o manifest stateManifestBytes signingKey operatorSession publicKey role audience statePath row journalPath.
End command.
