(* ===== verification/SyncStateProps.v ===== *)
(** What [sync-state migrate] promises: the check for repeated keys sees every object, nothing
is written without [--execute], and a request tells of the state file only what the signed
manifest says. *)

From S2P Require Import Prelude GoStrings Digest GoEncoding Base64 Provider Paths Effects Envelope StateManifest StateManifestProps StateMigration StateMigrationSteps StateMigrationProps SyncStateCmd.
#[local] Open Scope go_scope.
#[local] Set Warnings "-register-all".

(** * Repeated keys *)

(** A JSON value as far as the check looks: a string or another scalar, arrays, objects. *)
Inductive jtree := JLeaf (s : option string) | JArray (l : list jtree) | JObject (l : list (string * jtree)).
Fixpoint tokens_of (v : jtree) : list json_token :=
  match v with
  | JLeaf (Some s) => [TString s]
  | JLeaf None => [TScalar]
  | JArray l => TDelim "[" :: flat_map tokens_of l ++ [TDelim "]"]
  | JObject l => TDelim "{" :: flat_map (λ kv, TString kv.1 :: tokens_of kv.2) l ++ [TDelim "}"]
  end.
(** No object, at any depth, has a key twice. *)
Fixpoint distinct (v : jtree) : bool :=
  match v with
  | JLeaf _ => true
  | JArray l => forallb distinct l
  | JObject l => bool_decide (NoDup l.*1) && forallb (λ kv, distinct kv.2) l
  end.

Section induction.
Context (P : jtree → Prop) (Hleaf : ∀ s, P (JLeaf s)).
Context (Harray : ∀ l, Forall P l → P (JArray l)) (Hobject : ∀ l, Forall (λ kv, P kv.2) l → P (JObject l)).
Fixpoint jtree_values (v : jtree) : P v :=
  match v with
  | JLeaf s => Hleaf s
  | JArray l => Harray l ((fix go l : Forall P l := match l with [] => Forall_nil_2 _ | x :: l => Forall_cons_2 _ _ _ (jtree_values x) (go l) end) l)
  | JObject l => Hobject l ((fix go l : Forall (λ kv, P kv.2) l :=
      match l with [] => Forall_nil_2 _ | x :: l => Forall_cons_2 _ _ _ (jtree_values x.2) (go l) end) l)
  end.
End induction.

Definition repeated : string := "state manifest contains duplicate JSON keys".
(** A value may come next. *)
Definition ready (stack : list frame) : Prop :=
  match stack with [] => True | top :: _ => fr_isObject top = true → fr_expectingKey top = false end.
Lemma value_ended_twice stack : value_ended (value_ended stack) = value_ended stack.
Proof. destruct stack as [|[[] ? ?] ?]; done. Qed.
Lemma open_step stack (c : ascii) f :
  ready stack → (c = "{"%char ∧ f = object_frame ∨ c = "["%char ∧ f = array_frame) →
  token_step stack (TDelim c) = Ok (f :: value_ended stack).
Proof.
  intros Hr [[-> ->]|[-> ->]]; destruct stack as [|[obj ex ks] below]; try done; cbn in Hr |- *; unfold open_value; cbn;
    (destruct obj; [rewrite (Hr eq_refl)|]; done).
Qed.
Lemma token_value v : ∀ stack rest, ready stack →
  token_loop stack (tokens_of v ++ rest) = if distinct v then token_loop (value_ended stack) rest else Err repeated.
Proof.
  induction v as [s|l IH|l IH] using jtree_values; intros stack rest Hr.
  - assert (∃ t, tokens_of (JLeaf s) = [t] ∧ token_step stack t = Ok (value_ended stack)) as (t & -> & Ht).
    { destruct s as [s|]; eexists; (split; [reflexivity|]); destruct stack as [|[[] ex ks] below]; try done; cbn in Hr |- *;
        by rewrite Hr. }
    cbn [app token_loop]. by rewrite Ht.
  - cbn [tokens_of app token_loop]. rewrite (open_step _ _ array_frame) by (try done; by right). cbn [result_bind distinct].
    rewrite <-app_assoc. induction IH as [|x l Hx _ IHl]; cbn [flat_map forallb app].
    + cbn [token_loop token_step]. cbn. by rewrite value_ended_twice.
    + rewrite <-app_assoc, Hx by done. destruct (distinct x); cbn [andb]; [|done]. exact IHl.
  - cbn [tokens_of app token_loop]. rewrite (open_step _ _ object_frame) by (try done; by left). cbn [result_bind distinct].
    rewrite <-app_assoc. unfold object_frame.
    assert (Hgo : ∀ ks,
      token_loop (mkFrame true true ks :: value_ended stack) (flat_map (λ kv, TString kv.1 :: tokens_of kv.2) l ++ [TDelim "}"] ++ rest)
      = if bool_decide (NoDup l.*1 ∧ Forall (λ k, k ∉ ks) l.*1) && forallb (λ kv, distinct kv.2) l
        then token_loop (value_ended stack) rest else Err repeated).
    { induction IH as [|[k x] l Hx _ IHl]; intros ks.
      - cbn. by rewrite value_ended_twice.
      - cbn [flat_map app token_loop token_step fr_isObject fr_expectingKey fr_keys fst snd]. destruct (decide (k ∈ ks)) as [Hk|Hk].
        + rewrite (bool_decide_true (k ∈ ks)) by done. cbn [result_bind]. rewrite bool_decide_false; [done|].
          cbn [fmap list_fmap map fst]. intros [_ H]. apply Forall_cons in H. tauto.
        + rewrite (bool_decide_false (k ∈ ks)) by done. cbn [result_bind]. rewrite <-app_assoc, Hx by done. cbn [forallb snd].
          destruct (distinct x); [|by rewrite andb_false_r]. cbn [value_ended fr_isObject fr_keys]. rewrite IHl. cbn [andb].
          rewrite (bool_decide_ext _ (NoDup ((k, x) :: l).*1 ∧ Forall (λ k, k ∉ ks) ((k, x) :: l).*1)); [done|]. cbn [fmap list_fmap map fst]. rewrite NoDup_cons, Forall_cons, !Forall_forall.
          set_solver. }
    rewrite Hgo, (bool_decide_ext _ (NoDup l.*1)); [done|]. rewrite Forall_forall. set_solver.
Qed.

Section props.
Context {UC : UnicodeCase} {SH : SHA256} {SO : SortSlice} {ED : Ed25519} {MJ : MigrationJson} {SJ : StateCmdJson}.

(** C34: The check for repeated keys is exact: of a document that is one JSON value it accepts
those in which no object, at any depth, in arrays or in objects, has a key twice.  (The JSON
decoder keeps the last of repeated keys, so without the check two readers could take the same
signed bytes for different manifests.) *)
Theorem repeated_keys_found data v :
  tokens data = (tokens_of v, true) → detectJSONDuplicateKeys data = None ↔ distinct v = true.
Proof.
  intros Ht. unfold detectJSONDuplicateKeys, detect_tokens. rewrite Ht.
  rewrite <-(app_nil_r (tokens_of v)), token_value by done. destruct (distinct v); cbn; [done|]. by split.
Qed.

(** * Steps that only look *)

Definition file_at (e : state_env) (fs : tree) (path data : string) : Prop :=
  ∃ p, sc_abs (me_scan (se_mig e)) path ≫= sc_links (me_scan (se_mig e)) ∘ Clean = Some p ∧ fs !! Clean p = Some (NFile data).
Lemma looks_map_err {A} f (m : run A) v : looks m v → looks (map_err f m) v.
Proof. intros Hm w. destruct (Hm w) as [H1 H2]. unfold map_err. destruct (m w) as [w' [a|err]]; by split. Qed.
Lemma looks_lift_err {F A} (f : F → migration_error) (r : result F A) : looks (lift_err f r) (λ _ a, r = Ok a).
Proof. destruct r; cbn [lift_err]; [|apply looks_throw]. eapply looks_weaken; [apply looks_ret|]. by intros ? b ->. Qed.
Lemma looks_ret_any {A} (a : A) (φ : tree → Prop) : looks (ret a) (λ fs _, φ fs → True).
Proof. by eapply looks_weaken; [apply looks_ret|]. Qed.
Lemma looks_true {A} (m : run A) v : looks m v → looks m (λ _ _, True).
Proof. intros H. by eapply looks_weaken. Qed.
Lemma looks_os_lstat e path : looks (os_lstat e path) (λ _ _, True).
Proof. unfold os_lstat. destruct (sc_abs _ path); [|apply looks_throw]. eapply looks_true, looks_lstat. Qed.
Lemma looks_os_read e path : looks (os_read e path) (λ fs data, file_at e fs path data).
Proof.
  unfold os_read, file_at. destruct (_ ≫= _) as [p|] eqn:E; [|apply looks_throw].
  eapply looks_weaken; [apply looks_read|]. intros fs d H. by exists p.
Qed.
Lemma looks_read_regular e path a b c : looks (read_regular e path a b c) (λ fs data, file_at e fs path data).
Proof.
  unfold read_regular. eapply looks_seq; [apply looks_map_err, looks_os_lstat|intros [[]|]]; try apply looks_throw.
  eapply looks_weaken; [apply looks_map_err, looks_os_read|done].
Qed.
(** The key that [--public-key] gives: its hexadecimal text, or the name of a file with the key
or its text. *)
Definition key_given (e : state_env) (fs : tree) (value key : string) : Prop :=
  decodeCLIStateMigrationPublicKeyHex (trim_space value) = Some key ∨
  ∃ data, file_at e fs (trim_space value) data ∧
    (data = key ∨ decodeCLIStateMigrationPublicKeyHex (trim_space data) = Some key).
Lemma looks_public_key e value : looks (readCLIStateMigrationPublicKey e value) (λ fs key, key_given e fs value key).
Proof.
  unfold readCLIStateMigrationPublicKey, key_given. destruct (decodeCLIStateMigrationPublicKeyHex _) as [k|] eqn:E.
  { eapply looks_weaken; [apply looks_ret|]. intros ? b ->. by left. }
  eapply looks_seq; [apply looks_read_regular|intros d]. destruct (_ =? _).
  { eapply looks_weaken; [apply looks_ret|]. intros ? b -> H. right. eauto. }
  destruct (decodeCLIStateMigrationPublicKeyHex (trim_space d)) eqn:Ed; [|apply looks_throw].
  eapply looks_weaken; [apply looks_ret|]. intros ? b -> H. right. eauto.
Qed.
Lemma looks_private_key e path : looks (readCLIStateMigrationPrivateKey e path) (λ _ _, True).
Proof.
  unfold readCLIStateMigrationPrivateKey. case_bool_decide; [apply looks_throw|].
  eapply looks_seq; [apply looks_read_regular|intros d]. destruct (_ =? _); [apply looks_ret_any|].
  destruct (hex_decode _) as [x|]; [|apply looks_throw]. destruct (_ =? _); [apply looks_ret_any|apply looks_throw].
Qed.
Lemma looks_manifest e path :
  looks (readCLIStateManifestWithBytes e path) (λ fs md, file_at e fs path md.2 ∧ parse_state_manifest md.2 = Ok md.1).
Proof.
  unfold readCLIStateManifestWithBytes. eapply looks_seq; [apply looks_os_read|intros d].
  eapply looks_seq; [apply looks_lift_err|intros m]. eapply looks_weaken; [apply looks_ret|]. by intros fs b ->.
Qed.
Lemma looks_source e path : looks (readCLIStateMigrationSource e path) (λ _ _, True).
Proof.
  unfold readCLIStateMigrationSource. eapply looks_seq; [apply looks_os_lstat|intros [[]|]]; try apply looks_throw.
  eapply looks_weaken; [apply looks_os_read|done].
Qed.

Lemma looks_journal e path : looks (readCLIStateMigrationJournal e path) (λ _ _, True).
Proof.
  unfold readCLIStateMigrationJournal. eapply looks_seq; [apply looks_os_read|intros d].
  destruct (unmarshal_journal d); [apply looks_ret_any|apply looks_throw].
Qed.

(** The same of the command: it changes no file, and what it hands to the client satisfies [S]. *)
Definition sends {A} (m : cmd A) (S : tree → submission → Prop) (v : tree → A → Prop) : Prop := ∀ w,
  mw_fs (sw_mig (m w).1) = mw_fs (sw_mig w) ∧
  (sw_sent (m w).1 = sw_sent w ∨ ∃ s, sw_sent (m w).1 = sw_sent w ++ [s] ∧ S (mw_fs (sw_mig w)) s) ∧
  ∀ a, (m w).2 = Ok a → v (mw_fs (sw_mig w)) a.
Definition quiet {A} (m : cmd A) (v : tree → A → Prop) : Prop := sends m (λ _ _, False) v.
Lemma quiet_sent {A} (m : cmd A) v w : quiet m v → sw_sent (m w).1 = sw_sent w.
Proof. intros Hm. destruct (Hm w) as (_ & [?|(s & _ & [])] & _). done. Qed.
Lemma sends_weaken {A} (m : cmd A) (S S' : tree → submission → Prop) (v v' : tree → A → Prop) :
  sends m S v → (∀ fs s, S fs s → S' fs s) → (∀ fs a, v fs a → v' fs a) → sends m S' v'.
Proof. intros Hm HS Hv w. destruct (Hm w) as (H1 & Hs & H3). split_and!; [exact H1| |by intros a Ha; apply Hv, H3]. destruct Hs as [?|(s & ? & ?)]; [by left|right; exists s; auto]. Qed.
Lemma sends_seq {A B} (m : cmd A) v (f : A → cmd B) S (V : tree → B → Prop) :
  quiet m v → (∀ a, sends (f a) (λ fs s, v fs a → S fs s) (λ fs b, v fs a → V fs b)) → sends (bind m f) S V.
Proof.
  intros Hm Hf w. unfold bind. pose proof (quiet_sent m v w Hm) as Hq. destruct (Hm w) as (H1 & _ & H3).
  destruct (m w) as [w1 [a|err]]; cbn in *; [|by split_and!; [|left|]]. destruct (Hf a w1) as (H4 & H5 & H6).
  specialize (H3 a eq_refl). rewrite H4, H1 in *. split; [done|]. split; [|by intros b Hb; apply H6].
  rewrite <-Hq. destruct H5 as [?|(s & ? & ?)]; [by left|right]. exists s. auto.
Qed.
Lemma sends_last {A B} (m : cmd A) S v (f : A → cmd B) (V : tree → B → Prop) :
  sends m S v → (∀ a, quiet (f a) (λ fs b, v fs a → V fs b)) → sends (bind m f) S V.
Proof.
  intros Hm Hf w. unfold bind. destruct (Hm w) as (H1 & H2 & H3). destruct (m w) as [w1 [a|err]]; cbn in *; [|done].
  pose proof (quiet_sent _ _ w1 (Hf a)) as Hq. destruct (Hf a w1) as (H4 & _ & H6). specialize (H3 a eq_refl).
  rewrite H4, H1, Hq in *. auto.
Qed.
Lemma quiet_ret {A} (a : A) : quiet (ret a) (λ _ b, b = a).
Proof. intros w. split_and!; [done|by left|]. by intros b [= <-]. Qed.
Lemma sends_throw {A} err S (v : tree → A → Prop) : sends (throw err) S v.
Proof. intros w. split_and!; [done|by left|done]. Qed.
Lemma quiet_files {A} wrap (m : run A) v : looks m v → quiet (on_files wrap m) v.
Proof.
  intros Hm w. unfold on_files. destruct (Hm (sw_mig w)) as [H1 H2]. destruct (m (sw_mig w)) as [w' [a|err]]; cbn in *.
  - split_and!; [done|by left|]. intros b [= <-]. by apply H2.
  - split_and!; [done|by left|done].
Qed.
Lemma quiet_lift_err {F A} (f : F → state_error) (r : result F A) : quiet (lift_err f r) (λ _ a, r = Ok a).
Proof. destruct r; cbn [lift_err]; [|apply sends_throw]. intros w. split_and!; [done|by left|]. by intros b [= <-]. Qed.
Lemma quiet_guard err : quiet (guard err) (λ _ _, err = None).
Proof. intros w. unfold guard. destruct err; (split_and!; [done|by left|done]). Qed.
Lemma quiet_gets {A} (f : state_world → A) v : (∀ w, v (mw_fs (sw_mig w)) (f w)) → quiet (gets f) v.
Proof. intros H w. split_and!; [done|by left|]. by intros a [= <-]. Qed.
Lemma quiet_print e text : quiet (print e text) (λ _ _, True).
Proof. intros w. unfold print. destruct (se_print_ok _ _); (split_and!; [done|by left|done]). Qed.
Lemma quiet_when b m : quiet m (λ _ _, True) → quiet (when b m) (λ _ _, True).
Proof. intros H. destruct b; [done|]. eapply sends_weaken; [apply quiet_ret|done..]. Qed.
Lemma quiet_write e result format : quiet (writeCLIStateMigrationResult e result format) (λ _ _, True).
Proof.
  unfold writeCLIStateMigrationResult. case_bool_decide.
  - destruct (marshal_result result); [apply quiet_print|apply sends_throw].
  - repeat (eapply sends_seq; [first [apply quiet_print|apply quiet_when, quiet_print]|intros ?]).
    eapply sends_weaken; [apply quiet_when, quiet_print|done..].
Qed.

(** * The row of the manifest *)

Lemma valid_path_good rel : validStateManifestPath rel = true →
  rel ≠ "" ∧ Forall (λ c, good_component c = true) (split_byte "/" rel).
Proof.
  unfold validStateManifestPath. intros H. repeat (case_match; [discriminate H|]). apply andb_true_iff in H as [H _].
  split_bools. split; [done|].
  apply Forall_forall. intros c Hc. rewrite forallb_forall in H. specialize (H c). rewrite <-list_elem_of_In in H.
  specialize (H Hc). apply split_byte_no_sep in Hc. unfold good_component. rewrite Hc. split_bools.
  by rewrite !bool_decide_true by done.
Qed.
Lemma rows_ok_valid previous l row : rows_ok previous l = None → row ∈ l → validStateManifestPath (smf_Path row) = true.
Proof.
  revert previous. induction l as [|f l IH]; intros previous; cbn [rows_ok]; [set_solver|].
  rewrite err_seq_None, err_if_None. intros (Hf & _ & Hl) [->|Hin]%elem_of_cons; [|by eapply IH].
  unfold validateStateManifestFile in Hf. rewrite err_if_None in Hf. destruct Hf as [Hf _]. by apply negb_false_iff in Hf.
Qed.
Lemma resolved_row e fs m role audience pk now requested path row :
  VerifyStateManifest e fs (Some m) (sm_SourceRoot m) role audience pk now = None →
  resolveCLIStateMigrationPath m requested = Ok (path, row) →
  row ∈ sm_Files m ∧ path = child (sm_SourceRoot m) (smf_Path row) ∧
  ∃ bytes, fs !! path = Some (NFile bytes) ∧ row = row_of (smf_Path row) bytes.
Proof.
  intros (Hf & _ & _ & _ & _ & _ & Hs)%verify_None. apply scan_root_Ok in Hs as [_ Hs].
  unfold validateStateManifestFields in Hf. rewrite err_if_None, !err_seq_None, err_if_None in Hf.
  destruct Hf as (_ & _ & _ & _ & Hroot & _ & _ & Hrows).
  unfold validateStateManifestRootField in Hroot. rewrite err_seq_None, err_if_None in Hroot. destruct Hroot as (_ & Hroot & _).
  apply orb_false_iff in Hroot as [Ha%negb_false_iff Hc%negb_false_iff%bool_decide_eq_true].
  unfold resolveCLIStateMigrationPath. rewrite Hc. destruct (_ || _); [done|]. intros (rowPath & _ & H)%result_bind_Ok.
  destruct (List.filter _ _) as [|matched [|? ?]] eqn:El; try done. destruct (negb _); [done|]. injection H as <- <-.
  assert (Hin : matched ∈ sm_Files m).
  { apply list_elem_of_In. refine (proj1 (proj1 (filter_In _ _ _) _)). rewrite El. by left. }
  destruct (valid_path_good _ (rows_ok_valid _ _ _ Hrows Hin)) as [Hne Hgood].
  assert (Hj : Join (sm_SourceRoot m) (smf_Path matched) = child (sm_SourceRoot m) (smf_Path matched)) by (by apply Join_good).
  split; [done|]. split; [done|]. rewrite Hj. apply Hs in Hin as (rel & bytes & _ & Hfs & _ & ->). exists bytes. by split.
Qed.

(** * The command *)

(** The manifest verifies, and [row] is what it says of the file at [path]. *)
Definition verified (e : state_env) (o : syncStateMigrateOptions) (fs : tree) (manifest : StateManifest) (data path : string)
    (row : StateManifestFile) : Prop :=
  file_at e fs (mo_stateManifest o) data ∧ parse_state_manifest data = Ok manifest ∧
  (∃ key, key_given e fs (mo_publicKey o) key ∧
     VerifyStateManifest (me_scan (se_mig e)) fs (Some manifest) (sm_SourceRoot manifest) (or_field (mo_role o) (sm_Role manifest))
       (or_field (mo_audience o) (sm_Audience manifest)) key (se_now e) = None) ∧
  row ∈ sm_Files manifest ∧ path = child (sm_SourceRoot manifest) (smf_Path row) ∧
  ∃ bytes, fs !! path = Some (NFile bytes) ∧ row = row_of (smf_Path row) bytes.
(** What the hub is asked. *)
Definition asked (e : state_env) (o : syncStateMigrateOptions) (fs : tree) (s : submission) : Prop :=
  mo_remoteExecute o = true ∧ ∃ manifest data path row digest journalPath,
    verified e o fs manifest data path row ∧ migrationManifestDigest (Some manifest) = Ok digest ∧
    marshal_request (mkMigrationRequest (mo_operationID o) path journalPath digest "v2" (smf_SHA256 row) (smf_Size row) data)
      = Some (su_body s) ∧
    su_digest s = digest ∧ su_role s = trim_space (mo_role o) ∧ su_audience s = trim_space (mo_audience o) ∧
    su_expires s = (se_now e + 5 * 60 * second)%Z.

Lemma need_None s msg rest : need s msg rest = None ↔ trim_space s ≠ "" ∧ rest = None.
Proof. unfold need, blank. by rewrite err_if_None, bool_decide_eq_false. Qed.
Lemma or_field_given flag field : trim_space flag ≠ "" → or_field flag field = trim_space flag.
Proof. intros H. unfold or_field, blank. by rewrite bool_decide_false. Qed.
Lemma check_remote e o : check_options e o = None → mo_to o = "v2" ∧
  (mo_remoteExecute o = true → trim_space (mo_role o) ≠ "" ∧ trim_space (mo_audience o) ≠ "").
Proof.
  unfold check_options. rewrite !err_if_None, !need_None, err_seq_None. intros (Hto & _ & _ & _ & _ & Hr & _). split_bools.
  split; [done|]. intros E. rewrite E in Hr. rewrite err_if_None, !need_None in Hr. tauto.
Qed.
Lemma sends_submit e url session key role audience request :
  sends (submitCLIStateMigrationRequest e url session key role audience request)
    (λ _ s, marshal_request request = Some (su_body s) ∧ su_digest s = cr_ManifestDigest request ∧ su_role s = role ∧
       su_audience s = audience ∧ su_expires s = (se_now e + 5 * 60 * second)%Z) (λ _ _, True).
Proof.
  unfold submitCLIStateMigrationRequest. destruct (se_random e) as [nonce|]; [|apply sends_throw].
  destruct (marshal_request request) as [body|] eqn:Em; [|apply sends_throw].
  eapply (sends_last _ _ (λ _ _, True)); [|intros ?; eapply sends_weaken; [apply quiet_lift_err|done..]].
  intros w. split_and!; [done| |done]. right. eexists. split; [reflexivity|]. done.
Qed.
Lemma digest_same manifest : cliStateMigrationManifestDigest manifest = migrationManifestDigest (Some manifest).
Proof. done. Qed.
Lemma sends_verify e o manifest data signingKey session key path row journalPath :
  mo_to o = "v2" → (mo_remoteExecute o = true → trim_space (mo_role o) ≠ "" ∧ trim_space (mo_audience o) ≠ "") →
  let ready fs := file_at e fs (mo_stateManifest o) data ∧ parse_state_manifest data = Ok manifest ∧
    resolveCLIStateMigrationPath manifest (mo_state o) = Ok (path, row) ∧ key_given e fs (mo_publicKey o) key in
  sends (run_verify e o manifest data signingKey session key (or_field (mo_role o) (sm_Role manifest))
      (or_field (mo_audience o) (sm_Audience manifest)) path row journalPath)
    (λ fs s, ready fs → asked e o fs s) (λ fs _, ready fs → ∃ manifest data path row, verified e o fs manifest data path row).
Proof.
  intros Hto Hra ready. unfold run_verify.
  eapply (sends_seq _ (λ fs a, a = fs)); [by apply quiet_gets|intros fs0].
  eapply sends_seq; [apply quiet_guard|intros ?].
  set (ver := λ fs, verified e o fs manifest data path row).
  assert (Hver : ∀ fs, SGeneric "verify state manifest" ∘ SManifest <$> VerifyStateManifest (me_scan (se_mig e)) fs (Some manifest)
      (sm_SourceRoot manifest) (or_field (mo_role o) (sm_Role manifest)) (or_field (mo_audience o) (sm_Audience manifest)) key
      (se_now e) = None → ready fs → ver fs).
  { intros fs Hn%fmap_None (Hf & Hparse & Hres & Hk). pose proof (resolved_row _ _ _ _ _ _ _ _ _ _ Hn Hres). unfold ver, verified.
    split; [done|]. split; [done|]. split; [by exists key|]. done. }
  eapply sends_seq; [apply quiet_files, looks_source|intros source].
  destruct (_ || _) eqn:Eb; [apply sends_throw|]. split_bools.
  eapply sends_seq; [apply quiet_lift_err|intros digest]. rewrite digest_same.
  assert (Hlast : ∀ result, quiet (writeCLIStateMigrationResult e result (mo_format o)) (λ _ _, True)) by (intros; apply quiet_write).
  destruct (mo_remoteExecute o) eqn:Er.
  - eapply (sends_last _ _ (λ _ _, True)).
    + eapply sends_weaken; [apply sends_submit| |done]. intros fs s (Hm & Hd & Hr & Ha & Hx) Hdig _ Hn -> Hready.
      destruct (Hra eq_refl) as [H1 H2]. split; [done|]. exists manifest, data, path, row, digest, journalPath.
      split; [by apply Hver|]. split; [done|]. rewrite or_field_given in Hr, Ha by done.
      split_and!; [congruence|done..].
    + intros response. eapply sends_weaken; [apply Hlast|done|]. intros fs [] _ _ Hdig _ Hn -> Hready.
      exists manifest, data, path, row. by apply Hver.
  - eapply sends_weaken; [apply Hlast|done|]. intros fs [] _ Hdig _ Hn -> Hready.
    exists manifest, data, path, row. by apply Hver.
Qed.

(** C32: Without [--execute] the command writes no file, whichever call fails and wherever the
process is killed, and it hands the hub at most one request, and none without
[--remote-execute].  Success, and any request, presuppose that the signed manifest of
[--state-manifest] verifies, at this time, under the key of [--public-key] and for the role and
audience of the command line, and that the state file is exactly what a row of it says.  Of the
state file the request tells its path, size and hash, all three as they are in the signed
manifest: none of its contents. *)
Theorem offline_by_default e o w w' r :
  mo_execute o = false → migrate_run e o w = (w', r) →
  let fs := mw_fs (sw_mig w) in
  mw_fs (sw_mig w') = fs ∧
  (sw_sent w' = sw_sent w ∨ ∃ s, sw_sent w' = sw_sent w ++ [s] ∧ asked e o fs s) ∧
  (r = Ok () → ∃ manifest data path row, verified e o fs manifest data path row).
Proof.
  intros Hx Hrun fs. assert (Hm : sends (migrate_run e o) (asked e o)
    (λ fs _, ∃ manifest data path row, verified e o fs manifest data path row)).
  { clear w w' r Hrun fs. unfold migrate_run. destruct (check_options e o) eqn:Ec.
    { intros w. split_and!; [done|by left|done]. }
    apply check_remote in Ec as [Hto Hra]. eapply sends_seq; [apply quiet_guard|intros ?].
    eapply (sends_seq _ (λ _ _, True)).
    { destruct (mo_remoteExecute o); [apply quiet_files, looks_private_key|by eapply sends_weaken; [apply quiet_ret|done|done]]. }
    intros signingKey. eapply sends_seq; [apply quiet_files, looks_manifest|intros [manifest data]].
    eapply sends_seq; [apply quiet_files, looks_public_key|intros key].
    eapply sends_seq; [apply quiet_lift_err|intros [path row]]. eapply sends_seq; [apply quiet_lift_err|intros journalPath].
    rewrite Hx. cbn [fst snd]. eapply sends_weaken; [by apply sends_verify|naive_solver..]. }
  destruct (Hm w) as (H1 & H2 & H3). rewrite Hrun in *. split; [done|]. split; [done|]. intros ->. by apply (H3 ()).
Qed.

(** * Execution *)

(** A looking step from a world with these files and requests. *)
Definition same (fs : tree) (sent : list submission) (w : state_world) : Prop := mw_fs (sw_mig w) = fs ∧ sw_sent w = sent.
Lemma quiet_triple {A} (m : cmd A) v fs sent :
  quiet m v → triple (same fs sent) m (λ a w, same fs sent w ∧ v fs a) (same fs sent).
Proof.
  intros Hm w [<- <-]. destruct (Hm w) as (H1 & _ & H3). pose proof (quiet_sent _ _ w Hm) as H2. unfold same.
  destruct (m w) as [w' [a|err]]; cbn in *; [|done]. by rewrite H1; auto.
Qed.
Lemma file_at_fun e fs path d1 d2 : file_at e fs path d1 → file_at e fs path d2 → d1 = d2.
Proof. intros (p & Hp & H1) (q & Hq & H2). congruence. Qed.
Lemma migrated_safe e src jp operationID raw created manifest fs :
  migrated e src jp operationID raw created manifest fs → safe e src jp operationID raw created manifest fs.
Proof.
  intros (digest & desired & Hu & m & Hh). right. exists digest, desired. split; [done|]. exists m.
  eapply at_stage_holds; [apply committed_files|exact Hh].
Qed.

(** A looking step at the beginning of an action that must leave [R] when it fails. *)
Lemma look_first {A B} (m : cmd A) v (f : A → cmd B) fs sent Q (R : state_world → Prop) :
  (∀ w, same fs sent w → R w) → quiet m v → (∀ a, v fs a → triple (same fs sent) (f a) Q R) →
  triple (same fs sent) (bind m f) Q R.
Proof.
  intros HR Hm Hf. eapply triple_bind.
  - eapply triple_conseq; [apply (quiet_triple m v fs sent Hm)|done|intros a w H; exact H|exact HR].
  - intros a. apply triple_pure. apply Hf.
Qed.
Lemma quiet_execute_report e o journalPath :
  quiet (do! journal := on_files (generic "read committed migration journal") (readCLIStateMigrationJournal e journalPath) in
    if negb (bool_decide (mj_Phase journal = StateMigrationPhaseCommitted))
    then throw (SValidation "migration did not reach committed phase")
    else writeCLIStateMigrationResult e {|
      mr_Target := mo_to o; mr_Phase := mj_Phase journal; mr_StatePath := mj_SourcePath journal;
      mr_BackupPath := mj_BackupPath journal; mr_JournalPath := mj_JournalPath journal;
      mr_ManifestDigest := mj_ManifestDigest journal; mr_SourceHash := mj_SourceHash journal;
      mr_SourceSize := mj_SourceSize journal; mr_DesiredHash := mj_DesiredHash journal;
      mr_DesiredSize := mj_DesiredSize journal; mr_ResponseHash := ""; mr_ResponseSize := 0 |} (mo_format o)) (λ _ _, True).
Proof.
  eapply sends_seq; [apply quiet_files, looks_journal|intros j]. case_match; [apply sends_throw|].
  eapply sends_weaken; [apply quiet_write|done..].
Qed.

(** C33: With [--execute] the command hands the hub nothing, and the migration it runs on the
state file the manifest names is as safe as the migration itself, however the command ends: if
it succeeds the v2 document is in place, the v1 bytes are in the backup and the journal is
committed; if it fails, before, during or after the migration, or is killed, the state is
untouched or in a known stage with the v1 bytes at the source or in the backup. *)
Theorem execute_crash_safe e o raw manifest data path row journalPath w w' r :
  let fs := mw_fs (sw_mig w) in
  mo_execute o = true → migrate_run e o w = (w', r) →
  file_at e fs (mo_stateManifest o) data → parse_state_manifest data = Ok manifest →
  resolveCLIStateMigrationPath manifest (mo_state o) = Ok (path, row) →
  normalizeCLIStateMigrationPath (me_scan (se_mig e)) (mo_journal o) = Ok journalPath →
  untouched path journalPath raw fs → texts_ok path journalPath (mo_operationID o) → names_ok (se_mig e) path journalPath →
  sw_sent w' = sw_sent w ∧
  match r with
  | Ok _ => migrated (se_mig e) path journalPath (mo_operationID o) raw (se_now e) (Some manifest) (mw_fs (sw_mig w'))
  | Err _ => safe (se_mig e) path journalPath (mo_operationID o) raw (se_now e) (Some manifest) (mw_fs (sw_mig w'))
  end.
Proof.
  intros fs Hx Hrun Hfile Hparse Hres Hjournal Hu Ht Hn.
  set (P := safe (se_mig e) path journalPath (mo_operationID o) raw (se_now e) (Some manifest)).
  set (M := migrated (se_mig e) path journalPath (mo_operationID o) raw (se_now e) (Some manifest)).
  set (sent := sw_sent w).
  assert (Htri : triple (same fs sent) (migrate_run e o) (λ _ w, sw_sent w = sent ∧ M (mw_fs (sw_mig w)))
    (λ w, sw_sent w = sent ∧ P (mw_fs (sw_mig w)))).
  2:{ specialize (Htri w (conj eq_refl eq_refl)). rewrite Hrun in Htri. by destruct r. }
  assert (Hearly : ∀ w, same fs sent w → sw_sent w = sent ∧ P (mw_fs (sw_mig w))).
  { intros w1 [-> ->]. split; [done|]. by left. }
  pose proof (λ A B m v f Q, @look_first A B m v f fs sent Q _ Hearly) as Hlook.
  unfold migrate_run. eapply Hlook; [apply quiet_guard|intros _ _].
  eapply (Hlook _ _ _ (λ _ _, True)).
  { destruct (mo_remoteExecute o); [apply quiet_files, looks_private_key|by eapply sends_weaken; [apply quiet_ret|done|done]]. }
  intros signingKey _. eapply Hlook; [apply quiet_files, looks_manifest|intros [m d] [Hf Hp]]. cbn [fst snd] in Hf, Hp.
  assert (d = data) as -> by (by eapply file_at_fun). assert (m = manifest) as -> by congruence.
  eapply Hlook; [apply quiet_files, looks_public_key|intros key _].
  eapply Hlook; [apply quiet_lift_err|intros pr Hpr]. assert (pr = (path, row)) as -> by congruence.
  eapply Hlook; [apply quiet_lift_err|intros jp Hjp]. assert (jp = journalPath) as -> by congruence.
  rewrite Hx. unfold run_execute. eapply triple_bind.
  - intros w1 [Hw1 Hs1]. unfold on_files.
    pose proof (tri_migrate (se_mig e) path journalPath (mo_operationID o) raw (se_now e) Ht Hn (Some manifest) key
      (or_field (mo_role o) (sm_Role manifest)) (or_field (mo_audience o) (sm_Audience manifest)) (sw_mig w1)) as H.
    rewrite <-Hw1 in Hu. specialize (H Hu).
    instantiate (1 := λ _ w, sw_sent w = sent ∧ M (mw_fs (sw_mig w))).
    destruct (MigrateStateFileV1ToV2 _ _ _ _ _ _ _ _ _ _) as [w2 [a|err]]; cbn; by split.
  - intros _ w1 [Hs1 HM]. pose proof (quiet_execute_report e o journalPath) as Hrest. set (rest := bind _ _) in Hrest |- *.
    pose proof (quiet_triple rest _ (mw_fs (sw_mig w1)) (sw_sent w1) Hrest w1 (conj eq_refl eq_refl)) as H.
    destruct (rest w1) as [w2 [a|err]]; cbn in H |- *.
    + destruct H as [[-> ->] _]. done.
    + destruct H as [-> ->]. split; [done|]. by apply migrated_safe.
Qed.
End props.
