(* ===== verification/SyncStateFixture.v ===== *)
(** The command on the fixture of the migration, and the witnesses of its theorems. *)

From S2P Require Import Prelude GoStrings Digest GoEncoding GoTime Base64 Provider Paths Effects Json Envelope StateManifest StateManifestProps StateMigration StateMigrationSteps StateMigrationProps StateMigrationRecovery StateMigrationFixture SyncStateCmd SyncStateProps.
#[local] Open Scope go_scope.
#[local] Existing Instance toy_sha.

(** The manifest is at [/k/m], its text is ["M"]; the signing key is at [/k/s]. *)
Definition cx_fs : tree := <["/k" := NDir]> (<["/k/m" := NFile "M"]> (<["/k/s" := NFile (zeros 64)]> mx_fs)).
Definition cx_row : jtree := JObject [("path", JLeaf (Some "a.json")); ("size", JLeaf None); ("sha256", JLeaf (Some "h"))].
Definition cx_tree : jtree :=
  JObject ((λ k, (k, if bool_decide (k = "files") then JArray [cx_row] else JLeaf (Some "x"))) <$> root_keys).
#[local] Instance cx_json : StateCmdJson := {
  tokens b := (tokens_of (if bool_decide (b = "M") then cx_tree else JObject [("a", JArray [JObject [("b", JLeaf None); ("b", JLeaf None)]])]), true);
  unmarshal_members b := Some (list_to_map ((λ k, (k, if bool_decide (k = "files") then "F" else "x")) <$>
    (if bool_decide (b = "M") then root_keys else file_keys)));
  unmarshal_elements b := Some ["R"];
  decode_state_manifest b := Some (mx_manifest, true);
  decode_signature b := Some (Some (StdEncoding (sm_Sig mx_manifest)));
  unmarshal_journal := mx_decode 6;
  marshal_request r := Some ("migrate " +:+ cr_StatePath r +:+ " " +:+ cr_SourceHash r);
  marshal_result r := Some (mr_Phase r) }.
Definition cx_env (outcomes : nat → outcome) : state_env := {|
  se_mig := mx_env outcomes; se_getenv _ := "session"; se_now := mx_now; se_random := Some (zeros 16);
  se_parse _ := Some (mkURL "https" "hub" "hub" false "" "" "" false "" ""); se_print _ := "https://hub/operator/executor-envelope";
  se_marshal := Body; se_post _ _ := reply 200 (Some "accepted"); se_print_ok _ := true |}.
Definition cx_options (execute remote : bool) : syncStateMigrateOptions := {|
  mo_to := "v2"; mo_stateManifest := "/k/m"; mo_journal := mx_jp; mo_state := ""; mo_publicKey := hex_encode (ed_public (zeros 64));
  mo_role := "owner"; mo_audience := "migrate"; mo_operationID := "op-1"; mo_execute := execute; mo_remoteExecute := remote;
  mo_executorURL := "https://hub"; mo_operatorSession := ""; mo_signingKey := "/k/s"; mo_format := "table" |}.
Definition cx_world : state_world := mkStateWorld (mkMW cx_fs 0) [] [].
Definition cx_run (outcomes : nat → outcome) (execute remote : bool) : state_world * result state_error unit :=
  migrate_run (MJ := mx_json 6) (cx_env outcomes) (cx_options execute remote) cx_world.

Lemma repeated_keys_found_witness :
  detectJSONDuplicateKeys "M" = None ∧ detectJSONDuplicateKeys "N" ≠ None.
Proof.
  split.
  - apply (repeated_keys_found "M" cx_tree); vm_compute; reflexivity.
  - intros H. apply (repeated_keys_found "N" (JObject [("a", JArray [JObject [("b", JLeaf None); ("b", JLeaf None)]])])) in H;
      [vm_compute in H; discriminate|vm_compute; reflexivity].
Defined.
Lemma offline_by_default_witness :
  length (sw_sent (cx_run (λ _, Fine) false true).1) = 1 ∧ mw_fs (sw_mig (cx_run (λ _, Fine) false true).1) = cx_fs.
Proof.
  split; [vm_compute; reflexivity|].
  exact (proj1 (offline_by_default (MJ := mx_json 6) (cx_env (λ _, Fine)) (cx_options false true) cx_world _ _ eq_refl (surjective_pairing _))).
Defined.
Lemma cx_resolved : resolveCLIStateMigrationPath mx_manifest "" = Ok (mx_src, row_of "a.json" mx_raw).
Proof. vm_compute. reflexivity. Qed.
Lemma cx_parsed : parse_state_manifest "M" = Ok mx_manifest.
Proof. vm_compute. reflexivity. Qed.
Lemma execute_crash_safe_witness :
  (cx_run (λ _, Fine) true false).2 = Ok () ∧
  migrated (MJ := mx_json 6) (mx_env (λ _, Fine)) mx_src mx_jp "op-1" mx_raw mx_now (Some mx_manifest)
    (mw_fs (sw_mig (cx_run (λ _, Fine) true false).1)).
Proof.
  assert (E : (cx_run (λ _, Fine) true false).2 = Ok ()) by (vm_compute; reflexivity). split; [exact E|].
  pose proof (execute_crash_safe (MJ := mx_json 6) (cx_env (λ _, Fine)) (cx_options true false) mx_raw mx_manifest "M" mx_src
    (row_of "a.json" mx_raw) mx_jp cx_world _ _ eq_refl (surjective_pairing _)) as H.
  assert (Hf : file_at (cx_env (λ _, Fine)) cx_fs "/k/m" "M") by (exists "/k/m"; split; vm_compute; reflexivity).
  assert (Hj : normalizeCLIStateMigrationPath sx_env mx_jp = Ok mx_jp) by (vm_compute; reflexivity).
  assert (Hu : untouched mx_src mx_jp mx_raw cx_fs) by (split; [|split]; vm_compute; reflexivity).
  specialize (H Hf cx_parsed cx_resolved Hj Hu mx_texts_ok (mx_names_ok _)). apply proj2 in H.
  change (migrate_run (MJ := mx_json 6) (cx_env (λ _, Fine)) (cx_options true false) cx_world) with (cx_run (λ _, Fine) true false) in H.
  rewrite E in H. exact H.
Defined.
