(* ===== verification/Differ.v ===== *)
(** Comparison of two sets of secrets (src/internal/differ): the snapshot of a source, the
comparison with the keys of each side, of values that differ and of values that cannot be
read, its two renderings, and the three kinds of source (a provider's path, a dotenv file,
the names in a GitHub repository).  SHA-256 and the answer of the GitHub server to the
request for one page are parameters; the order in which a loop visits a map is any. *)

From S2P Require Import Prelude GoStrings GoEncoding Digest Provider Json EnvExec Dotenv.
#[local] Open Scope go_scope.

(** * Data *)

Record Snapshot := mkSnapshot { Secrets : gmap string string; CanReadValues : bool }.
(** A source with what one call of Read returns. *)
Record Source := mkSource { Label : string; Read : result string Snapshot }.
Record Opts := mkOpts { Hashes : bool }.
Record Result := mkResult {
  res_A : string; res_B : string;
  OnlyA : slice string; OnlyB : slice string;
  Changed : slice string; Unknown : slice string;
  SameCount : Z;
  res_Hashes : gmap string (string * string);
}.

(** [len], and [append] of one element. *)
Definition len {T} (s : slice T) : nat := length (elems s).
Definition push {T} (s : slice T) (x : T) : slice T := Some (elems s ++ [x]).

Definition HasDrift (r : Result) : bool :=
  (0 <? len (OnlyA r)) || (0 <? len (OnlyB r)) || (0 <? len (Changed r)).

Section diff.
Context {SH : SHA256} {MR : MapRange}.

Definition hash8 (s : string) : string := str_take 8 (sha256_hex s).

Definition hashSide (readable : bool) (v : string) : string := if readable then hash8 v else "?".

(** One turn of the loop over the first source's keys. *)
Definition visit_a (opts : Opts) (sa sb : Snapshot) (res : Result) (kv : string * string) : Result :=
  let '(k, va) := kv in
  let canCompare := CanReadValues sa && CanReadValues sb in
  match Secrets sb !! k with
  | None => mkResult (res_A res) (res_B res) (push (OnlyA res) k) (OnlyB res) (Changed res) (Unknown res)
              (SameCount res) (res_Hashes res)
  | Some vb =>
    if negb canCompare then
      mkResult (res_A res) (res_B res) (OnlyA res) (OnlyB res) (Changed res) (push (Unknown res) k) (SameCount res)
        (if Hashes opts
         then <[k := (hashSide (CanReadValues sa) va, hashSide (CanReadValues sb) vb)]> (res_Hashes res)
         else res_Hashes res)
    else if bool_decide (va ≠ vb) then
      mkResult (res_A res) (res_B res) (OnlyA res) (OnlyB res) (push (Changed res) k) (Unknown res) (SameCount res)
        (if Hashes opts then <[k := (hash8 va, hash8 vb)]> (res_Hashes res) else res_Hashes res)
    else mkResult (res_A res) (res_B res) (OnlyA res) (OnlyB res) (Changed res) (Unknown res)
           (SameCount res + 1) (res_Hashes res)
  end.
(** One turn of the loop over the second source's keys. *)
Definition visit_b (sa : Snapshot) (res : Result) (k : string) : Result :=
  if bool_decide (is_Some (Secrets sa !! k)) then res
  else mkResult (res_A res) (res_B res) (OnlyA res) (push (OnlyB res) k) (Changed res) (Unknown res)
         (SameCount res) (res_Hashes res).
Definition sort_result (res : Result) : Result :=
  mkResult (res_A res) (res_B res) (sort_strings <$> OnlyA res) (sort_strings <$> OnlyB res)
    (sort_strings <$> Changed res) (sort_strings <$> Unknown res) (SameCount res) (res_Hashes res).

Definition diff_error (a b : Source) (err : string) : string :=
  "diff " +:+ Label a +:+ " vs " +:+ Label b +:+ ": " +:+ err.

Definition Diff (a b : Source) (opts : Opts) : result string Result :=
  match Read a with
  | Err err => Err (diff_error a b err)
  | Ok sa =>
    match Read b with
    | Err err => Err (diff_error a b err)
    | Ok sb =>
      let res := mkResult (Label a) (Label b) None None None None 0 ∅ in
      let res := foldl (visit_a opts sa sb) res (range_map 0 (Secrets sa)) in
      let res := foldl (visit_b sa) res (range_map 1 (Secrets sb)).*1 in
      Ok (sort_result res)
    end
  end.
End diff.

(** * Renderings *)

Definition printed_lines (l : slice string) : string :=
  foldr (λ k s, "    " +:+ k +:+ str1 LF +:+ s) "" (elems l).
(** The arrow between two hashes, in UTF-8. *)
Definition arrow : string := encode_rune 8594.

Definition RenderTable (r : Result) (showHash : bool) : string :=
  "diff " +:+ res_A r +:+ " vs " +:+ res_B r +:+ str1 LF +:+ str1 LF +:+
  if negb (HasDrift r) && (len (Unknown r) =? 0)%nat && (SameCount r =? 0)%Z then
    "No secrets found to compare on either side." +:+ str1 LF
  else
    (if (0 <? len (OnlyA r)) then "+ only in " +:+ res_A r +:+ str1 LF +:+ printed_lines (OnlyA r) else "") +:+
    (if (0 <? len (OnlyB r)) then "- only in " +:+ res_B r +:+ str1 LF +:+ printed_lines (OnlyB r) else "") +:+
    (if (0 <? len (Changed r)) then
       "~ differs" +:+ str1 LF +:+
       (if showHash then
          foldr (λ k s, let h := default ("", "") (res_Hashes r !! k) in
            "    " +:+ k +:+ "   " +:+ h.1 +:+ " " +:+ arrow +:+ " " +:+ h.2 +:+ str1 LF +:+ s) "" (elems (Changed r))
        else printed_lines (Changed r))
     else "") +:+
    (if (0 <? len (Unknown r)) then
       "? cannot compare values (" +:+ res_B r +:+ " is write-only)" +:+ str1 LF +:+ printed_lines (Unknown r)
     else "") +:+
    (if negb (HasDrift r) && (len (Unknown r) =? 0)%nat then "no drift" +:+ str1 LF else "") +:+
    str1 LF +:+ itoa (SameCount r) +:+ " same" +:+ str1 LF.

Definition orEmpty (s : slice string) : slice string := match s with None => Some [] | Some l => Some l end.

Definition json_pairs (m : gmap string (string * string)) : string :=
  json_items 1 "{" "}"
    ((λ kh, json_string kh.1 +:+ ": " +:+ json_strings 2 (Some [kh.2.1; kh.2.2])) <$> entries m).

(** The members of [jsonResult], with [omitempty] on the last. *)
Definition RenderJSON (r : Result) : string :=
  json_items 0 "{" "}" (
    [ json_member "a" (json_string (res_A r));
      json_member "b" (json_string (res_B r));
      json_member "only_a" (json_strings 1 (orEmpty (OnlyA r)));
      json_member "only_b" (json_strings 1 (orEmpty (OnlyB r)));
      json_member "changed" (json_strings 1 (orEmpty (Changed r)));
      json_member "unknown" (json_strings 1 (orEmpty (Unknown r)));
      json_member "same_count" (itoa (SameCount r)) ] ++
    if bool_decide (res_Hashes r = ∅) then [] else [json_member "hashes" (json_pairs (res_Hashes r))]).

(** * Sources *)

(** A loop that sets one entry for each element. *)
Definition set_entries {T} (name value : T → string) (l : list T) (m : gmap string string) : gmap string string :=
  foldl (λ out s, <[name s := value s]> out) m l.

(** [list] is what [provider.List] returns for the prefix. *)
Definition envSource_Read (label pathPrefix : string) (list : result string (list Secret)) : result string Snapshot :=
  match list with
  | Err err => Err ("read " +:+ label +:+ ": " +:+ err)
  | Ok secrets => Ok (mkSnapshot (set_entries (λ s, KeyToEnvName (Key s) pathPrefix) Value secrets ∅) true)
  end.
Definition NewEnvSource (label pathPrefix : string) (list : result string (list Secret)) : Source :=
  mkSource label (envSource_Read label pathPrefix list).

(** [message] is the text of an import error. *)
Definition dotenvSource_Read (message : import_err → string) (filePath : string) (file : option string) :
    result string Snapshot :=
  match Import file with
  | Err err => Err ("read file:" +:+ filePath +:+ ": " +:+ message err)
  | Ok imported => Ok (mkSnapshot (set_entries (λ s, KeyToEnvName (is_Key s) "") is_Value imported ∅) true)
  end.
Definition NewDotenvSource (message : import_err → string) (filePath : string) (file : option string) : Source :=
  mkSource ("file:" +:+ filePath) (dotenvSource_Read message filePath file).

Section github.
(** What the server answers for a page: the total and the names, or an error. *)
Context (answer : Z → result string (Z * list string)).

Definition fetchPage (page : Z) : result string (list string * bool) :=
  let! (total, names) := answer page in Ok (names, (page * 100 <? total)%Z).
Definition github_label (owner repo : string) : string := "github:" +:+ owner +:+ "/" +:+ repo.
(** The loop over the pages; [None]: the fuel ran out. *)
Fixpoint read_pages (fuel : nat) (label : string) (page : Z) (out : gmap string string) :
    option (result string Snapshot) :=
  match fuel with
  | O => None
  | S fuel =>
    match fetchPage page with
    | Err err => Some (Err ("read " +:+ label +:+ ": " +:+ err))
    | Ok (names, more) =>
      let out := set_entries id (λ _, "") names out in
      if more then read_pages fuel label (page + 1) out else Some (Ok (mkSnapshot out false))
    end
  end.
Definition githubSource_Read (fuel : nat) (owner repo : string) : option (result string Snapshot) :=
  read_pages fuel (github_label owner repo) 1 ∅.
End github.

(** * What the comparison says of one key *)

Inductive verdict := VOnlyA | VOnlyB | VChanged | VUnknown | VSame.
#[export] Instance verdict_eq_dec : EqDecision verdict.
Proof. solve_decision. Defined.

(** [canCompare]: the values of both sides can be read. *)
Definition verdict_of (canCompare : bool) (va vb : option string) : option verdict :=
  match va, vb with
  | Some va, Some vb =>
    Some (if negb canCompare then VUnknown else if bool_decide (va ≠ vb) then VChanged else VSame)
  | Some _, None => Some VOnlyA
  | None, Some _ => Some VOnlyB
  | None, None => None
  end.
Definition comparable (sa sb : Snapshot) : bool := CanReadValues sa && CanReadValues sb.
Definition verdicts (sa sb : Snapshot) : gmap string verdict :=
  merge (verdict_of (comparable sa sb)) (Secrets sa) (Secrets sb).
(** The keys with a verdict, sorted. *)
Definition keys_with (v : verdict) (m : gmap string verdict) : list string :=
  sorted_keys (filter (λ kv, kv.2 = v) m).

Lemma verdicts_lookup sa sb k :
  verdicts sa sb !! k = verdict_of (comparable sa sb) (Secrets sa !! k) (Secrets sb !! k).
Proof. unfold verdicts. rewrite lookup_merge. by destruct (Secrets sa !! k), (Secrets sb !! k). Qed.
Lemma elem_of_keys_with v m k : k ∈ keys_with v m ↔ m !! k = Some v.
Proof.
  unfold keys_with. rewrite elem_of_sorted_keys. split.
  - intros [w [H E]%map_lookup_filter_Some]. cbn in E. by subst w.
  - intros H. exists v. by apply map_lookup_filter_Some.
Qed.
(** A list of the keys with a verdict, without repetition, sorts to [keys_with]. *)
Lemma sort_keys_with v m l :
  NoDup l → (∀ k, k ∈ l ↔ m !! k = Some v) → sort_strings l = keys_with v m.
Proof.
  intros Hd Hl. apply sort_strings_unique, NoDup_Permutation; [done|apply NoDup_fst_map_to_list|].
  intros k. rewrite Hl, <-elem_of_keys_with. unfold keys_with, sorted_keys. by rewrite elem_of_sort_strings.
Qed.
Lemma keys_with_size v m : length (keys_with v m) = size (filter (λ kv, kv.2 = v) m).
Proof. unfold keys_with, sorted_keys. by rewrite sort_strings_perm, length_fmap, length_map_to_list. Qed.
Lemma keys_with_nil v m : keys_with v m = [] ↔ ∀ k, m !! k ≠ Some v.
Proof.
  split.
  - intros E k Hk%elem_of_keys_with. rewrite E in Hk. by apply elem_of_nil in Hk.
  - intros H. destruct (keys_with v m) as [|k l] eqn:E; [done|]. exfalso. apply (H k), elem_of_keys_with.
    rewrite E. left.
Qed.

(** * The loops *)

Section spec.
Context {SH : SHA256} {MR : MapRange}.
Implicit Types (sa sb : Snapshot) (res : Result).

(** The keys of the walked entries that get a verdict. *)
Definition picks sa sb (v : verdict) (l : list (string * string)) : list string :=
  (filter (λ kv, verdict_of (comparable sa sb) (Some kv.2) (Secrets sb !! kv.1) = Some v) l).*1.
(** The pair of hashes the loop stores for a key. *)
Definition hash_pair sa sb (va vb : option string) : option (string * string) :=
  match va, vb with
  | Some va, Some vb =>
    if comparable sa sb && bool_decide (va = vb) then None
    else Some (hashSide (CanReadValues sa) va, hashSide (CanReadValues sb) vb)
  | _, _ => None
  end.
Definition hash_pairs sa sb : gmap string (string * string) :=
  merge (hash_pair sa sb) (Secrets sa) (Secrets sb).

(** One turn adds the key where its verdict says. *)
Definition add_verdict (v : verdict) res (k : string) h : Result :=
  let put w s := if decide (v = w) then push s k else s in
  mkResult (res_A res) (res_B res) (put VOnlyA (OnlyA res)) (put VOnlyB (OnlyB res))
    (put VChanged (Changed res)) (put VUnknown (Unknown res))
    (SameCount res + if decide (v = VSame) then 1 else 0) h.
Lemma visit_a_verdict opts sa sb res k va :
  ∃ v, verdict_of (comparable sa sb) (Some va) (Secrets sb !! k) = Some v ∧
    visit_a opts sa sb res (k, va) = add_verdict v res k
      (match hash_pair sa sb (Some va) (Secrets sb !! k) with
       | Some h => if Hashes opts then <[k := h]> (res_Hashes res) else res_Hashes res
       | None => res_Hashes res
       end).
Proof.
  unfold visit_a, hash_pair, verdict_of, comparable, add_verdict, hashSide.
  destruct (Secrets sb !! k) as [vb|]; [|eexists; split; [done|]; by cbn; rewrite Z.add_0_r].
  destruct (CanReadValues sa), (CanReadValues sb); cbn [negb andb];
    [destruct (decide (va = vb)) as [->|Hne]|..].
  1: rewrite (bool_decide_false (vb ≠ vb)), (bool_decide_true (vb = vb)) by (done || tauto).
  2: rewrite (bool_decide_true (va ≠ vb)), (bool_decide_false (va = vb)) by done.
  all: eexists; (split; [done|]); cbn [negb hashSide]; unfold comparable, hashSide; cbn -[hash8]; by rewrite ?Z.add_0_r.
Qed.
Lemma loop_a opts sa sb l res :
  let r := foldl (visit_a opts sa sb) res l in
  res_A r = res_A res ∧ res_B r = res_B res ∧
  OnlyA r = foldl push (OnlyA res) (picks sa sb VOnlyA l) ∧ OnlyB r = OnlyB res ∧
  Changed r = foldl push (Changed res) (picks sa sb VChanged l) ∧
  Unknown r = foldl push (Unknown res) (picks sa sb VUnknown l) ∧
  SameCount r = (SameCount res + Z.of_nat (length (picks sa sb VSame l)))%Z.
Proof.
  revert res. induction l as [|[k va] l IH]; intros res.
  { cbn. by rewrite Z.add_0_r. }
  cbn [foldl]. destruct (visit_a_verdict opts sa sb res k va) as (v & Hv & ->).
  destruct (IH (add_verdict v res k
    (match hash_pair sa sb (Some va) (Secrets sb !! k) with
       | Some h => if Hashes opts then <[k := h]> (res_Hashes res) else res_Hashes res
       | None => res_Hashes res
       end))) as (-> & -> & -> & -> & -> & -> & ->).
  assert (Hp : ∀ w, picks sa sb w ((k, va) :: l) = (if decide (v = w) then [k] else []) ++ picks sa sb w l).
  { intros w. unfold picks. rewrite filter_cons. cbn [fst snd]. rewrite Hv.
    repeat case_decide; simplify_eq; done. }
  rewrite !Hp. unfold add_verdict. cbn.
  assert (v ≠ VOnlyB) by (intros ->; unfold verdict_of in Hv; repeat case_match; discriminate).
  split_and!; try done; destruct v; repeat (case_decide; try congruence); cbn; try done; lia.
Qed.
Lemma loop_hashes opts sa sb l res k :
  NoDup l.*1 →
  res_Hashes (foldl (visit_a opts sa sb) res l) !! k =
  match (if Hashes opts then va ← (list_to_map l : gmap string string) !! k;
           hash_pair sa sb (Some va) (Secrets sb !! k) else None) with
  | Some h => Some h | None => res_Hashes res !! k end.
Proof.
  revert res. induction l as [|[k1 va] l IH]; intros res; cbn [fmap list_fmap fst foldl].
  { intros _. by destruct (Hashes opts). }
  intros [Hn Hd]%NoDup_cons. rewrite IH by done.
  destruct (visit_a_verdict opts sa sb res k1 va) as (v & _ & ->). unfold add_verdict. cbn [res_Hashes].
  cbn [list_to_map foldr uncurry fst snd]. destruct (Hashes opts); [|by case_match].
  destruct (decide (k1 = k)) as [<-|Hne].
  - rewrite lookup_insert_eq, not_elem_of_list_to_map_1 by done. cbn -[hash_pair].
    destruct (hash_pair _ _ _ _); [by rewrite lookup_insert_eq|done].
  - rewrite lookup_insert_ne by done. case_match; [done|].
    case_match; [by rewrite lookup_insert_ne|done].
Qed.
Lemma loop_b sa l res :
  foldl (visit_b sa) res l =
  mkResult (res_A res) (res_B res) (OnlyA res)
    (foldl push (OnlyB res) (filter (λ k, Secrets sa !! k = None) l))
    (Changed res) (Unknown res) (SameCount res) (res_Hashes res).
Proof.
  revert res. induction l as [|k l IH]; intros res; [by destruct res|].
  cbn [foldl]. rewrite IH, filter_cons. unfold visit_b. destruct (Secrets sa !! k) eqn:E.
  - rewrite bool_decide_true, decide_False by (done || by eexists). done.
  - rewrite bool_decide_false, decide_True by (done || by intros []). done.
Qed.
(** A slice that was only ever appended to, and then sorted. *)
Definition filled (l : list string) : slice string := match l with [] => None | _ => Some l end.
Lemma foldl_push l : foldl push None l = filled l.
Proof.
  assert (H : ∀ (l l' : list string), foldl push (Some l) l' = Some (l ++ l')).
  { intros l0 l1. revert l0. induction l1 as [|x l1 IH]; intros l0; cbn [foldl]; [by rewrite app_nil_r|].
    unfold push at 2. cbn. by rewrite IH, <-app_assoc. }
  destruct l; [done|]. apply H.
Qed.
Lemma sort_filled l : sort_strings <$> filled l = filled (sort_strings l).
Proof.
  destruct l as [|x l]; [done|]. cbn [filled fmap option_fmap option_map].
  destruct (sort_strings (x :: l)) eqn:E; [|done].
  pose proof (sort_strings_perm (x :: l)) as Hp. rewrite E in Hp. by apply Permutation_nil_cons in Hp.
Qed.

Lemma picks_range sa sb v site :
  v ≠ VOnlyB → sort_strings (picks sa sb v (range_map site (Secrets sa))) = keys_with v (verdicts sa sb).
Proof.
  intros Hv. apply sort_keys_with.
  - eapply sublist_NoDup; [apply (NoDup_range_map site (Secrets sa))|]. apply (fmap_sublist fst), sublist_filter.
  - intros k. unfold picks. rewrite list_elem_of_fmap, verdicts_lookup. split.
    + intros ([k' va] & -> & [Hp Hin]%list_elem_of_filter). cbn in *.
      apply elem_of_range_map in Hin. by rewrite Hin.
    + intros Hk. destruct (Secrets sa !! k) as [va|] eqn:E.
      * exists (k, va). split; [done|]. apply list_elem_of_filter. cbn. by rewrite elem_of_range_map.
      * exfalso. destruct (Secrets sb !! k); cbn in Hk; congruence.
Qed.
Lemma picks_range_length sa sb v site :
  v ≠ VOnlyB → length (picks sa sb v (range_map site (Secrets sa))) = size (filter (λ kv, kv.2 = v) (verdicts sa sb)).
Proof.
  intros Hv. rewrite <-keys_with_size, <-(picks_range sa sb v site) by done. by rewrite sort_strings_perm.
Qed.
Lemma absent_range sa sb site :
  sort_strings (filter (λ k, Secrets sa !! k = None) (range_map site (Secrets sb)).*1) =
  keys_with VOnlyB (verdicts sa sb).
Proof.
  apply sort_keys_with.
  - eapply sublist_NoDup; [apply (NoDup_range_map site (Secrets sb))|]. apply sublist_filter.
  - intros k. rewrite list_elem_of_filter, range_map_keys, verdicts_lookup. unfold verdict_of.
    destruct (Secrets sa !! k), (Secrets sb !! k); repeat case_match; naive_solver.
Qed.

(** The result of a comparison of two snapshots is determined: which order the maps are
visited in does not matter. *)
Definition outcome opts (a b : Source) sa sb : Result :=
  let m := verdicts sa sb in
  mkResult (Label a) (Label b) (filled (keys_with VOnlyA m)) (filled (keys_with VOnlyB m))
    (filled (keys_with VChanged m)) (filled (keys_with VUnknown m))
    (Z.of_nat (size (filter (λ kv, kv.2 = VSame) m)))
    (if Hashes opts then hash_pairs sa sb else ∅).
Lemma Diff_outcome opts a b sa sb :
  Read a = Ok sa → Read b = Ok sb → Diff a b opts = Ok (outcome opts a b sa sb).
Proof.
  intros Ha Hb. unfold Diff, outcome. rewrite Ha, Hb. f_equal.
  set (r0 := mkResult _ _ _ _ _ _ _ _). rewrite loop_b.
  pose proof (loop_a opts sa sb (range_map 0 (Secrets sa)) r0) as HA.
  pose proof (λ k, loop_hashes opts sa sb (range_map 0 (Secrets sa)) r0 k (NoDup_range_map _ _)) as HH.
  set (r1 := foldl (visit_a opts sa sb) r0 _) in *. destruct HA as (E1 & E2 & E3 & E4 & E5 & E6 & E7).
  unfold sort_result. cbn [res_A res_B OnlyA OnlyB Changed Unknown SameCount res_Hashes].
  rewrite E1, E2, E3, E4, E5, E6, E7. cbn [r0 res_A res_B OnlyA OnlyB Changed Unknown SameCount].
  rewrite !foldl_push, !sort_filled, !picks_range, absent_range, picks_range_length by done. f_equal.
  apply map_eq. intros k. rewrite HH, range_map_list_to_map. cbn [r0 res_Hashes]. rewrite lookup_empty.
  unfold hash_pairs. destruct (Hashes opts); [|by rewrite lookup_empty].
  rewrite lookup_merge. unfold diag_None. destruct (Secrets sa !! k), (Secrets sb !! k); cbn -[hash_pair]; try done.
  by destruct (hash_pair _ _ _ _).
Qed.
End spec.

(** * What the comparison promises *)

Section promises.
Context {SH : SHA256}.

Lemma elems_filled l : elems (filled l) = l.
Proof. by destruct l. Qed.
Lemma len_filled l : (0 <? len (filled l)) = bool_decide (l ≠ []).
Proof. by destruct l. Qed.
Lemma keys_with_sorted v m : StronglySorted String.le (keys_with v m) ∧ NoDup (keys_with v m).
Proof.
  split; [apply sort_strings_sorted|]. unfold keys_with, sorted_keys.
  rewrite sort_strings_perm. apply NoDup_fst_map_to_list.
Qed.
(** Without drift the maps agree, when both can be read. *)
Lemma no_drift_equal sa sb :
  comparable sa sb = true →
  Forall (λ v, keys_with v (verdicts sa sb) = []) [VOnlyA; VOnlyB; VChanged] ↔ Secrets sa = Secrets sb.
Proof.
  intros Hc. rewrite !Forall_cons, !keys_with_nil, map_eq_iff.
  setoid_rewrite verdicts_lookup. rewrite Hc. split.
  - intros (Ha & Hb & Hd & _) k. specialize (Ha k). specialize (Hb k). specialize (Hd k).
    destruct (Secrets sa !! k) as [x|], (Secrets sb !! k) as [y|]; cbn in *; try done.
    destruct (decide (x = y)) as [->|]; [done|]. by rewrite bool_decide_true in Hd.
  - intros H. split_and!; [..|by constructor]; intros k; rewrite <-(H k);
      destruct (Secrets sa !! k); cbn; rewrite ?bool_decide_false by tauto; done.
Qed.
Lemma same_size sa sb :
  filter (λ kv, kv.2 = VSame) (verdicts sa sb) =
  (λ _, VSame) <$> filter (λ kv, comparable sa sb = true ∧ Secrets sb !! kv.1 = Some kv.2) (Secrets sa).
Proof.
  apply map_eq. intros k. apply option_eq. intros v.
  rewrite map_lookup_filter_Some, lookup_fmap_Some, verdicts_lookup. cbn. split.
  - intros [Hv ->]. destruct (Secrets sa !! k) as [x|] eqn:Ea, (Secrets sb !! k) as [y|] eqn:Eb; cbn in Hv; try done.
    destruct (comparable sa sb) eqn:Hc; [|done]. cbn in Hv. case_bool_decide as Hxy; [done|].
    exists x. split; [done|]. apply map_lookup_filter_Some. cbn. rewrite Eb.
    destruct (decide (x = y)); [by subst|tauto].
  - intros (x & <- & [Ha [Hc Hb]]%map_lookup_filter_Some). cbn in Hb. rewrite Ha, Hb, Hc. cbn.
    by rewrite bool_decide_false by tauto.
Qed.

(** C40: A comparison of two sources that can be read says exactly how their keys stand:
the keys of one side only, the keys whose values differ, and the keys whose values cannot
be compared are each listed once and in order, the rest is counted, and when both sides
have values it reports drift exactly when the two sets differ.  The order in which the
loops visit the maps plays no part. *)
Theorem diff_exact {MR : MapRange} opts a b sa sb :
  Read a = Ok sa → Read b = Ok sb →
  ∃ r, Diff a b opts = Ok r ∧
    (∀ k, k ∈ elems (OnlyA r) ↔ is_Some (Secrets sa !! k) ∧ Secrets sb !! k = None) ∧
    (∀ k, k ∈ elems (OnlyB r) ↔ Secrets sa !! k = None ∧ is_Some (Secrets sb !! k)) ∧
    (∀ k, k ∈ elems (Changed r) ↔ comparable sa sb = true ∧
      ∃ x y, Secrets sa !! k = Some x ∧ Secrets sb !! k = Some y ∧ x ≠ y) ∧
    (∀ k, k ∈ elems (Unknown r) ↔ comparable sa sb = false ∧
      is_Some (Secrets sa !! k) ∧ is_Some (Secrets sb !! k)) ∧
    SameCount r = Z.of_nat (size (filter (λ kv, comparable sa sb = true ∧ Secrets sb !! kv.1 = Some kv.2) (Secrets sa))) ∧
    Forall (λ l, StronglySorted String.le (elems l) ∧ NoDup (elems l)) [OnlyA r; OnlyB r; Changed r; Unknown r] ∧
    (comparable sa sb = true → HasDrift r = bool_decide (Secrets sa ≠ Secrets sb)).
Proof.
  intros Ha Hb. eexists. split; [by apply Diff_outcome|].
  unfold outcome, HasDrift. cbn [OnlyA OnlyB Changed Unknown SameCount]. rewrite !Forall_cons, !elems_filled, !len_filled.
  setoid_rewrite elem_of_keys_with. setoid_rewrite verdicts_lookup. rewrite same_size, map_size_fmap.
  repeat match goal with |- _ ∧ _ => split end; auto using keys_with_sorted, Forall_nil_2; try apply keys_with_sorted.
  1-4: intros k; unfold verdict_of; destruct (Secrets sa !! k) as [x|], (Secrets sb !! k) as [y|];
    destruct (comparable sa sb); cbn. all: try naive_solver.
  1-4: case_bool_decide; naive_solver.
  intros Hc. apply eq_bool_prop_intro. rewrite !orb_True, !bool_decide_spec, <-(no_drift_equal _ _ Hc), !Forall_cons.
  destruct (keys_with VOnlyA _), (keys_with VOnlyB _), (keys_with VChanged _); naive_solver.
Qed.

(** What a comparison returns is a function of the labels and the verdicts, and with
hashes of those: of the values nothing else shows. *)
Theorem diff_discloses {MR1 MR2 : MapRange} opts a b a' b' sa sb sa' sb' :
  Read a = Ok sa → Read b = Ok sb → Read a' = Ok sa' → Read b' = Ok sb' →
  Label a = Label a' → Label b = Label b' → verdicts sa sb = verdicts sa' sb' →
  (Hashes opts = true → hash_pairs sa sb = hash_pairs sa' sb') →
  @Diff _ MR1 a b opts = @Diff _ MR2 a' b' opts.
Proof.
  intros Ha Hb Ha' Hb' La Lb Hv Hh. rewrite (@Diff_outcome _ MR1 _ _ _ _ _ Ha Hb), (@Diff_outcome _ MR2 _ _ _ _ _ Ha' Hb').
  unfold outcome. rewrite La, Lb, Hv. destruct (Hashes opts); [|done]. by rewrite Hh.
Qed.
(** A source that cannot be read fails the comparison, with both labels named. *)
Theorem diff_read_error {MR : MapRange} opts a b e :
  Diff a b opts = Err e ↔
  ∃ err, e = diff_error a b err ∧ (Read a = Err err ∨ (is_ok (Read a) = true ∧ Read b = Err err)).
Proof. unfold Diff. destruct (Read a), (Read b); naive_solver. Qed.
End promises.

(** * Sources *)

(** Setting an entry per element keeps the last one of a name. *)
Lemma set_entries_lookup {T} (name value : T → string) l m k :
  set_entries name value l m !! k =
  match last (filter (λ x, name x = k) l) with Some x => Some (value x) | None => m !! k end.
Proof.
  revert m. induction l as [|x l IH] using rev_ind; intros m; [done|].
  unfold set_entries. rewrite foldl_snoc. fold (set_entries name value l m).
  rewrite filter_app, filter_cons, filter_nil. case_decide as Hx.
  - subst k. by rewrite last_snoc, lookup_insert_eq.
  - by rewrite app_nil_r, lookup_insert_ne, IH.
Qed.
(** Where the names are apart, a source shows every secret of its path. *)
Lemma envSource_complete label prefix secrets snap s :
  envSource_Read label prefix (Ok secrets) = Ok snap → s ∈ secrets →
  (∀ t, t ∈ secrets → KeyToEnvName (Key t) prefix = KeyToEnvName (Key s) prefix → t = s) →
  Secrets snap !! KeyToEnvName (Key s) prefix = Some (Value s).
Proof.
  intros [= <-] Hs Hd. cbn [Secrets]. rewrite set_entries_lookup.
  destruct (last _) as [t|] eqn:E.
  - apply last_Some_elem_of, list_elem_of_filter in E as [E Ht]. by rewrite (Hd t).
  - apply last_None in E. exfalso. eapply (not_elem_of_nil (A := Secret)). rewrite <-E.
    apply list_elem_of_filter. split; [|exact Hs]. done.
Qed.

(** A server that holds a list of names and serves it a hundred at a time. *)
Definition serve (all : list string) (page : Z) : result string (Z * list string) :=
  Ok (Z.of_nat (length all), take 100 (drop (100 * Z.to_nat (page - 1)) all)).
Lemma read_pages_serve all fuel label (p : nat) out :
  100 * p ≤ length all → length all < 100 * (p + fuel) →
  read_pages (serve all) fuel label (Z.of_nat p + 1) out =
  Some (Ok (mkSnapshot (set_entries id (λ _, "") (drop (100 * p) all) out) false)).
Proof.
  revert p out. induction fuel as [|fuel IH]; intros p out Hp Hl; [lia|].
  cbn [read_pages]. unfold fetchPage, serve. cbn [result_bind].
  replace (Z.to_nat (Z.of_nat p + 1 - 1)) with p by lia.
  assert (Hdrop : drop (100 * p) all = take 100 (drop (100 * p) all) ++ drop (100 * S p) all).
  { rewrite <-(take_drop 100 (drop (100 * p) all)) at 1. f_equal. rewrite drop_drop. f_equal. lia. }
  destruct (Z.ltb_spec ((Z.of_nat p + 1) * 100) (Z.of_nat (length all))).
  - replace (Z.of_nat p + 1 + 1)%Z with (Z.of_nat (S p) + 1)%Z by lia. fold (serve all).
    rewrite IH by lia. unfold set_entries. by rewrite <-foldl_app, <-Hdrop.
  - by rewrite take_ge by (rewrite length_drop; lia).
Qed.
(** The loop over the pages ends, and no name is missed. *)
Theorem github_source_complete all owner repo fuel :
  length all < 100 * fuel →
  githubSource_Read (serve all) fuel owner repo =
  Some (Ok (mkSnapshot (set_entries id (λ _, "") all ∅) false)).
Proof.
  intros Hf. unfold githubSource_Read. change 1%Z with (Z.of_nat 0 + 1)%Z.
  rewrite read_pages_serve by lia. done.
Qed.

(** * Concrete comparisons *)

Section concrete.
#[local] Existing Instance toy_sha.

Definition fx_side (label : string) (readable : bool) (l : list (string * string)) : Source :=
  mkSource label (Ok (mkSnapshot (list_to_map l) readable)).
Definition fx_prod : Source := fx_side "env:prod" true [("DB", "x"); ("KEY", "1"); ("ONLY", "o"); ("SAME", "s")].
Definition fx_dev : Source := fx_side "env:dev" true [("DB", "x"); ("KEY", "2"); ("NEW", "n"); ("SAME", "s")].
Definition fx_github : Source := fx_side "github:o/r" false [("DB", ""); ("NEW", "")].

Lemma diff_exact_witness :
  ∃ r, Diff fx_prod fx_dev (mkOpts false) = Ok r ∧ elems (Changed r) = ["KEY"] ∧ SameCount r = 2%Z ∧
    (∀ k, k ∈ elems (OnlyA r) → k = "ONLY").
Proof.
  destruct (diff_exact (mkOpts false) fx_prod fx_dev _ _ eq_refl eq_refl) as (r & Hr & Ha & _).
  exists r. split; [done|]. vm_compute in Hr. injection Hr as <-. split; [done|]. split; [done|].
  intros k Hk. by apply list_elem_of_singleton in Hk.
Defined.

(** The table of two environments. *)
Example table_of_environments :
  (λ r, split_byte LF (RenderTable r false)) <$> Diff fx_prod fx_dev (mkOpts false) =
  Ok ["diff env:prod vs env:dev"; ""; "+ only in env:prod"; "    ONLY"; "- only in env:dev"; "    NEW";
      "~ differs"; "    KEY"; ""; "2 same"; ""].
Proof. vm_compute. reflexivity. Qed.
(** The table names the second source as the one that is write-only, also when it is the
first. *)
Example table_blames_second :
  (λ r, split_byte LF (RenderTable r false)) <$> Diff fx_github fx_prod (mkOpts false) =
  Ok ["diff github:o/r vs env:prod"; ""; "+ only in github:o/r"; "    NEW";
      "- only in env:prod"; "    KEY"; "    ONLY"; "    SAME";
      "? cannot compare values (env:prod is write-only)"; "    DB"; ""; "0 same"; ""].
Proof. vm_compute. reflexivity. Qed.
(** Lists that were never filled are written as empty ones, and no hashes as no member. *)
Example json_of_nothing :
  (λ r, split_byte LF (str_map (λ c, if c =c DQ then "'"%char else c) (RenderJSON r)))
    <$> Diff (fx_side "a" true []) (fx_side "b" true []) (mkOpts true) =
  Ok ["{"; "  'a': 'a',"; "  'b': 'b',"; "  'only_a': [],"; "  'only_b': [],"; "  'changed': [],";
      "  'unknown': [],"; "  'same_count': 0"; "}"].
Proof. vm_compute. reflexivity. Qed.
(** Two keys of one name: the later hides the earlier, and a comparison that ought to see
a difference does not. *)
Example hidden_by_collision :
  let src label v := NewEnvSource label "" (Ok [mk_secret "db/url" v; mk_secret "DB_URL" "same"]) in
  HasDrift <$> Diff (src "a" "one") (src "b" "two") (mkOpts false) = Ok false.
Proof. vm_compute. reflexivity. Qed.
End concrete.
