(* ===== verification/Scanner.v ===== *)
(** The search for managed values (src/internal/scanner and the scan command of
src/internal/cli/scan.go): in files of the working tree and in the blobs of the git
history.  The file system, the git binary and the answers of its batch process are
parameters: what each file delivers, what each command prints for its arguments, and the
bytes a request makes the batch process write. *)

From S2P Require Import Prelude Provider GoStrings GoEncoding Paths LaunchManifest Local SyncRun.
#[local] Open Scope go_scope.

(** * Data *)

Record Finding := mkFinding { f_Key : string; f_File : string; f_Line : Z; f_Commit : string }.
Record Target := mkTarget { t_Key : string; t_Value : string }.
Record Opts := mkOpts { MinLength : Z; MaxBytes : Z }.
Definition defaultMaxBytes : Z := Z.shiftl 8 20.
Definition binarySniff : nat := Z.to_nat (Z.shiftl 8 10).

#[export] Instance Finding_eq_dec : EqDecision Finding.
Proof. solve_decision. Defined.

(** * One content *)

(** Where a value first occurs: its line is one more than the line ends before it. *)
Definition scan_target (path content : string) (t : Target) : option Finding :=
  idx ← index content (t_Value t);
  Some (mkFinding (t_Key t) path (1 + Z.of_nat (count_byte LF (str_take idx content))) "").
Definition scanContent (path content : string) (targets : list Target) : list Finding :=
  omap (scan_target path content) targets.

Definition active_targets (opts : Opts) (targets : list Target) : list Target :=
  filter (λ t, MinLength opts ≤ Z.of_nat (String.length (t_Value t)))%Z targets.
Definition max_bytes (opts : Opts) : Z := if (MaxBytes opts <=? 0)%Z then defaultMaxBytes else MaxBytes opts.

(** * Files *)

(** What the calls on one file deliver: [os.Stat] with whether it is a directory and its
size, [os.Open], the first [Read] into 8 KiB, [Seek] and [io.ReadAll]. *)
Record file_view := mkView {
  fv_stat : option (bool * Z); fv_open : bool; fv_head : string; fv_seek : bool; fv_rest : option string }.

(** [isBinary]: [Err] is a failed [Seek]. *)
Definition isBinary (v : file_view) : result unit bool :=
  if has_byte NUL (str_take binarySniff (fv_head v)) then Ok true
  else if fv_seek v then Ok false else Err ().
(** [Ok None] is a nil content: nothing to scan. *)
Definition loadFile (v : file_view) (maxBytes : Z) : result unit (option string) :=
  match fv_stat v with
  | None => Err ()
  | Some (dir, size) =>
    if dir || (maxBytes <? size)%Z then Ok None
    else if negb (fv_open v) then Err ()
    else
      let! bin := isBinary v in
      if (bin : bool) then Ok None
      else match fv_rest v with Some content => Ok (Some content) | None => Err () end
  end.
Definition scanFile (fs : string → file_view) (path : string) (targets : list Target) (maxBytes : Z) :
    result unit (list Finding) :=
  let! content := (loadFile (fs path) maxBytes) in
  Ok (match content with None => [] | Some content => scanContent path content targets end).

Section scan.
Context {SS : SortSlice}.

Definition less_place (x y : Finding) : bool :=
  if negb (bool_decide (f_File x = f_File y)) then str_lt (f_File x) (f_File y)
  else if negb (f_Line x =? f_Line y)%Z then (f_Line x <? f_Line y)%Z
  else str_lt (f_Key x) (f_Key y).
(** The loop over the files: one that cannot be read is passed over. *)
Fixpoint scan_files (fs : string → file_view) (active : list Target) (maxBytes : Z) (files : list string) :
    list Finding :=
  match files with
  | [] => []
  | f :: files =>
    match scanFile fs f active maxBytes with
    | Err _ => scan_files fs active maxBytes files
    | Ok found => found ++ scan_files fs active maxBytes files
    end
  end.
Definition Scan (fs : string → file_view) (targets : list Target) (files : list string) (opts : Opts) :
    list Finding :=
  sort_slice less_place (scan_files fs (active_targets opts targets) (max_bytes opts) files).
End scan.

(** * Lists of files *)

(** What [git] prints for its arguments, or the text of its failure. *)
Abbreviation git_bin := (list string → result string string).

Definition gitLines (git : git_bin) (dir : string) (args : list string) : result string (list string) :=
  let! raw := git args in
  Ok (Join dir <$> filter (λ p, p ≠ "") (split_byte NUL (trim_right (str1 NUL) raw))).

(** A tree of files; a directory that could not be read lists no children. *)
Inductive node := NFile | NDir (children : forest)
with forest := FNil | FCons (name : string) (n : node) (rest : forest).
Fixpoint walk (path name : string) (n : node) : list string :=
  match n with
  | NFile => [path]
  | NDir children => if bool_decide (name = ".git") then [] else walk_forest path children
  end
with walk_forest (path : string) (l : forest) : list string :=
  match l with
  | FNil => []
  | FCons name n rest => walk (Join path name) name n ++ walk_forest path rest
  end.
(** [tree] is the node at [dir]; [None]: it does not exist. *)
Definition walkFiles (dir base : string) (tree : option node) : list string :=
  match tree with None => [] | Some n => walk dir base n end.
Definition TrackedFiles (git : git_bin) (dir base : string) (tree : option node) : list string :=
  match gitLines git dir ["ls-files"; "-z"] with
  | Ok out => out
  | Err _ => walkFiles dir base tree
  end.
Definition StagedFiles (git : git_bin) (dir : string) : result string (list string) :=
  gitLines git dir ["diff"; "--cached"; "--name-only"; "--diff-filter=ACM"; "-z"].

(** * The history *)

Definition DefaultHistoryMaxCount : Z := 1000.
Record HistoryOpts := mkHistory { h_Opts : Opts; h_MaxCount : Z; h_Since : string }.
(** An error message, or a panic on a list that is too short. *)
Inductive scan_error := SErr (message : string) | SPanic.

Definition git_fail {T} (step : string) (r : result string T) : result scan_error T :=
  match r with Ok x => Ok x | Err e => Err (SErr (step +:+ ": " +:+ e)) end.

(** Newest first. *)
Definition historyCommits (git : git_bin) (maxCount : Z) (since : string) : result scan_error (list string) :=
  let! _ := git_fail "git rev-parse" (git ["rev-parse"; "--is-inside-work-tree"]) in
  match git ["rev-parse"; "--verify"; "-q"; "HEAD"] with
  | Err _ => Ok []
  | Ok _ =>
    let! raw := git_fail "git rev-list" (git (["rev-list"; "--max-count=" +:+ itoa maxCount] ++
      (if bool_decide (since ≠ "") then ["--since=" +:+ since] else []) ++ ["HEAD"])) in
    Ok (filter (λ line, line ≠ "") (trim_space <$> split_byte LF raw))
  end.

Record blobRef := mkRef { br_sha : string; br_path : string }.
Definition isZeroOID (oid : string) : bool := bool_decide (trim_right "0" (trim_left "0" oid) = "").
Definition isBinaryContent (content : string) : bool := has_byte NUL (str_take binarySniff content).

(** The loop over the parts of the output: an entry, its path, and for a rename or copy
the path it has now.  The last part is never an entry. *)
Definition keep_ref (sha newMode path : string) (l : list blobRef) : list blobRef :=
  if isZeroOID sha || bool_decide (newMode = "160000") then l else mkRef sha path :: l.
Fixpoint blob_entries (parts : list string) : result scan_error (list blobRef) :=
  match parts with
  | meta :: (path :: rest) as tl =>
    if negb (has_prefix meta ":") then blob_entries tl
    else match strings_Fields meta with
    | _ :: _ :: newMode :: sha :: status :: _ =>
      if has_prefix status "R" || has_prefix status "C" then
        match rest with
        | [] => Err SPanic
        | now :: rest => let! l := blob_entries rest in Ok (keep_ref sha newMode now l)
        end
      else let! l := blob_entries rest in Ok (keep_ref sha newMode path l)
    | _ => blob_entries tl
    end
  | _ => Ok []
  end.
Definition commitBlobs (git : git_bin) (commit : string) : result scan_error (list blobRef) :=
  let! raw := git_fail ("git diff-tree " +:+ commit)
    (git ["diff-tree"; "--root"; "-r"; "-M"; "--no-commit-id"; "-z"; commit]) in
  blob_entries (split_byte NUL raw).

(** * The batch process *)

Section batch.
(** The bytes [git cat-file --batch] writes for a request; [None]: the pipe is broken. *)
Context (respond : string → option string).

(** [blob]: the state is what the process has written and nobody has read yet. *)
Definition blob (sha : string) (maxBytes : Z) (pending : string) :
    string * result scan_error (option string) :=
  match respond sha with
  | None => (pending, Err (SErr "git cat-file: write"))
  | Some answer =>
    let pending := pending +:+ answer in
    match cut_byte LF pending with
    | None => ("", Err (SErr "git cat-file: EOF"))
    | Some (header, pending) =>
      match strings_Fields header with
      | _ :: kind :: number :: _ =>
        match ParseInt number with
        | None => (pending, Err (SErr "git cat-file: bad header"))
        | Some size =>
          if negb (bool_decide (kind = "blob")) || ((0 <? maxBytes)%Z && (maxBytes <? size)%Z) then
            (str_drop (Z.to_nat (size + 1)) pending, Ok None)
          else if (size + 1 <? 0)%Z then (pending, Err SPanic)
          else if (Z.of_nat (String.length pending) <? size + 1)%Z then ("", Err (SErr "git cat-file: read"))
          else (str_drop (Z.to_nat (size + 1)) pending, Ok (Some (str_take (Z.to_nat size) pending)))
        end
      | _ => (pending, Ok None)
      end
    end
  end.

(** * The walk *)

Record walk_state := mkWalk { ws_pending : string; ws_seen : gset string; ws_found : list Finding }.
Definition in_commit (commit : string) (f : Finding) : Finding :=
  mkFinding (f_Key f) (f_File f) (f_Line f) commit.

(** One blob of a commit. *)
Definition visit_blob (active : list Target) (maxBytes : Z) (commit : string) (st : walk_state) (b : blobRef) :
    result scan_error walk_state :=
  if bool_decide (br_sha b ∈ ws_seen st) then Ok st
  else
    let '(pending, r) := blob (br_sha b) maxBytes (ws_pending st) in
    let! content := r in
    let found :=
      match content with
      | Some content =>
        if isBinaryContent content then [] else in_commit commit <$> scanContent (br_path b) content active
      | None => []
      end in
    Ok (mkWalk pending ({[br_sha b]} ∪ ws_seen st) (ws_found st ++ found)).
Fixpoint visit_blobs (active : list Target) (maxBytes : Z) (commit : string) (l : list blobRef) (st : walk_state) :
    result scan_error walk_state :=
  match l with
  | [] => Ok st
  | b :: l => let! st := visit_blob active maxBytes commit st b in visit_blobs active maxBytes commit l st
  end.
Fixpoint visit_commits (git : git_bin) (active : list Target) (maxBytes : Z) (commits : list string) (st : walk_state) :
    result scan_error walk_state :=
  match commits with
  | [] => Ok st
  | commit :: commits =>
    let! blobs := commitBlobs git commit in
    let! st := visit_blobs active maxBytes commit blobs st in
    visit_commits git active maxBytes commits st
  end.
End batch.

Definition lessFinding (x y : Finding) : bool :=
  if negb (bool_decide (f_Commit x = f_Commit y)) then str_lt (f_Commit x) (f_Commit y)
  else if negb (bool_decide (f_File x = f_File y)) then str_lt (f_File x) (f_File y)
  else if negb (f_Line x =? f_Line y)%Z then (f_Line x <? f_Line y)%Z
  else str_lt (f_Key x) (f_Key y).
(** The inner loop of [sortFindings]: the element moves towards the front past those it is
less than.  [done] is the part before it, nearest first. *)
Fixpoint move_left (x : Finding) (done : list Finding) : list Finding :=
  match done with
  | [] => [x]
  | y :: done' => if lessFinding x y then y :: move_left x done' else x :: done
  end.
Definition sortFindings (l : list Finding) : list Finding := reverse (foldl (λ d x, move_left x d) [] l).

(** [batch_start] is the failure to start the batch process. *)
Definition HistoryScan (git : git_bin) (batch_start : option string) (respond : string → option string)
    (targets : list Target) (opts : HistoryOpts) : result scan_error (list Finding) :=
  let maxBytes := max_bytes (h_Opts opts) in
  let maxCount := if (h_MaxCount opts <=? 0)%Z then DefaultHistoryMaxCount else h_MaxCount opts in
  match active_targets (h_Opts opts) targets with
  | [] => Ok []
  | active =>
    let! commits := historyCommits git maxCount (h_Since opts) in
    match commits with
    | [] => Ok []
    | _ =>
      match batch_start with
      | Some e => Err (SErr ("git cat-file: " +:+ e))
      | None =>
        let! st := visit_commits respond git active maxBytes (reverse commits) (mkWalk "" ∅ []) in
        Ok (sortFindings (ws_found st))
      end
    end
  end.

(** * The command *)

Record scanOptions := mkScan {
  so_format : string; so_staged : bool; so_history : bool; so_since : string; so_maxCount : Z;
  so_maxChanged : bool; so_minLength : Z }.
(** The exit code, and what is reported. *)
Definition scan_command `{SortSlice} (fs : string → file_view) (git : git_bin) (batch_start : option string)
    (respond : string → option string) (dir base : string) (tree : option node)
    (secrets : result string (list Secret)) (name : string → string) (o : scanOptions) : Z * list Finding :=
  if so_staged o && so_history o then (ExitGenericError, [])
  else if negb (so_history o) && bool_decide (so_since o ≠ "") then (ExitGenericError, [])
  else if negb (so_history o) && so_maxChanged o then (ExitGenericError, [])
  else if so_history o && (so_maxCount o <? 1)%Z then (ExitGenericError, [])
  else match secrets with
  | Err _ => (ExitProviderError, [])
  | Ok secrets =>
    if (length secrets =? 0)%nat && negb (so_staged o) then (0%Z, [])
    else
      let targets := (λ s, mkTarget (name (Key s)) (Value s)) <$> secrets in
      let opts := mkOpts (so_minLength o) 0 in
      let found :=
        if so_history o then
          match HistoryScan git batch_start respond targets (mkHistory opts (so_maxCount o) (so_since o)) with
          | Ok l => Some l | Err _ => None end
        else if so_staged o then
          match StagedFiles git dir with Ok files => Some (Scan fs targets files opts) | Err _ => None end
        else Some (Scan fs targets (TrackedFiles git dir base tree) opts) in
      match found with
      | None => (ExitGenericError, [])
      | Some l => ((if (0 <? length l)%nat then ExitLeakFound else 0%Z), l)
      end
  end.
