(* ===== verification/ScannerProps.v ===== *)
(** What the search for managed values promises: in files it finds exactly the values that
occur; the output of git is read back to the entries that were printed; the batch process
stays aligned; and the walk over the history reports each blob once, where it first was. *)

From S2P Require Import Prelude GoStrings GoEncoding Json Provider Paths LaunchManifest Local SyncRun Scanner.
#[local] Open Scope go_scope.

(** * The orders *)

(** What [sort.Slice] asks of a comparison. *)
Definition weak_order {A} (less : A → A → bool) : Prop :=
  (∀ x y, less x y = true → less y x = false) ∧
  (∀ x y z, less y x = false → less z y = false → less z x = false).
Definition strict_total {A} (less : A → A → bool) : Prop :=
  weak_order less ∧ ∀ x y, x ≠ y → less x y = false → less y x = true.
(** First by a field, then by the rest. *)
Lemma lexicographic {A B} `{EqDecision B} (f : A → B) lt r (less : A → A → bool) :
  strict_total lt → weak_order r →
  (∀ x y, less x y = if decide (f x = f y) then r x y else lt (f x) (f y)) → weak_order less.
Proof.
  intros [[La Lt] Lc] [Ra Rt] Hl. split.
  - intros x y. rewrite !Hl. repeat case_decide; try congruence; auto.
  - intros x y z. rewrite !Hl. intros H1 H2.
    destruct (decide (f y = f x)) as [E1|E1], (decide (f z = f y)) as [E2|E2], (decide (f z = f x)) as [E3|E3];
      try congruence; [by eauto| |by eauto].
    apply Lc in H1; [congruence|done].
Qed.
Lemma str_lt_total : strict_total str_lt.
Proof.
  split; [split; [exact str_lt_asym|exact str_lt_trans_false]|].
  intros x y Hne H. destruct (str_lt y x) eqn:E; [done|]. exfalso. apply Hne.
  apply (anti_symm String.le); by apply str_lt_le.
Qed.
Lemma Z_lt_total : strict_total Z.ltb.
Proof.
  repeat split.
  - intros x y ?%Z.ltb_lt. apply Z.ltb_ge. lia.
  - intros x y z ?%Z.ltb_ge ?%Z.ltb_ge. apply Z.ltb_ge. lia.
  - intros x y Hne ?%Z.ltb_ge. apply Z.ltb_lt. lia.
Qed.
Lemma less_place_weak : weak_order less_place.
Proof.
  eapply (lexicographic f_File str_lt); [exact str_lt_total| |].
  2: { intros x y. unfold less_place. case_decide; [rewrite bool_decide_true by done|by rewrite bool_decide_false].
    cbn [negb]. instantiate (1 := λ x y, if negb (f_Line x =? f_Line y)%Z then _ else _). reflexivity. }
  eapply (lexicographic f_Line Z.ltb); [exact Z_lt_total| |].
  2: { intros x y. cbn beta. case_decide as E; [rewrite (proj2 (Z.eqb_eq _ _) E)|rewrite (proj2 (Z.eqb_neq _ _) E)];
    cbn [negb]; [|reflexivity]. instantiate (1 := λ x y, str_lt (f_Key x) (f_Key y)). reflexivity. }
  split; intros; eauto using str_lt_asym, str_lt_trans_false.
Qed.
Lemma lessFinding_weak : weak_order lessFinding.
Proof.
  eapply (lexicographic f_Commit str_lt); [exact str_lt_total|exact less_place_weak|].
  intros x y. unfold lessFinding. by case_decide; [rewrite bool_decide_true by done|rewrite bool_decide_false by done].
Qed.

(** [sortFindings] sorts. *)
Definition places_sorted (l : list Finding) : Prop := StronglySorted (λ x y, lessFinding y x = false) l.
Lemma move_left_perm x l : move_left x l ≡ₚ x :: l.
Proof. induction l as [|y l IH]; cbn [move_left]; [done|]. case_match; [|done]. rewrite IH. apply Permutation_swap. Qed.
Lemma move_left_sorted x l :
  StronglySorted (λ y x, lessFinding y x = false) l → StronglySorted (λ y x, lessFinding y x = false) (move_left x l).
Proof.
  destruct lessFinding_weak as [Ha Ht]. induction 1 as [|y l Hl IH Hy]; cbn [move_left]; [by repeat constructor|].
  destruct (lessFinding x y) eqn:E.
  - constructor; [done|]. rewrite move_left_perm. constructor; [by apply Ha|done].
  - constructor; [by constructor|]. constructor; [done|]. eapply Forall_impl; [exact Hy|].
    intros z Hz. cbn in Hz |- *. by eapply Ht.
Qed.
Lemma sortFindings_perm l : sortFindings l ≡ₚ l.
Proof.
  unfold sortFindings. rewrite reverse_Permutation.
  assert (H : ∀ d, foldl (λ d x, move_left x d) d l ≡ₚ d ++ l).
  { induction l as [|x l IH]; intros d; cbn [foldl]; [by rewrite app_nil_r|].
    rewrite IH, move_left_perm. apply Permutation_middle. }
  apply H.
Qed.
Lemma StronglySorted_reverse {A} (R : A → A → Prop) l :
  StronglySorted (flip R) l → StronglySorted R (reverse l).
Proof.
  induction 1 as [|x l Hl IH Hx]; [constructor|]. rewrite reverse_cons. apply StronglySorted_app_2; [|done|by repeat constructor].
  intros y z Hy Hz%list_elem_of_singleton. subst z. rewrite Forall_forall in Hx. apply Hx. by rewrite elem_of_reverse in Hy.
Qed.
Lemma sortFindings_sorted l : places_sorted (sortFindings l).
Proof.
  apply StronglySorted_reverse. unfold flip. clear.
  assert (H : ∀ d, StronglySorted (λ y x, lessFinding y x = false) d →
    StronglySorted (λ y x, lessFinding y x = false) (foldl (λ d x, move_left x d) d l)).
  { induction l as [|x l IH]; intros d Hd; cbn [foldl]; [done|]. by apply IH, move_left_sorted. }
  apply H. constructor.
Qed.

(** * Files *)

(** The value is in the content, and not before the end of [pre]. *)
Definition first_at (content value pre : string) : Prop :=
  (∃ post, content = pre +:+ value +:+ post) ∧
  ∀ pre' post', content = pre' +:+ value +:+ post' → String.length pre ≤ String.length pre'.
Definition line_of (pre : string) : Z := 1 + Z.of_nat (count_byte LF pre).

Lemma scan_target_spec path content t f :
  scan_target path content t = Some f ↔
  ∃ pre, first_at content (t_Value t) pre ∧ f = mkFinding (t_Key t) path (line_of pre) "".
Proof.
  unfold scan_target, line_of. split.
  - intros (n & Hn & [= <-])%bind_Some. exists (str_take n content). split; [|done].
    destruct (index_Some _ _ _ Hn) as (post & Hc & Hl). split; [by exists post|].
    intros pre' post' E. rewrite Hl. rewrite E in Hn. by apply index_first in Hn.
  - intros (pre & ((post & Hc) & Hmin) & ->).
    destruct (index content (t_Value t)) as [n|] eqn:Hn.
    + destruct (index_Some _ _ _ Hn) as (post' & Hc' & Hl). cbn. do 4 f_equal.
      assert (Hle := Hmin _ _ Hc'). rewrite Hl in Hle. rewrite Hc in Hn. apply index_first in Hn.
      assert (n = String.length pre) as -> by lia. rewrite Hc. by rewrite str_take_app.
    + exfalso. destruct (index_occurs pre (t_Value t) post) as [m Hm]. rewrite <-Hc in Hm. congruence.
Qed.
Lemma elem_of_scanContent path content targets f :
  f ∈ scanContent path content targets ↔
  ∃ t pre, t ∈ targets ∧ first_at content (t_Value t) pre ∧ f = mkFinding (t_Key t) path (line_of pre) "".
Proof.
  unfold scanContent. rewrite list_elem_of_omap. setoid_rewrite scan_target_spec. naive_solver.
Qed.
(** A value that occurs has a first occurrence. *)
Lemma occurs_first content value pre post :
  content = pre +:+ value +:+ post → ∃ first, first_at content value first.
Proof.
  intros ->. destruct (index_occurs pre value post) as [n Hn].
  destruct (index_Some _ _ _ Hn) as (post' & Hc & Hl). eexists. split; [by exists post'|].
  intros pre' post'' E. rewrite Hl. rewrite E in Hn. by apply index_first in Hn.
Qed.
Lemma elem_of_active opts targets t :
  t ∈ active_targets opts targets ↔ t ∈ targets ∧ (MinLength opts ≤ Z.of_nat (String.length (t_Value t)))%Z.
Proof. unfold active_targets. rewrite list_elem_of_filter. tauto. Qed.

Section files.
Context {SS : SortSlice}.

End files.

(** * What git prints *)

(** An entry of [git diff-tree -r -z]: modes, object ids, the status, the path, and for a
rename or a copy the path it has now. *)
Record git_entry := mkEntry {
  ge_oldMode : string; ge_newMode : string; ge_oldSha : string; ge_newSha : string; ge_status : string;
  ge_path : string; ge_now : option string }.
Definition entry_words (e : git_entry) : list string :=
  [":" +:+ ge_oldMode e; ge_newMode e; ge_oldSha e; ge_newSha e; ge_status e].
Definition entry_parts (e : git_entry) : list string :=
  join " " (entry_words e) :: ge_path e :: option_list (ge_now e).
Definition print_entries (es : list git_entry) : string :=
  str_concat ((λ p, p +:+ str1 NUL) <$> (es ≫= entry_parts)).

Definition moves (e : git_entry) : bool := has_prefix (ge_status e) "R" || has_prefix (ge_status e) "C".
Record entry_ok (e : git_entry) : Prop := {
  eo_words : Forall word [ge_oldMode e; ge_newMode e; ge_oldSha e; ge_newSha e; ge_status e];
  eo_sha : String.length (ge_oldSha e) = 40 ∨ String.length (ge_oldSha e) = 64;
  eo_path : has_byte NUL (ge_path e) = false;
  eo_now : if moves e then ∃ now, ge_now e = Some now ∧ has_byte NUL now = false else ge_now e = None;
}.
(** The object an entry brings in.  The parser takes the third field for the new mode, which
is the old object id, and so keeps the link to a submodule's commit; the batch process
answers for it with no blob. *)
Definition entry_ref (e : git_entry) : option blobRef :=
  if isZeroOID (ge_newSha e) then None
  else Some (mkRef (ge_newSha e) (default (ge_path e) (ge_now e))).

Lemma entry_words_ok e : entry_ok e → Forall word (entry_words e).
Proof.
  intros [Hw _ _ _]. unfold entry_words. inversion Hw as [|? ? [? H1] H2]; subst. constructor; [|done].
  split; [done|]. cbn [str_forall]. rewrite str_cons_app, str_nil_app. cbn [str_forall]. by rewrite H1.
Qed.
Lemma entry_parts_no e : entry_ok e → ∀ p, p ∈ entry_parts e → has_byte NUL p = false.
Proof.
  intros He p. unfold entry_parts. intros [->|[->|Hp]%elem_of_cons]%elem_of_cons.
  - apply join_words_no; [done|done|by apply entry_words_ok].
  - apply He.
  - pose proof (eo_now _ He) as Hn. destruct (moves e).
    + destruct Hn as (now & E & ?). rewrite E in Hp. apply list_elem_of_singleton in Hp as ->. done.
    + rewrite Hn in Hp. by apply elem_of_nil in Hp.
Qed.
Lemma keep_ref_entry e path l :
  entry_ok e → path = default (ge_path e) (ge_now e) →
  keep_ref (ge_newSha e) (ge_oldSha e) path l = option_list (entry_ref e) ++ l.
Proof.
  intros He ->. unfold keep_ref, entry_ref. rewrite (bool_decide_false (ge_oldSha e = _)).
  - rewrite orb_false_r. by destruct (isZeroOID _).
  - intros E. destruct (eo_sha _ He) as [H|H]; by rewrite E in H.
Qed.
Lemma blob_entries_parts es rest :
  Forall entry_ok es →
  blob_entries ((es ≫= entry_parts) ++ [rest]) = Ok (omap entry_ref es).
Proof.
  induction 1 as [|e es He Hes IH]; [done|].
  rewrite bind_cons, <-app_assoc. change (entry_parts e) with (join " " (entry_words e) :: ge_path e :: option_list (ge_now e)).
  rewrite <-!app_comm_cons.
  assert (Hm : ∀ l, blob_entries (join " " (entry_words e) :: ge_path e :: l) =
    if moves e then match l with [] => Err SPanic
      | now :: l => let! r := blob_entries l in Ok (keep_ref (ge_newSha e) (ge_oldSha e) now r) end
    else let! r := blob_entries l in Ok (keep_ref (ge_newSha e) (ge_oldSha e) (ge_path e) r)).
  { intros l. cbn [blob_entries]. assert (Hp : has_prefix (join " " (entry_words e)) ":" = true).
    { unfold entry_words. cbn [join]. rewrite !str_app_assoc. apply has_prefix_app. }
    rewrite Hp, (strings_Fields_join (entry_words e)) by by apply entry_words_ok. reflexivity. }
  rewrite Hm. pose proof (eo_now _ He) as Hn. destruct (moves e).
  - destruct Hn as (now & E & _). rewrite E. change (option_list (Some now) ++ ?l) with (now :: l). cbv iota. rewrite IH. cbn [result_bind].
    rewrite keep_ref_entry by (done || by rewrite E). cbn [omap list_omap]. by destruct (entry_ref e).
  - rewrite Hn. change (option_list None ++ ?l) with l. rewrite IH. cbn [result_bind].
    rewrite keep_ref_entry by (done || by rewrite Hn). cbn [omap list_omap]. by destruct (entry_ref e).
Qed.

Definition diff_tree_args (commit : string) : list string :=
  ["diff-tree"; "--root"; "-r"; "-M"; "--no-commit-id"; "-z"; commit].
(** What the parser reads is what git printed: no path, whatever its bytes, is taken for an
entry, and a renamed blob is reported where it is now. *)
Theorem commitBlobs_print git commit es :
  Forall entry_ok es → git (diff_tree_args commit) = Ok (print_entries es) →
  commitBlobs git commit = Ok (omap entry_ref es).
Proof.
  intros Hes Hg. unfold commitBlobs, diff_tree_args in *. rewrite Hg. cbn [git_fail result_bind].
  unfold print_entries. rewrite split_byte_lines; [by apply blob_entries_parts|].
  intros p Hp. rewrite Forall_forall in Hes.
  apply list_elem_of_bind in Hp as (e & Hp & He). by eapply entry_parts_no; [apply Hes|].
Qed.

(** * The batch process *)

(** What an object id stands for: nothing (with the word git says), or an object. *)
Inductive object := OMissing (why : string) | OObject (kind content : string).
Definition print_object (sha : string) (o : object) : string :=
  match o with
  | OMissing why => sha +:+ " " +:+ why +:+ str1 LF
  | OObject kind content =>
    sha +:+ " " +:+ kind +:+ " " +:+ itoa (Z.of_nat (String.length content)) +:+ str1 LF +:+ content +:+ str1 LF
  end.
Definition object_ok (o : object) : Prop :=
  match o with
  | OMissing why => word why
  | OObject kind content => word kind ∧ (Z.of_nat (String.length content) < max_int64)%Z
  end.
(** The content [blob] delivers. *)
Definition object_content (maxBytes : Z) (o : object) : option string :=
  match o with
  | OObject kind content =>
    if bool_decide (kind = "blob") && (Z.of_nat (String.length content) <=? maxBytes)%Z then Some content else None
  | OMissing _ => None
  end.

Lemma cut_header ws rest :
  Forall word ws → cut_byte LF (join " " ws +:+ String LF rest) = Some (join " " ws, rest).
Proof. intros H. apply cut_byte_app, join_words_no; done. Qed.
Lemma str_drop_snoc s c rest : str_drop (S (String.length s)) (s +:+ String c rest) = rest.
Proof. induction s as [|d s IH]; [done|]. rewrite str_cons_app. exact IH. Qed.

(** The batch protocol stays aligned.  Whatever a request is answered (a missing
object, an object of another kind, one over the limit, or a blob), the reader consumes
exactly the answer, and delivers the content of a blob within the limit, byte for byte,
and of nothing else.  So any sequence of requests is answered each from its own object. *)
Lemma blob_aligned respond sha maxBytes o :
  word sha → object_ok o → (0 < maxBytes)%Z → respond sha = Some (print_object sha o) →
  blob respond sha maxBytes "" = ("", Ok (object_content maxBytes o)).
Proof.
  intros Hsha Ho Hmb Hr. unfold blob. rewrite Hr, str_nil_app. destruct o as [why|kind content].
  - assert (E : print_object sha (OMissing why) = join " " [sha; why] +:+ String LF "").
    { cbn [print_object join]. by rewrite !str_app_assoc. }
    assert (Hw : Forall word [sha; why]) by (by apply Forall_cons_2, Forall_cons_2).
    rewrite E, cut_header, strings_Fields_join by done. done.
  - destruct Ho as [Hk Hl]. set (n := Z.of_nat (String.length content)) in *.
    set (ws := [sha; kind; itoa n]).
    assert (E : print_object sha (OObject kind content) = join " " ws +:+ String LF (content +:+ str1 LF)).
    { unfold ws. cbn [print_object join]. rewrite !str_app_assoc. done. }
    assert (Hw : Forall word ws) by (apply Forall_cons_2, Forall_cons_2, Forall_singleton, itoa_word; done || lia).
    rewrite E, cut_header, strings_Fields_join by done. unfold ws. rewrite ParseInt_itoa by lia.
    assert (Hd : Z.to_nat (n + 1) = S (String.length content)) by lia.
    rewrite Hd. unfold object_content, str1. rewrite str_drop_snoc. fold n.
    rewrite (proj2 (Z.ltb_lt 0 maxBytes)) by lia. cbn [andb].
    destruct (bool_decide (kind = "blob")); cbn [negb orb andb]; [|done].
    destruct (Z.ltb_spec maxBytes n); [by rewrite (proj2 (Z.leb_gt n maxBytes)) by lia|].
    rewrite (proj2 (Z.leb_le n maxBytes)) by lia. rewrite (proj2 (Z.ltb_ge (n + 1) 0)) by lia.
    rewrite str_length_app. cbn [String.length]. rewrite (proj2 (Z.ltb_ge _ (n + 1))) by lia.
    replace (Z.to_nat n) with (String.length content) by lia. by rewrite str_take_app.
Qed.

(** * The history *)

(** A repository, as git shows it: the commits of the walk with the newest first, the
entries of each, and the object of each id. *)
Record repository := mkRepo {
  re_commits : list string; re_entries : string → list git_entry; re_object : string → object }.

(** git and its batch process answer for the repository. *)
Definition rev_list_args (maxCount : Z) (since : string) : list string :=
  ["rev-list"; "--max-count=" +:+ itoa maxCount] ++
  (if bool_decide (since ≠ "") then ["--since=" +:+ since] else []) ++ ["HEAD"].
Record serves (git : git_bin) (respond : string → option string) (maxCount : Z) (since : string)
    (repo : repository) : Prop := {
  sv_tree : is_ok (git ["rev-parse"; "--is-inside-work-tree"]) = true;
  sv_head : is_ok (git ["rev-parse"; "--verify"; "-q"; "HEAD"]) = true;
  sv_list : git (rev_list_args maxCount since) = Ok (str_concat ((λ c, c +:+ str1 LF) <$> re_commits repo));
  sv_commits : Forall word (re_commits repo);
  sv_diff c : c ∈ re_commits repo →
    git (diff_tree_args c) = Ok (print_entries (re_entries repo c)) ∧ Forall entry_ok (re_entries repo c);
  sv_objects sha : respond sha = Some (print_object sha (re_object repo sha)) ∧ object_ok (re_object repo sha);
}.

Lemma trim_word w : word w → trim_space w = w.
Proof.
  intros [Hne Hw]. assert (Hr : ∀ i, runes_go 0 i w = imap (λ j c, (i + j, code c, 1)) (String.list_ascii_of_string w)).
  { clear Hne. induction w as [|c w IH]; intros i; [done|]. cbn [str_forall] in Hw.
    apply andb_true_iff in Hw as [[Ha _]%word_byte_ascii Hw]. cbn [runes_go]. rewrite decode_rune_ascii by done.
    cbn [pred String.list_ascii_of_string]. rewrite imap_cons, IH by done. f_equal; [f_equal; f_equal; lia|].
    apply imap_ext. intros j d _. cbn. do 2 f_equal. lia. }
  assert (Hl : trim_left_space w = w).
  { destruct w as [|c w]; [done|]. cbn [str_forall] in Hw. apply andb_true_iff in Hw as [[Ha Hs]%word_byte_ascii _].
    unfold trim_left_space. cbn [trim_left_space_go]. by rewrite decode_rune_ascii, Hs by done. }
  unfold trim_space. rewrite Hl. unfold trim_right_space, runes_at. rewrite Hr.
  apply str_take_all.
  destruct (exists_last (l := String.list_ascii_of_string w)) as (l & c & El).
  { by destruct w. }
  rewrite El, imap_app, omap_app. cbn [imap omap list_omap].
  assert (Hc : is_space_rune (code c) = false).
  { assert (Hin : c ∈ String.list_ascii_of_string w) by (rewrite El; set_solver).
    clear -Hw Hin. induction w as [|d w IH]; [by apply elem_of_nil in Hin|]. cbn [str_forall] in Hw.
    apply andb_true_iff in Hw as [[_ Hd]%word_byte_ascii Hw]. apply elem_of_cons in Hin as [->|Hin]; auto. }
  rewrite Hc, last_snoc. cbn [default].
  assert (Hlen : String.length w = S (length l)).
  { rewrite <-(String.string_of_list_ascii_of_string w) at 1. rewrite El.
    clear. induction l as [|d l IH]; [done|]. cbn. by rewrite IH. }
  rewrite Hlen. cbn. lia.
Qed.
Lemma historyCommits_serves git respond maxCount since repo :
  serves git respond maxCount since repo → historyCommits git maxCount since = Ok (re_commits repo).
Proof.
  intros [Ht Hh Hl Hc _ _]. unfold historyCommits. destruct (git ["rev-parse"; "--is-inside-work-tree"]); [|done].
  destruct (git ["rev-parse"; "--verify"; _; _]); [|done]. cbn [git_fail result_bind]. unfold rev_list_args in Hl.
  rewrite Hl. cbn [git_fail result_bind]. f_equal. rewrite Forall_forall in Hc.
  rewrite split_byte_lines by (intros s Hs; apply word_no; [done|by apply Hc]).
  rewrite fmap_app, filter_app. cbn [fmap list_fmap]. change (filter _ [trim_space ""]) with (@nil string).
  rewrite app_nil_r. clear -Hc. induction (re_commits repo) as [|c l IH]; [done|].
  cbn [fmap list_fmap]. rewrite trim_word by (apply Hc; by left). rewrite filter_cons_True by (apply Hc; by left).
  f_equal. apply IH. intros x Hx. apply Hc. by right.
Qed.

(** Every blob of the walk, oldest commit first, and those of an id not seen before. *)
Definition sightings (repo : repository) : list (string * blobRef) :=
  reverse (re_commits repo) ≫= λ c, (c,.) <$> omap entry_ref (re_entries repo c).
Fixpoint first_sightings (seen : gset string) (l : list (string * blobRef)) : list (string * blobRef) :=
  match l with
  | [] => []
  | (c, b) :: l =>
    if bool_decide (br_sha b ∈ seen) then first_sightings seen l
    else (c, b) :: first_sightings ({[br_sha b]} ∪ seen) l
  end.
Fixpoint seen_after (seen : gset string) (l : list (string * blobRef)) : gset string :=
  match l with
  | [] => seen
  | (c, b) :: l => seen_after (if bool_decide (br_sha b ∈ seen) then seen else {[br_sha b]} ∪ seen) l
  end.
Lemma first_sightings_app seen l1 l2 :
  first_sightings seen (l1 ++ l2) = first_sightings seen l1 ++ first_sightings (seen_after seen l1) l2 ∧
  seen_after seen (l1 ++ l2) = seen_after (seen_after seen l1) l2.
Proof.
  revert seen. induction l1 as [|[c b] l1 IH]; intros seen; [done|]. cbn [app first_sightings seen_after].
  case_bool_decide; [apply IH|]. destruct (IH ({[br_sha b]} ∪ seen)) as [-> ->]. done.
Qed.
(** Of every id that is not yet seen there is one first sighting, and no other is listed. *)
Lemma first_sightings_spec seen l :
  NoDup ((br_sha ∘ snd) <$> first_sightings seen l) ∧
  (∀ x, x ∈ first_sightings seen l → x ∈ l ∧ br_sha x.2 ∉ seen) ∧
  (∀ x, x ∈ l → br_sha x.2 ∈ seen ∨ ∃ y, y ∈ first_sightings seen l ∧ br_sha y.2 = br_sha x.2).
Proof.
  revert seen. induction l as [|[c b] l IH]; intros seen; cbn [first_sightings].
  { split_and!; [constructor|set_solver|set_solver]. }
  case_bool_decide as Hb.
  - destruct (IH seen) as (H1 & H2 & H3). split_and!; [done|set_solver|].
    intros x [->|Hx]%elem_of_cons; [by left|by apply H3].
  - destruct (IH ({[br_sha b]} ∪ seen)) as (H1 & H2 & H3). split_and!.
    + rewrite fmap_cons. constructor; [|done]. intros (x & E & Hx)%list_elem_of_fmap.
      apply H2 in Hx as [_ Hx]. cbn in E. set_solver.
    + intros x [->|Hx]%elem_of_cons; [split; [by left|done]|]. apply H2 in Hx. set_solver.
    + intros x [->|Hx]%elem_of_cons; [right; exists (c, b); split; [by left|done]|].
      destruct (H3 x Hx) as [Hs|(y & Hy & E)].
      * apply elem_of_union in Hs as [Hs%elem_of_singleton|Hs]; [|by left].
        right. exists (c, b). split; [by left|done].
      * right. exists y. split; [by right|done].
Qed.

(** What one blob contributes. *)
Definition blob_findings (repo : repository) (active : list Target) (mb : Z) (x : string * blobRef) : list Finding :=
  match object_content mb (re_object repo (br_sha x.2)) with
  | Some content =>
    if isBinaryContent content then [] else in_commit x.1 <$> scanContent (br_path x.2) content active
  | None => []
  end.

Section walk.
Context (git : git_bin) (respond : string → option string) (maxCount : Z) (since : string) (repo : repository).
Context (Hs : serves git respond maxCount since repo).
Lemma entry_refs_words c : c ∈ re_commits repo → Forall (λ b, word (br_sha b)) (omap entry_ref (re_entries repo c)).
Proof using Hs.
  intros Hc. destruct (sv_diff _ _ _ _ _ Hs c Hc) as [_ He]. rewrite Forall_forall. rewrite Forall_forall in He.
  intros b (e & Hin & E)%list_elem_of_omap. specialize (He e Hin). unfold entry_ref in E.
  destruct (isZeroOID _); [done|]. injection E as <-. cbn [br_sha].
  pose proof (eo_words _ He) as Hw. rewrite Forall_forall in Hw. apply Hw. set_solver.
Qed.
Context (active : list Target) (mb : Z) (Hmb : (0 < mb)%Z).

Lemma visit_blobs_serves commit l seen found :
  Forall (λ b, word (br_sha b)) l →
  visit_blobs respond active mb commit l (mkWalk "" seen found) =
  Ok (mkWalk "" (seen_after seen ((commit,.) <$> l))
    (found ++ (first_sightings seen ((commit,.) <$> l) ≫= blob_findings repo active mb))).
Proof using Hs Hmb.
  intros Hl. revert seen found. induction Hl as [|b l Hb Hl IH]; intros seen found.
  { cbn. by rewrite app_nil_r. }
  cbn [visit_blobs fmap list_fmap seen_after first_sightings]. unfold visit_blob at 1. cbn [ws_seen ws_pending ws_found].
  case_bool_decide; cbn [result_bind]; [apply IH|].
  destruct (sv_objects _ _ _ _ _ Hs (br_sha b)) as [Hr Ho].
  rewrite (blob_aligned respond (br_sha b) mb _ Hb Ho Hmb Hr). cbn [result_bind]. rewrite IH.
  rewrite bind_cons. rewrite app_assoc. done.
Qed.
Lemma visit_commits_serves cs seen found :
  (∀ c, c ∈ cs → c ∈ re_commits repo) →
  ∃ seen', visit_commits respond git active mb cs (mkWalk "" seen found) =
  Ok (mkWalk "" seen' (found ++ (first_sightings seen
    (cs ≫= λ c, (c,.) <$> omap entry_ref (re_entries repo c)) ≫= blob_findings repo active mb))).
Proof using Hs Hmb.
  revert seen found. induction cs as [|c cs IH]; intros seen found Hc.
  { eexists. cbn. by rewrite app_nil_r. }
  cbn [visit_commits]. destruct (sv_diff _ _ _ _ _ Hs c (Hc c ltac:(by left))) as [Hd He].
  rewrite (commitBlobs_print git c _ He Hd). cbn [result_bind].
  rewrite visit_blobs_serves by (apply entry_refs_words, Hc; by left). cbn [result_bind].
  match goal with |- context [mkWalk "" ?s ?f] => destruct (IH s f) as [seen' ->] end.
  { intros x Hx. apply Hc. by right. }
  exists seen'. rewrite bind_cons. destruct (first_sightings_app seen ((c,.) <$> omap entry_ref (re_entries repo c))
    (cs ≫= λ c, (c,.) <$> omap entry_ref (re_entries repo c))) as [-> _].
  rewrite bind_app, app_assoc. done.
Qed.
End walk.

(** * What the walk over the history promises *)

Definition text_blob (repo : repository) (opts : Opts) (sha content : string) : Prop :=
  re_object repo sha = OObject "blob" content ∧
  (Z.of_nat (String.length content) ≤ max_bytes opts)%Z ∧ isBinaryContent content = false.

Lemma max_bytes_pos opts : (0 < max_bytes opts)%Z.
Proof. unfold max_bytes. destruct (Z.leb_spec (MaxBytes opts) 0); [done|lia]. Qed.
Lemma elem_of_blob_findings repo opts active x f :
  f ∈ blob_findings repo active (max_bytes opts) x ↔
  ∃ content t pre, text_blob repo opts (br_sha x.2) content ∧ t ∈ active ∧
    first_at content (t_Value t) pre ∧ f = mkFinding (t_Key t) (br_path x.2) (line_of pre) x.1.
Proof.
  unfold blob_findings, text_blob, object_content. destruct (re_object repo (br_sha x.2)) as [why|kind content].
  { split; [by intros ?%elem_of_nil|naive_solver]. }
  destruct (bool_decide (kind = "blob")) eqn:Ek; split_bools; cbn [andb].
  - subst kind. destruct (Z.leb_spec (Z.of_nat (String.length content)) (max_bytes opts)).
    + destruct (isBinaryContent content) eqn:Eb.
      * split; [by intros ?%elem_of_nil|]. intros (c & t & pre & ([= <-] & _ & ?) & _). congruence.
      * rewrite list_elem_of_fmap. setoid_rewrite elem_of_scanContent. split.
        -- intros (g & -> & t & pre & Ht & Hf & ->). by exists content, t, pre.
        -- intros (c & t & pre & ([= <-] & _) & Ht & Hf & ->). eexists. split; [|by exists t, pre]. done.
    + split; [by intros ?%elem_of_nil|]. intros (c & t & pre & ([= <-] & ? & _) & _). lia.
  - split; [by intros ?%elem_of_nil|]. intros (c & t & pre & ([= -> <-] & _) & _). done.
Qed.

Definition walked (opts : HistoryOpts) : Z :=
  if (h_MaxCount opts <=? 0)%Z then DefaultHistoryMaxCount else h_MaxCount opts.
Lemma HistoryScan_serves git respond targets opts repo :
  serves git respond (walked opts) (h_Since opts) repo →
  HistoryScan git None respond targets opts =
  Ok (sortFindings (first_sightings ∅ (sightings repo) ≫=
    blob_findings repo (active_targets (h_Opts opts) targets) (max_bytes (h_Opts opts)))).
Proof.
  intros Hs. unfold HistoryScan. fold (walked opts). rewrite (historyCommits_serves _ _ _ _ _ Hs).
  destruct (active_targets (h_Opts opts) targets) as [|t active].
  { replace (_ ≫= _) with (@nil Finding); [done|]. induction (first_sightings _ _) as [|x l IH]; [done|].
    rewrite bind_cons, <-IH. unfold blob_findings. repeat case_match; done. }
  cbn [result_bind]. unfold sightings. destruct (re_commits repo) as [|c cs] eqn:Ec; [done|].
  destruct (visit_commits_serves git respond _ _ repo Hs (t :: active) _ (max_bytes_pos (h_Opts opts))
    (reverse (c :: cs)) ∅ []) as [seen ->].
  { intros x Hx. rewrite elem_of_reverse in Hx. by rewrite Ec. }
  done.
Qed.

(** C39: The walk over the history, against a repository as git shows it.  It succeeds, and
reports exactly this: of each object id in the walked commits the first sighting, oldest
commit first, and of its content (a blob of text within the limit) the first occurrence of
each long enough value, under the path the blob has in that commit.  So a value in any
walked blob is reported, once for each id, and the findings are in order. *)
Theorem history_exact git respond targets opts repo :
  serves git respond (walked opts) (h_Since opts) repo →
  ∃ l, HistoryScan git None respond targets opts = Ok l ∧
    (∀ f, f ∈ l ↔ ∃ c b content t pre, (c, b) ∈ first_sightings ∅ (sightings repo) ∧
      text_blob repo (h_Opts opts) (br_sha b) content ∧
      t ∈ targets ∧ (MinLength (h_Opts opts) ≤ Z.of_nat (String.length (t_Value t)))%Z ∧
      first_at content (t_Value t) pre ∧ f = mkFinding (t_Key t) (br_path b) (line_of pre) c) ∧
    (∀ c b content t pre post, (c, b) ∈ sightings repo →
      text_blob repo (h_Opts opts) (br_sha b) content →
      t ∈ targets → (MinLength (h_Opts opts) ≤ Z.of_nat (String.length (t_Value t)))%Z →
      content = pre +:+ t_Value t +:+ post →
      ∃ c' b' line, (c', b') ∈ first_sightings ∅ (sightings repo) ∧ br_sha b' = br_sha b ∧
        mkFinding (t_Key t) (br_path b') line c' ∈ l) ∧
    places_sorted l.
Proof.
  intros Hs. rewrite (HistoryScan_serves _ _ _ _ _ Hs). eexists. split; [done|].
  assert (Hex : ∀ f, f ∈ sortFindings (first_sightings ∅ (sightings repo) ≫=
      blob_findings repo (active_targets (h_Opts opts) targets) (max_bytes (h_Opts opts))) ↔
    ∃ c b content t pre, (c, b) ∈ first_sightings ∅ (sightings repo) ∧
      text_blob repo (h_Opts opts) (br_sha b) content ∧
      t ∈ targets ∧ (MinLength (h_Opts opts) ≤ Z.of_nat (String.length (t_Value t)))%Z ∧
      first_at content (t_Value t) pre ∧ f = mkFinding (t_Key t) (br_path b) (line_of pre) c).
  { intros f. rewrite sortFindings_perm, list_elem_of_bind. setoid_rewrite elem_of_blob_findings.
    setoid_rewrite elem_of_active. split.
    - intros ([c b] & (content & t & pre & ? & [? ?] & ? & ->) & Hx). by eexists c, b, content, t, pre.
    - intros (c & b & content & t & pre & Hx & ? & ? & ? & ? & ->). exists (c, b). split; [|done]. by exists content, t, pre. }
  split_and!; [exact Hex| |apply sortFindings_sorted].
  intros c b content t pre post Hx Hc Ht Hl Hocc.
  destruct (first_sightings_spec ∅ (sightings repo)) as (_ & _ & H3).
  destruct (H3 _ Hx) as [?%elem_of_empty|([c' b'] & Hy & E)]; [done|]. cbn in E.
  destruct (occurs_first _ _ _ _ Hocc) as [first Hf].
  exists c', b', (line_of first). split_and!; [done|done|]. apply Hex. exists c', b', content, t, first.
  by rewrite E.
Qed.

(** * A concrete repository and concrete files, with what the search does not see *)

(** * A git for a repository *)

Definition repo_git (maxCount : Z) (since : string) (repo : repository) : git_bin := λ args,
  if bool_decide (args = ["rev-parse"; "--is-inside-work-tree"]) then Ok ("true" +:+ str1 LF)
  else if bool_decide (args = ["rev-parse"; "--verify"; "-q"; "HEAD"]) then Ok ""
  else if bool_decide (args = rev_list_args maxCount since) then
    Ok (str_concat ((λ c, c +:+ str1 LF) <$> re_commits repo))
  else match List.find (λ c, bool_decide (args = diff_tree_args c)) (re_commits repo) with
  | Some c => Ok (print_entries (re_entries repo c))
  | None => Err "unknown command"
  end.
Definition repo_batch (repo : repository) (sha : string) : option string :=
  Some (print_object sha (re_object repo sha)).

Definition oid (c : ascii) : string := Nat.iter 40 (String c) "".
Definition fx_secret : Target := mkTarget "TOKEN" "hunter2-hunter2".
Definition fx_content : string := "# env" +:+ str1 LF +:+ "TOKEN=hunter2-hunter2" +:+ str1 LF.
Definition fx_entry (old new oldMode newMode status path : string) (now : option string) : git_entry :=
  mkEntry oldMode newMode old new status path now.
(** The first commit adds a file with the value and links a submodule; the second renames
the file; the third deletes it. *)
Definition fx_repo : repository := mkRepo ["c3"; "c2"; "c1"]
  (λ c, if bool_decide (c = "c1") then
          [fx_entry (oid "0") (oid "a") "000000" "100644" "A" ".env" None;
           fx_entry (oid "0") (oid "b") "000000" "160000" "A" "lib" None]
        else if bool_decide (c = "c2") then
          [fx_entry (oid "a") (oid "a") "100644" "100644" "R100" ".env" (Some ":100644 x")]
        else [fx_entry (oid "a") (oid "0") "100644" "000000" "D" ":100644 x" None])
  (λ sha, if bool_decide (sha = oid "a") then OObject "blob" fx_content
          else if bool_decide (sha = oid "b") then OMissing "missing"
          else OMissing "missing").
Definition fx_opts : HistoryOpts := mkHistory (mkOpts 5 0) 1000 "".

Lemma fx_serves : serves (repo_git 1000 "" fx_repo) (repo_batch fx_repo) (walked fx_opts) (h_Since fx_opts) fx_repo.
Proof.
  split; [done|done|vm_compute; reflexivity|..].
  - repeat (apply Forall_cons_2; [split; [done|reflexivity]|]). constructor.
  - intros c Hc. repeat (apply elem_of_cons in Hc as [->|Hc]); [..|by apply elem_of_nil in Hc];
      (split; [vm_compute; reflexivity|]);
      cbn [fx_repo re_entries]; rewrite ?bool_decide_true by done; rewrite ?bool_decide_false by done;
      repeat (apply Forall_cons_2; [split; [repeat (apply Forall_cons_2; [split; [done|reflexivity]|]); constructor|by left|done|]|]);
      try constructor; cbn; eauto.
  - intros sha. split; [done|]. cbn [fx_repo re_object]. repeat case_bool_decide; cbn; repeat split; done.
Qed.
Lemma history_exact_witness :
  ∃ l, HistoryScan (repo_git 1000 "" fx_repo) None (repo_batch fx_repo) [fx_secret] fx_opts = Ok l ∧
    l = [mkFinding "TOKEN" ".env" 2 "c1"] ∧ places_sorted l.
Proof.
  destruct (history_exact (repo_git 1000 "" fx_repo) (repo_batch fx_repo) [fx_secret] fx_opts fx_repo fx_serves)
    as (l & Hl & _ & _ & Hp).
  exists l. split; [done|]. split; [|done]. vm_compute in Hl. injection Hl as <-. reflexivity.
Defined.

(** The entry of a submodule is handed to the batch process, which has no blob for it. *)
Example submodule_requested :
  commitBlobs (repo_git 1000 "" fx_repo) "c1" = Ok [mkRef (oid "a") ".env"; mkRef (oid "b") "lib"].
Proof. vm_compute. reflexivity. Qed.

(** A merge for which git prints no entries, though its resolution introduced a blob with
the value: the walk does not see it. *)
Definition fx_merge : repository := mkRepo ["m"; "c2"; "c1"] (λ c, [])
  (λ sha, if bool_decide (sha = oid "d") then OObject "blob" fx_content else OMissing "missing").
Example merge_resolution_unseen :
  HistoryScan (repo_git 1000 "" fx_merge) None (repo_batch fx_merge) [fx_secret] fx_opts = Ok [].
Proof. vm_compute. reflexivity. Qed.

(** * Files *)

Definition fx_file (content : string) : file_view :=
  mkView (Some (false, Z.of_nat (String.length content))) true (str_take binarySniff content) true (Some content).
Definition fx_absent : file_view := mkView None false "" false None.
Definition fx_fs (files : list (string * string)) (path : string) : file_view :=
  match (list_to_map files : gmap string string) !! path with Some c => fx_file c | None => fx_absent end.

(** A value over two lines is found where it begins. *)
Example value_over_lines :
  Scan (fx_fs [("/w/a", "x" +:+ str1 LF +:+ "one" +:+ str1 LF +:+ "two" +:+ str1 LF)])
    [mkTarget "PEM" ("one" +:+ str1 LF +:+ "two")] ["/w/a"; "/w/b"] (mkOpts 5 0) = [mkFinding "PEM" "/w/a" 2 ""].
Proof. vm_compute. reflexivity. Qed.

(** [git diff --name-only] prints paths from the top of the repository, wherever it is run:
in a subdirectory the staged file is looked for in the wrong place, and passed over. *)
Definition fx_staged_git : git_bin := λ args, Ok ("sub/.env" +:+ str1 NUL).
Definition fx_scan_staged (dir : string) (files : list (string * string)) : Z * list Finding :=
  scan_command (fx_fs files) fx_staged_git None (λ _, None) dir dir None
    (Ok [mk_secret "TOKEN" "hunter2-hunter2"]) id (mkScan "table" true false "" 1000 false 5).
Example staged_from_top :
  (fx_scan_staged "/w" [("/w/sub/.env", fx_content)]).1 = ExitLeakFound.
Proof. vm_compute. reflexivity. Qed.
Example staged_from_subdirectory :
  fx_scan_staged "/w/sub" [("/w/sub/.env", fx_content)] = (0%Z, []).
Proof. vm_compute. reflexivity. Qed.
(** What is staged is not read: a value that was staged and then removed from the working
tree is not found. *)
Example staged_content_not_read :
  fx_scan_staged "/w" [("/w/sub/.env", "TOKEN=" +:+ str1 LF)] = (0%Z, []).
Proof. vm_compute. reflexivity. Qed.
