(* ===== verification/Generate.v ===== *)
(** The generate command (src/internal/cli/generate.go): random values from an alphabet by
rejection sampling, version-4 UUIDs, the checks of the flags, and what is printed and
stored.  The source of randomness is a string of bytes that a read takes from the front; a
read that finds too few fails. *)

From S2P Require Import Prelude Provider GoStrings GoEncoding Digest Json.
#[local] Open Scope go_scope.

Definition generateAlnum : string := "abcdefghijklmnopqrstuvwxyzABCDEFGHIJKLMNOPQRSTUVWXYZ0123456789".
Definition generateSymbols : string := "!@#$%^&*()-_=+[]{};:,.".
Definition generateHex : string := "0123456789abcdef".
Definition generateBase64 : string := "ABCDEFGHIJKLMNOPQRSTUVWXYZabcdefghijklmnopqrstuvwxyz0123456789+/".
Definition generateMaxLen : Z := Z.shiftl 1 20.
Definition generateMaxCount : Z := 10000.
Definition generateUUIDLength : Z := 36.
Definition generateReadChunkSz : nat := 512.

(** [io.ReadFull] of a buffer of [n] bytes. *)
Definition ReadFull (n : nat) (rnd : string) : option (string * string) :=
  if (String.length rnd <? n)%nat then None else Some (str_take n rnd, str_drop n rnd).

(** * From an alphabet *)

(** The largest multiple of the alphabet's size that a byte can be below. *)
Definition limit (k : Z) : Z := 256 - 256 mod k.
Definition symbol (alphabet : string) (b : ascii) : ascii :=
  default NUL (String.get (Z.to_nat (code b mod Z.of_nat (String.length alphabet))) alphabet).
(** The loop over the bytes of a chunk. *)
Fixpoint fill (n : nat) (alphabet : string) (buf out : string) : string :=
  match buf with
  | "" => out
  | String b buf =>
    if (limit (Z.of_nat (String.length alphabet)) <=? code b)%Z then fill n alphabet buf out
    else
      let out := out +:+ str1 (symbol alphabet b) in
      if (String.length out =? n)%nat then out else fill n alphabet buf out
  end.
(** A read that failed, or a division by an empty alphabet's size. *)
Inductive rand_error := RRead | RPanic.
Fixpoint draw (fuel n : nat) (alphabet rnd out : string) : option (result rand_error string * string) :=
  if (String.length out <? n)%nat then
    match fuel with
    | O => None
    | S fuel =>
      match ReadFull generateReadChunkSz rnd with
      | None => Some (Err RRead, rnd)
      | Some (buf, rnd) => draw fuel n alphabet rnd (fill n alphabet buf out)
      end
    end
  else Some (Ok out, rnd).
(** Each turn but the last takes a chunk off the source. *)
Definition draw_fuel (rnd : string) : nat := S (String.length rnd).
Definition randomFromAlphabet (n : Z) (alphabet rnd : string) : option (result rand_error string * string) :=
  if bool_decide (alphabet = "") then Some (Err RPanic, rnd)
  else draw (draw_fuel rnd) (Z.to_nat n) alphabet rnd "".

(** * UUIDs *)

Definition byte_at (b : string) (i : nat) : ascii := default NUL (String.get i b).
Definition set_version (c : ascii) : ascii := byte_of (Z.lor (Z.land (code c) 15) 64).
Definition set_variant (c : ascii) : ascii := byte_of (Z.lor (Z.land (code c) 63) 128).
Definition version_bytes (b : string) : string :=
  str_take 6 b +:+ str1 (set_version (byte_at b 6)) +:+ str_take 1 (str_drop 7 b) +:+
  str1 (set_variant (byte_at b 8)) +:+ str_drop 9 b.
Definition slice_of (lo hi : nat) (b : string) : string := str_take (hi - lo) (str_drop lo b).
Definition uuidV4 (rnd : string) : option (string * string) :=
  '(b, rnd) ← ReadFull 16 rnd;
  let b := version_bytes b in
  Some (hex_encode (slice_of 0 4 b) +:+ "-" +:+ hex_encode (slice_of 4 6 b) +:+ "-" +:+
        hex_encode (slice_of 6 8 b) +:+ "-" +:+ hex_encode (slice_of 8 10 b) +:+ "-" +:+
        hex_encode (slice_of 10 16 b), rnd).

(** * The engine *)

Definition alphabet_of (genType charset : string) : string :=
  if bool_decide (genType = "hex") then generateHex
  else if bool_decide (genType = "base64") then generateBase64
  else if bool_decide (charset = "alnum+symbols") then generateAlnum +:+ generateSymbols
  else if bool_decide (charset = "symbols") then generateSymbols
  else generateAlnum.
(** The value with its effective length, and what is left of the source. *)
Definition generateValue (genType : string) (length : Z) (charset rnd : string) :
    option (result rand_error (string * Z) * string) :=
  if bool_decide (genType = "uuid") then
    match uuidV4 rnd with
    | Some (value, rnd) => Some (Ok (value, generateUUIDLength), rnd)
    | None => Some (Err RRead, rnd)
    end
  else '(r, rnd) ← randomFromAlphabet length (alphabet_of genType charset) rnd;
    Some ((let! value := r in Ok (value, length)), rnd).

(** * The command *)

Record generateOptions := mkGen {
  go_genType : string; go_length : Z; go_charset : string; go_count : Z; go_setKey : string;
  go_plain : bool; go_format : string;
  (* the flags the user gave *)
  go_lengthChanged : bool; go_charsetChanged : bool }.
Record GenerateResult := mkGR { gr_Value : string; gr_Type : string; gr_Length : Z; gr_Key : string }.


Definition one_of (s : string) (l : list string) : bool := bool_decide (s ∈ l).
(** The exit code, when a flag is refused. *)
Definition validateGenValueFlags (lengthChanged charsetChanged : bool) (genType charset : string) (length : Z) :
    option Z :=
  err_if (negb (one_of genType ["password"; "uuid"; "hex"; "base64"])) ExitValidationError (
  err_seq (
    if bool_decide (genType = "uuid") then
      err_if lengthChanged ExitValidationError (err_if charsetChanged ExitValidationError None)
    else err_if ((length <? 1) || (generateMaxLen <? length))%Z ExitValidationError None) (
  err_if (bool_decide (genType = "password") && negb (one_of charset ["alnum"; "alnum+symbols"; "symbols"]))
    ExitValidationError (
  err_if (negb (bool_decide (genType = "password")) && charsetChanged) ExitValidationError None))).

Fixpoint generate_each (count : nat) (o : generateOptions) (rnd : string) :
    option (result Z (list GenerateResult) * string) :=
  match count with
  | O => Some (Ok [], rnd)
  | S count =>
    '(r, rnd) ← generateValue (go_genType o) (go_length o) (go_charset o) rnd;
    match r with
    | Err _ => Some (Err ExitGenericError, rnd)
    | Ok (value, length) =>
      '(l, rnd) ← generate_each count o rnd;
      Some ((let! l := l in Ok (mkGR value (go_genType o) length "" :: l)), rnd)
    end
  end.
Definition validateAndGenerate (o : generateOptions) (rnd : string) :
    option (result Z (list GenerateResult) * string) :=
  match
    validateGenValueFlags (go_lengthChanged o) (go_charsetChanged o) (go_genType o) (go_charset o) (go_length o) ;;?
    err_if ((go_count o <? 1) || (generateMaxCount <? go_count o))%Z ExitValidationError (
    err_if (bool_decide (go_setKey o ≠ "") && (1 <? go_count o)%Z) ExitValidationError (
    err_if (go_plain o && (1 <? go_count o)%Z) ExitValidationError (
    err_if (negb (one_of (go_format o) ["table"; "json"])) ExitValidationError None)))
  with
  | Some e => Some (Err e, rnd)
  | None => generate_each (Z.to_nat (go_count o)) o rnd
  end.

(** What is written to standard output. *)
Definition result_json (depth : nat) (r : GenerateResult) : string :=
  json_items depth "{" "}" (
    [json_member "value" (json_string (gr_Value r)); json_member "type" (json_string (gr_Type r));
     json_member "length" (itoa (gr_Length r))] ++
    if bool_decide (gr_Key r = "") then [] else [json_member "key" (json_string (gr_Key r))]).
Definition generate_output (o : generateOptions) (results : list GenerateResult) : string :=
  if bool_decide (go_format o = "json") then
    (match results with
     | [r] => result_json 0 r
     | _ => json_items 0 "[" "]" (result_json 1 <$> results)
     end) +:+ str1 LF
  else foldr (λ r s, (if go_plain o then gr_Value r else gr_Value r +:+ str1 LF) +:+ s) "" results.

(** The exit code of a failure, what was printed, and the Sets that were made. *)
Record generate_outcome := mkGO {
  gen_error : option Z; gen_stdout : string; gen_stored : list (string * string) }.
(** [load] is the exit code of a provider that cannot be loaded, [set] that of a Set that
fails. *)
Definition generate_run (load : option Z) (set : string → string → option Z) (o : generateOptions) (rnd : string) :
    option generate_outcome :=
  '(r, _) ← validateAndGenerate o rnd;
  match r with
  | Err e => Some (mkGO (Some e) "" [])
  | Ok results =>
    if bool_decide (go_setKey o = "") then Some (mkGO None (generate_output o results) [])
    else match load, results with
    | Some e, _ => Some (mkGO (Some e) "" [])
    | None, r :: _ =>
      let stored := [(go_setKey o, gr_Value r)] in
      match set (go_setKey o) (gr_Value r) with
      | Some e => Some (mkGO (Some e) "" stored)
      | None =>
        let keyed := (λ r, mkGR (gr_Value r) (gr_Type r) (gr_Length r) (go_setKey o)) <$> results in
        Some (mkGO None (generate_output o keyed) stored)
      end
    | None, [] => None
    end
  end.
