(* ===== verification/GenerateProps.v ===== *)
(** What the generate command promises: values are as long as asked and drawn from the
alphabet, every value of an alphabet comes from as many inputs as every other, UUIDs carry
the version, the variant and the random bits, and a failed command prints nothing. *)

From S2P Require Import Prelude GoStrings GoEncoding Digest Provider Json Generate.
#[local] Open Scope go_scope.

(** * Drawing *)

(** The symbols a string of random bytes stands for. *)
Definition symbols (alphabet : string) (s : string) : string :=
  str_flat_map (λ b, if (limit (Z.of_nat (String.length alphabet)) <=? code b)%Z then "" else str1 (symbol alphabet b)) s.

Lemma fill_spec n alphabet buf out :
  String.length out < n → fill n alphabet buf out = str_take n (out +:+ symbols alphabet buf).
Proof.
  revert out. induction buf as [|b buf IH]; intros out Hn; cbn [fill].
  { unfold symbols. cbn [str_flat_map]. rewrite str_app_nil_r, str_take_all by lia. done. }
  unfold symbols in *. cbn [str_flat_map]. destruct (_ <=? _)%Z; [by apply IH|].
  rewrite <-str_app_assoc. assert (Hl : String.length (out +:+ str1 (symbol alphabet b)) = S (String.length out)).
  { rewrite str_length_app. cbn. lia. }
  destruct (Nat.eqb_spec (String.length (out +:+ str1 (symbol alphabet b))) n) as [E|E].
  - rewrite str_take_app_le by lia. by rewrite str_take_all by lia.
  - apply IH. lia.
Qed.

(** The draw reads whole chunks until it has enough symbols. *)
Definition draw_result (n : nat) (alphabet rnd out : string) (r : result rand_error string) (rest : string) : Prop :=
  match r with
  | Ok w => ∃ c, generateReadChunkSz * c ≤ String.length rnd ∧ rest = str_drop (generateReadChunkSz * c) rnd ∧
      w = str_take n (out +:+ symbols alphabet (str_take (generateReadChunkSz * c) rnd)) ∧ String.length w = n
  | Err e => e = RRead ∧ ∀ c, generateReadChunkSz * c ≤ String.length rnd →
      String.length (out +:+ symbols alphabet (str_take (generateReadChunkSz * c) rnd)) < n
  end.
Lemma draw_spec fuel n alphabet rnd out :
  String.length rnd < fuel → String.length out ≤ n →
  ∃ r rest, draw fuel n alphabet rnd out = Some (r, rest) ∧ draw_result n alphabet rnd out r rest.
Proof.
  revert rnd out. induction fuel as [|fuel IH]; intros rnd out Hf Ho; [lia|]. cbn [draw].
  destruct (Nat.ltb_spec (String.length out) n) as [Hlt|Hge].
  2: { exists (Ok out), rnd. split; [done|]. exists 0. rewrite Nat.mul_0_r. split_and!; [lia|done| |lia].
       cbn [str_take symbols str_flat_map]. unfold symbols. cbn [str_flat_map]. rewrite str_app_nil_r, str_take_all by lia. done. }
  unfold ReadFull. destruct (Nat.ltb_spec (String.length rnd) generateReadChunkSz) as [Hs|Hs].
  { exists (Err RRead), rnd. split; [done|]. split; [done|]. intros c Hc.
    assert (c = 0) as -> by (unfold generateReadChunkSz in *; nia). rewrite Nat.mul_0_r. unfold symbols.
    cbn [str_take str_flat_map]. by rewrite str_app_nil_r. }
  rewrite fill_spec by done. set (chunk := str_take generateReadChunkSz rnd). set (rest := str_drop generateReadChunkSz rnd).
  set (out' := str_take n (out +:+ symbols alphabet chunk)).
  assert (Hrest : String.length rest = String.length rnd - generateReadChunkSz) by apply str_drop_length.
  assert (Ho' : String.length out' ≤ n) by (unfold out'; rewrite str_take_length_min; lia).
  assert (Hchunks : ∀ c, str_take (generateReadChunkSz * S c) rnd = chunk +:+ str_take (generateReadChunkSz * c) rest).
  { intros c. rewrite Nat.mul_succ_r, Nat.add_comm. apply str_take_add. }
  assert (Hsym : ∀ s, symbols alphabet (chunk +:+ s) = symbols alphabet chunk +:+ symbols alphabet s) by (intros; apply str_flat_map_app).
  assert (Hfull : String.length (out +:+ symbols alphabet chunk) < n → out' = out +:+ symbols alphabet chunk).
  { intros H. unfold out'. by rewrite str_take_all by lia. }
  destruct (IH rest out' ltac:(unfold generateReadChunkSz in *; lia) Ho') as (r & rest' & E & Hr).
  exists r, rest'. split; [done|]. destruct r as [w|e].
  - destruct Hr as (c & Hc & -> & Hw & Hl). exists (S c). rewrite Hchunks, Hsym.
    split_and!; [lia|unfold rest; rewrite str_drop_add; f_equal; lia| |done].
    destruct (Nat.lt_ge_cases (String.length (out +:+ symbols alphabet chunk)) n) as [H|H].
    + by rewrite Hw, Hfull, str_app_assoc by done.
    + rewrite Hw. unfold out'. rewrite <-str_app_assoc, str_take_app_le by (rewrite str_take_length_min; lia).
      rewrite (str_take_app_le n (out +:+ symbols alphabet chunk)) by done.
      apply str_take_all. rewrite str_take_length_min. lia.
  - destruct Hr as [-> Hr]. split; [done|]. specialize (Hr 0) as H0. rewrite Nat.mul_0_r in H0.
    cbn [str_take] in H0. unfold symbols at 1 in H0. cbn [str_flat_map] in H0. rewrite str_app_nil_r in H0.
    assert (Hlt' : String.length (out +:+ symbols alphabet chunk) < n).
    { specialize (H0 ltac:(lia)). unfold out' in H0. rewrite str_take_length_min in H0. lia. }
    intros [|c] Hc.
    + rewrite Nat.mul_0_r. unfold symbols. cbn [str_take str_flat_map]. by rewrite str_app_nil_r.
    + rewrite Hchunks, Hsym, <-str_app_assoc, <-Hfull by done. apply Hr. lia.
Qed.

(** * Lengths and alphabets *)

Lemma symbol_in alphabet b : alphabet ≠ "" → has_byte (symbol alphabet b) alphabet = true.
Proof.
  intros Hne. unfold symbol. set (k := String.length alphabet).
  assert (Hk : 0 < k) by (unfold k; destruct alphabet; [done|cbn; lia]).
  assert (Hi : Z.to_nat (code b mod Z.of_nat k) < k).
  { pose proof (Z.mod_pos_bound (code b) (Z.of_nat k) ltac:(lia)). apply Nat2Z.inj_lt. rewrite Z2Nat.id by lia. lia. }
  revert Hi. generalize (Z.to_nat (code b mod Z.of_nat k)). unfold k. clear. intros i. revert i. induction alphabet as [|c s IH]; cbn [String.length]; [lia|].
  intros [|i] Hi; cbn [String.get default]; rewrite has_byte_cons; [by rewrite ascii_eqb_refl|].
  rewrite (IH i) by lia. apply orb_true_r.
Qed.
Lemma str_forall_take p n s : str_forall p s = true → str_forall p (str_take n s) = true.
Proof.
  revert s. induction n as [|n IH]; intros [|c s]; cbn; [done..|]. intros [-> H]%andb_true_iff. by apply IH.
Qed.
Lemma symbols_in alphabet s : alphabet ≠ "" → str_forall (λ c, has_byte c alphabet) (symbols alphabet s) = true.
Proof.
  intros Hne. unfold symbols. induction s as [|b s IH]; [done|]. cbn [str_flat_map].
  rewrite str_forall_app, IH, andb_true_r. destruct (_ <=? _)%Z; [done|]. cbn [str_forall str1]. by rewrite symbol_in.
Qed.
Lemma randomFromAlphabet_spec n alphabet rnd :
  alphabet ≠ "" →
  ∃ r rest, randomFromAlphabet n alphabet rnd = Some (r, rest) ∧ draw_result (Z.to_nat n) alphabet rnd "" r rest ∧
    ∀ w, r = Ok w → String.length w = Z.to_nat n ∧ str_forall (λ c, has_byte c alphabet) w = true.
Proof.
  intros Hne. unfold randomFromAlphabet. rewrite bool_decide_false by done.
  destruct (draw_spec (draw_fuel rnd) (Z.to_nat n) alphabet rnd "") as (r & rest & E & Hr); [unfold draw_fuel; lia|cbn; lia|].
  exists r, rest. split_and!; [done|done|]. intros w ->. destruct Hr as (c & _ & _ & Hw & Hl). split; [done|].
  rewrite Hw, str_nil_app. by apply str_forall_take, symbols_in.
Qed.

(** * Every value is as likely *)

(** The bytes that are not thrown away, and the sequences of such bytes. *)
Definition all_bytes : list ascii := byte_of <$> seqZ 0 256.
Definition accepted (alphabet : string) : list ascii :=
  filter (λ b, (code b < limit (Z.of_nat (String.length alphabet)))%Z) all_bytes.
Fixpoint sequences {A} (l : list A) (n : nat) : list (list A) :=
  match n with O => [[]] | S n => l ≫= λ b, cons b <$> sequences l n end.

Lemma count_cons {A B} `{EqDecision B} (f : A → B) (l : list A) (S : list (list A)) c w :
  length (filter (λ s, f <$> s = c :: w) (l ≫= λ b, cons b <$> S)) =
  length (filter (λ b, f b = c) l) * length (filter (λ s, f <$> s = w) S).
Proof.
  induction l as [|b l IH]; [done|]. rewrite bind_cons, filter_app, length_app, IH, filter_cons.
  assert (Hb : length (filter (λ s, f <$> s = c :: w) (cons b <$> S)) =
    if decide (f b = c) then length (filter (λ s, f <$> s = w) S) else 0).
  { clear IH. induction S as [|s S IH]; [by destruct (decide _)|]. rewrite fmap_cons, !filter_cons.
    rewrite fmap_cons. destruct (decide (f b = c)) as [->|Hne].
    - destruct (decide (f <$> s = w)) as [->|]; [rewrite decide_True by done|rewrite decide_False by congruence]; cbn; by rewrite IH.
    - rewrite decide_False by congruence. exact IH. }
  rewrite Hb. destruct (decide (f b = c)); cbn; lia.
Qed.
Lemma count_sequences {A B} `{EqDecision B} (f : A → B) (l : list A) (m : nat) w :
  (∀ c, c ∈ w → length (filter (λ b, f b = c) l) = m) →
  length (filter (λ s, f <$> s = w) (sequences l (length w))) = m ^ length w.
Proof.
  induction w as [|c w IH]; intros Hw; [done|]. cbn [length sequences Nat.pow].
  rewrite count_cons, IH, Hw by set_solver. done.
Qed.

(** Of the accepted bytes each symbol has as many. *)
Lemma symbol_count genType charset c :
  has_byte c (alphabet_of genType charset) = true →
  length (filter (λ b, symbol (alphabet_of genType charset) b = c) (accepted (alphabet_of genType charset))) =
  256 / String.length (alphabet_of genType charset).
Proof.
  assert (H : Forall (λ a, ∀ c, has_byte c a = true →
    length (filter (λ b, symbol a b = c) (accepted a)) = 256 / String.length a)
    [generateHex; generateBase64; generateAlnum +:+ generateSymbols; generateSymbols; generateAlnum]).
  { assert (Hall : forallb (λ a, forallb (λ c, negb (has_byte c a) ||
      (length (filter (λ b, symbol a b = c) (accepted a)) =? 256 / String.length a)%nat) all_bytes)
      [generateHex; generateBase64; generateAlnum +:+ generateSymbols; generateSymbols; generateAlnum] = true)
      by (vm_compute; reflexivity).
    rewrite forallb_forall in Hall. apply Forall_forall. intros a Ha d Hd.
    assert (Hin : In a [generateHex; generateBase64; generateAlnum +:+ generateSymbols; generateSymbols; generateAlnum])
      by (by apply list_elem_of_In).
    specialize (Hall a Hin). rewrite forallb_forall in Hall.
    assert (Hdb : In d all_bytes).
    { apply list_elem_of_In, list_elem_of_fmap. exists (code d). split; [by rewrite byte_of_code|].
      apply elem_of_seqZ. pose proof (code_range d). lia. }
    specialize (Hall d Hdb). rewrite Hd in Hall. by apply Nat.eqb_eq in Hall. }
  rewrite Forall_forall in H. apply H. unfold alphabet_of. repeat case_bool_decide; set_solver.
Qed.

(** C37: No value is likelier than another.  For every type and charset, among the sequences
of random bytes that are not thrown away, as many give one value of [n] symbols as any
other: (256 / k)^n for an alphabet of k symbols.  And the draw from a source of bytes ends,
with a value of the asked length over the alphabet or, when the source runs out before
there are enough bytes, with its error. *)
Theorem generated_uniform genType charset n rnd :
  let alphabet := alphabet_of genType charset in
  (∀ w, length w = n → Forall (λ c, has_byte c alphabet = true) w →
    length (filter (λ s, symbol alphabet <$> s = w) (sequences (accepted alphabet) n)) =
    (256 / String.length alphabet) ^ n) ∧
  ∃ r rest, randomFromAlphabet (Z.of_nat n) alphabet rnd = Some (r, rest) ∧ draw_result n alphabet rnd "" r rest ∧
    ∀ w, r = Ok w → String.length w = n ∧ str_forall (λ c, has_byte c alphabet) w = true.
Proof.
  intros alphabet. split.
  - intros w <- Hw. apply count_sequences. intros c Hc. rewrite Forall_forall in Hw. by apply symbol_count, Hw.
  - destruct (randomFromAlphabet_spec (Z.of_nat n) alphabet rnd) as (r & rest & H); [unfold alphabet, alphabet_of; by repeat case_bool_decide|].
    rewrite Nat2Z.id in H. by exists r, rest.
Qed.

(** * UUIDs *)

Lemma hex_decode_encode s : hex_decode (hex_encode s) = Some s.
Proof.
  induction s as [|c s IH]; [done|]. unfold hex_encode in *. cbn [str_flat_map].
  rewrite str_cons_app. change (str1 ?x +:+ ?t) with (String x t). cbn [hex_decode].
  pose proof (code_range c). assert (H1 : (0 ≤ code c / 16 < 16)%Z).
  { split; [apply Z.div_pos; lia|apply Z.div_lt_upper_bound; lia]. }
  pose proof (Z.mod_pos_bound (code c) 16 ltac:(lia)) as H2.
  assert (Hv : ∀ z, (0 ≤ z < 16)%Z → hex_value (hex_digit z) = Some z).
  { intros z Hz. unfold hex_value, is_digit, in_range. rewrite hex_digit_code by done.
    destruct (Z.ltb_spec z 10); [rewrite (proj2 (Z.leb_le 48 _)), (proj2 (Z.leb_le _ 57)) by lia; cbn; f_equal; lia|].
    rewrite (proj2 (Z.leb_gt _ 57)), andb_false_r by lia.
    rewrite (proj2 (Z.leb_le 97 _)), (proj2 (Z.leb_le _ 102)) by lia. cbn. f_equal. lia. }
  rewrite !Hv by done. cbn [mbind option_bind]. rewrite IH. cbn [mbind option_bind].
  do 2 f_equal. rewrite <-(byte_of_code c) at 3. f_equal. pose proof (Z.div_mod (code c) 16 ltac:(lia)). lia.
Qed.

Lemma hex_encode_app s t : hex_encode (s +:+ t) = hex_encode s +:+ hex_encode t.
Proof. apply str_flat_map_app. Qed.
(** The bits that are set, and those that are kept. *)
Lemma set_version_bits c : (code (set_version c) = Z.land (code c) 15 + 64)%Z.
Proof.
  assert (H : forallb (λ c, (code (set_version c) =? Z.land (code c) 15 + 64)%Z) all_bytes = true) by (vm_compute; reflexivity).
  rewrite forallb_forall in H. apply Z.eqb_eq, H, list_elem_of_In, list_elem_of_fmap.
  exists (code c). rewrite byte_of_code, elem_of_seqZ. pose proof (code_range c). split; [done|lia].
Qed.
Lemma set_variant_bits c : (code (set_variant c) = Z.land (code c) 63 + 128)%Z.
Proof.
  assert (H : forallb (λ c, (code (set_variant c) =? Z.land (code c) 63 + 128)%Z) all_bytes = true) by (vm_compute; reflexivity).
  rewrite forallb_forall in H. apply Z.eqb_eq, H, list_elem_of_In, list_elem_of_fmap.
  exists (code c). rewrite byte_of_code, elem_of_seqZ. pose proof (code_range c). split; [done|lia].
Qed.

(** The text without its dashes. *)
Definition undash : string → string := str_flat_map (λ c, if c =c "-" then "" else str1 c).
Lemma undash_app s t : undash (s +:+ t) = undash s +:+ undash t.
Proof. apply str_flat_map_app. Qed.
Lemma undash_hex s : undash (hex_encode s) = hex_encode s.
Proof.
  pose proof (hex_encode_hex s) as H. unfold undash. induction (hex_encode s) as [|c t IH]; [done|].
  cbn [str_forall] in H. apply andb_true_iff in H as [Hc H]. cbn [str_flat_map].
  assert ((c =c "-") = false) as -> by (apply ascii_eqb_false; by intros ->).
  rewrite IH by done. done.
Qed.
Lemma slices b : String.length b = 16 →
  b = slice_of 0 4 b +:+ slice_of 4 6 b +:+ slice_of 6 8 b +:+ slice_of 8 10 b +:+ slice_of 10 16 b.
Proof.
  intros Hl. unfold slice_of. cbn [Nat.sub str_drop].
  rewrite <-(str_take_drop 4 b) at 1. f_equal. rewrite <-(str_take_drop 2 (str_drop 4 b)) at 1. f_equal.
  rewrite str_drop_add. rewrite <-(str_take_drop 2 (str_drop (4 + 2) b)) at 1. f_equal.
  rewrite str_drop_add. rewrite <-(str_take_drop 2 (str_drop (4 + 2 + 2) b)) at 1. f_equal.
  rewrite str_drop_add. symmetry. apply str_take_all. rewrite str_drop_length. cbn. lia.
Qed.
Lemma version_bytes_length b : String.length b = 16 → String.length (version_bytes b) = 16.
Proof.
  intros Hl. unfold version_bytes. rewrite !str_length_app, !str_take_length_min, !str_drop_length. cbn [str1 String.length]. lia.
Qed.

(** A UUID has the form 8-4-4-4-12; without its dashes it is the hexadecimal of sixteen
bytes, which are the random ones but for the version (4) and the variant (binary 10). *)
Theorem uuid_roundtrip rnd u rest :
  uuidV4 rnd = Some (u, rest) →
  ∃ b, rnd = b +:+ rest ∧ String.length b = 16 ∧ String.length u = 36 ∧
    Forall (λ i, byte_at u i = "-"%char) [8; 13; 18; 23] ∧ hex_decode (undash u) = Some (version_bytes b) ∧
    (code (set_version (byte_at b 6)) = Z.land (code (byte_at b 6)) 15 + 64)%Z ∧
    (code (set_variant (byte_at b 8)) = Z.land (code (byte_at b 8)) 63 + 128)%Z.
Proof.
  unfold uuidV4, ReadFull. destruct (Nat.ltb_spec (String.length rnd) 16) as [|Hl]; [done|].
  cbn [mbind option_bind]. set (b := str_take 16 rnd). intros [= <- <-]. exists b.
  assert (Hb : String.length b = 16) by (unfold b; rewrite str_take_length_min; lia).
  pose proof (version_bytes_length b Hb) as Hv. set (v := version_bytes b) in *.
  assert (Hs : ∀ i j, i ≤ j ≤ 16 → String.length (hex_encode (slice_of i j v)) = 2 * (j - i)).
  { intros i j Hij. rewrite hex_encode_length. unfold slice_of. rewrite str_take_length_min, str_drop_length. lia. }
  split_and!; [symmetry; apply str_take_drop|done| | | |apply set_version_bits|apply set_variant_bits].
  - rewrite !str_length_app, !Hs by lia. done.
  - assert (Hskip : ∀ s t i, String.length s ≤ i → byte_at (s +:+ t) i = byte_at t (i - String.length s)).
    { intros s t. induction s as [|c s IH]; intros i Hi; [by rewrite Nat.sub_0_r|].
      destruct i as [|i]; cbn in Hi; [lia|]. rewrite str_cons_app. cbn. apply IH. lia. }
    repeat apply Forall_cons_2; [..|constructor];
      repeat (rewrite Hskip by (rewrite ?Hs by lia; cbn; lia); rewrite ?Hs by lia; cbn [Nat.sub Nat.mul Nat.add String.length]); done.
  - rewrite !undash_app, !undash_hex. cbn [undash str_flat_map]. change ("-" =c "-") with true. cbn iota.
    rewrite !str_nil_app. rewrite <-!hex_encode_app, <-slices by done. apply hex_decode_encode.
Qed.

(** * The command *)

(** A value the engine may return for a type, a length and a charset, with its length. *)
Definition drawn (genType : string) (length : Z) (charset w : string) (n : Z) : Prop :=
  Z.of_nat (String.length w) = n ∧
  if bool_decide (genType = "uuid") then n = generateUUIDLength
  else n = length ∧ str_forall (λ c, has_byte c (alphabet_of genType charset)) w = true.
Definition value_ok (o : generateOptions) (r : GenerateResult) : Prop :=
  gr_Type r = go_genType o ∧ drawn (go_genType o) (go_length o) (go_charset o) (gr_Value r) (gr_Length r).
Definition flags_ok (o : generateOptions) : Prop :=
  validateGenValueFlags (go_lengthChanged o) (go_charsetChanged o) (go_genType o) (go_charset o) (go_length o) = None ∧
  (1 ≤ go_count o ≤ generateMaxCount)%Z ∧ (go_setKey o ≠ "" ∨ go_plain o = true → go_count o = 1%Z) ∧
  go_format o ∈ ["table"; "json"].

Lemma alphabet_of_ne genType charset : alphabet_of genType charset ≠ "".
Proof. unfold alphabet_of. by repeat case_bool_decide. Qed.
Lemma flags_length lc cc genType charset length :
  validateGenValueFlags lc cc genType charset length = None → genType ≠ "uuid" → (1 ≤ length)%Z.
Proof.
  intros Hv Hu. unfold validateGenValueFlags in Hv. rewrite (bool_decide_false (genType = "uuid")) in Hv by done.
  autorewrite with result in Hv. destruct Hv as (_ & (Hl & _) & _). apply orb_false_iff in Hl as [Hl _]. split_bools. lia.
Qed.
Lemma generateValue_ok lc cc genType charset length rnd :
  validateGenValueFlags lc cc genType charset length = None →
  ∃ r rest, generateValue genType length charset rnd = Some (r, rest) ∧
    ∀ w n, r = Ok (w, n) → drawn genType length charset w n.
Proof.
  intros Hv. unfold generateValue, drawn. case_bool_decide as Hu.
  - destruct (uuidV4 rnd) as [[u rest]|] eqn:E.
    + eexists _, _. split; [done|]. intros w n [= <- <-].
      destruct (uuid_roundtrip _ _ _ E) as (b & _ & _ & Hl & _). by rewrite Hl.
    + eexists _, _. split; [done|]. done.
  - destruct (randomFromAlphabet_spec length (alphabet_of genType charset) rnd (alphabet_of_ne _ _))
      as (r & rest & E & _ & Hr).
    rewrite E. cbn [mbind option_bind]. eexists _, _. split; [done|]. intros w n Hw. inv_ok.
    destruct (Hr _ eq_refl) as [Hl Hf]. pose proof (flags_length _ _ _ _ _ Hv Hu). split_and!; [|done|done].
    rewrite Hl. lia.
Qed.
Lemma generate_each_ok o count rnd :
  flags_ok o →
  ∃ r rest, generate_each count o rnd = Some (r, rest) ∧
    ∀ l, r = Ok l → length l = count ∧ Forall (value_ok o) l.
Proof.
  intros Ho. revert rnd. induction count as [|count IH]; intros rnd; cbn [generate_each].
  { eexists _, _. split; [done|]. intros l [= <-]. by split. }
  destruct (generateValue_ok _ _ _ _ _ rnd (proj1 Ho)) as (r & rest & -> & Hr). cbn [mbind option_bind].
  destruct r as [[w n]|e]; [|eexists _, _; by split]. specialize (IH rest) as (r' & rest' & -> & Hr').
  cbn [mbind option_bind]. eexists _, _. split; [done|]. intros l Hl. inv_ok.
  destruct (Hr' _ eq_refl) as [<- Hf]. split; [done|]. constructor; [|done]. split; [done|]. by apply Hr.
Qed.
Lemma validateAndGenerate_ok o rnd :
  ∃ r rest, validateAndGenerate o rnd = Some (r, rest) ∧
    ∀ l, r = Ok l → flags_ok o ∧ length l = Z.to_nat (go_count o) ∧ Forall (value_ok o) l.
Proof.
  unfold validateAndGenerate.
  match goal with |- context [match ?g with Some _ => _ | None => _ end] => destruct g as [e|] eqn:Eg end.
  { eexists _, _. by split. }
  autorewrite with result in Eg. destruct Eg as (Hv & Hc & Hs & Hp & Hf & _).
  assert (Ho : flags_ok o).
  { unfold flags_ok, one_of in *. split_bools. split_and!; [done|lia|lia| |].
    - intros [Hk|Hk].
      + rewrite (bool_decide_true _ Hk) in Hs. cbn in Hs. split_bools. lia.
      + rewrite Hk in Hp. cbn in Hp. split_bools. lia.
    - done. }
  destruct (generate_each_ok o (Z.to_nat (go_count o)) rnd Ho) as (r & rest & E & Hr).
  exists r, rest. split; [done|]. intros l Hl. split; [done|]. by apply Hr.
Qed.
(** The command always comes to an end, prints nothing when it fails, and when it succeeds
its flags were valid and it printed as many values as asked, each of its length over its
alphabet; with [--set] the one value printed is the one that was stored. *)
Theorem generate_command load set o rnd :
  ∃ out, generate_run load set o rnd = Some out ∧
    (gen_error out ≠ None → gen_stdout out = "") ∧ (gen_stored out ≠ [] → flags_ok o) ∧
    (gen_error out = None → flags_ok o ∧ ∃ results, Z.of_nat (length results) = go_count o ∧ Forall (value_ok o) results ∧
      gen_stdout out = generate_output o results ∧
      gen_stored out = if bool_decide (go_setKey o = "") then [] else (λ r, (go_setKey o, gr_Value r)) <$> results).
Proof.
  unfold generate_run. destruct (validateAndGenerate_ok o rnd) as (r & rest & -> & Hr). cbn [mbind option_bind].
  destruct r as [results|e]; [|eexists; split; [done|]; by cbn]. destruct (Hr _ eq_refl) as (Ho & Hl & Hf).
  destruct (Ho) as (_ & Hc & Hone & _). case_bool_decide as Hk.
  { eexists. split; [done|]. cbn. split_and!; [done|done|]. intros _. split; [done|]. exists results. split_and!; [lia|done..]. }
  destruct load as [e|]; [eexists; split; [done|]; by cbn|].
  assert (Hlen : length results = 1) by (rewrite Hl, Hone by (by left); done).
  destruct results as [|r [|]]; try done. destruct (set _ _) as [e|]; (eexists; split; [done|]); cbn; [by split_and!|].
  split_and!; [done|done|]. intros _. split; [done|]. eexists [_]. split_and!; [cbn; lia| |done|done].
  rewrite Forall_singleton in Hf |- *. exact Hf.
Qed.
