(* ===== verification/Commands.v ===== *)
(** The commands that change secrets: set, delete, rollback, rotate and import
(src/internal/cli), over what they ask of a provider, of the webhook and of the sync
command.  The clock, [time.ParseDuration] and what the user types are arguments. *)

From S2P Require Import Prelude Provider GoStrings GoEncoding Digest Json Config Dotenv TimeParse LaunchManifest Effects Generate.
#[local] Open Scope go_scope.

(** * What the commands ask *)

(** A provider's error: whether it is [ErrNotFound]. *)
Inductive perr := PNotFound | PFailed.

(** The calls on a provider with its state, the name under which it keeps a key (two keys may
be one secret, since some providers map keys to shorter names), the delivery of a webhook report for an event
and a key (whether every receiver took it; true without receivers), and the sync command
over the declared targets. *)
Class Backend (W : Type) : Type := {
  b_entry : string → string;
  b_Get : W → string → result perr Secret;
  b_List : W → string → result perr (list Secret);
  b_GetBatch : W → list string → result perr (list Secret);
  b_Set : string → string → SecretMeta → W → W * option perr;
  b_Delete : string → W → W * option perr;
  b_Rollback : string → Z → W → W * option perr;
  b_report : string → string → W → W * bool;
  b_sync : W → W * bool;
}.

(** What was done to the outside. *)
Inductive call :=
| CSet (key value : string) (meta : SecretMeta)
| CDelete (key : string)
| CRollback (key : string) (version : Z)
| CReport (event key : string)
| CSync.
Record cmd_world (W : Type) := mkCW { cw_store : W; cw_log : list call; cw_rnd : string }.
Arguments mkCW {W}.
Arguments cw_store {W}.
Arguments cw_log {W}.
Arguments cw_rnd {W}.


Definition EventSet : string := NotifyEventSet.
Definition EventDelete : string := NotifyEventDelete.
Definition EventRotate : string := NotifyEventRotate.

(** * Durations *)

(** The 64-bit result of an addition or a product. *)
Definition int64 (z : Z) : Z := ((z + 2 ^ 63) mod 2 ^ 64 - 2 ^ 63)%Z.
Definition hour : Z := 3600 * second.

Section ttl.
Context (ParseDuration : string → option Z).
(** [Err] carries no text: every failure is the same exit code. *)
Definition parseTTL (s : string) : result unit Z :=
  match ParseDuration s with
  | Some d => if (d <=? 0)%Z then Err () else Ok d
  | None =>
    match last_byte s with
    | Some c =>
      if c =c "d" then
        match ParseInt (drop_last s) with
        | Some days => if (days <=? 0)%Z then Err () else Ok (int64 (int64 (days * 24) * hour))
        | None => Err ()
        end
      else Err ()
    | None => Err ()
    end
  end.
End ttl.

(** * The commands *)

Section commands.
Context {W : Type} {BK : Backend W} {UC : UnicodeCase}.
Abbreviation cmd := (act (cmd_world W) Z).

Definition get_secret (key : string) : cmd (result perr Secret) := gets (λ w, b_Get (cw_store w) key).
(** A call that changes the state, with its entry in the log. *)
Definition do_call {R} (entry : call) (f : W → W * R) : cmd R := λ w,
  let '(s, r) := f (cw_store w) in (mkCW s (cw_log w ++ [entry]) (cw_rnd w), Ok r).

(** [wrapProviderMutationError]: the text tells how far the write came, the code does not. *)
Definition wrapProviderMutationError (r : option perr) : option Z :=
  match r with Some _ => Some ExitProviderError | None => None end.
Definition reportMutation (strict : bool) (event key : string) : cmd unit :=
  do! delivered := do_call (CReport event key) (b_report event key) in
  guard (if negb delivered && strict then Some ExitNetworkError else None).
(** An answer to a prompt. *)
Definition says_yes (answer : string) : bool := has_prefix (to_lower (trim_space answer)) "y".

(** ** set *)

Record setOptions := mkSet {
  s_stdin : option (result unit string); s_file : option (result unit string);
  s_description : string; s_tags : list string; s_ttl : string; s_json : bool; s_strict : bool }.
(** [value] is the second argument, [s_stdin] and [s_file] what the flags read. *)
Definition getValue (o : setOptions) (value : option string) : result Z string :=
  let file :=
    match s_file o with
    | Some (Ok data) => Ok (trim_right (str1 LF) data)
    | Some (Err _) => Err ExitGenericError
    | None => Err ExitValidationError
    end in
  match value, s_stdin o with
  | Some value, _ => Ok value
  | None, Some (Ok data) => Ok (trim_right (str1 LF) data)
  | None, Some (Err _) => Err ExitGenericError
  | None, None => file
  end.
Definition getMeta (o : setOptions) : SecretMeta :=
  {| Description := s_description o;
     Tags := foldl (λ m tag, match cut_byte "=" tag with Some (k, v) => <[k := v]> m | None => m end) ∅ (s_tags o);
     CreatedAt := 0; UpdatedAt := 0; CreatedBy := ""; ExpiresAt := 0 |}.
Definition with_expiry (t : time) (m : SecretMeta) : SecretMeta :=
  {| Description := Description m; Tags := Tags m; CreatedAt := CreatedAt m; UpdatedAt := UpdatedAt m;
     CreatedBy := CreatedBy m; ExpiresAt := t |}.
Definition json_bool_text (b : bool) : string := if b then "true" else "false".
Definition version_of (r : result perr Secret) : Z := match r with Ok s => sec_Version s | Err _ => 0 end.

Context (ParseDuration : string → option Z) (now : time).

(** The loaded provider's path, or the exit code of a configuration that cannot be loaded. *)
Definition set_run (load : result Z string) (o : setOptions) (arg : string) (value : option string) : cmd string :=
  do! path := lift load in
  let key := (ResolveKey path arg).1 in
  do! value := lift (getValue o value) in
  do! meta := lift (if bool_decide (s_ttl o = "") then Ok (getMeta o)
    else match parseTTL ParseDuration (s_ttl o) with
         | Ok d => Ok (with_expiry (now + d) (getMeta o))
         | Err _ => Err ExitValidationError
         end) in
  do! created := if s_json o then
      do! before := get_secret key in ret (match before with Err PNotFound => true | _ => false end)
    else ret false in
  do! r := do_call (CSet key value meta) (b_Set key value meta) in
  run! guard (wrapProviderMutationError r);
  run! reportMutation (s_strict o) EventSet key;
  if s_json o then
    do! after := get_secret key in
    ret (json_items 0 "{" "}" [json_member "key" (json_string key); json_member "path" (json_string path);
      json_member "version" (itoa (version_of after)); json_member "created" (json_bool_text created)] +:+ str1 LF)
  else ret "".

(** ** delete *)

Record deleteOptions := mkDelete { d_confirm : bool; d_force : bool; d_json : bool; d_strict : bool }.
Definition delete_run (load : result Z string) (o : deleteOptions) (arg answer : string) : cmd string :=
  do! path := lift load in
  let key := (ResolveKey path arg).1 in
  if negb (d_confirm o) && negb (d_force o) && negb (says_yes answer) then ret ""
  else
    do! r := do_call (CDelete key) (b_Delete key) in
    run! guard (match r with
      | Some PNotFound => Some ExitNotFoundError | Some PFailed => Some ExitProviderError | None => None end);
    run! reportMutation (d_strict o) EventDelete key;
    ret (if d_json o then
      json_items 0 "{" "}" [json_member "key" (json_string key); json_member "path" (json_string path);
        json_member "deleted" "true"] +:+ str1 LF
      else "").

(** ** rollback *)

Definition rollback_run (experimental : string) (load : result Z string) (confirmed : bool) (arg versionStr answer : string) :
    cmd string :=
  if negb (bool_decide (experimental = "1")) then throw ExitValidationError
  else
    do! path := lift load in
    let key := (ResolveKey path arg).1 in
    match ParseInt versionStr with
    | None => throw ExitProviderError
    | Some version =>
      if negb confirmed && negb (says_yes answer) then ret ""
      else
        do! r := do_call (CRollback key version) (b_Rollback key version) in
        run! guard (match r with
          | Some PNotFound => Some ExitNotFoundError | Some PFailed => Some ExitProviderError | None => None end);
        ret ""
    end.

(** ** rotate *)

Record rotateOptions := mkRotate {
  r_genType : string; r_length : Z; r_charset : string; r_value : string; r_generate : bool;
  r_ttl : string; r_remind : string; r_yes : bool; r_show : bool; r_strict : bool; r_noSync : bool;
  r_format : string;
  (* the flags the user gave *)
  r_generateChanged : bool; r_typeChanged : bool; r_lengthChanged : bool; r_charsetChanged : bool }.
Record RotateResult := mkRR { rr_Key : string; rr_Version : Z; rr_ExpiresAt : string; rr_Value : string }.

Definition explicit (o : rotateOptions) : bool := bool_decide (r_value o ≠ "").
(** [--remind] is the other name of [--ttl]. *)
Definition effective_ttl (o : rotateOptions) : string := if bool_decide (r_remind o ≠ "") then r_remind o else r_ttl o.
(** The checks before the provider is touched, with the expiry: the zero time for none. *)
Definition rotate_checks (o : rotateOptions) : result Z time :=
  if bool_decide (r_remind o ≠ "") && bool_decide (r_ttl o ≠ "") then Err ExitValidationError
  else
    let! expiry :=
      (if bool_decide (effective_ttl o = "") then Ok 0%Z
       else match parseTTL ParseDuration (effective_ttl o) with
            | Ok d => Ok (now + d)%Z
            | Err _ => Err ExitValidationError
            end) in
    try! err_if (explicit o && r_generate o && r_generateChanged o) ExitValidationError (
      err_if (explicit o && (r_typeChanged o || r_lengthChanged o || r_charsetChanged o)) ExitValidationError (
      err_if (negb (explicit o) && negb (r_generate o)) ExitValidationError (
      err_seq (if explicit o then None
               else validateGenValueFlags (r_lengthChanged o) (r_charsetChanged o) (r_genType o) (r_charset o) (r_length o)) (
      err_if (negb (one_of (r_format o) ["table"; "json"])) ExitValidationError None))));
    Ok expiry.

(** The preflight: every key is read before any is changed. *)
Fixpoint preflight (path : string) (args : list string) : cmd (list (string * SecretMeta)) :=
  match args with
  | [] => ret []
  | arg :: args =>
    let key := (ResolveKey path arg).1 in
    do! current := get_secret key in
    match current with
    | Err PNotFound => throw ExitNotFoundError
    | Err PFailed => throw ExitProviderError
    | Ok s => do! rest := preflight path args in ret ((key, Meta s) :: rest)
    end
  end.
(** A value from the engine, drawn from the source of randomness. *)
Definition draw_value (o : rotateOptions) : cmd string := λ w,
  match generateValue (r_genType o) (r_length o) (r_charset o) (cw_rnd w) with
  | Some (Ok (value, _), rnd) => (mkCW (cw_store w) (cw_log w) rnd, Ok value)
  | Some (Err _, rnd) => (mkCW (cw_store w) (cw_log w) rnd, Err ExitGenericError)
  | None => (w, Err ExitGenericError)
  end.
Definition kept_meta (expiry : time) (meta : SecretMeta) : SecretMeta :=
  if is_zero expiry then meta else with_expiry expiry meta.
Definition rotate_one (o : rotateOptions) (expiry : time) (key : string) (meta : SecretMeta) : cmd RotateResult :=
  do! newValue := if explicit o then ret (r_value o) else draw_value o in
  let meta := kept_meta expiry meta in
  do! r := do_call (CSet key newValue meta) (b_Set key newValue meta) in
  run! guard (wrapProviderMutationError r);
  run! reportMutation (r_strict o) EventRotate key;
  do! after := get_secret key in
  let expires := match after with
    | Ok s => if is_zero (ExpiresAt (Meta s)) then "" else rfc3339 (ExpiresAt (Meta s))
    | Err _ => ""
    end in
  ret (mkRR key (version_of after) expires (if r_show o then newValue else "")).
Fixpoint rotate_each (o : rotateOptions) (expiry : time) (l : list (string * SecretMeta)) : cmd (list RotateResult) :=
  match l with
  | [] => ret []
  | (key, meta) :: l =>
    do! res := rotate_one o expiry key meta in
    do! results := rotate_each o expiry l in
    ret (res :: results)
  end.

Definition result_member (name value : string) : list string :=
  if bool_decide (value = "") then [] else [json_member name (json_string value)].
Definition rotate_json (depth : nat) (path : string) (r : RotateResult) : string :=
  json_items depth "{" "}" (
    [json_member "key" (json_string (rr_Key r))] ++ result_member "path" path ++
    [json_member "rotated" "true"; json_member "version" (itoa (rr_Version r))] ++
    result_member "expires_at" (rr_ExpiresAt r) ++ result_member "value" (rr_Value r)).
Definition rotate_output (o : rotateOptions) (path : string) (results : list RotateResult) : string :=
  if bool_decide (r_format o = "json") then
    (match results with
     | [r] => rotate_json 0 path r
     | _ => json_items 0 "[" "]" (rotate_json 1 path <$> results)
     end) +:+ str1 LF
  else if r_show o then foldr (λ r s, rr_Value r +:+ str1 LF +:+ s) "" results else "".
(** [terminal]: standard input is a terminal, and [answer] what is typed there. *)
Definition rotate_run (load : result Z string) (terminal : bool) (answer : string) (o : rotateOptions)
    (args : list string) : cmd string :=
  do! expiry := lift (rotate_checks o) in
  do! path := lift load in
  do! keys := preflight path args in
  if negb (r_yes o) && terminal && negb (says_yes answer) then ret ""
  else
    do! results := rotate_each o expiry keys in
    run! when (negb (r_noSync o)) (run! do_call CSync b_sync; ret ());
    ret (rotate_output o path results).

(** ** import *)

Record importOptions := mkImport { i_dryRun : bool; i_onConflict : string; i_toPath : string }.
(** A prefix that is not empty ends in a slash. *)
Definition slashed (prefix : string) : string :=
  if bool_decide (prefix ≠ "") && negb (bool_decide (last_byte prefix = Some "/"%char)) then prefix +:+ "/" else prefix.
Definition dest_key (o : importOptions) (key : string) : string :=
  let prefix := slashed (i_toPath o) in
  if bool_decide (prefix ≠ "") then prefix +:+ trim_prefix key "/" else key.
(** [deduplicate]: the keys in the order they first come, the last value of each, and how
many were skipped as empty. *)
Definition dedup_step (o : importOptions) (acc : list string * gmap string string * Z) (s : ImportedSecret) :
    list string * gmap string string * Z :=
  let '(ordered, m, skipped) := acc in
  let k := dest_key o (is_Key s) in
  if bool_decide (is_Value s = "") then (ordered, m, (skipped + 1)%Z)
  else (if bool_decide (is_Some (m !! k)) then ordered else ordered ++ [k], <[k := is_Value s]> m, skipped).
Definition deduplicate (o : importOptions) (secrets : list ImportedSecret) : list string * gmap string string * Z :=
  foldl (dedup_step o) ([], ∅, 0%Z) secrets.
Definition checks_conflicts (o : importOptions) : bool := one_of (i_onConflict o) ["skip"; "fail"].
Definition key_set (l : list Secret) : gset string := list_to_set (Key <$> l).
Definition loadExisting (o : importOptions) (orderedKeys : list string) : cmd (gset string) := λ w,
  if i_dryRun o || negb (checks_conflicts o) then (w, Ok ∅)
  else match b_List (cw_store w) (slashed (i_toPath o)) with
  | Ok l => (w, Ok (key_set l))
  | Err _ =>
    if (0 <? length orderedKeys)%nat then
      match b_GetBatch (cw_store w) orderedKeys with
      | Ok l => (w, Ok (key_set l))
      | Err _ => (w, Err ExitProviderError)
      end
    else (w, Ok ∅)
  end.
(** The loop; the result counts what was imported and what was skipped. *)
Fixpoint import_each (o : importOptions) (m : gmap string string) (existing : gset string) (keys : list string)
    (imported skipped : Z) : cmd (Z * Z) :=
  match keys with
  | [] => ret (imported, skipped)
  | k :: keys =>
    if i_dryRun o then import_each o m existing keys (imported + 1) skipped
    else if checks_conflicts o && bool_decide (k ∈ existing) then
      if bool_decide (i_onConflict o = "skip") then import_each o m existing keys imported (skipped + 1)
      else throw ExitConflictError
    else
      let val := default "" (m !! k) in
      do! r := do_call (CSet k val no_meta) (b_Set k val no_meta) in
      run! guard (wrapProviderMutationError r);
      import_each o m existing keys (imported + 1) skipped
  end.
(** [imp] is what the importer delivers: the exit code of one that cannot be made, and
whether it could read. *)
Definition import_run (load : result Z string) (imp : result Z (result unit (list ImportedSecret)))
    (o : importOptions) : cmd (Z * Z) :=
  run! lift load;
  do! delivered := lift imp in
  do! secrets := lift (match delivered with Ok l => Ok l | Err _ => Err ExitNetworkError end) in
  let '(ordered, m, skipped) := deduplicate o secrets in
  do! existing := loadExisting o ordered in
  import_each o m existing ordered 0 skipped.
End commands.
