(* ===== verification/CommandsProps.v ===== *)
(** What the commands that change secrets promise, over any provider that keeps the laws of
a store: rotate touches nothing before every key is known and then changes each of its
keys and no other; import overwrites only where it was told to; and the bound within which
a number of days is the duration it says. *)

From S2P Require Import Prelude GoStrings GoEncoding Digest Provider Json Config Dotenv TimeParse LaunchManifest Effects Generate GenerateProps Commands.
#[local] Open Scope go_scope.

(** * The laws of a store *)

(** What a Set that succeeds makes a Get return, for every key that is the same entry, and
that no call on one entry changes what another reads; reports and the sync command do not
write to the provider.  Nothing is said of two keys that are one entry but that they read
alike, so the laws hold of providers whose names lose something of the key. *)
Class BackendLaws (W : Type) {BK : Backend W} : Prop := {
  get_entry (w : W) k k' : b_entry k' = b_entry k → is_ok (b_Get w k') = is_ok (b_Get w k);
  set_get (w w' : W) k v m k' : b_Set k v m w = (w', None) → b_entry k' = b_entry k →
    ∃ s, b_Get w' k' = Ok s ∧ Value s = v;
  set_other (w w' : W) k v m r k' : b_Set k v m w = (w', r) → b_entry k' ≠ b_entry k → b_Get w' k' = b_Get w k';
  report_get (w : W) e k k' : b_Get (b_report e k w).1 k' = b_Get w k';
  sync_get (w : W) k' : b_Get (b_sync w).1 k' = b_Get w k';
}.

Section props.
Context {W : Type} {BK : Backend W} {BL : BackendLaws W} {UC : UnicodeCase}.
Implicit Types (w : cmd_world W) (path : string).

(** The keys the arguments stand for. *)
Definition resolved (path : string) (args : list string) : list string := (λ a, (ResolveKey path a).1) <$> args.

Lemma preflight_spec path args w w' r :
  preflight path args w = (w', r) →
  w' = w ∧ match r with
  | Ok l => l.*1 = resolved path args ∧ Forall (λ km, ∃ s, b_Get (cw_store w) km.1 = Ok s ∧ Meta s = km.2) l
  | Err _ => ∃ k, k ∈ resolved path args ∧ is_ok (b_Get (cw_store w) k) = false
  end.
Proof.
  revert r w'. induction args as [|a args IH]; intros r w'; cbn [preflight].
  { intros [= <- <-]. split; [done|]. split; [done|constructor]. }
  unfold get_secret. erewrite run_bind by reflexivity. cbn beta.
  destruct (b_Get (cw_store w) (ResolveKey path a).1) as [s|[]] eqn:E.
  2,3: intros [= <- <-]; split; [done|]; exists (ResolveKey path a).1; split; [by left|by rewrite E].
  unfold bind at 1. destruct (preflight path args w) as [w1 r1] eqn:E1. specialize (IH r1 w1 eq_refl).
  destruct r1 as [l|e]; intros [= <- <-].
  - destruct IH as (-> & Hl & Hf). split; [done|]. cbn. split; [by f_equal|]. constructor; [by exists s|done].
  - destruct IH as (-> & k & Hk & HG). split; [done|]. exists k. split; [by right|done].
Qed.

(** * One rotation *)

(** What is kept: everything but an expiry that is given anew. *)
Definition rotated_meta (expiry : time) (meta : SecretMeta) : SecretMeta := {|
  Description := Description meta; Tags := Tags meta; CreatedAt := CreatedAt meta; UpdatedAt := UpdatedAt meta;
  CreatedBy := CreatedBy meta; ExpiresAt := if decide (expiry = 0%Z) then ExpiresAt meta else expiry |}.
Lemma kept_meta_spec expiry meta : kept_meta expiry meta = rotated_meta expiry meta.
Proof.
  unfold kept_meta, rotated_meta, with_expiry, is_zero. destruct (decide (expiry = 0%Z)) as [->|H%Z.eqb_neq]; [by destruct meta|].
  by rewrite H.
Qed.
(** A value the options allow. *)
Definition rotated_value (o : rotateOptions) (v : string) : Prop :=
  if explicit o then v = r_value o else ∃ n, drawn (r_genType o) (r_length o) (r_charset o) v n.
Definition rotate_entries (expiry : time) (key : string) (meta : SecretMeta) (v : string) : list call :=
  [CSet key v (rotated_meta expiry meta); CReport EventRotate key].

Lemma draw_value_spec o w w' r :
  (explicit o = false → validateGenValueFlags (r_lengthChanged o) (r_charsetChanged o) (r_genType o) (r_charset o) (r_length o) = None) →
  (if explicit o then ret (r_value o) else draw_value o) w = (w', r) →
  cw_store w' = cw_store w ∧ cw_log w' = cw_log w ∧ ∀ v, r = Ok v → rotated_value o v.
Proof.
  intros Hv. unfold rotated_value. destruct (explicit o); [intros [= <- <-]; naive_solver|].
  unfold draw_value. destruct (generateValue_ok _ _ _ _ _ (cw_rnd w) (Hv eq_refl)) as (g & rest & -> & Hg).
  destruct g as [[v n]|e]; intros [= <- <-]; split_and!; try done. intros v' [= <-]. exists n. by apply Hg.
Qed.
Lemma rotate_one_spec o expiry key meta w w' r :
  (explicit o = false → validateGenValueFlags (r_lengthChanged o) (r_charsetChanged o) (r_genType o) (r_charset o) (r_length o) = None) →
  rotate_one o expiry key meta w = (w', r) →
  (∀ k, b_entry k ≠ b_entry key → b_Get (cw_store w') k = b_Get (cw_store w) k) ∧
  ∀ res, r = Ok res → ∃ v, rotated_value o v ∧ cw_log w' = cw_log w ++ rotate_entries expiry key meta v ∧
    (∀ k, b_entry k = b_entry key → ∃ s, b_Get (cw_store w') k = Ok s ∧ Value s = v) ∧ rr_Key res = key ∧ rr_Value res = if r_show o then v else "".
Proof.
  intros Hv. unfold rotate_one. unfold bind at 1.
  destruct ((if explicit o then ret (r_value o) else draw_value o) w) as [w1 [v|e]] eqn:E1;
    destruct (draw_value_spec _ _ _ _ Hv E1) as (Hs1 & Hl1 & Hv1).
  2: { intros [= <- <-]. split; [by rewrite Hs1|done]. }
  unfold do_call at 1. unfold bind at 1. rewrite Hs1, Hl1.
  rewrite kept_meta_spec. destruct (b_Set key v (rotated_meta expiry meta) (cw_store w)) as [s2 r2] eqn:E2.
  unfold bind at 1, guard at 1. destruct r2 as [e|]; cbn [wrapProviderMutationError].
  { intros [= <- <-]. split; [|done]. intros k Hk. by apply (set_other _ _ _ _ _ _ _ E2). }
  assert (Hset : ∀ k, b_entry k = b_entry key → ∃ s, b_Get s2 k = Ok s ∧ Value s = v)
    by (intros k Hk; by eapply set_get).
  unfold reportMutation, do_call, bind at 1, bind at 1. cbn [cw_store cw_log cw_rnd].
  pose proof (report_get s2 EventRotate key) as Hrep.
  destruct (b_report EventRotate key s2) as [s3 ok] eqn:E3. cbn [fst] in Hrep. unfold guard.
  assert (Ho : ∀ k, b_entry k ≠ b_entry key → b_Get s3 k = b_Get (cw_store w) k).
  { intros k Hk. rewrite Hrep. by apply (set_other _ _ _ _ _ _ _ E2). }
  destruct (negb ok && r_strict o); intros [= <- <-]; (split; [exact Ho|]); [done|].
  intros res [= <-]. exists v. cbn [cw_log cw_store rr_Key rr_Value]. unfold rotate_entries.
  rewrite <-app_assoc. split_and!; try done; [by apply Hv1|]. intros k Hk. rewrite Hrep. by apply Hset.
Qed.

(** * A batch *)

(** The entries of some keys. *)
Definition entries (keys : list string) : list string := b_entry <$> keys.
(** Every key reads the value its entry was given last. *)
Definition holds_last (w : cmd_world W) (keys values : list string) : Prop :=
  ∀ i key k, keys !! i = Some key → b_entry k = b_entry key → b_entry k ∉ entries (drop (S i) keys) →
    ∃ s v, values !! i = Some v ∧ b_Get (cw_store w) k = Ok s ∧ Value s = v.
Definition batch_log (expiry : time) (l : list (string * SecretMeta)) (values : list string) : list call :=
  concat (zip_with (λ km v, rotate_entries expiry km.1 km.2 v) l values).

Lemma rotate_each_spec o expiry l w w' r :
  (explicit o = false → validateGenValueFlags (r_lengthChanged o) (r_charsetChanged o) (r_genType o) (r_charset o) (r_length o) = None) →
  rotate_each o expiry l w = (w', r) →
  (∀ k, b_entry k ∉ entries l.*1 → b_Get (cw_store w') k = b_Get (cw_store w) k) ∧
  ∀ results, r = Ok results → ∃ values, length values = length l ∧ Forall (rotated_value o) values ∧
    cw_log w' = cw_log w ++ batch_log expiry l values ∧ holds_last w' l.*1 values ∧
    rr_Key <$> results = l.*1 ∧ (r_show o = true → rr_Value <$> results = values) ∧
    (r_show o = false → Forall (λ res, rr_Value res = "") results).
Proof.
  intros Hv. revert w w' r. induction l as [|[key meta] l IH]; intros w w' r; cbn [rotate_each].
  { intros [= <- <-]. split; [done|]. intros results [= <-]. exists []. split_and!; try done.
    by rewrite app_nil_r. }
  unfold bind at 1. destruct (rotate_one o expiry key meta w) as [w1 [res|e]] eqn:E1;
    destruct (rotate_one_spec _ _ _ _ _ _ _ Hv E1) as [Ho1 Hr1].
  2: { intros [= <- <-]. split; [|done]. intros k Hk. apply Ho1. cbn in Hk. set_solver. }
  unfold bind at 1. destruct (rotate_each o expiry l w1) as [w2 [results|e]] eqn:E2;
    destruct (IH w1 _ _ E2) as [Ho2 Hr2]; clear IH; intros [= <- <-];
    (split; [intros k Hk; cbn in Hk; rewrite Ho2, Ho1 by set_solver; done|]); [|done].
  destruct (Hr1 res eq_refl) as (v & Hval & Hlog & Hget & Hk & Hvr).
  destruct (Hr2 results eq_refl) as (values & Hlen & Hvals & Hlog2 & Hlast & Hkeys & Hshow & Hhide).
  intros results' [= <-]. exists (v :: values). split_and!.
  - cbn. by f_equal.
  - by constructor.
  - rewrite Hlog2, Hlog, <-app_assoc. done.
  - intros [|i] key' k; cbn.
    + intros [= <-] Hk' Hn. rewrite drop_0 in Hn. destruct (Hget k Hk') as (s & Hs & Hsv). exists s, v. by rewrite Ho2.
    + intros Hi Hk' Hn. by eapply Hlast.
  - cbn. by rewrite Hk, Hkeys.
  - intros Hsh. cbn. rewrite Hvr, Hsh. by rewrite Hshow.
  - intros Hsh. constructor; [by rewrite Hvr, Hsh|by apply Hhide].
Qed.

Lemma rotate_checks_flags o (PD : string → option Z) now expiry :
  rotate_checks PD now o = Ok expiry → explicit o = false →
  validateGenValueFlags (r_lengthChanged o) (r_charsetChanged o) (r_genType o) (r_charset o) (r_length o) = None.
Proof.
  unfold rotate_checks. intros H He. destruct (_ && _) eqn:E; [done|]. inv_ok.
  rewrite He in *. autorewrite with result in *. naive_solver.
Qed.
(** C35: A rotation is all or nothing up to the first write, and exact after it.  When a flag
is refused, the configuration does not load, or any of the keys cannot be read, nothing at
all is done.  No key changes that is not a named key or, where the provider keeps two keys as one
secret, the same entry as a named key, however the command ends.  When it succeeds (and was
not declined, which also does nothing), the Sets made are exactly one per argument, in
order, each with the description, tags and expiry the key had (or the new expiry), followed
by its report, and then the propagation unless it was turned off; every named key, and every
key of the same entry, reads the value that entry was given last; and values are printed
only on request. *)
Theorem rotate_exact PD now load terminal answer o args w w' r :
  rotate_run PD now load terminal answer o args w = (w', r) →
  (∀ e, rotate_checks PD now o = Err e ∨ load = Err e → w' = w ∧ is_ok r = false) ∧
  ∀ expiry path, rotate_checks PD now o = Ok expiry → load = Ok path →
  let keys := resolved path args in
  (∀ k, b_entry k ∉ entries keys → b_Get (cw_store w') k = b_Get (cw_store w) k) ∧
  ((∃ k, k ∈ keys ∧ is_ok (b_Get (cw_store w) k) = false) → w' = w ∧ is_ok r = false) ∧
  ∀ out, r = Ok out →
    if negb (r_yes o) && terminal && negb (says_yes answer) then w' = w ∧ out = ""
    else ∃ l values results, l.*1 = keys ∧
      Forall (λ km, ∃ s, b_Get (cw_store w) km.1 = Ok s ∧ Meta s = km.2) l ∧
      length values = length keys ∧ Forall (rotated_value o) values ∧
      cw_log w' = cw_log w ++ batch_log expiry l values ++ (if r_noSync o then [] else [CSync]) ∧
      holds_last w' keys values ∧ out = rotate_output o path results ∧ rr_Key <$> results = keys ∧
      (r_show o = true → rr_Value <$> results = values) ∧ (r_show o = false → Forall (λ res, rr_Value res = "") results).
Proof.
  unfold rotate_run. unfold bind at 1, lift at 1. intros Hrun. split.
  { intros e [He|He]; rewrite He in Hrun; [by simplify_eq|].
    destruct (rotate_checks PD now o); [|by simplify_eq]. unfold bind at 1, lift at 1 in Hrun. by simplify_eq. }
  intros expiry path Hc Hload. set (keys := resolved path args). cbv zeta. rewrite Hc in Hrun. pose proof (rotate_checks_flags _ _ _ _ Hc) as Hflags.
  unfold bind at 1, lift at 1 in Hrun. rewrite Hload in Hrun. unfold bind at 1 in Hrun.
  destruct (preflight path args w) as [w1 [l|e]] eqn:E1; destruct (preflight_spec _ _ _ _ _ E1) as [-> Hpre].
  2: { simplify_eq. done. }
  destruct Hpre as [Hl Hf]. fold keys in Hl.
  assert (Hno : ¬ ∃ k, k ∈ keys ∧ is_ok (b_Get (cw_store w) k) = false).
  { intros (k & Hk & HG). rewrite <-Hl in Hk. apply list_elem_of_fmap in Hk as (km & -> & Hin).
    rewrite Forall_forall in Hf. destruct (Hf km Hin) as (s & E & _). by rewrite E in HG. }
  destruct (negb (r_yes o) && terminal && negb (says_yes answer)).
  { injection Hrun as <- <-. split_and!; [done|done|]. by intros out [= <-]. }
  unfold bind at 1 in Hrun. destruct (rotate_each o expiry l w) as [w2 [results|e]] eqn:E2;
    destruct (rotate_each_spec _ _ _ _ _ _ Hflags E2) as [Ho Hr]; rewrite Hl in *.
  2: { simplify_eq. done. }
  destruct (Hr results eq_refl) as (values & Hlen & Hvals & Hlog & Hlast & Hkeys & Hshow & Hhide).
  unfold when, bind, do_call, ret in Hrun. pose proof (sync_get (cw_store w2)) as Hsync.
  assert (Hw : (∀ k, b_Get (cw_store w') k = b_Get (cw_store w2) k) ∧
    cw_log w' = cw_log w2 ++ (if r_noSync o then [] else [CSync]) ∧ r = Ok (rotate_output o path results)).
  { destruct (r_noSync o); cbn [negb] in Hrun; [injection Hrun as <- <-; by rewrite app_nil_r|].
    destruct (b_sync (cw_store w2)) as [s ok]. injection Hrun as <- <-. done. }
  destruct Hw as (Hg & Hlog' & ->). split_and!; [intros k Hk; rewrite Hg; by apply Ho|done|].
  intros out [= <-]. exists l, values, results. split_and!; try done.
  - by rewrite Hlen, <-Hl, length_fmap.
  - by rewrite Hlog', Hlog, <-app_assoc.
  - intros i key k Hi Hk Hn. destruct (Hlast i key k Hi Hk Hn) as (s & v & ? & ? & ?). exists s, v. by rewrite Hg.
Qed.

(** * Import *)

(** Where a key goes: below the path given, with one slash between them. *)
Definition folder (toPath : string) : string :=
  match last_byte toPath with None => "" | Some c => if decide (c = "/"%char) then toPath else toPath +:+ "/" end.
Definition destination (toPath key : string) : string :=
  match toPath with
  | "" => key
  | _ => folder toPath +:+ (match key with String c rest => if decide (c = "/"%char) then rest else key | "" => "" end)
  end.
Lemma slashed_folder p : slashed p = folder p.
Proof.
  unfold slashed, folder. destruct (decide (p = "")) as [->|Hne]; [done|]. rewrite (bool_decide_true (p ≠ "")) by done.
  assert (is_Some (last_byte p)) as [c ->].
  { clear -Hne. induction p as [|c p IH]; [done|]. destruct p; [by eexists|by apply IH]. }
  destruct (decide (c = "/"%char)) as [->|Hc]; [by rewrite bool_decide_true|]. by rewrite bool_decide_false by congruence.
Qed.
Lemma dest_key_destination o key : dest_key o key = destination (i_toPath o) key.
Proof.
  unfold dest_key. destruct (i_toPath o) as [|b p] eqn:E; [done|]. rewrite bool_decide_true.
  2: { unfold slashed. by destruct (_ && _). }
  rewrite slashed_folder. cbn [destination]. f_equal. destruct key as [|c key]; [done|]. unfold trim_prefix. cbn [has_prefix].
  rewrite andb_true_r. destruct (decide (c = "/"%char)) as [->|Hc]; [done|].
  destruct (Ascii.eqb_spec "/" c); [congruence|done].
Qed.
(** Whether what is there is to be checked. *)
Definition careful (o : importOptions) : Prop := i_onConflict o = "skip" ∨ i_onConflict o = "fail".
Lemma careful_spec o : careful o ↔ checks_conflicts o = true.
Proof.
  unfold careful, checks_conflicts, one_of. rewrite bool_decide_eq_true. set_solver.
Qed.
(** The last value of a destination that is not empty. *)
Definition last_value (o : importOptions) (secrets : list ImportedSecret) (k : string) : option string :=
  is_Value <$> last (filter (λ s, destination (i_toPath o) (is_Key s) = k ∧ is_Value s ≠ "") secrets).
Lemma deduplicate_spec o secrets ordered m skipped :
  deduplicate o secrets = (ordered, m, skipped) →
  (∀ k, m !! k = last_value o secrets k) ∧ (∀ k, k ∈ ordered ↔ is_Some (m !! k)) ∧ NoDup ordered.
Proof.
  revert ordered m skipped. unfold deduplicate. induction secrets as [|s secrets IH] using rev_ind; intros ordered m skipped.
  { intros [= <- <- <-]. unfold last_value. split_and!; [done| |constructor]. intros k. rewrite lookup_empty. split; [set_solver|by intros []]. }
  rewrite foldl_snoc. destruct (foldl _ _ secrets) as [[ord1 m1] sk1] eqn:E.
  destruct (IH ord1 m1 sk1 eq_refl) as (Hm & Ho & Hd). unfold dedup_step, last_value in *. clear IH E.
  case_bool_decide as Hv; intros [= <- <- <-].
  - split_and!; [|done|done]. intros k. rewrite filter_app, filter_cons_False, filter_nil, app_nil_r by tauto. apply Hm.
  - rewrite dest_key_destination. set (k0 := destination (i_toPath o) (is_Key s)). split_and!.
    + intros k. rewrite filter_app, filter_cons, filter_nil. destruct (decide (k = k0)) as [->|Hne].
      * rewrite lookup_insert_eq, decide_True by done. by rewrite last_snoc.
      * rewrite lookup_insert_ne, decide_False by (done || naive_solver). rewrite app_nil_r. apply Hm.
    + intros k. destruct (decide (k = k0)) as [->|Hne].
      * rewrite lookup_insert_eq. case_bool_decide as Hk; [rewrite Ho; naive_solver|]. split; [by eexists|]. set_solver.
      * rewrite lookup_insert_ne, <-(Ho k) by done. case_bool_decide; set_solver.
    + case_bool_decide as Hk; [done|]. apply NoDup_app. split_and!; [done| |apply NoDup_singleton].
      intros k Hin ->%list_elem_of_singleton. by apply Hk, Ho.
Qed.
(** The key is left alone. *)
Definition spared (o : importOptions) (existing : gset string) (k : string) : Prop :=
  i_dryRun o = true ∨ (checks_conflicts o = true ∧ k ∈ existing).
Lemma import_each_spec o m existing keys i s w w' r :
  import_each o m existing keys i s w = (w', r) →
  (∃ new, cw_log w' = cw_log w ++ new ∧
    ∀ c, c ∈ new → ∃ k, k ∈ keys ∧ ¬ spared o existing k ∧ c = CSet k (default "" (m !! k)) no_meta) ∧
  (∀ k, (∀ k', k' ∈ keys → ¬ spared o existing k' → b_entry k' ≠ b_entry k) →
    b_Get (cw_store w') k = b_Get (cw_store w) k) ∧
  (∀ n, r = Ok n → ∀ k, k ∈ keys → ¬ spared o existing k →
    (∀ k', k' ∈ keys → ¬ spared o existing k' → b_entry k' = b_entry k → k' = k) →
    ∃ sec, b_Get (cw_store w') k = Ok sec ∧ Value sec = default "" (m !! k)).
Proof.
  revert i s w w' r. induction keys as [|k0 keys IH]; intros i s w w' r; cbn [import_each].
  { intros [= <- <-]. split; [exists []; split; [by rewrite app_nil_r|set_solver]|].
    split; [done|]. intros n _ k Hk. by apply elem_of_nil in Hk. }
  destruct (i_dryRun o) eqn:Ed.
  { intros ((new & Hl & Hnew) & H1 & H2)%IH. split; [|split].
    - exists new. split; [done|]. intros c Hc. destruct (Hnew c Hc) as (k & Hk & Hs & ->). exists k. by split; [right|].
    - intros k Hk. apply H1. intros k' Hk' []. by left.
    - intros n Hn k _ []. by left. }
  destruct (checks_conflicts o && bool_decide (k0 ∈ existing)) eqn:Ec.
  { apply andb_true_iff in Ec as [Hc Hk0%bool_decide_eq_true].
    assert (Hsp : spared o existing k0) by (right; done).
    case_bool_decide.
    - intros ((new & Hl & Hnew) & H1 & H2)%IH. split; [|split].
      + exists new. split; [done|]. intros c Hc'. destruct (Hnew c Hc') as (k & Hk & Hs & ->). exists k. by split; [right|].
      + intros k Hk. apply H1. intros k' Hk'. apply Hk. by right.
      + intros n Hn k [->|Hk]%elem_of_cons Hns Hu; [done|]. eapply H2; [done..|]. intros k' Hk'. apply Hu. by right.
    - intros [= <- <-]. split; [|done]. exists []. split; [by rewrite app_nil_r|set_solver]. }
  assert (Hk0 : ¬ spared o existing k0).
  { intros [Hd|[Hc Hk]]; [congruence|]. rewrite Hc, bool_decide_true in Ec by done. done. }
  unfold bind at 1, do_call at 1. destruct (b_Set k0 _ no_meta (cw_store w)) as [s1 r1] eqn:E1.
  assert (Hsame : ∀ k, b_entry k0 ≠ b_entry k → b_Get s1 k = b_Get (cw_store w) k)
    by (intros k Hk; apply (set_other _ _ _ _ _ _ _ E1); congruence).
  assert (Hlog : ∀ new, (∀ c, c ∈ new → ∃ k, k ∈ keys ∧ ¬ spared o existing k ∧ c = CSet k (default "" (m !! k)) no_meta) →
    ∀ c, c ∈ CSet k0 (default "" (m !! k0)) no_meta :: new →
      ∃ k, k ∈ k0 :: keys ∧ ¬ spared o existing k ∧ c = CSet k (default "" (m !! k)) no_meta).
  { intros new Hnew c [->|Hc]%elem_of_cons; [exists k0; split; [by left|done]|].
    destruct (Hnew c Hc) as (k & Hk & Hs & ->). exists k. by split; [right|]. }
  unfold bind at 1, guard at 1. destruct r1 as [e|]; cbn [wrapProviderMutationError].
  { intros [= <- <-]. split; [|split; [|done]].
    - eexists. split; [done|]. apply (Hlog []). set_solver.
    - intros k Hk. apply Hsame, Hk; [by left|done]. }
  intros ((new & Hl & Hnew) & H1 & H2)%IH. cbn [cw_store cw_log] in H1, Hl. split; [|split].
  - exists (CSet k0 (default "" (m !! k0)) no_meta :: new). rewrite Hl, <-app_assoc. split; [done|by apply Hlog].
  - intros k Hk. rewrite H1, Hsame; [done|apply Hk; [by left|done]|]. intros k' Hk'. apply Hk. by right.
  - intros n Hn k Hk Hns Hu. destruct (decide (k ∈ keys)) as [Hin|Hin].
    { eapply H2; [done..|]. intros k' Hk'. apply Hu. by right. }
    apply elem_of_cons in Hk as [->|?]; [|done].
    destruct (set_get _ _ _ _ _ k0 E1 eq_refl) as (sec & Hsec & Hval). exists sec. rewrite H1; [done|].
    intros k' Hk' Hns' He. apply Hin. rewrite <-(Hu k'); [done|by right|done|done].
Qed.
(** Under fail the first key that was reported ends the command. *)
Lemma import_each_fails o m existing keys i s w k :
  i_dryRun o = false → checks_conflicts o = true → i_onConflict o ≠ "skip" → k ∈ keys → k ∈ existing →
  is_ok (import_each o m existing keys i s w).2 = false.
Proof.
  intros Hd Hc Ho. revert i s w. induction keys as [|k0 keys IH]; intros i s w Hk Hin; [by apply elem_of_nil in Hk|].
  cbn [import_each]. rewrite Hd, Hc. cbn [andb].
  destruct (decide (k0 ∈ existing)) as [Hk0|Hk0]; [rewrite (bool_decide_true _ Hk0), bool_decide_false by done; done|].
  rewrite (bool_decide_false _ Hk0). apply elem_of_cons in Hk as [->|Hk]; [done|].
  unfold bind at 1, do_call at 1. destruct (b_Set k0 _ no_meta (cw_store w)) as [s1 [e|]]; [done|].
  unfold bind at 1, guard at 1. cbn [wrapProviderMutationError]. by apply IH.
Qed.

(** What the check for existing secrets answers: the list under the destination's prefix
or, when that fails, the batch of the destinations; [None] when both fail. *)
Definition checked (o : importOptions) (destinations : list string) (w : W) : option (list Secret) :=
  match b_List w (folder (i_toPath o)), b_GetBatch w destinations, destinations with
  | Ok l, _, _ => Some l
  | Err _, _, [] => Some []
  | Err _, Ok l, _ => Some l
  | Err _, Err _, _ => None
  end.
Definition reported (o : importOptions) (destinations : list string) (w : W) (k : string) : Prop :=
  ∃ l, checked o destinations w = Some l ∧ k ∈ Key <$> l.
Lemma loadExisting_spec o keys w :
  i_dryRun o = false → checks_conflicts o = true →
  match checked o keys (cw_store w) with
  | Some l => loadExisting o keys w = (w, Ok (key_set l))
  | None => loadExisting o keys w = (w, Err ExitProviderError)
  end.
Proof.
  intros Hd Hc. unfold loadExisting, checked. rewrite Hd, Hc, slashed_folder. cbn [negb orb].
  destruct (b_List _ _) as [l|e]; [done|]. destruct keys as [|k keys]; [by destruct (b_GetBatch _ _)|].
  cbn [length Nat.ltb Nat.leb]. by destruct (b_GetBatch _ _).
Qed.
Lemma loadExisting_off o keys w :
  i_dryRun o = true ∨ checks_conflicts o = false → loadExisting o keys w = (w, Ok ∅).
Proof. unfold loadExisting. intros [-> | ->]; [done|]. by rewrite orb_true_r. Qed.
Lemma import_each_dry o m existing keys i s w :
  i_dryRun o = true → (import_each o m existing keys i s w).1 = w.
Proof. intros Hd. revert i. induction keys as [|k keys IH]; intros i; cbn [import_each]; [done|]. rewrite Hd. apply IH. Qed.

(** The run with its list of destinations. *)
Lemma import_run_eq path secrets o w :
  ∃ destinations m skipped, NoDup destinations ∧
    (∀ k, k ∈ destinations ↔ is_Some (last_value o secrets k)) ∧ (∀ k, m !! k = last_value o secrets k) ∧
    import_run (Ok path) (Ok (Ok secrets)) o w =
      bind (loadExisting o destinations) (λ existing, import_each o m existing destinations 0 skipped) w.
Proof.
  unfold import_run, bind at 1 2 3, lift. destruct (deduplicate o secrets) as [[keys m] skipped] eqn:Edd.
  destruct (deduplicate_spec _ _ _ _ _ Edd) as (Hm & Hk & Hnd). exists keys, m, skipped.
  split_and!; [done| |done|done]. intros k. by rewrite Hk, Hm.
Qed.

(** C36: An import overwrites a secret only where it was told to, as far as the provider
tells what is there.  A dry run changes nothing.  Otherwise it makes at most the Sets of
the destinations with a value that is not empty, each with the last such value, and under
skip and fail none of a destination that the check for existing secrets reported; so a key
that is no other entry of one written reads as before, however the command ends, and when
the check itself fails nothing is done at all.  When the command succeeds, every
destination it may write, and that is the only one of its entry, holds its value; under
fail it does not succeed if a destination was reported.  And where the check reports every
destination that holds a secret, skip and fail leave all secrets as they were. *)
Theorem import_safe path secrets o w w' r :
  import_run (Ok path) (Ok (Ok secrets)) o w = (w', r) →
  (i_dryRun o = true → w' = w) ∧
  ∃ destinations, NoDup destinations ∧ (∀ k, k ∈ destinations ↔ is_Some (last_value o secrets k)) ∧
  let there := reported o destinations (cw_store w) in
  let may k := k ∈ destinations ∧ i_dryRun o = false ∧ (careful o → ¬ there k) in
  (∃ new, cw_log w' = cw_log w ++ new ∧
    ∀ c, c ∈ new → ∃ k v, may k ∧ last_value o secrets k = Some v ∧ c = CSet k v no_meta) ∧
  (∀ k, (∀ k', may k' → b_entry k' ≠ b_entry k) → b_Get (cw_store w') k = b_Get (cw_store w) k) ∧
  (careful o → i_dryRun o = false → checked o destinations (cw_store w) = None →
    w' = w ∧ r = Err ExitProviderError) ∧
  (∀ n k v, r = Ok n → last_value o secrets k = Some v → may k → (∀ k', may k' → b_entry k' = b_entry k → k' = k) →
    ∃ sec, b_Get (cw_store w') k = Ok sec ∧ Value sec = v) ∧
  (∀ k, i_onConflict o = "fail" → i_dryRun o = false → k ∈ destinations → there k → is_ok r = false) ∧
  (careful o → (∀ k, k ∈ destinations → is_ok (b_Get (cw_store w) k) = true → there k) →
    ∀ k s, b_Get (cw_store w) k = Ok s → b_Get (cw_store w') k = Ok s).
Proof.
  cbv zeta. setoid_rewrite careful_spec.
  destruct (import_run_eq path secrets o w) as (keys & m & skipped & Hnd & Hk & Hm & Hrun). rewrite Hrun. clear Hrun.
  intros Hrun. split.
  { intros Hd. unfold bind in Hrun. rewrite loadExisting_off in Hrun by by left.
    pose proof (import_each_dry o m ∅ keys 0 skipped w Hd) as H. by rewrite Hrun in H. }
  exists keys. split; [done|]. split; [done|]. cbv zeta.
  set (there := reported o keys (cw_store w)).
  set (may k := k ∈ keys ∧ i_dryRun o = false ∧ (checks_conflicts o = true → ¬ there k)).
  assert (Hframe : (∀ k, (∀ k', may k' → b_entry k' ≠ b_entry k) → b_Get (cw_store w') k = b_Get (cw_store w) k) →
    checks_conflicts o = true → (∀ k, k ∈ keys → is_ok (b_Get (cw_store w) k) = true → there k) →
    ∀ k s, b_Get (cw_store w) k = Ok s → b_Get (cw_store w') k = Ok s).
  { intros Hsame Hc Hall k s Hs. rewrite Hsame; [done|]. intros k' (Hin & _ & Hno) He. apply (Hno Hc), (Hall k' Hin).
    by rewrite (get_entry _ _ _ He), Hs. }
  destruct (decide (i_dryRun o = false ∧ checks_conflicts o = true ∧ checked o keys (cw_store w) = None)) as [(Hd & Hc & Hn)|Hgo].
  { pose proof (loadExisting_spec o keys w Hd Hc) as Hl. rewrite Hn in Hl. unfold bind in Hrun. rewrite Hl in Hrun.
    injection Hrun as <- <-. split_and!; try done. exists []. split; [by rewrite app_nil_r|set_solver]. }
  assert (∃ ex, loadExisting o keys w = (w, Ok ex) ∧ (∀ k, k ∈ keys → ¬ spared o ex k ↔ may k) ∧
    (i_dryRun o = false → checks_conflicts o = true → ∀ k, there k → k ∈ ex)) as (ex & Hl & Hmay & Hthere).
  { destruct (decide (i_dryRun o = false ∧ checks_conflicts o = true)) as [[Hd Hc]|Hoff].
    - pose proof (loadExisting_spec o keys w Hd Hc) as Hl. destruct (checked o keys (cw_store w)) as [l|] eqn:El; [|tauto].
      exists (key_set l). split; [done|]. unfold may, there, reported, spared, key_set. rewrite El.
      setoid_rewrite elem_of_list_to_set. rewrite Hd, Hc. naive_solver.
    - exists ∅. split; [apply loadExisting_off; destruct (i_dryRun o), (checks_conflicts o); tauto|].
      unfold may, spared. split; [|tauto]. intros k Hin. destruct (i_dryRun o), (checks_conflicts o); naive_solver. }
  unfold bind in Hrun. rewrite Hl in Hrun. pose proof (import_each_fails o m ex keys 0 skipped w) as Hfail.
  rewrite Hrun in Hfail. apply import_each_spec in Hrun as ((new & Hlog & Hnew) & H1 & H2).
  assert (Hsame : ∀ k, (∀ k', may k' → b_entry k' ≠ b_entry k) → b_Get (cw_store w') k = b_Get (cw_store w) k).
  { intros k Hk'. apply H1. intros k' Hin Hns. apply Hk'. by apply Hmay. }
  split_and!; [|done|tauto| | |by apply Hframe].
  - exists new. split; [done|]. intros c Hc. destruct (Hnew c Hc) as (k & Hin & Hns & ->).
    pose proof Hin as [v Hv]%Hk. exists k, v. rewrite Hm, Hv. split; [by apply Hmay|done].
  - intros n k v Hn Hv Hmk Hu. pose proof Hmk as (Hin & _). destruct (H2 n Hn k Hin) as (sec & Hs & Hval).
    + by apply Hmay.
    + intros k' Hin' Hns'. apply Hu. by apply Hmay.
    + exists sec. split; [done|]. by rewrite Hval, Hm, Hv.
  - intros k Hof Hd Hin Hth. assert (Hc : checks_conflicts o = true) by (unfold checks_conflicts; rewrite Hof; done).
    apply (Hfail k Hd Hc); [by rewrite Hof|done|by apply Hthere].
Qed.
End props.

(** * Days *)

(** Up to 106751 days the duration is the days it says; above, the product leaves 64 bits. *)
Theorem parseTTL_days PD days :
  PD (itoa days +:+ "d") = None → (1 ≤ days ≤ max_int64)%Z →
  parseTTL PD (itoa days +:+ "d") = Ok (int64 (int64 (days * 24) * hour)) ∧
  ((days ≤ 106751)%Z → parseTTL PD (itoa days +:+ "d") = Ok (days * 24 * hour)%Z).
Proof.
  intros HP Hd. assert (E : parseTTL PD (itoa days +:+ "d") = Ok (int64 (int64 (days * 24) * hour))).
  { unfold parseTTL. rewrite HP. change "d" with (str1 "d") at 1 2. rewrite last_byte_snoc, drop_last_snoc, ascii_eqb_refl, ParseInt_itoa by lia.
    by rewrite (proj2 (Z.leb_gt days 0)) by lia. }
  split; [exact E|]. intros Hb. rewrite E. unfold int64, hour, second. f_equal.
  assert (Hi : ∀ z, (- 2 ^ 63 ≤ z < 2 ^ 63)%Z → ((z + 2 ^ 63) mod 2 ^ 64 - 2 ^ 63 = z)%Z).
  { intros z Hz. rewrite Z.mod_small by lia. lia. }
  rewrite (Hi (days * 24)%Z) by lia. by rewrite Hi by lia.
Qed.
