(* ===== verification/CommandsLocal.v ===== *)
(** The commands over the local provider: it keeps the laws of a store, whatever becomes of
its saves, so the promises of the commands hold of it; with concrete runs. *)

From S2P Require Import Prelude Provider GoStrings GoEncoding Digest Json Config Dotenv TimeParse LaunchTypes LaunchManifest Effects Generate GenerateProps Commands CommandsProps Keystore Local LocalProps LocalFixture LocalStore.
#[local] Open Scope go_scope.

Section local.
Context {AG : AgeLib} {LL : LegacyLib} {LY : LocalYaml} {MR : MapRange} {SH : SHA256} {SO : SortSlice}.
Context (e : call_env) (Hn : nonces_ok e) (stamp : option string).

Definition as_perr (err : local_error) : perr := match err with LNotFound _ => PNotFound | _ => PFailed end.
Definition local_get (w : local_world) (k : string) : result perr Secret :=
  match Get (lw_p w) k with Ok s => Ok s | Err err => Err (as_perr err) end.
Definition local_result (p : local_world * result local_error unit) : local_world * option perr :=
  (p.1, match p.2 with Ok _ => None | Err err => Some (as_perr err) end).
#[export] Instance local_backend : Backend local_world := {|
  b_entry k := k;
  b_Get := local_get;
  b_List w _ := Ok (local_List (lw_p w));
  b_GetBatch w keys := Ok (GetBatch (lw_p w) keys);
  b_Set k v m w := local_result (local_Set e stamp k v m w);
  b_Delete k w := local_result (Delete e k w);
  b_Rollback _ _ w := (w, as_perr <$> Rollback);
  b_report _ _ w := (w, true);
  b_sync w := (w, true);
|}.

(** A save changes the file, the cached key and nothing of the data. *)
Lemma atomic_write_keeps io path raw w w' r : atomic_write io path raw w = (w', r) → lw_p w' = lw_p w.
Proof.
  destruct r as [[]|err]; intros Hr; [by apply atomic_write_Ok in Hr as [-> _]|].
  assert (∃ q, sv_temp io ≠ Some q) as [q Hq].
  { destruct (decide (sv_temp io = Some "")) as [E|]; [exists "x"; by rewrite E|by exists ""]. }
  by destruct (atomic_write_Err _ _ _ _ _ _ q Hr Hq) as [-> _].
Qed.
Lemma save_keeps w w' r : save e w = (w', r) → data (lw_p w') = data (lw_p w).
Proof using Hn.
  unfold save, bind at 1. destruct (sealed e w) as [w1 [raw|err]] eqn:Es; apply (sealed_any _ _ _ _ Hn) in Es as (_ & Ho & _);
    apply only_key_fields in Ho as (_ & Hd & _); [|by intros [= <- _]].
  erewrite run_bind by done. intros ->%atomic_write_keeps. done.
Qed.
Lemma audit_keeps op ks w w' r : appendAudit e op ks w = (w', r) → lw_p w' = lw_p w.
Proof.
  intros Hr. set (q := base.fresh (list_to_set (trail_paths (lw_p w)) : gset string)).
  destruct (appendAudit_frame _ _ _ _ _ _ q Hr) as [H _]; [|exact H].
  pose proof (is_fresh (list_to_set (trail_paths (lw_p w)) : gset string)) as Hf.
  by rewrite elem_of_list_to_set in Hf.
Qed.
Lemma local_Set_data k v m w :
  data (lw_p (local_Set e stamp k v m w).1) = set_key_value k v (ExpiresAt m) (data (lw_p w)).
Proof using Hn.
  unfold local_Set, upd_p. erewrite run_bind by reflexivity. unfold bind.
  destruct (save e _) as [w1 [[]|err]] eqn:E1; apply save_keeps in E1; [|exact E1].
  destruct (appendAudit _ _ _ w1) as [w2 r] eqn:E2. apply audit_keeps in E2. cbn. rewrite E2. exact E1.
Qed.
#[export] Instance local_laws : BackendLaws local_world.
Proof using Hn.
  split.
  - intros w k k'. cbn. by intros ->.
  - intros w w' k v m k'. cbn [b_Set b_Get b_entry local_backend]. intros Hr ->. revert Hr.
    unfold local_result, local_get. intros Hr. injection Hr as <- _.
    unfold Get. rewrite local_Set_data. unfold set_key_value. cbn. rewrite lookup_insert_eq.
    eexists. split; [done|]. done.
  - intros w w' k v m r k' Hr Hk. cbn [b_Set b_Get local_backend] in *. unfold local_result in Hr. injection Hr as <- _.
    unfold local_get, Get. rewrite local_Set_data. unfold set_key_value, secret_of, expiryFor. cbn.
    rewrite lookup_insert_ne by done. destruct (lf_Secrets _ !! k'); [|done].
    destruct (is_zero _); [done|]. by rewrite lookup_insert_ne.
  - done.
  - done.
Qed.
Lemma local_get_ok w k : is_ok (local_get w k) = true ↔ is_Some (lf_Secrets (data (lw_p w)) !! k).
Proof. unfold local_get, Get. destruct (_ !! k); cbn; split; try done; try (by eexists); by intros []. Qed.
Lemma elem_of_local_keys w k : k ∈ Key <$> local_List (lw_p w) ↔ is_Some (lf_Secrets (data (lw_p w)) !! k).
Proof.
  unfold local_List. rewrite sort_slice_perm, <-list_fmap_compose.
  change (Key ∘ _) with (fst : string * string → string). apply range_map_keys.
Qed.
Lemma elem_of_batch_keys w keys k :
  k ∈ Key <$> GetBatch (lw_p w) keys ↔ k ∈ keys ∧ is_Some (lf_Secrets (data (lw_p w)) !! k).
Proof.
  unfold GetBatch. rewrite list_elem_of_fmap. setoid_rewrite list_elem_of_omap. split.
  - intros (s & -> & k' & Hk & (v & Hv & ->)%fmap_Some). split; [done|by eexists].
  - intros [Hk [v Hv]]. eexists. split; [|exists k; split; [done|by rewrite Hv]]. done.
Qed.
(** The check of an import reports every destination that holds a secret. *)
Lemma local_reported o destinations (w : local_world) k :
  k ∈ destinations → is_ok (b_Get w k) = true → reported o destinations w k.
Proof.
  intros Hin Hk. exists (local_List (lw_p w)). split; [done|]. by apply elem_of_local_keys, local_get_ok.
Qed.
End local.

(** * Concrete runs *)

Section concrete.
#[local] Existing Instance toy_sha.
#[local] Existing Instance local_backend.

Lemma fx_nonces : nonces_ok (fx_env true).
Proof. intros k n Hk. vm_compute in Hk. discriminate. Qed.
(** A store with the key B, and a source of zero bytes. *)
Definition fx_cmd : cmd_world local_world := mkCW fx_w1 [] (zeros 512).
Definition fx_rotate : rotateOptions :=
  mkRotate "hex" 4 "alnum" "" true "" "" true true false false "table" false true true false.
Definition no_duration : string → option Z := λ _, None.
Definition fx_rotated (args : list string) : cmd_world local_world * result Z string :=
  rotate_run (BK := local_backend (fx_env true) (Some "rotate")) no_duration 0 (Ok "") false "" fx_rotate args fx_cmd.
Lemma rotate_exact_witness :
  (fx_rotated ["B"]).2 = Ok ("0000" +:+ str1 LF) ∧
  Value <$> local_get (cw_store (fx_rotated ["B"]).1) "B" = Ok "0000" ∧
  local_get (cw_store (fx_rotated ["B"]).1) "A" = local_get (cw_store fx_cmd) "A".
Proof.
  destruct (rotate_exact (BK := local_backend (fx_env true) (Some "rotate"))
    (BL := local_laws (fx_env true) fx_nonces (Some "rotate"))
    no_duration 0 (Ok "") false "" fx_rotate ["B"] fx_cmd (fx_rotated ["B"]).1 (fx_rotated ["B"]).2 (surjective_pairing _)) as (_ & H).
  destruct (H 0%Z "" eq_refl eq_refl) as (Hother & _).
  split; [vm_compute; reflexivity|]. split; [vm_compute; reflexivity|]. apply Hother. by_decide.
Defined.
(** A key that is not there: nothing is done, to the other key either. *)
Example rotate_missing : fx_rotated ["B"; "NONE"] = (fx_cmd, Err ExitNotFoundError).
Proof. vm_compute. reflexivity. Qed.

(** Over 106751 days the product wraps: a positive number of days may give an expiry in the
past, which the code means to refuse. *)
Example ttl_wraps : parseTTL no_duration "106752d" = Ok (-9223371273709551616)%Z.
Proof. vm_compute. reflexivity. Qed.

(** An import into the store with the key B. *)
Definition fx_secrets : list ImportedSecret := [Build_ImportedSecret "A" "new"; Build_ImportedSecret "B" "new"; Build_ImportedSecret "C" ""].
Definition fx_imported (strategy : string) : cmd_world local_world * result Z (Z * Z) :=
  import_run (BK := local_backend (fx_env true) None) (Ok "") (Ok (Ok fx_secrets)) (mkImport false strategy "") fx_cmd.
Lemma import_safe_witness :
  (fx_imported "skip").2 = Ok (1%Z, 2%Z) ∧ Value <$> local_get (cw_store (fx_imported "skip").1) "B" = Ok "2" ∧
  cw_log (fx_imported "skip").1 = [CSet "A" "new" no_meta].
Proof.
  split; [vm_compute; reflexivity|]. split; [|vm_compute; reflexivity].
  destruct (import_safe (BK := local_backend (fx_env true) None) (BL := local_laws (fx_env true) fx_nonces None)
    "" fx_secrets (mkImport false "skip" "") fx_cmd
    (fx_imported "skip").1 (fx_imported "skip").2 (surjective_pairing _))
    as (_ & destinations & _ & _ & _ & _ & _ & _ & _ & Hkeep).
  destruct (local_get (cw_store fx_cmd) "B") as [s|] eqn:E; [|vm_compute in E; discriminate].
  assert (Hs : local_get (cw_store (fx_imported "skip").1) "B" = Ok s).
  { apply (Hkeep (or_introl eq_refl)); [|exact E]. intros k Hin Hk. exact (local_reported (fx_env true) None _ _ _ k Hin Hk). }
  rewrite Hs. vm_compute in E. injection E as <-. reflexivity.
Defined.
(** A strategy that is none of the three is not refused: it overwrites. *)
Example unknown_strategy_overwrites :
  Value <$> local_get (cw_store (fx_imported "Skip").1) "B" = Ok "new".
Proof. vm_compute. reflexivity. Qed.
(** Under fail, what comes before the conflict is imported all the same. *)
Example fail_imports_before :
  (fx_imported "fail").2 = Err ExitConflictError ∧
  Value <$> local_get (cw_store (fx_imported "fail").1) "A" = Ok "new".
Proof. split; vm_compute; reflexivity. Qed.
End concrete.
