(* ===== verification/Azure.v ===== *)
(** The Azure Key Vault provider (src/internal/provider/azure: azure.go, sanitize.go and
errors.go), over a client of the vault: the mapping of keys to secret names, reading,
writing with its readback, versions and tags.

A pager delivers its pages until one fails.  The deadline of the readback and the content
type of a write are not represented, nor are nil clients. *)

From S2P Require Import Prelude GoStrings Provider Digest GoEncoding GoTime Json TimeParse LaunchManifest Effects Dotenv Config Generate Commands CommandsProps.
#[local] Open Scope go_scope.

(** * Names *)

Definition maxNameLen : nat := 127.
Definition name_rune (r : Z) : bool :=
  ((97 <=? r) && (r <=? 122) || (65 <=? r) && (r <=? 90) || (48 <=? r) && (r <=? 57) || (r =? 45))%Z.
Definition dashed (key : string) : string :=
  str_concat ((λ r, if name_rune r then encode_rune r else "-") <$> runes key).
(** [strings.ReplaceAll(name, "--", "-")], and the loop around it. *)
Fixpoint halve_dashes (s : string) : string :=
  match s with
  | String a (String b t as s') =>
    if (a =c "-") && (b =c "-") then String "-" (halve_dashes t) else String a (halve_dashes s')
  | _ => s
  end.
Fixpoint collapse (fuel : nat) (s : string) : string :=
  match fuel with
  | O => s
  | S fuel => if contains s "--" then collapse fuel (halve_dashes s) else s
  end.
Definition trim (cutset s : string) : string := trim_right cutset (trim_left cutset s).
(** [None]: the name would be empty. *)
Definition sanitizeKey (key : string) : option string :=
  let name := dashed key in
  let name := trim "-" (collapse (String.length name) name) in
  let name := if maxNameLen <? String.length name then trim_right "-" (str_take maxNameLen name) else name in
  if bool_decide (name = "") then None else Some name.

(** FNV-1a over the bytes, and [strconv.ParseUint(s, 16, 64)] on at most 15 of them. *)
Fixpoint fnv_write (h : Z) (s : string) : Z :=
  match s with
  | "" => h
  | String c s => fnv_write ((Z.lxor h (code c) * 1099511628211) mod 2 ^ 64)%Z s
  end.
Definition fnv64a (s : string) : Z := fnv_write 14695981039346656037 s.
Fixpoint hex_number (acc : Z) (s : string) : option Z :=
  match s with
  | "" => Some acc
  | String c s => d ← hex_value c; hex_number (acc * 16 + d)%Z s
  end.
Definition low_63 (z : Z) : Z := Z.land z (2 ^ 63 - 1).

Section azure.
Context {UC : UnicodeCase}.

Definition versionNumber (versionID : string) : Z :=
  let id := to_lower versionID in
  match (if 15 <=? String.length id then hex_number 0 (str_take 15 id) else None) with
  | Some v => low_63 v
  | None => low_63 (fnv64a id)
  end.

(** * The client *)

(** An [*azcore.ResponseError] with its code and status, or another error. *)
Inductive kv_error := KvResponse (code : string) (status : Z) | KvOther.
Abbreviation tags := (gmap string (option string)).
(** A secret as the client delivers it; [kv_ID] is the version in its ID. *)
Record kv_secret := mkKv {
  kv_ID : option string; kv_Value : option string; kv_Created : option time; kv_Updated : option time; kv_Tags : tags }.
(** An entry of a page: the name and the version in its ID, and whether it is managed. *)
Record kv_properties := mkProps { kp_ID : option (string * string); kp_Managed : option bool }.
Record kv_pages := mkPages { pg_pages : list (list (option kv_properties)); pg_error : option kv_error }.
Class KeyVault (W : Type) : Type := {
  GetSecret : W → string → string → result kv_error kv_secret;
  SetSecret : string → string → tags → W → W * option kv_error;
  DeleteSecret : string → W → W * option kv_error;
  list_pager : W → kv_pages;
  versions_pager : W → string → kv_pages;
}.

Inductive az_error :=
| AzNotFound
| AzName (key : string)
| AzClient (op key : string) (e : kv_error)
| AzPartial (p : PartialCommitError).
Definition not_found_code (code : string) : bool := bool_decide (code = "SecretNotFound") || bool_decide (code = "NotFound").
Definition mapError (op key : string) (e : kv_error) : az_error :=
  match e with
  | KvResponse code _ => if not_found_code code then AzNotFound else AzClient op key e
  | KvOther => AzClient op key e
  end.
Definition isNotFound (e : kv_error) : bool :=
  match e with KvResponse code status => not_found_code code || (status =? 404)%Z | KvOther => false end.
Definition setErrorMayHaveCommitted (e : kv_error) : bool :=
  match e with KvResponse _ status => (500 <=? status)%Z | KvOther => true end.

(** * Tags *)

Definition TagExpiresAt : string := "skret-expires-at".
Definition TagDescription : string := "skret-description".
Definition plain_tag (k : string) : bool := negb (bool_decide (k = TagExpiresAt)) && negb (bool_decide (k = TagDescription)).
Definition secretFromResponse (name : string) (s : kv_secret) : Secret := {|
  Key := name; Value := default "" (kv_Value s);
  sec_Version := match kv_ID s with Some id => versionNumber id | None => 0%Z end;
  Meta := {|
    Description := default "" (mjoin (kv_Tags s !! TagDescription));
    Tags := filter (λ kv, plain_tag kv.1 = true) (omap id (kv_Tags s));
    CreatedAt := default 0%Z (kv_Created s); UpdatedAt := default 0%Z (kv_Updated s); CreatedBy := "";
    ExpiresAt := default 0%Z (mjoin (kv_Tags s !! TagExpiresAt) ≫= parse_rfc3339) |} |}.
Definition tagsFromMeta (meta : SecretMeta) : tags :=
  let merged := delete TagExpiresAt (Some <$> Tags meta) in
  let merged := if is_zero (ExpiresAt meta) then merged else <[TagExpiresAt := Some (rfc3339 (ExpiresAt meta))]> merged in
  let merged := delete TagDescription merged in
  if bool_decide (Description meta = "") then merged else <[TagDescription := Some (Description meta)]> merged.
Definition tagsEqual (first second : tags) : bool :=
  (size first =? size second) &&
  forallb (λ '(k, fv), bool_decide (second !! k = Some (fv : option string))) (map_to_list first).

(** * The provider *)

Definition prefixFilter (path : string) : string := trim "/" path.
(** [prefix] is the name filter of the configuration. *)
Definition filterFor (prefix pathPrefix : string) : string :=
  if bool_decide (pathPrefix = "") then prefix else prefixFilter pathPrefix.
Definition listableName (prop : option kv_properties) (filter : string) : option (string * string) :=
  p ← prop; id ← kp_ID p;
  if default false (kp_Managed p) then None
  else if bool_decide (filter ≠ "") && negb (has_prefix id.1 filter) then None
  else Some id.

Context {W : Type} {KV : KeyVault W}.
Abbreviation az := (act W az_error).

Definition client_read {A} (op key : string) (r : result kv_error A) : result az_error A :=
  match r with Ok a => Ok a | Err e => Err (mapError op key e) end.

Definition Get (w : W) (key : string) : result az_error Secret :=
  match sanitizeKey key with
  | None => Err AzNotFound
  | Some name => let! s := client_read "get" key (GetSecret w name "") in Ok (secretFromResponse key s)
  end.
(** The entries of the pages in order, then the error of the pager. *)
Definition entries_of (p : kv_pages) : list (option kv_properties) := concat (pg_pages p).
Definition pager_end (op key : string) (p : kv_pages) : result az_error unit :=
  match pg_error p with Some e => Err (mapError op key e) | None => Ok () end.
Definition resolveVersionNumber (w : W) (name : string) (want : Z) : result az_error string :=
  let p := versions_pager w name in
  let ids := omap (λ prop, prop ≫= λ p, snd <$> kp_ID p) (entries_of p) in
  match List.find (λ id, (versionNumber id =? want)%Z) ids with
  | Some id => Ok id
  | None => let! _ := pager_end "get_version" name p in Err AzNotFound
  end.
Definition with_version (v : Z) (s : Secret) : Secret :=
  {| Key := Key s; Value := Value s; sec_Version := v; Meta := Meta s |}.
Definition GetVersion (w : W) (key : string) (version : Z) : result az_error Secret :=
  match sanitizeKey key with
  | None => Err AzNotFound
  | Some name =>
    if (version <=? 0)%Z then Err AzNotFound
    else
      let! id := resolveVersionNumber w name version in
      let! s := client_read "get_version" key (GetSecret w name id) in
      Ok (with_version version (secretFromResponse key s))
  end.
Definition GetBatch (w : W) (keys : list string) : list Secret :=
  omap (λ key, match Get w key with Ok s => Some s | Err _ => None end) keys.
Fixpoint read_each (read : string * string → result az_error Secret) (l : list (string * string)) : result az_error (list Secret) :=
  match l with
  | [] => Ok []
  | id :: l => let! s := read id in let! rest := read_each read l in Ok (s :: rest)
  end.
Definition listed_names (filter : string) (p : kv_pages) : list (string * string) :=
  omap (λ prop, listableName prop filter) (entries_of p).
Definition List_ (prefix : string) (w : W) (pathPrefix : string) : result az_error (list Secret) :=
  let filter := filterFor prefix pathPrefix in
  let p := list_pager w in
  let! l := read_each (λ '(name, id),
    let! s := client_read "list" name (GetSecret w name id) in Ok (secretFromResponse name s)) (listed_names filter p) in
  let! _ := pager_end "list" filter p in
  Ok l.
Definition ListNames (prefix : string) (w : W) (pathPrefix : string) : result az_error (list string) :=
  let filter := filterFor prefix pathPrefix in
  let p := list_pager w in
  let! _ := pager_end "list" filter p in
  Ok (listed_names filter p).*1.

(** ** Writing *)

Definition put (name value : string) (t : tags) : az (option kv_error) := λ w,
  let '(w, r) := SetSecret name value t w in (w, Ok r).
(** What an ambiguous write came to, by reading back. *)
Definition reconcileSetFailure (key name value : string) (meta : SecretMeta) (preVersion : Z) (cause : kv_error) : az unit :=
  do! read := gets (λ w, GetSecret w name "") in
  match read with
  | Ok (mkKv (Some id) v _ _ t) =>
    let observed := versionNumber id in
    if (observed =? preVersion)%Z then throw (mapError "set" key cause)
    else if bool_decide (v = Some value) && tagsEqual t (tagsFromMeta meta) then ret ()
    else throw (AzPartial (mkPartialCommit "azure" key preVersion "" observed observed TagReconciliationRequired))
  | _ => throw (AzPartial (mkPartialCommit "azure" key preVersion MutationCommitUnknown 0 0 TagReconciliationUnknown))
  end.
Definition pre_version (r : result kv_error kv_secret) (key : string) : result az_error Z :=
  match r with
  | Ok s => Ok (match kv_ID s with Some id => versionNumber id | None => 0%Z end)
  | Err e => if isNotFound e then Ok 0%Z else Err (mapError "set" key e)
  end.
Definition Set_ (key value : string) (meta : SecretMeta) : az unit :=
  match sanitizeKey key with
  | None => throw (AzName key)
  | Some name =>
    do! pre := gets (λ w, GetSecret w name "") in
    do! preVersion := lift (pre_version pre key) in
    do! r := put name value (tagsFromMeta meta) in
    match r with
    | None => ret ()
    | Some e =>
      if negb (setErrorMayHaveCommitted e) then throw (mapError "set" key e)
      else reconcileSetFailure key name value meta preVersion e
    end
  end.
Definition Delete (key : string) : az unit :=
  match sanitizeKey key with
  | None => throw AzNotFound
  | Some name => λ w, let '(w, r) := DeleteSecret name w in
    (w, match r with None => Ok () | Some e => Err (mapError "delete" key e) end)
  end.
(** Oldest first. *)
Definition GetHistory (w : W) (key : string) : result az_error (list Secret) :=
  match sanitizeKey key with
  | None => Err AzNotFound
  | Some name =>
    let p := versions_pager w name in
    let ids := omap (λ prop, prop ≫= kp_ID) (entries_of p) in
    let! l := read_each (λ '(_, id),
      let! s := client_read "history" key (GetSecret w name id) in Ok (secretFromResponse key s)) ids in
    let! _ := pager_end "history" key p in
    Ok (reverse l)
  end.
Definition Rollback (key : string) (version : Z) : az unit :=
  do! history := gets (λ w, GetHistory w key) in
  do! history := lift history in
  match List.find (λ s, (sec_Version s =? version)%Z) history with
  | None => throw AzNotFound
  | Some s => Set_ key (Value s) (Meta s)
  end.
End azure.

(** * The names *)

Definition name_char (c : ascii) : bool := name_rune (code c).
Lemma name_rune_range r : name_rune r = true → (0 ≤ r < 128)%Z.
Proof. unfold name_rune. rewrite !orb_true_iff, !andb_true_iff, !Z.leb_le, Z.eqb_eq. lia. Qed.
Lemma name_char_ascii c : name_char c = true → is_ascii c = true.
Proof. intros H%name_rune_range. apply Z.ltb_lt. lia. Qed.
(** The names of the vault, as far as skret makes them. *)
Record valid_name (n : string) : Prop := {
  vn_some : n ≠ "";
  vn_short : String.length n ≤ maxNameLen;
  vn_chars : str_forall name_char n = true;
  vn_single : contains n "--" = false;
  vn_first : has_prefix n "-" = false;
  vn_last : last_byte n ≠ Some "-"%char;
}.

Lemma contains_part a b c sub : contains (a +:+ b +:+ c) sub = false → contains b sub = false.
Proof.
  unfold contains. rewrite !bool_decide_eq_false. intros H [n Hn]. apply H.
  destruct (index_Some _ _ _ Hn) as (post & E & _). rewrite E, !str_app_assoc, <-(str_app_assoc a). apply index_occurs.
Qed.
Lemma contains_dashes a s :
  contains (String a s) "--" = (a =c "-") && has_prefix s "-" || contains s "--".
Proof.
  unfold contains. cbn [index]. change (has_prefix (String a s) "--") with (("-" =c a) && has_prefix s "-").
  rewrite Ascii.eqb_sym. destruct ((a =c "-") && has_prefix s "-"); cbn [orb].
  - apply bool_decide_true. by eexists.
  - apply bool_decide_ext. by rewrite fmap_is_Some.
Qed.
Lemma dashed_chars key : str_forall name_char (dashed key) = true.
Proof.
  unfold dashed. induction (runes key) as [|r l IH]; [done|]. cbn [fmap list_fmap map str_concat foldr].
  rewrite str_forall_app. apply andb_true_iff. split; [|exact IH].
  destruct (name_rune r) eqn:E; [|done]. apply name_rune_range in E as Hr.
  rewrite <-(code_byte_of r) by lia. rewrite encode_rune_code by (unfold is_ascii; rewrite code_byte_of by lia; apply Z.ltb_lt; lia).
  cbn. unfold name_char. by rewrite code_byte_of, E by lia.
Qed.
Lemma dashed_name s : str_forall name_char s = true → dashed s = s.
Proof.
  intros Hs. unfold dashed, runes, runes_at.
  rewrite runes_go_ascii by (eapply str_forall_impl; [|exact Hs]; apply name_char_ascii).
  induction s as [|c s IH]; [done|]. cbn [str_forall] in Hs. apply andb_true_iff in Hs as [Hc Hs].
  cbn [String.list_ascii_of_string fmap list_fmap map str_concat foldr].
  change (name_rune (code c)) with (name_char c). rewrite Hc, encode_rune_code by by apply name_char_ascii.
  unfold str1. rewrite str_cons_app, str_nil_app. f_equal. by apply IH.
Qed.

(** [ReplaceAll] keeps the characters, and shortens what has two dashes in a row. *)
Lemma halve_ind (P : string → Prop) :
  P "" → (∀ c, P (str1 c)) → (∀ a b t, P t → P (String b t) → P (String a (String b t))) → ∀ s, P s.
Proof.
  intros H0 H1 H2 s. assert (P s ∧ ∀ c, P (String c s)) as [? _]; [|done].
  induction s as [|c s [IH IHc]]; [split; [done|exact H1]|]. split; [apply IHc|]. intros a. by apply H2.
Qed.
Lemma halve_chars s : str_forall name_char s = true → str_forall name_char (halve_dashes s) = true.
Proof.
  induction s as [|c|a b t IH1 IH2] using halve_ind; [done|done|].
  change (halve_dashes (String a (String b t))) with
    (if (a =c "-") && (b =c "-") then String "-" (halve_dashes t) else String a (halve_dashes (String b t))).
  intros H. cbn [str_forall] in H. split_bools. destruct (_ && _); cbn [str_forall].
  - by rewrite IH1 by done.
  - rewrite IH2 by (cbn [str_forall]; by apply andb_true_iff). by rewrite andb_true_r.
Qed.
Lemma halve_length s :
  String.length (halve_dashes s) ≤ String.length s ∧
  (contains s "--" = true → String.length (halve_dashes s) < String.length s).
Proof.
  induction s as [|c|a b t [L1 S1] [L2 S2]] using halve_ind.
  - split; [done|]. vm_compute. discriminate.
  - split; [done|]. unfold str1. rewrite contains_dashes. cbn [has_prefix]. rewrite andb_false_r. vm_compute. discriminate.
  - change (halve_dashes (String a (String b t))) with
      (if (a =c "-") && (b =c "-") then String "-" (halve_dashes t) else String a (halve_dashes (String b t))).
    rewrite contains_dashes. replace (has_prefix (String b t) "-") with (b =c "-").
    2: { cbn [has_prefix]. by rewrite andb_true_r, Ascii.eqb_sym. }
    destruct ((a =c "-") && (b =c "-")); cbn [String.length orb] in *; [lia|]. split; [lia|]. intros H%S2. lia.
Qed.
Lemma collapse_chars n s : str_forall name_char s = true → str_forall name_char (collapse n s) = true.
Proof.
  revert s. induction n as [|n IH]; intros s Hs; cbn [collapse]; [done|]. destruct (contains s "--"); [|done].
  by apply IH, halve_chars.
Qed.
(** The loop ends within as many rounds as there are characters. *)
Lemma collapse_ends n s : String.length s ≤ n → contains (collapse n s) "--" = false.
Proof.
  revert s. induction n as [|n IH]; intros s Hn; cbn [collapse].
  - destruct s; [|cbn in Hn; lia]. by vm_compute.
  - destruct (contains s "--") eqn:E; [|done]. apply IH. apply halve_length in E. lia.
Qed.
Lemma collapse_done n s : contains s "--" = false → collapse n s = s.
Proof. destruct n; cbn [collapse]; [done|]. by intros ->. Qed.

Lemma dash_byte c : has_byte c "-" = (c =c "-").
Proof. by rewrite has_byte_cons, orb_false_r. Qed.
Lemma trim_left_spec s : (∃ pre, s = pre +:+ trim_left "-" s) ∧ has_prefix (trim_left "-" s) "-" = false.
Proof.
  induction s as [|c s [[pre E] H]]; [by split; [exists ""|]|]. cbn [trim_left]. rewrite dash_byte.
  destruct (c =c "-") eqn:Ec.
  - split; [|done]. exists (String c pre). rewrite str_cons_app. congruence.
  - split; [by exists ""|]. cbn [has_prefix]. by rewrite Ascii.eqb_sym, Ec.
Qed.
Lemma trim_right_spec s : (∃ post, s = trim_right "-" s +:+ post) ∧ last_byte (trim_right "-" s) ≠ Some "-"%char.
Proof.
  induction s as [|c s [[post E] H]]; [by split; [exists ""|]|]. cbn [trim_right].
  destruct (trim_right "-" s) as [|d t] eqn:Et.
  - rewrite dash_byte. destruct (c =c "-") eqn:Ec; [by split; [exists (String c s)|]|]. split; [by exists s|].
    intros [= ->]. by rewrite ascii_eqb_refl in Ec.
  - split; [exists post; rewrite str_cons_app; congruence|]. exact H.
Qed.
Lemma trim_left_id s : has_prefix s "-" = false → trim_left "-" s = s.
Proof.
  destruct s as [|c s]; [done|]. cbn [has_prefix trim_left]. rewrite dash_byte, andb_true_r, Ascii.eqb_sym. by intros ->.
Qed.
Lemma trim_right_id s : last_byte s ≠ Some "-"%char → trim_right "-" s = s.
Proof.
  induction s as [|c s IH]; [done|]. intros H. cbn [trim_right]. destruct s as [|d s].
  - cbn [trim_right]. rewrite dash_byte. destruct (c =c "-") eqn:E; [|done]. apply ascii_eqb_true in E as ->. by destruct H.
  - by rewrite IH.
Qed.
Lemma prefix_first s post : has_prefix (s +:+ post) "-" = false → has_prefix s "-" = false.
Proof. destruct s; [done|]. done. Qed.

(** What [sanitizeKey] gives is a valid name, and a valid name is its own: reading a name
that was listed reads that secret. *)
Theorem sanitizeKey_valid key n : sanitizeKey key = Some n → valid_name n ∧ sanitizeKey n = Some n.
Proof.
  assert (Hfix : ∀ n, valid_name n → sanitizeKey n = Some n).
  { intros m [H1 H2 H3 H4 H5 H6]. unfold sanitizeKey. rewrite dashed_name, collapse_done by done.
    unfold trim. rewrite trim_left_id, trim_right_id by done. rewrite (proj2 (Nat.ltb_ge _ _)) by done.
    by rewrite bool_decide_false. }
  intros H. assert (Hv : valid_name n); [|auto]. revert H. unfold sanitizeKey.
  set (c := collapse _ (dashed key)).
  assert (Hc : str_forall name_char c = true) by apply collapse_chars, dashed_chars.
  assert (Hd : contains c "--" = false) by by apply collapse_ends.
  clearbody c. unfold trim. destruct (trim_left_spec c) as [[pre E1] F1]. set (l := trim_left "-" c) in *.
  destruct (trim_right_spec l) as [[post E2] L2]. set (t := trim_right "-" l) in *.
  set (n' := if maxNameLen <? String.length t then trim_right "-" (str_take maxNameLen t) else t).
  case_bool_decide as Hne; [done|]. intros [= <-].
  assert ((∃ rest, c = pre +:+ n' +:+ rest) ∧ last_byte n' ≠ Some "-"%char ∧ String.length n' ≤ maxNameLen) as [[rest E] [Hl Hlen]].
  { unfold n'. destruct (Nat.ltb_spec maxNameLen (String.length t)).
    - destruct (trim_right_spec (str_take maxNameLen t)) as [[p Ep] Lp]. split; [|split; [done|]].
      + exists (p +:+ str_drop maxNameLen t +:+ post). rewrite E1, E2 at 1. f_equal.
        rewrite <-!str_app_assoc, <-Ep. by rewrite str_take_drop.
      + apply (f_equal String.length) in Ep. rewrite str_length_app, str_take_length_min in Ep. lia.
    - split; [|done]. exists post. by rewrite E1, E2 at 1. }
  assert (Hf : has_prefix n' "-" = false).
  { apply (prefix_first _ rest). rewrite E1 in E. apply (f_equal (str_drop (String.length pre))) in E.
    rewrite !str_drop_app in E. by rewrite <-E. }
  split; [done|done| |apply (contains_part pre _ rest); by rewrite <-E|done|done].
  rewrite E, !str_forall_app in Hc. by split_bools.
Qed.
(** Keys that differ only in what the mapping loses are one secret. *)
Example shared_entry : sanitizeKey "DB_URL" = Some "DB-URL" ∧ sanitizeKey "/DB__URL/" = Some "DB-URL".
Proof. by vm_compute. Qed.

(** A path of several segments lists nothing: its slashes stay in the filter, and no name of
the vault has one. *)
Theorem nested_path_lists_nothing prefix path p :
  contains (prefixFilter path) "/" = true →
  (∀ q id, Some q ∈ entries_of p → kp_ID q = Some id → valid_name id.1) →
  listed_names (filterFor prefix path) p = [].
Proof.
  intros Hc Hv. assert (Hf : filterFor prefix path = prefixFilter path) by (unfold filterFor; by case_bool_decide; subst).
  assert (Hp : ∀ n, str_forall name_char n = true → has_prefix n (prefixFilter path) = false).
  { intros n Hn. apply not_true_is_false. intros Hpre. apply has_prefix_spec in Hpre as [rest ->].
    rewrite str_forall_app in Hn. apply andb_true_iff in Hn as [Hn _]. revert Hc. unfold contains.
    rewrite bool_decide_eq_true. intros [k Hk]. destruct (index_Some _ _ _ Hk) as (post & E & _).
    rewrite E, !str_forall_app in Hn. split_bools. done. }
  unfold listed_names. rewrite Hf. induction (entries_of p) as [|x l IH]; [done|]. cbn [omap list_omap].
  assert (listableName x (prefixFilter path) = None) as ->.
  { unfold listableName. destruct x as [q|]; [|done]. cbn. destruct (kp_ID q) as [id|] eqn:Ei; [|done]. cbn.
    destruct (default false (kp_Managed q)); [done|]. rewrite (Hp id.1) by (eapply (Hv q); [by left|done]).
    rewrite bool_decide_true; [done|]. by destruct (prefixFilter path). }
  apply IH. intros q id Hq. apply Hv. by right.
Qed.
Example nested_path : prefixFilter "/myapp/prod" = "myapp/prod" ∧ sanitizeKey "/myapp/prod/KEY" = Some "myapp-prod-KEY".
Proof. by vm_compute. Qed.

(** * Versions and tags *)

Lemma versionNumber_range `{UC : UnicodeCase} id : (0 ≤ versionNumber id < 2 ^ 63)%Z.
Proof.
  assert (H : ∀ z, (0 ≤ low_63 z < 2 ^ 63)%Z).
  { intros z. unfold low_63. change (2 ^ 63 - 1)%Z with (Z.ones 63). rewrite Z.land_ones by lia. apply Z.mod_pos_bound. lia. }
  unfold versionNumber. destruct (if 15 <=? _ then hex_number _ _ else None); apply H.
Qed.
Lemma tagsEqual_spec (a b : gmap string (option string)) : tagsEqual a b = true ↔ a = b.
Proof.
  unfold tagsEqual. rewrite andb_true_iff, Nat.eqb_eq, forallb_forall. split.
  - intros [Hs Hsub]. assert (H : a ⊆ b).
    { apply map_subseteq_spec. intros k v Hk. specialize (Hsub (k, v)).
      apply bool_decide_eq_true in Hsub; [done|]. by apply list_elem_of_In, elem_of_map_to_list. }
    apply (map_subseteq_size_eq _ _ H). lia.
  - intros ->. split; [done|]. intros [k v] Hin. apply list_elem_of_In, elem_of_map_to_list in Hin.
    by apply bool_decide_eq_true.
Qed.
Lemma filter_plain (m : gmap string string) k :
  filter (λ kv, plain_tag kv.1 = true) m !! k = if plain_tag k then m !! k else None.
Proof.
  rewrite map_lookup_filter. destruct (plain_tag k) eqn:E; destruct (m !! k); try done; simpl.
  - by rewrite option_guard_True.
  - rewrite option_guard_False; [done|]. simpl. by rewrite E.
Qed.
(** What the tags of a write say is what a read of them gives: the description, the expiry
to the second, and the tags that are not skret's own. *)
Theorem meta_roundtrip `{UC : UnicodeCase} key id value created updated meta :
  is_zero (ExpiresAt meta) = true ∨ json_time_ok (ExpiresAt meta) = true →
  let s := secretFromResponse key (mkKv id (Some value) created updated (tagsFromMeta meta)) in
  Value s = value ∧ Description (Meta s) = Description meta ∧
  ExpiresAt (Meta s) = (ExpiresAt meta / second * second)%Z ∧
  Tags (Meta s) = filter (λ kv, plain_tag kv.1 = true) (Tags meta).
Proof.
  intros Ht s. split; [done|].
  assert (Hd : tagsFromMeta meta !! TagDescription = if bool_decide (Description meta = "") then None else Some (Some (Description meta))).
  { unfold tagsFromMeta. case_bool_decide; [apply lookup_delete_eq|apply lookup_insert_eq]. }
  assert (He : tagsFromMeta meta !! TagExpiresAt = if is_zero (ExpiresAt meta) then None else Some (Some (rfc3339 (ExpiresAt meta)))).
  { unfold tagsFromMeta. case_bool_decide; [|rewrite lookup_insert_ne by done]; rewrite lookup_delete_ne by done;
      (destruct (is_zero _); [apply lookup_delete_eq|apply lookup_insert_eq]). }
  split_and!; cbn [s secretFromResponse Meta Description Tags ExpiresAt kv_Tags].
  - rewrite Hd. by case_bool_decide.
  - rewrite He. destruct (is_zero (ExpiresAt meta)) eqn:Ez.
    + unfold is_zero in Ez. apply Z.eqb_eq in Ez. by rewrite Ez.
    + destruct Ht as [?|Ht]; [done|]. cbn [mjoin option_join mbind option_bind].
      rewrite parse_rfc3339_format by done. done.
  - apply map_eq. intros k. rewrite !filter_plain, lookup_omap. destruct (plain_tag k) eqn:Ep; [|done].
    unfold plain_tag in Ep. split_bools.
    assert (Hk : tagsFromMeta meta !! k = Some <$> Tags meta !! k).
    { unfold tagsFromMeta. case_bool_decide; [|rewrite lookup_insert_ne by congruence];
        rewrite lookup_delete_ne by congruence; (destruct (is_zero _); [|rewrite lookup_insert_ne by congruence]);
        by rewrite lookup_delete_ne, lookup_fmap by congruence. }
    rewrite Hk. by destruct (Tags meta !! k).
Qed.

(** * Writing *)

Section writing.
Context {UC : UnicodeCase} {W : Type} {KV : KeyVault W}.

(** The outcome of a write is what became of it.  At most one PUT is made.  Success means
that it was acknowledged, or that a later version with the value and the tags asked for
was read back; an error of the vault means that nothing was written or that no later
version exists; anything else is reported as a partial commit. *)
Theorem Set_outcome key value meta w w' r :
  Set_ key value meta w = (w', r) →
  match sanitizeKey key with
  | None => w' = w ∧ r = Err (AzName key)
  | Some name =>
    (w' = w ∧ is_ok r = false) ∨
    ∃ answer pre, SetSecret name value (tagsFromMeta meta) w = (w', answer) ∧ pre_version (GetSecret w name "") key = Ok pre ∧
    match answer with
    | None => r = Ok ()
    | Some e =>
      if setErrorMayHaveCommitted e then
        match GetSecret w' name "" with
        | Ok (mkKv (Some id) v _ _ t) =>
          if (versionNumber id =? pre)%Z then r = Err (mapError "set" key e)
          else r = Ok () ∧ v = Some value ∧ t = tagsFromMeta meta ∨
            (∃ p, r = Err (AzPartial p) ∧ pc_ObservedVersion p = versionNumber id) ∧ ¬ (v = Some value ∧ t = tagsFromMeta meta)
        | _ => ∃ p, r = Err (AzPartial p) ∧ pc_CommitState p = MutationCommitUnknown
        end
      else r = Err (mapError "set" key e)
    end
  end.
Proof.
  unfold Set_. destruct (sanitizeKey key) as [name|]; [|by intros [= <- <-]].
  unfold bind at 1, gets at 1. unfold bind at 1, lift.
  destruct (pre_version _ key) as [pre|e] eqn:Ep; [|intros [= <- <-]; by left].
  unfold bind, put. destruct (SetSecret name value _ w) as [w1 answer] eqn:Es. intros H. right. exists answer, pre.
  destruct answer as [e|]; [|by injection H as <- <-].
  destruct (setErrorMayHaveCommitted e); cbn [negb] in H; [|by injection H as <- <-].
  unfold reconcileSetFailure, bind, gets in H.
  destruct (GetSecret w1 name "") as [[[id|] v c u t]|e'] eqn:Eg.
  2,3: injection H as <- <-; rewrite Eg; split_and!; try done; by eexists.
  destruct (versionNumber id =? pre)%Z eqn:Ev.
  { injection H as <- <-. rewrite Eg, Ev. done. }
  destruct (bool_decide (v = Some value) && tagsEqual t (tagsFromMeta meta)) eqn:Eb; injection H as <- <-; rewrite Eg, Ev; (split_and!; [done|done|]).
  - left. apply andb_true_iff in Eb as [Hv%bool_decide_eq_true Ht%tagsEqual_spec]. done.
  - right. split; [by eexists|]. intros [-> Ht]. apply andb_false_iff in Eb as [Eb|Eb].
    + by apply bool_decide_eq_false in Eb.
    + by rewrite (proj2 (tagsEqual_spec _ _) Ht) in Eb.
Qed.
End writing.

(** * A store for the commands *)

(** What the documentation of the vault says of one client at work: a write that is
acknowledged is read back, and a call on one name changes no other. *)
Class VaultLaws (W : Type) {KV : KeyVault W} : Prop := {
  put_get (w w' : W) name v t : SetSecret name v t w = (w', None) → ∃ s, GetSecret w' name "" = Ok s ∧ kv_Value s = Some v;
  put_other (w w' : W) name v t r name' : SetSecret name v t w = (w', r) → name' ≠ name → GetSecret w' name' "" = GetSecret w name' "";
}.

Section backend.
Context {UC : UnicodeCase} {W : Type} {KV : KeyVault W} {VL : VaultLaws W} (prefix : string).
Definition az_perr (e : az_error) : perr := match e with AzNotFound => PNotFound | _ => PFailed end.
Definition as_perr {A} (r : result az_error A) : result perr A := match r with Ok a => Ok a | Err e => Err (az_perr e) end.
Definition done_perr (x : W * result az_error unit) : W * option perr :=
  (x.1, match x.2 with Ok _ => None | Err e => Some (az_perr e) end).
#[export] Instance azure_backend : Backend W := {|
  b_entry key := default "" (sanitizeKey key);
  b_Get w key := as_perr (Get w key);
  b_List w p := as_perr (List_ prefix w p);
  b_GetBatch w keys := Ok (GetBatch w keys);
  b_Set key v m w := done_perr (Set_ key v m w);
  b_Delete key w := done_perr (Delete key w);
  b_Rollback key v w := done_perr (Rollback key v w);
  b_report _ _ w := (w, true);
  b_sync w := (w, true);
|}.
Lemma sanitizeKey_some key n : sanitizeKey key = Some n → n ≠ "".
Proof. intros [H _]%sanitizeKey_valid. apply H. Qed.
(** The laws of a store hold by entry: what the mapping loses is accounted for. *)
#[export] Instance azure_laws : BackendLaws W.
Proof.
  split.
  - intros w k k'. cbn. unfold Get.
    destruct (sanitizeKey k) as [n|] eqn:E, (sanitizeKey k') as [n'|] eqn:E'; cbn; intros H; subst; try done.
    + unfold client_read. by destruct (GetSecret w n "").
    + by apply sanitizeKey_some in E.
    + by apply sanitizeKey_some in E'.
  - intros w w' k v m k'. cbn. unfold done_perr. intros Hr He.
    destruct (Set_ k v m w) as [w1 r] eqn:Es. cbn in Hr. injection Hr as <- Hn.
    destruct r as [[]|e]; [|done]. apply Set_outcome in Es. destruct (sanitizeKey k) as [n|] eqn:Ek; [|by destruct Es].
    destruct (sanitizeKey k') as [n'|] eqn:Ek'; cbn in He; [subst n'|by apply sanitizeKey_some in Ek; subst].
    unfold Get. rewrite Ek'.
    assert (Hg : ∃ s, GetSecret w1 n "" = Ok s ∧ kv_Value s = Some v).
    { destruct Es as [[_ ?]|(answer & pre & Hp & _ & Hr)]; [done|].
      destruct answer as [e|]; [|by eapply put_get].
      destruct (setErrorMayHaveCommitted e); [|done].
      destruct (GetSecret w1 n "") as [[[id|] v' c u t]|e'] eqn:Eg.
      2,3: by destruct Hr as (? & ? & _).
      destruct (_ =? _)%Z; [done|]. destruct Hr as [(_ & Hv & _)|[(? & ? & _) _]]; [|done]. eexists. split; [done|exact Hv]. }
    destruct Hg as (s & -> & Hv). eexists. split; [done|]. cbn. by rewrite Hv.
  - intros w w' k v m r k'. cbn. unfold done_perr. intros Hr He.
    destruct (Set_ k v m w) as [w1 r1] eqn:Es. cbn in Hr. injection Hr as <- _. apply Set_outcome in Es.
    destruct (sanitizeKey k) as [n|] eqn:Ek; [|by destruct Es as [-> _]].
    destruct Es as [[-> _]|(answer & pre & Hp & _)]; [done|].
    unfold Get. destruct (sanitizeKey k') as [n'|] eqn:Ek'; [|done]. cbn in He. by rewrite (put_other _ _ _ _ _ _ n' Hp He).
  - done.
  - done.
Qed.
End backend.

(** * An import over a secret that the check does not see *)

Section concrete.
(** A vault in memory. *)
#[local] Instance toy_vault : KeyVault (gmap string kv_secret) := {|
  GetSecret w name _ := match w !! name with Some s => Ok s | None => Err (KvResponse "SecretNotFound" 404) end;
  SetSecret name v t w := (<[name := mkKv (Some "2") (Some v) None None t]> w, None);
  DeleteSecret name w := (delete name w, None);
  list_pager w := mkPages [(λ x, Some (mkProps (Some (x.1, "")) None)) <$> map_to_list w] None;
  versions_pager w name := mkPages [] None |}.
#[local] Instance toy_vault_laws : VaultLaws (gmap string kv_secret).
Proof.
  split; cbn.
  - intros w w' name v t [= <-]. eexists. by rewrite lookup_insert_eq.
  - intros w w' name v t r name' [= <- _] Hne. by rewrite lookup_insert_ne.
Qed.
#[local] Instance toy_backend : Backend (gmap string kv_secret) := azure_backend "".
Definition fx_vault : gmap string kv_secret := {["DB-URL" := mkKv (Some "1") (Some "old") None None ∅]}.
Definition fx_import (key : string) : cmd_world (gmap string kv_secret) * result Z (Z * Z) :=
  import_run (Ok "") (Ok (Ok [Build_ImportedSecret key "new"])) (mkImport false "skip" "") (mkCW fx_vault [] "").
(** The list names the secret as the vault does, so an import of [DB_URL] under skip does not
find it there and overwrites it; under the vault's own name it is kept. *)
Example skip_overwrites :
  Value <$> Get fx_vault "DB_URL" = Ok "old" ∧
  (fx_import "DB_URL").2 = Ok (1%Z, 0%Z) ∧ Value <$> Get (cw_store (fx_import "DB_URL").1) "DB_URL" = Ok "new" ∧
  (fx_import "DB-URL").2 = Ok (0%Z, 1%Z) ∧ Value <$> Get (cw_store (fx_import "DB-URL").1) "DB_URL" = Ok "old".
Proof. vm_compute. repeat split. Qed.
End concrete.
