(* ===== verification/PlanServer.v ===== *)
(** The planner of [sync plan-server] (src/internal/cli/sync_plan_server.go): the strict
decoding of a request, the check of its fields, the plan with its digests, and the HTTP
handler around them.

[encoding/json] is an interface, with the encoding as in Json and the tokens as in
SyncStateCmd; listening, the transport and the timer of [http.TimeoutHandler] are outside:
a request tells what they did.

The planner's check of the fields is exact, it serves exactly the canonical form of the
valid requests, and it says nothing of the others. *)

From S2P Require Import Prelude GoStrings Digest GoEncoding Json LaunchTypes SyncStateCmd SyncStateProps.
#[local] Open Scope go_scope.

(** * Data *)

Definition planSchemaVersion : string := "skret-plan/v1".
Definition defaultPlanMaxBodyBytes : Z := Z.shiftl 1 20.
Definition maxPlanMaxBodyBytes : Z := Z.shiftl 1 20.
Definition maxPlanStringBytes : nat := 256.
Definition maxPlanEntries : nat := 128.
Definition maxPlanJSONDepth : nat := 32.
Definition maxPlanObjectKeys : nat := 128.

Record SyncPlanSelector := mkSelector { sel_Name : string; sel_Path : string }.
Record SyncPlanRule := mkRule { rule_Target : string; rule_Action : string }.
Record SyncPlanRequest := mkPlan {
  pr_SchemaVersion : string; pr_OperationID : string; pr_Namespace : string; pr_Environment : string;
  pr_Selectors : slice SyncPlanSelector; pr_Rules : slice SyncPlanRule }.
Record SyncPlanResponse := mkPlanResponse {
  ps_Request : SyncPlanRequest; ps_PayloadSHA256 : string; ps_PlanSHA256 : string }.

Definition json_selector (s : SyncPlanSelector) : string :=
  "{" +:+ field "name" (sel_Name s) ("," +:+ field "path" (sel_Path s) "}").
#[export] Program Instance json_of_selector : Json SyncPlanSelector := {|
  encode := json_selector; wf s := wf (sel_Name s) ∧ wf (sel_Path s) |}.
Next Obligation. intros s _. unfold json_selector. by eexists _, _. Qed.
Next Obligation. record_cut json_selector. Qed.
Definition json_rule (r : SyncPlanRule) : string :=
  "{" +:+ field "target" (rule_Target r) ("," +:+ field "action" (rule_Action r) "}").
#[export] Program Instance json_of_rule : Json SyncPlanRule := {|
  encode := json_rule; wf r := wf (rule_Target r) ∧ wf (rule_Action r) |}.
Next Obligation. intros s _. unfold json_rule. by eexists _, _. Qed.
Next Obligation. record_cut json_rule. Qed.

(** The members of a request; the response has them first. *)
Definition plan_members (p : SyncPlanRequest) (rest : string) : string :=
  field "schema_version" (pr_SchemaVersion p) ("," +:+ field "operation_id" (pr_OperationID p) ("," +:+
  field "namespace" (pr_Namespace p) ("," +:+ field "environment" (pr_Environment p) ("," +:+
  field "selectors" (pr_Selectors p) ("," +:+ field "rules" (pr_Rules p) rest))))).
Definition json_plan (p : SyncPlanRequest) : string := "{" +:+ plan_members p "}".
#[export] Program Instance json_of_plan : Json SyncPlanRequest := {|
  encode := json_plan;
  wf p := wf (pr_SchemaVersion p) ∧ wf (pr_OperationID p) ∧ wf (pr_Namespace p) ∧ wf (pr_Environment p) ∧
    wf (pr_Selectors p) ∧ wf (pr_Rules p) |}.
Next Obligation. intros p _. unfold json_plan. by eexists _, _. Qed.
Next Obligation. unfold json_plan, plan_members. record_cut json_plan. Qed.
Definition json_response (r : SyncPlanResponse) : string :=
  "{" +:+ plan_members (ps_Request r) ("," +:+ field "payload_sha256" (ps_PayloadSHA256 r)
    ("," +:+ field "plan_sha256" (ps_PlanSHA256 r) "}")).

(** * Repeated fields *)

(** A call on the decoder that answers with the tokens that are left, or refuses the
document; the outer [None]: the fuel ran out.  [More] is false before a closing delimiter.
Where the tokens end early, the code fails on the next call of [Token], whatever [More] says. *)
Definition closes (c : ascii) : bool := (c =c "}") || (c =c "]").
Definition scanned : Type := option (option (list json_token)).
Definition refused : scanned := Some None.
Fixpoint object_loop (fuel depth : nat) (seen : gset string) (toks : list json_token) : scanned :=
  match fuel with
  | O => None
  | S fuel =>
    match toks with
    | TDelim c :: toks => if c =c "}" then Some (Some toks) else refused
    | TString key :: toks =>
      if bool_decide (key ∈ seen) || (maxPlanObjectKeys <=? size seen) then refused
      else
        match toks with
        | value :: toks =>
          match scanPlanValue fuel value (S depth) toks with
          | Some (Some toks) => object_loop fuel depth ({[key]} ∪ seen) toks
          | r => r
          end
        | [] => refused
        end
    | _ => refused
    end
  end
with array_loop (fuel depth : nat) (toks : list json_token) : scanned :=
  match fuel with
  | O => None
  | S fuel =>
    match toks with
    | value :: toks' =>
      if (match value with TDelim c => closes c | _ => false end) then
        if (match value with TDelim c => c =c "]" | _ => false end) then Some (Some toks') else refused
      else
        match scanPlanValue fuel value (S depth) toks' with
        | Some (Some toks) => array_loop fuel depth toks
        | r => r
        end
    | [] => refused
    end
  end
with scanPlanValue (fuel : nat) (value : json_token) (depth : nat) (toks : list json_token) : scanned :=
  match fuel with
  | O => None
  | S fuel =>
    match value with
    | TDelim c =>
      if c =c "{" then if maxPlanJSONDepth <? depth then refused else object_loop fuel depth ∅ toks
      else if c =c "[" then if maxPlanJSONDepth <? depth then refused else array_loop fuel depth toks
      else refused
    | _ => Some (Some toks)
    end
  end.
(** [scanPlanObject] and [scanPlanArray] check the depth before their loops. *)
Definition scanPlanObject (fuel depth : nat) (toks : list json_token) : scanned :=
  if maxPlanJSONDepth <? depth then refused else object_loop fuel depth ∅ toks.
Definition scanPlanArray (fuel depth : nat) (toks : list json_token) : scanned :=
  if maxPlanJSONDepth <? depth then refused else array_loop fuel depth toks.
(** Two calls for each token. *)
Definition scan_fuel (toks : list json_token) : nat := 2 * length toks + 1.
(** Whether the document is refused; [ended]: the tokens end with the input. *)
Definition reject_tokens (toks : list json_token) (ended : bool) : bool :=
  match toks with
  | TDelim c :: toks =>
    if c =c "{" then
      match scanPlanObject (scan_fuel toks) 1 toks with
      | Some (Some []) => negb ended
      | _ => true
      end
    else true
  | _ => true
  end.

(** * Requests *)

(** Reading into the request with unknown fields refused: the value, and whether the input
ends after it. *)
Class PlanJson : Type := {
  plan_tokens : string → list json_token * bool;
  decode_plan : string → option (SyncPlanRequest * bool);
}.

Section plan.
Context {UC : UnicodeCase} {SH : SHA256} {PJ : PlanJson}.

Definition rejectDuplicatePlanFields (raw : string) : bool :=
  let '(toks, ended) := plan_tokens raw in reject_tokens toks ended.

Definition validPlanText (value : string) : bool :=
  negb (bool_decide (value = "") || (maxPlanStringBytes <? String.length value) || negb (bool_decide (trim_space value = value))) &&
  forallb (λ r, negb ((r <? 32) || (r =? 127))%Z) (runes value).
Definition validSyncPlanRequest (p : SyncPlanRequest) : bool :=
  if negb (bool_decide (pr_SchemaVersion p = planSchemaVersion)) || negb (validPlanText (pr_OperationID p)) ||
    negb (validPlanText (pr_Namespace p)) || negb (validPlanText (pr_Environment p)) then false
  else
    match pr_Selectors p, pr_Rules p with
    | Some selectors, Some rules =>
      negb ((maxPlanEntries <? length selectors) || (maxPlanEntries <? length rules)) &&
      forallb (λ s, validPlanText (sel_Name s) && validPlanText (sel_Path s)) selectors &&
      forallb (λ r, validPlanText (rule_Target r) && validPlanText (rule_Action r)) rules
    | _, _ => false
    end.
Definition decodeSyncPlanRequest (raw : string) : option SyncPlanRequest :=
  if rejectDuplicatePlanFields raw then None
  else
    match decode_plan raw with
    | Some (request, true) =>
      if negb (validSyncPlanRequest request) then None
      else if bool_decide (raw = encode request) then Some request else None
    | _ => None
    end.
Definition canonicalSyncPlan (request : SyncPlanRequest) : string := encode request.
Definition syncPlanSHA256Hex (value : string) : string := sha256_hex value.
Definition plan_response (raw : string) (request : SyncPlanRequest) : SyncPlanResponse :=
  mkPlanResponse request (syncPlanSHA256Hex raw) (syncPlanSHA256Hex (canonicalSyncPlan request)).

(** * The handler *)

(** A request as the server hands it over: whether its context is done at each of the three
checks, whether the time limit passes first, the fields read, the bytes of the body and
whether an error follows them instead of its end. *)
Record plan_http := mkHttp {
  hq_done : nat → bool; hq_late : bool;
  hq_Method : string; hq_Path : string; hq_RawQuery : string; hq_ContentType : list string;
  hq_ContentLength : Z; hq_Body : string; hq_BodyErr : bool }.
Record plan_answer := mkAnswer { an_Status : Z; an_Allow : option string; an_Body : string }.

Definition invalid_body : string := "{" +:+ field "error" "invalid request" "}".
Definition timeout_body : string := "{" +:+ field "error" "request timeout" "}".
Definition writeSyncPlanError (status : Z) : plan_answer := mkAnswer status None invalid_body.
Definition writeSyncPlanMethodError (allowed : string) : plan_answer := mkAnswer 405 (Some allowed) invalid_body.
Definition writeSyncPlanJSON (status : Z) (payload : string) : plan_answer := mkAnswer status None payload.
Definition hasJSONContentType (r : plan_http) : bool := bool_decide (hq_ContentType r = ["application/json"]).
(** [io.LimitReader] ends the body after [n] bytes, before an error that comes later. *)
Definition read_body (r : plan_http) (n : Z) : result unit string :=
  if hq_BodyErr r && (Z.of_nat (String.length (hq_Body r)) <? n)%Z then Err ()
  else Ok (str_take (Z.to_nat n) (hq_Body r)).

Definition serveSyncPlanPost (r : plan_http) (maxBodyBytes : Z) : plan_answer :=
  if (maxBodyBytes <? hq_ContentLength r)%Z then writeSyncPlanError 413
  else
    match read_body r (maxBodyBytes + 1) with
    | Err _ => writeSyncPlanError 400
    | Ok raw =>
      if (maxBodyBytes <? Z.of_nat (String.length raw))%Z then writeSyncPlanError 413
      else if hq_done r 2 then writeSyncPlanError 408
      else
        match decodeSyncPlanRequest raw with
        | None => writeSyncPlanError 400
        | Some request => writeSyncPlanJSON 200 (json_response (plan_response raw request))
        end
    end.
Definition serveSyncPlanRequest (r : plan_http) (maxBodyBytes : Z) : plan_answer :=
  if hq_done r 1 then writeSyncPlanError 408
  else if bool_decide (hq_RawQuery r ≠ "") then writeSyncPlanError 404
  else if bool_decide (hq_Path r = "/healthz") then
    if negb (bool_decide (hq_Method r = "GET")) then writeSyncPlanMethodError "GET"
    else writeSyncPlanJSON 200 ("{" +:+ field "status" "ok" "}")
  else if bool_decide (hq_Path r = "/v1/plan") then
    if negb (bool_decide (hq_Method r = "POST")) then writeSyncPlanMethodError "POST"
    else if negb (hasJSONContentType r) then writeSyncPlanError 415
    else serveSyncPlanPost r maxBodyBytes
  else writeSyncPlanError 404.
Definition body_limit (maxBodyBytes : Z) : Z :=
  if ((maxBodyBytes <=? 0) || (maxPlanMaxBodyBytes <? maxBodyBytes))%Z then defaultPlanMaxBodyBytes else maxBodyBytes.
Definition newSyncPlanServerHandler (maxBodyBytes : Z) (r : plan_http) : plan_answer :=
  if hq_done r 0 then writeSyncPlanError 503
  else if hq_late r then mkAnswer 503 None timeout_body
  else serveSyncPlanRequest r (body_limit maxBodyBytes).
End plan.

(** * The scan of the tokens *)

(** What the scan accepts: no key twice, at most 128 of them, at most 32 levels. *)
Fixpoint plan_ok (depth : nat) (v : jtree) : bool :=
  match v with
  | JLeaf _ => true
  | JArray l => (depth <=? maxPlanJSONDepth) && forallb (plan_ok (S depth)) l
  | JObject l => (depth <=? maxPlanJSONDepth) && (length l <=? maxPlanObjectKeys) && bool_decide (NoDup l.*1) &&
      forallb (λ kv, plan_ok (S depth) kv.2) l
  end.
Definition verdict (ok : bool) (rest : list json_token) : scanned := Some (if ok then Some rest else None).

(** More fuel changes nothing, and there is enough of it. *)
Lemma scan_mono fuel : 
  (∀ depth seen toks r, object_loop fuel depth seen toks = Some r → object_loop (S fuel) depth seen toks = Some r) ∧
  (∀ depth toks r, array_loop fuel depth toks = Some r → array_loop (S fuel) depth toks = Some r) ∧
  (∀ value depth toks r, scanPlanValue fuel value depth toks = Some r → scanPlanValue (S fuel) value depth toks = Some r).
Proof.
  induction fuel as [|fuel (IHo & IHa & IHv)]; [done|]. split_and!.
  - intros depth seen toks r. remember (S fuel) as f eqn:Ef. cbn [object_loop]. rewrite Ef at 1. cbn [object_loop].
    destruct toks as [|[c|key|] toks]; try done. destruct (_ || _); [done|]. destruct toks as [|value toks]; [done|].
    destruct (scanPlanValue fuel value (S depth) toks) as [q|] eqn:Ev; [|done]. subst f. rewrite (IHv _ _ _ _ Ev).
    destruct q; [|done]. apply IHo.
  - intros depth toks r. remember (S fuel) as f eqn:Ef. cbn [array_loop]. rewrite Ef at 1. cbn [array_loop].
    destruct toks as [|value toks]; [done|]. destruct (match value with TDelim c => closes c | _ => false end); [done|].
    destruct (scanPlanValue fuel value (S depth) toks) as [q|] eqn:Ev; [|done]. subst f. rewrite (IHv _ _ _ _ Ev).
    destruct q; [|done]. apply IHa.
  - intros value depth toks r. remember (S fuel) as f eqn:Ef. cbn [scanPlanValue]. rewrite Ef at 1. cbn [scanPlanValue].
    subst f. destruct value as [c| |]; try done. destruct (c =c "{"); [destruct (_ <? _); [done|apply IHo]|].
    destruct (c =c "["); [destruct (_ <? _); [done|apply IHa]|done].
Qed.
(** The tokens that are left are fewer. *)
Definition answered (r : scanned) (n : nat) : Prop := ∃ q, r = Some q ∧ ∀ rest, q = Some rest → length rest ≤ n.
Lemma plan_scan_total fuel :
  (∀ depth seen toks, 2 * length toks < fuel → answered (object_loop fuel depth seen toks) (length toks)) ∧
  (∀ depth toks, 2 * length toks < fuel → answered (array_loop fuel depth toks) (length toks)) ∧
  (∀ value depth toks, 2 * length toks + 1 < fuel → answered (scanPlanValue fuel value depth toks) (length toks)).
Proof.
  assert (Hr : ∀ n, answered refused n) by (intros n; by exists None).
  induction fuel as [|fuel (IHo & IHa & IHv)]; [split_and!; lia|]. split_and!.
  - intros depth seen [|[c|key|] toks] Hf; cbn [object_loop]; try apply Hr; cbn [length] in *.
    + destruct (c =c "}"); [|apply Hr]. exists (Some toks). split; [done|]. intros ? [= <-]. lia.
    + destruct (_ || _); [apply Hr|]. destruct toks as [|value toks]; [apply Hr|]. cbn [length] in *.
      destruct (IHv value (S depth) toks ltac:(lia)) as ([rest|] & -> & H); [|apply Hr]. specialize (H rest eq_refl).
      destruct (IHo depth ({[key]} ∪ seen) rest ltac:(lia)) as (q & -> & Hq). exists q. split; [done|].
      intros rest' E. specialize (Hq rest' E). lia.
  - intros depth [|value toks] Hf; cbn [array_loop]; [apply Hr|]. cbn [length] in *.
    destruct (match value with TDelim c => closes c | _ => false end).
    + destruct (match value with TDelim c => _ | _ => false end); [|apply Hr]. exists (Some toks). split; [done|].
      intros ? [= <-]. lia.
    + destruct (IHv value (S depth) toks ltac:(lia)) as ([rest|] & -> & H); [|apply Hr]. specialize (H rest eq_refl).
      destruct (IHa depth rest ltac:(lia)) as (q & -> & Hq). exists q. split; [done|].
      intros rest' E. specialize (Hq rest' E). lia.
  - intros [c|s|] depth toks Hf; cbn [scanPlanValue].
    + destruct (c =c "{"); [destruct (_ <? _); [apply Hr|apply IHo; lia]|].
      destruct (c =c "["); [destruct (_ <? _); [apply Hr|apply IHa; lia]|apply Hr].
    + exists (Some toks). split; [done|]. by intros ? [= <-].
    + exists (Some toks). split; [done|]. by intros ? [= <-].
Qed.

Lemma object_more f f' depth seen toks r :
  f ≤ f' → object_loop f depth seen toks = Some r → object_loop f' depth seen toks = Some r.
Proof. induction 1 as [|? _ IH]; [done|]. intros Hr. by apply scan_mono, IH. Qed.
Lemma array_more f f' depth toks r : f ≤ f' → array_loop f depth toks = Some r → array_loop f' depth toks = Some r.
Proof. induction 1 as [|? _ IH]; [done|]. intros Hr. by apply scan_mono, IH. Qed.
Lemma value_more f f' value depth toks r :
  f ≤ f' → scanPlanValue f value depth toks = Some r → scanPlanValue f' value depth toks = Some r.
Proof. induction 1 as [|? _ IH]; [done|]. intros Hr. by apply scan_mono, IH. Qed.

(** A value begins with a token that closes nothing. *)
Lemma tokens_head v : ∃ tok tl, tokens_of v = tok :: tl ∧ (match tok with TDelim c => closes c | _ => false end) = false.
Proof. destruct v as [[s|]|l|l]; by eexists _, _. Qed.
Definition value_scan (depth : nat) (v : jtree) : Prop := ∀ rest, ∃ f,
  ∀ tok tl, tokens_of v = tok :: tl → scanPlanValue f tok depth (tl ++ rest) = verdict (plan_ok depth v) rest.
Lemma array_tokens depth l rest : Forall (value_scan (S depth)) l →
  ∃ f, array_loop f depth (flat_map tokens_of l ++ TDelim "]" :: rest) = verdict (forallb (plan_ok (S depth)) l) rest.
Proof.
  induction 1 as [|v l Hv _ [f IH]]; [by exists 1|]. destruct (tokens_head v) as (tok & tl & E & Hc).
  cbn [flat_map forallb]. rewrite E, <-app_assoc. cbn [app].
  destruct (Hv (flat_map tokens_of l ++ TDelim "]" :: rest)) as [g Hg]. specialize (Hg tok tl E).
  exists (S (f + g)). cbn [array_loop]. rewrite Hc, (value_more g (f + g) _ _ _ _ ltac:(lia) Hg).
  destruct (plan_ok (S depth) v); [|done]. by rewrite (array_more f (f + g) _ _ _ ltac:(lia) IH).
Qed.
Lemma object_tokens depth l rest : Forall (λ kv, value_scan (S depth) kv.2) l → ∀ seen, size seen ≤ maxPlanObjectKeys →
  ∃ f, object_loop f depth seen (flat_map (λ kv, TString kv.1 :: tokens_of kv.2) l ++ TDelim "}" :: rest) =
    verdict ((size seen + length l <=? maxPlanObjectKeys) &&
      bool_decide (NoDup l.*1 ∧ Forall (λ k, k ∉ seen) l.*1) && forallb (λ kv, plan_ok (S depth) kv.2) l) rest.
Proof.
  induction 1 as [|[k v] l Hv _ IH]; intros seen Hs.
  { exists 1. rewrite bool_decide_true by (split; constructor). cbn [length]. by rewrite Nat.add_0_r, (proj2 (Nat.leb_le _ _) Hs). }
  destruct (tokens_head v) as (tok & tl & E & _). cbn [flat_map forallb fst snd fmap list_fmap length] in *. rewrite E.
  cbn [app]. rewrite <-app_assoc.
  destruct (decide (k ∈ seen)) as [Hk|Hk].
  { exists 1. cbn [object_loop]. rewrite (bool_decide_true (k ∈ seen)) by done. cbn [orb].
    rewrite (bool_decide_false (NoDup _ ∧ _)); [by rewrite andb_false_r|]. intros [_ H]. apply Forall_cons in H. tauto. }
  destruct (Nat.leb_spec maxPlanObjectKeys (size seen)) as [Hfull|Hfree].
  { exists 1. cbn [object_loop]. rewrite (proj2 (Nat.leb_le _ _) Hfull), orb_true_r.
    rewrite (proj2 (Nat.leb_gt (size seen + _) _)) by lia. done. }
  assert (Hsize : size ({[k]} ∪ seen) = S (size seen)) by (rewrite size_union, size_singleton by set_solver; lia).
  destruct (IH ({[k]} ∪ seen) ltac:(lia)) as [f Hf].
  destruct (Hv (flat_map (λ kv, TString kv.1 :: tokens_of kv.2) l ++ TDelim "}" :: rest)) as [g Hg]. specialize (Hg tok tl E).
  exists (S (f + g)). cbn [object_loop]. rewrite (bool_decide_false (k ∈ seen)), (proj2 (Nat.leb_gt _ _) Hfree) by done.
  cbn [orb]. rewrite (value_more g (f + g) _ _ _ _ ltac:(lia) Hg). cbn [snd].
  destruct (plan_ok (S depth) v); [|by rewrite andb_false_r].
  cbn [verdict]. rewrite (object_more f (f + g) _ _ _ _ ltac:(lia) Hf). rewrite Hsize. cbn [andb].
  replace (S (size seen) + length l) with (size seen + S (length l)) by lia.
  rewrite (bool_decide_ext (NoDup l.*1 ∧ _) (NoDup (k :: l.*1) ∧ Forall (λ k, k ∉ seen) (k :: l.*1))); [done|].
  rewrite NoDup_cons, Forall_cons, !Forall_forall. set_solver.
Qed.
Lemma value_tokens v : ∀ depth, value_scan depth v.
Proof.
  induction v as [s|l IH|l IH] using jtree_values; intros depth rest.
  - exists 1. intros tok tl E. destruct s; cbn in E; by injection E as <- <-.
  - destruct (array_tokens depth l rest) as [f Hf]; [by eapply Forall_impl|].
    exists (S f). intros tok tl E. cbn in E. injection E as <- <-. cbn [scanPlanValue plan_ok]. change ("[" =c "{") with false.
    change ("[" =c "[") with true. cbn iota. rewrite <-app_assoc. cbn [app].
    rewrite Nat.ltb_antisym. destruct (depth <=? maxPlanJSONDepth); [exact Hf|done].
  - destruct (object_tokens depth l rest) with (seen := ∅ : gset string) as [f Hf]; [by eapply Forall_impl|rewrite size_empty; unfold maxPlanObjectKeys; lia|].
    exists (S f). intros tok tl E. cbn in E. injection E as <- <-. cbn [scanPlanValue plan_ok]. change ("{" =c "{") with true.
    cbn iota. rewrite <-app_assoc. cbn [app]. rewrite Nat.ltb_antisym. destruct (depth <=? maxPlanJSONDepth); [|done].
    cbn [negb andb]. rewrite Hf, size_empty. cbn [Nat.add]. do 2 f_equal. rewrite (bool_decide_ext _ (NoDup l.*1)); [done|].
    rewrite Forall_forall. set_solver.
Qed.

(** * Sizes *)

Lemma json_go_length k s : String.length (json_go k s) ≤ 6 * (String.length s - k).
Proof.
  assert (Hb : ∀ c, String.length (json_byte c) ≤ 6).
  { intros c. unfold json_byte. repeat (destruct (_ : bool); [cbn; lia|]). cbn. lia. }
  revert k. induction s as [|c s IH]; intros [|k]; cbn [json_go String.length]; [lia..| |specialize (IH k); lia].
  destruct (code c <? 128)%Z; [rewrite str_length_app; specialize (IH 0); specialize (Hb c); lia|].
  destruct (decode_rune (String c s)) as [r n]. specialize (IH (pred n)) as Hn.
  destruct (_ && _); [rewrite str_length_app; specialize (IH 0); cbn [u4 hex4 str1 String.length]; lia|].
  destruct (_ || _); rewrite str_length_app; [cbn [u4 hex4 str1 String.length]; lia|].
  rewrite str_take_length_min. cbn [String.length]. lia.
Qed.
Lemma json_string_length s : String.length (json_string s) ≤ 6 * String.length s + 2.
Proof.
  unfold json_string. pose proof (json_go_length 0 s). cbn [String.length]. rewrite (str_length_app (json_go 0 s) (str1 DQ)). cbn [String.length str1]. lia.
Qed.
Lemma joined_length (l : list string) n :
  Forall (λ s, String.length s ≤ n) l → String.length (join "," l) ≤ length l * S n.
Proof.
  induction 1 as [|s [|t l] Hs _ IH]; cbn [join length] in *; [cbn; lia|lia|].
  rewrite (str_length_app s), str_length_app. cbn [String.length str1] in *. lia.
Qed.
Definition text_bound : nat := 6 * maxPlanStringBytes + 2.
Lemma field_length `{Json A} name (v : A) rest n m :
  String.length (encode v) ≤ n → String.length rest ≤ m →
  String.length (field name v rest) ≤ 6 * String.length name + 3 + n + m.
Proof. intros Hv Hr. unfold field. rewrite !str_length_app. pose proof (json_string_length name). cbn [String.length]. lia. Qed.
Lemma cons_length c s n : String.length s ≤ n → String.length (String c "" +:+ s) ≤ S n.
Proof. rewrite str_length_app. cbn [String.length]. lia. Qed.
(** Bounds a record's encoding by those of its members. *)
Ltac record_length :=
  repeat match goal with
  | |- String.length (field _ _ _) ≤ _ => eapply field_length
  | |- String.length (_ +:+ _) ≤ _ => eapply cons_length
  end; eauto using le_n.
Lemma slice_length `{Json A} (l : list A) n : Forall (λ x, String.length (encode x) ≤ n) l →
  String.length (encode (Some l : slice A)) ≤ length l * S n + 2.
Proof.
  intros Hl. change (encode (Some l : slice A)) with ("[" +:+ (join "," (encode <$> l) +:+ "]")).
  rewrite !str_length_app.
  pose proof (joined_length (encode <$> l) n) as Hj. rewrite length_fmap in Hj. cbn [String.length].
  rewrite Forall_fmap in Hj. specialize (Hj Hl). lia.
Qed.

(** * Requests *)

Lemma forallb_Forall {A} (f : A → bool) l : forallb f l = true ↔ Forall (λ x, f x = true) l.
Proof. rewrite forallb_forall, Forall_forall. by setoid_rewrite list_elem_of_In. Qed.

Section props.
Context {UC : UnicodeCase} {SH : SHA256} {PJ : PlanJson}.

Lemma validPlanText_length s : validPlanText s = true → String.length s ≤ maxPlanStringBytes.
Proof. unfold validPlanText. intros H. by split_bools. Qed.
Lemma text_length s : validPlanText s = true → String.length (encode s) ≤ text_bound.
Proof.
  intros Hs%validPlanText_length. change (encode s) with (json_string s). pose proof (json_string_length s).
  unfold text_bound. lia.
Qed.
Lemma entries_length `{Json A} (l : slice A) n k : Forall (λ x, String.length (encode x) ≤ n) (elems l) →
  length (elems l) ≤ k → String.length (encode l) ≤ k * S n + 4.
Proof.
  destruct l as [l|]; intros Hl Hk; [|change (encode (None : slice A)) with "null"; cbn [String.length]; lia].
  change (length l ≤ k) in Hk. pose proof (slice_length l n Hl). assert (length l * S n ≤ k * S n) by (by apply Nat.mul_le_mono_r). lia.
Qed.
(** What the check of a request says. *)
Definition valid_selector (s : SyncPlanSelector) : Prop := validPlanText (sel_Name s) = true ∧ validPlanText (sel_Path s) = true.
Definition valid_rule (r : SyncPlanRule) : Prop := validPlanText (rule_Target r) = true ∧ validPlanText (rule_Action r) = true.
Lemma validSyncPlanRequest_spec p : validSyncPlanRequest p = true ↔
  pr_SchemaVersion p = planSchemaVersion ∧ validPlanText (pr_OperationID p) = true ∧
  validPlanText (pr_Namespace p) = true ∧ validPlanText (pr_Environment p) = true ∧
  ∃ selectors rules, pr_Selectors p = Some selectors ∧ pr_Rules p = Some rules ∧
    length selectors ≤ maxPlanEntries ∧ length rules ≤ maxPlanEntries ∧
    Forall valid_selector selectors ∧ Forall valid_rule rules.
Proof.
  unfold validSyncPlanRequest. destruct (bool_decide_reflect (pr_SchemaVersion p = planSchemaVersion)); [|naive_solver].
  destruct (validPlanText (pr_OperationID p)), (validPlanText (pr_Namespace p)), (validPlanText (pr_Environment p));
    cbn [negb orb]; try naive_solver.
  destruct (pr_Selectors p) as [ss|], (pr_Rules p) as [rs|]; try naive_solver.
  rewrite !andb_true_iff, negb_true_iff, orb_false_iff, !Nat.ltb_ge, !forallb_Forall.
  rewrite (Forall_iff _ ss valid_selector), (Forall_iff _ rs valid_rule) by (intros; apply andb_true_iff). split.
  - intros [[[? ?] ?] ?]. split_and!; [done..|]. by exists ss, rs.
  - intros (_ & _ & _ & _ & ? & ? & [= <-] & [= <-] & ? & ? & ? & ?). by split_and!.
Qed.

(** A request that is valid fits into the default limit of the body. *)
Theorem valid_request_fits p :
  validSyncPlanRequest p = true → (Z.of_nat (String.length (encode p)) ≤ maxPlanMaxBodyBytes)%Z.
Proof.
  intros (Ev & Ho%text_length & Hn%text_length & He%text_length & ss & rs & Es & Er & Hss & Hrs & Fs & Fr)%validSyncPlanRequest_spec.
  assert (Hs : Forall (λ s, String.length (encode s) ≤ 2 * text_bound + 60) ss).
  { eapply Forall_impl; [exact Fs|]. intros [n q] [H1%text_length H2%text_length]. cbn [sel_Name sel_Path] in *.
    etrans; [change (encode (mkSelector n q)) with (json_selector (mkSelector n q)); unfold json_selector; record_length|].
    cbn [String.length]. lia. }
  assert (Hr : Forall (λ r, String.length (encode r) ≤ 2 * text_bound + 90) rs).
  { eapply Forall_impl; [exact Fr|]. intros [n q] [H1%text_length H2%text_length]. cbn [rule_Target rule_Action] in *.
    etrans; [change (encode (mkRule n q)) with (json_rule (mkRule n q)); unfold json_rule; record_length|].
    cbn [String.length]. lia. }
  apply (entries_length (Some ss)  _ maxPlanEntries) in Hs; [|done]. apply (entries_length (Some rs) _ maxPlanEntries) in Hr; [|done].
  eassert (Hb : String.length (json_plan p) ≤ _).
  { unfold json_plan, plan_members. rewrite Es, Er, Ev. record_length. }
  change maxPlanMaxBodyBytes with 1048576%Z. change (encode p) with (json_plan p).
  cbn [String.length] in Hb. unfold maxPlanEntries, text_bound, maxPlanStringBytes in *.
  change (String.length (encode planSchemaVersion)) with 15 in Hb. lia.
Qed.

Lemma reject_tokens_value v :
  reject_tokens (tokens_of v) true = negb (match v with JObject _ => plan_ok 1 v | _ => false end).
Proof.
  destruct v as [[s|]|l|l]; [reflexivity..|]. destruct (value_tokens (JObject l) 1 []) as [f Hf].
  cbn [tokens_of reject_tokens] in *. specialize (Hf _ _ eq_refl). rewrite app_nil_r in Hf.
  change ("{" =c "{") with true. cbn iota.
  set (toks := flat_map _ l ++ [TDelim "}"]) in *. unfold scanPlanObject.
  destruct f as [|f]; [done|]. cbn [scanPlanValue] in Hf. change ("{" =c "{") with true in Hf. cbn iota in Hf.
  destruct (maxPlanJSONDepth <? 1); [by destruct (plan_ok 1 (JObject l))|].
  destruct (proj1 (plan_scan_total (scan_fuel toks)) 1 ∅ toks) as (q & Hq & _); [unfold scan_fuel; lia|].
  apply (object_more _ (f + scan_fuel toks)) in Hf; [|lia]. rewrite Hq.
  apply (object_more _ (f + scan_fuel toks)) in Hq; [|lia]. rewrite Hf in Hq. unfold verdict in Hq.
  destruct (plan_ok 1 (JObject l)); by injection Hq as <-.
Qed.

(** The check for repeated fields is exact.  Of a document that is one JSON value it
refuses everything but an object in which, at any depth, no object has a key twice or more
than 128 keys and no value is nested deeper than 32 levels; and it always comes to an answer. *)
Theorem plan_fields_exact data v :
  plan_tokens data = (tokens_of v, true) →
  rejectDuplicatePlanFields data = negb (match v with JObject _ => plan_ok 1 v | _ => false end).
Proof. unfold rejectDuplicatePlanFields. intros ->. apply reject_tokens_value. Qed.

(** A request as the tree of its encoding. *)
Definition tree_text (s : string) : jtree := JLeaf (Some s).
Definition plan_tree (p : SyncPlanRequest) : jtree := JObject [
  ("schema_version", tree_text (pr_SchemaVersion p)); ("operation_id", tree_text (pr_OperationID p));
  ("namespace", tree_text (pr_Namespace p)); ("environment", tree_text (pr_Environment p));
  ("selectors", match pr_Selectors p with None => JLeaf None | Some l =>
    JArray ((λ s, JObject [("name", tree_text (sel_Name s)); ("path", tree_text (sel_Path s))]) <$> l) end);
  ("rules", match pr_Rules p with None => JLeaf None | Some l =>
    JArray ((λ r, JObject [("target", tree_text (rule_Target r)); ("action", tree_text (rule_Action r))]) <$> l) end)].
(** What the decoder does with the text [json.Marshal] writes for a request. *)
Definition decodes (p : SyncPlanRequest) : Prop :=
  plan_tokens (encode p) = (tokens_of (plan_tree p), true) ∧ decode_plan (encode p) = Some (p, true).
Lemma plan_tree_ok p : plan_ok 1 (plan_tree p) = true.
Proof.
  unfold plan_tree. cbn [plan_ok forallb snd]. rewrite !andb_true_iff. split_and!; try done.
  - destruct (pr_Selectors p) as [l|]; [|done]. cbn [plan_ok]. apply andb_true_iff. split; [done|].
    apply forallb_Forall, Forall_fmap, Forall_true. done.
  - destruct (pr_Rules p) as [l|]; [|done]. cbn [plan_ok]. apply andb_true_iff. split; [done|].
    apply forallb_Forall, Forall_fmap, Forall_true. done.
Qed.
Lemma decode_canonical p : decodes p → validSyncPlanRequest p = true → decodeSyncPlanRequest (encode p) = Some p.
Proof.
  intros [Ht Hd] Hv. unfold decodeSyncPlanRequest, rejectDuplicatePlanFields. rewrite Ht, Hd, Hv.
  pose proof (reject_tokens_value (plan_tree p)) as ->. unfold plan_tree at 1. rewrite plan_tree_ok. cbn [negb].
  by rewrite bool_decide_true.
Qed.

Lemma decode_sound raw p :
  decodeSyncPlanRequest raw = Some p → validSyncPlanRequest p = true ∧ raw = encode p.
Proof.
  unfold decodeSyncPlanRequest. destruct (rejectDuplicatePlanFields raw); [done|].
  destruct (decode_plan raw) as [[q []]|]; [|done..]. destruct (validSyncPlanRequest q) eqn:Hv; [|done]. cbn [negb].
  case_bool_decide; [|done]. intros [= <-]. done.
Qed.
Lemma body_limit_range max : (0 < body_limit max ≤ maxPlanMaxBodyBytes)%Z.
Proof.
  unfold body_limit. destruct (_ || _)%Z eqn:E; [done|]. apply orb_false_iff in E as [?%Z.leb_gt ?%Z.ltb_ge]. lia.
Qed.
(** The body is read whole, or refused. *)
Lemma read_whole r max raw :
  (0 < max)%Z → read_body r (max + 1) = Ok raw → (max <? Z.of_nat (String.length raw))%Z = false → raw = hq_Body r.
Proof.
  unfold read_body. intros Hm. destruct (_ && _); [done|]. intros [= <-] Hl%Z.ltb_ge.
  rewrite str_take_length_min in Hl. apply str_take_all. lia.
Qed.
(** A request that comes through: in time, to the planner, of the declared type. *)
Definition well_posed (r : plan_http) : Prop :=
  (∀ n, hq_done r n = false) ∧ hq_late r = false ∧ hq_Method r = "POST" ∧ hq_Path r = "/v1/plan" ∧
  hq_RawQuery r = "" ∧ hq_ContentType r = ["application/json"] ∧ hq_BodyErr r = false ∧
  (hq_ContentLength r ≤ Z.of_nat (String.length (hq_Body r)))%Z.
(** The plan served for a request: both digests are of the body. *)
Definition served (r : plan_http) (p : SyncPlanRequest) : string :=
  json_response (mkPlanResponse p (sha256_hex (hq_Body r)) (sha256_hex (hq_Body r))).
Lemma post_answer r max : (0 < max)%Z →
  let a := serveSyncPlanPost r max in
  (an_Status a = 200%Z ∧ (∃ p, validSyncPlanRequest p = true ∧ hq_Body r = encode p ∧
    (Z.of_nat (String.length (hq_Body r)) ≤ max)%Z ∧ an_Body a = served r p)) ∨ (an_Status a ≠ 200%Z ∧ an_Body a = invalid_body).
Proof.
  intros Hm. unfold serveSyncPlanPost. destruct (_ <? _)%Z; [by right|].
  destruct (read_body r (max + 1)) as [raw|] eqn:Er; [|by right].
  destruct (max <? _)%Z eqn:El; [by right|]. pose proof (read_whole _ _ _ Hm Er El) as ->. apply Z.ltb_ge in El.
  destruct (hq_done r 2); [by right|]. destruct (decodeSyncPlanRequest _) as [p|] eqn:Ed; [|by right].
  apply decode_sound in Ed as [Hv Hb]. left. split; [done|]. exists p. split_and!; [done..|].
  unfold served, plan_response, canonicalSyncPlan, syncPlanSHA256Hex. by rewrite <-Hb.
Qed.

(** Where a request goes. *)
Lemma routed max r : let a := newSyncPlanServerHandler max r in
  (an_Status a ≠ 200%Z ∧ (an_Body a = invalid_body ∨ an_Body a = timeout_body)) ∨
  (hq_Path r = "/healthz" ∧ a = writeSyncPlanJSON 200 ("{" +:+ field "status" "ok" "}")) ∨
  (hq_Path r = "/v1/plan" ∧ hq_Method r = "POST" ∧ a = serveSyncPlanPost r (body_limit max)).
Proof.
  cbv zeta. unfold newSyncPlanServerHandler. destruct (hq_done r 0); [by left; auto|]. destruct (hq_late r); [by left; auto|].
  unfold serveSyncPlanRequest. destruct (hq_done r 1); [by left; auto|]. case_bool_decide; [by left; auto|].
  destruct (bool_decide_reflect (hq_Path r = "/healthz")).
  - destruct (negb _); [by left; auto|]. right. by left.
  - destruct (bool_decide_reflect (hq_Path r = "/v1/plan")); [|by left; auto].
    destruct (bool_decide_reflect (hq_Method r = "POST")); [|by left; auto]. cbn [negb].
    destruct (hasJSONContentType r); [|by left; auto]. right. by right.
Qed.
(** The planner serves exactly the canonical form of the valid requests.  An answer with
a plan means that the body was, byte for byte, the encoding of a request that passes every
check, and the plan is that request with its digests; every other answer is a fixed text, so
nothing of a refused request comes back.  And a valid request that arrives in canonical form,
whatever its size, gets its plan under the default limit. *)
Theorem plan_exact max r :
  let a := newSyncPlanServerHandler max r in
  (an_Status a = 200%Z →
    (hq_Path r = "/healthz" ∧ an_Body a = "{" +:+ field "status" "ok" "}") ∨
    (hq_Path r = "/v1/plan" ∧ hq_Method r = "POST" ∧ ∃ p, validSyncPlanRequest p = true ∧ hq_Body r = encode p ∧
      (Z.of_nat (String.length (hq_Body r)) ≤ body_limit max)%Z ∧ an_Body a = served r p)) ∧
  (an_Status a ≠ 200%Z → an_Body a = invalid_body ∨ an_Body a = timeout_body) ∧
  (∀ p, decodes p → validSyncPlanRequest p = true → well_posed r → hq_Body r = encode p →
    body_limit max = defaultPlanMaxBodyBytes → an_Status a = 200%Z ∧ an_Body a = served r p).
Proof.
  pose proof (body_limit_range max) as Hl. cbv zeta. split_and!.
  - destruct (routed max r) as [[? _]|[[? ->]|(? & ? & ->)]]; [done|by left|]. intros E. right.
    destruct (post_answer r (body_limit max) ltac:(lia)) as [[_ ?]|[? _]]; done.
  - destruct (routed max r) as [[_ ?]|[[_ ->]|(_ & _ & ->)]]; [done..|].
    destruct (post_answer r (body_limit max) ltac:(lia)) as [[? _]|[_ ?]]; [done|by left].
  - intros p Hd Hv (H0 & Hlate & HM & HP & HQ & HC & HE & HL) Hb Hdef. pose proof (valid_request_fits p Hv) as Hfit.
    unfold newSyncPlanServerHandler, serveSyncPlanRequest, hasJSONContentType. rewrite !H0, Hlate, HM, HP, HQ, HC.
    rewrite (bool_decide_false ("" ≠ "")), (bool_decide_false ("/v1/plan" = "/healthz")), !bool_decide_true by by_decide.
    cbn [negb]. unfold serveSyncPlanPost, read_body. rewrite HE, H0, Hdef. cbn [andb]. rewrite Hb in *.
    change maxPlanMaxBodyBytes with defaultPlanMaxBodyBytes in Hfit. rewrite (proj2 (Z.ltb_ge _ _)) by lia.
    rewrite str_take_all by lia. rewrite (proj2 (Z.ltb_ge _ _)), (decode_canonical p Hd Hv) by lia.
    split; [done|]. unfold served. by rewrite Hb.
Qed.
End props.

(** * A concrete request *)

Definition fx_plan : SyncPlanRequest :=
  mkPlan planSchemaVersion "op-1" "team" "prod" (Some [mkSelector "DB" "/prod/db"]) (Some [mkRule "github" "set"]).
Definition fx_plan_json : PlanJson := {|
  plan_tokens raw := if bool_decide (raw = encode fx_plan) then (tokens_of (plan_tree fx_plan), true) else ([], false);
  decode_plan raw := if bool_decide (raw = encode fx_plan) then Some (fx_plan, true) else None |}.
Definition fx_post : plan_http :=
  mkHttp (λ _, false) false "POST" "/v1/plan" "" ["application/json"] (-1) (encode fx_plan) false.
#[local] Existing Instance toy_sha.
#[local] Existing Instance fx_plan_json.

Example plan_exact_witness :
  decodes fx_plan ∧ validSyncPlanRequest fx_plan = true ∧ well_posed fx_post ∧
  an_Status (newSyncPlanServerHandler 0 fx_post) = 200%Z ∧ an_Body (newSyncPlanServerHandler 0 fx_post) = served fx_post fx_plan.
Proof.
  assert (Hd : decodes fx_plan) by (split; vm_compute; reflexivity).
  assert (Hv : validSyncPlanRequest fx_plan = true) by (vm_compute; reflexivity).
  assert (Hw : well_posed fx_post) by (split_and!; try done; vm_compute; discriminate).
  split_and!; [exact Hd|exact Hv|exact Hw| |];
    apply (proj2 (proj2 (plan_exact 0 fx_post)) fx_plan Hd Hv Hw eq_refl eq_refl).
Defined.
(** A key that comes twice is refused, also where the decoder would take the last one. *)
Example plan_fields_exact_witness :
  let tree := JObject [("a", JLeaf None); ("b", JArray [JObject [("c", JLeaf None); ("c", JLeaf None)]])] in
  let PJ := {| plan_tokens _ := (tokens_of tree, true); decode_plan _ := None |} in
  rejectDuplicatePlanFields (PJ := PJ) "" = true.
Proof.
  intros tree PJ. rewrite (plan_fields_exact (PJ := PJ) "" tree eq_refl). reflexivity.
Defined.
